(* ===== verification/_CoqProject ===== *)
-Q . S2P
Prelude.v
Bytes.v
Rock.v
F64.v
Api.v
RocksDb.v
Schema.v
Keys.v
Engine.v
EngineFacts.v
EngineWrites.v
Samples.v
Errors.v
EngineProps.v
Cas.v
EvalTxn.v
EvalTxnFacts.v
TxnSamples.v
EvalTxnProps.v
EvalRead.v
ScanProps.v
EvalWrite.v
EvalWriteProps.v
TxnTable.v
TxnTableProps.v
TxnServerImpl.v
Latch.v
LatchProps.v
LatchOrder.v
Resolve.v
Fsm.v
FsmProps.v
FsmPlug.v
Lease.v
FsmSamples.v
Parse.v
ParseProps.v
ParseRound.v
Router.v
GroupClient.v
GroupClientProps.v
ClientTxn.v
ClientTxnProps.v
ClientTxnSamples.v
RangeScan.v
LogEngine.v
RaftStorage.v
RaftStorageProps.v
Applier.v
ApplierProps.v
RaftSamples.v
Replica.v
ReplicaProps.v
ShardClient.v
MoveShard.v
Node.v
NodeProps.v
MoveProtocol.v
NodeSamples.v
RootStats.v
Allocator.v
AllocatorProps.v
RootSchema.v
RootSchemaProps.v
RootWatch.v
Jobs.v
JobsProps.v
RootSamples.v
Tso.v
RootHub.v
RootService.v
RootServiceProps.v
RootSchedule.v
ServiceSamples.v
GroupSched.v
GroupSchedProps.v
GroupSchedSamples.v
Hosting.v
HostingProps.v
HostingSamples.v
