(* ===== verification/Prelude.v ===== *)
(** * Sekas: a verification development

    Sekas is a distributed transactional key-value store.  Keys live in
    shards, shards in groups, groups are replicated by raft; a client routes
    requests to group leaders and commits transactions with write intents and a
    transaction record.  This library models the program's own logic (the
    crates [api], [rock], [schema], [parser], [client] and [server] under
    [src/src]) and proves what makes it correct.  Paths below are relative to
    [src/src].

    ** Conventions

    - Integers are [Z]; a [u64] or [i64] is kept at its width where the code
      relies on it ([u64_ok], [u64], [i64_wrap] in [Bytes]), and wrap-around is
      written out.  Byte strings are [list byte] ([Bytes]).
    - Fallible code returns [result] ([Prelude]): [Ok], [Err] of the source's
      error type, or [Panic] for [unwrap], [expect], [panic!], [unreachable!]
      and slices out of range.  [debug_assert!] is left out.
    - Code that changes state takes and returns it.  Code that awaits a service
      takes the service as a parameter or a class, with a world that the
      service may change; a loop that need not end takes fuel and returns
      [None] when it runs out, and the theorems about it say for which fuel it
      does not.
    - Third-party code is an interface with the laws the code relies on:
      RocksDB and protobuf in [RocksDb], the transport and the clock as
      arguments.  [Samples], [TxnSamples], [FsmSamples] and
      [ClientTxnSamples] give instances, so every hypothesis has a witness.
    - Texts of error messages are kept where the code compares or returns them;
      logging and metrics are left out.

    ** Files

    Ground: [Prelude] (results, notation, tactics, list lemmas), [Bytes]
    (bytes, order, fixed-width integers), [Rock] (crate [rock]), [Api] (crate
    [api]: messages, descriptors, epochs; the error and state types of the
    server), [RocksDb] (the storage engine and codec interfaces), [Errors]
    ([client/src/error.rs], the conversions of [server/src/error.rs], the wire
    error of [api/src/error.rs]), [Schema] (crate [schema]).

    Group engine ([server/src/engine/group.rs]): [Keys] the encoding of
    multi-version keys and values, [Engine] snapshots, iterators, writes,
    commit, create, open and ingest; [EngineFacts], [EngineWrites],
    [EngineProps] their theorems: encoded keys sort as user key and then newest
    version first and decode to what was encoded; a read returns all versions
    once; a committed batch changes exactly the versions it names.  [Durable]
    adds what a crash keeps: the files, the write-ahead log, and the commits of
    the state machine that skip the log; an engine opened after a crash made a
    prefix of the commits, and its apply state says which.

    Commands ([server/src/replica/eval]): [Cas] conditions; [EvalTxn]
    [cmd_txn.rs] and the latch interface; [EvalRead] [cmd_get.rs],
    [cmd_scan.rs]; [EvalWrite] [cmd_write.rs], [cmd_ingest.rs] and the shard
    commands; with [EvalTxnFacts], [EvalTxnProps], [ScanProps], [EvalWriteProps].  The three intent handlers refine a small
    specification of a key (its versions and at most one intent); in every
    interleaving of the handlers on a key no update is lost; scans are exact,
    with and without limits; ingestion moves all versions.

    Transactions: [TxnTable] [client/src/txn_table.rs] and the write builder of
    [client/src/txn.rs], [TxnTableProps] that a decision is final and reads
    back, [TxnServerImpl] that the modelled server discharges the table's
    interface; [Latch] [latch.rs] as a step relation, [LatchProps] and
    [LatchOrder] mutual exclusion, order of arrival and absence of deadlock;
    [Resolve] the remote latch manager: an intent in the way is settled as its
    transaction record says, and the point reads and scans of [EvalRead] that
    go through it return the newest settled versions; [ClientTxn] and
    [ClientTxnProps] the two-phase commit of the client, over a network that
    loses requests to the transaction table and answers of it.

    Replica ([server/src/replica]): [Fsm] [fsm/mod.rs], applying proposals,
    configuration changes and shard operations, with [FsmProps] (shards stay a
    partition, epochs grow, under the conditions on the proposals that
    [op_safe] lists and the code does not check) and [FsmPlug] (batching does not matter); [Lease]
    [state.rs] and the admission of [mod.rs], and that what is admitted
    saw what was applied.

    Client: [Router] [rpc/router.rs] and that routing follows
    the descriptors; [GroupClient] [group_client.rs], [retry.rs] and the
    request builders of [api/src/request.rs], with [GroupClientProps]
    (invocations end, a write is executed at most once); [RangeScan]
    [range.rs], and which keys a scan over shards delivers: all of them when
    no answer is cut, and otherwise those that do not extend the last key of a
    cut answer.

    Parser (crate [parser]): [Parse] the tokenizer and the statements; [ParseProps] that parsing
    ends and gives well-formed statements, [ParseRound] that it inverts
    a printer of our own on the statements that [printable] admits.

    Raft glue ([server/src/raftgroup]): [LogEngine] the log engine as a region
    sees it ([third/raft-engine/src/memtable.rs] and what [engine.rs] and
    [log_batch.rs] do with it); [RaftStorage] [storage.rs] and the
    configuration messages of [mod.rs], with [RaftStorageProps] (the storage
    with its cache is a log, also after a restart, when compaction stays within
    the recorded commit index); [Applier] [applier.rs] and
    the state-machine trait of [fsm.rs], with [ApplierProps] (what is
    acknowledged was applied).  [RaftSamples] holds the instances.

    Requests and moves: [Replica] [replica/mod.rs], from admission through the
    latches and the handlers to the proposal, and the retries of [retry.rs];
    [ShardClient] [client/src/shard_client.rs] and [move_shard_client.rs];
    [MoveShard] [replica/move_shard.rs]; [Node] the node's handling of
    requests, forwarding, the coordinator of a move and the removal of what was
    moved ([node/mod.rs], [node/move_shard], [service/node.rs]).
    [ReplicaProps] and [NodeProps] follow a request from the client to its
    effect, which happens at most once; [MoveProtocol] runs the
    operations of [MoveShard] on two state machines under an abstract step
    relation, not derived from the coordinator of [Node], and follows who owns
    the shard but not its data: the shard is never served twice, and with fresh
    answers it stays with one of the two.  [NodeSamples] holds runs.

    The root ([server/src/root]): [F64] is the part of binary64 arithmetic that
    the balancing policies use, with every rounding; [RootStats] the statistics,
    the liveness of nodes and the allocator's view ([stats.rs], [liveness.rs],
    [allocator/source.rs]), where the iteration order of a hash map is a
    parameter; [Allocator] the three policies and the placement, with
    [AllocatorProps] (balancing ends, and what it decides is sound in floating
    point); [RootSchema] the catalog over the root group ([store.rs],
    [schema.rs]), a replica whose writes may fail or go unacknowledged, with
    [RootSchemaProps] (the catalog stays well formed) and [RootWatch] (a
    watcher can route); [Jobs] the background jobs ([bg_job.rs]) with
    [JobsProps] (what a table creation leaves behind).  [RootSamples]
    holds small clusters, and runs where the policies and the jobs miss.

    The life of a root: [Tso] is the allocation of transaction identifiers
    ([root/mod.rs]) as a step relation over the leaders of all terms, in
    which no identifier is given twice; [RootHub] the watch hub
    ([watch.rs]) and the heartbeat queue, with what they keep; [RootService]
    what the leader offers ([root/mod.rs], [heartbeat.rs], the wrapper of
    [service/root.rs]), with [RootServiceProps] (a watcher misses nothing, a
    report handled alone sets nothing back; two reports handled at once can); [RootSchedule] the reconcile scheduler
    ([schedule.rs]) and [step_leader], as programs.  [ServiceSamples]
    holds a root with two terms, watchers and heartbeats, and
    the runs in which it loses track.

    The scheduler of a group ([server/src/schedule]): [GroupSched] its event
    sources, providers, lock table, tasks, actions, timers and the scheduler
    itself; [GroupSchedProps] that locks are exclusive and polls do not panic,
    that what keeps a group durable is safe, and that the timers are a map of
    deadlines; [GroupSchedSamples] a group that loses a replica, and where its
    scheduler gets stuck.

    The life of a node ([node/mod.rs], [node/route_table.rs],
    [engine/state.rs], [bootstrap.rs]): [Hosting] what is on disk about its
    replicas and how they are created, served, removed, destroyed and found
    again, every write noted in a journal; [HostingProps] that the node refines
    a map from replicas to groups and that an operation interrupted by a crash
    happened entirely or not at all; [HostingSamples] the first node of a
    cluster, and the requests and crashes it does not survive.

    ** Fuel and bounds

    The scans of the engine and the parser take as fuel a bound of their input
    (the number of entries left, the number of bytes), and theorems show that
    more fuel changes nothing.  The client's loops take the caller's fuel;
    [invoke_terminates] and [range_scan_exact] give a sufficient amount;
    [two_phase_commit] gives one for a commit with a deadline, and one without
    may retry for ever.

    ** Not modelled

    The raft algorithm and the event loop that drives it, the log writer, the
    transport and the snapshot files (the raft crate, files and network); gRPC services and
    connection pools; process start, configuration, the runtime (wrappers of
    tokio), the command-line programs and the unfinished etcd layer; metrics;
    RocksDB options.  The crates under [third] are other projects; only the
    in-memory tables of the log engine are modelled, because the storage
    depends on how they treat overwritten and compacted entries. *)

From stdpp Require Export base list gmap strings numbers sorting.
From Stdlib Require Export ZArith Lia.
From Stdlib Require Strings.Byte.

(** ** Fallible code

    A Rust [Result<A, E>] together with the panics ([unwrap], [expect],
    [panic!], [todo!], [unreachable!], out-of-range slices) the source can
    run into. *)
Inductive result (E A : Type) : Type :=
  | Ok (a : A)
  | Err (e : E)
  | Panic.
Arguments Ok {E A} a.
Arguments Err {E A} e.
Arguments Panic {E A}.

Definition result_bind {E A B} (m : result E A) (k : A → result E B) : result E B :=
  match m with
  | Ok a => k a
  | Err e => Err e
  | Panic => Panic
  end.

(** [Result::map_err]. *)
Definition result_map_err {E F A} (f : E → F) (m : result E A) : result F A :=
  match m with
  | Ok a => Ok a
  | Err e => Err (f e)
  | Panic => Panic
  end.

(** [Option::ok_or_else]. *)
Definition ok_or {E A} (o : option A) (e : E) : result E A :=
  match o with
  | Some a => Ok a
  | None => Err e
  end.

(** [Option::expect] / [Option::unwrap]. *)
Definition expect {E A} (o : option A) : result E A :=
  match o with
  | Some a => Ok a
  | None => Panic
  end.

Definition is_ok {E A} (m : result E A) : bool :=
  match m with Ok _ => true | _ => false end.

Declare Scope sekas_scope.
Delimit Scope sekas_scope with sekas.
Notation "'let?' x := m 'in' k" := (result_bind m (λ x, k))
  (at level 10, x name, m at level 100, k at level 200) : sekas_scope.
Notation "'let?' ' p := m 'in' k" := (result_bind m (λ p, k))
  (at level 10, p strict pattern, m at level 100, k at level 200) : sekas_scope.
Notation "'do?' m 'in' k" := (result_bind m (λ _, k))
  (at level 10, m at level 100, k at level 200) : sekas_scope.
Open Scope sekas_scope.
Open Scope Z_scope.

(** ** Asynchronous code: a state is threaded through every [await]; [None]
    is a run the given fuel does not finish. *)
Definition prog (S E A : Type) : Type := S → option (result E A * S).
Definition prog_lift {S E A} (m : result E A) : prog S E A := λ s, Some (m, s).
Definition prog_reads {S E A} (f : S → result E A) : prog S E A := λ s, Some (f s, s).
Definition prog_bind {S E A B} (m : prog S E A) (k : A → prog S E B) : prog S E B := λ s,
  match m s with
  | None => None
  | Some (Ok a, s') => k a s'
  | Some (Err e, s') => Some (Err e, s')
  | Some (Panic, s') => Some (Panic, s')
  end.
Notation "'let*' x := m 'in' k" := (prog_bind m (λ x, k))
  (at level 10, x name, m at level 100, k at level 200) : sekas_scope.
Notation "'let*' ' p := m 'in' k" := (prog_bind m (λ p, k))
  (at level 10, p strict pattern, m at level 100, k at level 200) : sekas_scope.
Notation "'do*' m 'in' k" := (prog_bind m (λ _, k))
  (at level 10, m at level 100, k at level 200) : sekas_scope.

(** ** Machine integers: [u64] and [i64] as [Z] with explicit wrap-around *)
Definition u64_MAX : Z := 2 ^ 64 - 1.
Definition u64_ok (z : Z) : Prop := 0 ≤ z ≤ u64_MAX.
Definition u64_wrap (z : Z) : Z := z mod 2 ^ 64.
Definition u64_add (a b : Z) : Z := u64_wrap (a + b).
(** [!x] on [u64]. *)
Definition u64_not (z : Z) : Z := u64_MAX - z.
Definition i64_wrap (z : Z) : Z := (z + 2 ^ 63) mod 2 ^ 64 - 2 ^ 63.
Definition i64_ok (z : Z) : Prop := - 2 ^ 63 ≤ z < 2 ^ 63.
(** [checked_sub]. *)
Definition checked_sub (a b : Z) : option Z := if b <=? a then Some (a - b) else None.

#[global] Instance u64_ok_dec z : Decision (u64_ok z).
Proof. unfold u64_ok. apply _. Defined.
#[global] Instance i64_ok_dec z : Decision (i64_ok z).
Proof. unfold i64_ok. apply _. Defined.

(** ** Hint databases and tactics of the development *)
Create HintDb sekas discriminated.
Create Rewrite HintDb sekas_rw.

(** Case analysis on the discriminee of the first [match] or [if] found. *)
(** Both sides compute to the same, which the kernel's machine checks. *)
Ltac computed := match goal with |- _ = ?r => vm_cast_no_check (eq_refl r) end.
Ltac case_on_match :=
  match goal with
  | |- context [match ?x with _ => _ end] => destruct x eqn:?
  | H : context [match ?x with _ => _ end] |- _ => destruct x eqn:?
  end.

Ltac simplify_res :=
  repeat (unfold ok_or, expect in *; cbn [result_bind] in *; simplify_eq).

(** Split every [match] of a straight-line function body and clean up. *)
Ltac crush_match :=
  repeat (simplify_res; case_on_match); simplify_res; try done.

(** Decides the integer comparisons of the goal that [lia] can decide. *)
Ltac zbool :=
  repeat match goal with
  | |- context [Z.leb ?a ?b] =>
      first [ rewrite (proj2 (Z.leb_le a b)) by lia | rewrite (proj2 (Z.leb_gt a b)) by lia ]
  | |- context [Z.ltb ?a ?b] =>
      first [ rewrite (proj2 (Z.ltb_lt a b)) by lia | rewrite (proj2 (Z.ltb_ge a b)) by lia ]
  | |- context [Z.eqb ?a ?b] =>
      first [ rewrite (proj2 (Z.eqb_eq a b)) by lia | rewrite (proj2 (Z.eqb_neq a b)) by lia ]
  end.

(** Turn boolean comparisons into the propositions they decide. *)
Ltac to_prop :=
  repeat match goal with
  | H : (_ && _)%bool = true |- _ => apply andb_true_iff in H as [? ?]
  | H : (_ || _)%bool = false |- _ => apply orb_false_iff in H as [? ?]
  | H : negb _ = true |- _ => apply negb_true_iff in H
  | H : negb _ = false |- _ => apply negb_false_iff in H
  | H : (_ <=? _) = true |- _ => apply Z.leb_le in H
  | H : (_ <=? _) = false |- _ => apply Z.leb_gt in H
  | H : (_ <? _) = true |- _ => apply Z.ltb_lt in H
  | H : (_ <? _) = false |- _ => apply Z.ltb_ge in H
  | H : (_ =? _) = true |- _ => apply Z.eqb_eq in H
  | H : (_ =? _) = false |- _ => apply Z.eqb_neq in H
  | H : bool_decide _ = true |- _ => apply bool_decide_eq_true in H
  | H : bool_decide _ = false |- _ => apply bool_decide_eq_false in H
  end.

(** ** Generic lemmas *)
Lemma result_bind_ok {E A B} (m : result E A) (k : A → result E B) b :
  result_bind m k = Ok b ↔ ∃ a, m = Ok a ∧ k a = Ok b.
Proof. destruct m; cbn; naive_solver. Qed.

Lemma result_bind_err {E A B} (m : result E A) (k : A → result E B) e :
  result_bind m k = Err e ↔ m = Err e ∨ ∃ a, m = Ok a ∧ k a = Err e.
Proof. destruct m; cbn; naive_solver. Qed.

Lemma result_bind_assoc {E A B C} (m : result E A) (f : A → result E B) (g : B → result E C) :
  result_bind (result_bind m f) g = result_bind m (λ x, result_bind (f x) g).
Proof. by destruct m. Qed.

Lemma u64_wrap_small z : u64_ok z → u64_wrap z = z.
Proof. unfold u64_ok, u64_MAX, u64_wrap. intros. apply Z.mod_small. lia. Qed.

Lemma u64_wrap_ok z : u64_ok (u64_wrap z).
Proof.
  unfold u64_ok, u64_wrap, u64_MAX.
  pose proof (Z.mod_pos_bound z (2 ^ 64) ltac:(lia)). lia.
Qed.

Lemma u64_not_ok z : u64_ok z → u64_ok (u64_not z).
Proof. unfold u64_ok, u64_not. lia. Qed.

Lemma u64_not_not z : u64_not (u64_not z) = z.
Proof. unfold u64_not. lia. Qed.

Lemma i64_wrap_small z : i64_ok z → i64_wrap z = z.
Proof. unfold i64_ok, i64_wrap. intros. rewrite Z.mod_small; lia. Qed.

Lemma i64_wrap_ok z : i64_ok (i64_wrap z).
Proof.
  unfold i64_ok, i64_wrap.
  pose proof (Z.mod_pos_bound (z + 2 ^ 63) (2 ^ 64) ltac:(lia)). lia.
Qed.

Lemma find_some_iff_first {A} (f : A → bool) (l : list A) x :
  List.find f l = Some x →
  ∃ l1 l2, l = l1 ++ x :: l2 ∧ f x = true ∧ Forall (λ y, f y = false) l1.
Proof.
  induction l as [|y l IH]; cbn; [done|].
  destruct (f y) eqn:E; intros H.
  - simplify_eq. by exists [], l.
  - destruct (IH H) as (l1 & l2 & -> & ? & ?).
    exists (y :: l1), l2. repeat split; auto.
Qed.

(** A list sorted by an asymmetric relation is determined by its elements. *)
Lemma sorted_strict_unique {A} (R : A → A → Prop) (l1 l2 : list A) :
  (∀ x y, R x y → R y x → False) →
  StronglySorted R l1 → StronglySorted R l2 → (∀ x, x ∈ l1 ↔ x ∈ l2) → l1 = l2.
Proof.
  intros Hasym H1. revert l2. induction H1 as [|x l1 Hs1 IH Hf1]; intros l2 H2 Heq.
  { destruct l2 as [|y l2]; [done|]. exfalso. eapply not_elem_of_nil, Heq. left. }
  destruct H2 as [|y l2 Hs2 Hf2].
  { exfalso. eapply not_elem_of_nil, Heq. left. }
  rewrite Forall_forall in Hf1, Hf2.
  assert (x = y) as ->.
  { assert (x ∈ y :: l2) as [?|Hx]%elem_of_cons by (apply Heq; left); [done|].
    assert (y ∈ x :: l1) as [?|Hy]%elem_of_cons by (apply Heq; left); [done|].
    destruct (Hasym x y); auto. }
  f_equal. apply IH; [done|]. intros z. split; intros Hz.
  - assert (z ∈ y :: l2) as [->|?]%elem_of_cons by (apply Heq; by right); [|done].
    destruct (Hasym y y); auto.
  - assert (z ∈ y :: l1) as [->|?]%elem_of_cons by (apply Heq; by right); [|done].
    destruct (Hasym y y); auto.
Qed.

#[export] Hint Resolve u64_wrap_ok u64_not_ok i64_wrap_ok : sekas.
#[export] Hint Rewrite u64_not_not : sekas_rw.
