(* ===== verification/Bytes.v ===== *)
(** * Byte strings

    [Vec<u8>] / [&[u8]] as lists of [Byte.byte]: the lexicographic order Rust
    (and RocksDB's default comparator) uses on byte slices, prefix and suffix
    tests, and the fixed-width integer encodings ([to_be_bytes],
    [to_le_bytes], [from_be_bytes]) of the standard library. *)

From S2P Require Import Prelude.
From Stdlib Require Import Strings.Byte.

Abbreviation byte := Byte.byte.
Abbreviation bytes := (list Byte.byte).

(** ** Bytes as integers *)
Definition byte_Z (b : byte) : Z := Z.of_N (Byte.to_N b).
Definition Z_byte (z : Z) : byte :=
  match Byte.of_N (Z.to_N (z mod 256)) with
  | Some b => b
  | None => Byte.x00
  end.

#[global] Instance byte_eq_dec : EqDecision byte.
Proof. intros a b. unfold Decision. apply Byte.byte_eq_dec. Defined.

#[global] Program Instance byte_countable : Countable byte :=
  inj_countable Byte.to_N Byte.of_N _.
Next Obligation. apply Byte.of_to_N. Qed.

(** ** Lexicographic comparison of byte slices *)
Fixpoint bytes_cmp (a b : bytes) : comparison :=
  match a, b with
  | [], [] => Eq
  | [], _ :: _ => Lt
  | _ :: _, [] => Gt
  | x :: a', y :: b' =>
      match byte_Z x ?= byte_Z y with
      | Eq => bytes_cmp a' b'
      | c => c
      end
  end.
Definition bytes_ltb (a b : bytes) : bool :=
  match bytes_cmp a b with Lt => true | _ => false end.
Definition bytes_leb (a b : bytes) : bool :=
  match bytes_cmp a b with Gt => false | _ => true end.
Definition bytes_eqb (a b : bytes) : bool := bool_decide (a = b).
Definition bytes_lt (a b : bytes) : Prop := bytes_cmp a b = Lt.
Definition bytes_le (a b : bytes) : Prop := bytes_cmp a b ≠ Gt.
#[global] Instance bytes_lt_dec a b : Decision (bytes_lt a b).
Proof. unfold bytes_lt. apply _. Defined.
#[global] Instance bytes_le_dec a b : Decision (bytes_le a b).
Proof. unfold bytes_le. apply _. Defined.

(** [slice::starts_with] / [slice::ends_with]. *)
Fixpoint starts_with (s prefix : bytes) : bool :=
  match prefix, s with
  | [], _ => true
  | p :: prefix', c :: s' => bool_decide (p = c) && starts_with s' prefix'
  | _ :: _, [] => false
  end.
Definition ends_with (s suffix : bytes) : bool := starts_with (rev s) (rev suffix).

(** ** Integer encodings: [n] bytes, most (big-endian) or least
    (little-endian) significant first *)
Fixpoint le_bytes (n : nat) (z : Z) : bytes :=
  match n with
  | O => []
  | S n' => Z_byte z :: le_bytes n' (z / 256)
  end.
Fixpoint from_le_bytes (l : bytes) : Z :=
  match l with
  | [] => 0
  | b :: l' => byte_Z b + 256 * from_le_bytes l'
  end.
Definition be_bytes (n : nat) (z : Z) : bytes := rev (le_bytes n z).
Definition from_be_bytes (l : bytes) : Z := from_le_bytes (rev l).
Definition u64_to_be_bytes (z : Z) : bytes := be_bytes 8 z.
Definition u64_to_le_bytes (z : Z) : bytes := le_bytes 8 z.

(** ASCII literals [b"..."]. *)
Definition str_bytes (s : string) : bytes := String.list_byte_of_string s.

(** ** Facts *)
Lemma byte_Z_range b : 0 ≤ byte_Z b < 256.
Proof. unfold byte_Z. pose proof (Byte.to_N_bounded b). lia. Qed.

Lemma Z_byte_Z b : Z_byte (byte_Z b) = b.
Proof.
  unfold Z_byte. pose proof (byte_Z_range b).
  rewrite Z.mod_small by lia. unfold byte_Z. rewrite N2Z.id.
  by rewrite Byte.of_to_N.
Qed.

Lemma byte_Z_byte z : byte_Z (Z_byte z) = z mod 256.
Proof.
  unfold Z_byte, byte_Z. pose proof (Z.mod_pos_bound z 256 ltac:(lia)).
  destruct (Byte.of_N (Z.to_N (z mod 256))) as [b|] eqn:E.
  - apply Byte.to_of_N in E. rewrite E. lia.
  - apply Byte.of_N_None_iff in E. lia.
Qed.

Lemma byte_Z_inj a b : byte_Z a = byte_Z b → a = b.
Proof. intros H. by rewrite <- (Z_byte_Z a), H, Z_byte_Z. Qed.

Lemma bytes_cmp_refl a : bytes_cmp a a = Eq.
Proof. induction a; cbn; [done|]. by rewrite Z.compare_refl. Qed.

Lemma bytes_cmp_eq a b : bytes_cmp a b = Eq ↔ a = b.
Proof.
  split; [|intros ->; apply bytes_cmp_refl].
  revert b; induction a as [|x a IH]; intros [|y b]; cbn; try done.
  destruct (Z.compare_spec (byte_Z x) (byte_Z y)); try done.
  intros ?. f_equal; auto using byte_Z_inj.
Qed.

Lemma bytes_cmp_antisym a b : bytes_cmp b a = CompOpp (bytes_cmp a b).
Proof.
  revert b; induction a as [|x a IH]; intros [|y b]; cbn; try done.
  rewrite (Z.compare_antisym (byte_Z x) (byte_Z y)).
  destruct (byte_Z x ?= byte_Z y); cbn; auto.
Qed.

Lemma bytes_lt_irrefl a : ¬ bytes_lt a a.
Proof. unfold bytes_lt. by rewrite bytes_cmp_refl. Qed.

Lemma bytes_lt_trans a b c : bytes_lt a b → bytes_lt b c → bytes_lt a c.
Proof.
  unfold bytes_lt. revert b c.
  induction a as [|x a IH]; intros [|y b] [|z c]; cbn; try done.
  destruct (Z.compare_spec (byte_Z x) (byte_Z y)),
    (Z.compare_spec (byte_Z y) (byte_Z z)); intros; try done.
  - rewrite (proj2 (Z.compare_eq_iff _ _)) by lia. eauto.
  - rewrite (proj2 (Z.compare_lt_iff _ _)) by lia. done.
  - rewrite (proj2 (Z.compare_lt_iff _ _)) by lia. done.
  - rewrite (proj2 (Z.compare_lt_iff _ _)) by lia. done.
Qed.

Lemma bytes_lt_gt a b : bytes_cmp a b = Gt ↔ bytes_lt b a.
Proof.
  unfold bytes_lt. rewrite (bytes_cmp_antisym a b).
  destruct (bytes_cmp a b); cbn; naive_solver.
Qed.

Lemma bytes_le_lteq a b : bytes_le a b ↔ bytes_lt a b ∨ a = b.
Proof.
  unfold bytes_le, bytes_lt. rewrite <- bytes_cmp_eq.
  destruct (bytes_cmp a b); naive_solver.
Qed.

Lemma bytes_not_le a b : ¬ bytes_le a b ↔ bytes_lt b a.
Proof.
  rewrite <- bytes_lt_gt. unfold bytes_le. destruct (bytes_cmp a b); naive_solver.
Qed.

Lemma bytes_not_lt a b : ¬ bytes_lt a b ↔ bytes_le b a.
Proof.
  unfold bytes_lt, bytes_le. rewrite (bytes_cmp_antisym a b).
  destruct (bytes_cmp a b); cbn; naive_solver.
Qed.

Lemma bytes_le_refl a : bytes_le a a.
Proof. apply bytes_le_lteq. auto. Qed.

Lemma bytes_le_trans a b c : bytes_le a b → bytes_le b c → bytes_le a c.
Proof.
  rewrite !bytes_le_lteq. intros [?| ->] [?| ->]; eauto using bytes_lt_trans.
Qed.

Lemma bytes_le_lt_trans a b c : bytes_le a b → bytes_lt b c → bytes_lt a c.
Proof. rewrite bytes_le_lteq. intros [?| ->]; eauto using bytes_lt_trans. Qed.

Lemma bytes_lt_le_trans a b c : bytes_lt a b → bytes_le b c → bytes_lt a c.
Proof. rewrite bytes_le_lteq. intros ? [?|<-]; eauto using bytes_lt_trans. Qed.

Lemma bytes_ltb_lt a b : bytes_ltb a b = true ↔ bytes_lt a b.
Proof. unfold bytes_ltb, bytes_lt. destruct (bytes_cmp a b); naive_solver. Qed.

Lemma bytes_leb_le a b : bytes_leb a b = true ↔ bytes_le a b.
Proof. unfold bytes_leb, bytes_le. destruct (bytes_cmp a b); naive_solver. Qed.

Lemma bytes_eqb_eq a b : bytes_eqb a b = true ↔ a = b.
Proof. apply bool_decide_eq_true. Qed.

Lemma bytes_lt_total a b : bytes_lt a b ∨ a = b ∨ bytes_lt b a.
Proof.
  destruct (bytes_cmp a b) eqn:E.
  - apply bytes_cmp_eq in E. auto.
  - auto.
  - apply bytes_lt_gt in E. auto.
Qed.

Lemma bytes_nil_le a : bytes_le [] a.
Proof. by destruct a. Qed.

Lemma bytes_lt_nil_r a : ¬ bytes_lt a [].
Proof. by destruct a. Qed.

(** A common prefix does not matter for the order. *)
Lemma bytes_cmp_app_l p a b : bytes_cmp (p ++ a) (p ++ b) = bytes_cmp a b.
Proof. induction p; cbn; [done|]. by rewrite Z.compare_refl. Qed.

(** Two strings of equal length that differ decide the order of their
    extensions. *)
Lemma bytes_cmp_app_same_len a1 a2 b1 b2 :
  length a1 = length b1 →
  bytes_cmp (a1 ++ a2) (b1 ++ b2) =
    match bytes_cmp a1 b1 with Eq => bytes_cmp a2 b2 | c => c end.
Proof.
  revert b1; induction a1 as [|x a1 IH]; intros [|y b1]; cbn; try done.
  intros [= ?]. destruct (byte_Z x ?= byte_Z y); auto.
Qed.

Lemma starts_with_spec s p : starts_with s p = true ↔ ∃ t, s = p ++ t.
Proof.
  revert s; induction p as [|x p IH]; intros s; cbn.
  { split; [eauto|]. by destruct s. }
  destruct s as [|y s]; cbn.
  { split; [done|]. by intros [? ?]. }
  rewrite andb_true_iff, bool_decide_eq_true, IH. naive_solver.
Qed.

Lemma ends_with_spec s p : ends_with s p = true ↔ ∃ t, s = t ++ p.
Proof.
  unfold ends_with. rewrite starts_with_spec. split; intros [t H].
  - exists (rev t). by rewrite <- (rev_involutive s), H, rev_app_distr, rev_involutive.
  - exists (rev t). by rewrite H, rev_app_distr.
Qed.

(** *** Encodings *)
Lemma le_bytes_length n z : length (le_bytes n z) = n.
Proof. revert z; induction n; intros; cbn; auto. Qed.

Lemma be_bytes_length n z : length (be_bytes n z) = n.
Proof. unfold be_bytes. by rewrite length_rev, le_bytes_length. Qed.

Lemma from_le_bytes_range l : 0 ≤ from_le_bytes l < 256 ^ Z.of_nat (length l).
Proof.
  induction l as [|b l IH]; [done|].
  cbn [from_le_bytes length]. pose proof (byte_Z_range b).
  rewrite Nat2Z.inj_succ, Z.pow_succ_r by lia. nia.
Qed.

Lemma from_le_bytes_le_bytes n z :
  from_le_bytes (le_bytes n z) = z mod 256 ^ Z.of_nat n.
Proof.
  revert z; induction n as [|n IH]; intros z.
  { cbn. by rewrite Z.mod_1_r. }
  cbn [le_bytes from_le_bytes].
  rewrite IH, byte_Z_byte, Nat2Z.inj_succ, Z.pow_succ_r by lia.
  rewrite Z.rem_mul_r by lia. done.
Qed.

Lemma le_bytes_from_le_bytes l : le_bytes (length l) (from_le_bytes l) = l.
Proof.
  induction l as [|b l IH]; [done|].
  cbn [length le_bytes from_le_bytes]. pose proof (byte_Z_range b).
  replace (byte_Z b + 256 * from_le_bytes l) with (from_le_bytes l * 256 + byte_Z b) by lia.
  f_equal.
  - apply byte_Z_inj. rewrite byte_Z_byte, Z.add_comm, Z.mod_add by lia.
    apply Z.mod_small. lia.
  - rewrite Z.div_add_l by lia. rewrite (Z.div_small (byte_Z b)) by lia.
    by rewrite Z.add_0_r.
Qed.

Lemma from_be_be_bytes n z : from_be_bytes (be_bytes n z) = z mod 256 ^ Z.of_nat n.
Proof. unfold from_be_bytes, be_bytes. by rewrite rev_involutive, from_le_bytes_le_bytes. Qed.

Lemma be_from_be_bytes l : be_bytes (length l) (from_be_bytes l) = l.
Proof.
  unfold from_be_bytes, be_bytes. rewrite <- (length_rev l), le_bytes_from_le_bytes.
  apply rev_involutive.
Qed.

Lemma from_be_bytes_range l : 0 ≤ from_be_bytes l < 256 ^ Z.of_nat (length l).
Proof. unfold from_be_bytes. rewrite <- (length_rev l). apply from_le_bytes_range. Qed.

Lemma from_be_u64 z : u64_ok z → from_be_bytes (u64_to_be_bytes z) = z.
Proof.
  intros H. unfold u64_to_be_bytes. rewrite from_be_be_bytes.
  apply Z.mod_small. unfold u64_ok, u64_MAX in H. lia.
Qed.

Lemma from_le_u64 z : u64_ok z → from_le_bytes (u64_to_le_bytes z) = z.
Proof.
  intros H. unfold u64_to_le_bytes. rewrite from_le_bytes_le_bytes.
  apply Z.mod_small. unfold u64_ok, u64_MAX in H. lia.
Qed.

Lemma from_be_bytes_cons b l :
  from_be_bytes (b :: l) = byte_Z b * 256 ^ Z.of_nat (length l) + from_be_bytes l.
Proof.
  unfold from_be_bytes. cbn [rev]. rewrite <- (length_rev l).
  generalize (rev l) as m. induction m as [|c m IH]; [cbn; lia|].
  cbn [from_le_bytes app length]. rewrite IH, Nat2Z.inj_succ, Z.pow_succ_r by lia. lia.
Qed.

(** Big-endian bytes compare like the integers they encode. *)
Lemma be_bytes_cmp_from l1 l2 :
  length l1 = length l2 →
  bytes_cmp l1 l2 = (from_be_bytes l1 ?= from_be_bytes l2).
Proof.
  revert l2; induction l1 as [|x l1 IH]; intros [|y l2]; try done.
  intros [= Hlen]. cbn [bytes_cmp].
  rewrite !from_be_bytes_cons, <- Hlen.
  pose proof (from_be_bytes_range l1). pose proof (from_be_bytes_range l2) as H2.
  rewrite <- Hlen in H2.
  destruct (Z.compare_spec (byte_Z x) (byte_Z y)) as [E|E|E].
  - rewrite (IH _ Hlen), E, Zcompare_plus_compat. done.
  - symmetry. apply Z.compare_lt_iff. nia.
  - symmetry. apply Z.compare_gt_iff. nia.
Qed.

Lemma u64_be_cmp a b :
  u64_ok a → u64_ok b →
  bytes_cmp (u64_to_be_bytes a) (u64_to_be_bytes b) = (a ?= b).
Proof.
  intros. rewrite be_bytes_cmp_from by (unfold u64_to_be_bytes; by rewrite !be_bytes_length).
  by rewrite !from_be_u64.
Qed.

#[export] Hint Rewrite le_bytes_length be_bytes_length : sekas_rw.
#[export] Hint Resolve bytes_cmp_refl bytes_le_refl bytes_nil_le byte_Z_range : sekas.
