(* ===== verification/Rock.v ===== *)
(** * The [sekas_rock] utility crate

    [lexical.rs] (successors in the lexicographic key space), [num.rs]
    (decoding of fixed-width big-endian integers) and the unit conversions of
    [time.rs]. *)

From S2P Require Import Prelude Bytes.

(** ** [lexical.rs] *)

(** The [while let Some(&last) = r.last()] loop: pop trailing [0xFF] bytes.
    The vector is kept reversed, so its last element is at the head. *)
Fixpoint pop_trailing_ff (rev_r : bytes) : bytes :=
  match rev_r with
  | [] => []
  | last :: r => if byte_Z last =? 255 then pop_trailing_ff r else last :: r
  end.

Definition lexical_next_boundary (b : bytes) : bytes :=
  match pop_trailing_ff (rev b) with
  | [] => []
  | last :: r => rev (Z_byte (byte_Z last + 1) :: r)
  end.

Definition lexical_next (b : bytes) : bytes := b ++ [Byte.x00].

(** ** [num.rs]: the [decode!] macro, [width] in bytes *)
Definition to_signed (width : nat) (z : Z) : Z :=
  if z <? 256 ^ Z.of_nat width / 2 then z else z - 256 ^ Z.of_nat width.

Definition decode_unsigned (width : nat) (b : bytes) : option Z :=
  if (length b =? width)%nat then Some (from_be_bytes b) else None.
Definition decode_signed (width : nat) (b : bytes) : option Z :=
  to_signed width <$> decode_unsigned width b.

Definition decode_i16 := decode_signed 2.
Definition decode_u16 := decode_unsigned 2.
Definition decode_i32 := decode_signed 4.
Definition decode_u32 := decode_unsigned 4.
Definition decode_u64 := decode_unsigned 8.
Definition decode_i64 := decode_signed 8.
(** [i64::to_be_bytes]: two's complement. *)
Definition i64_to_be_bytes (z : Z) : bytes := be_bytes 8 z.

(** ** [time.rs]: the coarser clocks are quotients of the nanosecond one *)
Definition timestamp_micros (nanos : Z) : Z := nanos / 1000.
Definition timestamp_millis (nanos : Z) : Z := timestamp_micros nanos / 1000.
Definition timestamp (nanos : Z) : Z := timestamp_millis nanos / 1000.

(** ** Facts *)

(** The stripped vector: [b] is a stem followed by [0xFF] bytes only. *)
Lemma pop_trailing_ff_spec r :
  ∃ n, r = replicate n (Z_byte 255) ++ pop_trailing_ff r ∧
       match pop_trailing_ff r with [] => True | c :: _ => byte_Z c < 255 end.
Proof.
  induction r as [|c r (n & IH & Hc)]; cbn.
  - by exists O.
  - destruct (byte_Z c =? 255) eqn:E; to_prop.
    + exists (S n). cbn. rewrite <- IH. split; [|done]. f_equal.
      by rewrite <- E, Z_byte_Z.
    + exists O. split; [done|]. pose proof (byte_Z_range c). lia.
Qed.

Lemma rev_replicate_ff n (x : byte) : rev (replicate n x) = replicate n x.
Proof. induction n as [|n IH]; cbn; [done|]. by rewrite IH, replicate_cons_app. Qed.

(** Either every byte is [0xFF] (no boundary exists, the empty vector is
    returned) or [b = stem ++ [c] ++ 0xFF...] and the boundary is
    [stem ++ [c + 1]]. *)
Lemma lexical_next_boundary_cases b :
  (lexical_next_boundary b = [] ∧ ∃ n, b = replicate n (Z_byte 255)) ∨
  (∃ stem c n, byte_Z c < 255 ∧ b = stem ++ c :: replicate n (Z_byte 255) ∧
     lexical_next_boundary b = stem ++ [Z_byte (byte_Z c + 1)]).
Proof.
  unfold lexical_next_boundary.
  destruct (pop_trailing_ff_spec (rev b)) as (n & Hb & Hc).
  apply (f_equal (@rev byte)) in Hb. rewrite rev_involutive, rev_app_distr, rev_replicate_ff in Hb.
  destruct (pop_trailing_ff (rev b)) as [|c r].
  - left. split; [done|]. exists n. by rewrite Hb.
  - right. exists (rev r), c, n. split; [done|]. split; [|done].
    rewrite Hb. cbn [rev]. by rewrite <- app_assoc.
Qed.

Lemma replicate_ff_le n k : bytes_le (replicate n (Z_byte 255)) k →
  ∃ t, k = replicate n (Z_byte 255) ++ t.
Proof.
  revert k; induction n as [|n IH]; intros k H; cbn in *; [eauto|].
  unfold bytes_le in H. destruct k as [|x k]; cbn [bytes_cmp] in H; [done|].
  assert (byte_Z (Z_byte 255) = 255) as E by (by rewrite byte_Z_byte).
  rewrite E in H. pose proof (byte_Z_range x).
  destruct (Z.compare_spec 255 (byte_Z x)) as [Hx|Hx|Hx]; [|lia|done].
  destruct (IH k H) as [t ->]. exists t. f_equal.
  rewrite <- (Z_byte_Z x). by rewrite <- Hx.
Qed.

(** The keys between a prefix and its boundary are the keys with that prefix. *)
Lemma prefix_between b stem c n k :
  byte_Z c < 255 → b = stem ++ c :: replicate n (Z_byte 255) →
  bytes_le b k → bytes_lt k (stem ++ [Z_byte (byte_Z c + 1)]) → ∃ t, k = b ++ t.
Proof.
  intros Hc -> Hle Hlt. pose proof (byte_Z_range c).
  revert k Hle Hlt; induction stem as [|s stem IH]; intros k Hle Hlt;
    unfold bytes_le, bytes_lt in *; destruct k as [|x k]; cbn [app bytes_cmp] in *; try done.
  - rewrite byte_Z_byte, Z.mod_small in Hlt by lia.
    destruct (Z.compare_spec (byte_Z c) (byte_Z x)) as [E|E|E]; [|exfalso|done].
    + destruct (replicate_ff_le n k Hle) as [t ->].
      exists t. f_equal. by apply byte_Z_inj.
    + destruct (Z.compare_spec (byte_Z x) (byte_Z c + 1)) as [E'|E'|E']; [|lia|done].
      by destruct k.
  - destruct (Z.compare_spec (byte_Z s) (byte_Z x)) as [E|E|E];
      destruct (Z.compare_spec (byte_Z x) (byte_Z s)) as [E'|E'|E']; try lia; try done.
    destruct (IH k) as [t ->]; try done. exists t. f_equal. by apply byte_Z_inj.
Qed.

Lemma prefix_lt_boundary stem c n t :
  byte_Z c < 255 →
  bytes_lt ((stem ++ c :: replicate n (Z_byte 255)) ++ t) (stem ++ [Z_byte (byte_Z c + 1)]).
Proof.
  intros Hc. unfold bytes_lt. rewrite <- app_assoc, bytes_cmp_app_l. cbn.
  pose proof (byte_Z_range c). rewrite byte_Z_byte, Z.mod_small by lia.
  by rewrite (proj2 (Z.compare_lt_iff _ _)) by lia.
Qed.

Lemma bytes_le_app p t : bytes_le p (p ++ t).
Proof.
  unfold bytes_le. rewrite <- (app_nil_r p) at 1. rewrite bytes_cmp_app_l. by destruct t.
Qed.

Lemma i64_decode_encode z : i64_ok z → decode_i64 (i64_to_be_bytes z) = Some z.
Proof.
  intros H. unfold decode_i64, decode_signed, decode_unsigned, i64_to_be_bytes.
  rewrite be_bytes_length. cbn [Nat.eqb fmap option_fmap option_map].
  rewrite from_be_be_bytes. f_equal. unfold to_signed, i64_ok in *.
  change (256 ^ Z.of_nat 8) with (2 ^ 64). change (2 ^ 64 / 2) with (2 ^ 63).
  destruct (Z.lt_ge_cases z 0).
  - rewrite <- (Z.mod_unique_pos z (2 ^ 64) (-1) (z + 2 ^ 64)) by lia.
    rewrite (proj2 (Z.ltb_ge _ _)) by lia. lia.
  - rewrite Z.mod_small by lia. by rewrite (proj2 (Z.ltb_lt _ _)) by lia.
Qed.

Lemma decode_i64_range b z : decode_i64 b = Some z → i64_ok z.
Proof.
  unfold decode_i64, decode_signed, decode_unsigned.
  destruct (length b =? 8)%nat eqn:E; [|done].
  apply Nat.eqb_eq in E. cbn. intros [= <-].
  pose proof (from_be_bytes_range b) as H. rewrite E in H.
  unfold to_signed, i64_ok. change (256 ^ Z.of_nat 8) with (2 ^ 64) in *.
  change (2 ^ 64 / 2) with (2 ^ 63).
  destruct (from_be_bytes b <? 2 ^ 63) eqn:E'; to_prop; lia.
Qed.

Lemma decode_u64_encode z : u64_ok z → decode_u64 (u64_to_be_bytes z) = Some z.
Proof.
  intros. unfold decode_u64, decode_unsigned, u64_to_be_bytes.
  rewrite be_bytes_length. cbn [Nat.eqb]. f_equal. by apply from_be_u64.
Qed.
