(* ===== verification/F64.v ===== *)
(** * Double-precision numbers

    What the allocator of the root uses of [f64]: values are rationals, NaN or
    an infinity, and an operation rounds the exact result to the nearest value
    of 53 significant bits, ties to even.  The sign of zero is not kept:
    nothing here divides by a zero of its own making. *)

From S2P Require Import Prelude.
From Stdlib Require Import QArith Qround Qpower Lqa.
#[local] Open Scope Z_scope.

Inductive f64 := NaN | Inf (negative : bool) | Num (q : Q).
#[global] Instance Q_eq_dec : EqDecision Q.
Proof. solve_decision. Defined.
#[global] Instance f64_eq_dec : EqDecision f64.
Proof. solve_decision. Defined.

(** ** Rounding *)
Definition nearest (q : Q) : Z :=
  let f := Qfloor q in
  match Qcompare (q - inject_Z f) (1 # 2) with
  | Lt => f
  | Gt => f + 1
  | Eq => if Z.even f then f else f + 1
  end.
(** The exponent of the leading bit of a positive number. *)
Definition leading (q : Q) : Z :=
  let l := Z.log2 (Qnum q) - Z.log2 (Zpos (Qden q)) in
  if Qle_bool (Qpower 2 l) q then l else l - 1.
Definition round_pos (q : Q) : Q :=
  let e := Z.max (leading q - 52) (-1074) in
  inject_Z (nearest (q / Qpower 2 e)) * Qpower 2 e.
Definition round_abs (q : Q) : Q :=
  match Qcompare q 0 with Eq => 0 | Gt => round_pos q | Lt => - round_pos (- q) end.
Definition round (q : Q) : f64 :=
  let r := round_abs q in
  if Qle_bool (Qpower 2 1024) r then Inf false
  else if Qle_bool r (- Qpower 2 1024) then Inf true
  else Num r.

(** ** Operations *)
Definition f64_of_Z (z : Z) : f64 := round (inject_Z z).
Definition is_neg (q : Q) : bool := Z.ltb (Qnum q) 0.
Definition f64_neg (a : f64) : f64 :=
  match a with NaN => NaN | Inf s => Inf (negb s) | Num q => Num (- q) end.
Definition f64_add (a b : f64) : f64 :=
  match a, b with
  | NaN, _ | _, NaN => NaN
  | Inf s, Inf s' => if eqb s s' then Inf s else NaN
  | Inf s, Num _ | Num _, Inf s => Inf s
  | Num p, Num q => round (p + q)
  end.
Definition f64_sub (a b : f64) : f64 := f64_add a (f64_neg b).
Definition f64_mul (a b : f64) : f64 :=
  match a, b with
  | NaN, _ | _, NaN => NaN
  | Inf s, Inf s' => Inf (xorb s s')
  | Inf s, Num q | Num q, Inf s => if Qeq_bool q 0 then NaN else Inf (xorb s (is_neg q))
  | Num p, Num q => round (p * q)
  end.
Definition f64_div (a b : f64) : f64 :=
  match a, b with
  | NaN, _ | _, NaN => NaN
  | Inf _, Inf _ => NaN
  | Inf s, Num q => Inf (xorb s (is_neg q))
  | Num _, Inf _ => Num 0
  | Num p, Num q => if Qeq_bool q 0 then (if Qeq_bool p 0 then NaN else Inf (is_neg p)) else round (p / q)
  end.
Definition f64_lt (a b : f64) : bool :=
  match a, b with
  | NaN, _ | _, NaN => false
  | Inf s, Inf s' => s && negb s'
  | Inf s, Num _ => s
  | Num _, Inf s => negb s
  | Num p, Num q => negb (Qle_bool q p)
  end.
(** [f64::max] ignores NaN. *)
Definition f64_max (a b : f64) : f64 :=
  match a, b with
  | NaN, _ => b
  | _, NaN => a
  | _, _ => if f64_lt a b then b else a
  end.
(** [as usize]: towards zero, saturating. *)
Definition f64_to_usize (a : f64) : Z :=
  match a with
  | NaN => 0
  | Inf s => if s then 0 else 2 ^ 64 - 1
  | Num q => Z.min (Z.max 0 (Z.quot (Qnum q) (Zpos (Qden q)))) (2 ^ 64 - 1)
  end.

(** ** Whole numbers of 53 bits are exact bounds of what is rounded *)
#[local] Open Scope Q_scope.
Lemma pow2_pos e : 0 < Qpower 2 e.
Proof. by apply Qpower_0_lt. Qed.
Lemma pow2_le a b : (a ≤ b)%Z → Qpower 2 a <= Qpower 2 b.
Proof. intros. apply Qpower_le_compat_l; [done|lra]. Qed.
Lemma pow2_Z e : (0 ≤ e)%Z → Qpower 2 e == inject_Z (2 ^ e).
Proof. intros He. rewrite <- (Z2Nat.id e He) at 1. rewrite Zpower_Qpower by done. by rewrite Z2Nat.id. Qed.

Lemma nearest_le q z : q <= inject_Z z → (nearest q ≤ z)%Z.
Proof.
  intros Hq. unfold nearest. pose proof (Qfloor_le q) as Hf. pose proof (Qlt_floor q) as Hc.
  assert (Qfloor q ≤ z)%Z. { rewrite <- (Qfloor_Z z). by apply Qfloor_resp_le. }
  destruct (decide (Qfloor q = z)) as [E|E]; [|repeat case_match; lia].
  assert (q - inject_Z (Qfloor q) < 1 # 2) as ->%Qlt_alt by (rewrite E in *; lra). lia.
Qed.
Lemma nearest_ge q z : inject_Z z <= q → (z ≤ nearest q)%Z.
Proof.
  intros Hq. unfold nearest. assert (z ≤ Qfloor q)%Z. { rewrite <- (Qfloor_Z z). by apply Qfloor_resp_le. }
  repeat case_match; lia.
Qed.

Lemma leading_le q : 0 < q → Qpower 2 (leading q) <= q.
Proof.
  intros Hq. unfold leading. destruct (Qle_bool _ q) eqn:E; [by apply Qle_bool_iff|].
  destruct q as [n d]. cbn [Qnum Qden]. assert (0 < n)%Z as Hn by (revert Hq; unfold Qlt; cbn; lia).
  pose proof (Z.log2_spec n Hn) as [Hl _]. pose proof (Z.log2_spec (Zpos d) eq_refl) as [_ Hu].
  pose proof (Z.log2_nonneg n). pose proof (Z.log2_nonneg (Zpos d)).
  set (a := Z.log2 n) in *. set (b := Z.log2 (Zpos d)) in *.
  replace (a - b - 1)%Z with (a + - (b + 1))%Z by lia. rewrite Qpower_plus by done. rewrite Qpower_opp.
  apply Qle_shift_div_r; [apply pow2_pos|]. rewrite !pow2_Z by lia.
  unfold Qle, Qmult, inject_Z. cbn [Qnum Qden]. rewrite Z.mul_1_r. rewrite Pos.mul_1_r. nia.
Qed.
Lemma leading_small q : 0 < q → q < inject_Z (2 ^ 53) → (leading q ≤ 52)%Z.
Proof.
  intros Hq Hlt. apply Z.lt_succ_r, Z.nle_gt. intros Hge. apply pow2_le in Hge.
  pose proof (leading_le q Hq). rewrite pow2_Z in Hge by lia. change (Z.succ 52) with 53%Z in Hge. lra.
Qed.

Lemma on_grid z e : (e ≤ 0)%Z → inject_Z (z * 2 ^ (- e)) * Qpower 2 e == inject_Z z.
Proof.
  intros He. rewrite inject_Z_mult, <- pow2_Z, <- Qmult_assoc, <- Qpower_plus by (done || lia).
  rewrite Z.add_opp_diag_l. cbn. lra.
Qed.
Lemma round_pos_le q z : 0 < q → q <= inject_Z z → (z < 2 ^ 53)%Z → round_pos q <= inject_Z z.
Proof.
  intros Hq Hle Hz. unfold round_pos. set (e := Z.max _ _).
  assert (e ≤ 0)%Z as He.
  { assert (leading q ≤ 52)%Z; [|unfold e; lia]. apply leading_small; [done|]. rewrite Zlt_Qlt in Hz. lra. }
  rewrite <- (on_grid z e He). pose proof (pow2_pos e). apply Qmult_le_r; [done|]. rewrite <- Zle_Qle.
  apply nearest_le, Qle_shift_div_r; [done|]. by rewrite on_grid.
Qed.
Lemma round_pos_ge q z : 0 < q → inject_Z z <= q → (z < 2 ^ 53)%Z → inject_Z z <= round_pos q.
Proof.
  intros Hq Hle Hz. unfold round_pos. set (e := Z.max _ _). pose proof (pow2_pos e).
  destruct (decide (e ≤ 0)%Z) as [He|He].
  - rewrite <- (on_grid z e He). apply Qmult_le_r; [done|]. rewrite <- Zle_Qle.
    apply nearest_ge, Qle_shift_div_l; [done|]. by rewrite on_grid.
  - assert (e = leading q - 52)%Z as E by (unfold e in *; lia).
    assert (2 ^ 52 ≤ nearest (q / Qpower 2 e))%Z as Hn.
    { apply nearest_ge, Qle_shift_div_l; [done|]. rewrite <- pow2_Z, <- Qpower_plus by done.
      rewrite E. replace (52 + (leading q - 52))%Z with (leading q) by lia. by apply leading_le. }
    apply Qle_trans with (inject_Z (2 ^ 52) * Qpower 2 e); [|apply Qmult_le_r; [done|by rewrite <- Zle_Qle]].
    rewrite <- pow2_Z, <- Qpower_plus by done. apply Qle_trans with (Qpower 2 53).
    + rewrite pow2_Z by done. rewrite <- Zle_Qle. lia.
    + apply pow2_le. lia.
Qed.
Lemma round_abs_le q z : q <= inject_Z z → (0 ≤ z < 2 ^ 53)%Z → round_abs q <= inject_Z z.
Proof.
  intros Hle Hz. unfold round_abs. assert (0 <= inject_Z z) by (change 0 with (inject_Z 0); rewrite <- Zle_Qle; lia).
  destruct (Qcompare_spec q 0) as [Hq|Hq|Hq]; [done| |apply round_pos_le; [done..|lia]].
  pose proof (round_pos_ge (- q) 0) as Hp. cbn in Hp. assert (0 <= round_pos (- q)); [apply Hp; [lra|change (inject_Z 0) with 0; lra|lia]|]. lra.
Qed.
Lemma round_abs_ge q z : inject_Z z <= q → (0 ≤ z < 2 ^ 53)%Z → inject_Z z <= round_abs q.
Proof.
  intros Hle Hz. unfold round_abs. assert (0 <= inject_Z z) by (change 0 with (inject_Z 0); rewrite <- Zle_Qle; lia).
  destruct (Qcompare_spec q 0) as [Hq|Hq|Hq]; [lra|lra|]. apply round_pos_ge; [done..|lia].
Qed.
Lemma small_finite z : (0 ≤ z < 2 ^ 53)%Z → 0 <= inject_Z z < Qpower 2 1024.
Proof.
  intros Hz. split; [change 0 with (inject_Z 0); rewrite <- Zle_Qle; lia|].
  apply Qlt_le_trans with (inject_Z (2 ^ 53)); [rewrite <- Zlt_Qlt; lia|]. by rewrite <- pow2_Z; [apply pow2_le|].
Qed.

(** A whole number against a rounded one. *)
Lemma below_round z q x : q == inject_Z z → (0 ≤ z < 2 ^ 53)%Z → f64_lt (Num q) (round x) = true → inject_Z z < x.
Proof.
  intros Hq Hz Hlt. apply Qnot_le_lt. intros Hle. pose proof (round_abs_le x z Hle Hz) as Hr. pose proof (small_finite z Hz).
  revert Hlt. unfold round. destruct (Qle_bool _ (round_abs x)) eqn:E; [apply Qle_bool_iff in E; lra|].
  destruct (Qle_bool (round_abs x) _); [done|]. cbn. intros Hn%negb_true_iff.
  assert (Qle_bool (round_abs x) q = true) by (apply Qle_bool_iff; lra). congruence.
Qed.
Lemma above_round z q x : q == inject_Z z → (0 ≤ z < 2 ^ 53)%Z → f64_lt (round x) (Num q) = true → x < inject_Z z.
Proof.
  intros Hq Hz Hlt. apply Qnot_le_lt. intros Hle. pose proof (round_abs_ge x z Hle Hz) as Hr. pose proof (small_finite z Hz).
  pose proof (pow2_pos 1024). revert Hlt. unfold round. destruct (Qle_bool _ (round_abs x)); [done|].
  destruct (Qle_bool (round_abs x) _) eqn:E; [apply Qle_bool_iff in E; lra|]. cbn. intros Hn%negb_true_iff.
  assert (Qle_bool q (round_abs x) = true) by (apply Qle_bool_iff; lra). congruence.
Qed.
Lemma f64_of_Z_exact z : (0 ≤ z < 2 ^ 53)%Z → ∃ q, f64_of_Z z = Num q ∧ q == inject_Z z.
Proof.
  intros Hz. unfold f64_of_Z, round. pose proof (small_finite z Hz). pose proof (pow2_pos 1024).
  pose proof (round_abs_le _ z (Qle_refl _) Hz). pose proof (round_abs_ge _ z (Qle_refl _) Hz).
  destruct (Qle_bool _ (round_abs _)) eqn:E; [apply Qle_bool_iff in E; lra|].
  destruct (Qle_bool (round_abs _) _) eqn:E2; [apply Qle_bool_iff in E2; lra|].
  eexists. split; [done|lra].
Qed.
