(* ===== verification/Api.v ===== *)
(** * The [sekas_api] and [serverpb] data model

    The protobuf messages the modelled code reads and writes, as records and
    inductive types, with the helper methods of [src/api/src] and
    [server/src/serverpb.rs].  Protobuf enumerations are open: a field holds
    an [i32] ([Z]) and [from_i32] recognises the known values. *)

From S2P Require Import Prelude Bytes F64.

(** ** [types.proto], [txn_persistent.proto], [write.proto] *)
Record Value := mkValue { v_content : option bytes; v_version : Z }.
Record ValueSet := mkValueSet { vs_user_key : bytes; vs_values : list Value }.
Record ShardKey := mkShardKey { sk_shard_id : Z; sk_user_key : bytes }.
Record TxnIntent := mkTxnIntent { ti_start_version : Z; ti_is_delete : bool; ti_value : option bytes }.

Inductive TxnState := Running | Aborted | Committed.

Inductive PutType := PutNone | AddI64 | Nop.
Definition PutType_from_i32 (z : Z) : option PutType :=
  match z with 0 => Some PutNone | 1 => Some AddI64 | 2 => Some Nop | _ => None end.
Definition PutType_i32 (t : PutType) : Z :=
  match t with PutNone => 0 | AddI64 => 1 | Nop => 2 end.

Inductive WriteConditionType :=
  | ExpectExists | ExpectNotExists | ExpectValue | ExpectVersion
  | ExpectVersionLt | ExpectVersionLe | ExpectVersionGt | ExpectVersionGe
  | ExpectStartsWith | ExpectEndsWith | ExpectSlice | ExpectContains.
Definition WriteConditionType_from_i32 (z : Z) : option WriteConditionType :=
  match z with
  | 0 => Some ExpectExists | 1 => Some ExpectNotExists | 2 => Some ExpectValue
  | 3 => Some ExpectVersion | 4 => Some ExpectVersionLt | 5 => Some ExpectVersionLe
  | 6 => Some ExpectVersionGt | 7 => Some ExpectVersionGe | 8 => Some ExpectStartsWith
  | 9 => Some ExpectEndsWith | 10 => Some ExpectSlice | 11 => Some ExpectContains
  | _ => None
  end.
Definition WriteConditionType_i32 (t : WriteConditionType) : Z :=
  match t with
  | ExpectExists => 0 | ExpectNotExists => 1 | ExpectValue => 2 | ExpectVersion => 3
  | ExpectVersionLt => 4 | ExpectVersionLe => 5 | ExpectVersionGt => 6 | ExpectVersionGe => 7
  | ExpectStartsWith => 8 | ExpectEndsWith => 9 | ExpectSlice => 10 | ExpectContains => 11
  end.

Record WriteCondition := mkWriteCondition {
  wc_type : Z; wc_value : bytes; wc_version : Z; wc_begin : Z }.
Record PutRequest := mkPutRequest {
  put_put_type : Z; put_key : bytes; put_value : bytes; put_ttl : Z;
  put_conditions : list WriteCondition; put_take_prev_value : bool }.
Record DeleteRequest := mkDeleteRequest {
  del_key : bytes; del_conditions : list WriteCondition; del_take_prev_value : bool }.
Record WriteResponse := mkWriteResponse { wr_prev_value : option Value }.

(** [write_intent_request::Write], aliased [WriteRequest]. *)
Inductive WriteRequest :=
  | WDelete (del : DeleteRequest)
  | WPut (put : PutRequest).

(** The generated accessor [PutRequest::put_type()]. *)
Definition put_type (p : PutRequest) : PutType :=
  default PutNone (PutType_from_i32 (put_put_type p)).

(** [write.rs]. *)
Definition user_key (w : WriteRequest) : bytes :=
  match w with WPut put => put_key put | WDelete del => del_key del end.

(** [txn.rs]. *)
Definition TxnIntent_tombstone (start_version : Z) : TxnIntent :=
  {| ti_start_version := start_version; ti_is_delete := true; ti_value := None |}.
Definition TxnIntent_with_put (start_version : Z) (value : option bytes) : TxnIntent :=
  {| ti_start_version := start_version; ti_is_delete := false; ti_value := value |}.

(** [value.rs]. *)
Definition Value_tombstone (version : Z) : Value :=
  {| v_content := None; v_version := version |}.
Definition Value_with_value (content : bytes) (version : Z) : Value :=
  {| v_content := Some content; v_version := version |}.

(** ** [metadata.proto] *)
Record RangePartition := mkRange { rp_start : bytes; rp_end : bytes }.
Record ShardDesc := mkShardDesc { sd_id : Z; sd_table_id : Z; sd_range : option RangePartition }.

Inductive ReplicaRole := Voter | Learner | IncomingVoter | DemotingVoter.
Definition ReplicaRole_from_i32 (z : Z) : option ReplicaRole :=
  match z with
  | 0 => Some Voter | 1 => Some Learner | 2 => Some IncomingVoter | 3 => Some DemotingVoter
  | _ => None
  end.
Definition ReplicaRole_i32 (r : ReplicaRole) : Z :=
  match r with Voter => 0 | Learner => 1 | IncomingVoter => 2 | DemotingVoter => 3 end.

Record ReplicaDesc := mkReplicaDesc { rd_id : Z; rd_node_id : Z; rd_role : Z }.
Record GroupDesc := mkGroupDesc {
  gd_id : Z; gd_epoch : Z; gd_shards : list ShardDesc; gd_replicas : list ReplicaDesc }.
Record NodeCapacity := mkNodeCapacity { nc_cpu_nums : f64; nc_replica_count : Z; nc_leader_count : Z }.
Inductive NodeStatus := NActive | NCordoned | NDraining | NDrained | NDecommissioning | NDecommissioned.
Definition NodeStatus_i32 (s : NodeStatus) : Z :=
  match s with
  | NActive => 0 | NCordoned => 1 | NDraining => 2 | NDrained => 3 | NDecommissioning => 4 | NDecommissioned => 5
  end.
Record NodeDesc := mkNodeDesc {
  nd_id : Z; nd_addr : string; nd_capacity : option NodeCapacity; nd_status : Z }.
Record RootDesc := mkRootDesc { rt_epoch : Z; rt_root_nodes : list NodeDesc }.
Inductive RaftRole := Follower | Candidate | Leader | PreCandidate.
Definition RaftRole_i32 (r : RaftRole) : Z :=
  match r with Follower => 0 | Candidate => 1 | Leader => 2 | PreCandidate => 3 end.
Record ReplicaState := mkReplicaState {
  rs_replica_id : Z; rs_group_id : Z; rs_term : Z; rs_voted_for : Z; rs_role : Z; rs_node_id : Z }.
Definition ReplicaState_default : ReplicaState := mkReplicaState 0 0 0 0 0 0.
Record ScheduleState := mkScheduleState {
  sch_group_id : Z; sch_epoch : Z; sch_incoming_replicas : list ReplicaDesc; sch_outgoing_replicas : list ReplicaDesc }.
Definition ScheduleState_default : ScheduleState := mkScheduleState 0 0 [] [].
Record ShardStats := mkShardStats { sst_shard_id : Z; sst_table_id : Z; sst_shard_size : Z }.
(** The two rates are never read. *)
Record GroupStats := mkGroupStats { gst_group_id : Z; gst_shard_count : Z; gst_shard_stats : list ShardStats }.
Record GroupState := mkGroupState {
  gs_group_id : Z; gs_leader_id : option Z; gs_replicas : list ReplicaState }.
Record MoveShardDesc := mkMoveShardDesc {
  md_shard_desc : option ShardDesc; md_src_group_id : Z; md_src_group_epoch : Z;
  md_dest_group_id : Z; md_dest_group_epoch : Z }.

(** ** [node.proto]: the shard requests *)
Record ShardGetRequest := mkShardGetRequest {
  sg_shard_id : Z; sg_start_version : Z; sg_user_key : bytes }.
Record ShardScanRequest := mkShardScanRequest {
  ss_shard_id : Z; ss_start_version : Z; ss_limit : Z; ss_limit_bytes : Z;
  ss_exclude_start_key : bool; ss_exclude_end_key : bool; ss_prefix : option bytes;
  ss_start_key : option bytes; ss_end_key : option bytes; ss_include_raw_data : bool;
  ss_ignore_txn_intent : bool; ss_allow_scan_moving_shard : bool }.
Record ShardScanResponse := mkShardScanResponse {
  sr_data : list ValueSet; sr_has_more : bool }.
Record ShardWriteRequest := mkShardWriteRequest {
  sw_shard_id : Z; sw_deletes : list DeleteRequest; sw_puts : list PutRequest }.
Record ShardWriteResponse := mkShardWriteResponse {
  swr_deletes : list WriteResponse; swr_puts : list WriteResponse }.
Record WriteIntentRequest := mkWriteIntentRequest {
  wi_shard_id : Z; wi_start_version : Z; wi_write : option WriteRequest }.
Record WriteIntentResponse := mkWriteIntentResponse { wir_write : option WriteResponse }.
Record CommitIntentRequest := mkCommitIntentRequest {
  ci_shard_id : Z; ci_start_version : Z; ci_commit_version : Z; ci_user_key : bytes }.
Record ClearIntentRequest := mkClearIntentRequest {
  cl_shard_id : Z; cl_start_version : Z; cl_user_key : bytes }.
Record SplitShardRequest := mkSplitShardRequest {
  spr_old_shard_id : Z; spr_new_shard_id : Z; spr_split_key : option bytes }.
Record MergeShardRequest := mkMergeShardRequest {
  mgr_left_shard_id : Z; mgr_right_shard_id : Z }.
Record AcceptShardRequest := mkAcceptShardRequest {
  as_src_group_id : Z; as_src_group_epoch : Z; as_shard_desc : option ShardDesc }.

Inductive ChangeReplicaType := CRAdd | CRRemove | CRAddLearner.
Definition ChangeReplicaType_from_i32 (z : Z) : option ChangeReplicaType :=
  match z with 0 => Some CRAdd | 1 => Some CRRemove | 2 => Some CRAddLearner | _ => None end.
Record ChangeReplica := mkChangeReplica {
  cr_change_type : Z; cr_replica_id : Z; cr_node_id : Z }.
Abbreviation ChangeReplicas := (list ChangeReplica).

Record CreateShardRequest := mkCreateShardRequest { cs_shard : option ShardDesc }.
Record ChangeReplicasRequest := mkChangeReplicasRequest { chr_change_replicas : option ChangeReplicas }.
Record TransferRequest := mkTransferRequest { tf_transferee : Z }.
Record MoveReplicasRequest := mkMoveReplicasRequest {
  mr_incoming_voters : list ReplicaDesc; mr_outgoing_voters : list ReplicaDesc }.
Record WatchKeyRequest := mkWatchKeyRequest {
  wk_shard_id : Z; wk_group_id : Z; wk_key : bytes; wk_version : Z }.

(** [group_request_union::Request]. *)
Inductive Request :=
  | RGet (req : ShardGetRequest)
  | RScan (req : ShardScanRequest)
  | RWrite (req : ShardWriteRequest)
  | RWatchKey (req : WatchKeyRequest)
  | RWriteIntent (req : WriteIntentRequest)
  | RCommitIntent (req : CommitIntentRequest)
  | RClearIntent (req : ClearIntentRequest)
  | RCreateShard (req : CreateShardRequest)
  | RChangeReplicas (req : ChangeReplicasRequest)
  | RAcceptShard (req : AcceptShardRequest)
  | RTransfer (req : TransferRequest)
  | RMoveReplicas (req : MoveReplicasRequest)
  | RSplitShard (req : SplitShardRequest)
  | RMergeShard (req : MergeShardRequest).

(** [GroupRequest]; the two options are the message field and the [oneof]. *)
Record GroupRequest := mkGroupRequest {
  gr_group_id : Z; gr_epoch : Z; gr_request : option (option Request) }.

Record WatchKeyResponse := mkWatchKeyResponse { wkr_result : Z; wkr_value : option Value }.
(** [group_response_union::Response]. *)
Inductive Response :=
  | SGetResp (value : option Value)
  | SScanResp (resp : ShardScanResponse)
  | SWriteResp (resp : ShardWriteResponse)
  | SWatchKeyResp (resp : WatchKeyResponse)
  | SWriteIntentResp (resp : WriteIntentResponse)
  | SCommitIntentResp
  | SClearIntentResp
  | SCreateShardResp
  | SChangeReplicasResp
  | SAcceptShardResp
  | STransferResp
  | SMoveReplicasResp (schedule_state : option ScheduleState)
  | SSplitShardResp
  | SMergeShardResp.

(** ** [catalog.proto] *)
Record DatabaseDesc := mkDatabaseDesc { db_id : Z; db_name : string }.
Record TableDesc := mkTableDesc { tb_id : Z; tb_db : Z; tb_name : string; tb_properties : list (string * string) }.

(** ** [root.proto]: the events of a watch *)
Inductive UpdateEvent :=
  | UNode (node : NodeDesc)
  | UGroup (group : GroupDesc)
  | UGroupState (state : GroupState)
  | UDatabase (db : DatabaseDesc)
  | UTable (table : TableDesc).
Inductive DeleteEvent :=
  | DNode (id : Z) | DGroup (id : Z) | DDatabase (id : Z) | DTable (id : Z) | DGroupState (id : Z).

(** ** [server/proto/v1] *)
Inductive MoveShardStep := Prepare | Moving | Moved | Finished | MAborted.
Definition MoveShardStep_i32 (s : MoveShardStep) : Z :=
  match s with Prepare => 0 | Moving => 1 | Moved => 2 | Finished => 3 | MAborted => 4 end.

Inductive MoveShardEvent := Setup | Ingest | Commit | Abort | Apply.
Definition MoveShardEvent_from_i32 (z : Z) : option MoveShardEvent :=
  match z with
  | 0 => Some Setup | 1 => Some Ingest | 2 => Some Commit | 3 => Some Abort | 4 => Some Apply
  | _ => None
  end.
Definition MoveShardEvent_i32 (e : MoveShardEvent) : Z :=
  match e with Setup => 0 | Ingest => 1 | Commit => 2 | Abort => 3 | Apply => 4 end.

Record EntryId := mkEntryId { ei_index : Z; ei_term : Z }.
Record MoveShardState := mkMoveShardState {
  mss_move_shard : option MoveShardDesc; mss_last_moved_key : option bytes; mss_step : Z }.
Record MoveShard := mkMoveShard {
  ms_event : Z; ms_desc : option MoveShardDesc; ms_last_ingested_key : bytes }.
Record SplitShard := mkSplitShard {
  sp_old_shard_id : Z; sp_new_shard_id : Z; sp_split_key : bytes }.
Record MergeShard := mkMergeShard { mg_left_shard_id : Z; mg_right_shard_id : Z }.
(** [AddShard] wraps an optional shard. *)
Record SyncOp := mkSyncOp {
  so_add_shard : option (option ShardDesc);
  so_purge_replica : option Z;
  so_move_shard : option MoveShard;
  so_split_shard : option SplitShard;
  so_merge_shard : option MergeShard }.
(** [WriteBatchRep] is its [data]. *)
Record EvalResult := mkEvalResult { er_batch : option bytes; er_op : option SyncOp }.
Record WriteStates := mkWriteStates {
  ws_apply_state : option EntryId; ws_descriptor : option GroupDesc;
  ws_move_shard_state : option MoveShardState }.

(** [serverpb.rs]. *)
Definition SyncOp_default : SyncOp := mkSyncOp None None None None None.
Definition SyncOp_add_shard (shard : ShardDesc) : SyncOp :=
  mkSyncOp (Some (Some shard)) None None None None.
Definition SyncOp_purge_replica (orphan_replica_id : Z) : SyncOp :=
  mkSyncOp None (Some orphan_replica_id) None None None.
Definition SyncOp_move_shard (event : MoveShardEvent) (desc : MoveShardDesc) : SyncOp :=
  mkSyncOp None None (Some (mkMoveShard (MoveShardEvent_i32 event) (Some desc) [])) None None.
Definition SyncOp_ingest (key : bytes) : SyncOp :=
  mkSyncOp None None (Some (mkMoveShard (MoveShardEvent_i32 Ingest) None key)) None None.
Definition EvalResult_with_batch (data : bytes) : EvalResult := mkEvalResult (Some data) None.
Definition WriteStates_default : WriteStates := mkWriteStates None None None.

Definition get_move_shard_desc {E} (s : MoveShardState) : result E MoveShardDesc :=
  expect (mss_move_shard s).
(** [move_shard.rs]. *)
Definition get_shard_desc {E} (d : MoveShardDesc) : result E ShardDesc :=
  expect (md_shard_desc d).
Definition state_get_shard_desc {E} (s : MoveShardState) : result E ShardDesc :=
  let? d := get_move_shard_desc s in get_shard_desc d.

Inductive BusyReason := Transfering | BMoving | AclGuard | PendingConfigChange | RequestChannelFulled | ProposalDropped.
(** [node/move_shard/ctrl.rs]. *)
Record ForwardCtx := mkForwardCtx {
  fc_shard_id : Z; fc_dest_group_id : Z; fc_payloads : list ValueSet }.

(** ** [server/src/error.rs]; an error of another crate is its text *)
Inductive Error :=
  | AlreadyExists (what : string)
  | InvalidArgument (msg : string)
  | DeadlineExceeded (msg : string)
  | DatabaseNotFound (name : string)
  | NoAvaliableGroup
  | ResourceExhausted (what : string)
  | CasFailed (index cond_index : Z) (prev : option Value)
  | ShardNotFound (shard_id : Z)
  | InvalidData (msg : string)
  | Canceled
  | ClusterNotMatch
  | RaftError (text : string)
  | RaftEngineError (text : string)
  | TransportError (text : string)
  | IoError (text : string)
  | RocksDbError (text : string)
  | RpcError (text : string)
  | GroupNotReady (group_id : Z)
  | ServiceIsBusy (reason : BusyReason)
  | Forward (ctx : ForwardCtx)
  | EpochNotMatch (desc : GroupDesc)
  | GroupNotFound (group_id : Z)
  | NotRootLeader (root : RootDesc) (term : Z) (leader : option ReplicaDesc)
  | NotLeader (group_id term : Z) (leader : option ReplicaDesc)
  | AbortScheduleTask (reason : string)
  | TxnConflict.
(** [From<prost::DecodeError>]. *)
Definition DecodeError : Error := InvalidData "decode".
Abbreviation Result := (result Error).

(** ** [lib.rs]: epochs; 32 bits of shard changes above 32 bits of
    configuration changes *)
Definition SHARD_UPDATE_DELTA : Z := Z.shiftl 1 32.
Definition CONFIG_CHANGE_DELTA : Z := 1.
Definition shard_epoch (e : Z) : Z := Z.shiftr e 32 mod 2 ^ 32.
Definition config_epoch (e : Z) : Z := e mod 2 ^ 32.
Definition apply_shard_delta (e : Z) : Z := u64_add e SHARD_UPDATE_DELTA.
Definition apply_config_delta (e : Z) : Z := u64_add e CONFIG_CHANGE_DELTA.

(** ** [desc.rs] *)
Definition ShardDesc_whole (shard_id table_id : Z) : ShardDesc :=
  mkShardDesc shard_id table_id (Some (mkRange [] [])).
Definition ShardDesc_with_range (shard_id table_id : Z) (start end_ : bytes) : ShardDesc :=
  mkShardDesc shard_id table_id (Some (mkRange start end_)).
Definition shard (g : GroupDesc) (shard_id : Z) : option ShardDesc :=
  List.find (λ s, sd_id s =? shard_id) (gd_shards g).
Definition set_shards (g : GroupDesc) (l : list ShardDesc) : GroupDesc :=
  mkGroupDesc (gd_id g) (gd_epoch g) l (gd_replicas g).
Definition set_replicas (g : GroupDesc) (l : list ReplicaDesc) : GroupDesc :=
  mkGroupDesc (gd_id g) (gd_epoch g) (gd_shards g) l.
Definition set_epoch (g : GroupDesc) (e : Z) : GroupDesc :=
  mkGroupDesc (gd_id g) e (gd_shards g) (gd_replicas g).
(** Writing through [shard_mut]: only the first match changes. *)
Fixpoint update_first {A} (p : A → bool) (f : A → A) (l : list A) : list A :=
  match l with
  | [] => []
  | x :: l' => if p x then f x :: l' else x :: update_first p f l'
  end.
Definition shard_mut (g : GroupDesc) (shard_id : Z) (f : ShardDesc → ShardDesc) : GroupDesc :=
  set_shards g (update_first (λ s, sd_id s =? shard_id) f (gd_shards g)).
Definition drop_shard (g : GroupDesc) (shard_id : Z) : GroupDesc :=
  set_shards g (List.filter (λ s, negb (sd_id s =? shard_id)) (gd_shards g)).

(** ** Decidable equality *)
#[global] Instance Value_eq_dec : EqDecision Value.
Proof. solve_decision. Defined.
#[global] Instance TxnState_eq_dec : EqDecision TxnState.
Proof. solve_decision. Defined.
#[global] Instance RangePartition_eq_dec : EqDecision RangePartition.
Proof. solve_decision. Defined.
#[global] Instance ShardDesc_eq_dec : EqDecision ShardDesc.
Proof. solve_decision. Defined.
#[global] Instance ReplicaDesc_eq_dec : EqDecision ReplicaDesc.
Proof. solve_decision. Defined.
#[global] Instance MoveShardDesc_eq_dec : EqDecision MoveShardDesc.
Proof. solve_decision. Defined.
#[global] Instance ShardKey_eq_dec : EqDecision ShardKey.
Proof. solve_decision. Defined.
#[global] Program Instance ShardKey_countable : Countable ShardKey :=
  inj_countable (λ k, (sk_shard_id k, sk_user_key k)) (λ p, Some (mkShardKey p.1 p.2)) _.
Next Obligation. by intros []. Qed.

(** ** Facts *)

(** An epoch is the pair of its two counters. *)
Definition epoch_of (shard_e config_e : Z) : Z := shard_e * 2 ^ 32 + config_e.

Lemma shard_epoch_div e : u64_ok e → shard_epoch e = e / 2 ^ 32.
Proof.
  intros H. unfold shard_epoch. rewrite Z.shiftr_div_pow2 by lia.
  apply Z.mod_small. unfold u64_ok, u64_MAX in H.
  split; [apply Z.div_pos; lia|]. apply Z.div_lt_upper_bound; lia.
Qed.

Lemma epoch_split e : u64_ok e → e = epoch_of (shard_epoch e) (config_epoch e).
Proof.
  intros H. rewrite shard_epoch_div by done. unfold epoch_of, config_epoch.
  pose proof (Z.div_mod e (2 ^ 32)). lia.
Qed.

Lemma apply_shard_delta_lt e : u64_ok e → shard_epoch e < 2 ^ 32 - 1 → e < apply_shard_delta e.
Proof.
  intros H Hs. rewrite shard_epoch_div in Hs by done.
  unfold apply_shard_delta, u64_add, SHARD_UPDATE_DELTA. change (Z.shiftl 1 32) with (2 ^ 32).
  pose proof (Z.div_mod e (2 ^ 32) ltac:(lia)). pose proof (Z.mod_pos_bound e (2 ^ 32) ltac:(lia)).
  rewrite u64_wrap_small; unfold u64_ok, u64_MAX in *; lia.
Qed.
