(* ===== verification/RocksDb.v ===== *)
(** * What the server relies on from RocksDB and prost

    RocksDB and the generated protobuf codecs are not part of the repository.
    They are type classes: their operations, the laws the server depends on,
    and one executable instance of each that satisfies the laws.

    A [DB] value is the content of one column family.  The laws describe
    fault-free storage: point lookups see the last write, and a forward
    iterator seeked to a key returns the live entries from that key on in
    ascending lexicographic order. *)

From S2P Require Import Prelude Bytes.

(** ** Write batches: [rocksdb::WriteBatch] as the recorded operations *)
Inductive batch_op :=
  | BatchPut (k v : bytes)
  | BatchDelete (k : bytes).
Abbreviation WriteBatch := (list batch_op).

(** ** The column-family interface *)
Class RocksDb (DB : Type) := {
  db_empty : DB;
  db_get : DB → bytes → option bytes;
  db_put : DB → bytes → bytes → DB;
  db_delete : DB → bytes → DB;
  (** [iterator_cf_opt] with [IteratorMode::From(key, Direction::Forward)]. *)
  db_iter_from : DB → bytes → list (bytes * bytes);
}.

Definition key_lt (p q : bytes * bytes) : Prop := bytes_lt p.1 q.1.

Class RocksDbOk (DB : Type) `{RocksDb DB} : Prop := {
  db_get_empty k : db_get db_empty k = None;
  db_get_put db k v k' : db_get (db_put db k v) k' = if decide (k = k') then Some v else db_get db k';
  db_get_delete db k k' : db_get (db_delete db k) k' = if decide (k = k') then None else db_get db k';
  db_iter_sorted db k : StronglySorted key_lt (db_iter_from db k);
  db_iter_elem db k k' v : (k', v) ∈ db_iter_from db k ↔ bytes_le k k' ∧ db_get db k' = Some v;
}.

(** [write_opt]: the operations of a batch apply in order. *)
Definition apply_op {DB} `{RocksDb DB} (db : DB) (op : batch_op) : DB :=
  match op with
  | BatchPut k v => db_put db k v
  | BatchDelete k => db_delete db k
  end.
Definition write_batch {DB} `{RocksDb DB} (db : DB) (wb : WriteBatch) : DB :=
  fold_left apply_op wb db.

Definition op_key (op : batch_op) : bytes :=
  match op with BatchPut k _ => k | BatchDelete k => k end.

(** ** Codecs: [encode_to_vec] / [decode], [WriteBatch::data] / [from_data] *)
Class Codec (A : Type) := {
  encode_to_vec : A → bytes;
  decode_msg : bytes → option A;
}.
Class CodecOk (A : Type) `{Codec A} : Prop := {
  decode_encode_msg a : decode_msg (encode_to_vec a) = Some a;
}.

(** ** Executable instances *)

(** The content of a column family as a finite map; iteration sorts it. *)
Definition pair_le (p q : bytes * bytes) : Prop := bytes_le p.1 q.1.
#[global] Instance pair_le_dec : RelDecision pair_le.
Proof. intros p q. unfold pair_le. apply _. Defined.

Definition map_iter_from (m : gmap bytes bytes) (k : bytes) : list (bytes * bytes) :=
  merge_sort pair_le (List.filter (λ p, bytes_leb k p.1) (map_to_list m)).

#[global] Instance map_db : RocksDb (gmap bytes bytes) := {
  db_empty := ∅;
  db_get m k := m !! k;
  db_put m k v := <[k := v]> m;
  db_delete m k := delete k m;
  db_iter_from := map_iter_from;
}.

(** Any countable type has a codec: the binary digits of its code. *)
Fixpoint pos_bytes (p : positive) : bytes :=
  match p with
  | xH => []
  | xO p => Byte.x00 :: pos_bytes p
  | xI p => Byte.x01 :: pos_bytes p
  end.
Fixpoint bytes_pos (l : bytes) : option positive :=
  match l with
  | [] => Some xH
  | Byte.x00 :: l => xO <$> bytes_pos l
  | Byte.x01 :: l => xI <$> bytes_pos l
  | _ => None
  end.
Definition countable_codec (A : Type) `{Countable A} : Codec A := {|
  encode_to_vec a := pos_bytes (encode a);
  decode_msg l := bytes_pos l ≫= decode;
|}.

(** ** Facts *)
Lemma pair_le_trans : Transitive pair_le.
Proof. intros ? ? ?. apply bytes_le_trans. Qed.

Lemma pair_le_total : Total pair_le.
Proof.
  intros p q. unfold pair_le.
  destruct (bytes_lt_total p.1 q.1) as [?|[->|?]]; rewrite !bytes_le_lteq; auto.
Qed.

Lemma sorted_le_nodup_lt (l : list (bytes * bytes)) :
  StronglySorted pair_le l → NoDup l.*1 → StronglySorted key_lt l.
Proof.
  induction 1 as [|p l Hs IH Hall]; [constructor|].
  cbn. intros [Hnin Hnd]%NoDup_cons. constructor; [auto|].
  rewrite Forall_forall in Hall |- *. intros q Hq.
  specialize (Hall q Hq). unfold pair_le in Hall. apply bytes_le_lteq in Hall as [?|E]; [done|].
  exfalso. apply Hnin. rewrite E. by apply list_elem_of_fmap_2.
Qed.

#[global] Instance map_db_ok : RocksDbOk (gmap bytes bytes).
Proof.
  pose proof pair_le_trans. pose proof pair_le_total.
  split; cbn.
  - apply lookup_empty.
  - intros. apply lookup_insert.
  - intros. apply lookup_delete.
  - intros m k. apply sorted_le_nodup_lt; unfold map_iter_from.
    + by apply StronglySorted_merge_sort.
    + rewrite merge_sort_Permutation.
      eapply sublist_NoDup; [apply (NoDup_fst_map_to_list m)|].
      apply fmap_sublist. generalize (map_to_list m). intros l.
      induction l as [|p l IH]; cbn; [done|]. case_match; by constructor.
  - intros m k k' v. unfold map_iter_from. rewrite merge_sort_Permutation.
    rewrite list_elem_of_In, filter_In, <- list_elem_of_In, elem_of_map_to_list.
    cbn. rewrite bytes_leb_le. tauto.
Qed.

Lemma pos_bytes_inv p : bytes_pos (pos_bytes p) = Some p.
Proof. induction p as [p IH|p IH|]; cbn; by rewrite ?IH. Qed.

Lemma countable_codec_ok (A : Type) `{Countable A} : @CodecOk A (countable_codec A).
Proof. split. intros a. cbn. rewrite pos_bytes_inv. cbn. apply decode_encode. Qed.

Section Batches.
  Context {DB : Type} `{RocksDbOk DB}.

Lemma write_batch_cons (db : DB) op wb :
  write_batch db (op :: wb) = write_batch (apply_op db op) wb.
Proof. done. Qed.

Lemma write_batch_app (db : DB) wb1 wb2 :
  write_batch db (wb1 ++ wb2) = write_batch (write_batch db wb1) wb2.
Proof. apply fold_left_app. Qed.

(** A batch that never mentions a key leaves it alone. *)
Lemma write_batch_other (db : DB) wb k :
  k ∉ map op_key wb → db_get (write_batch db wb) k = db_get db k.
Proof.
  revert db; induction wb as [|op wb IH]; intros db; [done|].
  cbn [map]. rewrite not_elem_of_cons. intros [Hne Hni].
  rewrite write_batch_cons, IH by done.
  destruct op; cbn in *; rewrite ?db_get_put, ?db_get_delete; by case_decide.
Qed.

End Batches.
