(* ===== verification/Schema.v ===== *)
(** * The [sekas_schema] crate

    Shard ranges ([shard.rs]), well-known identifiers ([lib.rs],
    [system/table.rs], [system.rs]) and the key layout of the transaction
    table ([system/keys.rs], [system/txn.rs]). *)

From S2P Require Import Prelude Bytes Rock Api.

(** ** [shard.rs] *)
Definition SHARD_MIN : bytes := [].
Definition SHARD_MAX : bytes := [].

(** An empty end key is the right infinity. *)
Definition in_range (start end_ use_key : bytes) : bool :=
  bytes_leb start use_key && (bytes_ltb use_key end_ || bool_decide (end_ = [])).

Definition belong_to (s : ShardDesc) (key : bytes) : bool :=
  match sd_range s with
  | Some range => in_range (rp_start range) (rp_end range) key
  | None => false
  end.

Definition start_key (s : ShardDesc) : bytes :=
  match sd_range s with Some range => rp_start range | None => [] end.
Definition end_key (s : ShardDesc) : bytes :=
  match sd_range s with Some range => rp_end range | None => [] end.

(** ** [lib.rs] *)
Definition LOCAL_TABLE_ID : Z := 0.
Definition FIRST_USER_TABLE_ID : Z := 1024.
Definition FIRST_TXN_SHARD_ID : Z := 256.
Definition FIRST_USER_SHARD_ID : Z := 1024.
Definition ROOT_GROUP_ID : Z := 0.
Definition FIRST_GROUP_ID : Z := ROOT_GROUP_ID + 1.
Definition FIRST_REPLICA_ID : Z := 1.
Definition INIT_USER_REPLICA_ID : Z := FIRST_REPLICA_ID + 1.
Definition FIRST_NODE_ID : Z := 0.
Definition INITIAL_EPOCH : Z := 1.

(** ** [system/table.rs] *)
Definition END_UNITY_TABLE_ID : Z := 100.
Definition TXN_ID : Z := FIRST_TXN_SHARD_ID.
(** [decl_unity_range_table!]: the shard of a unity table. *)
Definition unity_shard_desc (table_id : Z) : ShardDesc :=
  mkShardDesc table_id table_id (Some (mkRange SHARD_MIN SHARD_MAX)).
Definition is_unity_table (table_id : Z) : bool :=
  (LOCAL_TABLE_ID <? table_id) && (table_id <? END_UNITY_TABLE_ID).
Definition shard_id (table_id : Z) : Result Z :=
  if is_unity_table table_id then Ok table_id else Panic.
Definition txn_table_id : Z := TXN_ID.

(** ** [system.rs]: database, table, meta, node, group, replica_state, job,
    job_history, txn *)
Definition unity_table_shards : list ShardDesc :=
  map unity_shard_desc [1; 2; 3; 4; 5; 6; 7; 8; TXN_ID].
Definition root_group : GroupDesc :=
  mkGroupDesc ROOT_GROUP_ID INITIAL_EPOCH unity_table_shards
    [mkReplicaDesc FIRST_REPLICA_ID FIRST_NODE_ID (ReplicaRole_i32 Voter)].
Definition init_group : GroupDesc :=
  mkGroupDesc FIRST_GROUP_ID INITIAL_EPOCH []
    [mkReplicaDesc INIT_USER_REPLICA_ID FIRST_NODE_ID (ReplicaRole_i32 Voter)].

(** ** [system/txn.rs] *)
Definition TXN_INTENT_VERSION : Z := u64_MAX.
Definition TXN_MAX_VERSION : Z := u64_MAX - 1.
(** [fnv] stands for [FnvHasher] of the [fnv] crate: write the bytes, finish. *)
Definition hash_tag (fnv : bytes → Z) (txn_id : Z) : byte :=
  Z_byte (fnv (u64_to_le_bytes txn_id)).

(** ** [system/keys.rs] *)
Definition TXN_PREFIX : bytes := str_bytes "txn_".
Definition TXN_SUFFIX_STATE : bytes := str_bytes "state".
Definition TXN_SUFFIX_HEARTBEAT : bytes := str_bytes "hb".
Definition TXN_SUFFIX_COMMIT : bytes := str_bytes "commit".
Definition txn_lower_key (tag : byte) : bytes := TXN_PREFIX ++ [tag].
Definition txn_prefix (tag : byte) (txn_id : Z) : bytes :=
  txn_lower_key tag ++ u64_to_be_bytes txn_id.
Definition txn_state_key (tag : byte) (txn_id : Z) : bytes :=
  txn_prefix tag txn_id ++ TXN_SUFFIX_STATE.
Definition txn_heartbeat_key (tag : byte) (txn_id : Z) : bytes :=
  txn_prefix tag txn_id ++ TXN_SUFFIX_HEARTBEAT.
Definition txn_commit_key (tag : byte) (txn_id : Z) : bytes :=
  txn_prefix tag txn_id ++ TXN_SUFFIX_COMMIT.

(** ** Facts *)
Lemma in_range_spec s e k :
  in_range s e k = true ↔ bytes_le s k ∧ (bytes_lt k e ∨ e = []).
Proof.
  unfold in_range. rewrite andb_true_iff, orb_true_iff.
  by rewrite bytes_leb_le, bytes_ltb_lt, bool_decide_eq_true.
Qed.

Lemma belong_to_with_range id t s e k :
  belong_to (ShardDesc_with_range id t s e) k = in_range s e k.
Proof. done. Qed.

(** Cutting a range at one of its keys partitions it. *)
Lemma in_range_split s m e k :
  in_range s e m = true → m ≠ [] →
  in_range s e k = in_range s m k || in_range m e k.
Proof.
  intros Hm Hne. apply in_range_spec in Hm as [Hsm Hme].
  apply eq_bool_prop_intro. rewrite orb_True, !Is_true_true, !in_range_spec.
  split.
  - intros [Hsk Hke]. destruct (decide (bytes_lt k m)) as [?|Hnlt]; [by auto|].
    right. apply bytes_not_lt in Hnlt. auto.
  - intros [[? [?|?]]|[? ?]]; [|done|].
    + split; [done|]. destruct Hme; [left|right]; eauto using bytes_lt_trans.
    + split; [|done]. eauto using bytes_le_trans.
Qed.

Lemma in_range_split_disjoint s m e k :
  m ≠ [] → in_range s m k = true → in_range m e k = true → False.
Proof.
  rewrite !in_range_spec. intros ? [_ [Hlt| ->]] [Hle _]; [|done].
  eapply bytes_lt_irrefl, bytes_le_lt_trans; eauto.
Qed.

Lemma prefix_range_boundary p k :
  in_range p (lexical_next_boundary p) k = starts_with k p.
Proof.
  apply eq_bool_prop_intro. rewrite !Is_true_true, in_range_spec, starts_with_spec.
  destruct (lexical_next_boundary_cases p) as [[-> [n ->]]|(stem & c & n & Hc & Hp & ->)].
  - split; [intros [? _]; by apply replicate_ff_le|].
    intros [t ->]. eauto using bytes_le_app.
  - split.
    + intros [Hle [Hlt|Hnil]]; [|by destruct stem].
      eapply prefix_between; eauto.
    + intros [t ->]. split; [apply bytes_le_app|left].
      rewrite Hp. by apply prefix_lt_boundary.
Qed.

Lemma txn_prefix_length tag id : length (txn_prefix tag id) = 13%nat.
Proof.
  unfold txn_prefix, txn_lower_key. rewrite !length_app.
  unfold u64_to_be_bytes. by rewrite be_bytes_length.
Qed.

Lemma txn_prefix_inj tag1 tag2 id1 id2 :
  u64_ok id1 → u64_ok id2 → txn_prefix tag1 id1 = txn_prefix tag2 id2 →
  tag1 = tag2 ∧ id1 = id2.
Proof.
  unfold txn_prefix, txn_lower_key. intros H1 H2 H.
  rewrite <- !app_assoc in H. apply app_inv_head in H.
  apply (app_inj_1 [tag1] [tag2]) in H as [Htag H]; [|done].
  split; [congruence|]. apply (f_equal from_be_bytes) in H. by rewrite !from_be_u64 in H.
Qed.
