(* ===== verification/Keys.v ===== *)
(** * Storage keys and values of the group engine

    [mod keys] and [mod values] of [engine/group.rs] and [MvccEntry]: a
    version of a user key is stored under

      [table_id (8 bytes LE) | memcomparable user key | !version (8 bytes BE)]

    so that, inside a table, RocksDB's byte order is user key ascending and
    version descending. *)

From S2P Require Import Prelude Bytes Api Schema.

(** ** [mod keys] *)

(** One round of the encoding loop: eight bytes (zero padded) and a marker
    ['0' + size], where a full group that is not the last one counts 9. *)
Definition group_size (key : bytes) : Z :=
  let size := Z.of_nat (length (take 8 key)) in
  if (size =? 8) && negb (bool_decide (drop 8 key = [])) then size + 1 else size.
Definition encode_group (key : bytes) : bytes :=
  let group := take 8 key in
  group ++ replicate (8 - length group) Byte.x00 ++ [Z_byte (48 + group_size key)].

(** [while !cursor.is_empty()]: every round consumes at least one byte, so
    [length key] rounds are enough. *)
Fixpoint encode_groups (fuel : nat) (key : bytes) : bytes :=
  match fuel, key with
  | S fuel', _ :: _ => encode_group key ++ encode_groups fuel' (drop 8 key)
  | _, _ => []
  end.

Definition mvcc_key_buf (table_id : Z) (key : bytes) (version : Z) : bytes :=
  u64_to_le_bytes table_id ++ encode_groups (length key) key ++
  u64_to_be_bytes (u64_not version).

Arguments mvcc_key_buf : simpl never.

(** An empty key underflows [key.len() - 1] and requests an impossible
    capacity. *)
Definition mvcc_key (table_id : Z) (key : bytes) (version : Z) : Result bytes :=
  match key with
  | [] => Panic
  | _ => Ok (mvcc_key_buf table_id key version)
  end.

Definition raw (table_id : Z) (key : bytes) : Result bytes :=
  match key with
  | [] => Ok (u64_to_le_bytes table_id)
  | _ => mvcc_key table_id key u64_MAX
  end.

(** One round of the decoding loop reads nine bytes, a short read leaves
    zeros; [group[8] - b'0'] wraps. *)
Definition decode_group (enc : bytes) : bytes :=
  let group := take 9 enc ++ replicate (9 - length (take 9 enc)) Byte.x00 in
  let marker := (byte_Z (nth 8 group Byte.x00) - 48) mod 256 in
  take (Z.to_nat (Z.min marker 8)) group.
Fixpoint decode_groups (fuel : nat) (enc : bytes) : bytes :=
  match fuel, enc with
  | S fuel', _ :: _ => decode_group enc ++ decode_groups fuel' (drop 9 enc)
  | _, _ => []
  end.

(** [&key[L..(len - L)]] needs [2 * L] bytes. *)
Definition revert_mvcc_key (key : bytes) : Result bytes :=
  if (length key <? 16)%nat then Panic
  else
    let enc := take (length key - 16) (drop 8 key) in
    Ok (decode_groups (length enc) enc).

Definition may_revert_mvcc_key (key : bytes) : Result (option bytes) :=
  if (length key <=? 16)%nat then Ok None
  else let? k := revert_mvcc_key key in Ok (Some k).

Definition APPLY_STATE : bytes := str_bytes "APPLY_STATE".
Definition DESCRIPTOR : bytes := str_bytes "DESCRIPTOR".
Definition MIGRATE_STATE : bytes := str_bytes "MIGRATE_STATE".
Definition apply_state_key : bytes := u64_to_le_bytes LOCAL_TABLE_ID ++ APPLY_STATE.
Definition descriptor_key : bytes := u64_to_le_bytes LOCAL_TABLE_ID ++ DESCRIPTOR.
Definition move_shard_state_key : bytes := u64_to_le_bytes LOCAL_TABLE_ID ++ MIGRATE_STATE.

(** ** [mod values] *)
Definition DATA : byte := Byte.x00.
Definition TOMBSTONE : byte := Byte.x01.
Definition values_tombstone : bytes := [TOMBSTONE].
Definition values_data (v : bytes) : bytes := DATA :: v.

(** ** [MvccEntry] *)
Record MvccEntry := mkMvccEntry {
  me_key : bytes; me_user_key : bytes; me_value : bytes }.

Definition MvccEntry_new (key value : bytes) : Result MvccEntry :=
  let? k := revert_mvcc_key key in Ok (mkMvccEntry key k value).

(** The key of an entry has at least 16 bytes, see [MvccEntry_new]. *)
Definition entry_version (e : MvccEntry) : Z :=
  u64_not (from_be_bytes (drop (length (me_key e) - 8) (me_key e))).

(** [self.value[0]] panics on an empty value. *)
Definition entry_value (e : MvccEntry) : Result (option bytes) :=
  match me_value e with
  | [] => Panic
  | b :: v => if bool_decide (b = TOMBSTONE) then Ok None else Ok (Some v)
  end.

(** [impl From<MvccEntry> for Value]. *)
Definition entry_into (e : MvccEntry) : Result Value :=
  let? content := entry_value e in Ok (mkValue content (entry_version e)).

(** ** Facts: the memcomparable format *)
Definition pad8 (n : nat) (a : bytes) : bytes := a ++ replicate (n - length a) Byte.x00.

Lemma pad8_length n a : (length a ≤ n)%nat → length (pad8 n a) = n.
Proof. intros. unfold pad8. rewrite length_app, length_replicate. lia. Qed.

Lemma zero_cmp x : (byte_Z Byte.x00 ?= byte_Z x) ≠ Gt.
Proof. change (byte_Z Byte.x00) with 0. pose proof (byte_Z_range x). rewrite Z.compare_gt_iff. lia. Qed.

Lemma zeros_cmp_pad8 n a :
  (length a ≤ n)%nat → bytes_cmp (replicate n Byte.x00) (pad8 n a) ≠ Gt.
Proof.
  revert a; induction n as [|n IH]; intros [|x a] H; cbn [length] in H; try lia; try done.
  - unfold pad8. cbn [length Nat.sub app]. by rewrite bytes_cmp_refl.
  - unfold pad8. cbn [length replicate Nat.sub app bytes_cmp].
    pose proof (zero_cmp x). specialize (IH a ltac:(lia)).
    destruct (byte_Z Byte.x00 ?= byte_Z x); done.
Qed.

(** The size of a (group, rest) pair as the marker counts it. *)
Definition marker (n : nat) (a ra : bytes) : Z :=
  match ra with [] => Z.of_nat (length a) | _ => Z.of_nat n + 1 end.

Definition cmp_then (c d : comparison) : comparison := match c with Eq => d | _ => c end.

Lemma pad8_cmp n a b ra rb :
  (length a ≤ n)%nat → (length b ≤ n)%nat →
  (ra ≠ [] → length a = n) → (rb ≠ [] → length b = n) →
  bytes_cmp (a ++ ra) (b ++ rb) =
    cmp_then (bytes_cmp (pad8 n a) (pad8 n b))
      (cmp_then (marker n a ra ?= marker n b rb) (bytes_cmp ra rb)).
Proof.
  revert a b. induction n as [|n IH]; intros a b Ha Hb Hra Hrb.
  { destruct a, b; cbn in Ha, Hb; try lia. by destruct ra, rb. }
  destruct a as [|x a], b as [|y b]; cbn [length] in *.
  - destruct ra; [|discriminate Hra; done]. destruct rb; [|discriminate Hrb; done].
    by rewrite !bytes_cmp_refl.
  - destruct ra; [|discriminate Hra; done]. cbn [app bytes_cmp].
    pose proof (zeros_cmp_pad8 n b ltac:(lia)). pose proof (zero_cmp y).
    change (pad8 (S n) []) with (Byte.x00 :: replicate n Byte.x00).
    change (pad8 (S n) (y :: b)) with (y :: pad8 n b). cbn [bytes_cmp].
    destruct (byte_Z Byte.x00 ?= byte_Z y); try done.
    destruct (bytes_cmp _ (pad8 n b)); try done. unfold marker. cbn [cmp_then length].
    symmetry. rewrite (proj2 (Z.compare_lt_iff _ _)); [done|]. destruct rb; lia.
  - destruct rb; [|discriminate Hrb; done]. cbn [app bytes_cmp].
    pose proof (zeros_cmp_pad8 n a ltac:(lia)). pose proof (zero_cmp x).
    change (pad8 (S n) []) with (Byte.x00 :: replicate n Byte.x00).
    change (pad8 (S n) (x :: a)) with (x :: pad8 n a). cbn [bytes_cmp].
    rewrite (Z.compare_antisym (byte_Z Byte.x00)), (bytes_cmp_antisym (replicate _ _)).
    destruct (byte_Z Byte.x00 ?= byte_Z x); try done.
    destruct (bytes_cmp _ (pad8 n a)); try done. unfold marker. cbn [cmp_then length CompOpp].
    symmetry. rewrite (proj2 (Z.compare_gt_iff _ _)); [done|]. destruct ra; lia.
  - change (pad8 (S n) (x :: a)) with (x :: pad8 n a).
    change (pad8 (S n) (y :: b)) with (y :: pad8 n b). cbn [app bytes_cmp].
    destruct (byte_Z x ?= byte_Z y); try done.
    rewrite (IH a b) by (lia || (intros; lia) || naive_solver lia).
    f_equal. f_equal. unfold marker. cbn [length].
    destruct ra, rb; rewrite ?Nat2Z.inj_succ;
      match goal with |- (?u ?= ?v) = (?u' ?= ?v') =>
        destruct (Z.compare_spec u v), (Z.compare_spec u' v'); lia || done end.
Qed.

Lemma group_size_marker key :
  group_size key = marker 8 (take 8 key) (drop 8 key).
Proof.
  unfold group_size, marker. rewrite length_take.
  destruct (drop 8 key) as [|x r] eqn:E.
  - rewrite bool_decide_true by done. by rewrite andb_false_r.
  - assert (8 < length key)%nat.
    { apply (f_equal length) in E. rewrite length_drop in E. cbn in E. lia. }
    rewrite Nat.min_l by lia. done.
Qed.

Lemma group_size_range key : 0 ≤ group_size key ≤ 9.
Proof.
  rewrite group_size_marker. unfold marker. pose proof (length_take key 8).
  destruct (drop 8 key); lia.
Qed.

Lemma encode_group_pad key :
  encode_group key = pad8 8 (take 8 key) ++ [Z_byte (48 + group_size key)].
Proof. unfold encode_group, pad8. by rewrite <- app_assoc. Qed.

Lemma encode_group_length key : length (encode_group key) = 9%nat.
Proof.
  rewrite encode_group_pad, length_app, pad8_length; [done|].
  rewrite length_take. lia.
Qed.

Lemma marker_byte_cmp k1 k2 :
  bytes_cmp [Z_byte (48 + group_size k1)] [Z_byte (48 + group_size k2)]
  = (group_size k1 ?= group_size k2).
Proof.
  cbn. pose proof (group_size_range k1). pose proof (group_size_range k2).
  rewrite !byte_Z_byte, !Z.mod_small by lia. rewrite Zcompare_plus_compat.
  by destruct (_ ?= _).
Qed.

Lemma drop8_short (key : bytes) fuel :
  key ≠ [] → (length key ≤ S fuel)%nat → (length (drop 8 key) ≤ fuel)%nat.
Proof. intros. rewrite length_drop. destruct key; [done|]. cbn in *. lia. Qed.

Lemma encode_groups_nil fuel : encode_groups fuel [] = [].
Proof. by destruct fuel. Qed.

Lemma encode_groups_unfold fuel key :
  key ≠ [] → (length key ≤ S fuel)%nat →
  encode_groups (S fuel) key = encode_group key ++ encode_groups fuel (drop 8 key).
Proof. by destruct key. Qed.

Lemma take_drop8_full (k : bytes) : drop 8 k ≠ [] → length (take 8 k) = 8%nat.
Proof.
  intros. assert (length (drop 8 k) ≠ 0%nat) by (destruct (drop 8 k); done).
  rewrite length_drop in *. rewrite length_take. lia.
Qed.

Lemma encode_groups_cmp f1 f2 k1 k2 s1 s2 :
  k1 ≠ [] → k2 ≠ [] → (length k1 ≤ f1)%nat → (length k2 ≤ f2)%nat →
  bytes_cmp (encode_groups f1 k1 ++ s1) (encode_groups f2 k2 ++ s2) =
    cmp_then (bytes_cmp k1 k2) (bytes_cmp s1 s2).
Proof.
  revert f2 k1 k2. induction f1 as [|f1 IH]; intros [|f2] k1 k2 Hn1 Hn2 H1 H2;
    try (destruct k1; cbn in *; (done || lia)); try (destruct k2; cbn in *; (done || lia)).
  rewrite !encode_groups_unfold by done. rewrite <- !app_assoc.
  rewrite bytes_cmp_app_same_len by (by rewrite !encode_group_length).
  rewrite !encode_group_pad.
  rewrite bytes_cmp_app_same_len by (rewrite !pad8_length; rewrite ?length_take; lia).
  rewrite marker_byte_cmp.
  trans (cmp_then (bytes_cmp (take 8 k1 ++ drop 8 k1) (take 8 k2 ++ drop 8 k2))
           (bytes_cmp s1 s2)); [|by rewrite !take_drop].
  rewrite (pad8_cmp 8 (take 8 k1) (take 8 k2))
    by first [apply take_drop8_full | rewrite length_take; lia].
  rewrite <- !group_size_marker.
  destruct (bytes_cmp (pad8 8 (take 8 k1)) _); try done. cbn [cmp_then].
  destruct (group_size k1 ?= group_size k2) eqn:E; try done. cbn [cmp_then].
  apply Z.compare_eq in E. rewrite !group_size_marker in E. unfold marker in E.
  pose proof (length_take k1 8). pose proof (length_take k2 8).
  destruct (drop 8 k1) as [|x r1] eqn:D1, (drop 8 k2) as [|y r2] eqn:D2; try lia.
  - by rewrite !encode_groups_nil.
  - rewrite <- D1, <- D2. apply IH; try (by rewrite ?D1, ?D2);
      by apply drop8_short.
Qed.

Lemma decode_encode_group key rest :
  key ≠ [] → decode_group (encode_group key ++ rest) = take 8 key.
Proof.
  intros Hne. unfold decode_group.
  rewrite (take_app_length' (encode_group key) rest 9) by (by rewrite encode_group_length).
  rewrite encode_group_length, Nat.sub_diag. cbn [replicate].
  rewrite app_nil_r, encode_group_pad.
  assert (length (pad8 8 (take 8 key)) = 8%nat) as Hl.
  { apply pad8_length. rewrite length_take. lia. }
  rewrite app_nth2 by lia. rewrite Hl, Nat.sub_diag. cbn [nth].
  pose proof (group_size_range key). rewrite byte_Z_byte, (Z.mod_small (48 + _)) by lia.
  replace (48 + group_size key - 48) with (group_size key) by lia.
  rewrite Z.mod_small by lia.
  assert (Z.to_nat (Z.min (group_size key) 8) = length (take 8 key)) as ->.
  { rewrite group_size_marker. unfold marker. destruct (drop 8 key) eqn:E.
    - rewrite length_take. lia.
    - rewrite take_drop8_full by (by rewrite E). done. }
  unfold pad8. rewrite <- !app_assoc. by apply take_app_length.
Qed.

Lemma decode_encode_groups fe fd key :
  (length key ≤ fe)%nat → (length (encode_groups fe key) ≤ fd)%nat →
  decode_groups fd (encode_groups fe key) = key.
Proof.
  revert fd key; induction fe as [|fe IH]; intros fd key Hk Hd.
  { destruct key; cbn in *; [|lia]. by destruct fd. }
  destruct key as [|x key]; [by destruct fd|].
  rewrite encode_groups_unfold in * by done.
  set (k := x :: key) in *. pose proof (encode_group_length k) as Hl.
  rewrite length_app, Hl in Hd. destruct fd as [|fd]; [lia|].
  destruct (encode_group k ++ _) as [|y l] eqn:E.
  { apply (f_equal length) in E. rewrite length_app, Hl in E. cbn in E. lia. }
  cbn [decode_groups]. rewrite <- E.
  rewrite decode_encode_group by done.
  rewrite drop_app_length' by done.
  rewrite IH; [apply take_drop|by apply drop8_short|lia].
Qed.

Lemma le8_length t : length (u64_to_le_bytes t) = 8%nat.
Proof. apply le_bytes_length. Qed.
Lemma be8_length t : length (u64_to_be_bytes t) = 8%nat.
Proof. apply be_bytes_length. Qed.

Lemma mvcc_key_buf_length t k v :
  length (mvcc_key_buf t k v) = (16 + length (encode_groups (length k) k))%nat.
Proof. unfold mvcc_key_buf. rewrite !length_app, le8_length, be8_length. lia. Qed.

Lemma encode_groups_nonempty k : k ≠ [] → (0 < length (encode_groups (length k) k))%nat.
Proof.
  destruct k as [|x k]; [done|]. intros _. cbn [length].
  rewrite encode_groups_unfold, length_app, encode_group_length by done. lia.
Qed.

Lemma mvcc_key_buf_cmp t k1 k2 v1 v2 :
  k1 ≠ [] → k2 ≠ [] → u64_ok v1 → u64_ok v2 →
  bytes_cmp (mvcc_key_buf t k1 v1) (mvcc_key_buf t k2 v2) =
    cmp_then (bytes_cmp k1 k2) (v2 ?= v1).
Proof.
  intros. unfold mvcc_key_buf. rewrite bytes_cmp_app_l.
  rewrite encode_groups_cmp, u64_be_cmp by auto with sekas. f_equal.
  unfold u64_not.
  destruct (Z.compare_spec (u64_MAX - v1) (u64_MAX - v2)), (Z.compare_spec v2 v1); lia || done.
Qed.

Lemma revert_mvcc_key_buf t k v :
  k ≠ [] → revert_mvcc_key (mvcc_key_buf t k v) = Ok k.
Proof.
  intros Hk. unfold revert_mvcc_key. rewrite mvcc_key_buf_length.
  rewrite (proj2 (Nat.ltb_ge _ _)) by lia.
  replace (16 + length (encode_groups (length k) k) - 16)%nat
    with (length (encode_groups (length k) k)) by lia.
  unfold mvcc_key_buf. rewrite (drop_app_length' (u64_to_le_bytes t)) by (by rewrite le8_length).
  rewrite take_app_length. by rewrite decode_encode_groups.
Qed.

Lemma entry_version_buf t k v uk val :
  u64_ok v → entry_version (mkMvccEntry (mvcc_key_buf t k v) uk val) = v.
Proof.
  intros Hv. unfold entry_version. cbn [me_key]. rewrite mvcc_key_buf_length.
  unfold mvcc_key_buf. rewrite app_assoc. rewrite drop_app_length'.
  - rewrite from_be_u64 by auto with sekas. apply u64_not_not.
  - rewrite length_app, le8_length. lia.
Qed.

Lemma MvccEntry_new_buf t k v val :
  k ≠ [] → MvccEntry_new (mvcc_key_buf t k v) val = Ok (mkMvccEntry (mvcc_key_buf t k v) k val).
Proof. intros. unfold MvccEntry_new. by rewrite revert_mvcc_key_buf. Qed.

Lemma mvcc_key_buf_prefix t k v : take 8 (mvcc_key_buf t k v) = u64_to_le_bytes t.
Proof. unfold mvcc_key_buf. by apply take_app_length'. Qed.

Lemma mvcc_key_buf_inj t k1 k2 v1 v2 :
  k1 ≠ [] → k2 ≠ [] → u64_ok v1 → u64_ok v2 →
  mvcc_key_buf t k1 v1 = mvcc_key_buf t k2 v2 → k1 = k2 ∧ v1 = v2.
Proof.
  intros H1 H2 Hv1 Hv2 E. apply bytes_cmp_eq in E.
  rewrite mvcc_key_buf_cmp in E by done.
  destruct (bytes_cmp k1 k2) eqn:Ek; try done. cbn in E.
  apply Z.compare_eq in E. apply bytes_cmp_eq in Ek. auto.
Qed.

#[export] Hint Resolve le8_length be8_length mvcc_key_buf_prefix : sekas.
