(* ===== verification/Engine.v ===== *)
(** * The group engine ([server/src/engine/group.rs])

    [GroupEngine] keeps the multi-version data of a group's shards and the
    group's metadata in one RocksDB column family.  Modelled here: the
    snapshot iterators ([Snapshot], [SnapshotCore], [MvccIterator]), the write
    path ([put], [tombstone], [delete], [group_commit], [WriteStates::write],
    [apply_core_states]) and the read path ([get], [get_all_versions],
    [snapshot]), plus [create] / [open]. *)

From S2P Require Import Prelude Bytes Rock Api Schema RocksDb Keys.

(** ** Snapshots *)
Inductive SnapshotRange :=
  | Target (target_key : bytes)
  | Prefix (prefix : bytes)
  | Range (start end_ : bytes).

Definition is_valid_key (r : SnapshotRange) (key : bytes) : bool :=
  match r with
  | Target target_key => bytes_eqb target_key key
  | Prefix prefix => starts_with key prefix
  | Range start end_ => in_range start end_ key
  end.

Inductive SnapshotMode :=
  | ModeStart (start_key : option bytes)
  | ModeKey (key : bytes)
  | ModePrefix (key : bytes).

(** [rocksdb::DBIterator] yields key-value pairs or errors. *)
Abbreviation DBIterator := (list (bytes * bytes + Error)).

Record SnapshotCore := mkSnapshotCore {
  sc_db_iter : DBIterator; sc_current_key : option bytes; sc_cached_entry : option MvccEntry }.
Record Snapshot := mkSnapshot {
  sn_table_id : Z; sn_range : option SnapshotRange; sn_core : SnapshotCore }.

Definition Snapshot_new (table_id : Z) (db_iter : DBIterator) (mode : SnapshotMode)
    (desc : ShardDesc) : Snapshot :=
  let range :=
    match mode with
    | ModeKey key => Target key
    | ModePrefix key => Prefix key
    | ModeStart s => Range (default (start_key desc) s) (end_key desc)
    end in
  mkSnapshot table_id (Some range) (mkSnapshotCore db_iter None None).

Definition set_iter (c : SnapshotCore) (it : DBIterator) : SnapshotCore :=
  mkSnapshotCore it (sc_current_key c) (sc_cached_entry c).
Definition set_cached (c : SnapshotCore) (e : option MvccEntry) : SnapshotCore :=
  mkSnapshotCore (sc_db_iter c) (sc_current_key c) e.
Definition set_current (c : SnapshotCore) (k : option bytes) : SnapshotCore :=
  mkSnapshotCore (sc_db_iter c) k (sc_cached_entry c).
Definition set_core (s : Snapshot) (c : SnapshotCore) : Snapshot :=
  mkSnapshot (sn_table_id s) (sn_range s) c.

(** [Option<Result<T>>] is [Result (option T)]: [Ok None] for [None], [Err e]
    for [Some(Err(e))]. *)
Definition next_entry (c : SnapshotCore) (table_id : Z) : Result (option unit) * SnapshotCore :=
  match sc_db_iter c with
  | [] => (Ok None, c)
  | inr err :: it => (Err err, set_iter c it)
  | inl (key, value) :: it =>
      if (length key <? 8)%nat then (Panic, set_iter c it)
      else if negb (bytes_eqb (take 8 key) (u64_to_le_bytes table_id)) then (Ok None, set_iter c it)
      else
        match MvccEntry_new key value with
        | Ok entry => (Ok (Some tt), set_cached (set_iter c it) (Some entry))
        | Err err => (Err err, set_iter c it)
        | Panic => (Panic, set_iter c it)
        end
  end.

Definition is_current_key (c : SnapshotCore) (target_key : bytes) : bool :=
  match sc_current_key c with Some k => bytes_eqb k target_key | None => false end.

Definition in_snapshot_range (s : Snapshot) (key : bytes) : bool :=
  match sn_range s with Some range => is_valid_key range key | None => true end.

(** The [loop] of [next_mvcc_iterator]; a round that does not return takes
    one item from the iterator, so [S (length db_iter)] rounds are enough. *)
Fixpoint next_mvcc_iterator_loop (fuel : nat) (s : Snapshot) : Result (option unit) * Snapshot :=
  match fuel with
  | O => (Panic, s)
  | S fuel' =>
      let core := sn_core s in
      let advance :=
        match next_entry core (sn_table_id s) with
        | (Ok (Some _), core') => next_mvcc_iterator_loop fuel' (set_core s core')
        | (r, core') => (r, set_core s core')
        end in
      match sc_cached_entry core with
      | Some entry =>
          if negb (in_snapshot_range s (me_user_key entry)) then (Ok None, s)
          else if negb (is_current_key core (me_user_key entry))
          then (Ok (Some tt), set_core s (set_current core (Some (me_user_key entry))))
          else advance
      | None => advance
      end
  end.
Definition next_mvcc_iterator (s : Snapshot) : Result (option unit) * Snapshot :=
  next_mvcc_iterator_loop (S (length (sc_db_iter (sn_core s)))) s.

Fixpoint next_mvcc_entry_loop (fuel : nat) (s : Snapshot) : Result (option MvccEntry) * Snapshot :=
  match fuel with
  | O => (Panic, s)
  | S fuel' =>
      let core := sn_core s in
      match sc_cached_entry core with
      | Some entry =>
          if is_current_key core (me_user_key entry)
          then (Ok (Some entry), set_core s (set_cached core None))
          else (Ok None, s)
      | None =>
          match next_entry core (sn_table_id s) with
          | (Ok (Some _), core') => next_mvcc_entry_loop fuel' (set_core s core')
          | (Ok None, core') => (Ok None, set_core s core')
          | (Err e, core') => (Err e, set_core s core')
          | (Panic, core') => (Panic, set_core s core')
          end
      end
  end.
Definition next_mvcc_entry (s : Snapshot) : Result (option MvccEntry) * Snapshot :=
  next_mvcc_entry_loop (S (length (sc_db_iter (sn_core s)))) s.

(** [for entry in iter? { ... }] to the end.  Every round but the last takes
    an entry out of the snapshot, so the items left bound the rounds. *)
Definition items_left (s : Snapshot) : nat :=
  length (sc_db_iter (sn_core s)) +
  match sc_cached_entry (sn_core s) with Some _ => 1 | None => 0 end.
Fixpoint collect_entries_loop (fuel : nat) (s : Snapshot) : Result (list MvccEntry) * Snapshot :=
  match fuel with
  | O => (Panic, s)
  | S fuel' =>
      match next_mvcc_entry s with
      | (Ok None, s') => (Ok [], s')
      | (Ok (Some e), s') =>
          match collect_entries_loop fuel' s' with
          | (Ok es, s'') => (Ok (e :: es), s'')
          | r => r
          end
      | (Err err, s') => (Err err, s')
      | (Panic, s') => (Panic, s')
      end
  end.
Definition collect_entries (s : Snapshot) : Result (list MvccEntry) * Snapshot :=
  collect_entries_loop (S (items_left s)) s.

Fixpoint entries_into (es : list MvccEntry) : Result (list Value) :=
  match es with
  | [] => Ok []
  | e :: es' => let? v := entry_into e in let? vs := entries_into es' in Ok (v :: vs)
  end.

(** ** The group engine *)
Record GroupEngineCore := mkGroupEngineCore {
  gc_group_desc : GroupDesc;
  gc_shard_descs : gmap Z ShardDesc;
  gc_move_shard_state : option MoveShardState }.

(** [core] behind its lock and the column family the engine writes to. *)
Record GroupEngine (DB : Type) := mkGroupEngine {
  ge_db : DB; ge_core : GroupEngineCore }.
Arguments mkGroupEngine {DB} _ _.
Arguments ge_db {DB} _.
Arguments ge_core {DB} _.

(** [mod internal] *)
Definition internal_shard_descs (g : GroupDesc) : gmap Z ShardDesc :=
  fold_left (λ m s, <[sd_id s := s]> m) (gd_shards g) ∅.

Definition or_insert_shard (m : gmap Z ShardDesc) (s : ShardDesc) : gmap Z ShardDesc :=
  match m !! sd_id s with Some _ => m | None => <[sd_id s := s]> m end.

(** The map of shard descriptors after a metadata change: those of the group
    plus the shard being moved. *)
Definition compute_shard_descs (g : GroupDesc) (m : option MoveShardState) :
    Result (gmap Z ShardDesc) :=
  match m with
  | None => Ok (internal_shard_descs g)
  | Some st =>
      let? sd := state_get_shard_desc st in
      Ok (or_insert_shard (internal_shard_descs g) sd)
  end.

Definition is_end_step (st : MoveShardState) : bool :=
  (mss_step st =? MoveShardStep_i32 Finished) || (mss_step st =? MoveShardStep_i32 MAborted).

Definition apply_core_states (core : GroupEngineCore) (descriptor : option GroupDesc)
    (mss : option MoveShardState) : Result GroupEngineCore :=
  let g := default (gc_group_desc core) descriptor in
  let m :=
    match mss with
    | Some st => if is_end_step st then None else Some st
    | None => gc_move_shard_state core
    end in
  let? sds := compute_shard_descs g m in Ok (mkGroupEngineCore g sds m).

Section GroupEngine.
  Context {DB : Type} `{RocksDb DB}.
  Context `{Codec EntryId} `{Codec GroupDesc} `{Codec MoveShardState}.

Definition ge_shard_desc (ge : GroupEngine DB) (shard_id : Z) : Result ShardDesc :=
  ok_or (gc_shard_descs (ge_core ge) !! shard_id) (ShardNotFound shard_id).

Definition ge_descriptor (ge : GroupEngine DB) : GroupDesc := gc_group_desc (ge_core ge).
Definition ge_move_shard_state (ge : GroupEngine DB) : option MoveShardState :=
  gc_move_shard_state (ge_core ge).

(** Writes go to a batch first. *)
Definition ge_put (ge : GroupEngine DB) (wb : WriteBatch) (shard_id : Z) (key value : bytes)
    (version : Z) : Result WriteBatch :=
  let? desc := ge_shard_desc ge shard_id in
  let? k := mvcc_key (sd_table_id desc) key version in
  Ok (wb ++ [BatchPut k (values_data value)]).

Definition ge_tombstone (ge : GroupEngine DB) (wb : WriteBatch) (shard_id : Z) (key : bytes)
    (version : Z) : Result WriteBatch :=
  let? desc := ge_shard_desc ge shard_id in
  let? k := mvcc_key (sd_table_id desc) key version in
  Ok (wb ++ [BatchPut k values_tombstone]).

Definition ge_delete (ge : GroupEngine DB) (wb : WriteBatch) (shard_id : Z) (key : bytes)
    (version : Z) : Result WriteBatch :=
  let? desc := ge_shard_desc ge shard_id in
  let? k := mvcc_key (sd_table_id desc) key version in
  Ok (wb ++ [BatchDelete k]).

(** [WriteStates::write]. *)
Definition write_states (ws : WriteStates) : WriteBatch :=
  match ws_apply_state ws with
  | Some a => [BatchPut apply_state_key (encode_to_vec a)] | None => [] end ++
  match ws_descriptor ws with
  | Some d => [BatchPut descriptor_key (encode_to_vec d)] | None => [] end ++
  match ws_move_shard_state ws with
  | Some m =>
      if negb (is_end_step m) then [BatchPut move_shard_state_key (encode_to_vec m)]
      else [BatchDelete move_shard_state_key]
  | None => []
  end.

(** [group_commit] as the running process sees it.  The flag [persisted] of
    the code decides what a crash keeps of the write, see [du_group_commit];
    an error of [write_opt], which leaves the engine as it was, is not here. *)
Definition ge_group_commit (ge : GroupEngine DB) (wbs : list WriteBatch) (states : WriteStates) :
    Result (GroupEngine DB) :=
  let db := write_batch (ge_db ge) (concat wbs ++ write_states states) in
  match ws_descriptor states, ws_move_shard_state states with
  | None, None => Ok (mkGroupEngine db (ge_core ge))
  | d, m => let? core := apply_core_states (ge_core ge) d m in Ok (mkGroupEngine db core)
  end.
Definition ge_commit (ge : GroupEngine DB) (wb : WriteBatch) (states : WriteStates) :
    Result (GroupEngine DB) := ge_group_commit ge [wb] states.

(** [create]: an empty column family, then the initial descriptor. *)
Definition ge_create (group_id : Z) : Result (GroupEngine DB) :=
  let desc := mkGroupDesc group_id INITIAL_EPOCH [] [] in
  ge_commit (mkGroupEngine db_empty (mkGroupEngineCore desc ∅ None)) []
    (mkWriteStates (Some (mkEntryId 0 0)) (Some desc) None).

(** [open]: the metadata read back from the column family. *)
Definition internal_descriptor (db : DB) : Result GroupDesc :=
  let? v := expect (db_get db descriptor_key) in
  ok_or (decode_msg v) DecodeError.
Definition internal_move_shard_state (db : DB) : Result (option MoveShardState) :=
  match db_get db move_shard_state_key with
  | Some v => let? m := ok_or (decode_msg v) DecodeError in Ok (Some m)
  | None => Ok None
  end.
(** On the content that the persisted read tier sees, see [du_persisted]. *)
Definition flushed_apply_state (db : DB) : Result EntryId :=
  let? v := expect (db_get db apply_state_key) in
  ok_or (decode_msg v) DecodeError.
Definition ge_open (db : DB) : Result (GroupEngine DB) :=
  let? g := internal_descriptor db in
  let? m := internal_move_shard_state db in
  let? sds := compute_shard_descs g m in
  Ok (mkGroupEngine db (mkGroupEngineCore g sds m)).

(** [ingest]: the column family is replaced by the content of the snapshot
    files, the metadata reloaded. *)
Definition ge_ingest (ge : GroupEngine DB) (files : DB) : Result (GroupEngine DB) :=
  let? g := internal_descriptor files in
  let? m := internal_move_shard_state files in
  let? core := apply_core_states (ge_core ge) (Some g) m in
  Ok (mkGroupEngine files core).

(** *** What a crash keeps

    A column family on disk is its flushed files; the writes since the last
    flush are in memory, and those made with [set_sync(true)] also in the
    write-ahead log, while [disable_wal(true)] keeps them out of it. *)
Record Durable := mkDurable {
  du_engine : GroupEngine DB;
  du_flushed : DB;
  du_unflushed : list (bool * WriteBatch) }.

Definition du_group_commit (d : Durable) (wbs : list WriteBatch) (states : WriteStates) (persisted : bool) : Result Durable :=
  let? ge := ge_group_commit (du_engine d) wbs states in
  Ok (mkDurable ge (du_flushed d) (du_unflushed d ++ [(persisted, concat wbs ++ write_states states)])).
(** A flush moves the oldest writes to the files: all of them for [flush_cf],
    those of the full memory tables when RocksDB flushes by itself. *)
Definition du_flush (n : nat) (d : Durable) : Durable :=
  mkDurable (du_engine d) (fold_left write_batch (map snd (take n (du_unflushed d))) (du_flushed d)) (drop n (du_unflushed d)).
(** The content after a crash: the files and the write-ahead log. *)
Definition du_crash (d : Durable) : DB :=
  fold_left write_batch (map snd (List.filter fst (du_unflushed d))) (du_flushed d).
(** [ReadTier::Persisted]: memory is skipped while it holds writes that are not in the log. *)
Definition du_persisted (d : Durable) : DB :=
  if forallb fst (du_unflushed d) then fold_left write_batch (map snd (du_unflushed d)) (du_flushed d) else du_flushed d.
Definition du_flushed_apply_state (d : Durable) : Result EntryId := flushed_apply_state (du_persisted d).
Definition du_create (group_id : Z) : Result Durable :=
  let desc := mkGroupDesc group_id INITIAL_EPOCH [] [] in
  let? d := du_group_commit (mkDurable (mkGroupEngine db_empty (mkGroupEngineCore desc ∅ None)) db_empty [])
    [[]] (mkWriteStates (Some (mkEntryId 0 0)) (Some desc) None) true in
  Ok (du_flush (length (du_unflushed d)) d).

(** [snapshot]: seek to the first version of the mode's key. *)
Definition snapshot_seek_key (mode : SnapshotMode) (desc : ShardDesc) : bytes :=
  match mode with
  | ModeStart (Some k) => k
  | ModeStart None => start_key desc
  | ModeKey key => key
  | ModePrefix key => key
  end.
Definition ge_snapshot (ge : GroupEngine DB) (shard_id : Z) (mode : SnapshotMode) : Result Snapshot :=
  let? desc := ge_shard_desc ge shard_id in
  let? key := raw (sd_table_id desc) (snapshot_seek_key mode desc) in
  Ok (Snapshot_new (sd_table_id desc) (map inl (db_iter_from (ge_db ge) key)) mode desc).

Definition ge_get (ge : GroupEngine DB) (shard_id : Z) (key : bytes) : Result (option Value) :=
  let? s := ge_snapshot ge shard_id (ModeKey key) in
  match next_mvcc_iterator s with
  | (Ok (Some _), s') =>
      match next_mvcc_entry s' with
      | (Ok (Some e), _) => let? v := entry_into e in Ok (Some v)
      | (Ok None, _) => Ok None
      | (Err err, _) => Err err
      | (Panic, _) => Panic
      end
  | (Ok None, _) => Ok None
  | (Err err, _) => Err err
  | (Panic, _) => Panic
  end.

Definition ge_get_all_versions (ge : GroupEngine DB) (shard_id : Z) (key : bytes) : Result ValueSet :=
  let? s := ge_snapshot ge shard_id (ModeKey key) in
  match next_mvcc_iterator s with
  | (Ok (Some _), s') =>
      let? es := (collect_entries s').1 in
      let? vs := entries_into es in
      Ok (mkValueSet key vs)
  | (Ok None, _) => Ok (mkValueSet key [])
  | (Err err, _) => Err err
  | (Panic, _) => Panic
  end.

(** [shard_raw_boundary]. *)
Definition shard_raw_boundary (ge : GroupEngine DB) (shard_id : Z) : Result (bytes * bytes) :=
  let? desc := ge_shard_desc ge shard_id in
  let? range := ok_or (sd_range desc) (InvalidData "the range field of shard is not set") in
  let? start := raw (sd_table_id desc) (rp_start range) in
  let? end_ :=
    match rp_end range with
    | [] => let? e := raw (sd_table_id desc) (rp_end range) in Ok (lexical_next_boundary e)
    | _ => raw (sd_table_id desc) (rp_end range)
    end in
  Ok (start, end_).

(** [estimate_split_key]: the median of the split keys RocksDB's table
    properties suggest ([raw_split_keys], ordered). *)
Definition estimate_split_key (ge : GroupEngine DB) (raw_split_keys : bytes → bytes → list bytes)
    (shard_id : Z) : Result (option bytes) :=
  let? '(start, end_) := shard_raw_boundary ge shard_id in
  let keys := raw_split_keys start end_ in
  match keys !! (length keys / 2)%nat with
  | None => Ok None
  | Some k => may_revert_mvcc_key k
  end.

End GroupEngine.
Arguments Durable : clear implicits.
Arguments mkDurable {DB} _ _ _.
