(* ===== verification/EngineFacts.v ===== *)
(** * What the group engine's iterators and reads return

    The abstract view of a column family is the set of versions it holds
    ([has_version]); the iterators of [Engine] are shown to enumerate it in
    the right order on every well-formed store ([db_wf]). *)

From S2P Require Import Prelude Bytes Api Schema RocksDb Keys Engine.

(** ** Abstract view *)
Record row := mkRow { r_key : bytes; r_ver : Z; r_val : bytes }.

Definition val_ok (v : bytes) : Prop := v = values_tombstone ∨ ∃ d, v = values_data d.
Definition row_ok (r : row) : Prop := r_key r ≠ [] ∧ u64_ok (r_ver r) ∧ val_ok (r_val r).

Definition row_kv (t : Z) (r : row) : bytes * bytes :=
  (mvcc_key_buf t (r_key r) (r_ver r), r_val r).
Definition row_entry (t : Z) (r : row) : MvccEntry :=
  mkMvccEntry (mvcc_key_buf t (r_key r) (r_ver r)) (r_key r) (r_val r).

(** Stored bytes of a value ([mod values]) and back. *)
Definition stored (content : option bytes) : bytes :=
  match content with Some d => values_data d | None => values_tombstone end.
Definition content_of (v : bytes) : option bytes :=
  match v with
  | [] => None
  | b :: d => if bool_decide (b = TOMBSTONE) then None else Some d
  end.
Definition row_value (r : row) : Value := mkValue (content_of (r_val r)) (r_ver r).

(** User keys ascending, versions of a key descending. *)
Definition row_lt (r1 r2 : row) : Prop :=
  bytes_lt (r_key r1) (r_key r2) ∨ (r_key r1 = r_key r2 ∧ r_ver r2 < r_ver r1).

(** A key of another table. *)
Definition foreign (t : Z) (kv : bytes * bytes) : Prop :=
  (8 ≤ length kv.1)%nat ∧ take 8 kv.1 ≠ u64_to_le_bytes t.

(** A store the group engine wrote: local metadata and rows of tables. *)
Definition kv_wf (k v : bytes) : Prop :=
  ((8 ≤ length k)%nat ∧ take 8 k = u64_to_le_bytes LOCAL_TABLE_ID) ∨
  (∃ t r, u64_ok t ∧ t ≠ LOCAL_TABLE_ID ∧ row_ok r ∧ (k, v) = row_kv t r).
Definition db_wf {DB} `{RocksDb DB} (db : DB) : Prop := ∀ k v, db_get db k = Some v → kv_wf k v.

Definition user_table (t : Z) : Prop := u64_ok t ∧ t ≠ LOCAL_TABLE_ID.

(** The store holds [content] for version [ver] of [key]. *)
Definition has_version {DB} `{RocksDb DB} (db : DB) (t : Z) (key : bytes) (ver : Z)
    (content : option bytes) : Prop :=
  db_get db (mvcc_key_buf t key ver) = Some (stored content).

(** [vs] lists the versions of [key], newest first. *)
Definition is_versions {DB} `{RocksDb DB} (db : DB) (t : Z) (key : bytes) (vs : list Value) : Prop :=
  StronglySorted (λ a b, v_version b < v_version a) vs ∧
  ∀ v, v ∈ vs ↔ u64_ok (v_version v) ∧ has_version db t key (v_version v) (v_content v).

(** Runs of rows of one key. *)
Fixpoint take_key (k : bytes) (rows : list row) : list row :=
  match rows with
  | r :: rows' => if bool_decide (r_key r = k) then r :: take_key k rows' else []
  | [] => []
  end.
Fixpoint drop_key (k : bytes) (rows : list row) : list row :=
  match rows with
  | r :: rows' => if bool_decide (r_key r = k) then drop_key k rows' else r :: rows'
  | [] => []
  end.

(** The rows a snapshot has not handed out yet: possibly a cached one, then
    those of the iterator, then keys of other tables. *)
Definition snap_rows (t : Z) (s : Snapshot) (rows : list row) : Prop :=
  sn_table_id s = t ∧
  ∃ rest, Forall (foreign t) rest ∧
    match sc_cached_entry (sn_core s) with
    | None => sc_db_iter (sn_core s) = map inl (map (row_kv t) rows ++ rest)
    | Some e =>
        ∃ r rows', rows = r :: rows' ∧ e = row_entry t r ∧
          sc_db_iter (sn_core s) = map inl (map (row_kv t) rows' ++ rest)
    end.
Definition snap_current (s : Snapshot) : option bytes := sc_current_key (sn_core s).

(** ** Entries and rows *)
Lemma row_entry_into t r : row_ok r → entry_into (row_entry t r) = Ok (row_value r).
Proof.
  intros (Hk & Hv & Hval). unfold entry_into, entry_value, row_value, row_entry. cbn [me_value].
  rewrite entry_version_buf by done. unfold content_of.
  destruct Hval as [->|[d ->]]; done.
Qed.

Lemma row_entries_into t rows :
  Forall row_ok rows → entries_into (map (row_entry t) rows) = Ok (map row_value rows).
Proof.
  induction 1 as [|r rows Hr _ IH]; [done|]. cbn [map entries_into].
  rewrite row_entry_into, IH by done. done.
Qed.

Lemma content_of_stored c : content_of (stored c) = c.
Proof. by destruct c. Qed.

Lemma stored_content_of v : val_ok v → stored (content_of v) = v.
Proof. intros [->|[d ->]]; done. Qed.

Lemma stored_ok c : val_ok (stored c).
Proof. destruct c; unfold val_ok; cbn; eauto. Qed.

(** ** One step of the iterators *)
Lemma next_entry_row t c r rows rest :
  row_ok r → sc_db_iter c = map inl (map (row_kv t) (r :: rows) ++ rest) →
  next_entry c t =
    (Ok (Some tt), mkSnapshotCore (map inl (map (row_kv t) rows ++ rest))
                     (sc_current_key c) (Some (row_entry t r))).
Proof.
  intros (Hk & Hv & _) Hit. unfold next_entry. rewrite Hit. cbn [map app row_kv].
  rewrite (proj2 (Nat.ltb_ge _ _)) by (rewrite mvcc_key_buf_length; lia).
  rewrite mvcc_key_buf_prefix, (proj2 (bytes_eqb_eq _ _)) by done. cbn [negb].
  by rewrite MvccEntry_new_buf.
Qed.

Lemma next_entry_foreign t c rest :
  Forall (foreign t) rest → sc_db_iter c = map inl rest →
  next_entry c t = (Ok None, set_iter c (map inl (tail rest))).
Proof.
  intros Hf Hit. unfold next_entry. rewrite Hit.
  destruct Hf as [|[k v] rest [Hl Hne] _]; cbn in *; [by destruct c; cbn in *; subst|].
  rewrite (proj2 (Nat.leb_gt _ _)) by lia. unfold bytes_eqb.
  by rewrite bool_decide_false.
Qed.

Lemma snap_rows_iter_length t s rows :
  snap_rows t s rows → (length rows ≤ S (length (sc_db_iter (sn_core s))))%nat.
Proof.
  intros (_ & rest & _ & H). destruct (sc_cached_entry _).
  - destruct H as (r & rows' & -> & _ & ->). rewrite length_map, length_app, length_map. cbn. lia.
  - rewrite H, length_map, length_app, length_map. lia.
Qed.

Lemma next_mvcc_entry_spec t s rows k :
  snap_rows t s rows → Forall row_ok rows → snap_current s = Some k →
  ∃ s', snap_current s' = Some k ∧ sn_range s' = sn_range s ∧
    match rows with
    | r :: rows' =>
        if bool_decide (r_key r = k)
        then next_mvcc_entry s = (Ok (Some (row_entry t r)), s') ∧ snap_rows t s' rows'
        else next_mvcc_entry s = (Ok None, s') ∧ snap_rows t s' rows
    | [] => next_mvcc_entry s = (Ok None, s') ∧ snap_rows t s' []
    end.
Proof.
  intros (Ht & rest & Hrest & Hrows) Hok Hcur.
  destruct s as [t' range [it cur cached]]. cbn in *. subst t' cur.
  unfold next_mvcc_entry, snap_rows, snap_current. cbn [next_mvcc_entry_loop sn_core sc_cached_entry sc_db_iter].
  destruct cached as [e|].
  - destruct Hrows as (r & rows' & -> & -> & ->). unfold is_current_key. cbn.
    unfold bytes_eqb. rewrite (bool_decide_ext (k = r_key r) (r_key r = k)) by done.
    case_bool_decide; eexists; (split; [|split; [|split; [reflexivity|]]]; cbn; eauto 10).
  - subst it. destruct rows as [|r rows].
    + rewrite (next_entry_foreign t _ rest) by done. cbn.
      eexists. split; [|split; [|split; [reflexivity|]]]; cbn; [done..|].
      split; [done|]. exists (tail rest). split; [|done]. by destruct Hrest.
    + inversion Hok; subst. cbn [map app length]. 
      rewrite (next_entry_row t _ r rows rest) by done.
      cbn. unfold is_current_key. cbn. unfold bytes_eqb.
      rewrite (bool_decide_ext (k = r_key r) (r_key r = k)) by done.
      case_bool_decide; eexists; (split; [|split; [|split; [reflexivity|]]]; cbn; eauto 10).
Qed.

(** What [next_mvcc_iterator] promises when [rows] are left: skip the rest of
    the current key, then offer the next key if the range allows it. *)
Definition iterator_post (t : Z) (s : Snapshot) (rows : list row)
    (out : Result (option unit) * Snapshot) : Prop :=
  let rows' := match snap_current s with Some k => drop_key k rows | None => rows end in
  match rows' with
  | [] => out.1 = Ok None
  | r :: _ =>
      if in_snapshot_range s (r_key r) then
        ∃ s', out = (Ok (Some tt), s') ∧ snap_rows t s' rows' ∧
          snap_current s' = Some (r_key r) ∧ sn_range s' = sn_range s
      else out.1 = Ok None
  end.

Definition current_in_range (s : Snapshot) : Prop :=
  ∀ k, snap_current s = Some k → in_snapshot_range s k = true.

Definition cached_snap (t : Z) range cur (r : row) (rows : list row) rest : Snapshot :=
  mkSnapshot t range
    (mkSnapshotCore (map inl (map (row_kv t) rows ++ rest)) cur (Some (row_entry t r))).

Lemma cached_snap_rows t range cur r rows rest :
  Forall (foreign t) rest → snap_rows t (cached_snap t range cur r rows rest) (r :: rows).
Proof. intros. split; [done|]. exists rest. cbn. eauto 10. Qed.

Lemma iterator_loop_cached fuel t range cur r rows rest :
  (length rows < fuel)%nat → Forall (foreign t) rest → Forall row_ok (r :: rows) →
  current_in_range (cached_snap t range cur r rows rest) →
  iterator_post t (cached_snap t range cur r rows rest) (r :: rows)
    (next_mvcc_iterator_loop fuel (cached_snap t range cur r rows rest)).
Proof.
  revert r rows. induction fuel as [|fuel IH]; intros r rows Hf Hrest Hok Hcur; [lia|].
  cbn [next_mvcc_iterator_loop]. set (s := cached_snap t range cur r rows rest) in *.
  change (sc_cached_entry (sn_core s)) with (Some (row_entry t r)).
  cbn [me_user_key row_entry]. unfold iterator_post, is_current_key.
  change (snap_current s) with cur. change (sc_current_key (sn_core s)) with cur.
  assert (Hret : in_snapshot_range s (r_key r) = true →
    ∃ s', (Ok (Some tt), set_core s (set_current (sn_core s) (Some (r_key r))))
            = (Ok (Some tt) : Result (option unit), s') ∧ snap_rows t s' (r :: rows) ∧
          snap_current s' = Some (r_key r) ∧ sn_range s' = sn_range s).
  { intros. eexists. split; [reflexivity|]. split; [|done].
    apply (cached_snap_rows t range (Some (r_key r))). done. }
  destruct cur as [k|]; cbn [drop_key].
  2: { by destruct (in_snapshot_range s (r_key r)); [apply Hret|]. }
  unfold bytes_eqb. rewrite (bool_decide_ext (k = r_key r) (r_key r = k)) by done.
  destruct (bool_decide (r_key r = k)) eqn:E; to_prop; cbn [negb].
  2: { by destruct (in_snapshot_range s (r_key r)); [apply Hret|]. }
  subst k. rewrite (Hcur _ eq_refl). cbn [negb].
  inversion Hok as [|?? _ Hok']; subst. destruct rows as [|r2 rows].
  { change (drop_key (r_key r) []) with (@nil row). cbv iota.
    rewrite (next_entry_foreign t _ rest); done. }
  inversion Hok' as [|?? Hr2 _]; subst.
  rewrite (next_entry_row t _ r2 rows rest) by done.
  refine (IH r2 rows _ Hrest Hok' _); [cbn in *; lia|].
  intros k. apply Hcur.
Qed.

Lemma next_mvcc_iterator_spec t s rows :
  snap_rows t s rows → Forall row_ok rows → current_in_range s →
  iterator_post t s rows (next_mvcc_iterator s).
Proof.
  intros (Ht & rest & Hrest & Hrows) Hok Hcur. unfold next_mvcc_iterator.
  destruct s as [t' range [it cur [e|]]]; cbn in Ht, Hrows; subst t'.
  - destruct Hrows as (r & rows' & -> & -> & ->). cbn [sn_core sc_db_iter].
    apply iterator_loop_cached; [|done..].
    rewrite length_map, length_app, length_map. lia.
  - subst it. cbn [sn_core sc_db_iter]. set (n := length _).
    assert (length rows ≤ n)%nat.
    { subst n. rewrite length_map, length_app, length_map. lia. }
    cbn [next_mvcc_iterator_loop sn_core sc_cached_entry].
    destruct rows as [|r rows].
    + rewrite (next_entry_foreign t _ rest) by done. unfold iterator_post. cbn. by destruct cur.
    + inversion Hok; subst. rewrite (next_entry_row t _ r rows rest) by done.
      apply (iterator_loop_cached n t range cur r rows rest); cbn in *; [lia|done..].
Qed.

Lemma collect_entries_loop_spec fuel t s rows k :
  (length rows < fuel)%nat →
  snap_rows t s rows → Forall row_ok rows → snap_current s = Some k →
  ∃ s', collect_entries_loop fuel s = (Ok (map (row_entry t) (take_key k rows)), s') ∧
    snap_rows t s' (drop_key k rows) ∧ snap_current s' = Some k ∧ sn_range s' = sn_range s.
Proof.
  revert s rows. induction fuel as [|fuel IH]; intros s rows Hf Hs Hok Hcur; [lia|].
  cbn [collect_entries_loop].
  destruct (next_mvcc_entry_spec t s rows k Hs Hok Hcur) as (s' & Hc' & Hr' & Hnext).
  destruct rows as [|r rows]; cbn [take_key drop_key].
  - destruct Hnext as [-> ?]. eauto.
  - destruct (bool_decide (r_key r = k)).
    + destruct Hnext as [-> Hs']. inversion Hok; subst.
      destruct (IH s' rows) as (s'' & -> & ? & ? & ?); [cbn in *; lia|done..|].
      exists s''. split; [done|]. split; [done|]. split; [done|]. congruence.
    + destruct Hnext as [-> Hs']. eauto.
Qed.

Lemma snap_rows_items_left t s rows :
  snap_rows t s rows → (length rows ≤ items_left s)%nat.
Proof.
  intros (_ & rest & _ & H). unfold items_left. destruct (sc_cached_entry _).
  - destruct H as (r & rows' & -> & _ & ->). rewrite length_map, length_app, length_map. cbn. lia.
  - rewrite H, length_map, length_app, length_map. lia.
Qed.

Lemma collect_entries_spec t s rows k :
  snap_rows t s rows → Forall row_ok rows → snap_current s = Some k →
  ∃ s', collect_entries s = (Ok (map (row_entry t) (take_key k rows)), s') ∧
    snap_rows t s' (drop_key k rows) ∧ snap_current s' = Some k ∧ sn_range s' = sn_range s.
Proof.
  intros Hs Hok Hcur. apply collect_entries_loop_spec; [|done..].
  pose proof (snap_rows_items_left t s rows Hs). lia.
Qed.

(** ** Rows of a sorted run *)
Lemma take_key_elem k rows r :
  StronglySorted row_lt rows → Forall (λ r, bytes_le k (r_key r)) rows →
  r ∈ take_key k rows ↔ r ∈ rows ∧ r_key r = k.
Proof.
  induction 1 as [|r0 rows Hs IH Hall]; intros Hge; cbn.
  { split; [by intros ?%not_elem_of_nil|]. by intros [?%not_elem_of_nil ?]. }
  inversion Hge as [|?? Hk0 Hge']; subst. rewrite Forall_forall in Hall.
  case_bool_decide as E.
  - rewrite !elem_of_cons, IH by done. naive_solver.
  - split; [by intros ?%not_elem_of_nil|]. intros [[->|Hin]%elem_of_cons Hr]; [done|].
    exfalso. destruct (Hall r Hin) as [Hlt|[Heq _]]; [|congruence].
    rewrite Hr in Hlt. apply bytes_le_lteq in Hk0 as [Hk0|Hk0]; [|congruence].
    eapply bytes_lt_irrefl, bytes_lt_trans; eauto.
Qed.

Lemma take_key_all k rows : Forall (λ r, r_key r = k) (take_key k rows).
Proof.
  induction rows as [|r rows IH]; cbn; [constructor|]. case_bool_decide; by constructor.
Qed.

Lemma take_key_sublist k rows : take_key k rows `sublist_of` rows.
Proof.
  induction rows as [|r rows IH]; cbn; [constructor|].
  case_bool_decide; [by constructor|]. apply sublist_nil_l.
Qed.

Lemma take_drop_key k rows : take_key k rows ++ drop_key k rows = rows.
Proof. induction rows as [|r rows IH]; cbn; [done|]. case_bool_decide; cbn; by rewrite ?IH. Qed.

Lemma StronglySorted_sublist {A} (R : A → A → Prop) l k :
  l `sublist_of` k → StronglySorted R k → StronglySorted R l.
Proof.
  intros Hsub Hs. induction Hsub; inversion Hs; subst; [done| |by auto].
  constructor; [by auto|]. rewrite Forall_forall in *. eauto using elem_of_sublist.
Qed.

Lemma StronglySorted_fmap {A B} (f : A → B) (R : A → A → Prop) (S : B → B → Prop) l :
  (∀ x y, x ∈ l → y ∈ l → R x y → S (f x) (f y)) → StronglySorted R l → StronglySorted S (map f l).
Proof.
  induction 2 as [|x l Hs IH Hall]; cbn; constructor.
  - apply IH. intros. apply H; [by right..|done].
  - rewrite Forall_forall in Hall. apply Forall_forall.
    intros y (z & -> & Hz)%list_elem_of_fmap.
    apply H; [by left|by right|]. by apply Hall.
Qed.

(** ** Rows of a store *)
Lemma le8_inj t1 t2 : u64_ok t1 → u64_ok t2 → u64_to_le_bytes t1 = u64_to_le_bytes t2 → t1 = t2.
Proof. intros ? ? E. apply (f_equal from_le_bytes) in E. by rewrite !from_le_u64 in E. Qed.

Lemma prefix_bytes_cmp (p k : bytes) :
  length p = 8%nat → bytes_cmp p k = cmp_then (bytes_cmp p (take 8 k)) (bytes_cmp [] (drop 8 k)).
Proof.
  intros Hp. destruct (Nat.le_gt_cases 8 (length k)).
  - trans (bytes_cmp (p ++ []) (take 8 k ++ drop 8 k)); [by rewrite take_drop, app_nil_r|].
    rewrite bytes_cmp_app_same_len; [by destruct (bytes_cmp p _)|]. rewrite length_take. lia.
  - rewrite take_ge, drop_ge by lia. by destruct (bytes_cmp p k).
Qed.

Section Store.
  Context {DB : Type} `{RocksDbOk DB}.

(** Seeking to the first version of [key] means starting at user key [key]. *)
Lemma raw_seek_le t key k v rk :
  k ≠ [] → u64_ok v → raw t key = Ok rk →
  bytes_le rk (mvcc_key_buf t k v) ↔ bytes_le key k.
Proof.
  intros Hk Hv Hraw. destruct key as [|b key]; cbn [raw] in Hraw; injection Hraw as <-.
  - split; [auto using bytes_nil_le|]. intros _. unfold mvcc_key_buf.
    apply Rock.bytes_le_app.
  - unfold bytes_le. rewrite mvcc_key_buf_cmp by (done || unfold u64_ok, u64_MAX; lia).
    destruct (bytes_cmp (b :: key) k) eqn:E; cbn [cmp_then]; [|naive_solver..].
    split; [done|]. intros _. rewrite Z.compare_gt_iff. unfold u64_ok in Hv. lia.
Qed.

Lemma raw_prefix_le t key rk : raw t key = Ok rk → bytes_le (u64_to_le_bytes t) rk.
Proof.
  destruct key as [|b key]; cbn [raw]; intros [= <-].
  - apply bytes_le_refl.
  - unfold mvcc_key_buf. apply Rock.bytes_le_app.
Qed.

(** In a well-formed store, what follows a seek into table [t] is rows of [t]
    and then keys of other tables. *)
Definition row_of (kv : bytes * bytes) : row :=
  match MvccEntry_new kv.1 kv.2 with
  | Ok e => mkRow (me_user_key e) (entry_version e) kv.2
  | _ => mkRow [] 0 []
  end.

Lemma row_of_kv t r : row_ok r → row_of (row_kv t r) = r.
Proof.
  intros (Hk & Hv & _). unfold row_of, row_kv. cbn [fst snd].
  rewrite MvccEntry_new_buf, entry_version_buf by done. by destruct r.
Qed.

Lemma kv_wf_cases t k v :
  user_table t → kv_wf k v →
  foreign t (k, v) ∨ (∃ r, row_ok r ∧ (k, v) = row_kv t r).
Proof.
  intros [Ht Hne] [[Hl Hp]|(t' & r & Ht' & _ & Hr & E)].
  - left. split; [done|]. cbn. rewrite Hp. intros E. apply Hne. symmetry.
    apply le8_inj; [|done|done]. unfold u64_ok, LOCAL_TABLE_ID, u64_MAX. lia.
  - destruct (decide (t' = t)) as [->|Htt]; [eauto|]. left.
    unfold row_kv in E. simplify_eq. split; cbn.
    + rewrite mvcc_key_buf_length. lia.
    + rewrite mvcc_key_buf_prefix. intros ?%le8_inj; done.
Qed.

Lemma sorted_table_run t (l : list (bytes * bytes)) :
  StronglySorted key_lt l →
  Forall (λ kv, bytes_le (u64_to_le_bytes t) kv.1) l →
  Forall (λ kv, foreign t kv ∨ ∃ r, row_ok r ∧ kv = row_kv t r) l →
  ∃ rows rest, l = map (row_kv t) rows ++ rest ∧ Forall row_ok rows ∧ Forall (foreign t) rest.
Proof.
  induction 1 as [|kv l Hs IH Hall]; intros Hge Hcase; [by exists [], []|].
  inversion Hge as [|?? Hge0 Hge']; inversion Hcase as [|?? Hc0 Hcase']; subst.
  destruct (IH Hge' Hcase') as (rows & rest & -> & Hok & Hf).
  destruct Hc0 as [Hfor|(r & Hr & ->)].
  - exists [], (kv :: map (row_kv t) rows ++ rest). split; [done|]. split; [constructor|].
    constructor; [done|]. apply Forall_app. split; [|done].
    destruct rows as [|r rows]; [constructor|]. exfalso.
    cbn in Hall. inversion Hall as [|?? Hlt _]; subst. unfold key_lt in Hlt. cbn in Hlt.
    destruct Hfor as [Hl Hne]. unfold bytes_le, bytes_lt in *.
    rewrite prefix_bytes_cmp in Hge0 by apply le8_length.
    rewrite <- (take_drop 8 kv.1), <- (take_drop 8 (mvcc_key_buf t _ _)) in Hlt.
    rewrite bytes_cmp_app_same_len in Hlt
      by (rewrite !length_take, mvcc_key_buf_length; lia).
    rewrite mvcc_key_buf_prefix, (bytes_cmp_antisym (u64_to_le_bytes t)) in Hlt.
    destruct (bytes_cmp (u64_to_le_bytes t) (take 8 kv.1)) eqn:E; try done.
    apply bytes_cmp_eq in E. congruence.
  - exists (r :: rows), rest. split; [done|]. split; [by constructor|done].
Qed.

Lemma row_lt_of_key_lt t r1 r2 :
  row_ok r1 → row_ok r2 → key_lt (row_kv t r1) (row_kv t r2) → row_lt r1 r2.
Proof.
  intros (Hk1 & Hv1 & _) (Hk2 & Hv2 & _). unfold key_lt, row_kv, bytes_lt, row_lt. cbn [fst].
  rewrite mvcc_key_buf_cmp by done. destruct (bytes_cmp (r_key r1) (r_key r2)) eqn:E; cbn; [|auto|done].
  apply bytes_cmp_eq in E. intros ?%Z.compare_lt_iff. auto.
Qed.

Lemma StronglySorted_app_l {A} (R : A → A → Prop) l1 l2 :
  StronglySorted R (l1 ++ l2) → StronglySorted R l1.
Proof. apply StronglySorted_sublist. apply sublist_inserts_r. done. Qed.

Lemma iter_rows (db : DB) t key rk :
  db_wf db → user_table t → raw t key = Ok rk →
  ∃ rows rest,
    db_iter_from db rk = map (row_kv t) rows ++ rest ∧ Forall row_ok rows ∧ Forall (foreign t) rest ∧
    StronglySorted row_lt rows ∧ Forall (λ r, bytes_le key (r_key r)) rows ∧
    ∀ r, r ∈ rows ↔ row_ok r ∧ bytes_le key (r_key r) ∧
                    db_get db (mvcc_key_buf t (r_key r) (r_ver r)) = Some (r_val r).
Proof.
  intros Hwf Ht Hraw. pose proof (db_iter_sorted db rk) as Hsorted.
  destruct (sorted_table_run t (db_iter_from db rk)) as (rows & rest & Hl & Hok & Hf); [done| | |].
  { apply Forall_forall. intros [k v] [Hle _]%db_iter_elem.
    eapply bytes_le_trans; [by eapply raw_prefix_le|done]. }
  { apply Forall_forall. intros [k v] [_ Hget]%db_iter_elem. by apply kv_wf_cases, Hwf. }
  assert (Hin : ∀ r, r ∈ rows ↔ row_ok r ∧ bytes_le key (r_key r) ∧
                    db_get db (mvcc_key_buf t (r_key r) (r_ver r)) = Some (r_val r)).
  { rewrite Forall_forall in Hok. rewrite Forall_forall in Hf. intros r. split.
    - intros Hr. specialize (Hok r Hr). split; [done|].
      assert (row_kv t r ∈ db_iter_from db rk) as Hel.
      { rewrite Hl. apply elem_of_app. left. by apply list_elem_of_fmap_2. }
      unfold row_kv in Hel. apply db_iter_elem in Hel as [Hle Hget]. split; [|done].
      destruct Hok as (? & ? & _). by eapply raw_seek_le.
    - intros (Hr & Hle & Hget).
      assert (row_kv t r ∈ db_iter_from db rk) as Hel.
      { apply db_iter_elem. split; [|done]. destruct Hr as (? & ? & _). by eapply raw_seek_le. }
      rewrite Hl in Hel. apply elem_of_app in Hel as [(r' & E & Hr')%list_elem_of_fmap|Hel].
      + rewrite <- (row_of_kv t r), E, row_of_kv by auto. done.
      + destruct (Hf _ Hel) as [_ []]. cbn. by rewrite mvcc_key_buf_prefix. }
  exists rows, rest. split; [done|]. split; [done|]. split; [done|].
  rewrite Hl in Hsorted. apply StronglySorted_app_l in Hsorted.
  split; [|split; [|done]].
  - assert (map row_of (map (row_kv t) rows) = rows) as Hrows.
    { rewrite map_map. rewrite <- (map_id rows) at 2. apply map_ext_in.
      intros r Hr%list_elem_of_In. apply row_of_kv. rewrite Forall_forall in Hok. auto. }
    rewrite <- Hrows. eapply StronglySorted_fmap; [|done].
    rewrite Forall_forall in Hok.
    intros ? ? (r1 & -> & Hr1)%list_elem_of_fmap (r2 & -> & Hr2)%list_elem_of_fmap Hlt.
    rewrite !row_of_kv by auto. by eapply (row_lt_of_key_lt t); auto.
  - apply Forall_forall. intros r Hr. by apply Hin.
Qed.

(** The rows of one key are its versions. *)
Lemma take_key_versions (db : DB) t key rows :
  key ≠ [] →
  StronglySorted row_lt rows → Forall (λ r, bytes_le key (r_key r)) rows →
  (∀ r, r ∈ rows ↔ row_ok r ∧ bytes_le key (r_key r) ∧
                   db_get db (mvcc_key_buf t (r_key r) (r_ver r)) = Some (r_val r)) →
  is_versions db t key (map row_value (take_key key rows)).
Proof.
  intros Hne Hs Hge Hin. split.
  - eapply (StronglySorted_fmap _ row_lt);
      [|eapply StronglySorted_sublist; [apply take_key_sublist|done]].
    intros r1 r2 [_ E1]%take_key_elem [_ E2]%take_key_elem Hlt; [|done..].
    cbn. destruct Hlt as [Hlt|[_ Hlt]]; [|done]. rewrite E1, E2 in Hlt.
    by apply bytes_lt_irrefl in Hlt.
  - intros [c ver]. cbn. unfold has_version. split.
    + intros (r & E & [Hr <-]%take_key_elem)%list_elem_of_fmap; [|done..].
      apply Hin in Hr as ((? & Hv & Hval) & _ & Hget). unfold row_value in E. simplify_eq.
      split; [done|]. by rewrite stored_content_of.
    + intros [Hv Hget]. apply list_elem_of_fmap. exists (mkRow key ver (stored c)).
      split; [unfold row_value; cbn; by rewrite content_of_stored|].
      apply take_key_elem; [done..|]. split; [|done]. apply Hin. cbn.
      split; [|split; [apply bytes_le_refl|done]].
      split; [done|]. split; [done|]. apply stored_ok.
Qed.

(** *** The reads of the group engine *)
Lemma snapshot_rows (ge : GroupEngine DB) sid desc mode :
  db_wf (ge_db ge) → gc_shard_descs (ge_core ge) !! sid = Some desc →
  user_table (sd_table_id desc) →
  let key := snapshot_seek_key mode desc in
  let t := sd_table_id desc in
  ∃ s rows, ge_snapshot ge sid mode = Ok s ∧ snap_rows t s rows ∧ Forall row_ok rows ∧
    snap_current s = None ∧
    sn_range s = sn_range (Snapshot_new t [] mode desc) ∧
    StronglySorted row_lt rows ∧ Forall (λ r, bytes_le key (r_key r)) rows ∧
    ∀ r, r ∈ rows ↔ row_ok r ∧ bytes_le key (r_key r) ∧
                    db_get (ge_db ge) (mvcc_key_buf t (r_key r) (r_ver r)) = Some (r_val r).
Proof.
  intros Hwf Hsd Ht key t. unfold ge_snapshot, ge_shard_desc. rewrite Hsd. cbn [ok_or result_bind].
  fold key t. assert (∃ rk, raw t key = Ok rk) as [rk Hrk] by (destruct key; cbn; eauto).
  rewrite Hrk. cbn [result_bind].
  destruct (iter_rows (ge_db ge) t key rk Hwf Ht Hrk) as (rows & rest & Hl & Hok & Hf & Hs & Hge & Hin).
  eexists _, rows. split; [reflexivity|]. split.
  { split; [done|]. exists rest. cbn. by rewrite Hl. }
  by destruct mode.
Qed.

(** A snapshot of one key offers that key, with its versions, or nothing. *)
Lemma key_snapshot_iter (ge : GroupEngine DB) sid desc key :
  db_wf (ge_db ge) → gc_shard_descs (ge_core ge) !! sid = Some desc →
  user_table (sd_table_id desc) → key ≠ [] →
  ∃ s vs, ge_snapshot ge sid (ModeKey key) = Ok s ∧
    is_versions (ge_db ge) (sd_table_id desc) key vs ∧
    (vs = [] ∧ (next_mvcc_iterator s).1 = Ok None ∨
     ∃ s' rows, next_mvcc_iterator s = (Ok (Some tt), s') ∧
       snap_rows (sd_table_id desc) s' rows ∧ Forall row_ok rows ∧
       snap_current s' = Some key ∧ map row_value (take_key key rows) = vs ∧ vs ≠ []).
Proof.
  intros Hwf Hsd Ht Hne.
  destruct (snapshot_rows ge sid desc (ModeKey key) Hwf Hsd Ht)
    as (s & rows & Hsnap & Hrows & Hok & Hcur & Hrange & Hs & Hge & Hin). cbn in Hge, Hin, Hrange.
  set (t := sd_table_id desc) in *.
  exists s, (map row_value (take_key key rows)). split; [done|].
  split; [by apply take_key_versions|].
  pose proof (next_mvcc_iterator_spec t s rows Hrows Hok) as Hit.
  unfold iterator_post in Hit. rewrite Hcur in Hit.
  specialize (Hit ltac:(intros ?; unfold current_in_range, snap_current in *; congruence)).
  destruct rows as [|r rows]; [by left|].
  unfold in_snapshot_range in Hit. rewrite Hrange in Hit. cbn [is_valid_key] in Hit.
  unfold bytes_eqb in Hit. rewrite (bool_decide_ext (key = r_key r) (r_key r = key)) in Hit by done.
  cbn [take_key]. destruct (bool_decide_reflect (r_key r = key)) as [E|E]; [right|by left].
  destruct Hit as (s' & -> & Hrows' & Hcur' & _). rewrite E in Hcur'.
  exists s', (r :: rows). cbn [take_key]. rewrite bool_decide_true by done. by split_and!.
Qed.

Lemma take_key_ok k rows : Forall row_ok rows → Forall row_ok (take_key k rows).
Proof.
  intros Hok. rewrite Forall_forall in Hok. apply Forall_forall. intros r Hr.
  apply Hok. eapply elem_of_sublist; [done|]. apply take_key_sublist.
Qed.

(** The next entry of the current key. *)
Lemma next_entry_take t s rows k :
  snap_rows t s rows → Forall row_ok rows → snap_current s = Some k →
  match take_key k rows with
  | [] => (next_mvcc_entry s).1 = Ok None
  | r :: _ => ∃ s' rows', next_mvcc_entry s = (Ok (Some (row_entry t r)), s') ∧ row_ok r ∧
                snap_rows t s' rows' ∧ Forall row_ok rows' ∧ snap_current s' = Some k ∧
                take_key k rows = r :: take_key k rows'
  end.
Proof.
  intros Hrows Hok Hcur.
  destruct (next_mvcc_entry_spec t s rows k Hrows Hok Hcur) as (s' & Hc & _ & Hn).
  destruct rows as [|r rows]; cbn [take_key]; [by destruct Hn as [-> _]|].
  destruct (bool_decide (r_key r = k)); [|by destruct Hn as [-> _]].
  destruct Hn as [-> ?]. inversion Hok; subst. by exists s', rows.
Qed.

Lemma get_all_versions_versions (ge : GroupEngine DB) sid desc key :
  db_wf (ge_db ge) → gc_shard_descs (ge_core ge) !! sid = Some desc →
  user_table (sd_table_id desc) → key ≠ [] →
  ∃ vs, ge_get_all_versions ge sid key = Ok (mkValueSet key vs) ∧
        ge_get ge sid key = Ok (head vs) ∧
        is_versions (ge_db ge) (sd_table_id desc) key vs.
Proof.
  intros Hwf Hsd Ht Hne.
  destruct (key_snapshot_iter ge sid desc key Hwf Hsd Ht Hne) as (s & vs & Hsnap & Hvs & Hit).
  exists vs. unfold ge_get_all_versions, ge_get. rewrite Hsnap. cbn [result_bind].
  destruct Hit as [[-> Hn]|(s' & rows & -> & Hrows & Hok & Hcur & Htk & Hvne)].
  { destruct (next_mvcc_iterator s) as [res ?]. cbn in Hn. subst res. done. }
  destruct (collect_entries_spec _ s' rows key Hrows Hok Hcur) as (s'' & -> & _).
  pose proof (next_entry_take _ s' rows key Hrows Hok Hcur) as Hn.
  pose proof (take_key_ok key rows Hok) as Hok'. cbn [fst result_bind].
  destruct (take_key key rows) as [|r rs]; [by subst|].
  destruct Hn as (s3 & rows' & -> & Hr & _).
  rewrite row_entries_into, row_entry_into by done. cbn. by subst.
Qed.

(** Two lists of versions of the same key agree. *)
Lemma is_versions_unique (db : DB) t key vs1 vs2 :
  is_versions db t key vs1 → is_versions db t key vs2 → vs1 = vs2.
Proof.
  intros [Hs1 Hin1] [Hs2 Hin2].
  eapply sorted_strict_unique; [|exact Hs1|exact Hs2|intros; by rewrite Hin1, Hin2].
  cbn. lia.
Qed.

End Store.
