(* ===== verification/EngineWrites.v ===== *)
(** * The write path of the group engine, on versions

    Batches of [put], [tombstone] and [delete] operations act on the list of
    versions of a key the way [set_version] and [del_version] say; other keys,
    other tables and the metadata are untouched.  Metadata commits keep the
    in-memory core and the stored records in step ([meta_synced]). *)

From S2P Require Import Prelude Bytes Api Schema RocksDb Keys Engine EngineFacts.

(** ** Version lists *)
Fixpoint set_version (ver : Z) (c : option bytes) (vs : list Value) : list Value :=
  match vs with
  | [] => [mkValue c ver]
  | v :: vs' =>
      if v_version v <? ver then mkValue c ver :: v :: vs'
      else if v_version v =? ver then mkValue c ver :: vs'
      else v :: set_version ver c vs'
  end.
Definition del_version (ver : Z) (vs : list Value) : list Value :=
  List.filter (λ v, negb (v_version v =? ver)) vs.

Abbreviation newest_first := (StronglySorted (λ a b, v_version b < v_version a)).

Lemma set_version_elem ver c vs v :
  newest_first vs →
  v ∈ set_version ver c vs ↔ v = mkValue c ver ∨ (v ∈ vs ∧ v_version v ≠ ver).
Proof.
  induction 1 as [|w vs Hs IH Hf]; cbn [set_version].
  { rewrite list_elem_of_singleton. split; [auto|]. by intros [?|[?%not_elem_of_nil _]]. }
  rewrite Forall_forall in Hf. destruct (Z.ltb_spec (v_version w) ver).
  { rewrite !elem_of_cons. split; [|tauto]. intros [?|[->|Hv]]; [auto|right; split; [auto|lia]|].
    specialize (Hf v Hv). cbn in Hf. right. split; [auto|lia]. }
  destruct (Z.eqb_spec (v_version w) ver).
  { rewrite !elem_of_cons. split.
    - intros [?|Hv]; [auto|]. specialize (Hf v Hv). cbn in Hf. right. split; [auto|lia].
    - intros [?|[[->|?] ?]]; auto. lia. }
  rewrite !elem_of_cons, IH. split.
  - intros [->|[?|[? ?]]]; auto.
  - intros [?|[[?|?] ?]]; auto.
Qed.

Lemma set_version_sorted ver c vs : newest_first vs → newest_first (set_version ver c vs).
Proof.
  induction 1 as [|w vs Hs IH Hf]; cbn [set_version]; [repeat constructor|].
  rewrite Forall_forall in Hf.
  destruct (Z.ltb_spec (v_version w) ver).
  { constructor; [by constructor; [|apply Forall_forall]|].
    constructor; [done|]. apply Forall_forall. intros v Hv. specialize (Hf v Hv). cbn in *. lia. }
  destruct (Z.eqb_spec (v_version w) ver).
  { constructor; [done|]. apply Forall_forall. intros v Hv. specialize (Hf v Hv). cbn in *. lia. }
  constructor; [done|]. apply Forall_forall. intros v [->|[Hv _]]%set_version_elem; [cbn; lia|auto|done].
Qed.

Lemma del_version_elem ver vs v : v ∈ del_version ver vs ↔ v ∈ vs ∧ v_version v ≠ ver.
Proof.
  unfold del_version. rewrite list_elem_of_In, filter_In, <- list_elem_of_In.
  destruct (Z.eqb_spec (v_version v) ver); naive_solver.
Qed.

Lemma del_version_sorted ver vs : newest_first vs → newest_first (del_version ver vs).
Proof.
  induction 1 as [|w vs Hs IH Hf]; cbn; [constructor|].
  destruct (Z.eqb_spec (v_version w) ver); cbn; [done|].
  constructor; [done|]. rewrite Forall_forall in Hf. apply Forall_forall.
  intros v [? _]%del_version_elem. auto.
Qed.

Lemma del_version_absent ver vs : Forall (λ v, v_version v ≠ ver) vs → del_version ver vs = vs.
Proof.
  induction 1 as [|v vs Hv _ IH]; cbn; [done|].
  rewrite (proj2 (Z.eqb_neq _ _)) by done. cbn. by f_equal.
Qed.

(** The version a reader at [start] must see: the newest one not above it. *)
Definition visible (start : Z) (vs : list Value) : option Value :=
  List.find (λ v, v_version v <=? start) vs.

Lemma visible_max start vs v :
  newest_first vs → visible start vs = Some v →
  v ∈ vs ∧ v_version v ≤ start ∧
  ∀ w, w ∈ vs → v_version w ≤ start → v_version w ≤ v_version v.
Proof.
  intros Hs (l1 & l2 & -> & Hv & Hl1)%find_some_iff_first. apply Z.leb_le in Hv.
  split; [by apply elem_of_app; right; left|]. split; [done|].
  intros w [Hw|[->|Hw]%elem_of_cons]%elem_of_app Hle; [|lia|].
  - rewrite Forall_forall in Hl1. specialize (Hl1 w Hw). cbn in Hl1. to_prop. lia.
  - assert (newest_first (v :: l2)) as Hs2.
    { clear -Hs. induction l1; [done|]. inversion Hs; auto. }
    inversion Hs2 as [|?? _ Hf]; subst. rewrite Forall_forall in Hf.
    specialize (Hf w Hw). cbn in Hf. lia.
Qed.

Lemma visible_none start vs :
  visible start vs = None ↔ ∀ w, w ∈ vs → start < v_version w.
Proof.
  unfold visible. induction vs as [|v vs IH]; cbn.
  { split; [|done]. by intros _ w ?%not_elem_of_nil. }
  destruct (Z.leb_spec (v_version v) start).
  - split; [done|]. intros Hall. specialize (Hall v ltac:(left)). lia.
  - rewrite IH. setoid_rewrite elem_of_cons. naive_solver.
Qed.

(** Versions above the reader do not change what it sees. *)
Lemma visible_set_above start ver c vs :
  start < ver → visible start (set_version ver c vs) = visible start vs.
Proof.
  intros Hlt. unfold visible. induction vs as [|v vs IH]; cbn [set_version List.find].
  { by rewrite (proj2 (Z.leb_gt _ _)) by (cbn; lia). }
  destruct (Z.ltb_spec (v_version v) ver); cbn [List.find v_version].
  { by rewrite (proj2 (Z.leb_gt _ _)) by lia. }
  destruct (Z.eqb_spec (v_version v) ver); cbn [List.find v_version].
  { rewrite !(proj2 (Z.leb_gt _ _)) by lia. done. }
  by rewrite IH.
Qed.

Lemma visible_del_above start ver vs :
  start < ver → visible start (del_version ver vs) = visible start vs.
Proof.
  intros Hlt. unfold visible. induction vs as [|v vs IH]; [done|].
  cbn [del_version List.filter List.find]. fold (del_version ver vs).
  destruct (Z.eqb_spec (v_version v) ver); cbn [negb List.find]; rewrite IH; [|done].
  by rewrite (proj2 (Z.leb_gt _ _)) by lia.
Qed.

(** ** Batch operations on versions *)
Inductive vop :=
  | VSet (key : bytes) (ver : Z) (c : option bytes)
  | VDel (key : bytes) (ver : Z).
Definition vop_batch (t : Z) (o : vop) : batch_op :=
  match o with
  | VSet key ver c => BatchPut (mvcc_key_buf t key ver) (stored c)
  | VDel key ver => BatchDelete (mvcc_key_buf t key ver)
  end.
Definition vop_key (o : vop) : bytes := match o with VSet k _ _ | VDel k _ => k end.
Definition vop_ver (o : vop) : Z := match o with VSet _ v _ | VDel _ v => v end.
Definition vop_ok (o : vop) : Prop := vop_key o ≠ [] ∧ u64_ok (vop_ver o).
(** Effect on the version list of [key]. *)
Definition vop_apply (key : bytes) (vs : list Value) (o : vop) : list Value :=
  if bool_decide (vop_key o = key) then
    match o with VSet _ ver c => set_version ver c vs | VDel _ ver => del_version ver vs end
  else vs.

Section Writes.
  Context {DB : Type} `{RocksDbOk DB}.

Lemma mvcc_key_buf_table_inj t1 t2 k1 k2 v1 v2 :
  u64_ok t1 → u64_ok t2 → mvcc_key_buf t1 k1 v1 = mvcc_key_buf t2 k2 v2 → t1 = t2.
Proof.
  intros ?? E. apply (f_equal (take 8)) in E. rewrite !mvcc_key_buf_prefix in E.
  by apply le8_inj.
Qed.

Lemma vop_get (db : DB) t o key ver :
  vop_ok o → key ≠ [] → u64_ok ver →
  db_get (apply_op db (vop_batch t o)) (mvcc_key_buf t key ver) =
    if decide (vop_key o = key ∧ vop_ver o = ver) then
      match o with VSet _ _ c => Some (stored c) | VDel _ _ => None end
    else db_get db (mvcc_key_buf t key ver).
Proof.
  intros [Hk Hv] Hne Hver.
  destruct o as [k v c|k v]; cbn in *; rewrite ?db_get_put, ?db_get_delete.
  all: destruct (decide (mvcc_key_buf t k v = mvcc_key_buf t key ver)) as [E|E];
    [apply mvcc_key_buf_inj in E as [-> ->]; [|done..]; by rewrite decide_True
    |rewrite decide_False; [done|by intros [-> ->]]].
Qed.

Lemma stored_inj c1 c2 : stored c1 = stored c2 → c1 = c2.
Proof. intros E%(f_equal content_of). by rewrite !content_of_stored in E. Qed.

Lemma vop_versions (db : DB) t o key vs :
  vop_ok o → key ≠ [] → is_versions db t key vs →
  is_versions (apply_op db (vop_batch t o)) t key (vop_apply key vs o).
Proof.
  intros Ho Hne [Hs Hin]. unfold vop_apply, is_versions, has_version.
  case_bool_decide as Ek.
  2: { split; [done|]. intros v. rewrite Hin. split; intros [? Hg]; (split; [done|]).
       - rewrite vop_get by done. rewrite decide_False; [done|naive_solver].
       - rewrite vop_get in Hg by done. rewrite decide_False in Hg; [done|naive_solver]. }
  split.
  { destruct o; [by apply set_version_sorted|by apply del_version_sorted]. }
  intros [c' v']. cbn [v_version v_content].
  assert (∀ X : Prop, (u64_ok v' → (db_get (apply_op db (vop_batch t o)) (mvcc_key_buf t key v')
            = Some (stored c') ↔ X)) →
          (u64_ok v' ∧ db_get (apply_op db (vop_batch t o)) (mvcc_key_buf t key v')
            = Some (stored c') ↔ u64_ok v' ∧ X)) as Hand by naive_solver.
  rewrite Hand by (intros; rewrite vop_get by done; reflexivity). clear Hand.
  destruct o as [k v c|k v]; cbn [vop_key vop_ver] in *.
  - rewrite (set_version_elem v c vs _ Hs), Hin. unfold has_version. cbn [v_version v_content].
    case_decide as Ed.
    2: { assert (v' ≠ v) as Hne' by (intros ->; by destruct Ed).
         split; [intros [[= _ ?]|[? _]]; done|]. auto. }
    destruct Ed as [_ <-]. destruct Ho as [_ Hv]. cbn [vop_ver] in Hv.
    split; [intros [[= ->]|[_ ?]]; [by split|done]|].
    intros [_ [= E%stored_inj]]. left. by subst.
  - rewrite del_version_elem, Hin. unfold has_version. cbn [v_version v_content].
    case_decide as Ed; [destruct Ed as [_ <-]; by split; intros [? ?]|].
    assert (v' ≠ v) as Hne' by (intros ->; by destruct Ed). tauto.
Qed.

Lemma vops_versions (db : DB) t ops key vs :
  Forall vop_ok ops → key ≠ [] → is_versions db t key vs →
  is_versions (write_batch db (map (vop_batch t) ops)) t key (fold_left (vop_apply key) ops vs).
Proof.
  intros Hok Hne. revert db vs.
  induction Hok as [|o ops Ho _ IH]; intros db vs Hvs; [done|].
  cbn [map fold_left]. rewrite write_batch_cons. apply IH. by apply vop_versions.
Qed.

Lemma vops_other_table (db : DB) t t' ops key vs :
  u64_ok t → u64_ok t' → t ≠ t' → is_versions db t' key vs →
  is_versions (write_batch db (map (vop_batch t) ops)) t' key vs.
Proof.
  intros Ht Ht' Hne [Hs Hin]. split; [done|]. intros v. rewrite Hin. unfold has_version.
  rewrite write_batch_other; [done|]. rewrite map_map.
  intros (o & E & _)%list_elem_of_fmap. apply Hne.
  destruct o; cbn in E; symmetry in E; by apply mvcc_key_buf_table_inj in E.
Qed.

Lemma vop_wf (db : DB) t o :
  user_table t → vop_ok o → db_wf db → db_wf (apply_op db (vop_batch t o)).
Proof.
  intros [Ht Hl] [Hk Hv] Hwf k' v'.
  destruct o as [k v c|k v]; cbn in *; rewrite ?db_get_put, ?db_get_delete; case_decide; try done.
  all: try by apply Hwf.
  intros [= <-]. subst. right. exists t, (mkRow k v (stored c)).
  split; [done|]. split; [done|]. split; [|done]. split; [done|]. split; [done|]. apply stored_ok.
Qed.

Lemma vops_wf (db : DB) t ops :
  user_table t → Forall vop_ok ops → db_wf db → db_wf (write_batch db (map (vop_batch t) ops)).
Proof.
  intros Ht Hok. revert db. induction Hok as [|o ops Ho _ IH]; intros db Hwf; [done|].
  cbn [map]. rewrite write_batch_cons. apply IH. by apply vop_wf.
Qed.

End Writes.

(** ** The engine's operations as version operations *)

(** The engine serves shard [sid], whose keys live in table [t]. *)
Definition serves {DB} `{RocksDb DB} (ge : GroupEngine DB) (sid t : Z) : Prop :=
  db_wf (ge_db ge) ∧ user_table t ∧
  ∃ desc, gc_shard_descs (ge_core ge) !! sid = Some desc ∧ sd_table_id desc = t.
(** No operation of a batch names a metadata key. *)
Definition local_key (k : bytes) : Prop := take 8 k = u64_to_le_bytes LOCAL_TABLE_ID.
Definition batch_local_free (wb : WriteBatch) : Prop := Forall (λ o, ¬ local_key (op_key o)) wb.

Section EngineWrites.
  Context {DB : Type} `{RocksDbOk DB}.
  Context `{CodecOk EntryId} `{CodecOk GroupDesc} `{CodecOk MoveShardState}.
  Implicit Types ge : GroupEngine DB.

Lemma ge_put_ok ge wb sid t key value ver :
  serves ge sid t → key ≠ [] →
  ge_put ge wb sid key value ver = Ok (wb ++ [vop_batch t (VSet key ver (Some value))]).
Proof.
  intros (_ & _ & desc & Hd & <-) Hne. unfold ge_put, ge_shard_desc. rewrite Hd. by destruct key.
Qed.
Lemma ge_tombstone_ok ge wb sid t key ver :
  serves ge sid t → key ≠ [] →
  ge_tombstone ge wb sid key ver = Ok (wb ++ [vop_batch t (VSet key ver None)]).
Proof.
  intros (_ & _ & desc & Hd & <-) Hne. unfold ge_tombstone, ge_shard_desc. rewrite Hd. by destruct key.
Qed.
Lemma ge_delete_ok ge wb sid t key ver :
  serves ge sid t → key ≠ [] →
  ge_delete ge wb sid key ver = Ok (wb ++ [vop_batch t (VDel key ver)]).
Proof.
  intros (_ & _ & desc & Hd & <-) Hne. unfold ge_delete, ge_shard_desc. rewrite Hd. by destruct key.
Qed.

(** Reads return the version list of the key. *)
Lemma serves_versions ge sid t key :
  serves ge sid t → key ≠ [] → ∃ vs, is_versions (ge_db ge) t key vs.
Proof.
  intros (Hwf & Ht & desc & Hd & <-) Hne.
  destruct (get_all_versions_versions ge sid desc key Hwf Hd Ht Hne) as (vs & _ & _ & Hv). eauto.
Qed.
Lemma serves_reads ge sid t key vs :
  serves ge sid t → key ≠ [] → is_versions (ge_db ge) t key vs →
  ge_get_all_versions ge sid key = Ok (mkValueSet key vs) ∧ ge_get ge sid key = Ok (head vs).
Proof.
  intros (Hwf & Ht & desc & Hd & <-) Hne Hvs.
  destruct (get_all_versions_versions ge sid desc key Hwf Hd Ht Hne) as (vs' & Ha & Hg & Hv).
  by rewrite <- (is_versions_unique _ _ _ _ _ Hv Hvs).
Qed.
Lemma serves_get ge sid t key vs :
  serves ge sid t → key ≠ [] → is_versions (ge_db ge) t key vs → ge_get ge sid key = Ok (head vs).
Proof. intros. by eapply serves_reads. Qed.
Lemma serves_get_all ge sid t key vs :
  serves ge sid t → key ≠ [] → is_versions (ge_db ge) t key vs →
  ge_get_all_versions ge sid key = Ok (mkValueSet key vs).
Proof. intros. by eapply serves_reads. Qed.

Lemma vop_batch_local_free t ops : user_table t → batch_local_free (map (vop_batch t) ops).
Proof.
  intros [Ht Hne]. apply Forall_forall. intros o (p & -> & _)%list_elem_of_fmap E.
  apply Hne. unfold local_key in E. destruct p; cbn in E; rewrite mvcc_key_buf_prefix in E;
    apply le8_inj in E; try done; unfold u64_ok, LOCAL_TABLE_ID, u64_MAX; lia.
Qed.

(** *** Metadata *)
Lemma write_states_local states : Forall (λ o, local_key (op_key o)) (write_states states).
Proof.
  unfold write_states, local_key.
  destruct (ws_apply_state states), (ws_descriptor states), (ws_move_shard_state states) as [m|];
    try destruct (is_end_step m); cbn; repeat constructor.
Qed.

Lemma states_other_keys (db : DB) states k :
  ¬ local_key k → db_get (write_batch db (write_states states)) k = db_get db k.
Proof.
  intros Hk. apply write_batch_other. intros (o & -> & Ho)%list_elem_of_fmap.
  pose proof (write_states_local states) as Hl. rewrite Forall_forall in Hl. by apply Hk, Hl.
Qed.

Lemma local_not_row t key ver : user_table t → ¬ local_key (mvcc_key_buf t key ver).
Proof.
  intros [Ht Hne] E. unfold local_key in E. rewrite mvcc_key_buf_prefix in E. apply Hne.
  apply le8_inj in E; [done..|]. unfold u64_ok, LOCAL_TABLE_ID, u64_MAX. lia.
Qed.

Lemma states_versions (db : DB) states t key vs :
  user_table t → is_versions db t key vs → is_versions (write_batch db (write_states states)) t key vs.
Proof.
  intros Ht [Hs Hin]. split; [done|]. intros v. rewrite Hin. unfold has_version.
  by rewrite states_other_keys by (by apply local_not_row).
Qed.

Lemma local_keys_length (ws : WriteStates) o : o ∈ write_states ws → (8 ≤ length (op_key o))%nat.
Proof.
  unfold write_states.
  destruct (ws_apply_state ws), (ws_descriptor ws), (ws_move_shard_state ws) as [m|];
    try destruct (is_end_step m); cbn; rewrite ?elem_of_cons, ?elem_of_nil;
    intros; destruct_or?; subst; cbn; lia || done.
Qed.

Lemma batch_wf_local (db : DB) wb :
  Forall (λ o, local_key (op_key o) ∧ (8 ≤ length (op_key o))%nat) wb → db_wf db →
  db_wf (write_batch db wb).
Proof.
  intros Hok. revert db. induction Hok as [|o ops [Ho Hl] _ IH]; intros db Hwf; [done|].
  rewrite write_batch_cons. apply IH. intros k v.
  destruct o as [k' v'|k']; cbn in *; rewrite ?db_get_put, ?db_get_delete; case_decide; try done.
  all: try by apply Hwf.
  intros [= <-]. subst. left. by split.
Qed.

Lemma states_wf (db : DB) states : db_wf db → db_wf (write_batch db (write_states states)).
Proof.
  apply batch_wf_local. apply Forall_forall. intros o Ho.
  pose proof (write_states_local states) as Hl. rewrite Forall_forall in Hl.
  split; [auto|by eapply local_keys_length].
Qed.

(** *** Commit *)
Lemma group_commit_db ge wbs states ge' :
  ge_group_commit ge wbs states = Ok ge' →
  ge_db ge' = write_batch (write_batch (ge_db ge) (concat wbs)) (write_states states).
Proof.
  unfold ge_group_commit. rewrite write_batch_app. intros Hc.
  destruct (ws_descriptor states), (ws_move_shard_state states); [| | |by injection Hc as <-].
  all: apply result_bind_ok in Hc as (core & _ & [= <-]); done.
Qed.

Lemma commit_default ge wb :
  ge_commit ge wb WriteStates_default = Ok (mkGroupEngine (write_batch (ge_db ge) wb) (ge_core ge)).
Proof. unfold ge_commit, ge_group_commit. cbn. by rewrite !app_nil_r. Qed.

(** *** Recovery: what [open] reads back *)
Ltac states_get :=
  let m := fresh in
  match goal with ws : WriteStates |- _ => unfold write_states; destruct ws as [[?|] [?|] [m|]] end;
  cbn [ws_apply_state ws_descriptor ws_move_shard_state]; try destruct (is_end_step m);
  cbn [app negb write_batch fold_left apply_op];
  by repeat (rewrite ?db_get_put, ?db_get_delete;
             first [rewrite decide_True by done | rewrite decide_False by (by vm_compute)]).

Definition meta_synced (ge : GroupEngine DB) : Prop := ge_open (ge_db ge) = Ok ge.

Lemma local_free_get (db : DB) wb k :
  batch_local_free wb → local_key k → db_get (write_batch db wb) k = db_get db k.
Proof.
  intros Hf Hk. apply write_batch_other. intros (o & -> & Ho)%list_elem_of_fmap.
  unfold batch_local_free in Hf. rewrite Forall_forall in Hf. by eapply Hf.
Qed.

Lemma states_descriptor (db : DB) states :
  db_get (write_batch db (write_states states)) descriptor_key =
    match ws_descriptor states with Some d => Some (encode_to_vec d) | None => db_get db descriptor_key end.
Proof. states_get. Qed.

Lemma states_move_shard (db : DB) states :
  db_get (write_batch db (write_states states)) move_shard_state_key =
    match ws_move_shard_state states with
    | Some m => if is_end_step m then None else Some (encode_to_vec m)
    | None => db_get db move_shard_state_key
    end.
Proof. states_get. Qed.

Lemma states_apply_state (db : DB) states :
  db_get (write_batch db (write_states states)) apply_state_key =
    match ws_apply_state states with Some a => Some (encode_to_vec a) | None => db_get db apply_state_key end.
Proof. states_get. Qed.

Lemma meta_synced_inv ge :
  meta_synced ge ↔
  internal_descriptor (ge_db ge) = Ok (gc_group_desc (ge_core ge)) ∧
  internal_move_shard_state (ge_db ge) = Ok (gc_move_shard_state (ge_core ge)) ∧
  compute_shard_descs (gc_group_desc (ge_core ge)) (gc_move_shard_state (ge_core ge))
    = Ok (gc_shard_descs (ge_core ge)).
Proof.
  unfold meta_synced, ge_open. split.
  - intros (g & Hg & (m & Hm & (sds & Hs & E)%result_bind_ok)%result_bind_ok)%result_bind_ok.
    destruct ge as [db [g' s' m']]. cbn in *. by simplify_eq.
  - intros (-> & -> & Hs). cbn [result_bind]. rewrite Hs. by destruct ge as [db []].
Qed.

Lemma group_commit_synced ge wbs states ge' :
  meta_synced ge → batch_local_free (concat wbs) →
  ge_group_commit ge wbs states = Ok ge' → meta_synced ge'.
Proof.
  intros (Hd & Hm & Hs)%meta_synced_inv Hf Hc.
  pose proof (group_commit_db ge wbs states ge' Hc) as Hdb.
  assert (internal_descriptor (ge_db ge') =
            Ok (default (gc_group_desc (ge_core ge)) (ws_descriptor states))) as Hd'.
  { unfold internal_descriptor in *. rewrite Hdb, states_descriptor, local_free_get by done.
    destruct (ws_descriptor states); [cbn; by rewrite decode_encode_msg|done]. }
  assert (internal_move_shard_state (ge_db ge') =
            Ok (match ws_move_shard_state states with
                | Some m => if is_end_step m then None else Some m
                | None => gc_move_shard_state (ge_core ge) end)) as Hm'.
  { unfold internal_move_shard_state in *. rewrite Hdb, states_move_shard, local_free_get by done.
    destruct (ws_move_shard_state states) as [m|]; [|done].
    destruct (is_end_step m); [done|]. cbn. by rewrite decode_encode_msg. }
  apply meta_synced_inv. rewrite Hd', Hm'. clear Hd' Hm' Hdb.
  unfold ge_group_commit in Hc.
  destruct (ws_descriptor states) as [d|], (ws_move_shard_state states) as [m|];
    [| | |by injection Hc as <-].
  all: apply result_bind_ok in Hc as (core & (sds & Hs' & [= <-])%result_bind_ok & [= <-]);
    cbn in *; by repeat split.
Qed.

Lemma ge_create_synced group_id ge : ge_create group_id = Ok ge → meta_synced ge ∧ db_wf (ge_db ge).
Proof.
  intros Hc. unfold ge_create, ge_commit in Hc.
  pose proof (group_commit_db _ _ _ _ Hc) as Hdb. cbn [ge_db concat app] in Hdb.
  split; [|rewrite Hdb; apply states_wf; intros k v; cbn; by rewrite db_get_empty].
  cbn in Hc. injection Hc as Hc. apply meta_synced_inv. rewrite Hdb. subst ge. cbn [ge_core].
  unfold internal_descriptor, internal_move_shard_state.
  rewrite states_descriptor, states_move_shard. cbn. rewrite decode_encode_msg.
  by rewrite db_get_empty.
Qed.

End EngineWrites.
