(* ===== verification/Samples.v ===== *)
(** * Concrete instances

    Codecs for the persisted messages and a small group engine over the
    finite-map store, for evaluating the definitions on concrete inputs. *)

From S2P Require Import Prelude Bytes Api Schema RocksDb Keys Engine EngineFacts EngineWrites.

#[global] Instance EntryId_eq_dec : EqDecision EntryId.
Proof. solve_decision. Defined.
#[global] Program Instance EntryId_countable : Countable EntryId :=
  inj_countable' (λ e, (ei_index e, ei_term e)) (λ p, mkEntryId p.1 p.2) _.
Next Obligation. by intros []. Qed.

#[global] Program Instance RangePartition_countable : Countable RangePartition :=
  inj_countable' (λ r, (rp_start r, rp_end r)) (λ p, mkRange p.1 p.2) _.
Next Obligation. by intros []. Qed.

#[global] Program Instance ShardDesc_countable : Countable ShardDesc :=
  inj_countable' (λ s, (sd_id s, sd_table_id s, sd_range s)) (λ p, mkShardDesc p.1.1 p.1.2 p.2) _.
Next Obligation. by intros []. Qed.

#[global] Program Instance ReplicaDesc_countable : Countable ReplicaDesc :=
  inj_countable' (λ s, (rd_id s, rd_node_id s, rd_role s)) (λ p, mkReplicaDesc p.1.1 p.1.2 p.2) _.
Next Obligation. by intros []. Qed.

#[global] Instance GroupDesc_eq_dec : EqDecision GroupDesc.
Proof. solve_decision. Defined.
#[global] Program Instance GroupDesc_countable : Countable GroupDesc :=
  inj_countable' (λ g, (gd_id g, gd_epoch g, gd_shards g, gd_replicas g))
    (λ p, mkGroupDesc p.1.1.1 p.1.1.2 p.1.2 p.2) _.
Next Obligation. by intros []. Qed.

#[global] Program Instance MoveShardDesc_countable : Countable MoveShardDesc :=
  inj_countable'
    (λ g, (md_shard_desc g, md_src_group_id g, md_src_group_epoch g, md_dest_group_id g, md_dest_group_epoch g))
    (λ p, mkMoveShardDesc p.1.1.1.1 p.1.1.1.2 p.1.1.2 p.1.2 p.2) _.
Next Obligation. by intros []. Qed.

#[global] Instance MoveShardState_eq_dec : EqDecision MoveShardState.
Proof. solve_decision. Defined.
#[global] Program Instance MoveShardState_countable : Countable MoveShardState :=
  inj_countable' (λ g, (mss_move_shard g, mss_last_moved_key g, mss_step g))
    (λ p, mkMoveShardState p.1.1 p.1.2 p.2) _.
Next Obligation. by intros []. Qed.

#[global] Instance TxnIntent_eq_dec : EqDecision TxnIntent.
Proof. solve_decision. Defined.
#[global] Program Instance TxnIntent_countable : Countable TxnIntent :=
  inj_countable' (λ g, (ti_start_version g, ti_is_delete g, ti_value g))
    (λ p, mkTxnIntent p.1.1 p.1.2 p.2) _.
Next Obligation. by intros []. Qed.

#[global] Instance batch_op_eq_dec : EqDecision batch_op.
Proof. solve_decision. Defined.
#[global] Program Instance batch_op_countable : Countable batch_op :=
  inj_countable' (λ o, match o with BatchPut k v => inl (k, v) | BatchDelete k => inr k end)
    (λ p, match p with inl (k, v) => BatchPut k v | inr k => BatchDelete k end) _.
Next Obligation. by intros []. Qed.

#[global] Instance EntryId_codec : Codec EntryId := countable_codec _.
#[global] Instance EntryId_codec_ok : CodecOk EntryId := countable_codec_ok _.
#[global] Instance GroupDesc_codec : Codec GroupDesc := countable_codec _.
#[global] Instance GroupDesc_codec_ok : CodecOk GroupDesc := countable_codec_ok _.
#[global] Instance MoveShardState_codec : Codec MoveShardState := countable_codec _.
#[global] Instance MoveShardState_codec_ok : CodecOk MoveShardState := countable_codec_ok _.
#[global] Instance TxnIntent_codec : Codec TxnIntent := countable_codec _.
#[global] Instance TxnIntent_codec_ok : CodecOk TxnIntent := countable_codec_ok _.
#[global] Instance WriteBatch_codec : Codec WriteBatch := countable_codec _.
#[global] Instance WriteBatch_codec_ok : CodecOk WriteBatch := countable_codec_ok _.

(** ** A sample engine: group 7 with shard 1 of table 100 *)
Definition sample_table : Z := 100.
Definition sample_shard : ShardDesc := ShardDesc_whole 1 sample_table.
Definition sample_group : GroupDesc :=
  mkGroupDesc 7 19 [sample_shard] [mkReplicaDesc 71 1 0; mkReplicaDesc 72 2 0; mkReplicaDesc 73 3 0].
Definition key_a : bytes := str_bytes "a".
Definition key_b : bytes := str_bytes "bb".
Definition val_x : bytes := str_bytes "x".
Definition val_y : bytes := str_bytes "y".

Definition sample_ops : list vop :=
  [VSet key_a 5 (Some val_x); VSet key_a 9 (Some val_y); VSet key_b 7 None].
Definition sample_engine (ops : list vop) : GroupEngine (gmap bytes bytes) :=
  mkGroupEngine
    (write_batch (write_batch db_empty (map (vop_batch sample_table) ops))
       (write_states (mkWriteStates (Some (mkEntryId 0 0)) (Some sample_group) None)))
    (mkGroupEngineCore sample_group (internal_shard_descs sample_group) None).

Definition vop_okb (o : vop) : bool :=
  negb (bool_decide (vop_key o = [])) && (0 <=? vop_ver o) && (vop_ver o <=? u64_MAX).

Lemma vop_okb_ok ops : forallb vop_okb ops = true → Forall vop_ok ops.
Proof.
  intros Hb. apply Forall_forall. intros o Ho%list_elem_of_In.
  rewrite forallb_forall in Hb. specialize (Hb o Ho). unfold vop_okb in Hb.
  rewrite !andb_true_iff, negb_true_iff, bool_decide_eq_false in Hb. to_prop.
  destruct Hb as [[? ?] ?]. to_prop. by split; [|unfold u64_ok; lia].
Qed.

Lemma sample_serves ops : forallb vop_okb ops = true → serves (sample_engine ops) 1 sample_table.
Proof.
  intros Hok. split; [|split].
  - apply states_wf, vops_wf; [by split|by apply vop_okb_ok|]. intros k v. by rewrite db_get_empty.
  - by split.
  - exists sample_shard. split; [done|]. done.
Qed.

Lemma sample_versions ops key :
  forallb vop_okb ops = true → key ≠ [] →
  is_versions (ge_db (sample_engine ops)) sample_table key (fold_left (vop_apply key) ops []).
Proof.
  intros Hok Hne. apply states_versions; [by split|].
  apply vops_versions; [by apply vop_okb_ok|done|].
  split; [constructor|]. intros v. unfold has_version.
  split; [by intros ?%not_elem_of_nil|]. intros [_ E]. by rewrite db_get_empty in E.
Qed.
