(* ===== verification/Errors.v ===== *)
(** * Errors and their way over the wire

    [src/src/client/src/error.rs], the conversions of
    [src/src/server/src/error.rs] and the wire type of
    [src/src/api/src/error.rs].  A [tonic::Status] is what its accessors
    return: the code, the message, the details and the chain of causes.  A
    client error that a [Status] or a boxed error becomes carries no text: only
    displays read it. *)

From stdpp Require Import pretty.
From S2P Require Import Prelude Bytes F64 Api RocksDb Schema Keys Engine Samples.
#[local] Open Scope Z_scope.

(** ** [tonic::Status] *)
Inductive Code :=
  | CodeOk | CodeCancelled | CodeUnknown | CodeInvalidArgument | CodeDeadlineExceeded | CodeNotFound
  | CodeAlreadyExists | CodePermissionDenied | CodeResourceExhausted | CodeFailedPrecondition
  | CodeAborted | CodeOutOfRange | CodeUnimplemented | CodeInternal | CodeUnavailable | CodeDataLoss
  | CodeUnauthenticated.
Definition all_codes : list Code :=
  [CodeOk; CodeCancelled; CodeUnknown; CodeInvalidArgument; CodeDeadlineExceeded; CodeNotFound;
   CodeAlreadyExists; CodePermissionDenied; CodeResourceExhausted; CodeFailedPrecondition; CodeAborted;
   CodeOutOfRange; CodeUnimplemented; CodeInternal; CodeUnavailable; CodeDataLoss; CodeUnauthenticated].
#[global] Instance Code_eq_dec : EqDecision Code.
Proof. solve_decision. Defined.
(** [Code::from_i32] / [Into<i32>]: the position in the gRPC numbering. *)
Definition Code_from_i32 (z : Z) : Code :=
  if decide (0 ≤ z) then default CodeUnknown (all_codes !! Z.to_nat z) else CodeUnknown.
Definition Code_i32 (c : Code) : Z :=
  match c with
  | CodeOk => 0 | CodeCancelled => 1 | CodeUnknown => 2 | CodeInvalidArgument => 3
  | CodeDeadlineExceeded => 4 | CodeNotFound => 5 | CodeAlreadyExists => 6 | CodePermissionDenied => 7
  | CodeResourceExhausted => 8 | CodeFailedPrecondition => 9 | CodeAborted => 10 | CodeOutOfRange => 11
  | CodeUnimplemented => 12 | CodeInternal => 13 | CodeUnavailable => 14 | CodeDataLoss => 15
  | CodeUnauthenticated => 16
  end.

Inductive ErrorKind := ConnectionRefused | ConnectionReset | BrokenPipe | OtherKind.
(** A link of [Error::source]: an [io::Error], or another error's text. *)
Inductive Cause := CauseIo (kind : ErrorKind) | CauseText (text : string).
Record Status := mkStatus { st_code : Code; st_message : string; st_details : bytes; st_source : list Cause }.
Definition Status_new (c : Code) (msg : string) : Status := mkStatus c msg [] [].
Definition Status_with_details (c : Code) (msg : string) (details : bytes) : Status := mkStatus c msg details [].

(** [str::contains] and [str::ends_with]. *)
Fixpoint contains (s pat : bytes) : bool :=
  starts_with s pat || match s with [] => false | _ :: s' => contains s' pat end.
Definition str_contains (s pat : string) : bool := contains (str_bytes s) (str_bytes pat).
Definition str_ends_with (s pat : string) : bool := ends_with (str_bytes s) (str_bytes pat).

(** ** The wire: [error.proto] and [api/src/error.rs] *)
Inductive DetailValue :=
  | VStatusCode (code : Z)
  | VNotLeader (group_id term : Z) (leader : option ReplicaDesc)
  | VNotMatch (descriptor : option GroupDesc)
  | VServerIsBusy
  | VGroupNotFound (group_id : Z)
  | VNotRoot (root : option RootDesc) (term : Z) (leader : option ReplicaDesc)
  | VCasFailed (index cond_index : Z) (prev_value : option Value)
  | VTxnConflict.
Record ErrorDetail := mkErrorDetail { ed_message : string; ed_detail : option (option DetailValue) }.
Record V1Error := mkV1Error { ve_details : list ErrorDetail }.

Definition with_detail_value (v : DetailValue) : V1Error := mkV1Error [mkErrorDetail EmptyString (Some (Some v))].
Definition V1Error_status (code : Z) (msg : string) : V1Error :=
  mkV1Error [mkErrorDetail msg (Some (Some (VStatusCode code)))].

(** ** [client/src/error.rs] *)
Inductive ClientError :=
  | CInvalidArgument
  | CDeadlineExceeded
  | CAlreadyExists
  | CNotFound
  | CResourceExhausted
  | CCasFailed (index cond_index : Z) (prev : option Value)
  | CTxnConflict
  | CEpochNotMatch (desc : GroupDesc)
  | CGroupNotFound (group_id : Z)
  | CNotRootLeader (root : RootDesc) (term : Z) (leader : option ReplicaDesc)
  | CNotLeader (group_id term : Z) (leader : option ReplicaDesc)
  | CGroupNotAccessable (group_id : Z)
  | CTransport
  | CConnect
  | CRpc
  | CInternal.
Abbreviation CResult := (result ClientError).

Definition retryable_io_err (k : ErrorKind) : bool :=
  match k with ConnectionRefused => true | _ => false end.
Fixpoint retryable_cause (causes : list Cause) : bool :=
  match causes with
  | CauseIo k :: _ => retryable_io_err k
  | CauseText t :: causes' =>
      if str_ends_with t "operation was canceled: connection closed" then true else retryable_cause causes'
  | [] => false
  end.
Definition retryable_rpc_err (s : Status) : bool :=
  if bool_decide (st_code s = CodeUnavailable)
     && str_contains (st_message s) "error trying to connect: deadline has elapsed"
  then true else retryable_cause (st_source s).
Definition transport_io_err (k : ErrorKind) : bool :=
  match k with ConnectionReset | BrokenPipe => true | _ => false end.
Fixpoint transport_err (causes : list Cause) : bool :=
  match causes with
  | CauseIo k :: _ => transport_io_err k
  | CauseText _ :: causes' => transport_err causes'
  | [] => false
  end.
Definition from_source (s : Status) : ClientError :=
  if retryable_rpc_err s then CConnect else if transport_err (st_source s) then CTransport else CRpc.

(** The arms of [From<tonic::Status>] that do not look at the details. *)
Definition from_code (s : Status) : option (CResult ClientError) :=
  match st_code s with
  | CodeOk => Some Panic
  | CodeInvalidArgument => Some (Ok CInvalidArgument)
  | CodeCancelled => Some (Ok (if str_contains (st_message s) "Timeout expired" then CDeadlineExceeded else CRpc))
  | CodeAlreadyExists => Some (Ok CAlreadyExists)
  | CodeResourceExhausted => Some (Ok CResourceExhausted)
  | CodeNotFound => Some (Ok CNotFound)
  | CodeInternal => Some (Ok CInternal)
  | CodeUnavailable => Some (Ok (from_source s))
  | CodeUnknown => None
  | _ => Some (Ok CRpc)
  end.

(** [From<v1::Error>]: only the first detail is converted.  A status without
    details comes from it, so that [from_source] ends the recursion. *)
Definition RootDesc_default : RootDesc := mkRootDesc 0 [].
Definition GroupDesc_default : GroupDesc := mkGroupDesc 0 0 [] [].
Definition from_wire (e : V1Error) : CResult ClientError :=
  match ve_details e with
  | [] => Ok CInternal
  | d :: _ =>
      match ed_detail d ≫= id with
      | Some (VGroupNotFound g) => Ok (CGroupNotFound g)
      | Some (VNotLeader g t l) => Ok (CNotLeader g t l)
      | Some (VNotRoot r t l) => Ok (CNotRootLeader (default RootDesc_default r) t l)
      | Some (VNotMatch desc) => Ok (CEpochNotMatch (default GroupDesc_default desc))
      | Some (VStatusCode v) =>
          let s := Status_new (Code_from_i32 v) (ed_message d) in
          match from_code s with Some r => r | None => Ok (from_source s) end
      | Some (VCasFailed i j p) => Ok (CCasFailed i j p)
      | Some VTxnConflict => Ok CTxnConflict
      | _ => Ok CInternal
      end
  end.

Section Status.
  Context `{Codec V1Error}.

Definition from_source_or_details (s : Status) : CResult ClientError :=
  match st_details s with
  | [] => Ok (from_source s)
  | details =>
      match decode_msg details : option V1Error with
      | Some err => from_wire err
      | None => Ok (from_source s)
      end
  end.
(** [From<tonic::Status> for Error]. *)
Definition from_status (s : Status) : CResult ClientError :=
  match from_code s with Some r => r | None => from_source_or_details s end.
End Status.

(** ** [AppError]: what the caller of the client sees *)
Inductive AppError :=
  | ANotFound | AAlreadyExists | AInvalidArgument | ADeadlineExceeded
  | ACasFailed (index cond_index : Z) (prev : option Value)
  | ATxnConflict | ANetwork | AInternal.
Definition to_app_error (e : ClientError) : result AppError AppError :=
  match e with
  | CInvalidArgument => Ok AInvalidArgument
  | CDeadlineExceeded => Ok ADeadlineExceeded
  | CNotFound => Ok ANotFound
  | CAlreadyExists => Ok AAlreadyExists
  | CCasFailed i j p => Ok (ACasFailed i j p)
  | CTxnConflict => Ok ATxnConflict
  | CInternal => Ok AInternal
  | CTransport => Ok ANetwork
  | CConnect | CRpc => Panic
  | CEpochNotMatch _ | CResourceExhausted | CGroupNotFound _ | CGroupNotAccessable _
  | CNotRootLeader _ _ _ | CNotLeader _ _ _ => Panic
  end.

(** ** [server/src/error.rs] *)
Definition Error_to_string (e : Error) : string :=
  match e with
  | AlreadyExists what => what +:+ " already exists"
  | DatabaseNotFound name => "database " +:+ name +:+ " not found"
  | NoAvaliableGroup => "no available group"
  | ResourceExhausted what => what +:+ " is exhausted"
  | ShardNotFound id => "shard " +:+ pretty id +:+ " not found"
  | InvalidData msg => "invalid " +:+ msg +:+ " data"
  | Canceled => "request canceled"
  | ClusterNotMatch => "cluster not match"
  | RaftError t => "raft " +:+ t
  | RaftEngineError t => "raft engine " +:+ t
  | TransportError t => "transport " +:+ t
  | IoError t => "io " +:+ t
  | RocksDbError t => "rocksdb " +:+ t
  | RpcError t => "rpc " +:+ t
  | GroupNotFound id => "group " +:+ pretty id +:+ " not found"
  | AbortScheduleTask r => "abort schedule task, " +:+ r
  | _ => EmptyString
  end.

(** [From<Error> for v1::Error]: the error of a group response. *)
Definition to_wire (e : Error) : CResult V1Error :=
  match e with
  | GroupNotFound g => Ok (with_detail_value (VGroupNotFound g))
  | NotLeader g t l => Ok (with_detail_value (VNotLeader g t l))
  | NotRootLeader r t l => Ok (with_detail_value (VNotRoot (Some r) t l))
  | EpochNotMatch desc => Ok (with_detail_value (VNotMatch (Some desc)))
  | InvalidArgument msg => Ok (V1Error_status (Code_i32 CodeInvalidArgument) msg)
  | DeadlineExceeded msg => Ok (V1Error_status (Code_i32 CodeDeadlineExceeded) msg)
  | CasFailed i j p => Ok (with_detail_value (VCasFailed i j p))
  | TxnConflict => Ok (with_detail_value VTxnConflict)
  | Forward _ | ServiceIsBusy _ | GroupNotReady _ | AbortScheduleTask _ => Panic
  | AlreadyExists msg => Ok (V1Error_status (Code_i32 CodeAlreadyExists) msg)
  | err => Ok (V1Error_status (Code_i32 CodeInternal) (Error_to_string err))
  end.

(** What a request that failed on the server is to the client. *)
Definition client_view {A} (e : Error) : CResult A :=
  let? w := to_wire e in let? c := from_wire w in Err c.

(** [From<Error> for tonic::Status]: the error of a plain RPC. *)
Section ToStatus.
  Context `{Codec V1Error}.
Definition detailed (msg : string) (v : DetailValue) : CResult Status :=
  Ok (Status_with_details CodeUnknown msg (encode_to_vec (with_detail_value v))).
Definition to_status (e : Error) : CResult Status :=
  match e with
  | InvalidArgument msg => Ok (Status_new CodeInvalidArgument msg)
  | DeadlineExceeded msg => Ok (Status_new CodeDeadlineExceeded msg)
  | DatabaseNotFound _ => Ok (Status_new CodeNotFound (Error_to_string e))
  | AlreadyExists _ => Ok (Status_new CodeAlreadyExists (Error_to_string e))
  | ResourceExhausted msg => Ok (Status_new CodeResourceExhausted msg)
  | CasFailed i j p => detailed "cas failed" (VCasFailed i j p)
  | GroupNotFound g => detailed (Error_to_string e) (VGroupNotFound g)
  | NotLeader g t l => detailed ("not leader of group " +:+ pretty g) (VNotLeader g t l)
  | NotRootLeader r t l => detailed "not root" (VNotRoot (Some r) t l)
  | EpochNotMatch desc => detailed "epoch not match" (VNotMatch (Some desc))
  | TxnConflict => detailed "the txn is conflict" VTxnConflict
  | Forward _ | ServiceIsBusy _ | GroupNotReady _ => Panic
  | err => Ok (Status_new CodeInternal (Error_to_string err))
  end.
End ToStatus.

(** [From<sekas_client::Error>]; the text the client error carries is [text]. *)
Definition from_client_error (text : string) {A} (e : ClientError) : Result A :=
  match e with
  | CInvalidArgument => Err (InvalidArgument text)
  | CDeadlineExceeded => Err (DeadlineExceeded text)
  | CAlreadyExists => Err (AlreadyExists text)
  | CResourceExhausted => Err (ResourceExhausted text)
  | CCasFailed index cond_index prev => Err (CasFailed index cond_index prev)
  | CTxnConflict => Err TxnConflict
  | CRpc | CConnect | CTransport => Err (RpcError text)
  | CGroupNotFound v => Err (GroupNotFound v)
  | CNotRootLeader desc term leader => Err (NotRootLeader desc term leader)
  | CNotLeader group term leader => Err (NotLeader group term leader)
  | CEpochNotMatch v => Err (EpochNotMatch v)
  | CGroupNotAccessable id => Err (GroupNotReady id)
  | CNotFound => Panic
  | CInternal => Panic
  end.

(** * Errors arrive as they were raised

    The two encodings a server error travels in (the error of a group response,
    the status of a plain RPC) and what the receiving client, and a server that
    is itself such a client, make of them. *)
(** The errors a receiver acts upon. *)
Definition structured (e : Error) : Prop :=
  match e with
  | GroupNotFound _ | NotLeader _ _ _ | NotRootLeader _ _ _ | EpochNotMatch _ | CasFailed _ _ _ | TxnConflict => True
  | _ => False
  end.

Section Wire.
  Context `{CodecOk V1Error}.
  (** A message with a field set is not encoded to nothing. *)
  Hypothesis encode_nonempty : ∀ v, encode_to_vec (with_detail_value v) ≠ [].

Lemma from_status_detailed msg v :
  (let? s := detailed msg v in from_status s) = from_wire (with_detail_value v).
Proof.
  unfold detailed, from_status, from_source_or_details. cbn.
  destruct (encode_to_vec (with_detail_value v)) as [|b l] eqn:E; [by destruct (encode_nonempty v)|].
  by rewrite <- E, decode_encode_msg.
Qed.

(** C38: A structured error ([GroupNotFound], [NotLeader], [NotRootLeader],
    [EpochNotMatch], [CasFailed], [TxnConflict]) crosses the wire unchanged,
    with its payload: the error of a group response and the status of a plain
    RPC give the receiving client the same error, and a server that made the
    request gets back the error that was raised. *)
Theorem structured_error_roundtrip e text :
  structured e →
  ∃ c, (let? w := to_wire e in from_wire w) = Ok c ∧
       (let? s := to_status e in from_status s) = Ok c ∧
       from_client_error text c = Err (A := unit) e.
Proof.
  intros He. destruct e; try done; unfold to_status; rewrite from_status_detailed;
    eexists; split_and!; reflexivity.
Qed.
End Wire.

(** A deadline that passes on the server has a status code that the client does
    not know: it becomes an [Rpc] error, on which the conversion to the
    application's error panics. *)
Lemma server_deadline_panics_client msg :
  client_view (DeadlineExceeded msg) = Err (A := unit) CRpc ∧ to_app_error CRpc = Panic.
Proof. split; [vm_compute|]; reflexivity. Qed.

(** ** A codec for the witness *)
#[local] Instance Value_eq_dec : EqDecision Value.
Proof. solve_decision. Defined.
#[local] Instance Value_countable : Countable Value.
Proof. by refine (inj_countable' (λ v, (v_content v, v_version v)) (λ p, mkValue p.1 p.2) _); intros []. Defined.
#[global] Instance Q_countable : Countable QArith_base.Q.
Proof. by refine (inj_countable' (λ q, (QArith_base.Qnum q, QArith_base.Qden q)) (λ p, QArith_base.Qmake p.1 p.2) _); intros []. Defined.
#[global] Instance f64_countable : Countable f64.
Proof.
  by refine (inj_countable' (λ x, match x with NaN => inl tt | Inf s => inr (inl s) | Num q => inr (inr q) end)
    (λ x, match x with inl _ => NaN | inr (inl s) => Inf s | inr (inr q) => Num q end) _); intros [].
Defined.
#[global] Instance NodeCapacity_eq_dec : EqDecision NodeCapacity.
Proof. solve_decision. Defined.
#[global] Instance NodeCapacity_countable : Countable NodeCapacity.
Proof. by refine (inj_countable' (λ c, (nc_cpu_nums c, nc_replica_count c, nc_leader_count c))
  (λ '(a, b, c), mkNodeCapacity a b c) _); intros []. Defined.
#[global] Instance NodeDesc_eq_dec : EqDecision NodeDesc.
Proof. solve_decision. Defined.
#[global] Instance NodeDesc_countable : Countable NodeDesc.
Proof.
  by refine (inj_countable' (λ n, (nd_id n, nd_addr n, nd_capacity n, nd_status n))
    (λ '(a, b, c, d), mkNodeDesc a b c d) _); intros [].
Defined.
#[local] Instance RootDesc_eq_dec : EqDecision RootDesc.
Proof. solve_decision. Defined.
#[local] Instance RootDesc_countable : Countable RootDesc.
Proof. by refine (inj_countable' (λ r, (rt_epoch r, rt_root_nodes r)) (λ p, mkRootDesc p.1 p.2) _); intros []. Defined.
#[local] Instance DetailValue_eq_dec : EqDecision DetailValue.
Proof. solve_decision. Defined.
Abbreviation detail_code :=
  (Z + (Z * Z * option ReplicaDesc) + option GroupDesc + bool + Z + (option RootDesc * Z * option ReplicaDesc)
   + (Z * Z * option Value))%type.
#[local] Instance DetailValue_countable : Countable DetailValue.
Proof.
  refine (inj_countable' (λ v : DetailValue, match v return detail_code with
    | VStatusCode c => inl (inl (inl (inl (inl (inl c)))))
    | VNotLeader g t l => inl (inl (inl (inl (inl (inr (g, t, l))))))
    | VNotMatch d => inl (inl (inl (inl (inr d))))
    | VServerIsBusy => inl (inl (inl (inr true)))
    | VTxnConflict => inl (inl (inl (inr false)))
    | VGroupNotFound g => inl (inl (inr g))
    | VNotRoot r t l => inl (inr (r, t, l))
    | VCasFailed i j p => inr (i, j, p)
    end) (λ c : detail_code, match c with
    | inl (inl (inl (inl (inl (inl c))))) => VStatusCode c
    | inl (inl (inl (inl (inl (inr (g, t, l)))))) => VNotLeader g t l
    | inl (inl (inl (inl (inr d)))) => VNotMatch d
    | inl (inl (inl (inr true))) => VServerIsBusy
    | inl (inl (inl (inr false))) => VTxnConflict
    | inl (inl (inr g)) => VGroupNotFound g
    | inl (inr (r, t, l)) => VNotRoot r t l
    | inr (i, j, p) => VCasFailed i j p
    end) _). by intros [].
Defined.
#[local] Instance ErrorDetail_eq_dec : EqDecision ErrorDetail.
Proof. solve_decision. Defined.
#[local] Instance ErrorDetail_countable : Countable ErrorDetail.
Proof. by refine (inj_countable' (λ e, (ed_message e, ed_detail e)) (λ p, mkErrorDetail p.1 p.2) _); intros []. Defined.
#[local] Instance V1Error_eq_dec : EqDecision V1Error.
Proof. solve_decision. Defined.
#[local] Instance V1Error_countable : Countable V1Error.
Proof. by refine (inj_countable' ve_details mkV1Error _); intros []. Defined.
#[export] Instance V1Error_codec : Codec V1Error := {|
  encode_to_vec e := Byte.x00 :: pos_bytes (encode e);
  decode_msg b := match b with _ :: l => bytes_pos l ≫= decode | [] => None end |}.
#[export] Instance V1Error_codec_ok : CodecOk V1Error.
Proof. split. intros a. cbn. rewrite pos_bytes_inv. cbn. apply decode_encode. Qed.

Lemma structured_error_roundtrip_witness :
  structured (EpochNotMatch (mkGroupDesc 1 7 [] [])) ∧
  ∃ c, (let? w := to_wire (EpochNotMatch (mkGroupDesc 1 7 [] [])) in from_wire w) = Ok c ∧
       (let? s := to_status (EpochNotMatch (mkGroupDesc 1 7 [] [])) in from_status s) = Ok c ∧
       from_client_error "x" c = Err (A := unit) (EpochNotMatch (mkGroupDesc 1 7 [] [])).
Proof. split; [exact I|]. apply structured_error_roundtrip; [done|exact I]. Defined.
