(* ===== verification/EngineProps.v ===== *)
(** * Properties of the storage layer

    Key codec, reads, batched writes and recovery of the group engine. *)

From S2P Require Import Prelude Bytes Rock Api Schema RocksDb Keys Engine EngineFacts EngineWrites Samples.

(** ** Key codec *)

(** C14: two multi-version keys of a table compare in RocksDB's byte order as
    their user keys, ties broken by version, newest first; the user key and
    the version are recovered from the encoded bytes. *)
Theorem mvcc_key_order_and_roundtrip t k1 k2 v1 v2 b1 b2 val :
  u64_ok v1 → u64_ok v2 →
  mvcc_key t k1 v1 = Ok b1 → mvcc_key t k2 v2 = Ok b2 →
  bytes_cmp b1 b2 = match bytes_cmp k1 k2 with Eq => v2 ?= v1 | c => c end ∧
  revert_mvcc_key b1 = Ok k1 ∧
  ∃ e, MvccEntry_new b1 val = Ok e ∧ me_user_key e = k1 ∧ entry_version e = v1.
Proof.
  intros Hv1 Hv2 H1 H2.
  destruct k1 as [|x1 k1]; [done|]. destruct k2 as [|x2 k2]; [done|].
  cbn [mvcc_key] in H1, H2. injection H1 as <-. injection H2 as <-.
  rewrite mvcc_key_buf_cmp, revert_mvcc_key_buf, MvccEntry_new_buf by done.
  split; [by destruct (bytes_cmp _ _)|]. split; [done|].
  eexists. split; [done|]. by rewrite entry_version_buf.
Qed.

Lemma mvcc_key_order_and_roundtrip_witness :
  ∃ b1 b2, mvcc_key 100 key_a 9 = Ok b1 ∧ mvcc_key 100 key_b 5 = Ok b2 ∧
  bytes_cmp b1 b2 = Lt ∧ revert_mvcc_key b1 = Ok key_a.
Proof.
  eexists _, _. split; [reflexivity|]. split; [reflexivity|].
  destruct (mvcc_key_order_and_roundtrip 100 key_a key_b 9 5 _ _ []
    ltac:(unfold u64_ok, u64_MAX; lia) ltac:(unfold u64_ok, u64_MAX; lia)
    eq_refl eq_refl) as (Hc & Hr & _).
  split; [exact Hc|exact Hr].
Defined.

(** The half-open key range from a prefix to its [lexical_next_boundary]
    holds exactly the keys that start with the prefix, for every prefix,
    including those that end in [0xFF] bytes or consist of them only. *)
Theorem prefix_scan_range p k :
  in_range p (lexical_next_boundary p) k = starts_with k p.
Proof. apply prefix_range_boundary. Qed.

(** Splitting a range at a key inside it gives two disjoint ranges that
    cover it: every key of the range is in exactly one half. *)
Theorem split_range_partition s m e k :
  in_range s e m = true → m ≠ [] →
  in_range s e k = xorb (in_range s m k) (in_range m e k).
Proof.
  intros Hm Hne. rewrite (in_range_split s m e k) by done.
  destruct (in_range s m k) eqn:E1, (in_range m e k) eqn:E2; try done.
  by destruct (in_range_split_disjoint s m e k).
Qed.

Lemma split_range_partition_witness :
  in_range key_a [] key_b = xorb (in_range key_a key_b key_b) (in_range key_b [] key_b).
Proof. apply (split_range_partition key_a key_b [] key_b); [reflexivity|discriminate]. Defined.

(** ** Reads and writes of the engine *)

(** A write as the callers of the engine issue it. *)
Inductive engine_write :=
  | EPut (key value : bytes) (version : Z)
  | ETombstone (key : bytes) (version : Z)
  | EDelete (key : bytes) (version : Z).
Definition ew_vop (w : engine_write) : vop :=
  match w with
  | EPut k v ver => VSet k ver (Some v)
  | ETombstone k ver => VSet k ver None
  | EDelete k ver => VDel k ver
  end.

Section Props.
  Context {DB : Type} `{RocksDbOk DB}.
  Context `{CodecOk EntryId} `{CodecOk GroupDesc} `{CodecOk MoveShardState}.

Definition stage (ge : GroupEngine DB) (sid : Z) (wb : WriteBatch) (w : engine_write) : Result WriteBatch :=
  match w with
  | EPut k v ver => ge_put ge wb sid k v ver
  | ETombstone k ver => ge_tombstone ge wb sid k ver
  | EDelete k ver => ge_delete ge wb sid k ver
  end.
Fixpoint stage_all (ge : GroupEngine DB) (sid : Z) (wb : WriteBatch) (ws : list engine_write) : Result WriteBatch :=
  match ws with
  | [] => Ok wb
  | w :: ws' => let? wb' := stage ge sid wb w in stage_all ge sid wb' ws'
  end.

Lemma stage_all_ok ge sid t wb ws :
  serves ge sid t → Forall (λ w, vop_ok (ew_vop w)) ws →
  stage_all ge sid wb ws = Ok (wb ++ map (vop_batch t) (map ew_vop ws)).
Proof.
  intros Hs Hok. revert wb. induction Hok as [|w ws [Hk Hv] _ IH]; intros wb; cbn [map stage_all].
  { by rewrite app_nil_r. }
  assert (stage ge sid wb w = Ok (wb ++ [vop_batch t (ew_vop w)])) as ->.
  { destruct w; cbn in *; eauto using ge_put_ok, ge_tombstone_ok, ge_delete_ok. }
  cbn [result_bind]. rewrite IH. by rewrite <- app_assoc.
Qed.

(** reading a key of a shard returns all its stored versions and nothing
    else, each once, newest first, and [get] returns the newest one. *)
Theorem get_all_versions_complete (ge : GroupEngine DB) sid t key :
  serves ge sid t → key ≠ [] →
  ∃ vs, ge_get_all_versions ge sid key = Ok (mkValueSet key vs) ∧
        ge_get ge sid key = Ok (head vs) ∧
        StronglySorted (λ a b, v_version b < v_version a) vs ∧
        (∀ ver c, u64_ok ver → mkValue c ver ∈ vs ↔
           db_get (ge_db ge) (mvcc_key_buf t key ver) = Some (stored c)).
Proof.
  intros Hs Hne. destruct (serves_versions ge sid t key Hs Hne) as (vs & Hv).
  exists vs. destruct (serves_reads ge sid t key vs Hs Hne Hv) as [-> ->].
  destruct Hv as [Hsort Hin]. split; [done|]. split; [done|]. split; [done|].
  intros ver c Hver. rewrite Hin. unfold has_version. cbn. tauto.
Qed.

(** A committed batch of puts, tombstones and deletes changes the version
    list of every key exactly by these operations in their order, whatever
    metadata is written with it; keys the batch does not name keep their
    versions. *)
Theorem committed_batch_versions (ge ge' : GroupEngine DB) sid t ws wb states key vs :
  serves ge sid t → Forall (λ w, vop_ok (ew_vop w)) ws → key ≠ [] →
  stage_all ge sid [] ws = Ok wb →
  ge_commit ge wb states = Ok ge' →
  ge_get_all_versions ge sid key = Ok (mkValueSet key vs) →
  (gc_shard_descs (ge_core ge') !! sid = gc_shard_descs (ge_core ge) !! sid →
   ge_get_all_versions ge' sid key
     = Ok (mkValueSet key (fold_left (vop_apply key) (map ew_vop ws) vs))) ∧
  db_wf (ge_db ge').
Proof.
  intros Hs Hws Hne Hwb Hc Hget. pose proof Hs as (Hwf & Ht & desc & Hd & Htd).
  rewrite (stage_all_ok ge sid t [] ws Hs Hws) in Hwb. injection Hwb as <-. cbn [app] in Hc.
  apply group_commit_db in Hc. cbn [concat] in Hc. rewrite app_nil_r in Hc.
  destruct (serves_versions ge sid t key Hs Hne) as (vs0 & Hv).
  rewrite (serves_get_all ge sid t key vs0 Hs Hne Hv) in Hget. injection Hget as <-.
  assert (Forall vop_ok (map ew_vop ws)) as Hok by by apply Forall_map.
  assert (db_wf (ge_db ge')) as Hwf'.
  { rewrite Hc. apply states_wf. by apply vops_wf. }
  split; [|done]. intros Hsame. apply (serves_get_all ge' sid t); [|done|].
  - split; [done|]. split; [done|]. exists desc. by rewrite Hsame.
  - rewrite Hc. apply states_versions; [done|]. by apply vops_versions.
Qed.

(** Commits of the state machine, none of them persisted, and flushes at any
    moments, from the creation of the engine on. *)
Inductive durable_run (group_id : Z) : list (list WriteBatch * WriteStates) → Durable DB → Prop :=
  | dr_create d : du_create group_id = Ok d → durable_run group_id [] d
  | dr_commit history d wbs states d' :
      durable_run group_id history d → batch_local_free (concat wbs) →
      du_group_commit d wbs states false = Ok d' → durable_run group_id (history ++ [(wbs, states)]) d'
  | dr_flush history d n : durable_run group_id history d → durable_run group_id history (du_flush n d).

(** The commits of a history one after the other. *)
Definition replay (history : list (list WriteBatch * WriteStates)) (ge : GroupEngine DB) : Result (GroupEngine DB) :=
  fold_left (λ r h, let? g := r in ge_group_commit g h.1 h.2) history (Ok ge).
(** The last apply state recorded. *)
Definition applied_by (history : list (list WriteBatch * WriteStates)) : EntryId :=
  fold_left (λ a h, default a (ws_apply_state h.2)) history (mkEntryId 0 0).

Lemma replay_cons h hs ge :
  replay (h :: hs) ge = let? g := ge_group_commit ge h.1 h.2 in replay hs g.
Proof.
  unfold replay. cbn [fold_left result_bind]. destruct (ge_group_commit ge h.1 h.2) as [g|e|]; [done|..]; cbn [result_bind].
  - by induction hs.
  - by induction hs.
Qed.
Lemma replay_app h1 h2 ge : replay (h1 ++ h2) ge = let? g := replay h1 ge in replay h2 g.
Proof.
  revert ge. induction h1 as [|h h1 IH]; intros ge; [done|]. cbn [app]. rewrite !replay_cons.
  destruct (ge_group_commit ge h.1 h.2) as [g|e|]; [apply IH|done..].
Qed.

(** What the writes of a history leave in memory. *)
Definition commit_batch_of (h : list WriteBatch * WriteStates) : bool * WriteBatch := (false, concat h.1 ++ write_states h.2).

Lemma replay_content h1 ge ge' :
  Forall (λ h, batch_local_free (concat h.1)) h1 → meta_synced ge → replay h1 ge = Ok ge' →
  meta_synced ge' ∧ ge_db ge' = fold_left write_batch (map snd (map commit_batch_of h1)) (ge_db ge) ∧
  ∀ a, flushed_apply_state (ge_db ge) = Ok a →
    flushed_apply_state (ge_db ge') = Ok (fold_left (λ a h, default a (ws_apply_state h.2)) h1 a).
Proof.
  intros Hf. revert ge. induction Hf as [|h h1 Hh _ IH]; intros ge Hs; [by intros [= <-]|].
  rewrite replay_cons. intros (g & Hg & Hr)%result_bind_ok.
  destruct (IH g (group_commit_synced _ _ _ _ Hs Hh Hg) Hr) as (Hs' & Hdb & Ha).
  apply group_commit_db in Hg. split; [done|]. split.
  { cbn [map commit_batch_of snd fold_left]. by rewrite Hdb, Hg, write_batch_app. }
  intros a Ea. cbn [fold_left]. apply Ha. rewrite Hg. unfold flushed_apply_state in *.
  rewrite states_apply_state, local_free_get by done. destruct (ws_apply_state h.2); [cbn; by rewrite decode_encode_msg|done].
Qed.

(** The flushed files hold the first [k] commits, memory the others. *)
Lemma durable_split group_id history d :
  durable_run group_id history d →
  ∃ k ge0 ge, ge_create group_id = Ok ge0 ∧ meta_synced ge0 ∧ flushed_apply_state (ge_db ge0) = Ok (mkEntryId 0 0) ∧
    Forall (λ h, batch_local_free (concat h.1)) history ∧
    (k + length (du_unflushed d) = length history)%nat ∧ replay (take k history) ge0 = Ok ge ∧ ge_db ge = du_flushed d ∧
    du_unflushed d = map commit_batch_of (drop k history) ∧ replay (drop k history) ge = Ok (du_engine d).
Proof.
  induction 1 as [d Hc|history d wbs states d' _ (k & ge0 & ge & Hc & Hs0 & Ha0 & Hf & Hk & Hr & Hdb & Hu & Hrest) Hwb Hd
                 |history d n _ (k & ge0 & ge & Hc & Hs0 & Ha0 & Hf & Hk & Hr & Hdb & Hu & Hrest)].
  - unfold du_create, du_group_commit in Hc. apply result_bind_ok in Hc as (d0 & (ge & Hge & [= <-])%result_bind_ok & [= <-]).
    cbn [du_engine du_flushed du_unflushed app length] in *. exists 0%nat, ge, ge.
    assert (ge_create group_id = Ok ge) as Hcr by exact Hge. destruct (ge_create_synced _ _ Hcr) as [Hsync _].
    apply group_commit_db in Hge. cbn [concat app ge_db] in Hge. unfold du_flush. cbn [du_engine du_flushed du_unflushed].
    split_and!; try done. unfold flushed_apply_state. rewrite Hge, states_apply_state. cbn. by rewrite decode_encode_msg.
  - unfold du_group_commit in Hd. apply result_bind_ok in Hd as (ge' & Hge & [= <-]).
    exists k, ge0, ge. cbn [du_engine du_flushed du_unflushed]. rewrite !length_app, take_app_le, drop_app_le by lia.
    split_and!; try done; [by apply Forall_app; repeat constructor|cbn; lia|by rewrite Hu, map_app|].
    rewrite replay_app, Hrest. cbn [result_bind]. rewrite replay_cons. cbn [fst snd]. by rewrite Hge.
  - set (m := (n `min` length (du_unflushed d))%nat). exists (k + m)%nat, ge0.
    assert (drop k history = take m (drop k history) ++ drop m (drop k history)) as Esplit by by rewrite take_drop.
    rewrite Esplit, replay_app in Hrest. apply result_bind_ok in Hrest as (g & Hg & Hrest). rewrite drop_drop in Hrest.
    assert (Forall (λ h, batch_local_free (concat h.1)) (take k history) ∧
            Forall (λ h, batch_local_free (concat h.1)) (take m (drop k history))) as [Hf1 Hf2].
    { split; [by apply Forall_take|by apply Forall_take, Forall_drop]. }
    destruct (replay_content _ _ _ Hf1 Hs0 Hr) as (Hs1 & _). destruct (replay_content _ _ _ Hf2 Hs1 Hg) as (_ & Hdb2 & _).
    assert (Hlen : length (du_unflushed d) = length (drop k history)) by by rewrite Hu, length_map.
    assert (Htake : take n (du_unflushed d) = map commit_batch_of (take m (drop k history)) ∧
                    drop n (du_unflushed d) = map commit_batch_of (drop m (drop k history))).
    { unfold m. rewrite Hlen, Hu. generalize (drop k history) as l. intros l. rewrite <- !firstn_map, <- !skipn_map.
      destruct (Nat.min_spec n (length l)) as [[? ->]|[? ->]]; [done|].
      by rewrite !take_ge, !drop_ge by (rewrite ?length_map; lia). }
    destruct Htake as [Ht Hd]. exists g. unfold du_flush. cbn [du_engine du_flushed du_unflushed].
    rewrite Ht, Hd, drop_drop. split_and!; try done.
    + rewrite length_map, length_drop. rewrite length_drop in Hlen. unfold m in *. lia.
    + rewrite <- take_take_drop, replay_app, Hr. done.
    + by rewrite Hdb2, Hdb.
Qed.

(** C15: the commits of the state machine skip the write-ahead log, so a
    crash keeps a prefix of them: those RocksDB flushed, at whatever moments.
    The group engine opened from what is on disk is the one that had made
    exactly these commits, metadata included; the apply state it reads back is
    the one of the last of them, and also the one the running engine reported
    as flushed; and making the lost commits again (as raft does from the next
    entry on) gives the engine that was running.  Commits hold no keys of the
    local table, and the history has no ingested snapshot, which replaces the
    files. *)
Theorem commit_recovery group_id history d :
  durable_run group_id history d →
  ∃ ge0 ge kept lost, ge_create group_id = Ok ge0 ∧ history = kept ++ lost ∧ length lost = length (du_unflushed d) ∧
    replay kept ge0 = Ok ge ∧ ge_open (du_crash d) = Ok ge ∧
    flushed_apply_state (du_crash d) = Ok (applied_by kept) ∧ du_flushed_apply_state d = Ok (applied_by kept) ∧
    replay lost ge = Ok (du_engine d).
Proof.
  intros (k & ge0 & ge & Hc & Hs & Ha & Hf & Hk & Hr & Hdb & Hu & Hrest)%durable_split.
  destruct (replay_content (take k history) ge0 ge (Forall_take _ _ _ Hf) Hs Hr) as (Hs' & _ & Hst).
  specialize (Hst _ Ha).
  assert (List.filter fst (du_unflushed d) = []) as Hnil.
  { rewrite Hu. clear. by induction (drop k history) as [|h l IH]. }
  assert (du_crash d = ge_db ge) as Hcrash by (unfold du_crash; by rewrite Hnil, Hdb).
  assert (du_persisted d = ge_db ge) as Hpers.
  { unfold du_persisted. destruct (du_unflushed d) as [|[b wb] u]; cbn; [done|].
    cbn in Hnil. by destruct b. }
  exists ge0, ge, (take k history), (drop k history). rewrite take_drop. split_and!; try done.
  - by rewrite Hu, length_map.
  - by rewrite Hcrash.
  - by rewrite Hcrash.
  - unfold du_flushed_apply_state. by rewrite Hpers.
Qed.

(** Installing a snapshot does not always leave the state a reopened
    engine would have: a move-shard state the engine had in memory survives
    when the ingested files carry none. *)
Theorem ingest_keeps_stale_move_state (ge ge' : GroupEngine DB) files m :
  gc_move_shard_state (ge_core ge) = Some m →
  internal_move_shard_state files = Ok None →
  ge_ingest ge files = Ok ge' →
  gc_move_shard_state (ge_core ge') = Some m ∧
  ∀ ge'', ge_open files = Ok ge'' → gc_move_shard_state (ge_core ge'') = None.
Proof.
  intros Hm Hf Hi. unfold ge_ingest, ge_open in *. rewrite Hf in *.
  apply result_bind_ok in Hi as (g & Hg & Hi). rewrite Hg. cbn [result_bind] in *.
  apply result_bind_ok in Hi as (core & (sds & Hs & [= <-])%result_bind_ok & [= <-]).
  split; [done|]. intros ge'' Ho. cbn in Ho. by injection Ho as <-.
Qed.

End Props.

Lemma get_all_versions_complete_witness :
  serves (sample_engine sample_ops) 1 sample_table ∧
  ∃ vs, ge_get_all_versions (sample_engine sample_ops) 1 key_a = Ok (mkValueSet key_a vs).
Proof.
  split; [by apply sample_serves|].
  destruct (get_all_versions_complete (sample_engine sample_ops) 1 sample_table key_a)
    as (vs & E & _); [by apply sample_serves|discriminate|]. by exists vs.
Defined.

Lemma committed_batch_versions_witness :
  ∃ ge', ge_commit (sample_engine sample_ops)
           (map (vop_batch sample_table) [VDel key_a 9; VSet key_a 12 None])
           WriteStates_default = Ok ge' ∧
    ge_get_all_versions ge' 1 key_a
      = Ok (mkValueSet key_a [mkValue None 12; mkValue (Some val_x) 5]).
Proof.
  eexists. split; [apply commit_default|].
  refine (proj1 (committed_batch_versions (sample_engine sample_ops) _ 1 sample_table
    [EDelete key_a 9; ETombstone key_a 12] _ WriteStates_default key_a
    [mkValue (Some val_y) 9; mkValue (Some val_x) 5] _ _ _ _ _ _) _).
  - by apply sample_serves.
  - repeat constructor; unfold u64_ok, u64_MAX; cbn; lia || discriminate.
  - discriminate.
  - reflexivity.
  - apply commit_default.
  - by apply (serves_get_all _ 1 sample_table); [apply sample_serves|discriminate|apply sample_versions].
  - reflexivity.
Defined.

Definition crash_history : list (list WriteBatch * WriteStates) :=
  [([[]], mkWriteStates (Some (mkEntryId 3 1)) (Some sample_group) None);
   ([map (vop_batch sample_table) [VSet key_a 5 (Some val_x)]], mkWriteStates (Some (mkEntryId 4 1)) None None)].

(** The first of two commits is flushed before the crash, the second is not. *)
Definition crash_state : Result (Durable (gmap bytes bytes)) :=
  let? d := du_create 7 in
  let? d := du_group_commit d [[]] (mkWriteStates (Some (mkEntryId 3 1)) (Some sample_group) None) false in
  du_group_commit (du_flush 1 d) [map (vop_batch sample_table) [VSet key_a 5 (Some val_x)]]
    (mkWriteStates (Some (mkEntryId 4 1)) None None) false.
Lemma crash_state_run d : crash_state = Ok d → durable_run 7 crash_history d.
Proof.
  intros (d0 & H0 & (d1 & H1 & H2)%result_bind_ok)%result_bind_ok.
  apply (dr_commit 7 [_] (du_flush 1 d1)); [apply (dr_flush 7 [_])| |exact H2].
  - apply (dr_commit 7 [] d0); [by constructor|constructor|exact H1].
  - cbn [concat]. rewrite app_nil_r. by apply vop_batch_local_free.
Qed.
Lemma crash_state_ok : ∃ d, crash_state = Ok d ∧ length (du_unflushed d) = 1%nat.
Proof.
  assert (match crash_state with Ok d => Nat.eqb (length (du_unflushed d)) 1 | _ => false end = true) as E by (by vm_compute).
  destruct crash_state as [d|e|]; [|done..]. exists d. split; [done|]. by apply Nat.eqb_eq.
Qed.

Lemma commit_recovery_witness :
  ∃ d ge, durable_run 7 crash_history d ∧ length (du_unflushed d) = 1%nat ∧
    ge_open (du_crash d) = Ok ge ∧ flushed_apply_state (du_crash d) = Ok (mkEntryId 3 1) ∧
    gc_group_desc (ge_core ge) = sample_group.
Proof.
  destruct crash_state_ok as (d & Hd%crash_state_run & Hlen).
  destruct (commit_recovery 7 crash_history d Hd) as (ge0 & ge & kept & lost & Hc & Eh & Hl & Hr & Ho & Ha & _).
  rewrite Hlen in Hl. exists d, ge. split; [done|]. split; [done|]. split; [done|].
  destruct kept as [|h1 [|h2 kept]]; [cbn [app] in Eh; by rewrite <- Eh in Hl|..].
  - injection Eh as <- <-. split; [exact Ha|]. cbn in Hc. injection Hc as <-. cbn in Hr. by injection Hr as <-.
  - exfalso. apply (f_equal length) in Eh. rewrite length_app, Hl in Eh. cbn in Eh. lia.
Defined.

Definition moving_state : MoveShardState :=
  mkMoveShardState (Some (mkMoveShardDesc (Some sample_shard) 7 19 8 3)) None (MoveShardStep_i32 Moving).
Definition moving_engine : GroupEngine (gmap bytes bytes) :=
  mkGroupEngine (ge_db (sample_engine []))
    (mkGroupEngineCore sample_group (internal_shard_descs sample_group) (Some moving_state)).

Lemma ingest_keeps_stale_move_state_witness :
  ∃ ge', ge_ingest moving_engine (ge_db (sample_engine sample_ops)) = Ok ge' ∧
    gc_move_shard_state (ge_core ge') = Some moving_state.
Proof.
  eexists. split; [reflexivity|].
  eapply (ingest_keeps_stale_move_state moving_engine _ (ge_db (sample_engine sample_ops)) moving_state);
    [reflexivity|vm_compute; reflexivity|reflexivity].
Defined.
