(* ===== verification/Cas.v ===== *)
(** * Conditional writes ([server/src/replica/eval/cas.rs]) *)

From S2P Require Import Prelude Bytes Api.

Definition opt_test (o : option bytes) (p : bytes → bool) : bool :=
  match o with Some v => p v | None => false end.

Definition eval_condition (cond : WriteCondition) (value : option Value) : Result bool :=
  match WriteConditionType_from_i32 (wc_type cond) with
  | None => Err (InvalidArgument "Invalid WriteConditionType")
  | Some ty =>
      match value with
      | Some v =>
          match ty with
          | ExpectNotExists => match v_content v with Some _ => Ok false | None => Ok true end
          | ExpectExists => match v_content v with None => Ok false | Some _ => Ok true end
          | ExpectValue => Ok (opt_test (v_content v) (λ c, bytes_eqb c (wc_value cond)))
          | ExpectVersion => if negb (v_version v =? wc_version cond) then Ok false else Ok true
          | ExpectVersionLt => if wc_version cond <=? v_version v then Ok false else Ok true
          | ExpectVersionLe => if wc_version cond <? v_version v then Ok false else Ok true
          | ExpectVersionGt => if v_version v <=? wc_version cond then Ok false else Ok true
          | ExpectVersionGe => if v_version v <? wc_version cond then Ok false else Ok true
          | ExpectStartsWith => Ok (opt_test (v_content v) (λ c, starts_with c (wc_value cond)))
          | ExpectEndsWith => Ok (opt_test (v_content v) (λ c, ends_with c (wc_value cond)))
          | ExpectSlice =>
              let idx := Z.to_nat (wc_begin cond) in
              Ok (opt_test (v_content v)
                    (λ c, (idx <? length c)%nat && starts_with (drop idx c) (wc_value cond)))
          | ExpectContains => Ok true
          end
      | None => match ty with ExpectNotExists => Ok true | _ => Ok false end
      end
  end.

(** The index of the first unsatisfied condition. *)
Fixpoint eval_conditions_from (idx : Z) (value : option Value) (conds : list WriteCondition) :
    Result (option Z) :=
  match conds with
  | [] => Ok None
  | cond :: conds' =>
      let? ok := eval_condition cond value in
      if negb ok then Ok (Some idx) else eval_conditions_from (idx + 1) value conds'
  end.
Definition eval_conditions (value : option Value) (conds : list WriteCondition) : Result (option Z) :=
  eval_conditions_from 0 value conds.

(** ** What a condition asks for *)

(** The reading of [write.proto]; [ExpectContains] is in it and not in the code. *)
Definition condition_holds (cond : WriteCondition) (ty : WriteConditionType) (value : option Value) : Prop :=
  let content := value ≫= v_content in
  match ty with
  | ExpectNotExists => content = None
  | ExpectExists => content ≠ None
  | ExpectValue => content = Some (wc_value cond)
  | ExpectVersion => ∃ v, value = Some v ∧ v_version v = wc_version cond
  | ExpectVersionLt => ∃ v, value = Some v ∧ v_version v < wc_version cond
  | ExpectVersionLe => ∃ v, value = Some v ∧ v_version v ≤ wc_version cond
  | ExpectVersionGt => ∃ v, value = Some v ∧ wc_version cond < v_version v
  | ExpectVersionGe => ∃ v, value = Some v ∧ wc_version cond ≤ v_version v
  | ExpectStartsWith => ∃ c rest, content = Some c ∧ c = wc_value cond ++ rest
  | ExpectEndsWith => ∃ c front, content = Some c ∧ c = front ++ wc_value cond
  | ExpectSlice => ∃ c rest, content = Some c ∧ (Z.to_nat (wc_begin cond) < length c)%nat ∧
                     drop (Z.to_nat (wc_begin cond)) c = wc_value cond ++ rest
  | ExpectContains => ∃ c front rest, content = Some c ∧ c = front ++ wc_value cond ++ rest
  end.

Lemma opt_test_true o p : opt_test o p = true ↔ ∃ c, o = Some c ∧ p c = true.
Proof. destruct o; cbn; naive_solver. Qed.

Ltac version_case t :=
  destruct t; intros [= <-];
  (split; [first [done | intros _; eexists; split; [done|cbn; lia]]
          |intros (w & [= <-] & Hw); cbn in Hw; first [lia | done]]).

Lemma eval_condition_spec cond ty value b :
  WriteConditionType_from_i32 (wc_type cond) = Some ty → ty ≠ ExpectContains →
  eval_condition cond value = Ok b → (b = true ↔ condition_holds cond ty value).
Proof.
  intros Hty Hnc. unfold eval_condition. rewrite Hty.
  destruct value as [[content ver]|]; cbn [v_content v_version].
  2: { destruct ty; cbn; intros [= <-]; naive_solver. }
  destruct ty; cbn [condition_holds v_content mbind option_bind]; try done.
  - destruct content; intros [= <-]; naive_solver.
  - destruct content; intros [= <-]; naive_solver.
  - intros [= <-]. rewrite opt_test_true. setoid_rewrite bytes_eqb_eq. naive_solver.
  - destruct (Z.eqb_spec ver (wc_version cond)); intros [= <-]; cbn; naive_solver.
  - version_case (Z.leb_spec (wc_version cond) ver).
  - version_case (Z.ltb_spec (wc_version cond) ver).
  - version_case (Z.leb_spec ver (wc_version cond)).
  - version_case (Z.ltb_spec ver (wc_version cond)).
  - intros [= <-]. rewrite opt_test_true. setoid_rewrite starts_with_spec. naive_solver.
  - intros [= <-]. rewrite opt_test_true. setoid_rewrite ends_with_spec. naive_solver.
  - intros [= <-]. rewrite opt_test_true. setoid_rewrite andb_true_iff.
    setoid_rewrite Nat.ltb_lt. setoid_rewrite starts_with_spec. naive_solver.
Qed.

(** ** Lists of conditions *)
Lemma eval_conditions_from_spec idx value conds :
  match eval_conditions_from idx value conds with
  | Ok None => Forall (λ c, eval_condition c value = Ok true) conds
  | Ok (Some n) => ∃ pre c post, conds = pre ++ c :: post ∧ n = idx + Z.of_nat (length pre) ∧
                     Forall (λ c, eval_condition c value = Ok true) pre ∧
                     eval_condition c value = Ok false
  | Err e => e = InvalidArgument "Invalid WriteConditionType" ∧
             ∃ c, c ∈ conds ∧ WriteConditionType_from_i32 (wc_type c) = None
  | Panic => False
  end.
Proof.
  revert idx. induction conds as [|c conds IH]; intros idx; cbn [eval_conditions_from]; [constructor|].
  destruct (eval_condition c value) as [b|e|] eqn:E; cbn [result_bind].
  - destruct b; cbn [negb].
    + specialize (IH (idx + 1)). destruct (eval_conditions_from (idx + 1) value conds) as [[n|]|e|].
      * destruct IH as (pre & c' & post & -> & -> & Hpre & Hc).
        exists (c :: pre), c', post. cbn [length]. split; [done|]. split; [lia|]. by repeat constructor.
      * by constructor.
      * destruct IH as [-> (c' & ? & ?)]. split; [done|]. exists c'. split; [by right|done].
      * done.
    + exists [], c, conds. cbn. split; [done|]. split; [lia|]. by split.
  - unfold eval_condition in E. destruct (WriteConditionType_from_i32 (wc_type c)) as [ty|] eqn:Ety.
    + destruct value as [v|], ty; crush_match; done.
    + injection E as <-. split; [done|]. exists c. split; [left|done].
  - unfold eval_condition in E. destruct (WriteConditionType_from_i32 (wc_type c)) as [ty|]; [|done].
    destruct value as [v|], ty; crush_match; done.
Qed.
