(* ===== verification/EvalTxn.v ===== *)
(** * Transactional writes ([server/src/replica/eval/cmd_txn.rs], [latch.rs])

    The latch traits and [DeferSignalLatchGuard], then the handlers of the
    two-phase writes: [write_intent], [commit_intent], [clear_intent].  A
    handler runs in a state: the latch guards of the request and the world
    [W] outside them, which holds the group engine.  The world changes only
    while a latch guard resolves another transaction. *)

From S2P Require Import Prelude Bytes Rock Api Schema RocksDb Keys Engine Cas.

(** [ExecCtx] of [replica/mod.rs]; the watch channel by its number. *)
Record ExecCtx := mkExecCtx {
  ec_group_id : Z; ec_replica_id : Z; ec_forward_shard_id : option Z; ec_epoch : Z;
  ec_watch_event_sender : option Z; ec_move_shard_desc : option MoveShardDesc }.
Definition ExecCtx_default : ExecCtx := mkExecCtx 0 0 None 0 None None.
Definition ExecCtx_with_epoch (epoch : Z) : ExecCtx := mkExecCtx 0 0 None epoch None None.
Definition ExecCtx_forward (shard_id : Z) : ExecCtx := mkExecCtx 0 0 (Some shard_id) 0 None None.
Definition ExecCtx_reset (c : ExecCtx) : ExecCtx :=
  mkExecCtx (ec_group_id c) (ec_replica_id c) (ec_forward_shard_id c) (ec_epoch c)
    (ec_watch_event_sender c) None.

(** ** The latch traits *)
Class LatchGuard (W G : Type) := {
  guard_resolve_txn : G → TxnIntent → W → Result (option Value) * G * W;
  guard_signal_all : G → TxnState → option Z → W → W;
}.
Class LatchManager (W : Type) := {
  mgr_resolve_txn : W → Z → bytes → Z → Z → Result (option Value) * W;
}.

Record DeferSignalLatchGuard (G : Type) := mkDefer {
  dl_state : option (TxnState * option Z);
  dl_latches : gmap ShardKey G }.
Arguments mkDefer {G} _ _.
Arguments dl_state {G} _.
Arguments dl_latches {G} _.

Definition EvalState (W G : Type) : Type := DeferSignalLatchGuard G * W.

Definition defer_resolve_txn {W G} `{LatchGuard W G} (shard_id : Z) (key : bytes) (txn_intent : TxnIntent) :
    prog (EvalState W G) Error (option Value) := λ '(d, w),
  let shard_key := mkShardKey shard_id key in
  match dl_latches d !! shard_key with
  | None => Some (Err (InvalidData "resolve txn but not hold the latch"), (d, w))
  | Some latch =>
      let '(r, latch', w') := guard_resolve_txn latch txn_intent w in
      Some (r, (mkDefer (dl_state d) (<[shard_key := latch']> (dl_latches d)), w'))
  end.

Definition defer_signal_all {W G} (txn_state : TxnState) (commit_version : option Z) :
    prog (EvalState W G) Error unit := λ '(d, w),
  Some (Ok tt, (mkDefer (Some (txn_state, commit_version)) (dl_latches d), w)).

(** [Drop for DeferSignalLatchGuard]. *)
Definition defer_drop {W G} `{LatchGuard W G} (d : DeferSignalLatchGuard G) (w : W) : W :=
  match dl_state d with
  | None => w
  | Some (txn_state, commit_version) =>
      fold_left (λ w p, guard_signal_all p.2 txn_state commit_version w) (map_to_list (dl_latches d)) w
  end.

(** ** Helpers of [cmd_txn.rs] *)
Definition apply_put_op (ty : PutType) (prev_value : option Value) (value : bytes) : Result (option bytes) :=
  match ty with
  | AddI64 =>
      let? delta := ok_or (decode_i64 value) (InvalidArgument "input value is not a valid i64") in
      let? former_value :=
        match prev_value ≫= v_content with
        | Some content => ok_or (decode_i64 content) (InvalidArgument "the exists value is not a valid i64")
        | None => Ok 0
        end in
      Ok (Some (i64_to_be_bytes (i64_wrap (former_value + delta))))
  | PutNone => Ok (Some value)
  | Nop => Ok None
  end.

Definition is_atomic_operation (write : WriteRequest) : bool :=
  match write with
  | WPut put =>
      match put_conditions put with
      | [] => put_put_type put =? PutType_i32 AddI64
      | _ => false
      end
  | _ => false
  end.

Section Txn.
  Context {DB : Type} `{RocksDb DB} `{Codec TxnIntent} `{Codec WriteBatch}.

Definition read_intent_and_next_key (engine : GroupEngine DB) (shard_id : Z) (key : bytes) :
    Result (option TxnIntent * option Value) :=
  let? snapshot := ge_snapshot engine shard_id (ModeKey key) in
  match next_mvcc_iterator snapshot with
  | (Ok (Some _), s1) =>
      match next_mvcc_entry s1 with
      | (Ok (Some entry), s2) =>
          if entry_version entry =? TXN_INTENT_VERSION then
            let? value := entry_value entry in
            let? content := ok_or value (InvalidData "intent value must exist") in
            let? txn_intent := ok_or (decode_msg content) DecodeError in
            let? next := (next_mvcc_entry s2).1 in
            match next with
            | Some e => let? v := entry_into e in Ok (Some txn_intent, Some v)
            | None => Ok (Some txn_intent, None)
            end
          else let? v := entry_into entry in Ok (None, Some v)
      | (Ok None, _) => Ok (None, None)
      | (Err e, _) => Err e
      | (Panic, _) => Panic
      end
  | (Ok None, _) => Ok (None, None)
  | (Err e, _) => Err e
  | (Panic, _) => Panic
  end.

Definition read_target_intent (engine : GroupEngine DB) (start_version shard_id : Z) (key : bytes) :
    Result (option TxnIntent) :=
  let? value := ge_get engine shard_id key in
  match value with
  | None => Ok None
  | Some v =>
      if negb (v_version v =? TXN_INTENT_VERSION) then Ok None
      else
        let? content := ok_or (v_content v) (InvalidData "txn intent without value") in
        let? intent := ok_or (decode_msg content) DecodeError in
        if negb (ti_start_version intent =? start_version) then Ok None else Ok (Some intent)
  end.

(** The check every write makes first: a shard being moved away is forwarded
    to its destination with the versions of the key. *)
Definition check_forward (exec_ctx : ExecCtx) (engine : GroupEngine DB) (req_shard_id : Z) (key : bytes) :
    Result unit :=
  match ec_move_shard_desc exec_ctx with
  | None => Ok tt
  | Some desc =>
      let? sd := get_shard_desc desc in
      if sd_id sd =? req_shard_id then
        let? payload := ge_get_all_versions engine req_shard_id key in
        Err (Forward (mkForwardCtx (sd_id sd) (md_dest_group_id desc) [payload]))
      else Ok tt
  end.

Definition batch_result (wb : WriteBatch) : option EvalResult :=
  match wb with [] => None | _ => Some (EvalResult_with_batch (encode_to_vec wb)) end.

  Context {W G : Type} `{LatchGuard W G} (engine : W → GroupEngine DB).
  Abbreviation M := (prog (EvalState W G) Error).

Definition with_engine {A} (f : GroupEngine DB → Result A) : M A := prog_reads (λ st, f (engine st.2)).

(** Nothing bounds the rounds of this loop: every resolved transaction may
    leave room for the next one.  [fuel] is the number of rounds. *)
Fixpoint read_first_non_intent_key (fuel : nat) (start_version shard_id : Z) (key : bytes) :
    M (bool * option Value) :=
  match fuel with
  | O => λ _, None
  | S fuel' =>
      let* ' (txn_intent, prev_value) := with_engine (λ e, read_intent_and_next_key e shard_id key) in
      match txn_intent with
      | None => prog_lift (Ok (false, prev_value))
      | Some txn_intent =>
          if ti_start_version txn_intent =? start_version then prog_lift (Ok (true, prev_value))
          else
            do* defer_resolve_txn shard_id key txn_intent in
            read_first_non_intent_key fuel' start_version shard_id key
      end
  end.

(** The decision of [write_intent] once the latch owner knows the state of
    the key: conflict, condition failure, or the intent to store. *)
Definition decide_intent (engine : GroupEngine DB) (shard_id start_version : Z) (write : WriteRequest)
    (skip_write : bool) (prev_value : option Value) : Result (WriteBatch * option Value) :=
  do? match prev_value with
      | Some value =>
          if (start_version <? v_version value) && negb (is_atomic_operation write)
          then Err TxnConflict else Ok tt
      | None => Ok tt
      end in
  match write with
  | WDelete del =>
      let? wb :=
        if negb skip_write then
          let? failed := eval_conditions prev_value (del_conditions del) in
          match failed with
          | Some cond_idx => Err (CasFailed 0 cond_idx prev_value)
          | None =>
              ge_put engine [] shard_id (del_key del)
                (encode_to_vec (TxnIntent_tombstone start_version)) TXN_INTENT_VERSION
          end
        else Ok [] in
      Ok (wb, if del_take_prev_value del then prev_value else None)
  | WPut put =>
      let? wb :=
        if negb skip_write then
          let? failed := eval_conditions prev_value (put_conditions put) in
          match failed with
          | Some cond_idx => Err (CasFailed 0 cond_idx prev_value)
          | None =>
              let? apply_value := apply_put_op (put_type put) prev_value (put_value put) in
              ge_put engine [] shard_id (put_key put)
                (encode_to_vec (TxnIntent_with_put start_version apply_value)) TXN_INTENT_VERSION
          end
        else Ok [] in
      Ok (wb, if put_take_prev_value put then prev_value else None)
  end.

Definition write_intent (fuel : nat) (exec_ctx : ExecCtx) (req : WriteIntentRequest) :
    M (option EvalResult * WriteIntentResponse) :=
  let* write := prog_lift (ok_or (wi_write req) (InvalidArgument "`write` is required")) in
  let key := user_key write in
  do* with_engine (λ e, check_forward exec_ctx e (wi_shard_id req) key) in
  let* ' (skip_write, prev_value) :=
    read_first_non_intent_key fuel (wi_start_version req) (wi_shard_id req) key in
  let* ' (wb, prev) := with_engine (λ e,
    decide_intent e (wi_shard_id req) (wi_start_version req) write skip_write prev_value) in
  prog_lift (Ok (batch_result wb, mkWriteIntentResponse (Some (mkWriteResponse prev)))).

(** The batch that turns an intent into a committed version. *)
Definition commit_batch (engine : GroupEngine DB) (shard_id : Z) (key : bytes) (intent : TxnIntent)
    (commit_version : Z) : Result WriteBatch :=
  let? wb := ge_delete engine [] shard_id key TXN_INTENT_VERSION in
  if ti_is_delete intent then ge_tombstone engine wb shard_id key commit_version
  else
    match ti_value intent with
    | Some value => ge_put engine wb shard_id key value commit_version
    | None => Ok wb
    end.

Definition commit_intent (exec_ctx : ExecCtx) (req : CommitIntentRequest) : M (option EvalResult) :=
  do* with_engine (λ e, check_forward exec_ctx e (ci_shard_id req) (ci_user_key req)) in
  let* intent := with_engine (λ e,
    read_target_intent e (ci_start_version req) (ci_shard_id req) (ci_user_key req)) in
  match intent with
  | None => prog_lift (Ok None)
  | Some intent =>
      let* wb := with_engine (λ e,
        commit_batch e (ci_shard_id req) (ci_user_key req) intent (ci_commit_version req)) in
      do* defer_signal_all Committed (Some (ci_commit_version req)) in
      prog_lift (Ok (batch_result wb))
  end.

Definition clear_intent (exec_ctx : ExecCtx) (req : ClearIntentRequest) : M (option EvalResult) :=
  do* with_engine (λ e, check_forward exec_ctx e (cl_shard_id req) (cl_user_key req)) in
  let* intent := with_engine (λ e,
    read_target_intent e (cl_start_version req) (cl_shard_id req) (cl_user_key req)) in
  match intent with
  | None => prog_lift (Ok None)
  | Some _ =>
      let* wb := with_engine (λ e, ge_delete e [] (cl_shard_id req) (cl_user_key req) TXN_INTENT_VERSION) in
      do* defer_signal_all Aborted None in
      prog_lift (Ok (batch_result wb))
  end.

End Txn.
