(* ===== verification/EvalTxnFacts.v ===== *)
(** * The transactional state of a key and what the handlers do to it

    A key is abstracted to a [key_state]: the intent that locks it, if any,
    and its committed versions.  [key_repr] relates the stored rows to it;
    [spec_write], [spec_commit] and [spec_clear] are the abstract transitions
    the handlers of [EvalTxn] refine. *)

From S2P Require Import Prelude Bytes Rock Api Schema RocksDb Keys Engine EngineFacts EngineWrites Cas EvalTxn.

Record key_state := mkKeyState { ks_intent : option TxnIntent; ks_committed : list Value }.

Definition intent_row `{Codec TxnIntent} (i : option TxnIntent) : list Value :=
  match i with
  | Some ti => [mkValue (Some (encode_to_vec ti)) TXN_INTENT_VERSION]
  | None => []
  end.
Definition committed_ok (vs : list Value) : Prop := Forall (λ v, v_version v < TXN_INTENT_VERSION) vs.
Definition key_repr {DB} `{RocksDb DB} `{Codec TxnIntent} (db : DB) (t : Z) (key : bytes) (ks : key_state) : Prop :=
  is_versions db t key (intent_row (ks_intent ks) ++ ks_committed ks) ∧ committed_ok (ks_committed ks).

(** The intent of [start] on the key, if it is the one that holds it. *)
Definition own_intent (ks : key_state) (start : Z) : option TxnIntent :=
  match ks_intent ks with
  | Some ti => if ti_start_version ti =? start then Some ti else None
  | None => None
  end.
Definition foreign_intent (ks : key_state) (start : Z) : option TxnIntent :=
  match ks_intent ks with
  | Some ti => if ti_start_version ti =? start then None else Some ti
  | None => None
  end.

(** ** Abstract transitions *)
Definition write_conditions (w : WriteRequest) : list WriteCondition :=
  match w with WDelete d => del_conditions d | WPut p => put_conditions p end.
Definition write_take_prev (w : WriteRequest) : bool :=
  match w with WDelete d => del_take_prev_value d | WPut p => put_take_prev_value p end.
Definition intent_for (start : Z) (w : WriteRequest) (prev : option Value) : Result TxnIntent :=
  match w with
  | WDelete _ => Ok (TxnIntent_tombstone start)
  | WPut p => let? v := apply_put_op (put_type p) prev (put_value p) in Ok (TxnIntent_with_put start v)
  end.
Definition conflicts (start : Z) (w : WriteRequest) (prev : option Value) : bool :=
  match prev with
  | Some v => (start <? v_version v) && negb (is_atomic_operation w)
  | None => false
  end.

(** A write by [start] on a key no other transaction holds. *)
Definition spec_write (ks : key_state) (start : Z) (w : WriteRequest) : Result (key_state * option Value) :=
  let prev := head (ks_committed ks) in
  let out := if write_take_prev w then prev else None in
  if conflicts start w prev then Err TxnConflict
  else
    match own_intent ks start with
    | Some _ => Ok (ks, out)
    | None =>
        let? failed := eval_conditions prev (write_conditions w) in
        match failed with
        | Some i => Err (CasFailed 0 i prev)
        | None => let? ti := intent_for start w prev in Ok (mkKeyState (Some ti) (ks_committed ks), out)
        end
    end.

Definition spec_commit (ks : key_state) (start commit : Z) : key_state :=
  match own_intent ks start with
  | None => ks
  | Some ti =>
      mkKeyState None
        (if ti_is_delete ti then set_version commit None (ks_committed ks)
         else match ti_value ti with
              | Some v => set_version commit (Some v) (ks_committed ks)
              | None => ks_committed ks
              end)
  end.

Definition spec_clear (ks : key_state) (start : Z) : key_state :=
  match own_intent ks start with None => ks | Some _ => mkKeyState None (ks_committed ks) end.

(** ** Lists with an intent on top *)
Lemma intent_version_ok : u64_ok TXN_INTENT_VERSION.
Proof. unfold u64_ok, TXN_INTENT_VERSION, u64_MAX. lia. Qed.
#[export] Hint Resolve intent_version_ok : sekas.

Lemma set_intent_version c vs :
  committed_ok vs → set_version TXN_INTENT_VERSION c vs = mkValue c TXN_INTENT_VERSION :: vs.
Proof. intros [|v vs' Hv _]; cbn; [done|]. by rewrite (proj2 (Z.ltb_lt _ _)). Qed.

Lemma del_intent_version `{Codec TxnIntent} i vs :
  committed_ok vs → del_version TXN_INTENT_VERSION (intent_row i ++ vs) = vs.
Proof.
  intros Hvs. assert (del_version TXN_INTENT_VERSION vs = vs) as Hd.
  { apply del_version_absent. eapply Forall_impl; [done|]. cbn. lia. }
  destruct i; [|done]. cbn. by rewrite Z.eqb_refl.
Qed.

Lemma committed_ok_set ver c vs :
  newest_first vs → ver < TXN_INTENT_VERSION → committed_ok vs → committed_ok (set_version ver c vs).
Proof.
  unfold committed_ok. rewrite !Forall_forall. intros Hs Hv Hall v [->|[? _]]%set_version_elem; auto.
Qed.

Section Facts.
  Context {DB : Type} `{RocksDbOk DB} `{CodecOk TxnIntent} `{CodecOk WriteBatch}.
  Implicit Types ge : GroupEngine DB.

Lemma key_repr_sorted (db : DB) t key ks : key_repr db t key ks → newest_first (ks_committed ks).
Proof.
  intros [[Hs _] _]. destruct (ks_intent ks); [by inversion Hs|done].
Qed.

Lemma key_repr_put_intent (db : DB) t key ks ti :
  key ≠ [] → key_repr db t key ks → ks_intent ks = None →
  key_repr (apply_op db (vop_batch t (VSet key TXN_INTENT_VERSION (Some (encode_to_vec ti))))) t key
    (mkKeyState (Some ti) (ks_committed ks)).
Proof.
  intros Hne [Hv Hc] Hi. rewrite Hi in Hv. split; [|done].
  eapply (vop_versions _ _ (VSet key TXN_INTENT_VERSION (Some (encode_to_vec ti)))) in Hv;
    [|split; auto with sekas|done].
  unfold vop_apply in Hv. cbn [vop_key] in Hv. rewrite bool_decide_true in Hv by done.
  cbn [intent_row app] in Hv. by rewrite set_intent_version in Hv.
Qed.

(** Removing the intent and, possibly, storing a committed version. *)
Definition resolve_ops (key : bytes) (commit : Z) (c : option (option bytes)) : list vop :=
  VDel key TXN_INTENT_VERSION :: match c with Some c => [VSet key commit c] | None => [] end.
Definition resolved (ks : key_state) (commit : Z) (c : option (option bytes)) : key_state :=
  mkKeyState None match c with Some c => set_version commit c (ks_committed ks) | None => ks_committed ks end.

Lemma key_repr_resolve (db : DB) t key ks commit c :
  key ≠ [] → u64_ok commit → commit < TXN_INTENT_VERSION → key_repr db t key ks →
  key_repr (write_batch db (map (vop_batch t) (resolve_ops key commit c))) t key (resolved ks commit c).
Proof.
  intros Hne Hu Hlt Hr. pose proof (key_repr_sorted _ _ _ _ Hr) as Hs. destruct Hr as [Hv Hc].
  assert (Forall vop_ok (resolve_ops key commit c)) as Hok.
  { destruct c; repeat constructor; cbn; auto; unfold TXN_INTENT_VERSION, u64_MAX, u64_ok in *; lia. }
  apply (vops_versions _ _ _ _ _ Hok Hne) in Hv. unfold resolve_ops in Hv.
  cbn [fold_left] in Hv. unfold vop_apply at 2 in Hv. cbn [vop_key] in Hv.
  rewrite bool_decide_true, del_intent_version in Hv by done.
  split; destruct c as [c|]; cbn [resolved ks_intent ks_committed intent_row app]; try done.
  - cbn [fold_left] in Hv. unfold vop_apply in Hv. cbn [vop_key] in Hv.
    by rewrite bool_decide_true in Hv.
  - by apply committed_ok_set.
Qed.

(** ** What the reads of the handlers see *)
Lemma read_intent_repr ge sid t key ks :
  serves ge sid t → key ≠ [] → key_repr (ge_db ge) t key ks →
  read_intent_and_next_key ge sid key = Ok (ks_intent ks, head (ks_committed ks)).
Proof.
  intros (Hwf & Ht & desc & Hd & <-) Hne [Hv Hc].
  destruct (key_snapshot_iter ge sid desc key Hwf Hd Ht Hne) as (s & vs & Hsnap & Hvs & Hit).
  rewrite (is_versions_unique _ _ _ _ _ Hvs Hv) in *. clear Hvs vs.
  unfold read_intent_and_next_key. rewrite Hsnap. cbn [result_bind].
  destruct Hit as [[E Hn]|(s' & rows & -> & Hrows & Hok & Hcur & Htk & _)].
  { destruct (next_mvcc_iterator s) as [res ?]. cbn in Hn. subst res.
    destruct ks as [[ti|] cs]; [done|]. cbn in *. by subst. }
  pose proof (next_entry_take _ s' rows key Hrows Hok Hcur) as Hn.
  destruct (take_key key rows) as [|r rs] eqn:Etk.
  { destruct (next_mvcc_entry s') as [res ?]. cbn in Hn. subst res. cbn in Htk.
    destruct ks as [[ti|] cs]; [done|]. cbn in *. by subst. }
  destruct Hn as (s2 & rows' & -> & Hr & Hrows' & Hok' & Hcur' & Ers).
  injection Ers as ->. destruct Hr as (Hrk & Hrv & Hrval).
  unfold row_entry at 1. rewrite entry_version_buf by done. cbn [map] in Htk.
  destruct ks as [[ti|] cs]; cbn [ks_intent ks_committed intent_row app] in *.
  - unfold row_value at 1 in Htk. injection Htk as Hcont Hver Hcs.
    rewrite Hver, Z.eqb_refl.
    destruct Hrval as [E|[d E]]; rewrite E in Hcont; cbn in Hcont; [done|]. injection Hcont as ->.
    assert (entry_value (row_entry (sd_table_id desc) r) = Ok (Some (encode_to_vec ti))) as ->
      by (unfold entry_value; cbn [me_value row_entry]; by rewrite E).
    cbn [result_bind ok_or]. rewrite decode_encode_msg. cbn [result_bind].
    pose proof (next_entry_take _ s2 rows' key Hrows' Hok' Hcur') as Hn.
    destruct (take_key key rows') as [|r2 rs2].
    + rewrite Hn. cbn in *. by subst.
    + destruct Hn as (s3 & rows3 & -> & Hr2 & _). cbn [fst result_bind].
      rewrite row_entry_into by done. cbn. by subst.
  - subst cs. apply Forall_cons in Hc as [Hlt _]. cbn in Hlt.
    rewrite (proj2 (Z.eqb_neq _ _)) by lia. by rewrite row_entry_into.
Qed.

Lemma read_target_repr ge sid t key ks start :
  serves ge sid t → key ≠ [] → key_repr (ge_db ge) t key ks →
  read_target_intent ge start sid key = Ok (own_intent ks start).
Proof.
  intros Hs Hne [Hv Hc]. unfold read_target_intent, own_intent.
  rewrite (serves_get ge sid t key _ Hs Hne Hv). cbn [result_bind].
  destruct ks as [[ti|] cs]; cbn [ks_intent ks_committed intent_row app head] in *.
  - cbn [head v_version v_content]. rewrite Z.eqb_refl. cbn [negb ok_or result_bind].
    rewrite decode_encode_msg. cbn. by destruct (ti_start_version ti =? start).
  - destruct Hc as [|v cs Hlt _]; [done|]. cbn [head].
    by rewrite (proj2 (Z.eqb_neq _ _)) by lia.
Qed.

(** ** Running the handlers *)

(** The effect of a proposed result on the data of the group. *)
Definition apply_eval `{Codec EntryId} `{Codec GroupDesc} `{Codec MoveShardState}
    ge (er : option EvalResult) : Result (GroupEngine DB) :=
  match er ≫= er_batch with
  | None => Ok ge
  | Some data => let? wb := ok_or (decode_msg data) DecodeError in ge_commit ge wb WriteStates_default
  end.

(** The request is not for the shard being moved away. *)
Definition not_forwarded (ctx : ExecCtx) (sid : Z) : Prop :=
  match ec_move_shard_desc ctx with
  | None => True
  | Some d => ∃ sd, md_shard_desc d = Some sd ∧ sd_id sd ≠ sid
  end.

Lemma check_forward_ok ctx ge sid key : not_forwarded ctx sid → check_forward ctx ge sid key = Ok tt.
Proof.
  unfold not_forwarded, check_forward. destruct (ec_move_shard_desc ctx) as [d|]; [|done].
  intros (sd & Hsd & Hne). unfold get_shard_desc. rewrite Hsd. cbn.
  by rewrite (proj2 (Z.eqb_neq _ _)).
Qed.

Lemma check_forward_moving ctx ge sid t key vs d sd :
  ec_move_shard_desc ctx = Some d → md_shard_desc d = Some sd → sd_id sd = sid →
  serves ge sid t → key ≠ [] → is_versions (ge_db ge) t key vs →
  check_forward ctx ge sid key =
    Err (Forward (mkForwardCtx sid (md_dest_group_id d) [mkValueSet key vs])).
Proof.
  intros Hd Hsd <- Hs Hne Hv. unfold check_forward, get_shard_desc. rewrite Hd, Hsd. cbn.
  rewrite Z.eqb_refl. by rewrite (serves_get_all ge _ t key vs Hs Hne Hv).
Qed.

Definition intent_ops (key : bytes) (ti : option TxnIntent) : list vop :=
  match ti with Some ti => [VSet key TXN_INTENT_VERSION (Some (encode_to_vec ti))] | None => [] end.

Lemma conflicts_check {A} start w prev (k : unit → Result A) :
  result_bind (match prev with
               | Some v => if (start <? v_version v) && negb (is_atomic_operation w)
                           then Err TxnConflict else Ok tt
               | None => Ok tt end) k
  = if conflicts start w prev then Err TxnConflict else k tt.
Proof. unfold conflicts. destruct prev as [v|]; [|done]. by case_match. Qed.

(** [decide_intent] is the abstract write. *)
Lemma decide_intent_spec ge sid t ks start w :
  serves ge sid t → user_key w ≠ [] → foreign_intent ks start = None →
  decide_intent ge sid start w (bool_decide (is_Some (own_intent ks start))) (head (ks_committed ks)) =
    let? '(ks', out) := spec_write ks start w in
    Ok (map (vop_batch t)
          (intent_ops (user_key w) match own_intent ks start with Some _ => None | None => ks_intent ks' end), out).
Proof.
  intros Hs Hne Hfor. unfold decide_intent, spec_write. rewrite conflicts_check.
  destruct (conflicts start w _); [done|].
  destruct (own_intent ks start) as [ti|] eqn:Eown.
  { rewrite bool_decide_true by eauto. by destruct w. }
  rewrite bool_decide_false by (by intros [? ?]). cbn [negb].
  destruct w as [del|put]; cbn [write_conditions write_take_prev intent_for user_key] in *.
  - destruct (eval_conditions _ (del_conditions del)) as [[i|]|e|]; cbn [result_bind]; [done| |done..].
    by erewrite ge_put_ok by done.
  - destruct (eval_conditions _ (put_conditions put)) as [[i|]|e|]; cbn [result_bind]; [done| |done..].
    destruct (apply_put_op _ _ _) as [v|e|]; cbn [result_bind]; [|done..].
    by erewrite ge_put_ok by done.
Qed.

Lemma batch_result_apply `{Codec EntryId} `{Codec GroupDesc} `{Codec MoveShardState} ge wb :
  apply_eval ge (batch_result wb) = Ok (mkGroupEngine (write_batch (ge_db ge) wb) (ge_core ge)).
Proof.
  unfold apply_eval, batch_result. destruct wb as [|o wb]; [by destruct ge|].
  cbn [mbind option_bind er_batch EvalResult_with_batch]. rewrite decode_encode_msg. cbn [ok_or result_bind].
  apply commit_default.
Qed.

Definition intent_content (ti : TxnIntent) : option (option bytes) :=
  if ti_is_delete ti then Some None else Some <$> ti_value ti.

Lemma commit_batch_spec ge sid t key ti commit :
  serves ge sid t → key ≠ [] →
  commit_batch ge sid key ti commit = Ok (map (vop_batch t) (resolve_ops key commit (intent_content ti))).
Proof.
  intros Hs Hne. unfold commit_batch, intent_content, resolve_ops.
  rewrite (ge_delete_ok ge [] sid t) by done. cbn [result_bind app].
  destruct (ti_is_delete ti); [by rewrite (ge_tombstone_ok ge _ sid t) by done|].
  destruct (ti_value ti) as [v|]; cbn; [by rewrite (ge_put_ok ge _ sid t) by done|done].
Qed.

Lemma spec_commit_resolved ks start commit ti :
  own_intent ks start = Some ti → spec_commit ks start commit = resolved ks commit (intent_content ti).
Proof.
  intros E. unfold spec_commit, resolved, intent_content. rewrite E.
  destruct (ti_is_delete ti); [done|]. by destruct (ti_value ti).
Qed.

Lemma spec_clear_resolved ks start ti :
  own_intent ks start = Some ti → spec_clear ks start = resolved ks 0 None.
Proof. intros E. unfold spec_clear, resolved. by rewrite E. Qed.

(** Batches on one key leave the others alone and keep the engine serving. *)
Lemma serves_after ge sid t ops :
  serves ge sid t → Forall vop_ok ops →
  serves (mkGroupEngine (write_batch (ge_db ge) (map (vop_batch t) ops)) (ge_core ge)) sid t.
Proof.
  intros (Hwf & Ht & Hd) Hok. split; [by apply vops_wf|]. by split.
Qed.

Lemma key_repr_other (db : DB) t key key' ops ks :
  Forall vop_ok ops → Forall (λ o, vop_key o = key) ops → key' ≠ key → key' ≠ [] →
  key_repr db t key' ks → key_repr (write_batch db (map (vop_batch t) ops)) t key' ks.
Proof.
  intros Hok Hkey Hne Hne' [Hv Hc]. split; [|done].
  apply (vops_versions _ _ _ _ _ Hok Hne') in Hv.
  replace (fold_left (vop_apply key') ops _) with (intent_row (ks_intent ks) ++ ks_committed ks) in Hv; [done|].
  clear -Hkey Hne. generalize (intent_row (ks_intent ks) ++ ks_committed ks). intros l.
  induction Hkey as [|o ops Ho _ IH]; [done|]. cbn [fold_left]. unfold vop_apply at 2.
  rewrite bool_decide_false by congruence. done.
Qed.

End Facts.
