(* ===== verification/TxnSamples.v ===== *)
(** * Concrete transactional states

    Key states of the sample engine and latch instances that never have to
    wait, for evaluating the handlers. *)

From S2P Require Import Prelude Bytes Api Schema RocksDb Keys Engine EngineFacts EngineWrites Samples EvalTxn EvalTxnFacts.

Abbreviation sample_world := (GroupEngine (gmap bytes bytes)).
#[global] Instance idle_guard : LatchGuard sample_world unit := {
  guard_resolve_txn g ti w := (Ok None, g, w);
  guard_signal_all g s c w := w;
}.

Definition sample_put : PutRequest := mkPutRequest 0 key_a val_x 0 [mkWriteCondition 0 [] 0 0] true.
Definition sample_write_req (start : Z) : WriteIntentRequest := mkWriteIntentRequest 1 start (Some (WPut sample_put)).
Definition sample_intent : TxnIntent := TxnIntent_with_put 20 (Some val_x).
Definition locked_ops : list vop := sample_ops ++ [VSet key_a TXN_INTENT_VERSION (Some (encode_to_vec sample_intent))].
Definition free_state : key_state := mkKeyState None [mkValue (Some val_y) 9; mkValue (Some val_x) 5].
Definition locked_state : key_state := mkKeyState (Some sample_intent) (ks_committed free_state).

Lemma committed_ok_free : committed_ok (ks_committed free_state).
Proof. repeat constructor; unfold TXN_INTENT_VERSION, u64_MAX; cbn; lia. Qed.

Lemma sample_free : key_repr (ge_db (sample_engine sample_ops)) sample_table key_a free_state.
Proof.
  split; [|apply committed_ok_free].
  apply (sample_versions sample_ops key_a); [done|discriminate].
Qed.
Lemma sample_locked : key_repr (ge_db (sample_engine locked_ops)) sample_table key_a locked_state.
Proof.
  split; [|apply committed_ok_free].
  apply (sample_versions locked_ops key_a); [done|discriminate].
Qed.

(** Any store of committed versions is a well-formed world. *)
Lemma vops_committed key ops vs :
  Forall (λ o, vop_ver o < TXN_INTENT_VERSION) ops → newest_first vs → committed_ok vs →
  newest_first (fold_left (vop_apply key) ops vs) ∧ committed_ok (fold_left (vop_apply key) ops vs).
Proof.
  intros Hall. revert vs. induction Hall as [|o ops Ho _ IH]; intros vs Hs Hc; [done|].
  cbn [fold_left]. unfold vop_apply at 2 4. case_bool_decide; [|by apply IH].
  destruct o as [k v c|k v]; cbn in Ho; apply IH.
  - by apply set_version_sorted.
  - by apply committed_ok_set.
  - by apply del_version_sorted.
  - unfold committed_ok in Hc. rewrite Forall_forall in Hc. apply Forall_forall.
    intros u [? _]%del_version_elem. by apply Hc.
Qed.

(** A manager that finds every transaction it is asked about aborted. *)
#[global] Instance idle_manager : LatchManager sample_world := {
  mgr_resolve_txn w shard_id key start intent := (Ok None, w);
}.
