(* ===== verification/EvalTxnProps.v ===== *)
(** * Properties of the transactional writes *)

From S2P Require Import Prelude Bytes Rock Api Schema RocksDb Keys Engine EngineFacts EngineWrites Samples Cas EvalTxn EvalTxnFacts TxnSamples.

(** a condition of a write (other than [ExpectContains]) is accepted
    exactly when the current value satisfies what the condition's type says;
    the first failing one is reported by its position. *)
Theorem eval_conditions_meaning value conds :
  Forall (λ c, ∃ ty, WriteConditionType_from_i32 (wc_type c) = Some ty ∧ ty ≠ ExpectContains) conds →
  match eval_conditions value conds with
  | Ok None => ∀ c ty, c ∈ conds → WriteConditionType_from_i32 (wc_type c) = Some ty →
                 condition_holds c ty value
  | Ok (Some n) => ∃ c ty, conds !! Z.to_nat n = Some c ∧
                     WriteConditionType_from_i32 (wc_type c) = Some ty ∧ ¬ condition_holds c ty value ∧
                     ∀ i c' ty', (i < Z.to_nat n)%nat → conds !! i = Some c' →
                       WriteConditionType_from_i32 (wc_type c') = Some ty' → condition_holds c' ty' value
  | _ => False
  end.
Proof.
  rewrite Forall_forall. intros Hty. unfold eval_conditions.
  assert (Hok : ∀ c ty, c ∈ conds → eval_condition c value = Ok true →
    WriteConditionType_from_i32 (wc_type c) = Some ty → condition_holds c ty value).
  { intros c ty Hc He Ht. destruct (Hty c Hc) as (ty' & Ht' & Hne).
    rewrite Ht in Ht'. injection Ht' as <-. by apply (eval_condition_spec c ty value true). }
  pose proof (eval_conditions_from_spec 0 value conds) as Hs.
  destruct (eval_conditions_from 0 value conds) as [[n|]|e|]; [| | |done].
  - destruct Hs as (pre & c & post & -> & -> & Hpre & Hc).
    replace (Z.to_nat (0 + Z.of_nat (length pre))) with (length pre) by lia.
    assert (c ∈ pre ++ c :: post) as Hin by (apply elem_of_app; right; left).
    destruct (Hty c Hin) as (ty & Ht & Hne).
    exists c, ty. split; [by rewrite list_lookup_middle|]. split; [done|]. split.
    + intros Hh. by apply (eval_condition_spec c ty value false Ht Hne Hc) in Hh.
    + intros i c' ty' Hi Hl Ht'. rewrite lookup_app_l in Hl by done.
      rewrite Forall_forall in Hpre. apply list_elem_of_lookup_2 in Hl.
      apply Hok; [apply elem_of_app; by left|by apply Hpre|done].
  - rewrite Forall_forall in Hs. intros c ty Hc Ht. apply Hok; auto.
  - destruct Hs as (_ & c & Hc & Ht). destruct (Hty c Hc) as (ty & Ht' & _). congruence.
Qed.

Lemma eval_conditions_meaning_witness :
  eval_conditions (Some (mkValue (Some val_x) 5))
    [mkWriteCondition 0 [] 0 0; mkWriteCondition 3 [] 4 0] = Ok (Some 1) ∧
  ∃ c ty, WriteConditionType_from_i32 (wc_type c) = Some ty ∧
    ¬ condition_holds c ty (Some (mkValue (Some val_x) 5)).
Proof.
  split; [reflexivity|].
  destruct (eval_conditions_meaning (Some (mkValue (Some val_x) 5))
    [mkWriteCondition 0 [] 0 0; mkWriteCondition 3 [] 4 0]) as (c & ty & _ & ? & ? & _).
  - repeat constructor; by eexists.
  - by exists c, ty.
Defined.

(** [ExpectContains] is accepted by the protocol but never evaluated: it
    holds for every existing value. *)
Theorem expect_contains_always_true c v :
  WriteConditionType_from_i32 (wc_type c) = Some ExpectContains →
  eval_condition c (Some v) = Ok true.
Proof. intros H. unfold eval_condition. by rewrite H. Qed.

Lemma expect_contains_always_true_witness :
  eval_condition (mkWriteCondition 11 val_y 0 0) (Some (mkValue (Some val_x) 5)) = Ok true ∧
  ¬ condition_holds (mkWriteCondition 11 val_y 0 0) ExpectContains (Some (mkValue (Some val_x) 5)).
Proof.
  split; [by apply expect_contains_always_true|].
  intros (c & front & rest & [= <-] & E). destruct front as [|? [|]]; discriminate E.
Defined.

(** C17: [AddI64] on every input: the sum in 64-bit wrapping arithmetic of the
    operand and the current content, or of the operand and 0 when the key has no
    content; an operand or a content that is not 8 bytes is refused with an error
    that names which of the two it was (the operand first), and what is stored is
    always 8 bytes that decode to an [i64]. *)
Theorem add_i64_put prev value :
  (∀ a b, i64_ok a → i64_ok b → prev ≫= v_content = Some (i64_to_be_bytes a) → value = i64_to_be_bytes b →
    apply_put_op AddI64 prev value = Ok (Some (i64_to_be_bytes (i64_wrap (a + b))))) ∧
  (∀ b, i64_ok b → prev ≫= v_content = None → value = i64_to_be_bytes b →
    apply_put_op AddI64 prev value = Ok (Some (i64_to_be_bytes b))) ∧
  (length value ≠ 8%nat → apply_put_op AddI64 prev value = Err (InvalidArgument "input value is not a valid i64")) ∧
  (∀ content, prev ≫= v_content = Some content → length value = 8%nat → length content ≠ 8%nat →
    apply_put_op AddI64 prev value = Err (InvalidArgument "the exists value is not a valid i64")) ∧
  (∀ out, apply_put_op AddI64 prev value = Ok out → ∃ z, out = Some (i64_to_be_bytes z) ∧ i64_ok z).
Proof.
  assert (Hbad : ∀ b : bytes, length b ≠ 8%nat → decode_i64 b = None).
  { intros b Hb. unfold decode_i64, decode_signed, decode_unsigned. by rewrite (proj2 (Nat.eqb_neq _ _)). }
  unfold apply_put_op. split_and!.
  - intros a b Ha Hb -> ->. rewrite !i64_decode_encode by done. done.
  - intros b Hb -> ->. rewrite i64_decode_encode by done. cbn [ok_or result_bind]. by rewrite Z.add_0_l, i64_wrap_small.
  - intros Hl. by rewrite Hbad.
  - intros content -> Hl Hc. rewrite (Hbad content) by done. unfold decode_i64, decode_signed, decode_unsigned. by rewrite Hl.
  - intros out (delta & _ & (former & _ & [= <-])%result_bind_ok)%result_bind_ok. eexists. split; [done|].
    unfold i64_ok, i64_wrap. pose proof (Z.mod_pos_bound (former + delta + 2 ^ 63) (2 ^ 64)). lia.
Qed.

Lemma add_i64_put_witness :
  apply_put_op AddI64 (Some (mkValue (Some (i64_to_be_bytes (2 ^ 63 - 1))) 3)) (i64_to_be_bytes 1)
    = Ok (Some (i64_to_be_bytes (- 2 ^ 63))) ∧
  apply_put_op AddI64 (Some (mkValue (Some val_x) 3)) (i64_to_be_bytes 1)
    = Err (InvalidArgument "the exists value is not a valid i64").
Proof.
  destruct (add_i64_put (Some (mkValue (Some (i64_to_be_bytes (2 ^ 63 - 1))) 3)) (i64_to_be_bytes 1)) as (E & _).
  destruct (add_i64_put (Some (mkValue (Some val_x) 3)) (i64_to_be_bytes 1)) as (_ & _ & _ & F & _).
  split; [apply (E (2 ^ 63 - 1) 1); [unfold i64_ok; lia|unfold i64_ok; lia|reflexivity|reflexivity]|].
  apply (F val_x); [reflexivity|reflexivity|discriminate].
Defined.

Section Handlers.
  Context {DB : Type} `{RocksDbOk DB} `{CodecOk TxnIntent} `{CodecOk WriteBatch}.
  Context `{CodecOk EntryId} `{CodecOk GroupDesc} `{CodecOk MoveShardState}.
  Context {W G : Type} `{LatchGuard W G} (engine : W → GroupEngine DB).

(** The rows of every key of the shard represent some key state. *)
Definition world_ok (sid t : Z) (w : W) : Prop :=
  serves (engine w) sid t ∧ ∀ key, key ≠ [] → ∃ ks, key_repr (ge_db (engine w)) t key ks.
(** Resolving a transaction keeps the world in that shape. *)
Definition resolver_ok (sid t : Z) : Prop :=
  ∀ g ti w r g' w', world_ok sid t w → guard_resolve_txn g ti w = (r, g', w') → world_ok sid t w'.

(** What it means that a handler's result changed [key] from [ks] to [ks'] and nothing else. *)
Definition key_effect (ge : GroupEngine DB) (t : Z) (key : bytes) (er : option EvalResult) (ks' : key_state) : Prop :=
  ∃ ge', apply_eval ge er = Ok ge' ∧ key_repr (ge_db ge') t key ks' ∧
    ge_core ge' = ge_core ge ∧ db_wf (ge_db ge') ∧
    ∀ key' ks, key' ≠ key → key' ≠ [] → key_repr (ge_db ge) t key' ks → key_repr (ge_db ge') t key' ks.

Lemma key_effect_ops ge sid t key ops ks' :
  serves ge sid t → Forall vop_ok ops → Forall (λ o, vop_key o = key) ops →
  key_repr (write_batch (ge_db ge) (map (vop_batch t) ops)) t key ks' →
  key_effect ge t key (batch_result (map (vop_batch t) ops)) ks'.
Proof.
  intros Hs Hok Hkey Hr. exists (mkGroupEngine (write_batch (ge_db ge) (map (vop_batch t) ops)) (ge_core ge)).
  split; [apply batch_result_apply|]. split; [done|]. split; [done|].
  split; [by apply (serves_after ge sid t ops)|]. intros key' ks Hne Hne' Hk. by eapply key_repr_other.
Qed.

Lemma resolve_ops_ok key commit c : key ≠ [] → u64_ok commit → Forall vop_ok (resolve_ops key commit c).
Proof.
  intros. unfold resolve_ops. destruct c; repeat (constructor; try done; auto with sekas).
Qed.
Lemma resolve_ops_key key commit c : Forall (λ o, vop_key o = key) (resolve_ops key commit c).
Proof. unfold resolve_ops. destruct c; repeat constructor. Qed.

(** One round, when the key is free or already ours. *)
Lemma read_first_free n start sid t key ks d w :
  serves (engine w) sid t → key ≠ [] → key_repr (ge_db (engine w)) t key ks →
  foreign_intent ks start = None →
  read_first_non_intent_key engine (S n) start sid key (d, w) =
    Some (Ok (bool_decide (is_Some (own_intent ks start)), head (ks_committed ks)), (d, w)).
Proof.
  intros Hs Hne Hr Hf. cbn [read_first_non_intent_key]. unfold prog_bind, with_engine, prog_reads. cbn [snd].
  rewrite (read_intent_repr (engine w) sid t key ks) by done.
  unfold foreign_intent, own_intent in *. destruct (ks_intent ks) as [ti|]; [|done].
  by destruct (ti_start_version ti =? start).
Qed.

(** Whenever the loop returns, the key is free of foreign intents. *)
Lemma read_first_sound n start sid t key d w skip prev d' w' :
  resolver_ok sid t → key ≠ [] → world_ok sid t w →
  read_first_non_intent_key engine n start sid key (d, w) = Some (Ok (skip, prev), (d', w')) →
  world_ok sid t w' ∧ ∃ ks, key_repr (ge_db (engine w')) t key ks ∧ foreign_intent ks start = None ∧
    skip = bool_decide (is_Some (own_intent ks start)) ∧ prev = head (ks_committed ks).
Proof.
  intros Hres Hne. revert d w. induction n as [|n IH]; intros d w Hw; [done|].
  pose proof Hw as [Hs Hk]. destruct (Hk key Hne) as [ks Hr].
  destruct (foreign_intent ks start) as [ti|] eqn:Ef.
  2: { rewrite (read_first_free n start sid t key ks) by done. intros [= <- <- <- <-]. eauto 10. }
  cbn [read_first_non_intent_key]. unfold prog_bind at 1, with_engine, prog_reads. cbn [snd].
  rewrite (read_intent_repr (engine w) sid t key ks) by done.
  unfold foreign_intent in Ef. destruct (ks_intent ks) as [ti'|]; [|done].
  destruct (ti_start_version ti' =? start); [done|]. injection Ef as ->.
  unfold prog_bind, defer_resolve_txn. destruct (dl_latches d !! _) as [g|]; [|done].
  destruct (guard_resolve_txn g ti w) as [[r g'] w1] eqn:Eg.
  destruct r as [v|e|]; [|done..]. apply IH. by eapply Hres.
Qed.

Lemma write_intent_effect ge sid t ks ks' start write out :
  serves ge sid t → user_key write ≠ [] → key_repr (ge_db ge) t (user_key write) ks →
  foreign_intent ks start = None → spec_write ks start write = Ok (ks', out) →
  key_effect ge t (user_key write)
    (batch_result (map (vop_batch t) (intent_ops (user_key write)
       match own_intent ks start with Some _ => None | None => ks_intent ks' end))) ks'.
Proof.
  intros Hs Hne Hr Hf Hw. unfold spec_write in Hw.
  destruct (conflicts _ _ _); [done|]. apply (key_effect_ops ge sid); [done|..].
  - destruct (own_intent ks start); [constructor|].
    destruct (ks_intent ks'); repeat (constructor; try done; auto with sekas).
  - destruct (own_intent ks start); [constructor|]. destruct (ks_intent ks'); repeat constructor.
  - destruct (own_intent ks start) as [ti|] eqn:Eo; [by injection Hw as <- _|].
    apply result_bind_ok in Hw as (failed & _ & Hw). destruct failed; [done|].
    apply result_bind_ok in Hw as (ti & _ & [= <- _]).
    apply key_repr_put_intent; [done..|]. unfold foreign_intent, own_intent in *.
    destruct (ks_intent ks) as [ti'|]; [|done]. by destruct (ti_start_version ti' =? start).
Qed.

Lemma write_intent_run n ctx req write t ks d w :
  wi_write req = Some write → user_key write ≠ [] →
  not_forwarded ctx (wi_shard_id req) → serves (engine w) (wi_shard_id req) t →
  key_repr (ge_db (engine w)) t (user_key write) ks →
  foreign_intent ks (wi_start_version req) = None →
  write_intent engine (S n) ctx req (d, w) =
    Some (let? '(ks', out) := spec_write ks (wi_start_version req) write in
          Ok (batch_result (map (vop_batch t) (intent_ops (user_key write)
                match own_intent ks (wi_start_version req) with Some _ => None | None => ks_intent ks' end)),
              mkWriteIntentResponse (Some (mkWriteResponse out))), (d, w)).
Proof.
  intros Hw Hne Hnf Hs Hr Hf. unfold write_intent. rewrite Hw. cbn [ok_or].
  unfold prog_bind at 1, prog_lift at 1. cbv iota beta.
  unfold prog_bind at 1, with_engine at 1, prog_reads at 1. cbn [snd].
  rewrite check_forward_ok by done. cbv iota beta.
  unfold prog_bind at 1. rewrite (read_first_free n _ _ t _ ks) by done. cbv iota beta.
  unfold prog_bind, with_engine, prog_reads. cbn [snd].
  rewrite (decide_intent_spec (engine w) _ t ks) by done.
  by destruct (spec_write ks (wi_start_version req) write) as [[ks' out]|e|].
Qed.

(** C2: [write_intent] on a key that no other transaction holds terminates in
    one round and refines the abstract write: conflict with a newer committed
    version, failed condition and bad operand are reported as such without
    any effect, a repeated request has no second effect, and otherwise the key
    gets exactly the transaction's intent while every other key is untouched. *)
Theorem write_intent_refines n ctx req write sid t ks d w :
  wi_write req = Some write → wi_shard_id req = sid → user_key write ≠ [] →
  not_forwarded ctx sid → serves (engine w) sid t →
  key_repr (ge_db (engine w)) t (user_key write) ks →
  foreign_intent ks (wi_start_version req) = None →
  ∃ r, write_intent engine (S n) ctx req (d, w) = Some (r, (d, w)) ∧
    match spec_write ks (wi_start_version req) write with
    | Ok (ks', out) =>
        ∃ er, r = Ok (er, mkWriteIntentResponse (Some (mkWriteResponse out))) ∧
              key_effect (engine w) t (user_key write) er ks'
    | Err e => r = Err e
    | Panic => r = Panic
    end.
Proof.
  intros Hw <- Hne Hnf Hs Hr Hf. eexists. split; [by eapply write_intent_run|].
  destruct (spec_write ks (wi_start_version req) write) as [[ks' out]|e|] eqn:Esp; cbn [result_bind]; [|done..].
  eexists. split; [reflexivity|]. by eapply write_intent_effect.
Qed.

(** However many other transactions have to be resolved on the way, a
    [write_intent] that succeeds has written against a key state without a
    foreign intent: no transaction's lock is ever overwritten and no newer
    committed version is missed. *)
Theorem write_intent_never_steals_lock n ctx req write sid t d w er resp d' w' :
  wi_write req = Some write → wi_shard_id req = sid → user_key write ≠ [] →
  not_forwarded ctx sid → resolver_ok sid t → world_ok sid t w →
  write_intent engine n ctx req (d, w) = Some (Ok (er, resp), (d', w')) →
  ∃ ks ks' out, key_repr (ge_db (engine w')) t (user_key write) ks ∧
    foreign_intent ks (wi_start_version req) = None ∧
    spec_write ks (wi_start_version req) write = Ok (ks', out) ∧
    resp = mkWriteIntentResponse (Some (mkWriteResponse out)) ∧
    key_effect (engine w') t (user_key write) er ks'.
Proof.
  intros Hw <- Hne Hnf Hres Hwok. unfold write_intent. rewrite Hw. cbn [ok_or].
  unfold prog_bind at 1, prog_lift at 1. cbv iota beta.
  unfold prog_bind at 1, with_engine at 1, prog_reads at 1. cbn [snd].
  rewrite check_forward_ok by done. cbv iota beta. unfold prog_bind at 1.
  destruct (read_first_non_intent_key _ _ _ _ _ _) as [[r [d1 w1]]|] eqn:E; [|done].
  destruct r as [[skip prev]|e|]; [|done..].
  destruct (read_first_sound _ _ _ t _ _ _ _ _ _ _ Hres Hne Hwok E)
    as ([Hs _] & ks & Hr & Hf & -> & ->).
  unfold prog_bind, with_engine, prog_reads. cbn [snd].
  rewrite (decide_intent_spec (engine w1) _ t ks) by done.
  destruct (spec_write ks (wi_start_version req) write) as [[ks' out]|e|] eqn:Esp; cbn [result_bind]; [|done..].
  cbn. intros [= <- <- <- <-]. exists ks, ks', out. repeat (split; [done|]).
  by eapply write_intent_effect.
Qed.

Lemma key_effect_none ge sid t key ks : serves ge sid t → key_repr (ge_db ge) t key ks → key_effect ge t key None ks.
Proof. intros [Hwf _] Hr. exists ge. split; [done|]. by repeat (split; [done|]). Qed.

(** C3: [commit_intent] turns the transaction's intent into a version with
    the commit timestamp (a tombstone for a delete, nothing for a no-op) in one
    batch, wakes the waiters, and does nothing at all when the transaction has
    no intent on the key, so a repeated commit is harmless. *)
Theorem commit_intent_refines ctx req sid t ks (d : DeferSignalLatchGuard G) w :
  ci_shard_id req = sid → ci_user_key req ≠ [] → not_forwarded ctx sid →
  u64_ok (ci_commit_version req) → ci_commit_version req < TXN_INTENT_VERSION →
  serves (engine w) sid t → key_repr (ge_db (engine w)) t (ci_user_key req) ks →
  ∃ er d', commit_intent engine ctx req (d, w) = Some (Ok er, (d', w)) ∧
    key_effect (engine w) t (ci_user_key req) er (spec_commit ks (ci_start_version req) (ci_commit_version req)) ∧
    match own_intent ks (ci_start_version req) with
    | Some _ => d' = mkDefer (Some (Committed, Some (ci_commit_version req))) (dl_latches d)
    | None => er = None ∧ d' = d
    end.
Proof.
  intros <- Hne Hnf Hu Hlt Hs Hr. unfold commit_intent.
  unfold prog_bind at 1, with_engine at 1, prog_reads at 1. cbn [snd].
  rewrite check_forward_ok by done. cbv iota beta.
  unfold prog_bind at 1, with_engine at 1, prog_reads at 1. cbn [snd].
  rewrite (read_target_repr (engine w) _ t _ ks) by done. cbv iota beta.
  destruct (own_intent ks _) as [ti|] eqn:Eo.
  2: { exists None, d. split; [done|]. split; [|done].
       unfold spec_commit. rewrite Eo. by eapply key_effect_none. }
  unfold prog_bind, with_engine, prog_reads. cbn [snd].
  rewrite (commit_batch_spec (engine w) _ t) by done. cbn [defer_signal_all].
  eexists _, _. split; [reflexivity|]. split; [|done].
  rewrite (spec_commit_resolved ks _ _ ti) by done.
  apply (key_effect_ops _ (ci_shard_id req)); [done|by apply resolve_ops_ok|apply resolve_ops_key|].
  by apply key_repr_resolve.
Qed.

(** [clear_intent] removes the transaction's own intent, and only that:
    the committed versions stay, and a foreign intent or a free key is left
    alone. *)
Theorem clear_intent_refines ctx req sid t ks (d : DeferSignalLatchGuard G) w :
  cl_shard_id req = sid → cl_user_key req ≠ [] → not_forwarded ctx sid →
  serves (engine w) sid t → key_repr (ge_db (engine w)) t (cl_user_key req) ks →
  ∃ er d', clear_intent engine ctx req (d, w) = Some (Ok er, (d', w)) ∧
    key_effect (engine w) t (cl_user_key req) er (spec_clear ks (cl_start_version req)) ∧
    match own_intent ks (cl_start_version req) with
    | Some _ => d' = mkDefer (Some (Aborted, None)) (dl_latches d)
    | None => er = None ∧ d' = d
    end.
Proof.
  intros <- Hne Hnf Hs Hr. unfold clear_intent.
  unfold prog_bind at 1, with_engine at 1, prog_reads at 1. cbn [snd].
  rewrite check_forward_ok by done. cbv iota beta.
  unfold prog_bind at 1, with_engine at 1, prog_reads at 1. cbn [snd].
  rewrite (read_target_repr (engine w) _ t _ ks) by done. cbv iota beta.
  destruct (own_intent ks _) as [ti|] eqn:Eo.
  2: { exists None, d. split; [done|]. split; [|done].
       unfold spec_clear. rewrite Eo. by eapply key_effect_none. }
  unfold prog_bind, with_engine, prog_reads. cbn [snd].
  rewrite (ge_delete_ok (engine w) [] _ t) by done. cbn [defer_signal_all app].
  eexists _, _. split; [reflexivity|]. split; [|done].
  rewrite (spec_clear_resolved ks _ ti) by done.
  assert (u64_ok 0) by (unfold u64_ok, u64_MAX; lia).
  apply (key_effect_ops _ (cl_shard_id req) _ _ (resolve_ops (cl_user_key req) 0 None));
    [done|by apply resolve_ops_ok|apply resolve_ops_key|].
  apply key_repr_resolve; [done..| |done]. unfold TXN_INTENT_VERSION, u64_MAX. lia.
Qed.

(** C16: while a shard is being moved away, the three handlers change nothing
    and hand the request on to the destination group together with every
    stored version of the key. *)
Theorem moving_shard_forwards n ctx md sd sid t key vs wreq write creq lreq (d : DeferSignalLatchGuard G) w :
  ec_move_shard_desc ctx = Some md → md_shard_desc md = Some sd → sd_id sd = sid →
  serves (engine w) sid t → key ≠ [] → is_versions (ge_db (engine w)) t key vs →
  wi_write wreq = Some write → user_key write = key → wi_shard_id wreq = sid →
  ci_user_key creq = key → ci_shard_id creq = sid →
  cl_user_key lreq = key → cl_shard_id lreq = sid →
  let fwd := Forward (mkForwardCtx sid (md_dest_group_id md) [mkValueSet key vs]) in
  write_intent engine n ctx wreq (d, w) = Some (Err fwd, (d, w)) ∧
  commit_intent engine ctx creq (d, w) = Some (Err fwd, (d, w)) ∧
  clear_intent engine ctx lreq (d, w) = Some (Err fwd, (d, w)).
Proof.
  intros Hmd Hsd Hid Hs Hne Hv Hw Hwk Hws Hck Hcs Hlk Hls fwd.
  pose proof (check_forward_moving ctx (engine w) sid t key vs md sd Hmd Hsd Hid Hs Hne Hv) as Hc.
  unfold write_intent, commit_intent, clear_intent. rewrite Hw, Hws, Hck, Hcs, Hlk, Hls.
  unfold prog_bind, prog_lift, with_engine, prog_reads. cbn [ok_or snd].
  rewrite Hwk, Hc. done.
Qed.

End Handlers.

(** ** Isolation of the transactions on a key *)

(** The life of a key under the abstract transitions, with the history of
    the commits that stored a version, newest first, as (start, commit). *)
Inductive key_run : key_state → list (Z * Z) → Prop :=
  | run_init : key_run (mkKeyState None []) []
  | run_write ks ks' hist start w out :
      key_run ks hist → foreign_intent ks start = None → is_atomic_operation w = false →
      spec_write ks start w = Ok (ks', out) → key_run ks' hist
  | run_commit ks hist start commit ti c :
      key_run ks hist → own_intent ks start = Some ti → start < commit →
      intent_content ti = Some c → key_run (spec_commit ks start commit) ((start, commit) :: hist)
  | run_commit_nop ks hist start commit ti :
      key_run ks hist → own_intent ks start = Some ti →
      intent_content ti = None → key_run (spec_commit ks start commit) hist
  | run_clear ks hist start :
      key_run ks hist → key_run (spec_clear ks start) hist.

Lemma own_intent_some ks start ti :
  own_intent ks start = Some ti → ks_intent ks = Some ti ∧ ti_start_version ti = start.
Proof.
  unfold own_intent. destruct (ks_intent ks) as [ti'|]; [|done].
  destruct (Z.eqb_spec (ti_start_version ti') start); [|done]. by intros [= ->].
Qed.

Lemma intent_for_start start w prev ti : intent_for start w prev = Ok ti → ti_start_version ti = start.
Proof.
  destruct w; cbn; [by intros [= <-]|]. by intros (v & _ & [= <-])%result_bind_ok.
Qed.

Lemma set_version_top commit c (vs : list Value) :
  (∀ v, head vs = Some v → v_version v < commit) → set_version commit c vs = mkValue c commit :: vs.
Proof.
  intros Hlt. destruct vs as [|v vs]; cbn; [done|]. rewrite (proj2 (Z.ltb_lt _ _)); [done|]. by apply Hlt.
Qed.

(** The intent's start version is not below the newest committed version. *)
Definition run_inv (ks : key_state) (hist : list (Z * Z)) : Prop :=
  map v_version (ks_committed ks) = map snd hist ∧
  Forall (λ p, p.1 < p.2) hist ∧
  StronglySorted (λ newer older, older.2 ≤ newer.1) hist ∧
  ∀ ti, ks_intent ks = Some ti → Forall (λ p, p.2 ≤ ti_start_version ti) hist.

Lemma hist_bound (hist : list (Z * Z)) x :
  Forall (λ p, p.1 < p.2) hist → StronglySorted (λ newer older, older.2 ≤ newer.1) hist →
  (∀ p, head hist = Some p → p.2 ≤ x) → Forall (λ p, p.2 ≤ x) hist.
Proof.
  intros Hlt Hs Hhd. destruct Hs as [|p hist Hs Hf]; [constructor|].
  specialize (Hhd p eq_refl). constructor; [done|]. apply Forall_cons in Hlt as [Hp _].
  eapply Forall_impl; [done|]. cbn. lia.
Qed.

Lemma key_run_inv ks hist : key_run ks hist → run_inv ks hist.
Proof.
  induction 1 as [|ks ks' hist start w out _ IH Hf Hat Hw|ks hist start commit ti c _ IH Ho Hlt Hc
                 |ks hist start commit ti _ IH Ho Hc|ks hist start _ IH].
  - split; [done|]. split; [constructor|]. split; [constructor|done].
  - destruct IH as (Hm & Hlt & Hs & Hi). unfold spec_write in Hw.
    destruct (conflicts start w _) eqn:Ec; [done|].
    destruct (own_intent ks start); [injection Hw as <- _; by split_and!|].
    apply result_bind_ok in Hw as ([?|] & _ & Hw); [done|].
    apply result_bind_ok in Hw as (ti & Hti & [= <- _]). apply intent_for_start in Hti.
    split; [done|]. split; [done|]. split; [done|]. cbn. intros ti' [= <-].
    apply hist_bound; [done..|]. intros p Hp. unfold conflicts in Ec.
    destruct hist as [|p' hist]; [done|]. cbn in Hp. injection Hp as ->.
    destruct (ks_committed ks) as [|v vs]; [done|]. cbn in Hm, Ec. rewrite Hat, andb_true_r in Ec.
    to_prop. injection Hm as <- _. lia.
  - destruct IH as (Hm & Hlts & Hs & Hi). apply own_intent_some in Ho as Hos.
    destruct Hos as [Hks Hst]. specialize (Hi ti Hks). rewrite Hst in Hi.
    rewrite (spec_commit_resolved ks start commit ti Ho), Hc. unfold run_inv. cbn [resolved ks_committed ks_intent].
    assert (set_version commit c (ks_committed ks) = mkValue c commit :: ks_committed ks) as ->.
    { apply set_version_top. intros v Hv. destruct (ks_committed ks) as [|v' vs]; [done|].
      cbn in Hv. injection Hv as ->. destruct hist as [|p hist]; [done|]. cbn in Hm. injection Hm as Hp _.
      apply Forall_cons in Hi as [? _]. lia. }
    split; [cbn; by f_equal|]. split; [by constructor|]. split; [by constructor|done].
  - destruct IH as (Hm & Hlts & Hs & _). rewrite (spec_commit_resolved ks start commit ti Ho), Hc. by split_and!.
  - unfold spec_clear. destruct (own_intent ks start); [|done].
    destruct IH as (Hm & Hlts & Hs & _). by split_and!.
Qed.

Lemma key_run_isolated ks hist :
  key_run ks hist →
  StronglySorted (λ newer older, older.2 ≤ newer.1) hist ∧
  map v_version (ks_committed ks) = map snd hist ∧
  StronglySorted (λ a b, v_version b < v_version a) (ks_committed ks).
Proof.
  intros (Hm & Hlt & Hs & _)%key_run_inv. split; [done|]. split; [done|].
  revert Hm Hlt. generalize (ks_committed ks) as vs. induction Hs as [|p hist Hs IH Hf]; intros vs Hm Hlt.
  { apply map_eq_nil in Hm as ->. constructor. }
  destruct vs as [|v vs]; [done|]. cbn in Hm. injection Hm as Hv Hm. apply Forall_cons in Hlt as [Hp Hlt].
  constructor; [by apply IH|]. apply Forall_forall. intros u Hu.
  assert (v_version u ∈ map snd hist) as (q & Eq & Hq)%list_elem_of_fmap.
  { rewrite <- Hm. by apply list_elem_of_fmap_2. }
  rewrite Forall_forall in Hf. specialize (Hf q Hq). cbn in Hf. rewrite Eq, Hv. lia.
Qed.

(** *** The handlers on a key *)
Section Isolation.
  Context {DB : Type} `{RocksDbOk DB} `{CodecOk TxnIntent} `{CodecOk WriteBatch}.
  Context `{CodecOk EntryId} `{CodecOk GroupDesc} `{CodecOk MoveShardState}.
  Context {W G : Type} `{LatchGuard W G} (engine : W → GroupEngine DB).
  Context (sid t : Z) (key : bytes) (Hne : key ≠ []).

(** When the loop returns, the last thing it did was to find the key free of
    foreign intents, whatever was resolved before. *)
Lemma read_first_last n start d w skip prev d' w' :
  read_first_non_intent_key engine n start sid key (d, w) = Some (Ok (skip, prev), (d', w')) →
  ∃ intent, read_intent_and_next_key (engine w') sid key = Ok (intent, prev) ∧
    match intent with
    | None => skip = false
    | Some ti => ti_start_version ti = start ∧ skip = true
    end.
Proof.
  revert d w. induction n as [|n IH]; intros d w; [done|].
  cbn [read_first_non_intent_key]. unfold prog_bind at 1, with_engine, prog_reads. cbn [snd].
  destruct (read_intent_and_next_key (engine w) sid key) as [[[ti|] pv]|e|] eqn:Er; [| |done..].
  - destruct (ti_start_version ti =? start) eqn:Es.
    + intros [= <- <- <- <-]. to_prop. by exists (Some ti).
    + unfold prog_bind. destruct (defer_resolve_txn sid key ti (d, w)) as [[[u|e|] [d1 w1]]|]; [|done..]. apply IH.
  - intros [= <- <- <- <-]. by exists None.
Qed.

(** The result of a [write_intent] that succeeds is the abstract write on the
    state in which it was decided. *)
Lemma write_intent_decided n ctx req write ks d w er resp d' w' :
  wi_write req = Some write → wi_shard_id req = sid → user_key write = key →
  write_intent engine n ctx req (d, w) = Some (Ok (er, resp), (d', w')) →
  serves (engine w') sid t → key_repr (ge_db (engine w')) t key ks →
  foreign_intent ks (wi_start_version req) = None ∧
  ∃ ks' out, spec_write ks (wi_start_version req) write = Ok (ks', out) ∧ key_effect (engine w') t key er ks'.
Proof.
  intros Hw Hsid Hk. unfold write_intent. rewrite Hw. cbn [ok_or].
  unfold prog_bind at 1, prog_lift at 1. cbv iota beta zeta. rewrite Hk, Hsid.
  unfold prog_bind at 1, with_engine at 1, prog_reads at 1. cbn [snd].
  destruct (check_forward _ _ _ _); [|done..]. unfold prog_bind at 1.
  destruct (read_first_non_intent_key _ _ _ _ _ _) as [[[[skip prev]|e|] [d1 w1]]|] eqn:E; [|done..].
  unfold prog_bind, with_engine, prog_reads. cbn [snd].
  destruct (decide_intent _ _ _ _ _ _) as [[wb pv]|e|] eqn:Ed; [|done..].
  intros [= <- <- <- <-] Hs Hr.
  apply read_first_last in E as (intent & Hread & Hi).
  rewrite (read_intent_repr (engine w1) _ t key ks) in Hread by done. injection Hread as <- <-.
  assert (Hf : foreign_intent ks (wi_start_version req) = None ∧ skip = bool_decide (is_Some (own_intent ks (wi_start_version req)))).
  { unfold foreign_intent, own_intent. destruct (ks_intent ks) as [ti|]; [|by subst].
    destruct Hi as [-> ->]. by rewrite Z.eqb_refl. }
  destruct Hf as [Hf ->]. split; [done|].
  rewrite (decide_intent_spec (engine w1) _ t ks) in Ed by (by rewrite ?Hk).
  destruct (spec_write ks (wi_start_version req) write) as [[ks' out]|e|] eqn:Esp; [|done..]. injection Ed as <- <-.
  exists ks', out. split; [done|]. rewrite <- Hk. eapply write_intent_effect; by rewrite ?Hk.
Qed.

(** The life of a key under the handlers of the group, with the history of the
    commits that stored a version, newest first, as (start, commit).  A handler
    decides in some world and its result is applied to the engine of that world
    (the latch of the row is held in between); what happens to other keys and to
    the shard leaves the rows of the key alone.  Commit versions are allocated
    after the transaction started. *)
Definition stores (ge : GroupEngine DB) (start : Z) : bool :=
  match read_target_intent ge start sid key with
  | Ok (Some ti) => bool_decide (is_Some (intent_content ti))
  | _ => false
  end.
Inductive handler_run : GroupEngine DB → list (Z * Z) → Prop :=
  | hr_init ge : serves ge sid t → is_versions (ge_db ge) t key [] → handler_run ge []
  | hr_other ge ge' hist :
      handler_run ge hist → serves ge' sid t →
      (∀ rows, is_versions (ge_db ge) t key rows → is_versions (ge_db ge') t key rows) → handler_run ge' hist
  | hr_write n ctx req write d w er resp d' w' ge' hist :
      handler_run (engine w') hist →
      wi_write req = Some write → wi_shard_id req = sid → user_key write = key → is_atomic_operation write = false →
      write_intent engine n ctx req (d, w) = Some (Ok (er, resp), (d', w')) →
      apply_eval (engine w') er = Ok ge' → handler_run ge' hist
  | hr_commit ctx req (d : DeferSignalLatchGuard G) w er d' w' ge' hist :
      handler_run (engine w) hist →
      ci_shard_id req = sid → ci_user_key req = key → not_forwarded ctx sid →
      ci_start_version req < ci_commit_version req → u64_ok (ci_commit_version req) →
      ci_commit_version req < TXN_INTENT_VERSION →
      commit_intent engine ctx req (d, w) = Some (Ok er, (d', w')) → apply_eval (engine w) er = Ok ge' →
      handler_run ge'
        (if stores (engine w) (ci_start_version req) then (ci_start_version req, ci_commit_version req) :: hist else hist)
  | hr_clear ctx req (d : DeferSignalLatchGuard G) w er d' w' ge' hist :
      handler_run (engine w) hist →
      cl_shard_id req = sid → cl_user_key req = key → not_forwarded ctx sid →
      clear_intent engine ctx req (d, w) = Some (Ok er, (d', w')) → apply_eval (engine w) er = Ok ge' →
      handler_run ge' hist.

Lemma key_effect_applied ge er ks' ge' :
  serves ge sid t → key_effect ge t key er ks' → apply_eval ge er = Ok ge' → serves ge' sid t ∧ key_repr (ge_db ge') t key ks'.
Proof.
  intros (Hwf & Ht & Hd) (ge1 & Ha & Hr & Hc & Hwf' & _) Ha'. rewrite Ha in Ha'. injection Ha' as <-.
  split; [|done]. split; [done|]. split; [done|]. unfold ge_shard_desc in *. by rewrite Hc.
Qed.

(** The handlers walk through the abstract life of the key. *)
Lemma handler_run_key ge hist :
  handler_run ge hist → serves ge sid t ∧ ∃ ks, key_repr (ge_db ge) t key ks ∧ key_run ks hist.
Proof.
  induction 1 as [ge Hs Hv|ge ge' hist _ IH Hs Hv|n ctx req write d w er resp d' w' ge' hist _ IH Hw Hsid Hk Hat Hrun Ha
    |ctx req d w er d' w' ge' hist _ IH Hsid Hk Hnf Hlt Hu Hmax Hrun Ha|ctx req d w er d' w' ge' hist _ IH Hsid Hk Hnf Hrun Ha].
  - split; [done|]. exists (mkKeyState None []). split; [by split; [|constructor]|constructor].
  - destruct IH as (_ & ks & [Hr Hc] & Hkr). split; [done|]. exists ks. split; [split; [by apply Hv|done]|done].
  - destruct IH as (Hs & ks & Hr & Hkr).
    destruct (write_intent_decided _ _ _ _ _ _ _ _ _ _ _ Hw Hsid Hk Hrun Hs Hr) as (Hf & ks' & out & Hsp & He).
    destruct (key_effect_applied _ _ _ _ Hs He Ha) as [Hs' Hr']. split; [done|]. exists ks'. split; [done|].
    by eapply run_write.
  - destruct IH as (Hs & ks & Hr & Hkr).
    destruct (commit_intent_refines engine ctx req sid t ks d w) as (er' & d1 & Hrun' & He & _); try done; [by rewrite Hk|by rewrite Hk|].
    rewrite Hrun in Hrun'. injection Hrun' as -> _ _. rewrite Hk in He.
    destruct (key_effect_applied _ _ _ _ Hs He Ha) as [Hs' Hr']. split; [done|]. eexists. split; [exact Hr'|].
    unfold stores. rewrite (read_target_repr (engine w) sid t key ks) by done.
    destruct (own_intent ks (ci_start_version req)) as [ti|] eqn:Eo.
    + destruct (intent_content ti) as [c|] eqn:Ec.
      * rewrite bool_decide_eq_true_2 by eauto. by eapply run_commit.
      * rewrite bool_decide_eq_false_2 by (by intros [? ?]). by eapply run_commit_nop.
    + unfold spec_commit. by rewrite Eo.
  - destruct IH as (Hs & ks & Hr & Hkr).
    destruct (clear_intent_refines engine ctx req sid t ks d w) as (er' & d1 & Hrun' & He & _); try done; [by rewrite Hk|by rewrite Hk|].
    rewrite Hrun in Hrun'. injection Hrun' as -> _ _. rewrite Hk in He.
    destruct (key_effect_applied _ _ _ _ Hs He Ha) as [Hs' Hr']. split; [done|]. eexists. split; [exact Hr'|]. by apply run_clear.
Qed.

(** C1: no lost updates (snapshot isolation on a key): in every interleaving of
    [write_intent] with non-atomic writes, [commit_intent] and [clear_intent] by
    any transactions on a key, the lifetimes of the transactions that stored a
    version do not overlap, each starting at or after the commit of all earlier
    ones, and the versions in the engine (below the intent, if there is one) are
    exactly theirs, newest first.  Atomic additions, which are meant to commute,
    are left out, and commit versions are above the start versions. *)
Theorem no_lost_update ge hist :
  handler_run ge hist →
  StronglySorted (λ newer older, older.2 ≤ newer.1) hist ∧
  ∃ intent rows, is_versions (ge_db ge) t key (intent_row intent ++ rows) ∧
    map v_version rows = map snd hist ∧ StronglySorted (λ a b, v_version b < v_version a) rows.
Proof.
  intros (_ & ks & [Hr _] & Hk)%handler_run_key. apply key_run_isolated in Hk as (Hs & Hm & Hv).
  split; [done|]. by exists (ks_intent ks), (ks_committed ks).
Qed.
End Isolation.

(** ** Concrete runs *)
Lemma sample_world_ok ops :
  forallb vop_okb ops = true → Forall (λ o, vop_ver o < TXN_INTENT_VERSION) ops →
  world_ok id 1 sample_table (sample_engine ops).
Proof.
  intros Hok Hlt. split; [by apply sample_serves|]. intros key Hne.
  exists (mkKeyState None (fold_left (vop_apply key) ops [])).
  split; [by apply sample_versions|]. cbn.
  apply vops_committed; [done|constructor..].
Qed.

Lemma idle_resolver_ok sid t : resolver_ok (W := sample_world) (G := unit) id sid t.
Proof. intros g ti w r g' w' Hw E. cbn in E. by injection E as _ _ <-. Qed.

Lemma write_intent_refines_witness :
  ∃ er, write_intent id 1 ExecCtx_default (sample_write_req 20) (mkDefer None ∅, sample_engine sample_ops)
          = Some (Ok (er, mkWriteIntentResponse (Some (mkWriteResponse (Some (mkValue (Some val_y) 9))))),
                  (mkDefer None (∅ : gmap ShardKey unit), sample_engine sample_ops)) ∧
        key_effect (sample_engine sample_ops) sample_table key_a er locked_state.
Proof.
  destruct (write_intent_refines (W := sample_world) (G := unit) id 0 ExecCtx_default (sample_write_req 20)
    (WPut sample_put) 1 sample_table free_state (mkDefer None ∅) (sample_engine sample_ops))
    as (r & Hr & Hspec); [reflexivity|reflexivity|discriminate|exact I|by apply sample_serves|apply sample_free|reflexivity|].
  change (wi_start_version (sample_write_req 20)) with 20 in Hspec.
  assert (spec_write free_state 20 (WPut sample_put) = Ok (locked_state, Some (mkValue (Some val_y) 9)))
    as Hsp by reflexivity.
  rewrite Hsp in Hspec. destruct Hspec as (er & -> & He).
  exists er. split; [exact Hr|exact He].
Defined.

Lemma sample_run :
  ∃ er resp d', write_intent id 1 ExecCtx_default (sample_write_req 20)
    (mkDefer None (∅ : gmap ShardKey unit), sample_engine sample_ops)
    = Some (Ok (er, resp), (d', sample_engine sample_ops)).
Proof.
  eexists _, _, _.
  rewrite (write_intent_run (W := sample_world) (G := unit) id 0 _ _ (WPut sample_put) sample_table free_state);
    [reflexivity|reflexivity|discriminate|exact I|by apply sample_serves|apply sample_free|reflexivity].
Qed.

Lemma write_intent_never_steals_lock_witness :
  ∃ er resp d', write_intent id 1 ExecCtx_default (sample_write_req 20) (mkDefer None ∅, sample_engine sample_ops)
          = Some (Ok (er, resp), (d', sample_engine sample_ops)) ∧
    ∃ ks, key_repr (ge_db (sample_engine sample_ops)) sample_table key_a ks ∧ foreign_intent ks 20 = None.
Proof.
  destruct sample_run as (er & resp & d' & E). exists er, resp, d'. split; [exact E|].
  destruct (write_intent_never_steals_lock (W := sample_world) (G := unit) id 1 ExecCtx_default (sample_write_req 20)
    (WPut sample_put) 1 sample_table (mkDefer None ∅) (sample_engine sample_ops) er resp d' (sample_engine sample_ops))
    as (ks & _ & _ & Hr & Hf & _); [reflexivity|reflexivity|discriminate|exact I|apply idle_resolver_ok| |exact E|].
  - apply sample_world_ok; [reflexivity|repeat constructor].
  - exists ks. split; [exact Hr|exact Hf].
Defined.

Lemma commit_intent_refines_witness :
  ∃ er d', commit_intent id ExecCtx_default (mkCommitIntentRequest 1 20 25 key_a)
             (mkDefer None (∅ : gmap ShardKey unit), sample_engine locked_ops)
           = Some (Ok er, (d', sample_engine locked_ops)) ∧
    key_effect (sample_engine locked_ops) sample_table key_a er
      (mkKeyState None [mkValue (Some val_x) 25; mkValue (Some val_y) 9; mkValue (Some val_x) 5]).
Proof.
  destruct (commit_intent_refines (W := sample_world) (G := unit) id ExecCtx_default
    (mkCommitIntentRequest 1 20 25 key_a) 1 sample_table locked_state (mkDefer None ∅) (sample_engine locked_ops))
    as (er & d' & E & He & _); [reflexivity|discriminate|exact I|by vm_compute|reflexivity| |apply sample_locked|].
  - by apply sample_serves.
  - exists er, d'. split; [exact E|exact He].
Defined.

Lemma clear_intent_refines_witness :
  ∃ er d', clear_intent id ExecCtx_default (mkClearIntentRequest 1 20 key_a)
             (mkDefer None (∅ : gmap ShardKey unit), sample_engine locked_ops)
           = Some (Ok er, (d', sample_engine locked_ops)) ∧
    key_effect (sample_engine locked_ops) sample_table key_a er free_state.
Proof.
  destruct (clear_intent_refines (W := sample_world) (G := unit) id ExecCtx_default
    (mkClearIntentRequest 1 20 key_a) 1 sample_table locked_state (mkDefer None ∅) (sample_engine locked_ops))
    as (er & d' & E & He & _); [reflexivity|discriminate|exact I| |apply sample_locked|].
  - by apply sample_serves.
  - exists er, d'. split; [exact E|exact He].
Defined.

Definition moving_ctx : ExecCtx :=
  mkExecCtx 7 71 None 19 None (Some (mkMoveShardDesc (Some sample_shard) 7 19 8 3)).

Lemma moving_shard_forwards_witness :
  commit_intent id moving_ctx (mkCommitIntentRequest 1 20 25 key_a)
    (mkDefer None (∅ : gmap ShardKey unit), sample_engine sample_ops)
  = Some (Err (Forward (mkForwardCtx 1 8 [mkValueSet key_a (ks_committed free_state)])),
          (mkDefer None ∅, sample_engine sample_ops)).
Proof.
  refine (proj1 (proj2 (moving_shard_forwards (W := sample_world) (G := unit) id 1 moving_ctx
    (mkMoveShardDesc (Some sample_shard) 7 19 8 3) sample_shard 1 sample_table key_a
    (ks_committed free_state) (sample_write_req 20) (WPut sample_put)
    (mkCommitIntentRequest 1 20 25 key_a) (mkClearIntentRequest 1 20 key_a)
    (mkDefer None ∅) (sample_engine sample_ops) _ _ _ _ _ _ _ _ _ _ _ _ _))); try reflexivity.
  - by apply sample_serves.
  - discriminate.
  - exact (proj1 sample_free).
Defined.

(** A transaction that started at 10 writes the key and commits at 12. *)
Definition lone_write : WriteIntentRequest := mkWriteIntentRequest 1 10 (Some (WPut (mkPutRequest 0 key_a val_x 0 [] false))).
Definition lone_commit : CommitIntentRequest := mkCommitIntentRequest 1 10 12 key_a.
Definition no_latches : DeferSignalLatchGuard unit := mkDefer None ∅.
Lemma lone_run : ∃ ge, handler_run (W := sample_world) (G := unit) id 1 sample_table key_a ge [(10, 12)].
Proof.
  set (ks1 := mkKeyState (Some (TxnIntent_with_put 10 (Some val_x))) []).
  assert (is_versions (ge_db (sample_engine [])) sample_table key_a []) as Hv by (by apply (sample_versions [] key_a)).
  assert (serves (sample_engine []) 1 sample_table) as Hs by (by apply sample_serves).
  destruct (write_intent_refines (W := sample_world) (G := unit) id 0 ExecCtx_default lone_write
    (WPut (mkPutRequest 0 key_a val_x 0 [] false)) 1 sample_table (mkKeyState None []) no_latches (sample_engine []))
    as (r & Erun & er & -> & He); [reflexivity|reflexivity|discriminate|exact I|exact Hs|by split; [|constructor]|reflexivity|].
  pose proof He as (ge1 & Ha & _). destruct (key_effect_applied 1 sample_table key_a _ _ ks1 _ Hs He Ha) as [Hs1 Hr1].
  destruct (commit_intent_refines (W := sample_world) (G := unit) id ExecCtx_default lone_commit 1 sample_table ks1 no_latches ge1)
    as (er2 & d2 & Erun2 & He2 & _); [done|discriminate|exact I|unfold u64_ok, u64_MAX; cbn; lia|unfold TXN_INTENT_VERSION, u64_MAX; cbn; lia|exact Hs1|exact Hr1|].
  pose proof He2 as (ge2 & Ha2 & _). exists ge2.
  pose proof (hr_commit (G := unit) id 1 sample_table key_a ExecCtx_default lone_commit no_latches ge1 er2 d2 ge1 ge2 []) as Hc.
  assert (stores 1 key_a (id ge1) (ci_start_version lone_commit) = true) as Hst.
  { unfold stores. by rewrite (read_target_repr (id ge1) 1 sample_table key_a ks1). }
  rewrite Hst in Hc. apply Hc; [|reflexivity|reflexivity|exact I|cbn; lia|unfold u64_ok, u64_MAX; cbn; lia|unfold TXN_INTENT_VERSION, u64_MAX; cbn; lia|exact Erun2|exact Ha2].
  eapply (hr_write _ _ _ _ 1 ExecCtx_default lone_write _ no_latches (sample_engine [])); [|reflexivity..|exact Erun|exact Ha].
  by apply hr_init.
Qed.
Lemma no_lost_update_witness : ∃ (ge : sample_world) intent rows,
  is_versions (ge_db ge) sample_table key_a (intent_row intent ++ rows) ∧ map v_version rows = [12].
Proof.
  destruct lone_run as [ge Hrun].
  destruct (no_lost_update (G := unit) id 1 sample_table key_a ltac:(discriminate) ge [(10, 12)] Hrun)
    as (_ & intent & rows & Hv & Hm & _). exists ge, intent, rows. exact (conj Hv Hm).
Defined.
