(* ===== verification/EvalRead.v ===== *)
(** * Reads ([server/src/replica/eval/cmd_get.rs], [cmd_scan.rs])

    [get] and [scan] walk a snapshot of the engine; an intent they may have to
    see is handed to the latch manager, whose answer and effect on the world
    are those of the [LatchManager] instance. *)

From S2P Require Import Prelude Bytes Rock Api RocksDb Schema Keys Engine EngineFacts EngineWrites Samples EvalTxn.
From S2P Require Import EvalTxnFacts TxnSamples.

Section Read.
  Context {DB : Type} `{RocksDb DB} `{Codec TxnIntent}.
  Context {W : Type} `{LatchManager W} (engine : W → GroupEngine DB).

(** ** [cmd_get.rs] *)

(** [for entry in iter? { ... }] of [read_key]; [items_left] bounds the rounds. *)
Fixpoint read_key_loop (fuel : nat) (s : Snapshot) (shard_id : Z) (key : bytes) (start_version : Z) (w : W) :
    Result (option Value) * W :=
  match fuel with
  | O => (Panic, w)
  | S fuel' =>
      match next_mvcc_entry s with
      | (Ok None, _) => (Ok None, w)
      | (Err e, _) => (Err e, w)
      | (Panic, _) => (Panic, w)
      | (Ok (Some entry), s') =>
          if entry_version entry =? TXN_INTENT_VERSION then
            match entry_value entry with
            | Panic => (Panic, w)
            | Err e => (Err e, w)
            | Ok None => (Err (InvalidData "the intent value of key not exists?"), w)
            | Ok (Some value) =>
                match decode_msg value : option TxnIntent with
                | None => (Err DecodeError, w)
                | Some intent =>
                    if ti_start_version intent <=? start_version then
                      match mgr_resolve_txn w shard_id key start_version (ti_start_version intent) with
                      | (Ok (Some v), w') =>
                          if v_version v <=? start_version then (Ok (Some v), w')
                          else read_key_loop fuel' s' shard_id key start_version w'
                      | (Ok None, w') => read_key_loop fuel' s' shard_id key start_version w'
                      | (Err e, w') => (Err e, w')
                      | (Panic, w') => (Panic, w')
                      end
                    else read_key_loop fuel' s' shard_id key start_version w
                end
            end
          else if entry_version entry <=? start_version then
            (let? v := entry_into entry in Ok (Some v), w)
          else read_key_loop fuel' s' shard_id key start_version w
      end
  end.

Definition read_key (shard_id : Z) (key : bytes) (start_version : Z) (w : W) : Result (option Value) * W :=
  match ge_snapshot (engine w) shard_id (ModeKey key) with
  | Err e => (Err e, w)
  | Panic => (Panic, w)
  | Ok snapshot =>
      match next_mvcc_iterator snapshot with
      | (Ok None, _) => (Ok None, w)
      | (Err e, _) => (Err e, w)
      | (Panic, _) => (Panic, w)
      | (Ok (Some _), s) => read_key_loop (S (items_left s)) s shard_id key start_version w
      end
  end.

Definition get (exec_ctx : ExecCtx) (req : ShardGetRequest) (w : W) : Result (option Value) * W :=
  match check_forward exec_ctx (engine w) (sg_shard_id req) (sg_user_key req) with
  | Err e => (Err e, w)
  | Panic => (Panic, w)
  | Ok _ => read_key (sg_shard_id req) (sg_user_key req) (sg_start_version req) w
  end.

(** ** [cmd_scan.rs] *)
Definition is_equals (target : option bytes) (user_key : bytes) : bool :=
  match target with Some target_key => bytes_eqb target_key user_key | None => false end.
Definition is_exceeds (target : option bytes) (user_key : bytes) : bool :=
  match target with Some target_key => bytes_ltb target_key user_key | None => false end.
Definition is_exclude_boundary (req : ShardScanRequest) (user_key : bytes) : bool :=
  if ss_exclude_start_key req && is_equals (ss_start_key req) user_key then true
  else if ss_exclude_end_key req && is_equals (ss_end_key req) user_key then true
  else false.

(** [resolve_txn]: what a scan sees of an intent, as content and version. *)
Definition scan_resolve_txn (shard_id start_version : Z) (user_key encoded_intent_value : bytes) (w : W) :
    Result (option (option bytes * Z)) * W :=
  match decode_msg encoded_intent_value : option TxnIntent with
  | None => (Err DecodeError, w)
  | Some intent =>
      if start_version <? ti_start_version intent then (Ok None, w)
      else
        match mgr_resolve_txn w shard_id user_key start_version (ti_start_version intent) with
        | (Err e, w') => (Err e, w')
        | (Panic, w') => (Panic, w')
        | (Ok None, w') => (Ok None, w')
        | (Ok (Some v), w') =>
            if start_version <? v_version v then (Ok None, w') else (Ok (Some (v_content v, v_version v)), w')
        end
  end.

(** The content and version of an entry that the scan looks at; [None] is the
    [continue] of the loop. *)
Definition scan_entry (req : ShardScanRequest) (entry : MvccEntry) (w : W) :
    Result (option (option bytes * Z)) * W :=
  let version := entry_version entry in
  if (version =? TXN_INTENT_VERSION) && negb (ss_ignore_txn_intent req) then
    match entry_value entry with
    | Panic => (Panic, w)
    | Err e => (Err e, w)
    | Ok None => (Err (InvalidData "the value of intent key is not exists"), w)
    | Ok (Some intent_value) =>
        scan_resolve_txn (ss_shard_id req) (ss_start_version req) (me_user_key entry) intent_value w
    end
  else if ss_start_version req <? version then (Ok None, w)
  else (let? v := entry_value entry in Ok (Some (v, version)), w).

(** The loop of [scan_value_set]: [None] for an excluded key, otherwise the
    values collected and their size. *)
Fixpoint scan_value_set_loop (fuel : nat) (s : Snapshot) (req : ShardScanRequest) (w : W)
    (values : list Value) (total_bytes : Z) : Result (option (list Value * Z)) * Snapshot * W :=
  match fuel with
  | O => (Panic, s, w)
  | S fuel' =>
      match next_mvcc_entry s with
      | (Ok None, s') => (Ok (Some (values, total_bytes)), s', w)
      | (Err e, s') => (Err e, s', w)
      | (Panic, s') => (Panic, s', w)
      | (Ok (Some entry), s') =>
          if is_exclude_boundary req (me_user_key entry) then (Ok None, s', w)
          else
            match scan_entry req entry w with
            | (Err e, w') => (Err e, s', w')
            | (Panic, w') => (Panic, s', w')
            | (Ok None, w') => scan_value_set_loop fuel' s' req w' values total_bytes
            | (Ok (Some (value, version)), w') =>
                let '(values', total') :=
                  match value with
                  | Some value => (values ++ [mkValue (Some value) version], total_bytes + Z.of_nat (length value))
                  | None =>
                      if ss_include_raw_data req then (values ++ [mkValue None version], total_bytes)
                      else (values, total_bytes)
                  end in
                if negb (ss_include_raw_data req) then (Ok (Some (values', total')), s', w')
                else scan_value_set_loop fuel' s' req w' values' total'
            end
      end
  end.

Definition scan_value_set (s : Snapshot) (req : ShardScanRequest) (w : W) :
    Result (option (ValueSet * Z)) * Snapshot * W :=
  match scan_value_set_loop (S (items_left s)) s req w [] 0 with
  | (Ok None, s', w') => (Ok None, s', w')
  | (Err e, s', w') => (Err e, s', w')
  | (Panic, s', w') => (Panic, s', w')
  | (Ok (Some ([], _)), s', w') => (Ok None, s', w')
  | (Ok (Some (values, total_bytes)), s', w') =>
      match sc_current_key (sn_core s') with
      | None => (Panic, s', w')
      | Some user_key =>
          (Ok (Some (mkValueSet user_key values, total_bytes + Z.of_nat (length user_key))), s', w')
      end
  end.

Definition limit_reached (req : ShardScanRequest) (data : list ValueSet) (total_bytes : Z) : bool :=
  (negb (ss_limit req =? 0) && (ss_limit req =? Z.of_nat (length data))) ||
  (negb (ss_limit_bytes req =? 0) && (ss_limit_bytes req <=? total_bytes)).

(** The loop of [scan_inner]; every round but the last takes a new key. *)
Fixpoint scan_inner_loop (fuel : nat) (s : Snapshot) (req : ShardScanRequest) (w : W)
    (data : list ValueSet) (total_bytes : Z) : Result ShardScanResponse * W :=
  match fuel with
  | O => (Panic, w)
  | S fuel' =>
      match next_mvcc_iterator s with
      | (Ok None, _) => (Ok (mkShardScanResponse data false), w)
      | (Err e, _) => (Err e, w)
      | (Panic, _) => (Panic, w)
      | (Ok (Some _), s1) =>
          match sc_current_key (sn_core s1) with
          | None => (Panic, w)
          | Some user_key =>
              if is_exceeds (ss_end_key req) user_key then (Ok (mkShardScanResponse data false), w)
              else
                match scan_value_set s1 req w with
                | (Err e, _, w') => (Err e, w')
                | (Panic, _, w') => (Panic, w')
                | (Ok None, s2, w') => scan_inner_loop fuel' s2 req w' data total_bytes
                | (Ok (Some (value_set, value_bytes)), s2, w') =>
                    let data' := data ++ [value_set] in
                    let total' := total_bytes + value_bytes in
                    if limit_reached req data' total' then (Ok (mkShardScanResponse data' true), w')
                    else scan_inner_loop fuel' s2 req w' data' total'
                end
          end
      end
  end.
Definition scan_inner (s : Snapshot) (req : ShardScanRequest) (w : W) : Result ShardScanResponse * W :=
  scan_inner_loop (S (S (items_left s))) s req w [] 0.

(** A scan by prefix ignores the exclusion flags. *)
Definition scan_request (req : ShardScanRequest) : ShardScanRequest * SnapshotMode :=
  match ss_prefix req with
  | Some prefix =>
      (mkShardScanRequest (ss_shard_id req) (ss_start_version req) (ss_limit req) (ss_limit_bytes req)
         false false (ss_prefix req) (ss_start_key req) (ss_end_key req) (ss_include_raw_data req)
         (ss_ignore_txn_intent req) (ss_allow_scan_moving_shard req), ModePrefix prefix)
  | None => (req, ModeStart (ss_start_key req))
  end.

(** The destination of a scan on the shard being moved away. *)
Definition scan_forward (exec_ctx : ExecCtx) (req : ShardScanRequest) : Result (option Z) :=
  if negb (ss_allow_scan_moving_shard req) then
    match ec_move_shard_desc exec_ctx with
    | None => Ok None
    | Some desc =>
        let? sd := get_shard_desc desc in
        if (sd_id sd =? ss_shard_id req) && (md_src_group_id desc =? ec_group_id exec_ctx)
        then Ok (Some (md_dest_group_id desc)) else Ok None
    end
  else Ok None.

Definition scan (exec_ctx : ExecCtx) (req : ShardScanRequest) (w : W) : Result ShardScanResponse * W :=
  match scan_forward exec_ctx req with
  | Err e => (Err e, w)
  | Panic => (Panic, w)
  | Ok (Some dest_group_id) => (Err (Forward (mkForwardCtx (ss_shard_id req) dest_group_id [])), w)
  | Ok None =>
      let '(req', mode) := scan_request req in
      match ge_snapshot (engine w) (ss_shard_id req') mode with
      | Err e => (Err e, w)
      | Panic => (Panic, w)
      | Ok snapshot => scan_inner snapshot req' w
      end
  end.

End Read.

(** ** [merge_scan_response]: both sides of a moving shard *)
Fixpoint merge_value_sets (fuel : nat) (has_more : bool) (target source : list ValueSet) : list ValueSet :=
  match fuel with
  | O => []
  | S fuel' =>
      match target, source with
      | x :: target', y :: source' =>
          match bytes_cmp (vs_user_key x) (vs_user_key y) with
          | Lt => x :: merge_value_sets fuel' has_more target' source
          | Eq => x :: merge_value_sets fuel' has_more target' source'
          | Gt => y :: merge_value_sets fuel' has_more target source'
          end
      | x :: target', [] => x :: merge_value_sets fuel' has_more target' []
      | [], y :: source' =>
          if negb has_more then y :: merge_value_sets fuel' has_more [] source' else []
      | [], [] => []
      end
  end.
Definition merge_scan_response (target source : ShardScanResponse) : ShardScanResponse :=
  mkShardScanResponse
    (merge_value_sets (S (length (sr_data target) + length (sr_data source)))
       (sr_has_more target) (sr_data target) (sr_data source))
    (sr_has_more target || sr_has_more source).

(** * Properties of [get] *)
(** What a reader at [start] must see of a key once the transaction holding
    it, if any, is settled: committed at a version, or aborted. *)
Definition settle (ks : key_state) (outcome : option Z) : key_state :=
  match ks_intent ks, outcome with
  | Some ti, Some commit => resolved ks commit (intent_content ti)
  | _, _ => mkKeyState None (ks_committed ks)
  end.

(** What the latch manager answers for an intent settled that way. *)
Definition settled_answer (ti : TxnIntent) (outcome : option Z) : option Value :=
  match outcome with
  | Some commit => Some (mkValue (if ti_is_delete ti then None else ti_value ti) commit)
  | None => None
  end.

Section Get.
  Context {DB : Type} `{RocksDbOk DB} `{CodecOk TxnIntent}.
  Context {W : Type} `{LatchManager W} (engine : W → GroupEngine DB).

Lemma row_entry_version t r : u64_ok (r_ver r) → entry_version (row_entry t r) = r_ver r.
Proof. intros. unfold row_entry. by apply entry_version_buf. Qed.

Lemma read_key_loop_committed fuel s t rows sid key start w :
  (length (take_key key rows) < fuel)%nat →
  snap_rows t s rows → Forall row_ok rows → snap_current s = Some key →
  committed_ok (map row_value (take_key key rows)) →
  read_key_loop fuel s sid key start w = (Ok (visible start (map row_value (take_key key rows))), w).
Proof.
  revert s rows. induction fuel as [|fuel IH]; intros s rows Hf Hrows Hok Hcur Hc; [lia|].
  pose proof (next_entry_take t s rows key Hrows Hok Hcur) as Hn. cbn [read_key_loop].
  destruct (take_key key rows) as [|r rs].
  { destruct (next_mvcc_entry s) as [res ?]. cbn in Hn. by subst res. }
  destruct Hn as (s' & rows' & -> & Hr & Hrows' & Hok' & Hcur' & Ers). injection Ers as ->.
  cbn [map] in *. apply Forall_cons in Hc as [Hlt Hc]. cbn in Hlt. destruct Hr as (Hk & Hv & Hval).
  rewrite !(row_entry_version t r) by done.
  rewrite (proj2 (Z.eqb_neq _ _)) by lia. unfold visible. cbn [List.find row_value v_version].
  destruct (r_ver r <=? start); [by rewrite row_entry_into|].
  rewrite IH with (rows := rows'); [done|cbn in Hf; lia|done..].
Qed.

(** The outcome of [get] by the state of the key. *)
Lemma read_key_repr sid t key ks start w :
  serves (engine w) sid t → key ≠ [] → key_repr (ge_db (engine w)) t key ks →
  read_key engine sid key start w =
    match ks_intent ks with
    | Some ti =>
        if ti_start_version ti <=? start then
          match mgr_resolve_txn w sid key start (ti_start_version ti) with
          | (Ok (Some v), w') => if v_version v <=? start then (Ok (Some v), w')
                                 else (Ok (visible start (ks_committed ks)), w')
          | (Ok None, w') => (Ok (visible start (ks_committed ks)), w')
          | (Err e, w') => (Err e, w')
          | (Panic, w') => (Panic, w')
          end
        else (Ok (visible start (ks_committed ks)), w)
    | None => (Ok (visible start (ks_committed ks)), w)
    end.
Proof.
  intros (Hwf & Ht & desc & Hd & <-) Hne [Hv Hc].
  destruct (key_snapshot_iter (engine w) sid desc key Hwf Hd Ht Hne) as (s & vs & Hsnap & Hvs & Hit).
  rewrite (is_versions_unique _ _ _ _ _ Hvs Hv) in *. clear Hvs vs.
  unfold read_key. rewrite Hsnap.
  destruct Hit as [[E Hn]|(s' & rows & -> & Hrows & Hok & Hcur & Htk & _)].
  { destruct (next_mvcc_iterator s) as [res ?]. cbn in Hn. subst res.
    destruct ks as [[ti|] cs]; [done|]. cbn in *. by subst. }
  assert (length (take_key key rows) < S (items_left s'))%nat as Hfuel.
  { pose proof (snap_rows_items_left _ s' rows Hrows).
    pose proof (sublist_length _ _ (take_key_sublist key rows)). lia. }
  destruct ks as [[ti|] cs]; cbn [ks_intent ks_committed intent_row app] in *.
  2: { rewrite (read_key_loop_committed _ s' (sd_table_id desc) rows) by (done || by rewrite Htk). by rewrite Htk. }
  pose proof (next_entry_take _ s' rows key Hrows Hok Hcur) as Hn. cbn [read_key_loop].
  destruct (take_key key rows) as [|r rs]; [done|].
  destruct Hn as (s2 & rows' & -> & (Hrk & Hrv & Hrval) & Hrows' & Hok' & Hcur' & Ers).
  injection Ers as ->. cbn [map] in Htk. unfold row_value at 1 in Htk. injection Htk as Hcont Hver Hcs.
  rewrite row_entry_version, Hver, Z.eqb_refl by done.
  destruct Hrval as [E|[d E]]; rewrite E in Hcont; cbn in Hcont; [done|]. injection Hcont as ->.
  assert (entry_value (row_entry (sd_table_id desc) r) = Ok (Some (encode_to_vec ti))) as ->
    by (unfold entry_value; cbn [me_value row_entry]; by rewrite E).
  rewrite decode_encode_msg.
  assert (Hrest : ∀ w', read_key_loop (items_left s') s2 sid key start w' = (Ok (visible start cs), w')).
  { intros w'. rewrite (read_key_loop_committed _ s2 (sd_table_id desc) rows')
      by (done || (cbn in Hfuel; lia) || by rewrite Hcs). by rewrite Hcs. }
  destruct (ti_start_version ti <=? start); [|apply Hrest].
  destruct (mgr_resolve_txn _ _ _ _ _) as [[[v|]|e|] w']; [|apply Hrest|done..].
  destruct (v_version v <=? start); [done|apply Hrest].
Qed.

Lemma visible_settle ks commit c start :
  newest_first (ks_committed ks) → (∀ v, head (ks_committed ks) = Some v → v_version v < commit) →
  visible start (set_version commit c (ks_committed ks)) =
    if commit <=? start then Some (mkValue c commit) else visible start (ks_committed ks).
Proof.
  intros Hs Hlt. assert (set_version commit c (ks_committed ks) = mkValue c commit :: ks_committed ks) as ->.
  { destruct (ks_committed ks) as [|v vs]; cbn; [done|]. rewrite (proj2 (Z.ltb_lt _ _)); [done|]. by apply Hlt. }
  unfold visible. cbn. done.
Qed.

(** Reads of the same timestamp are repeatable while transactions that
    commit above it come and go: storing or removing versions above the
    reader's timestamp, or intents of later transactions, changes nothing of
    what [get] returns. *)
Theorem get_repeatable ctx sid t key start w1 w2 cs ti1 ti2 ver c :
  not_forwarded ctx sid → key ≠ [] →
  serves (engine w1) sid t → serves (engine w2) sid t →
  start < ver →
  (∀ ti, ti1 = Some ti → start < ti_start_version ti) →
  (∀ ti, ti2 = Some ti → start < ti_start_version ti) →
  key_repr (ge_db (engine w1)) t key (mkKeyState ti1 cs) →
  key_repr (ge_db (engine w2)) t key (mkKeyState ti2 (set_version ver c cs)) →
  (get engine ctx (mkShardGetRequest sid start key) w1).1 =
  (get engine ctx (mkShardGetRequest sid start key) w2).1.
Proof.
  intros Hnf Hne Hs1 Hs2 Hlt Hi1 Hi2 Hr1 Hr2. unfold get. cbn [sg_shard_id sg_user_key sg_start_version].
  rewrite !check_forward_ok by done.
  rewrite (read_key_repr sid t key _ start w1 Hs1 Hne Hr1), (read_key_repr sid t key _ start w2 Hs2 Hne Hr2).
  cbn [ks_intent ks_committed].
  assert (∀ ti : TxnIntent, start < ti_start_version ti → (ti_start_version ti <=? start) = false) as Hgt
    by (intros; apply Z.leb_gt; lia).
  destruct ti1 as [i1|], ti2 as [i2|]; rewrite ?Hgt by auto; cbn [fst]; by rewrite visible_set_above.
Qed.

End Get.

Lemma get_repeatable_witness :
  (get id ExecCtx_default (mkShardGetRequest 1 8 key_a) (sample_engine [VSet key_a 5 (Some val_x)])).1 =
  (get id ExecCtx_default (mkShardGetRequest 1 8 key_a) (sample_engine sample_ops)).1.
Proof.
  apply (get_repeatable (W := sample_world) id ExecCtx_default 1 sample_table key_a 8
    (sample_engine [VSet key_a 5 (Some val_x)]) (sample_engine sample_ops)
    [mkValue (Some val_x) 5] None None 9 (Some val_y)); try done.
  - by apply sample_serves.
  - by apply sample_serves.
  - split; [apply (sample_versions [VSet key_a 5 (Some val_x)] key_a); [done|discriminate]|].
    repeat constructor; unfold TXN_INTENT_VERSION, u64_MAX; cbn; lia.
  - apply sample_free.
Defined.
