(* ===== verification/ScanProps.v ===== *)
(** * Properties of [scan] and of merged scans

    The rows a snapshot walks are grouped by key ([groups]); [wanted] is what
    a scan returns of one group.  The loops of [cmd_scan.rs] are shown to
    compute [wanted] on the groups of the scanned range, in order. *)

From S2P Require Import Prelude Bytes Rock Api Schema RocksDb Keys Engine EngineFacts EngineWrites Samples EvalTxn EvalTxnFacts TxnSamples EvalRead.

(** ** Groups of rows *)
Fixpoint groups (rows : list row) : list (bytes * list Value) :=
  match rows with
  | [] => []
  | r :: rs =>
      match groups rs with
      | (k, vs) :: gs =>
          if bool_decide (r_key r = k) then (k, row_value r :: vs) :: gs
          else (r_key r, [row_value r]) :: (k, vs) :: gs
      | [] => [(r_key r, [row_value r])]
      end
  end.

Lemma groups_head_key r rows g gs : groups (r :: rows) = g :: gs → g.1 = r_key r.
Proof.
  cbn. destruct (groups rows) as [|[k vs] gs']; [by intros [= <- _]|].
  case_bool_decide; by intros [= <- _].
Qed.

Lemma groups_cons r rows :
  groups (r :: rows) =
    (r_key r, map row_value (take_key (r_key r) (r :: rows))) :: groups (drop_key (r_key r) rows).
Proof.
  revert r. induction rows as [|r2 rows IH]; intros r.
  { cbn. by rewrite bool_decide_true. }
  cbn [take_key]. rewrite (bool_decide_true (r_key r = r_key r)) by done. cbn [drop_key take_key].
  change (groups (r :: r2 :: rows)) with
    (match groups (r2 :: rows) with
     | (k, vs) :: gs =>
         if bool_decide (r_key r = k) then (k, row_value r :: vs) :: gs
         else (r_key r, [row_value r]) :: (k, vs) :: gs
     | [] => [(r_key r, [row_value r])]
     end). rewrite IH.
  rewrite (bool_decide_ext (r_key r = r_key r2) (r_key r2 = r_key r)) by done.
  case_bool_decide as E; [|by rewrite IH].
  cbn [take_key]. rewrite (bool_decide_true (r_key r2 = r_key r2)) by done. by rewrite E.
Qed.

(** ** What a scan returns of a group *)
Definition seen_versions (start : Z) (vs : list Value) : list Value :=
  List.filter (λ v, v_version v <=? start) vs.
Definition wanted_values (req : ShardScanRequest) (vs : list Value) : list Value :=
  let seen := seen_versions (ss_start_version req) vs in
  if ss_include_raw_data req then seen
  else match seen with
       | v :: _ => match v_content v with Some _ => [v] | None => [] end
       | [] => []
       end.
Definition wanted (req : ShardScanRequest) (g : bytes * list Value) : option ValueSet :=
  if is_exclude_boundary req g.1 then None
  else match wanted_values req g.2 with [] => None | vs => Some (mkValueSet g.1 vs) end.

Definition content_size (v : Value) : Z :=
  match v_content v with Some c => Z.of_nat (length c) | None => 0 end.
Definition values_size (vs : list Value) : Z := fold_right (λ v z, content_size v + z) 0 vs.
Definition set_size (s : ValueSet) : Z := values_size (vs_values s) + Z.of_nat (length (vs_user_key s)).

(** The scan stops at the first reached limit. *)
Fixpoint limited (req : ShardScanRequest) (data : list ValueSet) (total : Z) (todo : list ValueSet) : ShardScanResponse :=
  match todo with
  | [] => mkShardScanResponse data false
  | s :: todo' =>
      if limit_reached req (data ++ [s]) (total + set_size s) then mkShardScanResponse (data ++ [s]) true
      else limited req (data ++ [s]) (total + set_size s) todo'
  end.

(** Groups up to the end of the snapshot's range and of the request. *)
Fixpoint in_scan (valid : bytes → bool) (req : ShardScanRequest) (gs : list (bytes * list Value)) :
    list (bytes * list Value) :=
  match gs with
  | g :: gs' => if valid g.1 && negb (is_exceeds (ss_end_key req) g.1) then g :: in_scan valid req gs' else []
  | [] => []
  end.

(** What a reader at [start] is shown of the stored versions of a key when the
    transactions met have the given fates (the commit version, or [None] for
    an aborted one): an intent of a transaction that started at or before the
    reader counts as the value the latch manager answers for it. *)
Definition shown (fate : Z → option Z) (start : Z) (i : option TxnIntent) (cs : list Value) : list Value :=
  match i with
  | Some ti =>
      if ti_start_version ti <=? start then
        match settled_answer ti (fate (ti_start_version ti)) with Some v => v :: cs | None => cs end
      else cs
  | None => cs
  end.
Definition viewed `{Codec TxnIntent} (fate : Z → option Z) (req : ShardScanRequest) (vs : list Value) : list Value :=
  if ss_ignore_txn_intent req then vs
  else match vs with
       | v :: cs => if v_version v =? TXN_INTENT_VERSION then shown fate (ss_start_version req) (v_content v ≫= decode_msg) cs else vs
       | [] => []
       end.
Definition view_group `{Codec TxnIntent} (fate : Z → option Z) (req : ShardScanRequest) (g : bytes * list Value) :
    bytes * list Value := (g.1, viewed fate req g.2).

Lemma viewed_repr `{CodecOk TxnIntent} fate req i cs :
  ss_ignore_txn_intent req = false → committed_ok cs →
  viewed fate req (intent_row i ++ cs) = shown fate (ss_start_version req) i cs.
Proof.
  intros Hig Hc. unfold viewed. rewrite Hig. destruct i as [ti|]; cbn [intent_row app].
  - cbn [v_version v_content]. rewrite Z.eqb_refl. cbn [mbind option_bind]. by rewrite decode_encode_msg.
  - destruct cs as [|v cs]; [done|]. apply Forall_cons in Hc as [Hv _].
    by rewrite (proj2 (Z.eqb_neq _ _)) by lia.
Qed.

(** The scan does not need the latch manager. *)
Definition plain (req : ShardScanRequest) (vs : list Value) : Prop :=
  ss_ignore_txn_intent req = true ∨ committed_ok vs.

Lemma viewed_plain `{Codec TxnIntent} fate req vs : plain req vs → viewed fate req vs = vs.
Proof.
  unfold viewed. intros [->|Hc]; [done|]. destruct (ss_ignore_txn_intent req), vs as [|v vs]; [done..|].
  apply Forall_cons in Hc as [Hv _]. by rewrite (proj2 (Z.eqb_neq _ _)) by lia.
Qed.

Section Scan.
  Context {DB : Type} `{RocksDbOk DB} `{CodecOk TxnIntent}.
  Context {W : Type} `{LatchManager W} (engine : W → GroupEngine DB).

Lemma scan_entry_plain req t r w :
  row_ok r → plain req [row_value r] →
  scan_entry req (row_entry t r) w =
    (Ok (if v_version (row_value r) <=? ss_start_version req
         then Some (v_content (row_value r), v_version (row_value r)) else None), w).
Proof.
  intros (Hk & Hv & Hval) Hp. unfold scan_entry. cbv zeta.
  assert (entry_version (row_entry t r) = r_ver r) as -> by (by apply entry_version_buf). cbn [row_value v_version v_content].
  assert ((r_ver r =? TXN_INTENT_VERSION) && negb (ss_ignore_txn_intent req) = false) as ->.
  { destruct Hp as [->|Hc]; [by rewrite andb_false_r|].
    apply Forall_cons in Hc as [Hlt _]. cbn [row_value v_version] in Hlt. by rewrite (proj2 (Z.eqb_neq _ _)) by lia. }
  rewrite Z.ltb_antisym. destruct (r_ver r <=? ss_start_version req); cbn [negb]; [|done].
  unfold entry_value. cbn [me_value row_entry]. destruct Hval as [->|[d ->]]; done.
Qed.

(** Where the walk over a key's entries leaves the snapshot. *)
Definition walked (t : Z) (s s' : Snapshot) (key : bytes) (rows : list row) : Prop :=
  ∃ rows', snap_rows t s' rows' ∧ Forall row_ok rows' ∧ snap_current s' = Some key ∧
    sn_range s' = sn_range s ∧ drop_key key rows' = drop_key key rows ∧ (length rows' ≤ length rows)%nat.

Lemma scan_loop_plain fuel s t rows key req w values total :
  (length (take_key key rows) < fuel)%nat →
  snap_rows t s rows → Forall row_ok rows → snap_current s = Some key →
  plain req (map row_value (take_key key rows)) → is_exclude_boundary req key = false →
  ∃ s', scan_value_set_loop fuel s req w values total =
    (let vs := wanted_values req (map row_value (take_key key rows)) in
     Ok (Some (values ++ vs, total + values_size vs)), s', w) ∧ walked t s s' key rows.
Proof.
  revert s rows values total.
  induction fuel as [|fuel IH]; intros s rows values total Hf Hrows Hok Hcur Hp Hx; [lia|].
  destruct (next_mvcc_entry_spec t s rows key Hrows Hok Hcur) as (s' & Hc' & Hr' & Hn).
  cbn [scan_value_set_loop].
  assert (Hend : next_mvcc_entry s = (Ok None, s') ∧ snap_rows t s' rows → take_key key rows = [] →
    ∃ s', (match next_mvcc_entry s with
           | (Ok None, s') => (Ok (Some (values, total)), s', w)
           | (Err e, s') => (Err e, s', w) | (Panic, s') => (Panic, s', w)
           | (Ok (Some _), s') => (Panic, s', w) end : Result (option (list Value * Z)) * Snapshot * W) =
      (let vs := wanted_values req (map row_value (take_key key rows)) in
       Ok (Some (values ++ vs, total + values_size vs)), s', w) ∧ walked t s s' key rows).
  { intros [-> Hs'] ->. exists s'. unfold wanted_values. cbn. split.
    - by destruct (ss_include_raw_data req); rewrite app_nil_r, Z.add_0_r.
    - exists rows. by split_and!. }
  destruct rows as [|r rows]; cbn [take_key] in *.
  { destruct (Hend Hn eq_refl) as (s'' & E & Hw). destruct Hn as [Hn _]. rewrite Hn in *. eauto. }
  destruct (bool_decide_reflect (r_key r = key)) as [Ek|Ek].
  2: { destruct (Hend Hn eq_refl) as (s'' & E & Hw). destruct Hn as [Hn _]. rewrite Hn in *. eauto. }
  clear Hend. destruct Hn as [-> Hs']. apply Forall_cons in Hok as [Hr Hok].
  cbn [me_user_key row_entry]. rewrite Ek, Hx.
  assert (plain req [row_value r] ∧ plain req (map row_value (take_key key rows))) as [Hp1 Hp2].
  { destruct Hp as [?|[? ?]%Forall_cons]; [split; by left|]. split; right; [by repeat constructor|done]. }
  rewrite (scan_entry_plain req t r w Hr Hp1). cbn [map].
  assert (Hwalk : walked t s s' key (r :: rows)).
  { exists rows. cbn [drop_key length]. rewrite bool_decide_true by done. split_and!; try done. lia. }
  unfold wanted_values, seen_versions. cbn [List.filter].
  destruct (v_version (row_value r) <=? ss_start_version req) eqn:Ev.
  - destruct (ss_include_raw_data req) eqn:Eraw; cbn [negb].
    + destruct (IH s' rows
        (values ++ [row_value r]) (total + content_size (row_value r))) as (s'' & E & Hw);
        [cbn in Hf; lia|done..|].
      exists s''. split.
      * trans (scan_value_set_loop fuel s' req w (values ++ [row_value r]) (total + content_size (row_value r))).
        { unfold content_size. destruct (row_value r) as [[c|] v]; cbn [v_content v_version]; [done|].
          by rewrite Z.add_0_r. }
        rewrite E. unfold wanted_values, seen_versions. rewrite Eraw, <- app_assoc.
        cbn [values_size fold_right app]. fold (values_size). by rewrite Z.add_assoc.
      * destruct Hw as (rows' & ? & ? & ? & ? & ? & ?). exists rows'.
        cbn [drop_key length]. rewrite bool_decide_true by done. split_and!; try done; [congruence|lia].
    + exists s'. split; [|done]. destruct (row_value r) as [[c|] v]; cbn.
      * by rewrite Z.add_0_r.
      * by rewrite app_nil_r, Z.add_0_r.
  - destruct (IH s' rows values total) as (s'' & E & Hw); [cbn in Hf; lia|done..|].
    exists s''. split; [exact E|].
    destruct Hw as (rows' & ? & ? & ? & ? & ? & ?). exists rows'.
    cbn [drop_key length]. rewrite bool_decide_true by done. split_and!; try done; [congruence|lia].
Qed.

(** *** Intents met on the way *)
Section View.
  Variable fate : Z → option Z.
  (** Worlds in which the latch manager can still settle [n] intents, and has
      not yet been asked about other keys than the listed ones. *)
  Variable mgr_ok : nat → list bytes → W → Prop.

(** The scan can read the versions [vs] of the key: it takes intents as they
    are, or the latch manager settles the intent on top with its fate. *)
Definition readable (req : ShardScanRequest) (k : bytes) (vs : list Value) : Prop :=
  ss_ignore_txn_intent req = true ∨
  ∃ i cs, vs = intent_row i ++ cs ∧ committed_ok cs ∧
    ∀ ti, i = Some ti → ti_start_version ti ≤ ss_start_version req →
    ∀ n asked w, mgr_ok (S n) asked w → k ∉ asked →
      ∃ w', mgr_resolve_txn w (ss_shard_id req) k (ss_start_version req) (ti_start_version ti) =
          (Ok (settled_answer ti (fate (ti_start_version ti))), w') ∧ mgr_ok n (k :: asked) w'.

(** The world a key is left in. *)
Definition mgr_left (n : nat) (key : bytes) (asked : list bytes) (w' : W) : Prop :=
  ∃ n' asked', mgr_ok n' asked' w' ∧ (n ≤ n')%nat ∧ ∀ k, k ∈ asked' → k = key ∨ k ∈ asked.
Lemma mgr_untouched n key asked w : mgr_ok (S n) asked w → mgr_left n key asked w.
Proof. exists (S n), asked. split_and!; [done|lia|by right]. Qed.
Lemma mgr_touched n key asked w : mgr_ok n (key :: asked) w → mgr_left n key asked w.
Proof. exists n, (key :: asked). split_and!; [done..|]. intros k. by rewrite elem_of_cons. Qed.

Lemma scan_entry_intent req t r ti w :
  row_ok r → row_value r = mkValue (Some (encode_to_vec ti)) TXN_INTENT_VERSION → ss_ignore_txn_intent req = false →
  scan_entry req (row_entry t r) w =
    scan_resolve_txn (ss_shard_id req) (ss_start_version req) (r_key r) (encode_to_vec ti) w.
Proof.
  intros (Hk & Hv & Hval) [= Hcont Hver] Hig. unfold scan_entry. cbv zeta. rewrite row_entry_version, Hver, Hig by done.
  cbn [negb andb]. rewrite Z.eqb_refl. unfold entry_value. cbn [me_value row_entry me_user_key].
  destruct Hval as [E|[d E]]; rewrite E in Hcont |- *; cbn in Hcont; [done|]. by injection Hcont as ->.
Qed.

Lemma walked_step t s s' s'' key r rows :
  r_key r = key → sn_range s' = sn_range s → walked t s' s'' key rows → walked t s s'' key (r :: rows).
Proof.
  intros Ek Hr (rows' & ? & ? & ? & ? & ? & ?). exists rows'. cbn [drop_key length].
  rewrite bool_decide_true by done. split_and!; try done; [congruence|lia].
Qed.

Lemma scan_loop_view n asked fuel s t rows key req w :
  (length (take_key key rows) < fuel)%nat →
  snap_rows t s rows → Forall row_ok rows → snap_current s = Some key →
  readable req key (map row_value (take_key key rows)) → is_exclude_boundary req key = false →
  mgr_ok (S n) asked w → key ∉ asked →
  ∃ s' w', scan_value_set_loop fuel s req w [] 0 =
    (let vs := wanted_values req (viewed fate req (map row_value (take_key key rows))) in
     Ok (Some (vs, values_size vs)), s', w') ∧ walked t s s' key rows ∧ mgr_left n key asked w'.
Proof.
  intros Hf Hrows Hok Hcur Hrd Hx Hm Hask.
  pose proof (mgr_untouched n key asked w Hm) as Hsame.
  assert (Hpl : plain req (map row_value (take_key key rows)) →
    ∃ s' w', scan_value_set_loop fuel s req w [] 0 =
      (let vs := wanted_values req (viewed fate req (map row_value (take_key key rows))) in
       Ok (Some (vs, values_size vs)), s', w') ∧ walked t s s' key rows ∧ mgr_left n key asked w').
  { intros Hp. rewrite viewed_plain by done.
    destruct (scan_loop_plain fuel s t rows key req w [] 0) as (s' & E & Hw); [done..|].
    exists s', w. by split_and!; [exact E|..]. }
  destruct (ss_ignore_txn_intent req) eqn:Hig; [apply Hpl; by left|].
  destruct Hrd as [?|([ti|] & cs & Evs & Hc & Hres)]; [congruence| |apply Hpl; right; by rewrite Evs].
  rewrite Evs, viewed_repr by done. clear Hpl. destruct fuel as [|fuel]; [lia|].
  destruct (next_mvcc_entry_spec t s rows key Hrows Hok Hcur) as (s1 & Hc1 & Hr1 & Hn). cbn [scan_value_set_loop].
  destruct rows as [|r rows]; [done|]. cbn [take_key] in *. destruct (bool_decide_reflect (r_key r = key)) as [Ek|]; [|done].
  cbn [map intent_row app] in Evs. apply (inj2 cons) in Evs as [Hrv Hcs]. destruct Hn as [-> Hs1]. apply Forall_cons in Hok as [Hr Hok].
  cbn [me_user_key row_entry]. rewrite Ek, Hx. fold (row_entry t r).
  rewrite (scan_entry_intent req t r ti); [|done|done|done]. unfold scan_resolve_txn, shown. rewrite decode_encode_msg, Z.ltb_antisym.
  assert (Hrest : ∀ w values total, ∃ s', scan_value_set_loop fuel s1 req w values total =
      (let vs := wanted_values req cs in Ok (Some (values ++ vs, total + values_size vs)), s', w) ∧
      walked t s s' key (r :: rows)).
  { intros w0 values total. destruct (scan_loop_plain fuel s1 t rows key req w0 values total) as (s' & E & Hw);
      [cbn in Hf; lia|done..| |done|].
    - right. by rewrite Hcs.
    - exists s'. rewrite Hcs in E. split; [exact E|]. by eapply walked_step. }
  destruct (Z.leb_spec (ti_start_version ti) (ss_start_version req)) as [Hle|Hgt]; cbn [negb].
  2: { destruct (Hrest w [] 0) as (s' & E & Hw). exists s', w. by split_and!; [exact E|..]. }
  rewrite Ek. destruct (Hres ti eq_refl Hle n asked w Hm Hask) as (w' & -> & Hm'%mgr_touched).
  destruct (fate (ti_start_version ti)) as [c|]; cbn [settled_answer].
  2: { destruct (Hrest w' [] 0) as (s' & E & Hw). exists s', w'. by split_and!; [exact E|..]. }
  set (content := if ti_is_delete ti then None else ti_value ti). cbn [v_version v_content].
  unfold wanted_values, seen_versions. cbn [List.filter v_version]. rewrite Z.ltb_antisym.
  destruct (c <=? ss_start_version req); cbn [negb].
  2: { destruct (Hrest w' [] 0) as (s' & E & Hw). exists s', w'. by split_and!; [exact E|..]. }
  destruct (ss_include_raw_data req) eqn:Eraw; cbn [negb].
  - destruct (Hrest w' [mkValue content c] (content_size (mkValue content c))) as (s' & E & Hw).
    exists s', w'. split_and!; try done. unfold wanted_values, seen_versions in E. rewrite Eraw in E.
    trans (scan_value_set_loop fuel s1 req w' [mkValue content c] (content_size (mkValue content c))); [|exact E].
    unfold content_size. by destruct content.
  - exists s1, w'. split_and!; try done; [|eapply walked_step; [done..|]; by exists rows].
    destruct content; cbn; by rewrite ?Z.add_0_r.
Qed.

Lemma scan_value_set_view n asked s t rows key req w :
  snap_rows t s rows → Forall row_ok rows → snap_current s = Some key →
  (∃ r rs, take_key key rows = r :: rs) → readable req key (map row_value (take_key key rows)) →
  mgr_ok (S n) asked w → key ∉ asked →
  ∃ s' w', scan_value_set s req w =
    (Ok ((λ vs, (vs, set_size vs)) <$> wanted req (view_group fate req (key, map row_value (take_key key rows)))), s', w') ∧
    walked t s s' key rows ∧ mgr_left n key asked w'.
Proof.
  intros Hrows Hok Hcur Hne Hp Hm Hask. unfold scan_value_set, wanted, view_group. cbn [fst snd].
  destruct (is_exclude_boundary req key) eqn:Ex.
  { destruct (next_mvcc_entry_spec t s rows key Hrows Hok Hcur) as (s' & Hc' & Hr' & Hn).
    cbn [scan_value_set_loop]. destruct Hne as (r & rs & Htk).
    destruct rows as [|r0 rows]; [done|]. cbn in Htk.
    destruct (bool_decide_reflect (r_key r0 = key)) as [Ek|]; [|done].
    destruct Hn as [-> Hs']. cbn [me_user_key row_entry]. rewrite Ek, Ex. exists s', w. split_and!; [done| |by apply mgr_untouched].
    exists rows. apply Forall_cons in Hok as [_ Hok]. cbn [drop_key length].
    rewrite bool_decide_true by done. split_and!; try done. lia. }
  destruct (scan_loop_view n asked (S (items_left s)) s t rows key req w) as (s' & w' & -> & Hw & Hm'); [|done..|].
  { pose proof (snap_rows_items_left t s rows Hrows).
    pose proof (sublist_length _ _ (take_key_sublist key rows)). lia. }
  exists s', w'. split_and!; [|done..]. cbv zeta.
  destruct (wanted_values req _) as [|v vs]; [done|].
  destruct Hw as (rows' & _ & _ & Hc & _). unfold snap_current in Hc. by rewrite Hc.
Qed.

Lemma drop_key_length k rows : (length (drop_key k rows) ≤ length rows)%nat.
Proof. induction rows as [|r rows IH]; cbn; [done|]. case_bool_decide; cbn; lia. Qed.

Lemma drop_key_ok k rows : Forall row_ok rows → Forall row_ok (drop_key k rows).
Proof. induction 1 as [|r rows Hr Hok IH]; cbn; [constructor|]. case_bool_decide; [done|by constructor]. Qed.

(** Rows still to visit, given the current key of the snapshot. *)
Definition todo_rows (s : Snapshot) (rows : list row) : list row :=
  match snap_current s with Some k => drop_key k rows | None => rows end.

Lemma todo_rows_length s rows : (length (todo_rows s rows) ≤ length rows)%nat.
Proof. unfold todo_rows. destruct (snap_current s); [apply drop_key_length|done]. Qed.

Lemma scan_inner_view n asked fuel s t rows req w data total :
  (length (todo_rows s rows) < fuel)%nat → (length (todo_rows s rows) < n)%nat → mgr_ok n asked w →
  snap_rows t s rows → Forall row_ok rows → current_in_range s →
  Forall (λ g, readable req g.1 g.2) (groups (todo_rows s rows)) →
  NoDup (map fst (groups (todo_rows s rows))) → (∀ k, k ∈ map fst (groups (todo_rows s rows)) → k ∉ asked) →
  ∃ w' n' asked', scan_inner_loop fuel s req w data total =
    (Ok (limited req data total
           (omap (λ g, wanted req (view_group fate req g))
              (in_scan (in_snapshot_range s) req (groups (todo_rows s rows))))), w') ∧ mgr_ok n' asked' w'.
Proof.
  revert n asked s rows w data total.
  induction fuel as [|fuel IH]; intros n asked s rows w data total Hf Hn Hm Hrows Hok Hcur Hp Hnd Hask; [lia|].
  pose proof (next_mvcc_iterator_spec t s rows Hrows Hok Hcur) as Hit. unfold iterator_post in Hit.
  fold (todo_rows s rows) in Hit. cbn [scan_inner_loop].
  destruct (todo_rows s rows) as [|r rs] eqn:Etodo.
  { destruct (next_mvcc_iterator s) as [res ?]. cbn in Hit. subst res. by exists w, n, asked. }
  rewrite groups_cons in *. cbn [in_scan fst].
  destruct (in_snapshot_range s (r_key r)) eqn:Er; cbn [andb].
  2: { destruct (next_mvcc_iterator s) as [res ?]. cbn in Hit. subst res. by exists w, n, asked. }
  destruct Hit as (s1 & -> & Hrows1 & Hcur1 & Hrange1).
  pose proof Hcur1 as Hcur1'. unfold snap_current in Hcur1'. rewrite Hcur1'. clear Hcur1'.
  destruct (is_exceeds (ss_end_key req) (r_key r)); cbn [negb]; [by exists w, n, asked|].
  assert (Forall row_ok (r :: rs)) as Hok1.
  { unfold todo_rows in Etodo. destruct (snap_current s); rewrite <- Etodo; [by apply drop_key_ok|done]. }
  apply Forall_cons in Hp as [Hp1 Hp2]. cbn [length] in Hf, Hn. destruct n as [|n]; [lia|].
  cbn [map fst] in Hnd, Hask. apply NoDup_cons in Hnd as [Hni Hnd]. pose proof (Hask (r_key r) ltac:(left)) as Hk0.
  destruct (scan_value_set_view n asked s1 t (r :: rs) (r_key r) req w)
    as (s2 & w2 & -> & Hw & n2 & asked2 & Hm2 & Hn2 & Hask2); [done..| |done|done|done|].
  { cbn. rewrite bool_decide_true by done. eauto. }
  destruct Hw as (rows2 & Hrows2 & Hok2 & Hcur2 & Hrange2 & Hdrop & Hlen).
  assert (Hvalid : in_snapshot_range s2 = in_snapshot_range s).
  { unfold in_snapshot_range. by rewrite Hrange2, Hrange1. }
  assert (Htodo2 : todo_rows s2 rows2 = drop_key (r_key r) rs).
  { unfold todo_rows. rewrite Hcur2, Hdrop. cbn. by rewrite bool_decide_true. }
  assert (∀ data' total', ∃ w' n' asked', scan_inner_loop fuel s2 req w2 data' total' =
    (Ok (limited req data' total' (omap (λ g, wanted req (view_group fate req g))
      (in_scan (in_snapshot_range s) req (groups (drop_key (r_key r) rs))))), w') ∧ mgr_ok n' asked' w') as Hrec.
  { intros. pose proof (drop_key_length (r_key r) rs).
    destruct (IH n2 asked2 s2 rows2 w2 data' total') as (w' & n' & asked' & E & Hm');
      [rewrite ?Htodo2; lia|rewrite ?Htodo2; lia|done|done|done| |by rewrite Htodo2|by rewrite Htodo2| |].
    - intros k. rewrite Hcur2. intros [= <-]. by rewrite Hvalid.
    - rewrite Htodo2. intros k Hk [->|?]%Hask2; [done|]. by eapply Hask; [right|].
    - exists w', n', asked'. by rewrite E, Htodo2, Hvalid. }
  cbn [omap list_omap]. destruct (wanted req _) as [vs|]; cbn [fmap option_fmap option_map]; [|apply Hrec].
  cbn [limited]. destruct (limit_reached req _ _); [by exists w2, n2, asked2|apply Hrec].
Qed.

(** *** The groups of a store *)
Definition key_asc (a b : bytes * list Value) : Prop := bytes_lt a.1 b.1.

Lemma row_lt_le r1 r2 : row_lt r1 r2 → bytes_le (r_key r1) (r_key r2).
Proof. intros [?|[-> _]]; [apply bytes_le_lteq; by left|apply bytes_le_refl]. Qed.

Lemma drop_key_elem k rows r :
  StronglySorted row_lt rows → Forall (λ r, bytes_le k (r_key r)) rows →
  r ∈ drop_key k rows ↔ r ∈ rows ∧ bytes_lt k (r_key r).
Proof.
  induction 1 as [|r0 rows Hs IH Hall]; intros Hge; cbn.
  { split; [by intros ?%not_elem_of_nil|]. by intros [?%not_elem_of_nil ?]. }
  apply Forall_cons in Hge as [Hk0 Hge]. rewrite Forall_forall in Hall.
  case_bool_decide as E.
  - rewrite IH, elem_of_cons by done. split; [naive_solver|].
    intros [[->|?] Hlt]; [|done]. rewrite E in Hlt. by apply bytes_lt_irrefl in Hlt.
  - split; [|by intros [? _]]. intros Hr. split; [done|].
    apply bytes_le_lteq in Hk0 as [Hk0|Hk0]; [|congruence].
    apply elem_of_cons in Hr as [->|Hr]; [done|].
    eapply bytes_lt_le_trans; [done|]. by apply row_lt_le, Hall.
Qed.

Lemma drop_key_sorted k rows : StronglySorted row_lt rows → StronglySorted row_lt (drop_key k rows).
Proof. induction 1 as [|r rows Hs IH Hall]; cbn; [constructor|]. case_bool_decide; [done|by constructor]. Qed.

Lemma groups_spec n rows :
  (length rows ≤ n)%nat → StronglySorted row_lt rows →
  StronglySorted key_asc (groups rows) ∧
  (∀ g, g ∈ groups rows → newest_first g.2 ∧
     (∃ r, r ∈ rows ∧ r_key r = g.1 ∧ row_value r ∈ g.2) ∧
     ∀ v, v ∈ g.2 ↔ ∃ r, r ∈ rows ∧ r_key r = g.1 ∧ v = row_value r) ∧
  (∀ r, r ∈ rows → ∃ g, g ∈ groups rows ∧ g.1 = r_key r).
Proof.
  revert rows. induction n as [|n IH]; intros rows Hn Hs.
  { destruct rows; [|cbn in Hn; lia]. split; [constructor|]. split; by intros ? ?%not_elem_of_nil. }
  destruct rows as [|r rs].
  { split; [constructor|]. split; by intros ? ?%not_elem_of_nil. }
  rewrite groups_cons. set (k := r_key r).
  assert (Forall (λ r, bytes_le k (r_key r)) (r :: rs)) as Hge.
  { inversion Hs as [|?? _ Hall]; subst. constructor; [apply bytes_le_refl|].
    eapply Forall_impl; [done|]. intros ?. apply row_lt_le. }
  pose proof (λ x, take_key_elem k (r :: rs) x Hs Hge) as Htake.
  inversion Hs as [|?? Hs' _]; subst. apply Forall_cons in Hge as [_ Hge].
  pose proof (λ x, drop_key_elem k rs x Hs' Hge) as Hdrop.
  destruct (IH (drop_key k rs)) as (Hsort & Hg & Hcov).
  { pose proof (drop_key_length k rs). cbn in Hn. lia. }
  { by apply drop_key_sorted. }
  split; [|split].
  - constructor; [done|]. apply Forall_forall. intros g Hgin.
    destruct (Hg g Hgin) as (_ & (r' & [_ Hlt]%Hdrop & Hk' & _) & _).
    unfold key_asc. cbn. by rewrite <- Hk'.
  - intros g [->|Hgin]%elem_of_cons; cbn [fst snd].
    + split; [|split].
      * eapply (StronglySorted_fmap _ row_lt);
          [|eapply StronglySorted_sublist; [apply take_key_sublist|done]].
        intros r1 r2 [_ E1]%Htake [_ E2]%Htake [Hlt|[_ Hlt]]; [|done].
        rewrite E1, E2 in Hlt. by apply bytes_lt_irrefl in Hlt.
      * exists r. split; [left|]. split; [done|]. apply list_elem_of_fmap_2, Htake. split; [left|done].
      * intros v. rewrite list_elem_of_fmap. setoid_rewrite Htake. naive_solver.
    + destruct (Hg g Hgin) as (Hnf & (r' & Hr' & Hk' & Hv') & Helem). split; [done|].
      apply Hdrop in Hr' as [Hr' Hlt]. split; [exists r'; split; [by right|done]|].
      intros v. rewrite Helem. setoid_rewrite Hdrop. setoid_rewrite elem_of_cons.
      rewrite Hk' in Hlt. split; [naive_solver|].
      intros (r0 & [->|Hr0] & E & ->).
      * exfalso. fold k in E. rewrite E in Hlt. by apply bytes_lt_irrefl in Hlt.
      * exists r0. split; [|done]. split; [done|]. by rewrite E.
  - intros r0 Hr0. destruct (decide (r_key r0 = k)) as [Ek|Ek]; [exists (k, map row_value (take_key k (r :: rs))); split; [left|done]|].
    destruct (Hcov r0) as (g & ? & ?); [|exists g; split; [by right|done]].
    apply Hdrop. apply elem_of_cons in Hr0 as [->|Hr0]; [done|]. split; [done|].
    rewrite Forall_forall in Hge. specialize (Hge _ Hr0). apply bytes_le_lteq in Hge as [?|?]; congruence.
Qed.

Lemma key_asc_nodup gs : StronglySorted key_asc gs → NoDup (map fst gs).
Proof.
  induction 1 as [|g gs Hs IH Hall]; cbn; constructor; [|done].
  intros (g' & E & Hg)%list_elem_of_fmap. rewrite Forall_forall in Hall. specialize (Hall g' Hg).
  unfold key_asc in Hall. rewrite E in Hall. by apply bytes_lt_irrefl in Hall.
Qed.

(** The groups of the rows from a seek key on are the version lists of the
    keys that have any. *)
Definition store_groups (db : DB) (t : Z) (seek : bytes) (gs : list (bytes * list Value)) : Prop :=
  StronglySorted key_asc gs ∧
  ∀ k vs, (k, vs) ∈ gs ↔ k ≠ [] ∧ bytes_le seek k ∧ vs ≠ [] ∧ is_versions db t k vs.

Lemma groups_store (db : DB) t seek rows :
  StronglySorted row_lt rows →
  (∀ r, r ∈ rows ↔ row_ok r ∧ bytes_le seek (r_key r) ∧
                   db_get db (mvcc_key_buf t (r_key r) (r_ver r)) = Some (r_val r)) →
  store_groups db t seek (groups rows).
Proof.
  intros Hs Hin. destruct (groups_spec (length rows) rows (le_n _) Hs) as (Hsort & Hg & Hcov).
  split; [done|].
  assert (Hiv : ∀ k vs, (k, vs) ∈ groups rows → k ≠ [] ∧ bytes_le seek k ∧ vs ≠ [] ∧ is_versions db t k vs).
  { intros k vs Hgin. destruct (Hg _ Hgin) as (Hnf & (r & Hr & Hk & Hv) & Helem). cbn in *.
    apply Hin in Hr as ((Hne & _) & Hle & _). rewrite Hk in *. split; [done|]. split; [done|].
    split; [intros ->; by apply not_elem_of_nil in Hv|]. split; [done|].
    intros [c ver]. cbn. rewrite Helem. unfold has_version. split.
    - intros (r' & ((_ & Hv' & Hval) & _ & Hget)%Hin & <- & E). unfold row_value in E. simplify_eq.
      split; [done|]. by rewrite stored_content_of.
    - intros [Hv' Hget]. exists (mkRow k ver (stored c)). split.
      + apply Hin. cbn. split; [|done]. split; [done|]. split; [done|]. apply stored_ok.
      + split; [done|]. unfold row_value. cbn. by rewrite content_of_stored. }
  intros k vs. split; [apply Hiv|].
  intros (Hne & Hle & Hvs & Hv). destruct vs as [|v vs]; [done|].
  assert (v ∈ v :: vs) as Hv0 by left. apply (proj2 Hv) in Hv0 as [Hu Hget].
  destruct (Hcov (mkRow k (v_version v) (stored (v_content v)))) as ([k' vs'] & Hgin & Ek).
  { apply Hin. cbn. split; [|done]. split; [done|]. split; [done|]. apply stored_ok. }
  cbn in Ek. subst k'. destruct (Hiv _ _ Hgin) as (_ & _ & _ & Hv').
  by rewrite (is_versions_unique db t k (v :: vs) vs' Hv Hv').
Qed.

(** *** The scanned range *)
Definition valid_key (mode : SnapshotMode) (desc : ShardDesc) (k : bytes) : bool :=
  match mode with
  | ModeKey key => bytes_eqb key k
  | ModePrefix p => starts_with k p
  | ModeStart s => in_range (default (start_key desc) s) (end_key desc) k
  end.

Lemma in_range_antitone s e k1 k2 :
  bytes_le s k1 → bytes_le k1 k2 → in_range s e k2 = true → in_range s e k1 = true.
Proof.
  rewrite !in_range_spec. intros ? Hle [_ [Hlt|?]]; [|by auto].
  split; [done|left]. by eapply bytes_le_lt_trans.
Qed.

Lemma valid_antitone mode desc k1 k2 :
  (∀ k, mode ≠ ModeKey k) → bytes_le (snapshot_seek_key mode desc) k1 → bytes_le k1 k2 →
  valid_key mode desc k2 = true → valid_key mode desc k1 = true.
Proof.
  intros Hm Hseek Hle. destruct mode as [[s|]|k|p]; cbn in *.
  - by apply in_range_antitone.
  - by apply in_range_antitone.
  - by destruct (Hm k).
  - rewrite <- !prefix_range_boundary. by apply in_range_antitone.
Qed.

Lemma exceeds_monotone e k1 k2 : bytes_le k1 k2 → is_exceeds e k1 = true → is_exceeds e k2 = true.
Proof.
  destruct e as [e|]; [|done]. cbn. rewrite !bytes_ltb_lt. intros. by eapply bytes_lt_le_trans.
Qed.

Lemma in_scan_elem valid req gs g :
  StronglySorted key_asc gs →
  (∀ g1 g2, g1 ∈ gs → g2 ∈ gs → bytes_le g1.1 g2.1 → valid g2.1 = true → valid g1.1 = true) →
  g ∈ in_scan valid req gs ↔ g ∈ gs ∧ valid g.1 = true ∧ is_exceeds (ss_end_key req) g.1 = false.
Proof.
  induction 1 as [|g0 gs Hs IH Hall]; intros Hanti; cbn [in_scan].
  { split; [by intros ?%not_elem_of_nil|]. by intros [?%not_elem_of_nil _]. }
  rewrite Forall_forall in Hall.
  assert (Hle : ∀ g', g' ∈ g0 :: gs → bytes_le g0.1 g'.1).
  { intros g' [->|Hg]%elem_of_cons; [apply bytes_le_refl|]. apply bytes_le_lteq. left. by apply Hall. }
  destruct (valid g0.1) eqn:Ev, (is_exceeds (ss_end_key req) g0.1) eqn:Ex; cbn [andb negb].
  - split; [by intros ?%not_elem_of_nil|]. intros (Hg & _ & Hx).
    rewrite (exceeds_monotone _ _ _ (Hle g Hg) Ex) in Hx. done.
  - rewrite !elem_of_cons, IH; [naive_solver|]. intros. eapply Hanti; eauto; by right.
  - split; [by intros ?%not_elem_of_nil|]. intros (Hg & Hv & _).
    rewrite (Hanti g0 g) in Ev; [done|left|done|by apply Hle|done].
  - split; [by intros ?%not_elem_of_nil|]. intros (Hg & Hv & _).
    rewrite (Hanti g0 g) in Ev; [done|left|done|by apply Hle|done].
Qed.

Lemma in_scan_sublist valid req gs : in_scan valid req gs `sublist_of` gs.
Proof.
  induction gs as [|g gs IH]; cbn; [done|]. case_match; [by constructor|apply sublist_nil_l].
Qed.

(** *** Limits *)
Definition with_limit (req : ShardScanRequest) (n : Z) : ShardScanRequest :=
  mkShardScanRequest (ss_shard_id req) (ss_start_version req) n (ss_limit_bytes req)
    (ss_exclude_start_key req) (ss_exclude_end_key req) (ss_prefix req) (ss_start_key req)
    (ss_end_key req) (ss_include_raw_data req) (ss_ignore_txn_intent req) (ss_allow_scan_moving_shard req).

Lemma in_scan_with_limit valid req n gs : in_scan valid (with_limit req n) gs = in_scan valid req gs.
Proof. induction gs as [|g gs IH]; cbn; [done|]. by rewrite IH. Qed.

Lemma limited_unlimited req data total todo :
  ss_limit req = 0 → ss_limit_bytes req = 0 →
  limited req data total todo = mkShardScanResponse (data ++ todo) false.
Proof.
  intros Hl Hb. revert data total. induction todo as [|s todo IH]; intros data total; cbn [limited].
  { by rewrite app_nil_r. }
  unfold limit_reached. rewrite Hl, Hb. cbn. by rewrite IH, <- app_assoc.
Qed.

Lemma limited_take req n data total todo :
  ss_limit req = Z.of_nat n → ss_limit_bytes req = 0 → (length data < n)%nat →
  limited req data total todo =
    mkShardScanResponse (take n (data ++ todo)) (bool_decide (n ≤ length (data ++ todo)))%nat.
Proof.
  intros Hl Hb. revert data total. induction todo as [|s todo IH]; intros data total Hn; cbn [limited].
  { rewrite app_nil_r, take_ge by lia. by rewrite bool_decide_false by lia. }
  unfold limit_reached. rewrite Hl, Hb, length_app. cbn [length].
  rewrite (proj2 (Z.eqb_neq (Z.of_nat n) 0)) by lia. cbn [negb andb orb]. rewrite orb_false_r.
  destruct (Z.eqb_spec (Z.of_nat n) (Z.of_nat (length data + 1))) as [E|E].
  - rewrite (cons_middle s data todo), app_assoc, take_app_length' by (rewrite length_app; cbn; lia).
    rewrite bool_decide_true; [done|]. rewrite !length_app. cbn. lia.
  - rewrite IH by (rewrite length_app; cbn; lia). by rewrite <- app_assoc.
Qed.

(** *** The whole handler *)
Lemma scan_run_view n ctx req sid t desc w :
  scan_forward ctx req = Ok None → ss_shard_id req = sid →
  db_wf (ge_db (engine w)) → user_table t →
  gc_shard_descs (ge_core (engine w)) !! sid = Some desc → sd_table_id desc = t →
  (∀ k vs, k ≠ [] → is_versions (ge_db (engine w)) t k vs → readable req k vs) →
  (∀ s, ge_snapshot (engine w) sid (scan_request req).2 = Ok s → items_left s < n)%nat → mgr_ok n [] w →
  let '(req', mode) := scan_request req in
  ∃ gs w' n' asked, store_groups (ge_db (engine w)) t (snapshot_seek_key mode desc) gs ∧
    scan engine ctx req w =
      (Ok (limited req' [] 0 (omap (λ g, wanted req' (view_group fate req g)) (in_scan (valid_key mode desc) req' gs))), w') ∧
    mgr_ok n' asked w'.
Proof.
  intros Hfw <- Hwf Ht Hd <- Hplain Hn Hm. unfold scan. rewrite Hfw.
  assert (Hreq : ss_shard_id (scan_request req).1 = ss_shard_id req ∧
    (∀ k vs, readable req k vs → readable (scan_request req).1 k vs) ∧
    (∀ g, view_group fate (scan_request req).1 g = view_group fate req g) ∧ ∀ k, (scan_request req).2 ≠ ModeKey k).
  { unfold scan_request. destruct (ss_prefix req); by split_and!. }
  destruct (scan_request req) as [req' mode]. cbn [fst snd] in Hreq, Hn. destruct Hreq as (Hsid & Hpl & Hvg & Hmode).
  destruct (snapshot_rows (engine w) (ss_shard_id req) desc mode Hwf Hd Ht)
    as (s & rows & Hsnap & Hrows & Hok & Hcur & Hrange & Hs & Hge & Hin).
  pose proof (groups_store (ge_db (engine w)) (sd_table_id desc) _ rows Hs Hin) as Hgs.
  assert (in_snapshot_range s = valid_key mode desc) as Hvk.
  { unfold in_snapshot_range. rewrite Hrange. by destruct mode. }
  assert (todo_rows s rows = rows) as Htodo by (unfold todo_rows; by rewrite Hcur).
  pose proof (snap_rows_items_left _ s rows Hrows) as Hleft. specialize (Hn s Hsnap).
  rewrite Hsid, Hsnap. unfold scan_inner.
  destruct (scan_inner_view n [] (S (S (items_left s))) s (sd_table_id desc) rows req' w [] 0) as (w' & n' & asked & E & Hm');
    [rewrite ?Htodo; lia..|done|done|done| | | | |].
  - intros k. by rewrite Hcur.
  - rewrite Htodo. apply Forall_forall. intros [k vs] Hg. apply Hpl.
    apply (proj2 Hgs) in Hg as (Hk & _ & _ & Hv). by apply Hplain.
  - rewrite Htodo. by apply key_asc_nodup, Hgs.
  - intros k _. by intros ?%not_elem_of_nil.
  - exists (groups rows), w', n', asked. split; [done|]. split; [|done]. rewrite E, Htodo, Hvk. do 3 f_equal.
    apply list_omap_ext. clear E. generalize (in_scan (valid_key mode desc) req' (groups rows)) as gs.
    induction gs as [|g gs IH]; [constructor|]. constructor; [by rewrite Hvg|done].
Qed.

Lemma wanted_key req g s : wanted req g = Some s → vs_user_key s = g.1 ∧ vs_values s = wanted_values req g.2 ∧
  vs_values s ≠ [] ∧ is_exclude_boundary req g.1 = false.
Proof.
  unfold wanted. destruct (is_exclude_boundary req g.1); [done|].
  destruct (wanted_values req g.2) as [|v vs] eqn:E; [done|]. by intros [= <-].
Qed.

Lemma omap_wanted_sorted req req' gs :
  StronglySorted key_asc gs →
  StronglySorted (λ a b, bytes_lt (vs_user_key a) (vs_user_key b))
    (omap (λ g, wanted req' (view_group fate req g)) gs).
Proof.
  induction 1 as [|g gs Hs IH Hall]; cbn; [constructor|].
  destruct (wanted req' (view_group fate req g)) as [s|] eqn:E; [|done]. constructor; [done|].
  rewrite Forall_forall in Hall. apply Forall_forall. intros s' (g' & Hg' & E')%list_elem_of_omap.
  apply wanted_key in E as [-> _]. apply wanted_key in E' as [-> _]. exact (Hall g' Hg').
Qed.

(** The keys a request asks for. *)
Definition asks_for (req : ShardScanRequest) (desc : ShardDesc) (k : bytes) : bool :=
  let '(req', mode) := scan_request req in
  valid_key mode desc k && negb (is_exceeds (ss_end_key req') k) && negb (is_exclude_boundary req' k).

Lemma scan_request_values req vs : wanted_values (scan_request req).1 vs = wanted_values req vs.
Proof. unfold scan_request. by destruct (ss_prefix req). Qed.

Lemma scan_exact_view n ctx req sid t desc w :
  ss_limit req = 0 → ss_limit_bytes req = 0 →
  scan_forward ctx req = Ok None → ss_shard_id req = sid →
  db_wf (ge_db (engine w)) → user_table t →
  gc_shard_descs (ge_core (engine w)) !! sid = Some desc → sd_table_id desc = t →
  (∀ k vs, k ≠ [] → is_versions (ge_db (engine w)) t k vs → readable req k vs) →
  (∀ s, ge_snapshot (engine w) sid (scan_request req).2 = Ok s → items_left s < n)%nat → mgr_ok n [] w →
  ∃ data w' n' asked, scan engine ctx req w = (Ok (mkShardScanResponse data false), w') ∧ mgr_ok n' asked w' ∧
    StronglySorted (λ a b, bytes_lt (vs_user_key a) (vs_user_key b)) data ∧
    ∀ k vals, mkValueSet k vals ∈ data ↔
      k ≠ [] ∧ asks_for req desc k = true ∧ vals ≠ [] ∧
      ∃ vs, is_versions (ge_db (engine w)) t k vs ∧ vals = wanted_values req (viewed fate req vs).
Proof.
  intros Hl Hb Hfw Hsid Hwf Ht Hd Htd Hrd Hn Hm.
  pose proof (scan_run_view n ctx req sid t desc w Hfw Hsid Hwf Ht Hd Htd Hrd Hn Hm) as Hrun.
  pose proof (scan_request_values req) as Hwv. unfold asks_for.
  assert (Hlim : ss_limit (scan_request req).1 = 0 ∧ ss_limit_bytes (scan_request req).1 = 0 ∧
    ∀ k, (scan_request req).2 ≠ ModeKey k).
  { unfold scan_request. destruct (ss_prefix req); by split_and!. }
  destruct (scan_request req) as [req' mode]. cbn [fst snd] in *. destruct Hlim as (Hl' & Hb' & Hmode).
  destruct Hrun as (gs & w' & n' & asked & [Hsort Hgs] & -> & Hm'). rewrite limited_unlimited by done. cbn [app].
  do 4 eexists. split; [done|]. split; [exact Hm'|]. split.
  { apply omap_wanted_sorted. eapply StronglySorted_sublist; [apply in_scan_sublist|done]. }
  intros k vals. rewrite list_elem_of_omap.
  assert (Hanti : ∀ g1 g2, g1 ∈ gs → g2 ∈ gs → bytes_le g1.1 g2.1 →
    valid_key mode desc g2.1 = true → valid_key mode desc g1.1 = true).
  { intros [k1 vs1] [k2 vs2] (_ & Hle & _)%Hgs _. by apply valid_antitone. }
  split.
  - intros ([k' vs] & (Hg & Hv & Hx)%in_scan_elem & Hw); [|done..].
    apply wanted_key in Hw as (Ek & Evs & Hne & Hex). cbn in *. subst k' vals.
    apply Hgs in Hg as (Hk & _ & _ & Hvs). split; [done|]. rewrite Hv, Hx, Hex. split; [done|].
    split; [done|]. exists vs. by rewrite Hwv.
  - intros (Hk & Hask & Hne & vs & Hvs & ->).
    rewrite !andb_true_iff, !negb_true_iff in Hask. destruct Hask as [[Hval Hx] Hex]. exists (k, vs). split.
    + apply in_scan_elem; [done..|]. cbn. split; [|done]. apply Hgs. split; [done|].
      assert (vs ≠ []).
      { intros ->. apply Hne. unfold viewed, wanted_values. by destruct (ss_ignore_txn_intent req), (ss_include_raw_data req). }
      split; [|done]. destruct mode as [[s|]|k0|p]; cbn in *.
      * by apply in_range_spec in Hval as [? _].
      * by apply in_range_spec in Hval as [? _].
      * by destruct (Hmode k0).
      * rewrite <- prefix_range_boundary in Hval. by apply in_range_spec in Hval as [? _].
    + unfold wanted, view_group. cbn [fst snd]. rewrite Hex, Hwv. by destruct (wanted_values req _).
Qed.

End View.

(** *** Scans that do not need the latch manager *)
Lemma plain_readable req k vs w : plain req vs → readable (λ _, None) (λ _ _ w', w' = w) req k vs.
Proof. intros [?|?]; [by left|]. right. by exists None, vs. Qed.

Lemma scan_run ctx req sid t desc w :
  scan_forward ctx req = Ok None → ss_shard_id req = sid →
  db_wf (ge_db (engine w)) → user_table t →
  gc_shard_descs (ge_core (engine w)) !! sid = Some desc → sd_table_id desc = t →
  (∀ k vs, k ≠ [] → is_versions (ge_db (engine w)) t k vs → plain req vs) →
  let '(req', mode) := scan_request req in
  ∃ gs, store_groups (ge_db (engine w)) t (snapshot_seek_key mode desc) gs ∧
    scan engine ctx req w =
      (Ok (limited req' [] 0 (omap (wanted req') (in_scan (valid_key mode desc) req' gs))), w).
Proof.
  intros Hfw Hsid Hwf Ht Hd Htd Hplain.
  destruct (snapshot_rows (engine w) sid desc (scan_request req).2 Hwf Hd ltac:(by rewrite Htd)) as (s & _ & Hsnap & _).
  pose proof (scan_run_view (λ _, None) (λ _ _ w', w' = w) (S (items_left s)) ctx req sid t desc w
    Hfw Hsid Hwf Ht Hd Htd) as Hrun.
  destruct (scan_request req) as [req' mode] eqn:Ereq. destruct Hrun as (gs & w' & n' & asked & Hgs & E & ->); [..|done|].
  - intros k vs Hk Hv. by eapply plain_readable, Hplain.
  - intros s0. cbn [snd] in *. rewrite Hsnap. intros [= <-]. lia.
  - exists gs. split; [done|]. rewrite E. do 3 f_equal. apply list_omap_ext.
    assert (Hin : ∀ g, g ∈ in_scan (valid_key mode desc) req' gs → g ∈ gs).
    { intros g Hg. eapply elem_of_sublist; [exact Hg|apply in_scan_sublist]. }
    clear E. revert Hin. generalize (in_scan (valid_key mode desc) req' gs) as l.
    induction l as [|[k vs] l IH]; intros Hin; [constructor|]. constructor; [|apply IH; intros; apply Hin; by right].
    destruct (proj1 (proj2 Hgs k vs) (Hin _ ltac:(left))) as (Hk & _ & _ & Hv).
    unfold view_group. cbn [fst snd]. by rewrite viewed_plain by (by eapply Hplain).
Qed.

Lemma scan_exact_plain ctx req sid t desc w :
  ss_limit req = 0 → ss_limit_bytes req = 0 →
  scan_forward ctx req = Ok None → ss_shard_id req = sid →
  db_wf (ge_db (engine w)) → user_table t →
  gc_shard_descs (ge_core (engine w)) !! sid = Some desc → sd_table_id desc = t →
  (∀ k vs, k ≠ [] → is_versions (ge_db (engine w)) t k vs → plain req vs) →
  ∃ data, scan engine ctx req w = (Ok (mkShardScanResponse data false), w) ∧
    StronglySorted (λ a b, bytes_lt (vs_user_key a) (vs_user_key b)) data ∧
    ∀ k vals, mkValueSet k vals ∈ data ↔
      k ≠ [] ∧ asks_for req desc k = true ∧ vals ≠ [] ∧
      ∃ vs, is_versions (ge_db (engine w)) t k vs ∧ vals = wanted_values req vs.
Proof.
  intros Hl Hb Hfw Hsid Hwf Ht Hd Htd Hplain.
  destruct (snapshot_rows (engine w) sid desc (scan_request req).2 Hwf Hd ltac:(by rewrite Htd)) as (s & _ & Hsnap & _).
  destruct (scan_exact_view (λ _, None) (λ _ _ w', w' = w) (S (items_left s)) ctx req sid t desc w)
    as (data & w' & n' & asked & E & -> & Hs & Hdata); try done.
  - intros k vs Hk Hv. by eapply plain_readable, Hplain.
  - intros s0. rewrite Hsnap. intros [= <-]. lia.
  - exists data. split; [done|]. split; [done|]. intros k vals. rewrite Hdata.
    split; intros (Hk & Ha & Hne & vs & Hv & ->); (split; [done|]; split; [done|]; split; [done|]; exists vs);
      rewrite viewed_plain in * by (by eapply Hplain); done.
Qed.

(** a scan with a row limit returns the first [limit] entries of the
    unlimited scan, and announces more exactly when the limit was reached. *)
Theorem scan_limit_prefix ctx req n sid t desc w :
  (0 < n)%nat → ss_limit_bytes req = 0 →
  scan_forward ctx req = Ok None → ss_shard_id req = sid →
  db_wf (ge_db (engine w)) → user_table t →
  gc_shard_descs (ge_core (engine w)) !! sid = Some desc → sd_table_id desc = t →
  (∀ k vs, k ≠ [] → is_versions (ge_db (engine w)) t k vs → plain req vs) →
  ∃ full, scan engine ctx (with_limit req 0) w = (Ok (mkShardScanResponse full false), w) ∧
    scan engine ctx (with_limit req (Z.of_nat n)) w =
      (Ok (mkShardScanResponse (take n full) (bool_decide (n ≤ length full)%nat)), w).
Proof.
  intros Hn Hb Hfw Hsid Hwf Ht Hd Htd Hplain.
  pose proof (λ z, scan_run ctx (with_limit req z) sid t desc w Hfw Hsid Hwf Ht Hd Htd Hplain) as Hrun.
  assert (Hreq : ∀ z, scan_request (with_limit req z) =
    (with_limit (scan_request req).1 z, (scan_request req).2)).
  { intros z. unfold scan_request. cbn. by destruct (ss_prefix req). }
  assert (Hb' : ss_limit_bytes (scan_request req).1 = 0).
  { unfold scan_request. by destruct (ss_prefix req). }
  pose proof (Hrun 0) as Hrun0. specialize (Hrun (Z.of_nat n)). rewrite Hreq in Hrun, Hrun0.
  destruct Hrun0 as (gs0 & Hgs0 & ->). destruct Hrun as (gs & Hgs & ->).
  assert (gs0 = gs) as ->.
  { eapply (sorted_strict_unique key_asc); [|apply Hgs0|apply Hgs|].
    - intros ? ? ? ?. eapply bytes_lt_irrefl, bytes_lt_trans; eauto.
    - intros [k vs]. by rewrite (proj2 Hgs0), (proj2 Hgs). }
  rewrite limited_unlimited, (limited_take _ n) by (done || cbn; lia).
  rewrite !in_scan_with_limit. eexists. split; reflexivity.
Qed.

End Scan.

(** ** Merging the two sides of a moving shard *)
Abbreviation keys_ascending := (StronglySorted (λ a b, bytes_lt (vs_user_key a) (vs_user_key b))).

(** What a merged scan must hold: the destination's entry where it has one,
    the source's otherwise; when the destination stopped early, nothing past
    its last key. *)
Definition merged_elem (has_more : bool) (target source : list ValueSet) (s : ValueSet) : Prop :=
  s ∈ target ∨
  (s ∈ source ∧ (∀ x, x ∈ target → vs_user_key x ≠ vs_user_key s) ∧
   (has_more = false ∨ ∃ x, x ∈ target ∧ bytes_lt (vs_user_key s) (vs_user_key x))).

Lemma ascending_lt x l y : keys_ascending (x :: l) → y ∈ l → bytes_lt (vs_user_key x) (vs_user_key y).
Proof. intros Hs Hy. inversion Hs as [|?? _ Hf]; subst. rewrite Forall_forall in Hf. by apply Hf. Qed.

Lemma bytes_lt_ne a b : bytes_lt a b → a ≠ b.
Proof. intros Hlt ->. by apply bytes_lt_irrefl in Hlt. Qed.

Lemma merge_elem fuel has_more target source s :
  (length target + length source < fuel)%nat → keys_ascending target → keys_ascending source →
  s ∈ merge_value_sets fuel has_more target source ↔ merged_elem has_more target source s.
Proof.
  unfold merged_elem. revert target source.
  induction fuel as [|fuel IH]; intros target source Hf Ht Hs; [lia|].
  destruct target as [|x target], source as [|y source]; cbn [merge_value_sets].
  - split; [by intros ?%not_elem_of_nil|]. by intros [?%not_elem_of_nil|[?%not_elem_of_nil _]].
  - destruct has_more; cbn [negb].
    { split; [by intros ?%not_elem_of_nil|].
      intros [?%not_elem_of_nil|(_ & _ & [?|(x & ?%not_elem_of_nil & _)])]; done. }
    inversion Hs; subst. rewrite elem_of_cons, IH by (done || cbn in *; lia).
    rewrite elem_of_cons. setoid_rewrite elem_of_nil. naive_solver.
  - inversion Ht; subst. rewrite elem_of_cons, IH by (done || cbn in *; lia).
    rewrite !elem_of_cons. setoid_rewrite elem_of_nil. naive_solver.
  - pose proof (ascending_lt x target) as Hx. pose proof (ascending_lt y source) as Hy.
    specialize (λ z, Hx z Ht). specialize (λ z, Hy z Hs).
    inversion Ht; inversion Hs; subst.
    destruct (bytes_cmp (vs_user_key x) (vs_user_key y)) eqn:E.
    + apply bytes_cmp_eq in E. rewrite elem_of_cons, IH by (done || cbn in *; lia).
      setoid_rewrite elem_of_cons. split.
      * intros [->|[?|(Hin & Hne & Hm)]]; [by auto..|]. right. split; [by right|]. split.
        -- intros z [->|Hz]; [|by auto]. rewrite E. by apply bytes_lt_ne, Hy.
        -- destruct Hm as [?|(z & ? & ?)]; [by left|right]. exists z. auto.
      * intros [[?|?]|([->|Hin] & Hne & Hm)]; [by auto..| |].
        -- by destruct (Hne x (or_introl eq_refl)).
        -- right. right. split; [done|]. split; [auto|].
           destruct Hm as [?|(z & [->|?] & Hlt)]; [by left| |right; eauto].
           exfalso. rewrite E in Hlt. eapply bytes_lt_irrefl, bytes_lt_trans; [done|by apply Hy].
    + change (bytes_lt (vs_user_key x) (vs_user_key y)) in E.
      rewrite elem_of_cons, IH by (done || cbn in *; lia). setoid_rewrite elem_of_cons.
      assert (∀ z, z = y ∨ z ∈ source → bytes_lt (vs_user_key x) (vs_user_key z)) as Hxy.
      { intros z [->|Hz]; [done|]. eapply bytes_lt_trans; [done|by apply Hy]. }
      split.
      * intros [->|[?|(Hin & Hne & Hm)]]; [by auto..|]. right. split; [done|]. split.
        -- intros z [->|Hz]; [|by auto]. by apply bytes_lt_ne, Hxy.
        -- destruct Hm as [?|(z & ? & ?)]; [by left|right]. exists z. auto.
      * intros [[?|?]|(Hin & Hne & Hm)]; [by auto..|]. right. right. split; [done|]. split; [auto|].
        destruct Hm as [?|(z & [->|?] & Hlt)]; [by left| |right; eauto].
        exfalso. eapply bytes_lt_irrefl, bytes_lt_trans; [done|by apply Hxy].
    + assert (bytes_lt (vs_user_key y) (vs_user_key x)) as Hyx.
      { unfold bytes_lt. by rewrite bytes_cmp_antisym, E. }
      rewrite elem_of_cons, IH by (done || cbn in *; lia). setoid_rewrite elem_of_cons. split.
      * intros [->|[?|(Hin & Hne & Hm)]]; [|by auto|].
        -- right. split; [by left|]. split; [|right; exists x; auto].
           intros z [->|Hz] Eq; (eapply bytes_lt_ne; [|symmetry; exact Eq]); [done|].
           eapply bytes_lt_trans; [done|by apply Hx].
        -- right. split; [by right|]. done.
      * intros [?|([->|Hin] & Hne & Hm)]; [by auto..|]. right. right. done.
Qed.

(** while a shard is in two groups, the merged scan is the union of the
    two answers with the destination's entry winning, cut at the
    destination's last key when the destination has more to return. *)
Theorem merge_scan_union target source s :
  keys_ascending (sr_data target) → keys_ascending (sr_data source) →
  s ∈ sr_data (merge_scan_response target source) ↔
  merged_elem (sr_has_more target) (sr_data target) (sr_data source) s.
Proof. intros Ht Hs. unfold merge_scan_response. cbn [sr_data]. apply merge_elem; [lia|done..]. Qed.

Lemma merge_scan_union_witness :
  mkValueSet key_b [] ∈ sr_data (merge_scan_response
    (mkShardScanResponse [mkValueSet key_a []] false) (mkShardScanResponse [mkValueSet key_b []] false)).
Proof.
  apply merge_scan_union; [repeat constructor|repeat constructor|]. right. split; [left|].
  split; [|left; reflexivity]. intros x Hx. apply list_elem_of_singleton in Hx as ->. discriminate.
Defined.

(** When the source stopped early and the destination did not, the merged
    answer can run past the source's last key: its last key is then beyond
    keys of the source that were not returned, and a client that continues
    behind it never sees them. *)
Theorem merge_scan_can_skip_source :
  ∃ target source rest,
    keys_ascending (sr_data target) ∧ keys_ascending (sr_data source ++ rest) ∧
    sr_has_more source = true ∧ rest ≠ [] ∧
    ∃ front last, sr_data (merge_scan_response target source) = front ++ [last] ∧
      Forall (λ s, bytes_lt (vs_user_key s) (vs_user_key last) ∧
                   s ∉ sr_data (merge_scan_response target source)) rest.
Proof.
  exists (mkShardScanResponse [mkValueSet (str_bytes "z") []] false),
    (mkShardScanResponse [mkValueSet (str_bytes "a") []] true), [mkValueSet (str_bytes "b") []].
  split; [repeat constructor|]. split; [repeat constructor|]. split; [done|]. split; [done|].
  exists [mkValueSet (str_bytes "a") []], (mkValueSet (str_bytes "z") []). split; [done|].
  repeat constructor. intros [?|[?|?%not_elem_of_nil]%elem_of_cons]%elem_of_cons; done.
Qed.

Definition raw_scan : ShardScanRequest :=
  mkShardScanRequest 1 u64_MAX 0 0 false false None None None true true false.

Lemma scan_limit_prefix_witness :
  ∃ full, scan id ExecCtx_default (with_limit raw_scan 1) (sample_engine sample_ops)
    = (Ok (mkShardScanResponse (take 1 full) (bool_decide (1 ≤ length full)%nat)), sample_engine sample_ops).
Proof.
  destruct (scan_limit_prefix (W := sample_world) id ExecCtx_default raw_scan 1 1 sample_table sample_shard
    (sample_engine sample_ops)) as (full & _ & E); try reflexivity.
  - lia.
  - by apply (sample_serves sample_ops).
  - by split.
  - intros k vs _ _. by left.
  - exists full. exact E.
Defined.
