(* ===== verification/EvalWrite.v ===== *)
(** * Non-transactional commands of a group

    [batch_write] ([cmd_write.rs]), [ingest_value_set] ([cmd_ingest.rs]) and
    the shard operations [split_shard], [merge_shard], [accept_shard],
    [add_shard].  The clock of [next_version] is a parameter: its [i]-th
    reading. *)

From S2P Require Import Prelude Bytes Api Schema RocksDb Keys Engine Cas EvalTxn.

Section Write.
  Context {DB : Type} `{RocksDb DB} `{Codec WriteBatch}.
  Variable next_version : nat → Z.

Fixpoint all_payloads (ge : GroupEngine DB) (shard_id : Z) (keys : list bytes) : Result (list ValueSet) :=
  match keys with
  | [] => Ok []
  | k :: keys' =>
      let? p := ge_get_all_versions ge shard_id k in
      let? ps := all_payloads ge shard_id keys' in Ok (p :: ps)
  end.

Definition batch_forward (exec_ctx : ExecCtx) (ge : GroupEngine DB) (req : ShardWriteRequest) : Result unit :=
  match ec_move_shard_desc exec_ctx with
  | None => Ok tt
  | Some desc =>
      let? sd := get_shard_desc desc in
      if sd_id sd =? sw_shard_id req then
        let? payloads := all_payloads ge (sw_shard_id req)
          (map del_key (sw_deletes req) ++ map put_key (sw_puts req)) in
        Err (Forward (mkForwardCtx (sd_id sd) (md_dest_group_id desc) payloads))
      else Ok tt
  end.

(** [std::cmp::max(prev_version + 1, next_version())]; the sum wraps. *)
Definition write_version (prev_value : option Value) (tick : nat) : Z :=
  Z.max (u64_add (match prev_value with Some v => v_version v | None => 0 end) 1) (next_version tick).

(** The loop over [deletes]; [idx] counts the deletes, [tick] the clock readings. *)
Fixpoint batch_deletes (ge : GroupEngine DB) (shard_id : Z) (idx : Z) (tick : nat)
    (deletes : list DeleteRequest) (wb : WriteBatch) : Result (WriteBatch * list WriteResponse) :=
  match deletes with
  | [] => Ok (wb, [])
  | del :: deletes' =>
      let? prev_value := ge_get ge shard_id (del_key del) in
      let? failed := eval_conditions prev_value (del_conditions del) in
      match failed with
      | Some cond_idx => Err (CasFailed idx cond_idx prev_value)
      | None =>
          let? wb' := ge_tombstone ge wb shard_id (del_key del) (write_version prev_value tick) in
          let? '(wb'', resps) := batch_deletes ge shard_id (idx + 1) (S tick) deletes' wb' in
          Ok (wb'', mkWriteResponse (if del_take_prev_value del then prev_value else None) :: resps)
      end
  end.

Fixpoint batch_puts (ge : GroupEngine DB) (shard_id : Z) (idx : Z) (tick : nat)
    (puts : list PutRequest) (wb : WriteBatch) : Result (WriteBatch * list WriteResponse) :=
  match puts with
  | [] => Ok (wb, [])
  | put :: puts' =>
      if negb (put_put_type put =? PutType_i32 PutNone) then Panic
      else
        let? prev_value := ge_get ge shard_id (put_key put) in
        let? failed := eval_conditions prev_value (put_conditions put) in
        match failed with
        | Some cond_idx => Err (CasFailed idx cond_idx prev_value)
        | None =>
            let? wb' := ge_put ge wb shard_id (put_key put) (put_value put) (write_version prev_value tick) in
            let? '(wb'', resps) := batch_puts ge shard_id (idx + 1) (S tick) puts' wb' in
            Ok (wb'', mkWriteResponse (if put_take_prev_value put then prev_value else None) :: resps)
        end
  end.

Definition batch_write (exec_ctx : ExecCtx) (ge : GroupEngine DB) (req : ShardWriteRequest) :
    Result (option EvalResult * ShardWriteResponse) :=
  match sw_deletes req, sw_puts req with
  | [], [] => Ok (None, mkShardWriteResponse [] [])
  | _, _ =>
      do? batch_forward exec_ctx ge req in
      let num_deletes := length (sw_deletes req) in
      let? '(wb1, dels) := batch_deletes ge (sw_shard_id req) 0 0 (sw_deletes req) [] in
      let? '(wb2, puts) :=
        batch_puts ge (sw_shard_id req) (Z.of_nat num_deletes) num_deletes (sw_puts req) wb1 in
      Ok (Some (EvalResult_with_batch (encode_to_vec wb2)), mkShardWriteResponse dels puts)
  end.

(** ** [cmd_ingest.rs] *)
Fixpoint ingest_values (ge : GroupEngine DB) (shard_id : Z) (key : bytes) (values : list Value)
    (wb : WriteBatch) : Result WriteBatch :=
  match values with
  | [] => Ok wb
  | v :: values' =>
      let? wb' :=
        match v_content v with
        | Some content => ge_put ge wb shard_id key content (v_version v)
        | None => ge_tombstone ge wb shard_id key (v_version v)
        end in
      ingest_values ge shard_id key values' wb'
  end.
Definition ingest_value_set (ge : GroupEngine DB) (shard_id : Z) (value_set : ValueSet) :
    Result (option EvalResult) :=
  match vs_values value_set with
  | [] => Ok None
  | values =>
      let? cur := ge_get ge shard_id (vs_user_key value_set) in
      match cur with
      | Some _ => Ok None
      | None =>
          let? wb := ingest_values ge shard_id (vs_user_key value_set) values [] in
          Ok (Some (mkEvalResult (Some (encode_to_vec wb)) None))
      end
  end.

(** ** Shard operations *)
Definition split_shard (raw_split_keys : bytes → bytes → list bytes) (ge : GroupEngine DB)
    (req : SplitShardRequest) : Result EvalResult :=
  let old_shard_id := spr_old_shard_id req in
  let? shard_desc := ge_shard_desc ge old_shard_id in
  let? split_key :=
    match spr_split_key req with
    | Some split_key =>
        if negb (belong_to shard_desc split_key)
        then Err (InvalidArgument "the user provided split key is not belong to the shard")
        else Ok split_key
    | None =>
        let? k := estimate_split_key ge raw_split_keys old_shard_id in
        ok_or k (InvalidArgument "shard estimated split keys is empty")
    end in
  Ok (mkEvalResult None
        (Some (mkSyncOp None None None
                 (Some (mkSplitShard old_shard_id (spr_new_shard_id req) split_key)) None))).

Definition merge_shard (ge : GroupEngine DB) (req : MergeShardRequest) : Result EvalResult :=
  let? left_shard := ge_shard_desc ge (mgr_left_shard_id req) in
  let? right_shard := ge_shard_desc ge (mgr_right_shard_id req) in
  match sd_range left_shard with
  | None => Err (InvalidData "apply merge shard but left shard range is missing")
  | Some l =>
      match sd_range right_shard with
      | None => Err (InvalidData "apply merge shard but right shard range is missing")
      | Some r =>
          if negb (bytes_eqb (rp_end l) (rp_start r))
          then Err (InvalidData "the left shard is not mergeable with right shard")
          else Ok (mkEvalResult None
                     (Some (mkSyncOp None None None None
                              (Some (mkMergeShard (mgr_left_shard_id req) (mgr_right_shard_id req))))))
      end
  end.

End Write.

Definition accept_shard (group_id epoch : Z) (req : AcceptShardRequest) : EvalResult :=
  mkEvalResult None
    (Some (SyncOp_move_shard Setup
             (mkMoveShardDesc (as_shard_desc req) (as_src_group_id req) (as_src_group_epoch req) group_id epoch))).

Definition add_shard (shard : ShardDesc) : EvalResult := mkEvalResult None (Some (SyncOp_add_shard shard)).
