(* ===== verification/EvalWriteProps.v ===== *)
(** * Properties of the non-transactional commands *)

From S2P Require Import Prelude Bytes Api Schema RocksDb Keys Engine EngineFacts EngineWrites Samples Cas EvalTxn EvalTxnFacts TxnSamples EvalWrite.

Section Facts.
  Context {DB : Type} `{RocksDbOk DB} `{CodecOk WriteBatch} `{CodecOk TxnIntent}.
  Context `{CodecOk EntryId} `{CodecOk GroupDesc} `{CodecOk MoveShardState}.
  Variable next_version : nat → Z.

Lemma ingest_values_ok (ge : GroupEngine DB) sid t key values wb :
  serves ge sid t → key ≠ [] →
  ingest_values ge sid key values wb =
    Ok (wb ++ map (vop_batch t) (map (λ v, VSet key (v_version v) (v_content v)) values)).
Proof.
  intros Hs Hne. revert wb. induction values as [|[[c|] ver] values IH]; intros wb; cbn [ingest_values map v_content v_version].
  { by rewrite app_nil_r. }
  - rewrite (ge_put_ok ge wb sid t) by done. cbn [result_bind]. by rewrite IH, <- app_assoc.
  - rewrite (ge_tombstone_ok ge wb sid t) by done. cbn [result_bind]. by rewrite IH, <- app_assoc.
Qed.

Lemma ingest_fold key (values : list Value) acc :
  newest_first (acc ++ values) →
  fold_left (vop_apply key) (map (λ v, VSet key (v_version v) (v_content v)) values) acc = acc ++ values.
Proof.
  revert acc. induction values as [|v values IH]; intros acc Hs; cbn [map fold_left].
  { by rewrite app_nil_r. }
  unfold vop_apply at 2. cbn [vop_key]. rewrite bool_decide_true by done.
  assert (set_version (v_version v) (v_content v) acc = acc ++ [v]) as ->.
  { clear IH. induction acc as [|a acc IH]; cbn; [by destruct v|].
    inversion Hs as [|?? Hs' Hf]; subst. rewrite Forall_forall in Hf.
    specialize (Hf v ltac:(apply elem_of_app; right; left)). cbn in Hf.
    rewrite (proj2 (Z.ltb_ge _ _)), (proj2 (Z.eqb_neq _ _)) by lia. by rewrite IH. }
  rewrite IH; by rewrite <- app_assoc.
Qed.

(** Moving a key between groups is lossless and does not overwrite: the
    versions read from the source group ([get_all_versions]), ingested into a
    group that has none for the key, read back unchanged; a key the
    destination already has is left alone. *)
Theorem ingest_moves_all_versions (src dst : GroupEngine DB) sid t key vs :
  serves src sid t → serves dst sid t → key ≠ [] →
  ge_get_all_versions src sid key = Ok (mkValueSet key vs) →
  ∃ er dst', ingest_value_set dst sid (mkValueSet key vs) = Ok er ∧ apply_eval dst er = Ok dst' ∧
    (ge_get dst sid key = Ok None → ge_get_all_versions dst' sid key = Ok (mkValueSet key vs)) ∧
    (∀ v, ge_get dst sid key = Ok (Some v) → er = None ∧ dst' = dst).
Proof.
  intros Hsrc Hdst Hne Hget.
  destruct (serves_versions src sid t key Hsrc Hne) as (vs0 & Hv0).
  rewrite (serves_get_all src sid t key vs0 Hsrc Hne Hv0) in Hget. injection Hget as <-.
  destruct (serves_versions dst sid t key Hdst Hne) as (vd & Hvd).
  pose proof (serves_get dst sid t key vd Hdst Hne Hvd) as Hgd.
  unfold ingest_value_set. cbn [vs_values vs_user_key]. rewrite Hgd. cbn [result_bind].
  destruct vs0 as [|v0 vs0].
  { exists None, dst. split; [done|]. split; [done|]. split; [|done]. intros [= Hhd].
    destruct vd; [|done]. by apply (serves_get_all dst sid t). }
  destruct vd as [|v vd]; cbn [head].
  2: { exists None, dst. by split_and!. }
  rewrite (ingest_values_ok dst sid t) by done. cbn [result_bind app].
  set (ops := map (λ v, VSet key (v_version v) (v_content v)) (v0 :: vs0)).
  eexists (batch_result (map (vop_batch t) ops)), _. split; [done|].
  split; [apply batch_result_apply|]. split; [|done]. intros _.
  assert (Forall vop_ok ops) as Hok.
  { apply Forall_forall. intros o (v & -> & Hv)%list_elem_of_fmap.
    apply (proj2 Hv0) in Hv as [Hu _]. by split. }
  apply (serves_get_all _ sid t); [by apply serves_after|done|].
  apply (vops_versions _ _ _ _ _ Hok Hne) in Hvd. unfold ops in Hvd at 2.
  rewrite (ingest_fold key (v0 :: vs0) []) in Hvd; [done|]. apply Hv0.
Qed.

(** ** [batch_write] *)
Definition write_effect (ge : GroupEngine DB) (sid : Z) (tick : nat) (key : bytes) (c : option bytes)
    (conds : list WriteCondition) (o : vop) : Prop :=
  ∃ prev, ge_get ge sid key = Ok prev ∧ eval_conditions prev conds = Ok None ∧
    o = VSet key (write_version next_version prev tick) c.

Lemma batch_deletes_ops (ge : GroupEngine DB) sid t idx tick dels wb wb' resps :
  serves ge sid t → Forall (λ d, del_key d ≠ []) dels →
  batch_deletes next_version ge sid idx tick dels wb = Ok (wb', resps) →
  ∃ ops, wb' = wb ++ map (vop_batch t) ops ∧ length ops = length dels ∧
    ∀ i d, dels !! i = Some d → ∃ o, ops !! i = Some o ∧
      write_effect ge sid (tick + i) (del_key d) None (del_conditions d) o.
Proof.
  intros Hs Hne. revert idx tick wb wb' resps.
  induction Hne as [|d dels Hd _ IH]; intros idx tick wb wb' resps; cbn [batch_deletes].
  { intros [= <- <-]. exists []. by rewrite app_nil_r. }
  intros (prev & Hp & (failed & Hc & Hr)%result_bind_ok)%result_bind_ok. destruct failed; [done|].
  rewrite (ge_tombstone_ok ge wb sid t) in Hr by done. cbn [result_bind] in Hr.
  apply result_bind_ok in Hr as ([wb1 rs] & Hrec & [= <- _]).
  destruct (IH _ _ _ _ _ Hrec) as (ops & -> & Hlen & Hops).
  exists (VSet (del_key d) (write_version next_version prev tick) None :: ops).
  split; [by rewrite <- app_assoc|]. split; [cbn; by rewrite Hlen|].
  intros [|i] d' Hi; cbn in *.
  - injection Hi as <-. eexists. split; [done|]. exists prev. by rewrite Nat.add_0_r.
  - destruct (Hops i d' Hi) as (o & ? & ?). exists o. by rewrite Nat.add_succ_r.
Qed.

Lemma batch_puts_ops (ge : GroupEngine DB) sid t idx tick puts wb wb' resps :
  serves ge sid t → Forall (λ p, put_key p ≠ []) puts →
  batch_puts next_version ge sid idx tick puts wb = Ok (wb', resps) →
  ∃ ops, wb' = wb ++ map (vop_batch t) ops ∧ length ops = length puts ∧
    ∀ i p, puts !! i = Some p → ∃ o, ops !! i = Some o ∧
      write_effect ge sid (tick + i) (put_key p) (Some (put_value p)) (put_conditions p) o.
Proof.
  intros Hs Hne. revert idx tick wb wb' resps.
  induction Hne as [|p puts Hp0 _ IH]; intros idx tick wb wb' resps; cbn [batch_puts].
  { intros [= <- <-]. exists []. by rewrite app_nil_r. }
  destruct (negb _); [done|].
  intros (prev & Hp & (failed & Hc & Hr)%result_bind_ok)%result_bind_ok. destruct failed; [done|].
  rewrite (ge_put_ok ge wb sid t) in Hr by done. cbn [result_bind] in Hr.
  apply result_bind_ok in Hr as ([wb1 rs] & Hrec & [= <- _]).
  destruct (IH _ _ _ _ _ Hrec) as (ops & -> & Hlen & Hops).
  exists (VSet (put_key p) (write_version next_version prev tick) (Some (put_value p)) :: ops).
  split; [by rewrite <- app_assoc|]. split; [cbn; by rewrite Hlen|].
  intros [|i] d' Hi; cbn in *.
  - injection Hi as <-. eexists. split; [done|]. exists prev. by rewrite Nat.add_0_r.
  - destruct (Hops i d' Hi) as (o & ? & ?). exists o. by rewrite Nat.add_succ_r.
Qed.

Lemma fold_vop_other key ops vs :
  key ∉ map vop_key ops → fold_left (vop_apply key) ops vs = vs.
Proof.
  revert vs. induction ops as [|o ops IH]; intros vs; cbn [map fold_left]; [done|].
  rewrite not_elem_of_cons. intros [Hne Hni]. unfold vop_apply at 2.
  rewrite bool_decide_false by congruence. by apply IH.
Qed.

Lemma fold_vop_single ops i o vs :
  NoDup (map vop_key ops) → ops !! i = Some o →
  fold_left (vop_apply (vop_key o)) ops vs = vop_apply (vop_key o) vs o.
Proof.
  revert i vs. induction ops as [|o' ops IH]; intros i vs Hnd Hi; [done|].
  cbn [map fold_left] in *. apply NoDup_cons in Hnd as [Hni Hnd]. destruct i as [|i]; cbn in Hi.
  - injection Hi as ->. by rewrite fold_vop_other.
  - rewrite (IH i) by done. f_equal. unfold vop_apply. rewrite bool_decide_false; [done|].
    intros E. apply Hni. rewrite E. apply list_elem_of_fmap_2. by eapply list_elem_of_lookup_2.
Qed.

Lemma write_version_bounds prev tick :
  u64_ok (next_version tick) → (∀ v, prev = Some v → u64_ok (v_version v) ∧ v_version v < u64_MAX) →
  u64_ok (write_version next_version prev tick) ∧
  ∀ v, prev = Some v → v_version v < write_version next_version prev tick.
Proof.
  intros Hc Hp. unfold write_version.
  assert (∀ z, u64_ok z → z < u64_MAX → u64_add z 1 = z + 1) as Hadd.
  { intros z ??. unfold u64_add. apply u64_wrap_small. unfold u64_ok in *. lia. }
  destruct prev as [v|].
  - destruct (Hp v eq_refl) as [Hu Hlt]. rewrite Hadd by done.
    unfold u64_ok in *. split; [lia|]. intros ? [= <-]. lia.
  - rewrite Hadd by (unfold u64_ok, u64_MAX; lia). unfold u64_ok, u64_MAX in *. split; [lia|done].
Qed.

(** One operation of an accepted batch makes its value the newest. *)
Lemma write_effect_newest (ge : GroupEngine DB) sid t tick key c conds o ops i :
  serves ge sid t → key ≠ [] → u64_ok (next_version tick) →
  (∀ v, ge_get ge sid key = Ok (Some v) → v_version v < u64_MAX) →
  write_effect ge sid tick key c conds o → Forall vop_ok ops → NoDup (map vop_key ops) → ops !! i = Some o →
  let ge' := mkGroupEngine (write_batch (ge_db ge) (map (vop_batch t) ops)) (ge_core ge) in
  ∃ prev v, ge_get ge sid key = Ok prev ∧ eval_conditions prev conds = Ok None ∧
    ge_get ge' sid key = Ok (Some v) ∧ v_content v = c ∧ ∀ old, prev = Some old → v_version old < v_version v.
Proof.
  intros Hs Hne Hclk Hmax (prev & Hg & Hc & ->) Hok Hnd Hi ge'.
  destruct (serves_versions ge sid t key Hs Hne) as (vs & Hv).
  pose proof (serves_get ge sid t key vs Hs Hne Hv) as Hg'. rewrite Hg in Hg'. injection Hg' as ->.
  assert (Hb : u64_ok (write_version next_version (head vs) tick) ∧
    ∀ v, head vs = Some v → v_version v < write_version next_version (head vs) tick).
  { apply write_version_bounds; [done|]. intros v Hhd. destruct vs as [|v' vs]; [done|].
    cbn in Hhd. injection Hhd as ->. split; [|by apply Hmax].
    assert (v ∈ v :: vs) as Hin by left. apply (proj2 Hv) in Hin as [? _]. done. }
  destruct Hb as [_ Hlt]. exists (head vs), (mkValue c (write_version next_version (head vs) tick)).
  split; [done|]. split; [done|]. split; [|split; [done|exact Hlt]].
  rewrite (serves_get ge' sid t key _ (serves_after ge sid t ops Hs Hok) Hne (vops_versions _ _ _ _ _ Hok Hne Hv)).
  pose proof (fold_vop_single ops i _ vs Hnd Hi) as Hf. cbn [vop_key] in Hf. rewrite Hf.
  unfold vop_apply. cbn [vop_key]. rewrite bool_decide_true by done.
  destruct vs as [|v vs]; cbn [set_version head]; [done|].
  by rewrite (proj2 (Z.ltb_lt _ _)) by (by apply Hlt).
Qed.

(** The writes of a request in the order they are evaluated: key, content
    ([None] for a delete) and conditions. *)
Definition write_items (req : ShardWriteRequest) : list (bytes * option bytes * list WriteCondition) :=
  map (λ d, (del_key d, None, del_conditions d)) (sw_deletes req) ++
  map (λ p, (put_key p, Some (put_value p), put_conditions p)) (sw_puts req).

Lemma batch_forward_ok ctx (ge : GroupEngine DB) req :
  not_forwarded ctx (sw_shard_id req) → batch_forward ctx ge req = Ok tt.
Proof.
  unfold batch_forward, not_forwarded. destruct (ec_move_shard_desc ctx) as [m|]; [|done].
  intros (sd & Hsd & Hne). unfold get_shard_desc. rewrite Hsd. cbn. by rewrite (proj2 (Z.eqb_neq _ _)).
Qed.

Lemma batch_write_ops ctx (ge : GroupEngine DB) req er resp t :
  serves ge (sw_shard_id req) t → not_forwarded ctx (sw_shard_id req) →
  Forall (λ it, it.1.1 ≠ []) (write_items req) →
  batch_write next_version ctx ge req = Ok (er, resp) →
  ∃ ops, er = batch_result (map (vop_batch t) ops) ∧ length ops = length (write_items req) ∧
    ∀ i k c conds, write_items req !! i = Some (k, c, conds) →
      ∃ o, ops !! i = Some o ∧ write_effect ge (sw_shard_id req) i k c conds o.
Proof.
  intros Hs Hnf Hne Hbw. apply Forall_app in Hne as [Hd Hp].
  apply (proj1 (Forall_fmap _ _ _)) in Hd. apply (proj1 (Forall_fmap _ _ _)) in Hp.
  destruct (decide (sw_deletes req = [] ∧ sw_puts req = [])) as [[E1 E2]|Hnil].
  { unfold batch_write, write_items in *. rewrite E1, E2 in *. injection Hbw as <- _. by exists []. }
  assert (Hbw' : (let? '(wb1, dels) := batch_deletes next_version ge (sw_shard_id req) 0 0 (sw_deletes req) [] in
    let? '(wb2, puts) := batch_puts next_version ge (sw_shard_id req) (Z.of_nat (length (sw_deletes req)))
      (length (sw_deletes req)) (sw_puts req) wb1 in
    Ok (Some (EvalResult_with_batch (encode_to_vec wb2)), mkShardWriteResponse dels puts)) = Ok (er, resp)).
  { unfold batch_write in Hbw. rewrite batch_forward_ok in Hbw by done.
    destruct (sw_deletes req), (sw_puts req); try done. by destruct Hnil. }
  clear Hbw. apply result_bind_ok in Hbw' as ([wb1 dels] & Hdel & Hbw).
  apply result_bind_ok in Hbw as ([wb2 puts] & Hput & [= <- _]).
  destruct (batch_deletes_ops _ _ t _ _ _ _ _ _ Hs Hd Hdel) as (dops & -> & Hdl & Hdops).
  destruct (batch_puts_ops _ _ t _ _ _ _ _ _ Hs Hp Hput) as (pops & -> & Hpl & Hpops).
  exists (dops ++ pops). split; [|split].
  - cbn [app]. rewrite <- map_app. unfold batch_result.
    destruct (map (vop_batch t) (dops ++ pops)) eqn:E; [|done].
    apply map_eq_nil, app_eq_nil in E as [-> ->]. cbn in *.
    destruct (sw_deletes req), (sw_puts req); try done. by destruct Hnil.
  - unfold write_items. rewrite !length_app, !length_map. lia.
  - unfold write_items. intros i k c conds [Hi|[Hlen Hi]]%lookup_app_Some.
    + apply list_lookup_fmap_Some in Hi as (d & E & Hi). injection E as -> -> ->.
      destruct (Hdops i d Hi) as (o & Ho & He). exists o. split; [|done]. by apply lookup_app_l_Some.
    + rewrite length_map in *. apply list_lookup_fmap_Some in Hi as (p & E & Hi). injection E as -> -> ->.
      destruct (Hpops _ p Hi) as (o & Ho & He). exists o. split.
      * rewrite lookup_app_r by lia. by rewrite Hdl.
      * by replace (length (sw_deletes req) + (i - length (sw_deletes req)))%nat with i in He by lia.
Qed.

Lemma effects_keys ge sid (items : list (bytes * option bytes * list WriteCondition)) ops :
  length ops = length items →
  (∀ i k c conds, items !! i = Some (k, c, conds) → ∃ o, ops !! i = Some o ∧ write_effect ge sid i k c conds o) →
  map vop_key ops = map (λ it, it.1.1) items.
Proof.
  intros Hlen Hops. apply list_eq_same_length with (n := length items); rewrite ?length_map; try done.
  intros i x y Hi Hx Hy. apply list_lookup_fmap_Some in Hx as (o & -> & Ho).
  apply list_lookup_fmap_Some in Hy as ([[k c] conds] & -> & Hit).
  destruct (Hops i k c conds Hit) as (o' & Ho' & prev & _ & _ & ->). rewrite Ho in Ho'. by injection Ho' as ->.
Qed.

Lemma effects_ok (ge : GroupEngine DB) sid t (items : list (bytes * option bytes * list WriteCondition)) ops :
  serves ge sid t → (∀ i, u64_ok (next_version i)) → Forall (λ it, it.1.1 ≠ []) items →
  (∀ k v, k ≠ [] → ge_get ge sid k = Ok (Some v) → v_version v < u64_MAX) →
  length ops = length items →
  (∀ i k c conds, items !! i = Some (k, c, conds) → ∃ o, ops !! i = Some o ∧ write_effect ge sid i k c conds o) →
  Forall vop_ok ops.
Proof.
  intros Hs Hclk Hne Hmax Hlen Hops.
  apply Forall_lookup. intros i o Ho. destruct (lookup_lt_is_Some_2 items i) as [[[k c] conds] Hit].
  { rewrite <- Hlen. by eapply lookup_lt_Some. }
  destruct (Hops i k c conds Hit) as (o' & Ho' & prev & Hg & _ & ->). rewrite Ho in Ho'. injection Ho' as ->.
  rewrite Forall_lookup in Hne. specialize (Hne i _ Hit). split; [done|]. cbn.
  apply write_version_bounds; [done|]. intros v ->. split; [|by eapply Hmax].
  destruct (serves_versions ge sid t k Hs Hne) as (vs & Hv).
  rewrite (serves_get ge _ t k vs Hs Hne Hv) in Hg. injection Hg as Hhd.
  destruct vs as [|v' vs]; [done|]. cbn in Hhd. injection Hhd as ->.
  apply (proj2 Hv). left.
Qed.

(** an accepted batch write makes every put value (and a tombstone for
    every delete) the newest version of its key, newer than what was there,
    after all conditions held on the previous values; keys not in the batch
    keep their versions. *)
Theorem batch_write_newest ctx (ge : GroupEngine DB) req er resp t :
  serves ge (sw_shard_id req) t → not_forwarded ctx (sw_shard_id req) →
  (∀ i, u64_ok (next_version i)) →
  Forall (λ it, it.1.1 ≠ []) (write_items req) → NoDup (map (λ it, it.1.1) (write_items req)) →
  (∀ k v, k ≠ [] → ge_get ge (sw_shard_id req) k = Ok (Some v) → v_version v < u64_MAX) →
  batch_write next_version ctx ge req = Ok (er, resp) →
  ∃ ge', apply_eval ge er = Ok ge' ∧
    (∀ k c conds, (k, c, conds) ∈ write_items req → ∃ prev v,
       ge_get ge (sw_shard_id req) k = Ok prev ∧ eval_conditions prev conds = Ok None ∧
       ge_get ge' (sw_shard_id req) k = Ok (Some v) ∧ v_content v = c ∧
       ∀ old, prev = Some old → v_version old < v_version v) ∧
    (∀ k, k ≠ [] → k ∉ map (λ it, it.1.1) (write_items req) →
       ge_get_all_versions ge' (sw_shard_id req) k = ge_get_all_versions ge (sw_shard_id req) k).
Proof.
  intros Hs Hnf Hclk Hne Hnd Hmax Hbw.
  destruct (batch_write_ops ctx ge req er resp t Hs Hnf Hne Hbw) as (ops & -> & Hlen & Hops).
  pose proof (effects_keys _ _ _ _ Hlen Hops) as Hkeys.
  eexists. split; [apply batch_result_apply|].
  pose proof (effects_ok _ _ t _ _ Hs Hclk Hne Hmax Hlen Hops) as Hok.
  split.
  - intros k c conds Hin. apply list_elem_of_lookup in Hin as [i Hi].
    destruct (Hops i k c conds Hi) as (o & Ho & He). rewrite Forall_lookup in Hne. specialize (Hne i _ Hi).
    eapply (write_effect_newest ge _ t i k c conds o ops i); eauto. by rewrite Hkeys.
  - intros k Hk Hni. destruct (serves_versions ge (sw_shard_id req) t k Hs Hk) as (vs & Hv).
    rewrite (serves_get_all ge _ t k vs Hs Hk Hv).
    apply (serves_get_all _ _ t); [by apply serves_after|done|].
    apply (vops_versions _ _ _ _ _ Hok Hk) in Hv. rewrite fold_vop_other in Hv; [done|by rewrite Hkeys].
Qed.

End Facts.

Lemma ingest_moves_all_versions_witness :
  ∃ er dst', ingest_value_set (sample_engine []) 1 (mkValueSet key_a (ks_committed free_state)) = Ok er ∧
    apply_eval (sample_engine []) er = Ok dst' ∧
    ge_get_all_versions dst' 1 key_a = Ok (mkValueSet key_a (ks_committed free_state)).
Proof.
  destruct (ingest_moves_all_versions (sample_engine sample_ops) (sample_engine []) 1 sample_table key_a
    (ks_committed free_state)) as (er & dst' & E1 & E2 & E3 & _).
  - by apply sample_serves.
  - by apply sample_serves.
  - discriminate.
  - apply (serves_get_all _ 1 sample_table); [by apply sample_serves|discriminate|apply sample_free].
  - exists er, dst'. split; [exact E1|]. split; [exact E2|]. apply E3.
    apply (serves_get _ 1 sample_table _ []); [by apply sample_serves|discriminate|].
    apply (sample_versions [] key_a); [done|discriminate].
Defined.

Definition sample_batch : ShardWriteRequest :=
  mkShardWriteRequest 1 [] [mkPutRequest 0 key_a val_x 0 [] false].
Definition sample_clock (_ : nat) : Z := 50.

Lemma sample_batch_run :
  batch_write sample_clock ExecCtx_default (sample_engine sample_ops) sample_batch =
    Ok (batch_result (map (vop_batch sample_table) [VSet key_a 50 (Some val_x)]),
        mkShardWriteResponse [] [mkWriteResponse None]).
Proof.
  pose proof (sample_serves sample_ops eq_refl) as Hs.
  unfold batch_write, sample_batch. cbn [sw_deletes sw_puts sw_shard_id batch_deletes batch_puts
    result_bind length put_put_type put_key put_conditions put_value put_take_prev_value batch_forward
    ec_move_shard_desc ExecCtx_default].
  rewrite (serves_get _ 1 sample_table key_a _ Hs ltac:(discriminate) (proj1 sample_free)).
  cbn [result_bind head eval_conditions eval_conditions_from].
  rewrite (ge_put_ok (sample_engine sample_ops) [] 1 sample_table key_a val_x _ Hs) by discriminate.
  reflexivity.
Qed.

Lemma batch_write_newest_witness :
  ∃ er resp ge' v,
    batch_write sample_clock ExecCtx_default (sample_engine sample_ops) sample_batch = Ok (er, resp) ∧
    apply_eval (sample_engine sample_ops) er = Ok ge' ∧
    ge_get ge' 1 key_a = Ok (Some v) ∧ v_content v = Some val_x.
Proof.
  destruct (batch_write_newest sample_clock ExecCtx_default (sample_engine sample_ops) sample_batch
    (batch_result (map (vop_batch sample_table) [VSet key_a 50 (Some val_x)]))
    (mkShardWriteResponse [] [mkWriteResponse None])
    sample_table (sample_serves sample_ops eq_refl) I) as (ge' & Happ & Hkeys & _).
  - intros i. vm_compute. split; discriminate.
  - repeat constructor. discriminate.
  - cbn. apply NoDup_singleton.
  - intros k v Hk Hg. destruct (vops_committed k sample_ops []) as [_ Hc]; [repeat constructor|constructor|constructor|].
    pose proof (serves_get _ 1 sample_table k _ (sample_serves sample_ops eq_refl) Hk (sample_versions sample_ops k eq_refl Hk)) as Hg'.
    change (ge_get (sample_engine sample_ops) 1 k = Ok (Some v)) in Hg. assert (head (fold_left (vop_apply k) sample_ops []) = Some v) as Hhd by congruence.
    destruct (fold_left (vop_apply k) sample_ops []) as [|v' vs]; [discriminate|].
    cbn [head] in Hhd. assert (v' = v) as <- by congruence. exact (Forall_inv Hc).
  - exact sample_batch_run.
  - destruct (Hkeys key_a (Some val_x) []) as (prev & v & _ & _ & Hg & Hc & _); [left|].
    eexists _, _, ge', v. split; [exact sample_batch_run|]. split; [exact Happ|]. split; [exact Hg|exact Hc].
Defined.

(** Over a transaction's intent, a batch write does not get a version
    above the one it replaces: the intent's version is the maximal [u64], the
    successor wraps to zero and only the clock is left. *)
Theorem batch_write_version_wraps_over_intent (clock : nat → Z) tick v :
  v_version v = TXN_INTENT_VERSION → u64_ok (clock tick) →
  write_version clock (Some v) tick = clock tick ∧
  (clock tick < TXN_INTENT_VERSION → write_version clock (Some v) tick < v_version v).
Proof.
  intros Hv Hc. unfold write_version. rewrite Hv. unfold TXN_INTENT_VERSION.
  assert (u64_add u64_MAX 1 = 0) as -> by reflexivity. unfold u64_ok in Hc. split; lia.
Qed.

Lemma batch_write_version_wraps_over_intent_witness :
  write_version sample_clock (Some (mkValue (Some val_x) TXN_INTENT_VERSION)) 0 = 50.
Proof.
  apply (batch_write_version_wraps_over_intent sample_clock 0 (mkValue (Some val_x) TXN_INTENT_VERSION));
    [reflexivity|]. vm_compute. split; discriminate.
Defined.
