(* ===== verification/TxnTable.v ===== *)
(** * The transaction state table ([client/src/txn_table.rs])

    Every transaction has a record of up to three keys (commit version,
    heartbeat, state) in an internal shard.  The client changes it with
    conditional batch writes and reads it with a prefix scan; the server side
    is the [TxnServer] interface, discharged in [TxnTableProps] by the
    [batch_write] handler of the shard's group.  Also here: the request
    builder of [client/src/txn.rs]. *)

From S2P Require Import Prelude Bytes Rock Api Errors Schema.

(** ** [WriteBuilder] *)
Record WriteBuilder := mkWriteBuilder {
  wb_key : bytes; wb_conditions : list WriteCondition; wb_ttl : option Z; wb_take_prev_value : bool }.
Definition WriteBuilder_new (key : bytes) : WriteBuilder := mkWriteBuilder key [] None false.
Definition with_ttl (b : WriteBuilder) (ttl : option Z) : WriteBuilder :=
  mkWriteBuilder (wb_key b) (wb_conditions b) ttl (wb_take_prev_value b).
Definition push_condition (b : WriteBuilder) (c : WriteCondition) : WriteBuilder :=
  mkWriteBuilder (wb_key b) (wb_conditions b ++ [c]) (wb_ttl b) (wb_take_prev_value b).
Definition version_condition (ty : WriteConditionType) (expect : Z) : WriteCondition :=
  mkWriteCondition (WriteConditionType_i32 ty) [] expect 0.
Definition value_condition (ty : WriteConditionType) (value : bytes) (begin : Z) : WriteCondition :=
  mkWriteCondition (WriteConditionType_i32 ty) value 0 begin.

Definition expect_version_lt (b : WriteBuilder) (v : Z) := push_condition b (version_condition ExpectVersionLt v).
Definition expect_version_le (b : WriteBuilder) (v : Z) := push_condition b (version_condition ExpectVersionLe v).
Definition expect_version_gt (b : WriteBuilder) (v : Z) := push_condition b (version_condition ExpectVersionGt v).
Definition expect_version_ge (b : WriteBuilder) (v : Z) := push_condition b (version_condition ExpectVersionGe v).
Definition expect_version (b : WriteBuilder) (v : Z) := push_condition b (version_condition ExpectVersion v).
Definition expect_exists (b : WriteBuilder) := push_condition b (version_condition ExpectExists 0).
Definition expect_not_exists (b : WriteBuilder) := push_condition b (version_condition ExpectNotExists 0).
Definition expect_value (b : WriteBuilder) (v : bytes) := push_condition b (value_condition ExpectValue v 0).
Definition expect_contains (b : WriteBuilder) (v : bytes) := push_condition b (value_condition ExpectContains v 0).
Definition expect_slice (b : WriteBuilder) (begin : Z) (v : bytes) :=
  push_condition b (value_condition ExpectSlice v begin).
Definition expect_starts_with (b : WriteBuilder) (v : bytes) := push_condition b (value_condition ExpectStartsWith v 0).
Definition expect_ends_with (b : WriteBuilder) (v : bytes) := push_condition b (value_condition ExpectEndsWith v 0).
Definition take_prev_value (b : WriteBuilder) : WriteBuilder :=
  mkWriteBuilder (wb_key b) (wb_conditions b) (wb_ttl b) true.

(** [verify_conditions] accepts everything. *)
Definition build_put (b : WriteBuilder) (value : bytes) : PutRequest :=
  mkPutRequest (PutType_i32 PutNone) (wb_key b) value (default 0 (wb_ttl b)) (wb_conditions b) (wb_take_prev_value b).
Definition build_delete (b : WriteBuilder) : DeleteRequest :=
  mkDeleteRequest (wb_key b) (wb_conditions b) (wb_take_prev_value b).
Definition build_nop (b : WriteBuilder) : PutRequest :=
  mkPutRequest (PutType_i32 Nop) (wb_key b) [] 0 (wb_conditions b) false.
Definition build_add (b : WriteBuilder) (val : Z) : PutRequest :=
  mkPutRequest (PutType_i32 AddI64) (wb_key b) (i64_to_be_bytes val) (default 0 (wb_ttl b))
    (wb_conditions b) (wb_take_prev_value b).

(** ** Records *)
Record TxnRecord := mkTxnRecord {
  tr_start_version : Z; tr_state : TxnState; tr_heartbeat : Z; tr_commit_version : option Z }.

(** [TxnState::as_str_name] / [from_str_name]. *)
Definition TxnState_name (s : TxnState) : bytes :=
  match s with
  | Running => str_bytes "RUNNING" | Aborted => str_bytes "ABORTED" | Committed => str_bytes "COMMITTED"
  end.
Definition TxnState_from_name (b : bytes) : option TxnState :=
  if bytes_eqb b (TxnState_name Running) then Some Running
  else if bytes_eqb b (TxnState_name Aborted) then Some Aborted
  else if bytes_eqb b (TxnState_name Committed) then Some Committed
  else None.

Definition txn_state_value (s : TxnState) : bytes := TxnState_name s.
Definition txn_u64_value (v : Z) : bytes := u64_to_be_bytes v.
Definition parse_u64 (b : bytes) : CResult Z := ok_or (decode_u64 b) CInternal.
Definition parse_txn_state (b : bytes) : CResult TxnState := ok_or (TxnState_from_name b) CInternal.

Definition parse_txn_value {T} (value_set : ValueSet) (parser : bytes → CResult T) : CResult T :=
  let? b := ok_or (head (vs_values value_set) ≫= v_content) CInternal in parser b.
(** Takes the next value set, which must be that of [key]. *)
Definition parse_next_txn_key {T} (it : list ValueSet) (key : bytes) (parser : bytes → CResult T) :
    CResult (T * list ValueSet) :=
  match it with
  | value_set :: it' =>
      if bytes_eqb (vs_user_key value_set) key
      then let? v := parse_txn_value value_set parser in Ok (v, it')
      else Err CInternal
  | [] => Err CInternal
  end.

Definition parse_txn_record (hash_tag : byte) (start_version : Z) (values : list ValueSet) :
    CResult (option TxnRecord) :=
  match values with
  | [] => Ok None
  | value_set :: rest =>
      let? '(commit_version, it) :=
        if bytes_eqb (vs_user_key value_set) (txn_commit_key hash_tag start_version)
        then let? c := parse_txn_value value_set parse_u64 in Ok (Some c, rest)
        else Ok (None, values) in
      let? '(heartbeat, it) := parse_next_txn_key it (txn_heartbeat_key hash_tag start_version) parse_u64 in
      let? '(state, it) := parse_next_txn_key it (txn_state_key hash_tag start_version) parse_txn_state in
      match it with
      | _ :: _ => Err CInternal
      | [] => Ok (Some (mkTxnRecord start_version state heartbeat commit_version))
      end
  end.

(** ** The table's operations *)

(** What the table asks of the group that holds the internal shard, after
    routing and retries: a batch write and a prefix scan at the newest
    version. *)
Class TxnServer (W : Type) := {
  srv_write : W → list PutRequest → CResult ShardWriteResponse * W;
  srv_scan : W → bytes → CResult ShardScanResponse * W;
}.

Section Table.
  Context {W : Type} `{TxnServer W}.
  (** [fnv] of the hash tag and [timestamp_millis]. *)
  Variable tag_of : Z → byte.

(** What a failed write on the state key says about the transaction. *)
Definition failed_state (r : CResult ShardWriteResponse) : CResult (option TxnState) :=
  match r with
  | Ok _ => Ok None
  | Err (CCasFailed idx cond_idx prev_value) =>
      if negb (idx =? 0) || negb (cond_idx =? 0) then Err CInternal
      else
        match prev_value ≫= v_content with
        | None => Err CNotFound
        | Some b => let? s := parse_txn_state b in Ok (Some s)
        end
  | Err e => Err e
  | Panic => Panic
  end.

Definition begin_txn (now : Z) (start_version : Z) (w : W) : CResult unit * W :=
  let hash_tag := tag_of start_version in
  let '(r, w') := srv_write w
    [build_put (take_prev_value (expect_not_exists (WriteBuilder_new (txn_state_key hash_tag start_version))))
       (txn_state_value Running);
     build_put (WriteBuilder_new (txn_heartbeat_key hash_tag start_version)) (u64_to_le_bytes now)] in
  (let? prev_state := failed_state r in
   match prev_state with
   | None => Ok tt
   | Some Running => Ok tt
   | Some _ => Err CInvalidArgument
   end, w').

Definition heartbeat (now : Z) (start_version : Z) (w : W) : CResult unit * W :=
  let hash_tag := tag_of start_version in
  let '(r, w') := srv_write w
    [build_put (expect_exists (WriteBuilder_new (txn_heartbeat_key hash_tag start_version))) (txn_u64_value now)] in
  (match r with
   | Err (CCasFailed _ _ _) => Ok tt
   | Err e => Err e
   | Panic => Panic
   | Ok _ => Ok tt
   end, w').

Definition commit_txn (now : Z) (start_version commit_version : Z) (w : W) : CResult unit * W :=
  let hash_tag := tag_of start_version in
  let '(r, w') := srv_write w
    [build_put (take_prev_value (expect_value (WriteBuilder_new (txn_state_key hash_tag start_version))
       (txn_state_value Running))) (txn_state_value Committed);
     build_put (WriteBuilder_new (txn_commit_key hash_tag start_version)) (txn_u64_value commit_version);
     build_put (WriteBuilder_new (txn_heartbeat_key hash_tag start_version)) (txn_u64_value now)] in
  (let? prev_state := failed_state r in
   match prev_state with
   | None => Ok tt
   | Some Running => Err CInternal
   | Some Committed => Ok tt
   | Some Aborted => Err CInvalidArgument
   end, w').

Definition abort_txn (now : Z) (start_version : Z) (w : W) : CResult unit * W :=
  let hash_tag := tag_of start_version in
  let '(r, w') := srv_write w
    [build_put (take_prev_value (expect_value (WriteBuilder_new (txn_state_key hash_tag start_version))
       (txn_state_value Running))) (txn_state_value Aborted);
     build_put (WriteBuilder_new (txn_heartbeat_key hash_tag start_version)) (txn_u64_value now)] in
  (let? prev_state := failed_state r in
   match prev_state with
   | None => Ok tt
   | Some Running => Err CInternal
   | Some Committed => Err CInvalidArgument
   | Some Aborted => Ok tt
   end, w').

Definition get_txn_record (start_version : Z) (w : W) : CResult (option TxnRecord) * W :=
  let hash_tag := tag_of start_version in
  let '(r, w') := srv_scan w (txn_prefix hash_tag start_version) in
  (let? resp := r in parse_txn_record hash_tag start_version (sr_data resp), w').

End Table.
