(* ===== verification/TxnTableProps.v ===== *)
(** * Properties of the transaction state table

    [TxnServerOk] is what the table relies on from the group that serves the
    internal shard; [TxnServerImpl] discharges it with the server's own
    handlers.  Against it, the table's operations refine transitions of an
    abstract record. *)

From S2P Require Import Prelude Bytes Rock Api Errors Schema Cas TxnTable.

(** The first put whose conditions fail, with the failing condition and the
    value it was evaluated on. *)
Fixpoint first_failure (latest : bytes → option Value) (idx : Z) (puts : list PutRequest) :
    option (Z * Z * option Value) :=
  match puts with
  | [] => None
  | p :: puts' =>
      match eval_conditions (latest (put_key p)) (put_conditions p) with
      | Ok (Some j) => Some (idx, j, latest (put_key p))
      | _ => first_failure latest (idx + 1) puts'
      end
  end.

(** Requests the interface speaks about. *)
Definition plain_puts (puts : list PutRequest) : Prop :=
  NoDup (map put_key puts) ∧
  Forall (λ p, put_key p ≠ [] ∧ put_put_type p = PutType_i32 PutNone ∧
    Forall (λ c, ∃ ty, WriteConditionType_from_i32 (wc_type c) = Some ty) (put_conditions p)) puts.

Class TxnServerOk (W : Type) `{TxnServer W} := {
  (** the state is sound and has room for [n] more writes *)
  srv_inv : nat → W → Prop;
  srv_inv_weaken n w : srv_inv (S n) w → srv_inv n w;
  (** the newest version of a key of the shard *)
  latest : W → bytes → option Value;
  srv_write_fails n w puts f :
    srv_inv n w → plain_puts puts → first_failure (latest w) 0 puts = Some f →
    srv_write w puts = (Err (CCasFailed f.1.1 f.1.2 f.2), w);
  srv_write_done n w puts :
    srv_inv (S n) w → plain_puts puts → first_failure (latest w) 0 puts = None →
    ∃ resp w', srv_write w puts = (Ok resp, w') ∧ srv_inv n w' ∧
      (∀ p, p ∈ puts → latest w' (put_key p) ≫= v_content = Some (put_value p)) ∧
      (∀ k, k ≠ [] → k ∉ map put_key puts → latest w' k = latest w k);
  srv_scan_done n w prefix :
    srv_inv n w → prefix ≠ [] →
    ∃ data, srv_scan w prefix = (Ok (mkShardScanResponse data false), w) ∧
      StronglySorted (λ a b, bytes_lt (vs_user_key a) (vs_user_key b)) data ∧
      ∀ k vs, mkValueSet k vs ∈ data ↔
        starts_with k prefix = true ∧ ∃ v, latest w k = Some v ∧ v_content v ≠ None ∧ vs = [v];
}.

(** ** The keys of a record *)
Section Keys.
  Variable tag_of : Z → byte.

Definition state_key (s : Z) : bytes := txn_state_key (tag_of s) s.
Definition hb_key (s : Z) : bytes := txn_heartbeat_key (tag_of s) s.
Definition commit_key (s : Z) : bytes := txn_commit_key (tag_of s) s.

Lemma record_key_inj s1 s2 x y :
  u64_ok s1 → u64_ok s2 → txn_prefix (tag_of s1) s1 ++ x = txn_prefix (tag_of s2) s2 ++ y → s1 = s2 ∧ x = y.
Proof.
  intros H1 H2 E. apply app_inj_1 in E as [E ->]; [|by rewrite !txn_prefix_length].
  by apply txn_prefix_inj in E as [_ ->].
Qed.

Lemma record_keys_distinct s1 s2 :
  u64_ok s1 → u64_ok s2 →
  (state_key s1 = state_key s2 → s1 = s2) ∧ (hb_key s1 = hb_key s2 → s1 = s2) ∧
  (commit_key s1 = commit_key s2 → s1 = s2) ∧
  state_key s1 ≠ hb_key s2 ∧ state_key s1 ≠ commit_key s2 ∧ hb_key s1 ≠ commit_key s2.
Proof.
  intros H1 H2. unfold state_key, hb_key, commit_key, txn_state_key, txn_heartbeat_key, txn_commit_key.
  split_and!; intros E; apply record_key_inj in E as [Es Ex]; done.
Qed.

Lemma record_key_nonempty s x : txn_prefix (tag_of s) s ++ x ≠ [].
Proof. intros E%(f_equal length). rewrite length_app, txn_prefix_length in E. cbn in E. lia. Qed.
End Keys.

(** ** The abstract record and its transitions *)
Record record := mkRecord { rec_state : option bytes; rec_commit : option bytes; rec_hb : option bytes }.

Inductive table_op :=
  | OBegin (now s : Z) | OHeartbeat (now s : Z) | OCommit (now s c : Z) | OAbort (now s : Z).
Definition op_txn (o : table_op) : Z :=
  match o with OBegin _ s | OHeartbeat _ s | OCommit _ s _ | OAbort _ s => s end.

Definition parsed (r : record) : option TxnState := rec_state r ≫= TxnState_from_name.
Definition running : option bytes := Some (txn_state_value Running).

Definition spec_op (o : table_op) (r : record) : CResult unit * record :=
  match o with
  | OBegin now _ =>
      match rec_state r with
      | None => (Ok tt, mkRecord running (rec_commit r) (Some (u64_to_le_bytes now)))
      | Some b =>
          (match TxnState_from_name b with
           | Some Running => Ok tt | Some _ => Err CInvalidArgument | None => Err CInternal end, r)
      end
  | OHeartbeat now _ =>
      match rec_hb r with
      | None => (Ok tt, r)
      | Some _ => (Ok tt, mkRecord (rec_state r) (rec_commit r) (Some (txn_u64_value now)))
      end
  | OCommit now _ c =>
      match rec_state r with
      | None => (Err CNotFound, r)
      | Some b =>
          if bytes_eqb b (txn_state_value Running)
          then (Ok tt, mkRecord (Some (txn_state_value Committed)) (Some (txn_u64_value c)) (Some (txn_u64_value now)))
          else (match TxnState_from_name b with
                | Some Committed => Ok tt | Some Aborted => Err CInvalidArgument | _ => Err CInternal end, r)
      end
  | OAbort now _ =>
      match rec_state r with
      | None => (Err CNotFound, r)
      | Some b =>
          if bytes_eqb b (txn_state_value Running)
          then (Ok tt, mkRecord (Some (txn_state_value Aborted)) (rec_commit r) (Some (txn_u64_value now)))
          else (match TxnState_from_name b with
                | Some Aborted => Ok tt | Some Committed => Err CInvalidArgument | _ => Err CInternal end, r)
      end
  end.

Section Table.
  Context {W : Type} `{TxnServerOk W}.
  Variable tag_of : Z → byte.

Definition content_at (w : W) (k : bytes) : option bytes := latest w k ≫= v_content.
Definition record_at (w : W) (s : Z) : record :=
  mkRecord (content_at w (state_key tag_of s)) (content_at w (commit_key tag_of s)) (content_at w (hb_key tag_of s)).

Definition run_op (o : table_op) (w : W) : CResult unit * W :=
  match o with
  | OBegin now s => begin_txn tag_of now s w
  | OHeartbeat now s => heartbeat tag_of now s w
  | OCommit now s c => commit_txn tag_of now s c w
  | OAbort now s => abort_txn tag_of now s w
  end.

(** Conditions of the table's requests on a content. *)
Lemma cond_value v b :
  eval_conditions v [value_condition ExpectValue b 0] =
    Ok (if bool_decide (v ≫= v_content = Some b) then None else Some 0).
Proof.
  unfold eval_conditions. cbn. destruct v as [[[c|] ver]|]; cbn; try done.
  unfold bytes_eqb. rewrite (bool_decide_ext (c = b) (Some c = Some b)) by (split; congruence).
  by case_bool_decide.
Qed.
Lemma cond_not_exists v :
  eval_conditions v [version_condition ExpectNotExists 0] =
    Ok (match v ≫= v_content with None => None | Some _ => Some 0 end).
Proof. by destruct v as [[[c|] ver]|]. Qed.
Lemma cond_exists v :
  eval_conditions v [version_condition ExpectExists 0] =
    Ok (match v ≫= v_content with Some _ => None | None => Some 0 end).
Proof. by destruct v as [[[c|] ver]|]. Qed.

Lemma plain_puts_table (l : list (bytes * list WriteCondition * bool * bytes)) :
  NoDup (map (λ x, x.1.1.1) l) → Forall (λ x, x.1.1.1 ≠ []) l →
  Forall (λ x, Forall (λ c, ∃ ty, WriteConditionType_from_i32 (wc_type c) = Some ty) x.1.1.2) l →
  plain_puts (map (λ x, build_put (mkWriteBuilder x.1.1.1 x.1.1.2 None x.1.2) x.2) l).
Proof.
  intros Hnd Hne Hc. split; [by rewrite map_map|].
  apply Forall_forall. intros p (x & -> & Hx)%list_elem_of_fmap.
  rewrite Forall_forall in Hne. rewrite Forall_forall in Hc. split_and!; [by apply Hne|done|by apply Hc].
Qed.

Lemma srv_write_case n (w : W) puts :
  srv_inv (S n) w → plain_puts puts →
  match first_failure (latest w) 0 puts with
  | Some f => srv_write w puts = (Err (CCasFailed f.1.1 f.1.2 f.2), w)
  | None =>
      ∃ resp w', srv_write w puts = (Ok resp, w') ∧ srv_inv n w' ∧
        (∀ p, p ∈ puts → content_at w' (put_key p) = Some (put_value p)) ∧
        ∀ k, k ≠ [] → k ∉ map put_key puts → content_at w' k = content_at w k
  end.
Proof.
  intros Hi Hp. destruct (first_failure (latest w) 0 puts) as [f|] eqn:E; [by eapply srv_write_fails|].
  destruct (srv_write_done n w puts Hi Hp E) as (resp & w' & Hw & Hi' & Hin & Hout).
  exists resp, w'. split_and!; [done..|]. intros k Hk Hni. unfold content_at. by rewrite Hout.
Qed.

Lemma record_key_ne s : state_key tag_of s ≠ [] ∧ hb_key tag_of s ≠ [] ∧ commit_key tag_of s ≠ [].
Proof. split_and!; apply record_key_nonempty. Qed.

(** A write to keys of the record of [s] leaves the other records alone. *)
Lemma other_records (w w' : W) s (keys : list bytes) :
  u64_ok s → (∀ k, k ∈ keys → k = state_key tag_of s ∨ k = hb_key tag_of s ∨ k = commit_key tag_of s) →
  (∀ k, k ≠ [] → k ∉ keys → content_at w' k = content_at w k) →
  ∀ s', u64_ok s' → s' ≠ s → record_at w' s' = record_at w s'.
Proof.
  intros Hs Hkeys Hout s' Hs' Hne. unfold record_at. destruct (record_key_ne s') as (? & ? & ?).
  destruct (record_keys_distinct tag_of s' s Hs' Hs) as (Ds & Dh & Dc & D1 & D2 & D3).
  destruct (record_keys_distinct tag_of s s' Hs Hs') as (_ & _ & _ & E1 & E2 & E3).
  f_equal; apply Hout; try done; intros Hin; destruct (Hkeys _ Hin) as [E|[E|E]]; naive_solver.
Qed.

Lemma state_puts_plain s conds take v rest :
  u64_ok s → Forall (λ c, ∃ ty, WriteConditionType_from_i32 (wc_type c) = Some ty) conds →
  (rest = [] ∨ ∃ c, rest = [(commit_key tag_of s, [], false, c)]) → ∀ h,
  plain_puts (map (λ x, build_put (mkWriteBuilder x.1.1.1 x.1.1.2 None x.1.2) x.2)
    ((state_key tag_of s, conds, take, v) :: rest ++ [(hb_key tag_of s, [], false, h)])).
Proof.
  intros Hs Hc Hrest h. destruct (record_key_ne s) as (? & ? & ?).
  destruct (record_keys_distinct tag_of s s Hs Hs) as (_ & _ & _ & D1 & D2 & D3).
  apply plain_puts_table; destruct Hrest as [->|[c ->]]; cbn;
    repeat first [apply NoDup_nil_2 | apply NoDup_cons_2 | apply Forall_cons_2 | apply Forall_nil_2 | done];
    rewrite ?elem_of_cons, ?elem_of_nil; naive_solver.
Qed.

(** Writing the state, the heartbeat and possibly the commit version. *)
Lemma state_write n (w : W) s conds take v rest h :
  srv_inv (S n) w → u64_ok s → Forall (λ c, ∃ ty, WriteConditionType_from_i32 (wc_type c) = Some ty) conds →
  (rest = [] ∨ ∃ c, rest = [(commit_key tag_of s, [], false, c)]) →
  let puts := map (λ x, build_put (mkWriteBuilder x.1.1.1 x.1.1.2 None x.1.2) x.2)
    ((state_key tag_of s, conds, take, v) :: rest ++ [(hb_key tag_of s, [], false, h)]) in
  match eval_conditions (latest w (state_key tag_of s)) conds with
  | Ok (Some j) => srv_write w puts = (Err (CCasFailed 0 j (latest w (state_key tag_of s))), w)
  | Ok None =>
      ∃ resp w', srv_write w puts = (Ok resp, w') ∧ srv_inv n w' ∧
        record_at w' s = mkRecord (Some v)
          (match rest with (_, _, _, c) :: _ => Some c | [] => rec_commit (record_at w s) end) (Some h) ∧
        ∀ s', u64_ok s' → s' ≠ s → record_at w' s' = record_at w s'
  | _ => True
  end.
Proof.
  intros Hi Hs Hc Hrest puts.
  pose proof (srv_write_case n w puts Hi (state_puts_plain s conds take v rest Hs Hc Hrest h)) as Hcase.
  assert (first_failure (latest w) 0 puts =
    match eval_conditions (latest w (state_key tag_of s)) conds with
    | Ok (Some j) => Some (0, j, latest w (state_key tag_of s)) | _ => None end) as Hff.
  { unfold puts. cbn [map app first_failure]. cbn [build_put put_key put_conditions fst snd wb_key wb_conditions].
    destruct (eval_conditions _ conds) as [[j|]|e|]; [done| | |]; by destruct Hrest as [->|[c ->]]. }
  rewrite Hff in Hcase. destruct (eval_conditions _ conds) as [[j|]|e|]; [done| |done..].
  destruct Hcase as (resp & w' & Hw & Hi' & Hin & Hout). exists resp, w'. split; [done|]. split; [done|].
  assert (Hkeys : map put_key puts = state_key tag_of s ::
    (match rest with _ :: _ => [commit_key tag_of s] | [] => [] end) ++ [hb_key tag_of s]).
  { unfold puts. by destruct Hrest as [->|[c ->]]. }
  rewrite Hkeys in Hout. split.
  - destruct (record_key_ne s) as (? & ? & ?).
    destruct (record_keys_distinct tag_of s s Hs Hs) as (_ & _ & _ & D1 & D2 & D3).
    unfold record_at. f_equal.
    + apply (Hin (build_put (mkWriteBuilder (state_key tag_of s) conds None take) v)). left.
    + destruct Hrest as [->|[c ->]].
      * apply Hout; [done|]. cbn. rewrite !elem_of_cons, elem_of_nil. naive_solver.
      * apply (Hin (build_put (mkWriteBuilder (commit_key tag_of s) [] None false) c)). right. left.
    + apply (Hin (build_put (mkWriteBuilder (hb_key tag_of s) [] None false) h)).
      unfold puts. rewrite app_comm_cons, map_app. apply elem_of_app. right. left.
  - eapply other_records; [done| |exact Hout].
    intros k Hk. destruct rest; cbn in Hk; rewrite !elem_of_cons, elem_of_nil in Hk; naive_solver.
Qed.

(** ** One operation *)
Lemma failed_state_cas prev :
  failed_state (Err (CCasFailed 0 0 prev)) =
    match prev ≫= v_content with
    | None => Err CNotFound
    | Some b => let? s := parse_txn_state b in Ok (Some s)
    end.
Proof. done. Qed.

Definition op_refined (n : nat) (o : table_op) (w : W) : Prop :=
  ∃ w', run_op o w = ((spec_op o (record_at w (op_txn o))).1, w') ∧ srv_inv n w' ∧
    record_at w' (op_txn o) = (spec_op o (record_at w (op_txn o))).2 ∧
    ∀ s, u64_ok s → s ≠ op_txn o → record_at w' s = record_at w s.

Lemma begin_refined n now s (w : W) : srv_inv (S n) w → u64_ok s → op_refined n (OBegin now s) w.
Proof.
  intros Hi Hs. pose proof (srv_inv_weaken n w Hi). unfold op_refined. cbn [op_txn run_op spec_op].
  pose proof (state_write n w s [version_condition ExpectNotExists 0] true (txn_state_value Running) []
    (u64_to_le_bytes now) Hi Hs ltac:(by repeat constructor; eexists) ltac:(by left)) as Hw.
  cbn [map app] in Hw. rewrite cond_not_exists in Hw.
  change (latest w (state_key tag_of s) ≫= v_content) with (rec_state (record_at w s)) in Hw.
  destruct (rec_state (record_at w s)) as [b|] eqn:Eb.
  - exists w. split; [|done]. unfold begin_txn. setoid_rewrite Hw.
    rewrite failed_state_cas. change (latest w (state_key tag_of s) ≫= v_content) with (rec_state (record_at w s)).
    rewrite Eb. unfold parse_txn_state. by destruct (TxnState_from_name b) as [[]|].
  - destruct Hw as (resp & w' & Hw & Hi' & Hr & Hoth). exists w'. split; [|by split_and!].
    unfold begin_txn. by setoid_rewrite Hw.
Qed.

Lemma settle_refined n (o : table_op) (w : W) s target rest c now :
  srv_inv (S n) w → u64_ok s → target ≠ Running →
  (rest = [] ∧ c = rec_commit (record_at w s) ∨
   ∃ b, rest = [(commit_key tag_of s, [], false, b)] ∧ c = Some b) →
  op_txn o = s →
  (∀ r w', srv_write w (map (λ x, build_put (mkWriteBuilder x.1.1.1 x.1.1.2 None x.1.2) x.2)
      ((state_key tag_of s, [value_condition ExpectValue (txn_state_value Running) 0], true, txn_state_value target)
       :: rest ++ [(hb_key tag_of s, [], false, txn_u64_value now)])) = (r, w') →
    run_op o w = (let? prev_state := failed_state r in
      match prev_state with
      | None => Ok tt
      | Some Running => Err CInternal
      | Some p => if bool_decide (p = target) then Ok tt else Err CInvalidArgument
      end, w')) →
  spec_op o (record_at w s) =
    match rec_state (record_at w s) with
    | None => (Err CNotFound, record_at w s)
    | Some b =>
        if bytes_eqb b (txn_state_value Running)
        then (Ok tt, mkRecord (Some (txn_state_value target)) c (Some (txn_u64_value now)))
        else (match TxnState_from_name b with
              | Some Running => Err CInternal
              | Some p => if bool_decide (p = target) then Ok tt else Err CInvalidArgument
              | None => Err CInternal end, record_at w s)
    end → op_refined n o w.
Proof.
  intros Hi Hs Htgt Hrest Ho Hrun Hspec. pose proof (srv_inv_weaken n w Hi). unfold op_refined. rewrite Ho, Hspec. clear Hspec.
  pose proof (state_write n w s [value_condition ExpectValue (txn_state_value Running) 0] true (txn_state_value target)
    rest (txn_u64_value now) Hi Hs ltac:(by repeat constructor; eexists)
    ltac:(destruct Hrest as [[-> _]|(b & -> & _)]; eauto)) as Hw.
  cbv zeta in Hw. rewrite cond_value in Hw.
  change (latest w (state_key tag_of s) ≫= v_content) with (rec_state (record_at w s)) in Hw.
  destruct (rec_state (record_at w s)) as [b|] eqn:Eb.
  2: { rewrite bool_decide_false in Hw by done. exists w. split; [|done].
       rewrite (Hrun _ _ Hw), failed_state_cas.
       change (latest w (state_key tag_of s) ≫= v_content) with (rec_state (record_at w s)). by rewrite Eb. }
  unfold bytes_eqb. rewrite (bool_decide_ext (Some b = Some (txn_state_value Running)) (b = txn_state_value Running))
    in Hw by (split; congruence).
  case_bool_decide as E.
  - destruct Hw as (resp & w' & Hw & Hi' & Hr & Hoth). exists w'. split; [by rewrite (Hrun _ _ Hw)|].
    split; [done|]. split; [|done]. rewrite Hr. by destruct Hrest as [[-> ->]|(b' & -> & ->)].
  - exists w. split; [|done]. rewrite (Hrun _ _ Hw), failed_state_cas.
    change (latest w (state_key tag_of s) ≫= v_content) with (rec_state (record_at w s)). rewrite Eb.
    unfold parse_txn_state. by destruct (TxnState_from_name b) as [[]|].
Qed.

Lemma commit_refined n now s c (w : W) : srv_inv (S n) w → u64_ok s → op_refined n (OCommit now s c) w.
Proof.
  intros Hi Hs.
  apply (settle_refined n _ w s Committed [(commit_key tag_of s, [], false, txn_u64_value c)]
    (Some (txn_u64_value c)) now); [done..| |done| |].
  - right. by eexists.
  - intros r w' Hw. cbn [run_op]. unfold commit_txn. setoid_rewrite Hw. destruct (failed_state r) as [[[]|]|e|]; done.
  - cbn [spec_op]. destruct (rec_state _) as [b|]; [|done]. destruct (bytes_eqb b _); [done|].
    by destruct (TxnState_from_name b) as [[]|].
Qed.

Lemma abort_refined n now s (w : W) : srv_inv (S n) w → u64_ok s → op_refined n (OAbort now s) w.
Proof.
  intros Hi Hs.
  apply (settle_refined n _ w s Aborted [] (rec_commit (record_at w s)) now); [done..| |done| |].
  - by left.
  - intros r w' Hw. cbn [run_op]. unfold abort_txn. setoid_rewrite Hw. destruct (failed_state r) as [[[]|]|e|]; done.
  - cbn [spec_op]. destruct (rec_state _) as [b|]; [|done]. destruct (bytes_eqb b _); [done|].
    by destruct (TxnState_from_name b) as [[]|].
Qed.

Lemma heartbeat_refined n now s (w : W) : srv_inv (S n) w → u64_ok s → op_refined n (OHeartbeat now s) w.
Proof.
  intros Hi Hs. pose proof (srv_inv_weaken n w Hi). unfold op_refined. cbn [op_txn run_op spec_op]. destruct (record_key_ne s) as (? & Hne & ?).
  set (puts := [build_put (mkWriteBuilder (hb_key tag_of s) [version_condition ExpectExists 0] None false) (txn_u64_value now)]).
  assert (plain_puts puts) as Hp.
  { split; [apply NoDup_singleton|]. repeat constructor; [done|]. by eexists. }
  pose proof (srv_write_case n w puts Hi Hp) as Hw. unfold puts in *. clear puts Hp. cbn [first_failure] in Hw.
  cbn [build_put put_key put_conditions wb_key wb_conditions] in Hw. rewrite cond_exists in Hw.
  change (latest w (hb_key tag_of s) ≫= v_content) with (rec_hb (record_at w s)) in Hw.
  unfold heartbeat. destruct (rec_hb (record_at w s)) as [b|] eqn:Eb.
  - destruct Hw as (resp & w' & Hw & Hi' & Hin & Hout). exists w'. setoid_rewrite Hw. split; [done|].
    split; [done|]. destruct (record_keys_distinct tag_of s s Hs Hs) as (_ & _ & _ & D1 & D2 & D3). split.
    + unfold record_at. cbn [snd rec_state rec_commit]. f_equal.
      * apply Hout; [done|]. cbn. rewrite elem_of_cons, elem_of_nil. naive_solver.
      * apply Hout; [done|]. cbn. rewrite elem_of_cons, elem_of_nil. naive_solver.
      * apply (Hin _ (list_elem_of_here _ _)).
    + eapply other_records; [done| |exact Hout]. intros k Hk. cbn in Hk.
      rewrite elem_of_cons, elem_of_nil in Hk. naive_solver.
  - exists w. setoid_rewrite Hw. done.
Qed.

Lemma run_op_refined n o (w : W) : srv_inv (S n) w → u64_ok (op_txn o) → op_refined n o w.
Proof.
  intros Hi Hs. destruct o;
    [by apply begin_refined|by apply heartbeat_refined|by apply commit_refined|by apply abort_refined].
Qed.

(** ** Sequences of operations *)
Fixpoint run_ops (ops : list table_op) (w : W) : list (CResult unit) * W :=
  match ops with
  | [] => ([], w)
  | o :: ops' => let '(r, w1) := run_op o w in let '(rs, w2) := run_ops ops' w1 in (r :: rs, w2)
  end.
(** The same sequence on the abstract record of one transaction. *)
Fixpoint spec_ops (s : Z) (ops : list table_op) (r : record) : record :=
  match ops with
  | [] => r
  | o :: ops' => spec_ops s ops' (if op_txn o =? s then (spec_op o r).2 else r)
  end.

Lemma run_ops_inv n ops (w : W) :
  srv_inv (length ops + n) w → Forall (λ o, u64_ok (op_txn o)) ops →
  srv_inv n (run_ops ops w).2 ∧
  ∀ s, u64_ok s → record_at (run_ops ops w).2 s = spec_ops s ops (record_at w s).
Proof.
  intros Hi Hok. revert w Hi. induction Hok as [|o ops Ho _ IH]; intros w Hi; [done|].
  cbn [run_ops spec_ops]. destruct (run_op_refined _ o w Hi Ho) as (w1 & -> & Hi1 & Hr1 & Hoth).
  destruct (IH w1 Hi1) as [Hi2 Hr2]. destruct (run_ops ops w1) as [rs w2]. split; [done|].
  intros s Hs. cbn [snd] in *. rewrite (Hr2 s Hs). f_equal.
  destruct (Z.eqb_spec (op_txn o) s) as [<-|Hne]; [done|]. by apply Hoth.
Qed.

(** A decided record. *)
Definition decided (r : record) : Prop :=
  rec_state r = Some (txn_state_value Committed) ∨ rec_state r = Some (txn_state_value Aborted).

Lemma spec_op_decided o r :
  decided r → rec_state (spec_op o r).2 = rec_state r ∧ rec_commit (spec_op o r).2 = rec_commit r.
Proof.
  intros Hd. destruct o as [now s|now s|now s c|now s]; cbn [spec_op];
    [destruct Hd as [E|E]; rewrite E; by split|by destruct (rec_hb r)| |];
    destruct Hd as [E|E]; rewrite E; (split; [cbn; by rewrite ?E|done]).
Qed.

Lemma spec_ops_decided s ops r :
  decided r → rec_state (spec_ops s ops r) = rec_state r ∧ rec_commit (spec_ops s ops r) = rec_commit r.
Proof.
  revert r. induction ops as [|o ops IH]; intros r Hd; cbn [spec_ops]; [done|].
  destruct (op_txn o =? s); [|by apply IH]. destruct (spec_op_decided o r Hd) as [Es Ec].
  destruct (IH (spec_op o r).2) as [-> ->]; [|done]. unfold decided. by rewrite Es.
Qed.

(** C4: a transaction is decided once: after its record says committed (or
    aborted), no later sequence of begins, heartbeats, commits and aborts by
    any clients changes the decision or the commit version, while before that
    only a commit or an abort of this transaction decides it. *)
Theorem txn_decision_final ops (w : W) s :
  srv_inv (length ops) w → Forall (λ o, u64_ok (op_txn o)) ops → u64_ok s →
  let r := record_at w s in
  let r' := record_at (run_ops ops w).2 s in
  (decided r → rec_state r' = rec_state r ∧ rec_commit r' = rec_commit r) ∧
  (¬ decided r → decided r' → ∃ now c, OCommit now s c ∈ ops ∨ OAbort now s ∈ ops).
Proof.
  intros Hi Hok Hs r r'. rewrite <- (Nat.add_0_r (length ops)) in Hi.
  destruct (run_ops_inv 0 ops w Hi Hok) as [_ Hr].
  unfold r'. rewrite (Hr s Hs). fold r. split; [apply spec_ops_decided|].
  clear Hr Hok Hi r'. generalize r. clear r. induction ops as [|o ops IH]; intros r Hnd Hd; [done|].
  cbn [spec_ops] in Hd. destruct (Z.eqb_spec (op_txn o) s) as [Es|Es].
  2: { destruct (IH r Hnd Hd) as (now & c & Hin). exists now, c. setoid_rewrite elem_of_cons. tauto. }
  assert ((∃ now c, o = OCommit now s c ∨ o = OAbort now s) ∨ ¬ decided (spec_op o r).2) as [(now & c & Ho)|Hnd'].
  { destruct o as [now s'|now s'|now s' c|now s']; cbn in Es; subst s'; [right|right|left; eauto|left; exists now, 0; auto].
    - cbn. destruct (rec_state r); [done|]. by intros [E|E].
    - cbn. by destruct (rec_hb r). }
  - exists now, c. setoid_rewrite elem_of_cons. naive_solver.
  - destruct (IH _ Hnd' Hd) as (now & c & Hin). exists now, c. setoid_rewrite elem_of_cons. tauto.
Qed.

Lemma TxnState_from_name_some b st : TxnState_from_name b = Some st → b = txn_state_value st.
Proof.
  unfold TxnState_from_name. repeat (case_match eqn:E; [apply bytes_eqb_eq in E as ->; by intros [= <-]|clear E]). done.
Qed.

Lemma commit_ok_state now s c r :
  (spec_op (OCommit now s c) r).1 = Ok tt → rec_state (spec_op (OCommit now s c) r).2 = Some (txn_state_value Committed).
Proof.
  cbn [spec_op]. destruct (rec_state r) as [b|] eqn:Eb; [|done].
  destruct (bytes_eqb b (txn_state_value Running)); [done|]. cbn [fst snd]. rewrite Eb.
  destruct (TxnState_from_name b) as [[]|] eqn:En; try done. intros _. by apply TxnState_from_name_some in En as ->.
Qed.
Lemma abort_ok_state now s r :
  (spec_op (OAbort now s) r).1 = Ok tt → rec_state (spec_op (OAbort now s) r).2 = Some (txn_state_value Aborted).
Proof.
  cbn [spec_op]. destruct (rec_state r) as [b|] eqn:Eb; [|done].
  destruct (bytes_eqb b (txn_state_value Running)); [done|]. cbn [fst snd]. rewrite Eb.
  destruct (TxnState_from_name b) as [[]|] eqn:En; try done. intros _. by apply TxnState_from_name_some in En as ->.
Qed.

(** The answers agree with the decision: in any sequence of operations by
    any clients, once a transaction was told that it committed, an abort of it
    is refused, and the other way round. *)
Theorem txn_outcome_agreement ops1 ops2 o1 o2 (w w1 : W) s :
  srv_inv (length (ops1 ++ o1 :: ops2 ++ [o2])) w →
  Forall (λ o, u64_ok (op_txn o)) (ops1 ++ o1 :: ops2 ++ [o2]) →
  ((∃ now c, o1 = OCommit now s c) ∧ (∃ now, o2 = OAbort now s) ∨
   (∃ now, o1 = OAbort now s) ∧ (∃ now c, o2 = OCommit now s c)) →
  run_op o1 (run_ops ops1 w).2 = (Ok tt, w1) →
  (run_op o2 (run_ops ops2 w1).2).1 ≠ Ok tt.
Proof.
  intros Hi Hok Ho Hrun1.
  apply Forall_app in Hok as [Hok1 [Ho1 [Hok2 Ho2]%Forall_app]%Forall_cons].
  apply Forall_cons in Ho2 as [Ho2 _].
  rewrite length_app in Hi. cbn [length] in Hi. rewrite length_app in Hi.
  destruct (run_ops_inv _ ops1 w Hi Hok1) as [Hi1 _].
  destruct (run_op_refined _ o1 _ Hi1 Ho1) as (w1' & E1 & Hi2 & Hr1 & _). rewrite Hrun1 in E1.
  injection E1 as E1 <-. symmetry in E1.
  destruct (run_ops_inv _ ops2 w1 Hi2 Hok2) as [Hi3 Hr3].
  destruct (run_op_refined _ o2 _ Hi3 Ho2) as (w3 & -> & _). cbn [fst].
  assert (Hs : op_txn o1 = s ∧ op_txn o2 = s) by naive_solver. destruct Hs as [Hs1 Hs2].
  rewrite Hs1, Hs2 in *. rewrite (Hr3 s Ho1), Hr1.
  set (r := record_at (run_ops ops1 w).2 s) in *.
  destruct Ho as [[(now & c & ->) (now2 & ->)]|[(now & ->) (now2 & c & ->)]].
  - apply commit_ok_state in E1. destruct (spec_ops_decided s ops2 _ (or_introl E1)) as [Hst _].
    rewrite E1 in Hst. revert Hst. generalize (spec_ops s ops2 (spec_op (OCommit now s c) r).2).
    intros r2 Hst. cbn [spec_op]. by rewrite Hst.
  - apply abort_ok_state in E1. destruct (spec_ops_decided s ops2 _ (or_intror E1)) as [Hst _].
    rewrite E1 in Hst. revert Hst. generalize (spec_ops s ops2 (spec_op (OAbort now s) r).2).
    intros r2 Hst. cbn [spec_op]. by rewrite Hst.
Qed.

(** ** Reading a record *)

(** Under the prefix of [s] there are only the keys of its record. *)
Definition only_record_keys (w : W) (s : Z) : Prop :=
  ∀ k, starts_with k (txn_prefix (tag_of s) s) = true → content_at w k ≠ None →
       k = state_key tag_of s ∨ k = hb_key tag_of s ∨ k = commit_key tag_of s.

Definition present (w : W) (k : bytes) : list ValueSet :=
  match latest w k with
  | Some v => match v_content v with Some _ => [mkValueSet k [v]] | None => [] end
  | None => []
  end.

Lemma present_elem (w : W) k vs : mkValueSet k vs ∈ present w k ↔ ∃ v, latest w k = Some v ∧ v_content v ≠ None ∧ vs = [v].
Proof.
  unfold present. destruct (latest w k) as [v|]; [|by split; [intros ?%not_elem_of_nil|intros (? & ? & _)]].
  destruct (v_content v) eqn:E.
  - rewrite list_elem_of_singleton. split; [intros [= ->]; exists v; by rewrite E|].
    by intros (? & [= <-] & _ & ->).
  - split; [by intros ?%not_elem_of_nil|]. intros (? & [= <-] & Hne & _). by rewrite E in Hne.
Qed.

Lemma present_key (w : W) k s : s ∈ present w k → vs_user_key s = k.
Proof. unfold present. repeat case_match; rewrite ?list_elem_of_singleton, ?elem_of_nil; by intros; subst. Qed.

Lemma record_key_order s :
  bytes_lt (commit_key tag_of s) (hb_key tag_of s) ∧ bytes_lt (hb_key tag_of s) (state_key tag_of s).
Proof.
  unfold commit_key, hb_key, state_key, txn_commit_key, txn_heartbeat_key, txn_state_key, bytes_lt.
  by rewrite !bytes_cmp_app_l.
Qed.

Lemma scan_record n (w : W) s :
  srv_inv n w → u64_ok s → only_record_keys w s →
  srv_scan w (txn_prefix (tag_of s) s) =
    (Ok (mkShardScanResponse (present w (commit_key tag_of s) ++ present w (hb_key tag_of s) ++
                              present w (state_key tag_of s)) false), w).
Proof.
  intros Hi Hs Honly.
  assert (txn_prefix (tag_of s) s ≠ []) as Hne by (intros E%(f_equal length); by rewrite txn_prefix_length in E).
  destruct (srv_scan_done n w _ Hi Hne) as (data & -> & Hsort & Hdata).
  destruct (record_key_order s) as [O1 O2].
  assert (∀ k, StronglySorted (λ a b, bytes_lt (vs_user_key a) (vs_user_key b)) (present w k)) as Hp
    by (intros k; unfold present; repeat case_match; repeat constructor).
  do 3 f_equal. eapply sorted_strict_unique; [|exact Hsort| |].
  - intros x y Hxy Hyx. exact (bytes_lt_irrefl _ (bytes_lt_trans _ _ _ Hxy Hyx)).
  - assert (Happ : ∀ (l1 l2 : list ValueSet), StronglySorted (λ a b, bytes_lt (vs_user_key a) (vs_user_key b)) l1 →
      StronglySorted (λ a b, bytes_lt (vs_user_key a) (vs_user_key b)) l2 →
      (∀ a b, a ∈ l1 → b ∈ l2 → bytes_lt (vs_user_key a) (vs_user_key b)) →
      StronglySorted (λ a b, bytes_lt (vs_user_key a) (vs_user_key b)) (l1 ++ l2)).
    { intros l1 l2 H1 H2 Hx. induction H1 as [|a l1 H1 IH Ha]; [done|]. cbn. constructor.
      - apply IH. intros. apply Hx; [by right|done].
      - apply Forall_app. split; [done|]. apply Forall_forall. intros b Hb. apply Hx; [left|done]. }
    apply Happ; [done|apply Happ; [done..|]|].
    + intros a b ->%present_key ->%present_key. done.
    + intros a b ->%present_key [->%present_key| ->%present_key]%elem_of_app; [done|by eapply bytes_lt_trans].
  - intros [k vs]. rewrite Hdata, !elem_of_app. split.
    + intros [Hpre Hv]. assert (content_at w k ≠ None) as Hc.
      { destruct Hv as (v & E & Hne' & _). unfold content_at. by rewrite E. }
      destruct (Honly k Hpre Hc) as [->|[->| ->]]; rewrite <- present_elem in Hv; auto.
    + intros Hin. assert (∃ x, k = txn_prefix (tag_of s) s ++ x) as [x Hx].
      { destruct Hin as [Hin|[Hin|Hin]]; apply present_key in Hin as Ek; cbn in Ek; subst k; by eexists. }
      split; [apply starts_with_spec; eauto|].
      destruct Hin as [Hin|[Hin|Hin]]; apply present_key in Hin as Ek; cbn in Ek;
        rewrite Ek in Hin |- *; by apply present_elem in Hin.
Qed.

Lemma parse_value_one {T} k v b (parser : bytes → CResult T) :
  v_content v = Some b → parse_txn_value (mkValueSet k [v]) parser = parser b.
Proof. intros E. unfold parse_txn_value. cbn. by rewrite E. Qed.
Lemma parse_next_one {T} k v b it (parser : bytes → CResult T) :
  v_content v = Some b →
  parse_next_txn_key (mkValueSet k [v] :: it) k parser = (let? x := parser b in Ok (x, it)).
Proof.
  intros E. unfold parse_next_txn_key. cbn [vs_user_key]. rewrite (proj2 (bytes_eqb_eq _ _)) by done.
  by rewrite (parse_value_one k v b).
Qed.

Lemma get_record_spec n (w : W) s st hb h c :
  srv_inv n w → u64_ok s → only_record_keys w s →
  rec_state (record_at w s) = Some (txn_state_value st) → rec_hb (record_at w s) = Some hb → decode_u64 hb = Some h →
  (match rec_commit (record_at w s) with
   | Some cb => ∃ cv, decode_u64 cb = Some cv ∧ c = Some cv | None => c = None end) →
  get_txn_record tag_of s w = (Ok (Some (mkTxnRecord s st h c)), w).
Proof.
  intros Hi Hs Honly Hst Hhb Hh Hc. unfold get_txn_record. rewrite (scan_record n w s Hi Hs Honly). cbn [result_bind sr_data].
  cbn [record_at rec_state rec_hb rec_commit] in *. unfold content_at in *.
  assert (Hpres : ∀ k b, latest w k ≫= v_content = Some b → ∃ v, present w k = [mkValueSet k [v]] ∧ v_content v = Some b).
  { intros k b E. unfold present. destruct (latest w k) as [v|]; [|done]. cbn in E. rewrite E. eauto. }
  destruct (Hpres _ _ Hst) as (vst & -> & Evst). destruct (Hpres _ _ Hhb) as (vhb & -> & Evhb).
  assert (TxnState_from_name (txn_state_value st) = Some st) as Hname by (by destruct st).
  destruct (record_keys_distinct tag_of s s Hs Hs) as (_ & _ & _ & _ & _ & Dhc).
  unfold parse_txn_record. fold (commit_key tag_of s) (hb_key tag_of s) (state_key tag_of s).
  destruct (latest w (commit_key tag_of s) ≫= v_content) as [cb|] eqn:Ecb.
  - destruct (Hpres _ _ Ecb) as (vc & -> & Evc). destruct Hc as (cv & Hcv & ->).
    cbn [app vs_user_key]. rewrite (proj2 (bytes_eqb_eq _ _)) by done.
    rewrite (parse_value_one _ vc cb) by done. unfold parse_u64 at 1. rewrite Hcv. cbn [ok_or result_bind].
    rewrite (parse_next_one _ vhb hb) by done. unfold parse_u64. rewrite Hh. cbn [ok_or result_bind].
    rewrite (parse_next_one _ vst (txn_state_value st)) by done. unfold parse_txn_state. by rewrite Hname.
  - subst c. assert (present w (commit_key tag_of s) = []) as ->.
    { unfold present. destruct (latest w (commit_key tag_of s)) as [v|]; [|done].
      cbn [mbind option_bind] in Ecb. by rewrite Ecb. }
    cbn [app vs_user_key]. unfold bytes_eqb. rewrite bool_decide_false by done. cbn [result_bind].
    rewrite (parse_next_one _ vhb hb) by done. unfold parse_u64. rewrite Hh. cbn [ok_or result_bind].
    rewrite (parse_next_one _ vst (txn_state_value st)) by done. unfold parse_txn_state. by rewrite Hname.
Qed.

(** An operation writes no key outside the record. *)
Lemma run_op_write o (w : W) :
  u64_ok (op_txn o) →
  ∃ puts, (run_op o w).2 = (srv_write w puts).2 ∧ plain_puts puts ∧
    ∀ k, k ∈ map put_key puts → k = state_key tag_of (op_txn o) ∨ k = hb_key tag_of (op_txn o) ∨ k = commit_key tag_of (op_txn o).
Proof.
  intros Hs. destruct (record_key_ne (op_txn o)) as (? & Hne & ?).
  assert (Hty : ∀ ty v b c, Forall (λ c, ∃ ty', WriteConditionType_from_i32 (wc_type c) = Some ty')
    [mkWriteCondition (WriteConditionType_i32 ty) v b c]) by (intros ty v b c; repeat constructor; destruct ty; by eexists).
  destruct o as [now s|now s|now s c|now s]; cbn [op_txn run_op] in *.
  - pose proof (state_puts_plain s [version_condition ExpectNotExists 0] true (txn_state_value Running) [] Hs
      (Hty _ _ _ _) (or_introl eq_refl) (u64_to_le_bytes now)) as Hp.
    eexists. split; [|split; [exact Hp|]].
    + unfold begin_txn. by destruct (srv_write w _) as [r w'].
    + intros k. cbn. rewrite !elem_of_cons, elem_of_nil. naive_solver.
  - exists [build_put (mkWriteBuilder (hb_key tag_of s) [version_condition ExpectExists 0] None false) (txn_u64_value now)].
    split; [|split].
    + unfold heartbeat. by destruct (srv_write w _) as [r w'].
    + split; [apply NoDup_singleton|]. repeat constructor; [done|]. by eexists.
    + intros k. cbn. rewrite !elem_of_cons, elem_of_nil. naive_solver.
  - pose proof (state_puts_plain s [value_condition ExpectValue (txn_state_value Running) 0] true (txn_state_value Committed)
      [(commit_key tag_of s, [], false, txn_u64_value c)] Hs (Hty _ _ _ _) (or_intror (ex_intro _ _ eq_refl)) (txn_u64_value now)) as Hp.
    eexists. split; [|split; [exact Hp|]].
    + unfold commit_txn. by destruct (srv_write w _) as [r w'].
    + intros k. cbn. rewrite !elem_of_cons, elem_of_nil. naive_solver.
  - pose proof (state_puts_plain s [value_condition ExpectValue (txn_state_value Running) 0] true (txn_state_value Aborted) [] Hs
      (Hty _ _ _ _) (or_introl eq_refl) (txn_u64_value now)) as Hp.
    eexists. split; [|split; [exact Hp|]].
    + unfold abort_txn. by destruct (srv_write w _) as [r w'].
    + intros k. cbn. rewrite !elem_of_cons, elem_of_nil. naive_solver.
Qed.

Lemma run_op_record_keys_any n o (w : W) s :
  srv_inv (S n) w → u64_ok (op_txn o) → u64_ok s → only_record_keys w s → only_record_keys (run_op o w).2 s.
Proof.
  intros Hi Ho Hs Honly k Hpre Hc. destruct (run_op_write o w Ho) as (puts & E & Hp & Hkeys). rewrite E in Hc.
  pose proof (srv_write_case n w puts Hi Hp) as Hcase.
  destruct (first_failure (latest w) 0 puts) as [f|]; [rewrite Hcase in Hc; by apply Honly|].
  destruct Hcase as (resp & w' & Hw & _ & _ & Hout). rewrite Hw in Hc. cbn [snd] in Hc.
  destruct (decide (k ∈ map put_key puts)) as [Hin|Hni].
  - apply starts_with_spec in Hpre as [y Hy]. enough (s = op_txn o) as -> by (by apply Hkeys).
    destruct (Hkeys k Hin) as [Ek|[Ek|Ek]]; rewrite Hy in Ek; by apply record_key_inj in Ek as [? _].
  - apply Honly; [done|]. rewrite <- Hout; [done| |done]. intros ->.
    apply starts_with_spec in Hpre as [y Hy]. by destruct (txn_prefix (tag_of s) s) eqn:Ep.
Qed.
Lemma run_op_record_keys n o (w : W) :
  srv_inv (S n) w → u64_ok (op_txn o) → only_record_keys w (op_txn o) → only_record_keys (run_op o w).2 (op_txn o).
Proof. intros. by apply (run_op_record_keys_any n). Qed.

(** What was committed is what a resolver reads: right after a commit of
    a running transaction succeeds, its record reads back as committed with
    that commit version and the heartbeat of the commit. *)
Theorem commit_then_get_record n (w w' : W) now s c :
  srv_inv (S n) w → u64_ok s → u64_ok c → u64_ok now →
  rec_state (record_at w s) = Some (txn_state_value Running) →
  only_record_keys w s →
  commit_txn tag_of now s c w = (Ok tt, w') →
  get_txn_record tag_of s w' = (Ok (Some (mkTxnRecord s Committed now (Some c))), w').
Proof.
  intros Hi Hs Hc Hnow Hrun Honly Hcommit.
  pose proof (run_op_record_keys n (OCommit now s c) w Hi Hs Honly) as Honly'.
  destruct (commit_refined n now s c w Hi Hs) as (w1 & E & Hi' & Hr & _).
  cbn [run_op op_txn] in *. rewrite Hcommit in E, Honly'. injection E as _ <-.
  cbn [spec_op] in Hr. rewrite Hrun, (proj2 (bytes_eqb_eq _ _)) in Hr by done. cbn [snd] in Hr.
  apply (get_record_spec n w' s Committed (txn_u64_value now) now (Some c)); try done; rewrite ?Hr; [done|done| |].
  - by apply decode_u64_encode.
  - exists c. split; [|done]. by apply decode_u64_encode.
Qed.

(** A transaction that has just begun does not read back with the time it
    began at: the first heartbeat is stored in little-endian order and read
    in big-endian order, so its expiry is computed from the byte-reversed
    time. *)
Theorem begin_heartbeat_reversed n (w w' : W) now s :
  srv_inv (S n) w → u64_ok s →
  record_at w s = mkRecord None None None →
  only_record_keys w s →
  begin_txn tag_of now s w = (Ok tt, w') →
  get_txn_record tag_of s w' =
    (Ok (Some (mkTxnRecord s Running (from_be_bytes (u64_to_le_bytes now)) None)), w').
Proof.
  intros Hi Hs Hnone Honly Hbegin.
  pose proof (run_op_record_keys n (OBegin now s) w Hi Hs Honly) as Honly'.
  destruct (begin_refined n now s w Hi Hs) as (w1 & E & Hi' & Hr & _).
  cbn [run_op op_txn] in *. rewrite Hbegin in E, Honly'. injection E as _ <-.
  cbn [spec_op] in Hr. rewrite Hnone in Hr. cbn in Hr.
  apply (get_record_spec n w' s Running (u64_to_le_bytes now) _ None); try done; by rewrite Hr.
Qed.

End Table.
