(* ===== verification/TxnServerImpl.v ===== *)
(** * The server side of the transaction state table

    The group that holds the internal shard serves the table's batch writes
    with [batch_write] and its scans with [scan]; this discharges the
    [TxnServerOk] interface.  Versions of the internal shard come from the
    clock and grow by at least one per write; with the clock below [2 ^ 63]
    there is room for [2 ^ 62] writes. *)

From S2P Require Import Prelude Bytes Rock Api Errors Schema RocksDb Keys Engine EngineFacts EngineWrites Samples Cas EvalTxn EvalTxnFacts TxnSamples EvalRead ScanProps EvalWrite EvalWriteProps TxnTable TxnTableProps.

Section Impl.
  Context {DB : Type} `{RocksDbOk DB} `{CodecOk WriteBatch} `{CodecOk TxnIntent}.
  Context `{CodecOk EntryId} `{CodecOk GroupDesc} `{CodecOk MoveShardState}.
  Context `{LatchManager (GroupEngine DB)}.
  Variables (clock : nat → Z) (sid t : Z).
  Hypothesis clock_ok : ∀ i, 0 ≤ clock i ≤ 2 ^ 63.

Definition table_scan (prefix : bytes) : ShardScanRequest :=
  mkShardScanRequest sid TXN_MAX_VERSION 0 0 false false (Some prefix) None None false false false.

Definition engine_write (ge : GroupEngine DB) (puts : list PutRequest) : CResult ShardWriteResponse * GroupEngine DB :=
  match batch_write clock ExecCtx_default ge (mkShardWriteRequest sid [] puts) with
  | Ok (er, resp) =>
      match apply_eval ge er with
      | Ok ge' => (Ok resp, ge')
      | Err e => (client_view e, ge)
      | Panic => (Panic, ge)
      end
  | Err e => (client_view e, ge)
  | Panic => (Panic, ge)
  end.
Definition engine_scan (ge : GroupEngine DB) (prefix : bytes) : CResult ShardScanResponse * GroupEngine DB :=
  match scan id ExecCtx_default (table_scan prefix) ge with
  | (Ok r, ge') => (Ok r, ge')
  | (Err e, ge') => (client_view e, ge')
  | (Panic, ge') => (Panic, ge')
  end.

#[local] Instance engine_server : TxnServer (GroupEngine DB) :=
  {| srv_write := engine_write; srv_scan := engine_scan |}.

Definition engine_latest (ge : GroupEngine DB) (k : bytes) : option Value :=
  match ge_get ge sid k with Ok o => o | _ => None end.

Definition version_cap (n : nat) : Z := 2 ^ 63 + 2 ^ 62 - Z.of_nat n.
Definition engine_inv (n : nat) (ge : GroupEngine DB) : Prop :=
  Z.of_nat n ≤ 2 ^ 62 ∧ serves ge sid t ∧
  ∀ k vs, k ≠ [] → is_versions (ge_db ge) t k vs → Forall (λ v, v_version v ≤ version_cap n) vs.

Lemma engine_latest_versions ge k vs :
  serves ge sid t → k ≠ [] → is_versions (ge_db ge) t k vs → engine_latest ge k = head vs.
Proof. intros Hs Hk Hv. unfold engine_latest. by rewrite (serves_get ge sid t k vs Hs Hk Hv). Qed.

Lemma engine_get_latest ge k : serves ge sid t → k ≠ [] → ge_get ge sid k = Ok (engine_latest ge k).
Proof.
  intros Hs Hk. destruct (serves_versions ge sid t k Hs Hk) as (vs & Hv).
  rewrite (engine_latest_versions ge k vs Hs Hk Hv). by apply (serves_get ge sid t).
Qed.

Lemma valid_conditions v conds :
  Forall (λ c, ∃ ty, WriteConditionType_from_i32 (wc_type c) = Some ty) conds →
  ∃ o, eval_conditions v conds = Ok o.
Proof.
  intros Hc. pose proof (eval_conditions_from_spec 0 v conds) as Hs. unfold eval_conditions.
  destruct (eval_conditions_from 0 v conds) as [o|e|]; [by eexists| |done].
  destruct Hs as (_ & c & Hin & E). rewrite Forall_forall in Hc. destruct (Hc c Hin). congruence.
Qed.

(** The loop over the puts stops at the first failure. *)
Lemma batch_puts_failure ge idx tick puts wb :
  serves ge sid t →
  Forall (λ p, put_key p ≠ [] ∧ put_put_type p = PutType_i32 PutNone ∧
    Forall (λ c, ∃ ty, WriteConditionType_from_i32 (wc_type c) = Some ty) (put_conditions p)) puts →
  match first_failure (engine_latest ge) idx puts with
  | Some f => batch_puts clock ge sid idx tick puts wb = Err (CasFailed f.1.1 f.1.2 f.2)
  | None => ∃ r, batch_puts clock ge sid idx tick puts wb = Ok r
  end.
Proof.
  intros Hs Hp. revert idx tick wb. induction Hp as [|p puts (Hk & Ht & Hc) _ IH]; intros idx tick wb;
    cbn [first_failure batch_puts]; [by eexists|].
  rewrite Ht, Z.eqb_refl. cbn [negb]. rewrite (engine_get_latest ge) by done. cbn [result_bind].
  destruct (valid_conditions (engine_latest ge (put_key p)) _ Hc) as [o Ho]. rewrite Ho. cbn [result_bind].
  destruct o as [j|]; [done|]. rewrite (ge_put_ok ge wb sid t) by done. cbn [result_bind].
  specialize (IH (idx + 1) (S tick)). specialize (IH (wb ++ [vop_batch t (VSet (put_key p)
    (write_version clock (engine_latest ge (put_key p)) tick) (Some (put_value p)))])).
  destruct (first_failure (engine_latest ge) (idx + 1) puts) as [f|]; [by rewrite IH|].
  destruct IH as [[wb' rs] ->]. by eexists.
Qed.

Lemma batch_write_puts ge puts :
  puts ≠ [] →
  batch_write clock ExecCtx_default ge (mkShardWriteRequest sid [] puts) =
    (let? '(wb, resps) := batch_puts clock ge sid 0 0 puts [] in
     Ok (Some (EvalResult_with_batch (encode_to_vec wb)), mkShardWriteResponse [] resps)).
Proof. by destruct puts. Qed.

Lemma engine_write_fails n ge puts f :
  engine_inv n ge → plain_puts puts → first_failure (engine_latest ge) 0 puts = Some f →
  engine_write ge puts = (Err (CCasFailed f.1.1 f.1.2 f.2), ge).
Proof.
  intros (_ & Hs & _) [_ Hp] Hf. unfold engine_write.
  pose proof (batch_puts_failure ge 0 0 puts [] Hs Hp) as Hb. rewrite Hf in Hb.
  rewrite (batch_write_puts ge puts) by (by destruct puts). by rewrite Hb.
Qed.

Lemma clock_u64 i : u64_ok (clock i).
Proof. pose proof (clock_ok i). unfold u64_ok, u64_MAX. lia. Qed.

Lemma engine_newest_cap n ge k v :
  engine_inv n ge → k ≠ [] → ge_get ge sid k = Ok (Some v) → 0 ≤ v_version v ≤ version_cap n.
Proof.
  intros (_ & Hs & Hcap) Hk Hg. destruct (serves_versions ge sid t k Hs Hk) as (vs & Hv).
  rewrite (serves_get ge sid t k vs Hs Hk Hv) in Hg. injection Hg as Hhd. destruct vs as [|v' vs]; [done|].
  cbn in Hhd. injection Hhd as ->. specialize (Hcap k _ Hk Hv). apply Forall_cons in Hcap as [? _].
  assert (v ∈ v :: vs) as Hin by left. apply (proj2 Hv) in Hin as [[? _] _]. done.
Qed.

Lemma write_version_cap n ge k prev i :
  engine_inv (S n) ge → k ≠ [] → ge_get ge sid k = Ok prev → write_version clock prev i ≤ version_cap n.
Proof.
  intros Hinv Hk Hg. pose proof Hinv as (Hn & _ & _). pose proof (clock_ok i). unfold write_version.
  assert (u64_add match prev with Some v => v_version v | None => 0 end 1 ≤ version_cap n) as Hadd.
  { destruct prev as [v|]; [|change (u64_add 0 1) with 1; unfold version_cap; lia].
    pose proof (engine_newest_cap (S n) ge k v Hinv Hk Hg) as Hv. unfold version_cap in *.
    unfold u64_add. rewrite u64_wrap_small; [lia|]. unfold u64_ok, u64_MAX. lia. }
  unfold version_cap in *. lia.
Qed.

Lemma fold_versions_cap key ops vs cap :
  newest_first vs → Forall (λ o, vop_ver o ≤ cap) ops → Forall (λ v, v_version v ≤ cap) vs →
  Forall (λ v, v_version v ≤ cap) (fold_left (vop_apply key) ops vs).
Proof.
  intros Hs Hops. revert vs Hs. induction Hops as [|o ops Ho _ IH]; intros vs Hs Hvs; [done|].
  cbn [fold_left]. unfold vop_apply at 2. case_bool_decide; [|by apply IH].
  rewrite Forall_forall in Hvs.
  destruct o as [k v c|k v]; cbn in Ho; apply IH; [by apply set_version_sorted| |by apply del_version_sorted|].
  - apply Forall_forall. intros x [->|[? _]]%set_version_elem; [done|by apply Hvs|done].
  - apply Forall_forall. intros x [? _]%del_version_elem. by apply Hvs.
Qed.

Lemma engine_inv_weaken n ge : engine_inv (S n) ge → engine_inv n ge.
Proof.
  intros (Hn & Hs & Hcap). split; [lia|]. split; [done|]. intros k vs Hk Hv.
  eapply Forall_impl; [exact (Hcap k vs ltac:(done) Hv)|]. cbn. unfold version_cap. lia.
Qed.

Lemma table_items puts :
  write_items (mkShardWriteRequest sid [] puts) = map (λ p, (put_key p, Some (put_value p), put_conditions p)) puts.
Proof. done. Qed.

Lemma engine_write_done n ge puts :
  engine_inv (S n) ge → plain_puts puts → first_failure (engine_latest ge) 0 puts = None →
  ∃ resp ge', engine_write ge puts = (Ok resp, ge') ∧ engine_inv n ge' ∧
    (∀ p, p ∈ puts → engine_latest ge' (put_key p) ≫= v_content = Some (put_value p)) ∧
    (∀ k, k ≠ [] → k ∉ map put_key puts → engine_latest ge' k = engine_latest ge k).
Proof.
  intros Hinv [Hnd Hp] Hf. pose proof Hinv as (Hn & Hs & Hcap).
  set (req := mkShardWriteRequest sid [] puts).
  assert (∃ er resp, batch_write clock ExecCtx_default ge req = Ok (er, resp)) as (er & resp & Hbw).
  { destruct puts as [|p puts]; [by eexists _, _|]. unfold req. rewrite batch_write_puts by done.
    pose proof (batch_puts_failure ge 0 0 (p :: puts) [] Hs Hp) as Hb. rewrite Hf in Hb.
    destruct Hb as [[wb rs] ->]. by eexists _, _. }
  assert (Forall (λ it : bytes * option bytes * list WriteCondition, it.1.1 ≠ []) (write_items req)) as Hne.
  { unfold req. rewrite table_items. apply Forall_fmap. eapply Forall_impl; [done|]. by intros p (? & _). }
  assert (map (λ it : bytes * option bytes * list WriteCondition, it.1.1) (write_items req) = map put_key puts) as Hk.
  { unfold req. rewrite table_items, map_map. done. }
  destruct (batch_write_ops clock ExecCtx_default ge req er resp t Hs I Hne Hbw) as (ops & -> & Hlen & Hops).
  pose proof (effects_keys _ _ _ _ _ Hlen Hops) as Hkeys. rewrite Hk in Hkeys.
  assert (∀ k v, k ≠ [] → ge_get ge sid k = Ok (Some v) → v_version v < u64_MAX) as Hmax.
  { intros k v Hk0 Hg. pose proof (engine_newest_cap _ ge k v Hinv Hk0 Hg). unfold version_cap, u64_MAX in *. lia. }
  pose proof (effects_ok clock ge sid t _ ops Hs clock_u64 Hne Hmax Hlen Hops) as Hok.
  unfold engine_write. fold req. rewrite Hbw, batch_result_apply. eexists _, _. split; [done|].
  pose proof (serves_after ge sid t ops Hs Hok) as Hs'. split; [|split].
  - split; [lia|]. split; [done|]. intros k vs' Hk0 Hv'.
    destruct (serves_versions ge sid t k Hs Hk0) as (vs & Hv).
    rewrite (is_versions_unique _ _ _ _ _ Hv' (vops_versions _ _ _ _ _ Hok Hk0 Hv)).
    apply fold_versions_cap; [apply Hv| |].
    + apply Forall_lookup. intros i o Ho. destruct (lookup_lt_is_Some_2 (write_items req) i) as [[[k' c] conds] Hit].
      { rewrite <- Hlen. by eapply lookup_lt_Some. }
      destruct (Hops i k' c conds Hit) as (o' & Ho' & prev & Hg & _ & ->). rewrite Ho in Ho'. injection Ho' as ->.
      rewrite Forall_lookup in Hne. cbn [vop_ver]. eapply write_version_cap; [done|by apply (Hne i _ Hit)|done].
    + eapply Forall_impl; [exact (Hcap k vs ltac:(done) Hv)|]. cbn. unfold version_cap. lia.
  - intros p Hin. apply list_elem_of_lookup in Hin as [i Hi].
    assert (write_items req !! i = Some (put_key p, Some (put_value p), put_conditions p)) as Hit.
    { unfold req. rewrite table_items. change (map ?f ?l) with (f <$> l). by rewrite list_lookup_fmap, Hi. }
    destruct (Hops i _ _ _ Hit) as (o & Ho & He). rewrite Forall_lookup in Hne. specialize (Hne i _ Hit).
    destruct (write_effect_newest clock ge sid t i (put_key p) (Some (put_value p)) (put_conditions p) o ops i Hs Hne (clock_u64 i)) as (prev & v & _ & _ & Hg & Hc & _);
      [by intros v; apply Hmax|done..|by rewrite Hkeys|done|].
    unfold engine_latest. rewrite Hg. done.
  - intros k Hk0 Hni. destruct (serves_versions ge sid t k Hs Hk0) as (vs & Hv).
    rewrite (engine_latest_versions ge k vs Hs Hk0 Hv).
    rewrite (engine_latest_versions _ k _ Hs' Hk0 (vops_versions _ _ _ _ _ Hok Hk0 Hv)).
    by rewrite fold_vop_other by (by rewrite Hkeys).
Qed.

Lemma head_wanted prefix vs v :
  Forall (λ v, v_version v ≤ TXN_MAX_VERSION) vs → 
  (wanted_values (table_scan prefix) vs = [v] ↔ head vs = Some v ∧ v_content v ≠ None) ∧
  (wanted_values (table_scan prefix) vs ≠ [] → ∃ v, wanted_values (table_scan prefix) vs = [v]).
Proof.
  intros Hall. unfold wanted_values. cbn [ss_include_raw_data table_scan ss_start_version].
  assert (seen_versions TXN_MAX_VERSION vs = vs) as ->.
  { unfold seen_versions. induction Hall as [|x vs Hx _ IH]; cbn [List.filter]; [done|].
    rewrite (proj2 (Z.leb_le _ _)) by done. by rewrite IH. }
  destruct vs as [|x vs]; [by split; [split; [|intros [? _]]|]|]. cbn [head].
  destruct (v_content x) eqn:E; (split; [split|]); try done; try naive_solver.
Qed.

Lemma engine_scan_done n ge prefix :
  engine_inv n ge → prefix ≠ [] →
  ∃ data, engine_scan ge prefix = (Ok (mkShardScanResponse data false), ge) ∧
    StronglySorted (λ a b, bytes_lt (vs_user_key a) (vs_user_key b)) data ∧
    ∀ k vs, mkValueSet k vs ∈ data ↔
      starts_with k prefix = true ∧ ∃ v, engine_latest ge k = Some v ∧ v_content v ≠ None ∧ vs = [v].
Proof.
  intros (Hn & Hs & Hcap) Hne. pose proof Hs as (Hwf & Ht & desc & Hd & Htd).
  assert (Hlow : ∀ k vs, k ≠ [] → is_versions (ge_db ge) t k vs → Forall (λ v, v_version v ≤ TXN_MAX_VERSION) vs).
  { intros k vs Hk Hv. eapply Forall_impl; [exact (Hcap k vs Hk Hv)|]. cbn.
    unfold version_cap, TXN_MAX_VERSION, u64_MAX. lia. }
  destruct (scan_exact_plain id ExecCtx_default (table_scan prefix) sid t desc ge) as (data & Hscan & Hsort & Hdata);
    try done.
  { intros k vs Hk Hv. right. eapply Forall_impl; [exact (Hlow k vs Hk Hv)|]. cbn.
    unfold TXN_MAX_VERSION, TXN_INTENT_VERSION. lia. }
  exists data. unfold engine_scan. rewrite Hscan. split; [done|]. split; [done|].
  intros k vals. rewrite Hdata. unfold asks_for, scan_request. cbn [ss_prefix table_scan valid_key is_exceeds ss_end_key
    is_exclude_boundary ss_exclude_start_key ss_exclude_end_key andb negb]. rewrite !andb_true_r. split.
  - intros (Hk & Hpre & Hvals & vs & Hv & ->). split; [done|].
    destruct (head_wanted prefix vs (default (mkValue None 0) (head vs)) (Hlow k vs Hk Hv)) as [_ Hex].
    destruct (Hex Hvals) as [v Ev]. exists v.
    destruct (head_wanted prefix vs v (Hlow k vs Hk Hv)) as [Hiff _]. apply Hiff in Ev as [Hhd Hc] .
    rewrite (engine_latest_versions ge k vs Hs Hk Hv). split; [done|]. split; [done|]. by apply Hiff.
  - intros (Hpre & v & Hl & Hc & ->).
    assert (k ≠ []) as Hk by (intros ->; by destruct prefix).
    destruct (serves_versions ge sid t k Hs Hk) as (vs & Hv).
    rewrite (engine_latest_versions ge k vs Hs Hk Hv) in Hl.
    split; [done|]. split; [done|]. split; [done|]. exists vs. split; [done|]. symmetry.
    by apply (head_wanted prefix vs v (Hlow k vs Hk Hv)).
Qed.

#[local] Instance engine_server_ok : TxnServerOk (GroupEngine DB) := {|
  srv_inv := engine_inv;
  latest := engine_latest;
  srv_inv_weaken := engine_inv_weaken;
  srv_write_fails := engine_write_fails;
  srv_write_done := engine_write_done;
  srv_scan_done := engine_scan_done;
|}.

End Impl.

(** ** Concrete runs of the table over the sample engine *)
Lemma sample_clock_ok : ∀ i, 0 ≤ sample_clock i ≤ 2 ^ 63.
Proof. intros i. unfold sample_clock. lia. Qed.

#[global] Instance sample_server : TxnServer sample_world := engine_server sample_clock 1.
#[global] Instance sample_server_ok : TxnServerOk sample_world :=
  engine_server_ok sample_clock 1 sample_table sample_clock_ok.

Definition sample_tag (_ : Z) : byte := Byte.x07.

Lemma sample_inv ops n :
  forallb vop_okb ops = true → Forall (λ o, vop_ver o ≤ 2 ^ 63) ops → Z.of_nat n ≤ 2 ^ 62 →
  srv_inv n (sample_engine ops).
Proof.
  intros Hok Hv Hn. split; [done|]. split; [by apply sample_serves|]. intros k vs Hk Hvs.
  rewrite (is_versions_unique _ _ _ _ _ Hvs (sample_versions ops k Hok Hk)).
  apply fold_versions_cap; [constructor| |constructor].
  eapply Forall_impl; [exact Hv|]. cbn. unfold version_cap. lia.
Qed.

Definition begun_ops : list vop := [VSet (state_key sample_tag 5) 3 (Some (txn_state_value Running))].

Lemma sample_content ops k :
  forallb vop_okb ops = true → k ≠ [] →
  content_at (sample_engine ops) k = head (fold_left (vop_apply k) ops []) ≫= v_content.
Proof.
  intros Hok Hk. unfold content_at.
  change (latest (sample_engine ops) k) with (engine_latest 1 (sample_engine ops) k).
  exact (f_equal (λ o, o ≫= v_content)
    (engine_latest_versions 1 sample_table _ k _ (sample_serves ops Hok) Hk (sample_versions ops k Hok Hk))).
Qed.

Lemma sample_empty_record : record_at sample_tag (sample_engine []) 5 = mkRecord None None None.
Proof.
  unfold record_at. destruct (record_key_ne sample_tag 5) as (? & ? & ?).
  by rewrite !sample_content.
Qed.

Lemma sample_empty_only : only_record_keys sample_tag (sample_engine []) 5.
Proof.
  intros k Hpre Hc. exfalso. apply Hc. apply sample_content; [done|]. intros ->. discriminate Hpre.
Qed.

Lemma begun_only : only_record_keys sample_tag (sample_engine begun_ops) 5.
Proof.
  intros k Hpre Hc. rewrite sample_content in Hc; [|done|intros ->; discriminate Hpre].
  cbn [fold_left begun_ops] in Hc. unfold vop_apply in Hc. cbn [vop_key] in Hc.
  case_bool_decide as E; [by left|done].
Qed.

Lemma txn_decision_final_witness :
  srv_inv 2 (sample_engine begun_ops) ∧
  (decided (record_at sample_tag (sample_engine begun_ops) 5) →
   rec_state (record_at sample_tag (run_ops sample_tag [OCommit 2 5 9; OAbort 3 5] (sample_engine begun_ops)).2 5)
     = rec_state (record_at sample_tag (sample_engine begun_ops) 5)).
Proof.
  assert (srv_inv 2 (sample_engine begun_ops)) as Hi by (by apply sample_inv; repeat constructor).
  split; [exact Hi|]. intros Hd.
  destruct (txn_decision_final sample_tag [OCommit 2 5 9; OAbort 3 5] (sample_engine begun_ops) 5 Hi) as [Hf _].
  - repeat constructor; by vm_compute.
  - by vm_compute.
  - exact (proj1 (Hf Hd)).
Defined.

Lemma begun_running : rec_state (record_at sample_tag (sample_engine begun_ops) 5) = Some (txn_state_value Running).
Proof.
  destruct (record_key_ne sample_tag 5) as (? & ? & ?). cbn [record_at rec_state].
  by rewrite sample_content.
Qed.

(** Committing the begun transaction succeeds. *)
Lemma begun_commit : ∃ w', commit_txn sample_tag 30 5 9 (sample_engine begun_ops) = (Ok tt, w').
Proof.
  destruct (commit_refined sample_tag 0 30 5 9 (sample_engine begun_ops)) as (w' & E & _);
    [by apply sample_inv; repeat constructor|by vm_compute|].
  exists w'. cbn [run_op op_txn] in E. rewrite E. cbn [spec_op]. by rewrite begun_running.
Qed.

Lemma txn_outcome_agreement_witness :
  ∃ w1, commit_txn sample_tag 30 5 9 (sample_engine begun_ops) = (Ok tt, w1) ∧
    (abort_txn sample_tag 31 5 w1).1 ≠ Ok tt.
Proof.
  destruct begun_commit as [w1 E]. exists w1. split; [exact E|].
  assert (srv_inv 2 (sample_engine begun_ops)) as Hi by (by apply sample_inv; repeat constructor).
  refine (txn_outcome_agreement sample_tag [] [] (OCommit 30 5 9) (OAbort 31 5) (sample_engine begun_ops) w1 5 Hi _ _ E).
  - repeat constructor; by vm_compute.
  - left. split; [by exists 30, 9|by exists 31].
Defined.

Lemma commit_then_get_record_witness :
  ∃ w1, commit_txn sample_tag 30 5 9 (sample_engine begun_ops) = (Ok tt, w1) ∧
    get_txn_record sample_tag 5 w1 = (Ok (Some (mkTxnRecord 5 Committed 30 (Some 9))), w1).
Proof.
  destruct begun_commit as [w1 E]. exists w1. split; [exact E|].
  assert (srv_inv 1 (sample_engine begun_ops)) as Hi by (by apply sample_inv; repeat constructor).
  assert (u64_ok 5 ∧ u64_ok 9 ∧ u64_ok 30) as (H5 & H9 & H30) by (unfold u64_ok, u64_MAX; lia).
  exact (commit_then_get_record sample_tag 0 (sample_engine begun_ops) w1 30 5 9 Hi H5 H9 H30
           begun_running begun_only E).
Defined.

Lemma begin_heartbeat_reversed_witness :
  ∃ w1, begin_txn sample_tag 1 5 (sample_engine []) = (Ok tt, w1) ∧
    get_txn_record sample_tag 5 w1 = (Ok (Some (mkTxnRecord 5 Running (2 ^ 56) None)), w1).
Proof.
  destruct (begin_refined sample_tag 0 1 5 (sample_engine [])) as (w1 & E & _);
    [by apply sample_inv; repeat constructor|by vm_compute|].
  cbn [run_op op_txn] in E. rewrite sample_empty_record in E. cbn [spec_op rec_state fst] in E.
  exists w1. split; [exact E|].
  change (2 ^ 56) with (from_be_bytes (u64_to_le_bytes 1)).
  assert (srv_inv 1 (sample_engine [])) as Hi by (by apply sample_inv; repeat constructor).
  assert (u64_ok 5) as H5 by (unfold u64_ok, u64_MAX; lia).
  exact (begin_heartbeat_reversed sample_tag 0 (sample_engine []) w1 1 5 Hi H5
           sample_empty_record sample_empty_only E).
Defined.
