(* ===== verification/Latch.v ===== *)
(** * Row latches ([server/src/replica/eval/latch.rs])

    The latch table of a replica: one [LatchBlock] per locked row with two
    queues of one-shot channels, one for requests that wait for the latch and
    one for requests that gave the latch up to wait for the decision of a
    transaction.  A latch is owned through a [RemoteLatchGuard]; dropping it
    hands the latch to the first waiter that still listens.  One-shot channels
    are the [futures] crate's: an interface with its documented behaviour. *)

From stdpp Require Import sorting.
From S2P Require Import Prelude Bytes Api.

(** ** One-shot channels *)
Inductive chan_state (A : Type) :=
  | Waiting              (* nothing sent, the receiver listens *)
  | Delivered (a : A)    (* sent and not yet received *)
  | Done.                (* received, or the receiver is gone *)
Arguments Waiting {A}.
Arguments Delivered {A} a.
Arguments Done {A}.

Class Oneshot (Ch A : Type) := {
  ch_new : Ch;
  (** [Sender::send] gives the value back when nobody listens. *)
  ch_send : Ch → A → option A * Ch;
  (** awaiting the [Receiver], once a value is there *)
  ch_recv : Ch → option A * Ch;
  (** dropping the [Receiver], with the undelivered value that dies with it *)
  ch_drop : Ch → option A * Ch;
}.
Class OneshotOk (Ch A : Type) `{Oneshot Ch A} := {
  ch_state : Ch → chan_state A;
  ch_state_new : ch_state ch_new = Waiting;
  ch_send_waiting c a : ch_state c = Waiting → (ch_send c a).1 = None ∧ ch_state (ch_send c a).2 = Delivered a;
  ch_send_done c a : ch_state c = Done → (ch_send c a).1 = Some a ∧ ch_state (ch_send c a).2 = Done;
  ch_recv_delivered c a : ch_state c = Delivered a → (ch_recv c).1 = Some a ∧ ch_state (ch_recv c).2 = Done;
  ch_recv_other c : (∀ a, ch_state c ≠ Delivered a) → (ch_recv c).1 = None ∧ ch_state (ch_recv c).2 = ch_state c;
  ch_drop_delivered c a : ch_state c = Delivered a → (ch_drop c).1 = Some a ∧ ch_state (ch_drop c).2 = Done;
  ch_drop_other c : (∀ a, ch_state c ≠ Delivered a) → (ch_drop c).1 = None ∧ ch_state (ch_drop c).2 = Done;
}.

(** The channel that is its own state. *)
#[global] Instance plain_oneshot A : Oneshot (chan_state A) A := {
  ch_new := Waiting;
  ch_send c a := match c with Waiting => (None, Delivered a) | Delivered b => (Some a, c) | Done => (Some a, Done) end;
  ch_recv c := match c with Delivered a => (Some a, Done) | _ => (None, c) end;
  ch_drop c := match c with Delivered a => (Some a, Done) | _ => (None, Done) end;
}.
#[global] Instance plain_oneshot_ok A : OneshotOk (chan_state A) A.
Proof.
  refine {| ch_state := λ c, c |}; [done|..].
  - by intros [|b|] a.
  - by intros [|b|] a.
  - by intros [|b|] a [= ->].
  - intros [|a|] H; [done| |done]. by destruct (H a).
  - by intros [|b|] a [= ->].
  - intros [|a|] H; [done| |done]. by destruct (H a).
Defined.

(** ** The latch table *)
Record RemoteLatchGuard := mkGuard { lg_hold : bool; lg_shard_key : ShardKey }.

(** Channels are named by their index in the list of all channels made. *)
Record LatchBlock := mkLatchBlock {
  lb_hold : bool; lb_shard_key : ShardKey; lb_latch_waiters : list nat; lb_intent_waiters : list nat }.
Definition LatchBlock_default (k : ShardKey) : LatchBlock := mkLatchBlock false k [] [].

Section Latch.
  Context {Ch Ich : Type} `{Oneshot Ch RemoteLatchGuard} `{Oneshot Ich (TxnState * Z)}.

Record LatchManagerCore := mkCore {
  lm_latches : gmap ShardKey LatchBlock; lm_chans : list Ch; lm_intent_chans : list Ich }.
Definition LatchManagerCore_new : LatchManagerCore := mkCore ∅ [] [].

Definition set_latches (m : LatchManagerCore) (l : gmap ShardKey LatchBlock) : LatchManagerCore :=
  mkCore l (lm_chans m) (lm_intent_chans m).

(** [DashMap::entry(..).or_insert_with(..)]; writes through the entry follow. *)
Definition get_latch_mut (m : LatchManagerCore) (k : ShardKey) : LatchBlock :=
  default (LatchBlock_default k) (lm_latches m !! k).

(** [sender.send(guard)] in the table of channels. *)
Definition send_guard (chans : list Ch) (c : nat) (g : RemoteLatchGuard) : option RemoteLatchGuard * list Ch :=
  match chans !! c with
  | Some ch => let '(r, ch') := ch_send ch g in (r, <[c := ch']> chans)
  | None => (Some g, chans)
  end.

(** The loop over the waiters: the rest of the queue, the channels, and
    whether somebody took the guard. *)
Fixpoint transfer_loop (guard : RemoteLatchGuard) (waiters : list nat) (chans : list Ch) :
    bool * list nat * list Ch :=
  match waiters with
  | [] => (false, [], chans)
  | sender :: waiters' =>
      match send_guard chans sender guard with
      | (None, chans') => (true, waiters', chans')
      | (Some guard', chans') => transfer_loop guard' waiters' chans'
      end
  end.

(** Returns whether the entry can be removed. *)
Definition transfer_latch_guard (chans : list Ch) (b : LatchBlock) : bool * LatchBlock * list Ch :=
  let guard := mkGuard true (lb_shard_key b) in
  match transfer_loop guard (lb_latch_waiters b) chans with
  | (true, waiters, chans') =>
      (false, mkLatchBlock true (lb_shard_key b) waiters (lb_intent_waiters b), chans')
  | (false, waiters, chans') =>
      (match lb_intent_waiters b with [] => true | _ => false end,
       mkLatchBlock false (lb_shard_key b) waiters (lb_intent_waiters b), chans')
  end.

Definition release (m : LatchManagerCore) (k : ShardKey) : LatchManagerCore :=
  match lm_latches m !! k with
  | None => m
  | Some b =>
      let '(remove, b', chans') := transfer_latch_guard (lm_chans m) b in
      mkCore (if (remove : bool) then delete k (lm_latches m) else <[k := b']> (lm_latches m))
        chans' (lm_intent_chans m)
  end.

Definition acquire_internal (m : LatchManagerCore) (k : ShardKey) :
    (RemoteLatchGuard + nat) * LatchManagerCore :=
  let latch := get_latch_mut m k in
  if negb (lb_hold latch) then
    (inl (mkGuard true k),
     set_latches m (<[k := mkLatchBlock true (lb_shard_key latch) (lb_latch_waiters latch)
       (lb_intent_waiters latch)]> (lm_latches m)))
  else
    let c := length (lm_chans m) in
    (inr c,
     mkCore (<[k := mkLatchBlock (lb_hold latch) (lb_shard_key latch) (lb_latch_waiters latch ++ [c])
       (lb_intent_waiters latch)]> (lm_latches m)) (lm_chans m ++ [ch_new]) (lm_intent_chans m)).

(** [Drop for RemoteLatchGuard]. *)
Definition guard_drop (m : LatchManagerCore) (g : RemoteLatchGuard) : LatchManagerCore :=
  if lg_hold g then release m (lg_shard_key g) else m.

(** [rx.await] of [acquire], once the guard is there. *)
Definition recv_guard (m : LatchManagerCore) (c : nat) : option RemoteLatchGuard * LatchManagerCore :=
  match lm_chans m !! c with
  | Some ch => let '(r, ch') := ch_recv ch in (r, mkCore (lm_latches m) (<[c := ch']> (lm_chans m)) (lm_intent_chans m))
  | None => (None, m)
  end.

(** Dropping a request while it waits for a latch: a guard on its way to it
    is dropped too. *)
Definition drop_receiver (m : LatchManagerCore) (c : nat) : LatchManagerCore :=
  match lm_chans m !! c with
  | Some ch =>
      let '(r, ch') := ch_drop ch in
      let m' := mkCore (lm_latches m) (<[c := ch']> (lm_chans m)) (lm_intent_chans m) in
      match r with Some g => guard_drop m' g | None => m' end
  | None => m
  end.

(** The part of [resolve_txn] that waits for a decision: queue up as an
    intent waiter, hand the latch on, and keep a guard that holds nothing. *)
Definition wait_intent (m : LatchManagerCore) (g : RemoteLatchGuard) :
    nat * RemoteLatchGuard * LatchManagerCore :=
  let k := lg_shard_key g in
  let latch := get_latch_mut m k in
  let c := length (lm_intent_chans m) in
  let '(_, latch', chans') := transfer_latch_guard (lm_chans m)
    (mkLatchBlock (lb_hold latch) (lb_shard_key latch) (lb_latch_waiters latch) (lb_intent_waiters latch ++ [c])) in
  (c, mkGuard false k, mkCore (<[k := latch']> (lm_latches m)) chans' (lm_intent_chans m ++ [ch_new])).

(** [signal_all]: a decision for everybody who waits at the row. *)
Definition signal_all (m : LatchManagerCore) (g : RemoteLatchGuard) (txn_state : TxnState)
    (commit_version : option Z) : LatchManagerCore :=
  let decision := (txn_state, default 0 commit_version) in
  match lm_latches m !! lg_shard_key g with
  | None => m
  | Some b =>
      mkCore (<[lg_shard_key g := mkLatchBlock (lb_hold b) (lb_shard_key b) (lb_latch_waiters b) []]> (lm_latches m))
        (lm_chans m)
        (fold_left (λ chans c, match chans !! c with
          | Some ch => <[c := (ch_send ch decision).2]> chans
          | None => chans
          end) (lb_intent_waiters b) (lm_intent_chans m))
  end.

End Latch.
Arguments LatchManagerCore : clear implicits.

(** ** The latches of a request *)
Definition collect_shard_write_keys (req : ShardWriteRequest) : Result (list bytes) :=
  Ok (map put_key (sw_puts req) ++ map del_key (sw_deletes req)).

(** The shard and the keys, in the order in which [acquire_row_latches]
    takes their latches one by one. *)
Definition row_latch_keys (request : Request) : Result (option (Z * list bytes)) :=
  let? target :=
    match request with
    | RWrite req => let? keys := collect_shard_write_keys req in Ok (Some (sw_shard_id req, keys))
    | RWriteIntent req =>
        match wi_write req with
        | None => Ok None
        | Some (WPut put) => Ok (Some (wi_shard_id req, [put_key put]))
        | Some (WDelete delete) => Ok (Some (wi_shard_id req, [del_key delete]))
        end
    | RCommitIntent req => Ok (Some (ci_shard_id req, [ci_user_key req]))
    | RClearIntent req => Ok (Some (cl_shard_id req, [cl_user_key req]))
    | _ => Ok None
    end in
  match target with
  | None => Ok None
  | Some (shard_id, keys) =>
      match keys with
      | [] => Ok None
      | _ => Ok (Some (shard_id, merge_sort bytes_le keys))
      end
  end.
