(* ===== verification/LatchProps.v ===== *)
(** * Properties of the row latches

    The latch table as a step relation: any number of requests acquire a
    latch, receive one they waited for, give up waiting, drop a guard, wait
    for a transaction's decision, signal decisions, in any order.  In every
    reachable state a row has at most one guard, and who waits is served in
    the order of arrival. *)

From stdpp Require Import sorting.
From S2P Require Import Prelude Bytes Api Latch.

Section LatchProps.
  Context {Ch Ich : Type} `{OneshotOk Ch RemoteLatchGuard} `{Oneshot Ich (TxnState * Z)}.
  Abbreviation core := (LatchManagerCore Ch Ich).
  Abbreviation state := (chan_state RemoteLatchGuard).
  Implicit Types (m : core) (gs : list RemoteLatchGuard) (L : gmap ShardKey LatchBlock) (sts : list state).

(** ** The step relation: the table and the guards the requests own *)
Inductive event :=
  | EAcquire (k : ShardKey) | EQueue (k : ShardKey) (c : nat) | EReceive (c : nat) | ECancel (c : nat)
  | EDrop (g : RemoteLatchGuard) | EWait (g : RemoteLatchGuard) | ESignal (g : RemoteLatchGuard).

Abbreviation world := (core * list RemoteLatchGuard)%type.
Inductive step : world → event → world → Prop :=
  | step_acquire m gs k g m' :
      acquire_internal m k = (inl g, m') → step (m, gs) (EAcquire k) (m', g :: gs)
  | step_queue m gs k c m' :
      acquire_internal m k = (inr c, m') → step (m, gs) (EQueue k c) (m', gs)
  | step_receive m gs c g m' :
      recv_guard m c = (Some g, m') → step (m, gs) (EReceive c) (m', g :: gs)
  | step_cancel m gs c : step (m, gs) (ECancel c) (drop_receiver m c, gs)
  | step_drop m gs g gs' :
      gs ≡ₚ g :: gs' → step (m, gs) (EDrop g) (guard_drop m g, gs')
  | step_wait m gs g gs' c g' m' :
      gs ≡ₚ g :: gs' → lg_hold g = true → wait_intent m g = (c, g', m') → step (m, gs) (EWait g) (m', g' :: gs')
  | step_signal m gs g st cv :
      g ∈ gs → step (m, gs) (ESignal g) (signal_all m g st cv, gs).

Inductive reachable : world → Prop :=
  | reachable_new : reachable (LatchManagerCore_new, [])
  | reachable_step w e w' : reachable w → step w e w' → reachable w'.

(** ** What a state shows *)
Definition states m : list state := ch_state <$> lm_chans m.
Definition held L (k : ShardKey) : bool :=
  match L !! k with Some b => lb_hold b | None => false end.
Definition waiters L (k : ShardKey) : list nat :=
  match L !! k with Some b => lb_latch_waiters b | None => [] end.
Definition owns (k : ShardKey) (g : RemoteLatchGuard) : nat :=
  if lg_hold g && bool_decide (lg_shard_key g = k) then 1%nat else 0%nat.
Definition carries (k : ShardKey) (s : state) : nat :=
  match s with Delivered g => owns k g | _ => 0%nat end.
(** The guards of a row, those on their way to a waiter included. *)
Definition tokens (k : ShardKey) sts gs : nat :=
  (sum_list_with (owns k) gs + sum_list_with (carries k) sts)%nat.

Definition keys_ok L : Prop := map_Forall (λ k b, lb_shard_key b = k) L.
Record latch_inv L sts gs : Prop := {
  inv_keys : keys_ok L;
  inv_tokens k : tokens k sts gs = if held L k then 1%nat else 0%nat;
  inv_idle k : held L k = false → waiters L k = [];
  inv_queue k c : c ∈ waiters L k → sts !! c = Some Waiting ∨ sts !! c = Some Done;
  inv_waiting c : sts !! c = Some Waiting → ∃ k, c ∈ waiters L k;
  inv_nodup k : NoDup (waiters L k);
  inv_disjoint k1 k2 c : c ∈ waiters L k1 → c ∈ waiters L k2 → k1 = k2;
}.

(** Waiters that still listen and are ahead of [c] in a queue. *)
Fixpoint ahead sts (c : nat) (ws : list nat) : nat :=
  match ws with
  | [] => 0%nat
  | d :: ws' =>
      if decide (d = c) then 0%nat
      else ((match sts !! d with Some Waiting => 1 | _ => 0 end) + ahead sts c ws')%nat
  end.

(** ** Counting *)
Lemma sum_list_insert {A} (f : A → nat) l i x y :
  l !! i = Some y → (sum_list_with f (<[i := x]> l) + f y = sum_list_with f l + f x)%nat.
Proof.
  revert i. induction l as [|z l IH]; intros [|i] E; try done; simpl in *; [simplify_eq; lia|].
  specialize (IH i E). lia.
Qed.
Lemma sum_list_perm {A} (f : A → nat) l1 l2 : l1 ≡ₚ l2 → sum_list_with f l1 = sum_list_with f l2.
Proof. intros Hp. induction Hp as [|x l l' _ IH|x y l|l l' l'' _ IH1 _ IH2]; cbn; lia. Qed.

Lemma tokens_perm k sts gs1 gs2 : gs1 ≡ₚ gs2 → tokens k sts gs1 = tokens k sts gs2.
Proof. intros E. unfold tokens. by rewrite (sum_list_perm _ _ _ E). Qed.
Lemma tokens_insert k sts gs c s s' :
  sts !! c = Some s → (tokens k (<[c := s']> sts) gs + carries k s = tokens k sts gs + carries k s')%nat.
Proof. intros E. unfold tokens. pose proof (sum_list_insert (carries k) _ _ s' _ E). lia. Qed.
Lemma tokens_cons k sts g gs : tokens k sts (g :: gs) = (owns k g + tokens k sts gs)%nat.
Proof. unfold tokens. cbn. lia. Qed.
Lemma tokens_snoc k sts gs s : carries k s = 0%nat → tokens k (sts ++ [s]) gs = tokens k sts gs.
Proof. unfold tokens. rewrite sum_list_with_app. cbn. lia. Qed.
Lemma owns_own k : owns k (mkGuard true k) = 1%nat.
Proof. unfold owns. cbn. by rewrite bool_decide_true. Qed.
Lemma owns_other k k' b : k ≠ k' → owns k (mkGuard b k') = 0%nat.
Proof. intros Hk. unfold owns. cbn. rewrite bool_decide_false by naive_solver. by rewrite andb_false_r. Qed.
Lemma owns_released k g : lg_hold g = false → owns k g = 0%nat.
Proof. unfold owns. by intros ->. Qed.

(** ** Updates of one row *)
Lemma held_insert L k b k' : held (<[k := b]> L) k' = if decide (k = k') then lb_hold b else held L k'.
Proof. unfold held. destruct (decide (k = k')) as [->|]; by simplify_map_eq. Qed.
Lemma waiters_insert L k b k' :
  waiters (<[k := b]> L) k' = if decide (k = k') then lb_latch_waiters b else waiters L k'.
Proof. unfold waiters. destruct (decide (k = k')) as [->|]; by simplify_map_eq. Qed.
Lemma held_delete L k k' : held (delete k L) k' = if decide (k = k') then false else held L k'.
Proof. unfold held. destruct (decide (k = k')) as [->|]; by simplify_map_eq. Qed.
Lemma waiters_delete L k k' : waiters (delete k L) k' = if decide (k = k') then [] else waiters L k'.
Proof. unfold waiters. destruct (decide (k = k')) as [->|]; by simplify_map_eq. Qed.

Lemma latch_inv_ext L L' sts gs :
  keys_ok L' → (∀ k, held L' k = held L k) → (∀ k, waiters L' k = waiters L k) →
  latch_inv L sts gs → latch_inv L' sts gs.
Proof.
  intros Hk Hh Hw [? Ht Hi Hq Hp Hn Hd]. split; [done|..].
  - intros k. rewrite Hh. apply Ht.
  - intros k. rewrite Hh, Hw. apply Hi.
  - intros k c. rewrite Hw. apply Hq.
  - intros c Hc. destruct (Hp c Hc) as [k ?]. exists k. by rewrite Hw.
  - intros k. rewrite Hw. apply Hn.
  - intros k1 k2 c. rewrite !Hw. apply Hd.
Qed.
Lemma latch_inv_perm L sts gs gs' : gs ≡ₚ gs' → latch_inv L sts gs → latch_inv L sts gs'.
Proof.
  intros E [? Ht ? ? ? ? ?]. split; auto. intros k. rewrite <- (Ht k). symmetry. by apply tokens_perm.
Qed.
Lemma latch_inv_released L sts g gs : lg_hold g = false → latch_inv L sts (g :: gs) ↔ latch_inv L sts gs.
Proof.
  intros Hg. split; intros [? Ht ? ? ? ? ?]; split; auto; intros k; specialize (Ht k);
    rewrite tokens_cons, owns_released in * by done; done.
Qed.

(** ** Moves of one guard *)

(** A delivered guard becomes somebody's. *)
Lemma latch_inv_take L sts gs c g :
  sts !! c = Some (Delivered g) → latch_inv L sts gs → latch_inv L (<[c := Done]> sts) (g :: gs).
Proof.
  intros Hc [? Ht ? Hq Hp ? ?]. split; auto.
  - intros k. rewrite <- (Ht k), tokens_cons.
    pose proof (tokens_insert k sts gs c _ Done Hc) as E. cbn in E. lia.
  - intros k d Hd. destruct (decide (c = d)) as [->|].
    + right. apply list_lookup_insert_eq. by eapply lookup_lt_Some.
    + rewrite list_lookup_insert_ne by done. by eapply Hq.
  - intros d Hd. destruct (decide (c = d)) as [->|].
    + rewrite list_lookup_insert_eq in Hd by (by eapply lookup_lt_Some). done.
    + rewrite list_lookup_insert_ne in Hd by done. by apply Hp.
Qed.

(** A waiter that hangs up. *)
Lemma latch_inv_hang_up L sts gs c s :
  sts !! c = Some s → (∀ g, s ≠ Delivered g) → latch_inv L sts gs → latch_inv L (<[c := Done]> sts) gs.
Proof.
  intros Hc Hs [? Ht ? Hq Hp ? ?]. split; auto.
  - intros k. rewrite <- (Ht k).
    pose proof (tokens_insert k sts gs c _ Done Hc) as E. destruct s; cbn in E; [lia|naive_solver|lia].
  - intros k d Hd. destruct (decide (c = d)) as [->|].
    + right. apply list_lookup_insert_eq. by eapply lookup_lt_Some.
    + rewrite list_lookup_insert_ne by done. by eapply Hq.
  - intros d Hd. destruct (decide (c = d)) as [->|].
    + rewrite list_lookup_insert_eq in Hd by (by eapply lookup_lt_Some). done.
    + rewrite list_lookup_insert_ne in Hd by done. by apply Hp.
Qed.

(** A free latch is taken. *)
Lemma latch_inv_acquire L sts gs k b :
  held L k = false → lb_hold b = true → lb_shard_key b = k → lb_latch_waiters b = waiters L k →
  latch_inv L sts gs → latch_inv (<[k := b]> L) sts (mkGuard true k :: gs).
Proof.
  intros Hh Hb Hk Hw [Hks Ht Hi Hq Hp Hn Hd].
  assert (∀ k', waiters (<[k := b]> L) k' = waiters L k') as Hw'.
  { intros k'. rewrite waiters_insert. case_decide; [by subst|done]. }
  split.
  - by apply map_Forall_insert_2.
  - intros k'. rewrite tokens_cons, (Ht k'), held_insert. case_decide as E; [subst k'|by rewrite owns_other].
    by rewrite owns_own, Hh, Hb.
  - intros k'. rewrite Hw', held_insert. case_decide; [congruence|apply Hi].
  - intros k' c. rewrite Hw'. apply Hq.
  - intros c Hc. destruct (Hp c Hc) as [k' ?]. exists k'. by rewrite Hw'.
  - intros k'. rewrite Hw'. apply Hn.
  - intros k1 k2 c. rewrite !Hw'. apply Hd.
Qed.

(** A new waiter joins the queue of a held latch. *)
Lemma latch_inv_queue L sts gs k b :
  held L k = true → lb_hold b = true → lb_shard_key b = k →
  lb_latch_waiters b = waiters L k ++ [length sts] →
  latch_inv L sts gs → latch_inv (<[k := b]> L) (sts ++ [Waiting]) gs.
Proof.
  intros Hh Hb Hk Hw [Hks Ht Hi Hq Hp Hn Hd].
  assert (Hold : ∀ k' c, c ∈ waiters L k' → (c < length sts)%nat).
  { intros k' c Hc. destruct (Hq k' c Hc) as [E|E]; by eapply lookup_lt_Some. }
  assert (Hw' : ∀ k' c, c ∈ waiters (<[k := b]> L) k' ↔ c ∈ waiters L k' ∨ (c = length sts ∧ k = k')).
  { intros k' c. rewrite waiters_insert. case_decide as E; [|naive_solver]. subst k'.
    rewrite Hw, elem_of_app, list_elem_of_singleton. naive_solver. }
  split.
  - by apply map_Forall_insert_2.
  - intros k'. rewrite tokens_snoc, (Ht k'), held_insert by done. case_decide; [|done]. subst. by rewrite Hh, Hb.
  - intros k'. rewrite held_insert, waiters_insert. case_decide; [congruence|apply Hi].
  - intros k' c [Hc|[-> _]]%Hw'.
    + rewrite lookup_app_l by eauto. by eapply Hq.
    + left. by apply list_lookup_middle.
  - intros c Hc. destruct (decide (c = length sts)) as [->|Hne]; [exists k; apply Hw'; auto|].
    assert (c < length sts)%nat as Hlt.
    { apply lookup_lt_Some in Hc. rewrite length_app in Hc. cbn in Hc. lia. }
    rewrite lookup_app_l in Hc by done. destruct (Hp c Hc) as [k' ?]. exists k'. apply Hw'. auto.
  - intros k'. rewrite waiters_insert. case_decide; [|apply Hn]. rewrite Hw. apply NoDup_app. split_and!; auto.
    + intros c Hc%Hold Hx%list_elem_of_singleton. lia.
    + apply NoDup_singleton.
  - intros k1 k2 c [Hc1|[Hc1 ?]]%Hw' [Hc2|[Hc2 ?]]%Hw'; [by eapply Hd| | |congruence].
    + apply Hold in Hc1. lia.
    + apply Hold in Hc2. lia.
Qed.

(** ** Handing the latch on *)

Lemma send_done chans c g :
  (ch_state <$> chans) !! c = Some Done →
  ∃ chans', send_guard chans c g = (Some g, chans') ∧ ch_state <$> chans' = ch_state <$> chans.
Proof.
  rewrite list_lookup_fmap. unfold send_guard. destruct (chans !! c) as [ch|] eqn:Ec; [|done]. cbn. intros [= Es].
  destruct (ch_send_done ch g Es) as [E1 E2]. destruct (ch_send ch g) as [r ch'] eqn:E. cbn in *. subst r.
  eexists. split; [done|]. rewrite list_fmap_insert, E2, list_insert_id; [done|].
  by rewrite list_lookup_fmap, Ec, <- Es.
Qed.
Lemma send_waiting chans c g :
  (ch_state <$> chans) !! c = Some Waiting →
  ∃ chans', send_guard chans c g = (None, chans') ∧ ch_state <$> chans' = <[c := Delivered g]> (ch_state <$> chans).
Proof.
  rewrite list_lookup_fmap. unfold send_guard. destruct (chans !! c) as [ch|] eqn:Ec; [|done]. cbn. intros [= Es].
  destruct (ch_send_waiting ch g Es) as [E1 E2]. destruct (ch_send ch g) as [r ch'] eqn:E. cbn in *. subst r.
  eexists. split; [done|]. by rewrite list_fmap_insert, E2.
Qed.

(** The first waiter that listens gets the guard; the others lose their
    place only if they do not listen any more. *)
Lemma transfer_loop_spec g ws chans :
  (∀ c, c ∈ ws → (ch_state <$> chans) !! c = Some Waiting ∨ (ch_state <$> chans) !! c = Some Done) →
  (∃ chans', transfer_loop g ws chans = (false, [], chans') ∧ ch_state <$> chans' = ch_state <$> chans ∧
     Forall (λ c, (ch_state <$> chans) !! c = Some Done) ws) ∨
  (∃ pre c post chans', ws = pre ++ c :: post ∧ transfer_loop g ws chans = (true, post, chans') ∧
     Forall (λ c, (ch_state <$> chans) !! c = Some Done) pre ∧ (ch_state <$> chans) !! c = Some Waiting ∧
     ch_state <$> chans' = <[c := Delivered g]> (ch_state <$> chans)).
Proof.
  revert chans. induction ws as [|c ws IH]; intros chans Hall; cbn [transfer_loop]; [left; eauto|].
  destruct (Hall c) as [Hc|Hc]; [by left| |].
  - destruct (send_waiting chans c g Hc) as (chans' & -> & E). right. exists [], c, ws, chans'. auto.
  - destruct (send_done chans c g Hc) as (chans' & -> & E).
    destruct (IH chans') as [(chans2 & E2 & Es & Hf)|(pre & d & post & chans2 & -> & E2 & Hf & Hd & Es)];
      rewrite E in *; [intros d Hd; apply Hall; by right| |].
    + left. exists chans2. auto.
    + right. exists (c :: pre), d, post, chans2. auto.
Qed.

(** The table and the channel states after a guard of [k] is given up. *)
Definition handed L sts k ws L' sts' : Prop :=
  keys_ok L' ∧ (∀ k', k' ≠ k → held L' k' = held L k' ∧ waiters L' k' = waiters L k') ∧
  ((held L' k = false ∧ waiters L' k = [] ∧ sts' = sts ∧ Forall (λ c, sts !! c = Some Done) ws) ∨
   (∃ pre c post, ws = pre ++ c :: post ∧ Forall (λ c, sts !! c = Some Done) pre ∧ sts !! c = Some Waiting ∧
      held L' k = true ∧ waiters L' k = post ∧ sts' = <[c := Delivered (mkGuard true k)]> sts)).

Lemma transfer_handed L (b : LatchBlock) k chans :
  keys_ok L → lb_shard_key b = k →
  (∀ c, c ∈ lb_latch_waiters b → (ch_state <$> chans) !! c = Some Waiting ∨ (ch_state <$> chans) !! c = Some Done) →
  ∃ r b' chans', transfer_latch_guard chans b = (r, b', chans') ∧
    handed L (ch_state <$> chans) k (lb_latch_waiters b) (if (r : bool) then delete k L else <[k := b']> L) (ch_state <$> chans') ∧
    handed L (ch_state <$> chans) k (lb_latch_waiters b) (<[k := b']> L) (ch_state <$> chans').
Proof.
  intros Hks <- Hq. unfold transfer_latch_guard.
  assert (Hout : ∀ b' k', k' ≠ lb_shard_key b → held (<[lb_shard_key b := b']> L) k' = held L k' ∧
    waiters (<[lb_shard_key b := b']> L) k' = waiters L k').
  { intros b' k' Hk. rewrite held_insert, waiters_insert. case_decide; [congruence|done]. }
  destruct (transfer_loop_spec (mkGuard true (lb_shard_key b)) _ _ Hq)
    as [(chans' & -> & Es & Hf)|(pre & c & post & chans' & Ew & -> & Hf & Hc & Es)].
  - set (b' := mkLatchBlock false _ _ _). do 3 eexists. split; [done|].
    assert (Hins : handed L (ch_state <$> chans) (lb_shard_key b) (lb_latch_waiters b) (<[lb_shard_key b := b']> L) (ch_state <$> chans')).
    { split_and!; [by apply map_Forall_insert_2|apply Hout|].
      left. rewrite held_insert, waiters_insert, !decide_True by done. by split_and!. }
    split; [|done]. destruct (lb_intent_waiters b) as [|i iw] eqn:Ei; [|done]. split_and!.
    + by apply map_Forall_delete.
    + intros k' Hk. rewrite held_delete, waiters_delete. case_decide; [congruence|done].
    + left. rewrite held_delete, waiters_delete, !decide_True by done. by split_and!.
  - do 3 eexists. split; [done|].
    cbv iota. match goal with |- ?P ∧ ?P => cut P; [done|] end.
    split_and!; [by apply map_Forall_insert_2|apply Hout|].
    right. exists pre, c, post. rewrite held_insert, waiters_insert, !decide_True by done. by split_and!.
Qed.

(** Giving up a guard keeps the invariant. *)
Lemma latch_inv_handed L sts gs k L' sts' :
  latch_inv L sts (mkGuard true k :: gs) → handed L sts k (waiters L k) L' sts' → latch_inv L' sts' gs.
Proof.
  intros [Hks Ht Hi Hq Hp Hn Hd] (Hks' & Hout & Hk).
  assert (Ht1 : tokens k sts gs = 0%nat).
  { specialize (Ht k). rewrite tokens_cons, owns_own in Ht. destruct (held L k); lia. }
  assert (Ht2 : ∀ k', k' ≠ k → tokens k' sts gs = if held L k' then 1%nat else 0%nat).
  { intros k' Hne. by rewrite <- (Ht k'), tokens_cons, owns_other. }
  destruct Hk as [(Hh & Hw & -> & Hf)|(pre & c & post & Ew & Hf & Hc & Hh & Hw & ->)];
    rewrite Forall_forall in Hf.
  - assert (Hin : ∀ k' d, d ∈ waiters L' k' → d ∈ waiters L k' ∧ k' ≠ k).
    { intros k' d. destruct (decide (k' = k)) as [->|Hne]; [by rewrite Hw; intros ?%not_elem_of_nil|].
      by rewrite (proj2 (Hout _ Hne)). }
    split; [done|..].
    + intros k'. destruct (decide (k' = k)) as [->|Hne]; [by rewrite Hh, Ht1|].
      by rewrite (proj1 (Hout _ Hne)), Ht2.
    + intros k'. destruct (decide (k' = k)) as [->|Hne]; [done|].
      rewrite (proj1 (Hout _ Hne)), (proj2 (Hout _ Hne)). apply Hi.
    + intros k' d [? _]%Hin. by eapply Hq.
    + intros d Hd'. destruct (Hp d Hd') as [k' Hk']. exists k'.
      destruct (decide (k' = k)) as [->|Hne]; [|by rewrite (proj2 (Hout _ Hne))].
      specialize (Hf d Hk'). congruence.
    + intros k'. destruct (decide (k' = k)) as [->|Hne]; [rewrite Hw; constructor|].
      rewrite (proj2 (Hout _ Hne)). apply Hn.
    + intros k1 k2 d [? _]%Hin [? _]%Hin. by eapply Hd.
  - pose proof (Hn k) as Hnk. rewrite Ew in Hnk. apply NoDup_app in Hnk as (_ & Hpre & [Hcp Hnp]%NoDup_cons).
    assert (Hin : ∀ k' d, d ∈ waiters L' k' → d ∈ waiters L k' ∧ d ≠ c).
    { intros k' d. destruct (decide (k' = k)) as [->|Hne].
      - rewrite Hw, Ew. intros Hdp. split; [apply elem_of_app; right; by right|congruence].
      - rewrite (proj2 (Hout _ Hne)). intros Hdk. split; [done|]. intros ->. destruct Hne.
        eapply Hd; [done|]. rewrite Ew. apply elem_of_app. right. by left. }
    split; [done|..].
    + intros k'. pose proof (tokens_insert k' sts gs c _ (Delivered (mkGuard true k)) Hc) as E. cbn [carries] in E.
      destruct (decide (k' = k)) as [->|Hne]; [rewrite Hh; rewrite owns_own in E; lia|].
      rewrite owns_other in E by done. rewrite (proj1 (Hout _ Hne)), <- Ht2 by done. lia.
    + intros k'. destruct (decide (k' = k)) as [->|Hne]; [congruence|].
      rewrite (proj1 (Hout _ Hne)), (proj2 (Hout _ Hne)). apply Hi.
    + intros k' d [Hdk Hdc]%Hin. rewrite list_lookup_insert_ne by done. by eapply Hq.
    + intros d Hd'. destruct (decide (c = d)) as [<-|Hdc].
      { rewrite list_lookup_insert_eq in Hd' by (by eapply lookup_lt_Some). done. }
      rewrite list_lookup_insert_ne in Hd' by done. destruct (Hp d Hd') as [k' Hk']. exists k'.
      destruct (decide (k' = k)) as [->|Hne]; [|by rewrite (proj2 (Hout _ Hne))].
      rewrite Hw. rewrite Ew in Hk'. apply elem_of_app in Hk' as [Hk'|[->|?]%elem_of_cons]; [|done..].
      specialize (Hf d Hk'). congruence.
    + intros k'. destruct (decide (k' = k)) as [->|Hne]; [by rewrite Hw|].
      rewrite (proj2 (Hout _ Hne)). apply Hn.
    + intros k1 k2 d [? _]%Hin [? _]%Hin. by eapply Hd.
Qed.

(** ** Every step keeps the invariant *)
Abbreviation inv_of m gs := (latch_inv (lm_latches m) (states m) gs).

Lemma latch_inv_held L sts gs g :
  latch_inv L sts (g :: gs) → lg_hold g = true →
  ∃ b, L !! lg_shard_key g = Some b ∧ lb_hold b = true ∧ lb_shard_key b = lg_shard_key g.
Proof.
  intros [Hk Ht _ _ _ _ _] Hg. destruct g as [h k]. cbn in Hg |- *. subst h. specialize (Ht k).
  rewrite tokens_cons, owns_own in Ht. unfold held in Ht. destruct (L !! k) as [b|] eqn:E; [|lia].
  exists b. split_and!; [done|by destruct (lb_hold b)|by apply (Hk k)].
Qed.

Lemma wait_intent_handed m g gs c g' m' :
  inv_of m (g :: gs) → lg_hold g = true → wait_intent m g = (c, g', m') →
  handed (lm_latches m) (states m) (lg_shard_key g) (waiters (lm_latches m) (lg_shard_key g))
    (lm_latches m') (states m') ∧ g' = mkGuard false (lg_shard_key g).
Proof.
  intros Hinv Hg. destruct (latch_inv_held _ _ _ _ Hinv Hg) as (b & Eb & Hb & Hk).
  unfold wait_intent, get_latch_mut. rewrite Eb. cbn [default].
  set (b1 := mkLatchBlock _ _ _ _).
  destruct (transfer_handed (lm_latches m) b1 (lg_shard_key g) (lm_chans m)) as (r & b' & chans' & E & _ & Hh);
    [apply Hinv|done| |].
  { intros d Hd. apply (inv_queue _ _ _ Hinv (lg_shard_key g)). unfold waiters. by rewrite Eb. }
  rewrite E. intros [= _ <- <-]. split; [|done]. unfold waiters at 1. by rewrite Eb.
Qed.

Lemma release_handed m g gs :
  inv_of m (g :: gs) → lg_hold g = true →
  handed (lm_latches m) (states m) (lg_shard_key g) (waiters (lm_latches m) (lg_shard_key g))
    (lm_latches (guard_drop m g)) (states (guard_drop m g)).
Proof.
  intros Hinv Hg. destruct (latch_inv_held _ _ _ _ Hinv Hg) as (b & Eb & Hb & Hk).
  unfold guard_drop, release. rewrite Hg, Eb.
  destruct (transfer_handed (lm_latches m) b (lg_shard_key g) (lm_chans m)) as (r & b' & chans' & E & Hh & _);
    [apply Hinv|done| |].
  { intros d Hd. apply (inv_queue _ _ _ Hinv (lg_shard_key g)). unfold waiters. by rewrite Eb. }
  rewrite E. unfold waiters at 1. rewrite Eb. by destruct r.
Qed.

Lemma guard_drop_inv m g gs : inv_of m (g :: gs) → inv_of (guard_drop m g) gs.
Proof.
  intros Hinv. destruct (lg_hold g) eqn:Hg.
  - pose proof (release_handed m g gs Hinv Hg) as Hh. destruct g as [h k]. cbn in Hg. subst h.
    by eapply latch_inv_handed.
  - unfold guard_drop. rewrite Hg. by apply (latch_inv_released _ _ g).
Qed.

Lemma states_insert m c ch L i :
  states (mkCore L (<[c := ch]> (lm_chans m)) i : core) = <[c := ch_state ch]> (states m).
Proof. unfold states. cbn. by rewrite list_fmap_insert. Qed.
Lemma states_lookup m c ch : lm_chans m !! c = Some ch → states m !! c = Some (ch_state ch).
Proof. unfold states. rewrite list_lookup_fmap. by intros ->. Qed.

(** What a step does to the queues and channels. *)
Definition hung_up sts sts' : Prop := sts' = sts ∨ ∃ c, sts' = <[c := Done]> sts.
Inductive effect L sts : gmap ShardKey LatchBlock → list state → Prop :=
  | effect_keep L' sts' : (∀ k, waiters L' k = waiters L k) → hung_up sts sts' → effect L sts L' sts'
  | effect_queue k L' :
      (∀ k', waiters L' k' = if decide (k = k') then waiters L k ++ [length sts] else waiters L k') →
      effect L sts L' (sts ++ [Waiting])
  | effect_hand k L' sts1 sts' :
      hung_up sts sts1 → handed L sts1 k (waiters L k) L' sts' → effect L sts L' sts'.

Lemma drop_receiver_step m gs c :
  inv_of m gs →
  inv_of (drop_receiver m c) gs ∧
  effect (lm_latches m) (states m) (lm_latches (drop_receiver m c)) (states (drop_receiver m c)).
Proof.
  intros Hinv. unfold drop_receiver. destruct (lm_chans m !! c) as [ch|] eqn:Ec.
  2: { split; [done|]. apply effect_keep; [done|by left]. }
  pose proof (states_lookup m c ch Ec) as Es.
  assert (Hhang : (∀ g, ch_state ch ≠ Delivered g) →
    inv_of (mkCore (lm_latches m) (<[c := (ch_drop ch).2]> (lm_chans m)) (lm_intent_chans m)) gs ∧
    (ch_drop ch).1 = None ∧ ch_state (ch_drop ch).2 = Done).
  { intros Hn. destruct (ch_drop_other ch Hn) as [E1 E2]. split; [|done].
    rewrite states_insert, E2. by eapply latch_inv_hang_up. }
  destruct (ch_state ch) as [|g|] eqn:Est.
  2: { destruct (ch_drop_delivered ch g Est) as [E1 E2]. destruct (ch_drop ch) as [r ch'] eqn:Ed. cbn in E1, E2. subst r.
    set (m1 := mkCore _ _ _).
    assert (Hinv1 : inv_of m1 (g :: gs)).
    { unfold m1. rewrite states_insert, E2. by apply latch_inv_take. }
    split; [by apply guard_drop_inv|].
    assert (Hu : hung_up (states m) (states m1)).
    { right. exists c. unfold m1. by rewrite states_insert, E2. }
    destruct (lg_hold g) eqn:Hg.
    - eapply effect_hand; [done|]. change (lm_latches m) with (lm_latches m1). by eapply release_handed.
    - unfold guard_drop. rewrite Hg. by apply effect_keep. }
  all: destruct Hhang as (Hi & E1 & E2); [done|]; destruct (ch_drop ch) as [r ch'] eqn:Ed; cbn in E1, E2, Hi; subst r;
    split; [done|]; apply effect_keep; [done|]; right; exists c; by rewrite states_insert, E2.
Qed.

Lemma get_latch_view m gs k (latch := get_latch_mut m k) :
  inv_of m gs →
  held (lm_latches m) k = lb_hold latch ∧ waiters (lm_latches m) k = lb_latch_waiters latch ∧ lb_shard_key latch = k.
Proof.
  intros Hinv. unfold latch, get_latch_mut, held, waiters. destruct (lm_latches m !! k) eqn:El; [|done].
  split_and!; [done..|]. by apply (inv_keys _ _ _ Hinv k).
Qed.

Lemma acquire_step m gs k r m' :
  inv_of m gs → acquire_internal m k = (r, m') →
  inv_of m' (match r with inl g => g :: gs | inr _ => gs end) ∧
  effect (lm_latches m) (states m) (lm_latches m') (states m').
Proof.
  intros Hinv. destruct (get_latch_view m gs k Hinv) as (Eh & Ew & Ek). unfold acquire_internal.
  destruct (lb_hold (get_latch_mut m k)) eqn:Ehold; cbn [negb]; intros [= <- <-].
  - assert (length (lm_chans m) = length (states m)) as Hlen by (unfold states; by rewrite length_fmap).
    match goal with |- context [states ?x] => assert (states x = states m ++ [Waiting]) as -> end.
    { unfold states. cbn. rewrite fmap_app. cbn. by rewrite ch_state_new. }
    split.
    + apply latch_inv_queue; [done..| |done]. cbn. by rewrite Ew, Hlen.
    + apply (effect_queue _ _ k). intros k'. cbn. rewrite waiters_insert. case_decide; [|done]. cbn.
      by rewrite Ew, Hlen.
  - split; [by apply latch_inv_acquire|]. apply effect_keep; [|by left].
    intros k'. cbn. rewrite waiters_insert. case_decide; [by subst|done].
Qed.

Lemma receive_step m gs c g m' :
  inv_of m gs → recv_guard m c = (Some g, m') →
  inv_of m' (g :: gs) ∧ effect (lm_latches m) (states m) (lm_latches m') (states m').
Proof.
  intros Hinv E. unfold recv_guard in E. destruct (lm_chans m !! c) as [ch|] eqn:Ec; [|done].
  pose proof (states_lookup m c ch Ec) as Es. destruct (ch_state ch) as [|g1|] eqn:Est.
  1,3: destruct (ch_recv_other ch) as [E1 _]; [by rewrite Est|]; destruct (ch_recv ch); cbn in E1; congruence.
  destruct (ch_recv_delivered ch g1 Est) as [E1 E2]. destruct (ch_recv ch) as [r ch']. cbn in E1, E2.
  rewrite E1 in E. injection E as <- <-. rewrite states_insert, E2. split; [by apply latch_inv_take|].
  apply effect_keep; [done|]. right. by exists c.
Qed.

Lemma signal_step m gs g st cv (m' := signal_all m g st cv) :
  inv_of m gs → inv_of m' gs ∧ effect (lm_latches m) (states m) (lm_latches m') (states m').
Proof.
  intros Hinv.
  assert (Hv : keys_ok (lm_latches m') ∧ ∀ k, held (lm_latches m') k = held (lm_latches m) k ∧
    waiters (lm_latches m') k = waiters (lm_latches m) k).
  { unfold m', signal_all. destruct (lm_latches m !! lg_shard_key g) as [b|] eqn:Eb; [|split; [apply Hinv|done]].
    cbn. split.
    - apply map_Forall_insert_2; [|apply Hinv]. by apply (inv_keys _ _ _ Hinv _ _ Eb).
    - intros k. rewrite held_insert, waiters_insert. destruct (decide _) as [<-|]; [|done].
      unfold held, waiters. by rewrite Eb. }
  assert (states m' = states m) as ->.
  { unfold m', signal_all. by destruct (lm_latches m !! lg_shard_key g). }
  split; [|apply effect_keep; [intros k; apply Hv|by left]].
  eapply latch_inv_ext; [apply Hv|intros k; apply Hv..|done].
Qed.

Lemma step_inv w e w' :
  step w e w' → inv_of w.1 w.2 →
  inv_of w'.1 w'.2 ∧ effect (lm_latches w.1) (states w.1) (lm_latches w'.1) (states w'.1).
Proof.
  intros Hs Hinv. destruct Hs as [m gs k g m' E|m gs k c m' E|m gs c g m' E|m gs c|m gs g gs' Hp|
    m gs g gs' c g' m' Hp Hg E|m gs g st cv Hin]; cbn [fst snd] in *.
  - by apply (acquire_step m gs k (inl g)).
  - by apply (acquire_step m gs k (inr c)).
  - by apply (receive_step m gs c).
  - by apply drop_receiver_step.
  - assert (Hinv' : inv_of m (g :: gs')) by (by eapply latch_inv_perm). split; [by apply guard_drop_inv|].
    destruct (lg_hold g) eqn:Hg.
    + eapply effect_hand; [by left|]. by eapply release_handed.
    + unfold guard_drop. rewrite Hg. apply effect_keep; [done|by left].
  - assert (Hinv' : inv_of m (g :: gs')) by (by eapply latch_inv_perm).
    destruct (wait_intent_handed m g gs' c g' m' Hinv' Hg E) as [Hh ->]. split.
    + apply latch_inv_released; [done|]. destruct g as [h k]. cbn in Hg. subst h. by eapply latch_inv_handed.
    + eapply effect_hand; [by left|done].
  - by apply signal_step.
Qed.

Lemma reachable_inv w : reachable w → inv_of w.1 w.2.
Proof.
  induction 1 as [|w e w' _ IH Hs]; [|by apply (step_inv w e w')].
  unfold states, LatchManagerCore_new. cbn [lm_latches lm_chans fst snd].
  assert (Hw : ∀ k, waiters ∅ k = []) by (intros k; unfold waiters; by rewrite lookup_empty).
  split; try setoid_rewrite Hw; try done.
  - intros k c ?%not_elem_of_nil. done.
  - intros k. constructor.
  - intros k1 k2 c ?%not_elem_of_nil. done.
Qed.

(** ** First come, first served *)
Lemma ahead_mono sts sts' c ws :
  (∀ d, d ∈ ws → sts' !! d = Some Waiting → sts !! d = Some Waiting) → (ahead sts' c ws ≤ ahead sts c ws)%nat.
Proof.
  induction ws as [|d ws IH]; intros Hall; cbn; [done|]. case_decide; [done|].
  assert (ahead sts' c ws ≤ ahead sts c ws)%nat as Hle.
  { apply IH. intros x Hx. apply Hall. by right. }
  destruct (sts' !! d) as [[]|] eqn:E'; try lia. rewrite (Hall d); [lia|by left|done].
Qed.
Lemma ahead_app sts c ws x : c ∈ ws → ahead sts c (ws ++ [x]) = ahead sts c ws.
Proof.
  induction ws as [|d ws IH]; [by intros ?%not_elem_of_nil|]. cbn. case_decide; [done|].
  intros [?|Hc]%elem_of_cons; [congruence|]. by rewrite IH.
Qed.
Lemma ahead_served sts c pre d post :
  Forall (λ x, sts !! x = Some Done) pre → sts !! d = Some Waiting → sts !! c = Some Waiting →
  ahead sts c (pre ++ d :: post) = if decide (d = c) then 0%nat else S (ahead sts c post).
Proof.
  induction 1 as [|x pre Hx _ IH]; intros Hd Hc; cbn.
  - case_decide; [done|]. by rewrite Hd.
  - rewrite decide_False by congruence. rewrite Hx. by apply IH.
Qed.

Lemma hung_up_waiting sts sts' c : hung_up sts sts' → sts' !! c = Some Waiting → sts !! c = Some Waiting.
Proof.
  intros [->|[d ->]] Hc; [done|]. destruct (decide (d = c)) as [->|]; [|by rewrite list_lookup_insert_ne in Hc].
  apply list_lookup_insert_Some in Hc as [(_ & ? & _)|[? _]]; done.
Qed.

(** The queue of [k] seen by one of its waiters, when the latch is handed on. *)
Lemma handed_ahead L sts gs k L' sts' c :
  latch_inv L sts gs → handed L sts k (waiters L k) L' sts' → sts !! c = Some Waiting → c ∈ waiters L k →
  (ahead sts c (waiters L k) = 0%nat ∧ sts' !! c = Some (Delivered (mkGuard true k))) ∨
  (sts' !! c = Some Waiting ∧ c ∈ waiters L' k ∧
   ahead sts c (waiters L k) = S (ahead sts' c (waiters L' k))).
Proof.
  intros Hinv (_ & _ & [(_ & _ & _ & Hf)|(pre & d & post & Ew & Hf & Hd & _ & Ew' & ->)]) Hc Hin.
  { rewrite Forall_forall in Hf. specialize (Hf c Hin). congruence. }
  rewrite Ew, Ew', (ahead_served sts c pre d post Hf Hd Hc). case_decide as Edc.
  - subst d. left. split; [done|]. apply list_lookup_insert_eq. by eapply lookup_lt_Some.
  - right. rewrite list_lookup_insert_ne by done. split; [done|]. split.
    + rewrite Ew in Hin. apply elem_of_app in Hin as [Hp|[?|?]%elem_of_cons]; [|congruence|done].
      rewrite Forall_forall in Hf. specialize (Hf c Hp). congruence.
    + f_equal. pose proof (inv_nodup _ _ _ Hinv k) as Hn. rewrite Ew in Hn.
      apply NoDup_app in Hn as (_ & _ & [Hdp _]%NoDup_cons).
      apply Nat.le_antisymm; apply ahead_mono; intros x Hx; rewrite list_lookup_insert_ne by congruence; done.
Qed.

Lemma effect_ahead L sts gs k L' sts' c :
  latch_inv L sts gs → effect L sts L' sts' → c ∈ waiters L k → sts' !! c = Some Waiting →
  c ∈ waiters L' k ∧ (ahead sts' c (waiters L' k) ≤ ahead sts c (waiters L k))%nat.
Proof.
  intros Hinv Heff Hin Hc. destruct Heff as [L' sts' Hw Hu|k0 L' Hw|k0 L' sts1 sts' Hu Hh].
  - rewrite Hw. split; [done|]. apply ahead_mono. intros d _. by apply hung_up_waiting.
  - assert (Hold : ∀ d, d ∈ waiters L k → (sts ++ [Waiting]) !! d = Some Waiting → sts !! d = Some Waiting).
    { intros d Hd. destruct (inv_queue _ _ _ Hinv k d Hd) as [E|E]; [done|].
      rewrite lookup_app_l by (by eapply lookup_lt_Some). congruence. }
    rewrite Hw. case_decide; [subst k0|split; [done|by apply ahead_mono]].
    rewrite ahead_app by done. split; [apply elem_of_app; by left|by apply ahead_mono].
  - destruct (decide (k = k0)) as [<-|Hne].
    + assert (Hw1 : sts1 !! c = Some Waiting).
      { destruct Hh as (_ & _ & [(_ & _ & -> & _)|(pre & d & post & _ & _ & Hd & _ & _ & ->)]); [done|].
        destruct (decide (d = c)) as [->|]; [done|by rewrite list_lookup_insert_ne in Hc]. }
      assert (Hi1 : (ahead sts1 c (waiters L k) ≤ ahead sts c (waiters L k))%nat).
      { apply ahead_mono. intros d _. by apply hung_up_waiting. }
      destruct Hh as (_ & _ & [(_ & _ & _ & Hf)|(pre & d & post & Ew & Hf & Hd & _ & Ew' & ->)]).
      { rewrite Forall_forall in Hf. specialize (Hf c Hin). congruence. }
      destruct (decide (d = c)) as [->|Hdc].
      { rewrite list_lookup_insert_eq in Hc by (by eapply lookup_lt_Some). done. }
      rewrite Ew, (ahead_served sts1 c pre d post Hf Hd Hw1), decide_False in Hi1 by done.
      rewrite Ew' in *. split.
      * rewrite Ew in Hin. apply elem_of_app in Hin as [Hp|[?|?]%elem_of_cons]; [|congruence|done].
        rewrite Forall_forall in Hf. specialize (Hf c Hp). congruence.
      * rewrite Ew. etransitivity; [|exact Hi1]. apply le_S, ahead_mono. intros x Hx.
        destruct (decide (d = x)) as [->|]; [|by rewrite list_lookup_insert_ne].
        rewrite list_lookup_insert_eq by (by eapply lookup_lt_Some). done.
    + destruct Hh as (_ & Hout & Hk). destruct (Hout k Hne) as [_ ->]. split; [done|].
      apply ahead_mono. intros d _ Hd. apply (hung_up_waiting sts sts1); [done|].
      destruct Hk as [(_ & _ & -> & _)|(pre & x & post & _ & _ & Hx & _ & _ & ->)]; [done|].
      destruct (decide (x = d)) as [->|]; [done|by rewrite list_lookup_insert_ne in Hd].
Qed.

(** ** The claims *)

(** C5: mutual exclusion: in every state reachable by any interleaving of
    acquiring, receiving, cancelling, dropping, waiting for an intent and
    signalling, a row has exactly one guard when its latch is held and none
    otherwise, counting the guards on their way to a waiter. *)
Theorem latch_mutual_exclusion m gs k :
  reachable (m, gs) →
  tokens k (states m) gs = (if held (lm_latches m) k then 1 else 0)%nat ∧
  (∀ g gs', gs ≡ₚ g :: gs' → lg_hold g = true → lg_shard_key g = k → held (lm_latches m) k = true ∧
     ∀ g', g' ∈ gs' → lg_hold g' = true → lg_shard_key g' ≠ k).
Proof.
  intros Hinv%reachable_inv. cbn in Hinv. pose proof (inv_tokens _ _ _ Hinv k) as Ht. split; [done|].
  intros g gs' Hp Hg Hk. apply (latch_inv_perm _ _ _ _ Hp) in Hinv. pose proof (inv_tokens _ _ _ Hinv k) as Ht'.
  destruct g as [h k1]. cbn in Hg, Hk. subst. rewrite tokens_cons, owns_own in Ht'.
  destruct (held (lm_latches m) k); [|lia]. split; [done|].
  intros [h k1] [i Hi]%list_elem_of_lookup Hg Hk. cbn in Hg, Hk. subst.
  apply list_elem_of_split_length in Hi as (l1 & l2 & -> & _).
  unfold tokens in Ht'. rewrite sum_list_with_app in Ht'. cbn in Ht'. rewrite owns_own in Ht'. lia.
Qed.

(** C6: nobody waits in vain: who waits for a latch is in the queue of a row
    that has a guard; no step lets anybody overtake it; and each time a guard
    of the row is dropped, it either moves up by one or, being first, gets the
    latch, so that it waits for as many hand-overs as live requests are ahead
    of it. *)
Theorem latch_fifo m gs c :
  reachable (m, gs) → states m !! c = Some Waiting →
  ∃ k, c ∈ waiters (lm_latches m) k ∧ tokens k (states m) gs = 1%nat ∧
    (∀ e m' gs', step (m, gs) e (m', gs') → states m' !! c = Some Waiting →
       c ∈ waiters (lm_latches m') k ∧
       (ahead (states m') c (waiters (lm_latches m') k) ≤ ahead (states m) c (waiters (lm_latches m) k))%nat) ∧
    (∀ g m' gs', step (m, gs) (EDrop g) (m', gs') → lg_hold g = true → lg_shard_key g = k →
       match ahead (states m) c (waiters (lm_latches m) k) with
       | O => states m' !! c = Some (Delivered (mkGuard true k))
       | S n => states m' !! c = Some Waiting ∧ c ∈ waiters (lm_latches m') k ∧
                ahead (states m') c (waiters (lm_latches m') k) = n
       end).
Proof.
  intros Hinv%reachable_inv Hc. cbn in Hinv. destruct (inv_waiting _ _ _ Hinv c Hc) as [k Hk].
  exists k. split_and!; [done|..].
  - rewrite (inv_tokens _ _ _ Hinv k). destruct (held (lm_latches m) k) eqn:Eh; [done|].
    rewrite (inv_idle _ _ _ Hinv k Eh) in Hk. by apply not_elem_of_nil in Hk.
  - intros e m' gs' Hs Hc'. eapply effect_ahead; [done| |done..].
    by apply (step_inv _ _ _ Hs).
  - intros g m' gs' Hs Hg <-. inversion Hs as [| | | |? ? ? ? Hp| |]; subst.
    assert (Hinv' : inv_of m (g :: gs')) by (by eapply latch_inv_perm).
    pose proof (release_handed m g gs' Hinv' Hg) as Hh.
    destruct (handed_ahead _ _ _ _ _ _ c Hinv' Hh Hc Hk) as [[-> ?]|(? & ? & ->)]; done.
Qed.

End LatchProps.
