(* ===== verification/LatchOrder.v ===== *)
(** * Taking several latches does not deadlock

    [acquire_row_latches] sorts the keys of a request "to avoid deadlock".
    Any number of requests run here side by side: each takes the latches of
    its keys one by one, waits when one is held, and drops its guards when it
    is done.  As long as the keys of every single request are distinct, some
    request can always go on. *)

From stdpp Require Import sorting.
From S2P Require Import Prelude Bytes Api Latch LatchProps.

(** A request inside [acquire_row_latches]: the keys still to take, the
    channel it waits on, the guards it has. *)
Record Task := mkTask {
  tk_shard : Z; tk_todo : list bytes; tk_wait : option nat; tk_guards : list RemoteLatchGuard }.

Definition distinct_keys (request : Request) : bool :=
  match row_latch_keys request with
  | Ok (Some (_, keys)) => bool_decide (NoDup keys)
  | _ => true
  end.
Definition task_of (request : Request) : option Task :=
  match row_latch_keys request with
  | Ok (Some (shard_id, keys)) => Some (mkTask shard_id keys None [])
  | _ => None
  end.

Section Order.
  Context {Ch Ich : Type} `{OneshotOk Ch RemoteLatchGuard} `{Oneshot Ich (TxnState * Z)}.
  Abbreviation core := (LatchManagerCore Ch Ich).
  Implicit Types (m : core) (t : Task) (ts : list Task).

(** One step of a request. *)
Inductive runs : core → Task → core → Task → Prop :=
  | runs_acquire m s key todo gs g m' :
      acquire_internal m (mkShardKey s key) = (inl g, m') →
      runs m (mkTask s (key :: todo) None gs) m' (mkTask s todo None (g :: gs))
  | runs_queue m s key todo gs c m' :
      acquire_internal m (mkShardKey s key) = (inr c, m') →
      runs m (mkTask s (key :: todo) None gs) m' (mkTask s (key :: todo) (Some c) gs)
  | runs_receive m s key todo c gs g m' :
      recv_guard m c = (Some g, m') →
      runs m (mkTask s (key :: todo) (Some c) gs) m' (mkTask s todo None (g :: gs))
  | runs_drop m s gs g gs' :
      gs ≡ₚ g :: gs' → runs m (mkTask s [] None gs) (guard_drop m g) (mkTask s [] None gs').

(** The system: requests arrive, and run in any interleaving. *)
Inductive sys_step : core * list Task → core * list Task → Prop :=
  | sys_new m ts request t :
      task_of request = Some t → distinct_keys request = true → sys_step (m, ts) (m, t :: ts)
  | sys_run m m' ts1 t t' ts2 :
      runs m t m' t' → sys_step (m, ts1 ++ t :: ts2) (m', ts1 ++ t' :: ts2).
Definition sys_reachable : core * list Task → Prop := rtc sys_step (LatchManagerCore_new, []).

Definition finished t : Prop := tk_todo t = [] ∧ tk_guards t = [].

(** ** Invariant *)
Definition waits_ok m (c : nat) (k : ShardKey) : Prop :=
  (states m !! c = Some Waiting ∧ c ∈ waiters (lm_latches m) k) ∨
  states m !! c = Some (Delivered (mkGuard true k)).
Record task_ok m t : Prop := {
  to_sorted : StronglySorted bytes_lt (tk_todo t);
  to_guards g : g ∈ tk_guards t → lg_hold g = true ∧ sk_shard_id (lg_shard_key g) = tk_shard t ∧
    Forall (bytes_lt (sk_user_key (lg_shard_key g))) (tk_todo t);
  to_wait c : tk_wait t = Some c → ∃ key todo, tk_todo t = key :: todo ∧ waits_ok m c (mkShardKey (tk_shard t) key);
}.
Definition all_guards ts : list RemoteLatchGuard := concat (map tk_guards ts).
Record sys_inv m ts : Prop := {
  si_latch : latch_inv (lm_latches m) (states m) (all_guards ts);
  si_tasks : Forall (task_ok m) ts;
  si_chans : NoDup (omap tk_wait ts);
  si_owned c s : states m !! c = Some s → s ≠ Done → c ∈ omap tk_wait ts;
}.

Lemma all_guards_middle ts1 t ts2 : all_guards (ts1 ++ t :: ts2) ≡ₚ tk_guards t ++ all_guards (ts1 ++ ts2).
Proof.
  unfold all_guards. rewrite !map_app, !concat_app. cbn.
  apply Permutation_app_swap_app.
Qed.

Lemma task_of_ok m request t : task_of request = Some t → distinct_keys request = true → task_ok m t.
Proof.
  unfold task_of, distinct_keys. destruct (row_latch_keys request) as [[[s keys]|]| |] eqn:E; try done.
  intros [= <-] Hn%bool_decide_eq_true. split; cbn; [|by intros g ?%not_elem_of_nil|done].
  assert (∃ l, keys = merge_sort bytes_le l) as [l ->].
  { unfold row_latch_keys in E. apply result_bind_ok in E as (o & _ & E).
    destruct o as [[s' [|k l]]|]; [done| |done]. injection E as _ <-. by eexists. }
  assert (Transitive bytes_le) as Htr by (intros x y z; apply bytes_le_trans).
  assert (Total bytes_le) as Htot by (intros x y; destruct (decide (bytes_le x y)) as [|Hle%bytes_not_le];
    [by left|right; apply bytes_le_lteq; by left]).
  pose proof (StronglySorted_merge_sort bytes_le l) as Hs. revert Hn Hs. generalize (merge_sort bytes_le l).
  intros ks Hn. induction Hn as [|k ks Hk _ IH]; intros Hs; [constructor|].
  apply StronglySorted_inv in Hs as [Hs Hf]. constructor; [by apply IH|].
  rewrite Forall_forall in Hf. apply Forall_forall. intros x Hx. specialize (Hf x Hx).
  apply bytes_le_lteq in Hf as [?| ->]; done.
Qed.

(** ** One step of one request *)
Lemma waits_ok_lt m c k : waits_ok m c k → (c < length (states m))%nat.
Proof. intros [[E _]|E]; by eapply lookup_lt_Some. Qed.

Record runs_post m (t : Task) m' (t' : Task) (rest : list RemoteLatchGuard) : Prop := {
  rp_latch : latch_inv (lm_latches m') (states m') (tk_guards t' ++ rest);
  rp_task : task_ok m' t';
  rp_others c k : tk_wait t ≠ Some c → waits_ok m c k → waits_ok m' c k;
  rp_wait c : tk_wait t' = Some c → c = length (states m);
  rp_owned c s : states m' !! c = Some s → s ≠ Done →
    tk_wait t' = Some c ∨ (tk_wait t ≠ Some c ∧ ∃ s0, states m !! c = Some s0 ∧ s0 ≠ Done);
}.

Lemma acquire_free_shape m gs k g m' :
  latch_inv (lm_latches m) (states m) gs → acquire_internal m k = (inl g, m') →
  g = mkGuard true k ∧ states m' = states m ∧ ∀ k', waiters (lm_latches m') k' = waiters (lm_latches m) k'.
Proof.
  intros Hinv. destruct (get_latch_view m gs k Hinv) as (Eh & Ew & Ek). unfold acquire_internal.
  destruct (lb_hold _); [done|]. intros [= <- <-]. split_and!; [done..|].
  intros k'. cbn. rewrite waiters_insert. case_decide; [by subst|done].
Qed.
Lemma acquire_queue_shape m gs k c m' :
  latch_inv (lm_latches m) (states m) gs → acquire_internal m k = (inr c, m') →
  c = length (states m) ∧ states m' = states m ++ [Waiting] ∧ c ∈ waiters (lm_latches m') k ∧
  ∀ k' d, d ∈ waiters (lm_latches m) k' → d ∈ waiters (lm_latches m') k'.
Proof.
  intros Hinv. destruct (get_latch_view m gs k Hinv) as (Eh & Ew & Ek). unfold acquire_internal.
  destruct (lb_hold _); [|done]. intros [= <- <-].
  split_and!; [by unfold states; rewrite length_fmap| | |].
  - unfold states. cbn. rewrite fmap_app. cbn. by rewrite ch_state_new.
  - cbn. rewrite waiters_insert, decide_True by done. cbn. apply elem_of_app. right. by left.
  - intros k' d Hd. cbn. rewrite waiters_insert. case_decide; [subst k'|done]. cbn.
    apply elem_of_app. left. by rewrite <- Ew.
Qed.
Lemma recv_shape m c g m' :
  recv_guard m c = (Some g, m') →
  states m !! c = Some (Delivered g) ∧ states m' = <[c := Done]> (states m) ∧ lm_latches m' = lm_latches m.
Proof.
  unfold recv_guard. destruct (lm_chans m !! c) as [ch|] eqn:Ec; [|done].
  rewrite (states_lookup m c ch Ec). destruct (ch_state ch) as [|g1|] eqn:Est.
  1,3: destruct (ch_recv_other ch) as [E1 _]; [by rewrite Est|]; destruct (ch_recv ch); cbn in E1; congruence.
  destruct (ch_recv_delivered ch g1 Est) as [E1 E2]. destruct (ch_recv ch) as [r ch']. cbn in E1, E2.
  intros [= Er <-]. rewrite states_insert, E2. split_and!; [congruence|done..].
Qed.

Lemma runs_acquire_post m s key todo gs g m' rest (k := mkShardKey s key) :
  latch_inv (lm_latches m) (states m) (gs ++ rest) → task_ok m (mkTask s (key :: todo) None gs) →
  acquire_internal m k = (inl g, m') →
  runs_post m (mkTask s (key :: todo) None gs) m' (mkTask s todo None (g :: gs)) rest.
Proof.
  intros Hinv [Hs Hg _] E. destruct (acquire_free_shape _ _ _ _ _ Hinv E) as (-> & Est & Ew). split; cbn; try done.
  - by apply (acquire_step m (gs ++ rest) k (inl (mkGuard true k))).
  - apply StronglySorted_inv in Hs as [Hs Hf]. split; cbn; [done| |done].
    intros g [->|Hin]%elem_of_cons; [done|]. destruct (Hg g Hin) as (? & ? & [_ ?]%Forall_cons). done.
  - unfold waits_ok. intros c k' _. by rewrite Est, Ew.
  - intros c st. rewrite Est. eauto.
Qed.
Lemma runs_queue_post m s key todo gs c m' rest (k := mkShardKey s key) :
  latch_inv (lm_latches m) (states m) (gs ++ rest) → task_ok m (mkTask s (key :: todo) None gs) →
  acquire_internal m k = (inr c, m') →
  runs_post m (mkTask s (key :: todo) None gs) m' (mkTask s (key :: todo) (Some c) gs) rest.
Proof.
  intros Hinv [Hs Hg _] E. destruct (acquire_queue_shape _ _ _ _ _ Hinv E) as (-> & Est & Ec & Ew).
  split; cbn; try done.
  - by apply (acquire_step m (gs ++ rest) k (inr (length (states m)))).
  - split; cbn; [done..|]. intros c [= <-]. exists key, todo. split; [done|]. left. split; [|done].
    rewrite Est. by apply list_lookup_middle.
  - intros c k' _ Hc. pose proof (waits_ok_lt _ _ _ Hc). unfold waits_ok. rewrite Est, lookup_app_l by done.
    destruct Hc as [[? ?]|?]; [left; auto|by right].
  - by intros c [= <-].
  - intros c st. rewrite Est. destruct (decide (c = length (states m))) as [->|]; [by left|].
    intros Hl. right. split; [done|]. exists st. split; [|done]. rewrite <- Hl. symmetry. apply lookup_app_l.
    apply lookup_lt_Some in Hl. rewrite length_app in Hl. cbn in Hl. lia.
Qed.
Lemma runs_receive_post m s key todo c gs g m' rest :
  latch_inv (lm_latches m) (states m) (gs ++ rest) → task_ok m (mkTask s (key :: todo) (Some c) gs) →
  recv_guard m c = (Some g, m') →
  runs_post m (mkTask s (key :: todo) (Some c) gs) m' (mkTask s todo None (g :: gs)) rest.
Proof.
  intros Hinv [Hs Hg Hw] E. destruct (recv_shape _ _ _ _ E) as (Ec & Est & EL).
  destruct (Hw c eq_refl) as (key' & todo' & [= <- <-] & Hc).
  assert (g = mkGuard true (mkShardKey s key)) as ->.
  { destruct Hc as [[Hc _]|Hc]; cbn in Hc; congruence. }
  split; cbn; try done.
  - by apply (receive_step m (gs ++ rest) c).
  - apply StronglySorted_inv in Hs as [Hs Hf]. split; cbn; [done| |done].
    intros g [->|Hin]%elem_of_cons; [done|]. destruct (Hg g Hin) as (? & ? & [_ ?]%Forall_cons). done.
  - unfold waits_ok. intros d k' Hd. rewrite Est, EL, list_lookup_insert_ne by congruence. done.
  - intros d st Hl Hst. right. rewrite Est in Hl. destruct (decide (c = d)) as [->|].
    { rewrite list_lookup_insert_eq in Hl by (by eapply lookup_lt_Some). congruence. }
    rewrite list_lookup_insert_ne in Hl by done. split; [congruence|eauto].
Qed.
Lemma runs_drop_post m s gs g gs' rest :
  latch_inv (lm_latches m) (states m) (gs ++ rest) → task_ok m (mkTask s [] None gs) → gs ≡ₚ g :: gs' →
  runs_post m (mkTask s [] None gs) (guard_drop m g) (mkTask s [] None gs') rest.
Proof.
  intros Hinv [Hs Hg _] Hp. cbn in Hg.
  assert (Hinv' : latch_inv (lm_latches m) (states m) (g :: gs' ++ rest)).
  { eapply latch_inv_perm; [|done]. by rewrite Hp. }
  assert (Hh : lg_hold g = true) by (apply Hg; rewrite Hp; by left).
  pose proof (release_handed m g _ Hinv' Hh) as Hd. split; cbn; try done.
  - by apply guard_drop_inv.
  - split; cbn; [done| |done]. intros g' Hg'. destruct (Hg g') as (? & ? & _); [rewrite Hp; by right|]. done.
  - intros c k _ Hc. destruct (decide (k = lg_shard_key g)) as [->|Hne].
    + destruct Hc as [[Hc Hin]|Hc].
      * destruct (handed_ahead _ _ _ _ _ _ c Hinv' Hd Hc Hin) as [[_ ?]|(? & ? & _)]; [by right|by left].
      * right. destruct Hd as (_ & _ & [(_ & _ & -> & _)|(pre & d & post & _ & _ & Hdw & _ & _ & ->)]); [done|].
        by rewrite list_lookup_insert_ne by congruence.
    + destruct Hd as (_ & Hout & Hd). unfold waits_ok. rewrite (proj2 (Hout k Hne)).
      destruct Hd as [(_ & _ & -> & _)|(pre & d & post & Ew & _ & Hdw & _ & _ & ->)]; [done|].
      assert (d ≠ c).
      { intros ->. destruct Hc as [[_ Hc]|Hc]; [|congruence]. destruct Hne.
        eapply (inv_disjoint _ _ _ Hinv'); [done|]. rewrite Ew. apply elem_of_app. right. by left. }
      by rewrite list_lookup_insert_ne.
  - intros c st Hl Hst. right. split; [done|]. destruct Hd as (_ & _ & [(_ & _ & E & _)|(pre & d & post & _ & _ & Hdw & _ & _ & E)]);
      rewrite E in Hl; [eauto|]. destruct (decide (d = c)) as [->|]; [eauto|].
    rewrite list_lookup_insert_ne in Hl by done. eauto.
Qed.
Lemma runs_inv m t m' t' rest :
  runs m t m' t' → latch_inv (lm_latches m) (states m) (tk_guards t ++ rest) → task_ok m t → runs_post m t m' t' rest.
Proof.
  intros Hr. destruct Hr; cbn; intros.
  - by apply runs_acquire_post.
  - by apply runs_queue_post.
  - by apply runs_receive_post.
  - by apply runs_drop_post.
Qed.

(** ** The system *)
Lemma task_ok_other m m' t : (∀ c k, tk_wait t = Some c → waits_ok m c k → waits_ok m' c k) → task_ok m t → task_ok m' t.
Proof.
  intros Hk [Hs Hg Hw]. split; [done..|]. intros c Hc. destruct (Hw c Hc) as (key & todo & E & ?).
  exists key, todo. eauto.
Qed.

Lemma omap_wait_middle ts1 t ts2 :
  omap tk_wait (ts1 ++ t :: ts2) ≡ₚ option_list (tk_wait t) ++ omap tk_wait (ts1 ++ ts2).
Proof.
  rewrite !omap_app. cbn. destruct (tk_wait t) as [c|]; cbn; [|done]. by rewrite Permutation_middle.
Qed.

Lemma Forall_middle {A} (P : A → Prop) l1 x l2 : Forall P (l1 ++ x :: l2) ↔ P x ∧ Forall P (l1 ++ l2).
Proof. rewrite !Forall_app, Forall_cons. naive_solver. Qed.

Lemma sys_step_inv m ts m' ts' : sys_step (m, ts) (m', ts') → sys_inv m ts → sys_inv m' ts'.
Proof.
  intros Hs Hinv.
  inversion Hs as [? ? request t Ht Hd|? ? ts1 t t' ts2 Hr]; subst; destruct Hinv as [Hl Ht' Hn Ho].
  - pose proof (task_of_ok m' request t Ht Hd) as Hok.
    assert (tk_wait t = None ∧ tk_guards t = []) as [Ew Eg].
    { unfold task_of in Ht. by destruct (row_latch_keys request) as [[[]|]| |]; simplify_eq. }
    split; [by unfold all_guards; cbn; rewrite Eg|by constructor|cbn; by rewrite Ew|].
    intros c s Hc Hs'. cbn. rewrite Ew. by eapply Ho.
  - rewrite Forall_middle in Ht'. destruct Ht' as [Hok Hrest].
    assert (Hl' : latch_inv (lm_latches m) (states m) (tk_guards t ++ all_guards (ts1 ++ ts2))).
    { eapply latch_inv_perm; [apply all_guards_middle|done]. }
    rewrite omap_wait_middle in Hn. apply NoDup_app in Hn as (_ & Hdis & Hn).
    destruct (runs_inv _ _ _ _ _ Hr Hl' Hok) as [Hl2 Hok2 Hoth Hw Hown].
    assert (Hkeep : Forall (task_ok m') (ts1 ++ ts2)).
    { rewrite Forall_forall in Hrest. apply Forall_forall. intros u Hu.
      eapply task_ok_other; [|by apply Hrest]. intros c k Hc. apply Hoth. intros Ec.
      apply (Hdis c); [rewrite Ec; by left|]. apply list_elem_of_omap. eauto. }
    split.
    + eapply latch_inv_perm; [symmetry; apply all_guards_middle|done].
    + by apply Forall_middle.
    + rewrite omap_wait_middle. apply NoDup_app. split_and!; [destruct (tk_wait t'); cbn; [apply NoDup_singleton|constructor]| |done].
      intros c Hc Hin. destruct (tk_wait t') as [c'|] eqn:Ec'; [|by apply not_elem_of_nil in Hc].
      apply list_elem_of_singleton in Hc. subst c'. rewrite (Hw c eq_refl) in Hin.
      apply list_elem_of_omap in Hin as (u & Hu & Ec). rewrite Forall_forall in Hrest.
      destruct (to_wait _ _ (Hrest u Hu) _ Ec) as (? & ? & _ & Hc%waits_ok_lt). lia.
    + intros c s Hc Hs'. rewrite omap_wait_middle. apply elem_of_app.
      destruct (Hown c s Hc Hs') as [->|(Hne & s0 & Hc0 & Hs0)]; [left; by left|]. right.
      specialize (Ho c s0 Hc0 Hs0). rewrite omap_wait_middle in Ho.
      apply elem_of_app in Ho as [Ho|Ho]; [|done]. destruct (tk_wait t) as [c'|]; [|by apply not_elem_of_nil in Ho].
      apply list_elem_of_singleton in Ho. congruence.
Qed.

Lemma sys_reachable_inv w : sys_reachable w → sys_inv w.1 w.2.
Proof.
  intros Hr. unfold sys_reachable in Hr. remember (LatchManagerCore_new, []) as w0 eqn:E0.
  assert (sys_inv w0.1 w0.2) as H0inv.
  { subst w0. split; [apply (reachable_inv (_, [])), reachable_new|constructor..|]. cbn. done. }
  clear E0. induction Hr as [w|w1 w2 w3 Hs _ IH]; [done|]. apply IH. destruct w1, w2. by eapply sys_step_inv.
Qed.

(** A finite nonempty set of keys has a maximal one. *)
Lemma max_key (l : list bytes) : l ≠ [] → ∃ x, x ∈ l ∧ ∀ y, y ∈ l → ¬ bytes_lt x y.
Proof.
  induction l as [|a l IH]; [done|]. intros _. destruct l as [|b l].
  { exists a. split; [by left|]. intros y ->%list_elem_of_singleton. apply bytes_lt_irrefl. }
  destruct IH as (x & Hx & Hmax); [done|]. destruct (decide (bytes_lt x a)) as [Hlt|Hge].
  - exists a. split; [by left|]. intros y [->|Hy]%elem_of_cons; [apply bytes_lt_irrefl|].
    intros Hay. apply (Hmax y Hy). by eapply bytes_lt_trans.
  - exists x. split; [by right|]. intros y [->|Hy]%elem_of_cons; [done|by apply Hmax].
Qed.

(** A request is through, can go on, or waits for a channel nobody sent on. *)
Definition blocked m t (key : bytes) : Prop :=
  ∃ todo c, tk_todo t = key :: todo ∧ tk_wait t = Some c ∧ states m !! c = Some Waiting ∧
    c ∈ waiters (lm_latches m) (mkShardKey (tk_shard t) key).
Lemma task_progress m t :
  task_ok m t → finished t ∨ (∃ m' t', runs m t m' t') ∨ ∃ key, blocked m t key.
Proof.
  intros [Hs Hg Hw]. destruct t as [s [|key todo] [c|] gs]; cbn in *.
  - by destruct (Hw c eq_refl) as (? & ? & ? & _).
  - destruct gs as [|g gs]; [by left|]. right. left. do 2 eexists. by apply (runs_drop m s _ g gs).
  - destruct (Hw c eq_refl) as (key' & todo' & [= <- <-] & [[? ?]|Hd]); [right; right; by exists key, todo, c|].
    right. left. unfold states in Hd. rewrite list_lookup_fmap in Hd.
    destruct (lm_chans m !! c) as [ch|] eqn:Ec; [|done]. injection Hd as Hd.
    destruct (ch_recv_delivered ch _ Hd) as [E1 _]. destruct (ch_recv ch) as [r ch'] eqn:Er. cbn in E1. subst r.
    do 2 eexists. eapply runs_receive. unfold recv_guard. by rewrite Ec, Er.
  - right. left. destruct (acquire_internal m (mkShardKey s key)) as [[g|c] m'] eqn:E; do 2 eexists.
    + by eapply runs_acquire.
    + by eapply runs_queue.
Qed.
Lemma tasks_progress m ts :
  Forall (task_ok m) ts →
  (∃ t m' t', t ∈ ts ∧ runs m t m' t') ∨ Forall (λ t, finished t ∨ ∃ key, blocked m t key) ts.
Proof.
  induction 1 as [|t ts Ht _ IH]; [by right|]. destruct IH as [(u & m' & u' & Hu & Hr)|IH].
  { left. exists u, m', u'. split; [by right|done]. }
  destruct (task_progress m t Ht) as [?|[(m' & t' & Hr)|?]]; [right; constructor; auto| |right; constructor; auto].
  left. exists t, m', t'. split; [by left|done].
Qed.

Lemma token_owner k sts gs :
  (0 < tokens k sts gs)%nat →
  (∃ g, g ∈ gs ∧ lg_shard_key g = k) ∨ (∃ c g, sts !! c = Some (Delivered g)).
Proof.
  unfold tokens. intros Hpos. destruct (decide (0 < sum_list_with (owns k) gs)%nat) as [Hg|Hg].
  - left. induction gs as [|g gs IH]; cbn in *; [lia|]. destruct (owns k g) eqn:Eo.
    + destruct IH as (g' & ? & ?); [lia..|]. exists g'. split; [by right|done].
    + exists g. split; [by left|]. unfold owns in Eo. destruct (lg_hold g); [|done]. cbn in Eo.
      by case_bool_decide.
  - right. assert (0 < sum_list_with (carries k) sts)%nat as Hc by lia. clear Hpos Hg.
    induction sts as [|s sts IH]; cbn in *; [lia|]. destruct s as [|g|]; cbn in Hc.
    2: by exists 0%nat, g.
    all: destruct IH as (c & g & ?); [lia|]; by exists (S c), g.
Qed.

(** C7: no deadlock: in every state reached by requests that take their
    latches through [acquire_row_latches], each with distinct keys, either
    all requests are through or some request can take its next step. *)
Theorem row_latches_no_deadlock m ts :
  sys_reachable (m, ts) → Forall finished ts ∨ ∃ t m' t', t ∈ ts ∧ runs m t m' t'.
Proof.
  intros Hinv%sys_reachable_inv. destruct Hinv as [Hl Hok Hn Ho]. cbn in *.
  destruct (tasks_progress m ts Hok) as [|Hall]; [by right|left].
  rewrite Forall_forall in Hall, Hok. apply Forall_forall. intros t Ht.
  destruct (Hall t Ht) as [|(key & Hb)]; [done|exfalso].
  destruct (max_key (omap (λ t, head (tk_todo t)) ts)) as (x & Hx & Hmax).
  { destruct Hb as (todo & c & Et & _). intros E. apply (not_elem_of_nil key). rewrite <- E.
    apply list_elem_of_omap. exists t. by rewrite Et. }
  apply list_elem_of_omap in Hx as (u & Hu & Eu).
  destruct (Hall u Hu) as [[E _]|(key' & todo & c & Et & _ & _ & Hc)]; [by rewrite E in Eu|].
  rewrite Et in Eu. injection Eu as ->.
  assert (held (lm_latches m) (mkShardKey (tk_shard u) x) = true) as Hh.
  { destruct (held _ _) eqn:E; [done|]. rewrite (inv_idle _ _ _ Hl _ E) in Hc. by apply not_elem_of_nil in Hc. }
  pose proof (inv_tokens _ _ _ Hl (mkShardKey (tk_shard u) x)) as Htok. rewrite Hh in Htok.
  edestruct token_owner as [(g & Hg & Ek)|(d & g & Hd)]; [by rewrite Htok; apply Nat.lt_0_1|..].
  - apply list_elem_of_In, in_concat in Hg as (gs & Hgs & Hg). apply in_map_iff in Hgs as (v & <- & Hv).
    apply list_elem_of_In in Hv. apply list_elem_of_In in Hg.
    destruct (to_guards _ _ (Hok v Hv) g Hg) as (_ & _ & Hlt).
    destruct (Hall v Hv) as [[_ E]|(y & todo' & c' & Ey & _)]; [rewrite E in Hg; by apply not_elem_of_nil in Hg|].
    rewrite Ey, Ek in Hlt. apply Forall_cons in Hlt as [Hlt _]. apply (Hmax y); [|done].
    apply list_elem_of_omap. exists v. by rewrite Ey.
  - specialize (Ho d _ Hd ltac:(done)). apply list_elem_of_omap in Ho as (v & Hv & Ew).
    destruct (to_wait _ _ (Hok v Hv) d Ew) as (y & todo' & Ey & _).
    destruct (Hall v Hv) as [[E _]|(y' & ? & c' & _ & Ew' & Hw & _)]; [congruence|]. congruence.
Qed.

End Order.

(** ** Concrete runs *)
Abbreviation sample_core :=
  (LatchManagerCore (chan_state RemoteLatchGuard) (chan_state (TxnState * Z))).
Definition row_a : ShardKey := mkShardKey 1 (str_bytes "a").
Definition guard_a : RemoteLatchGuard := mkGuard true row_a.
Definition core_held : sample_core := (acquire_internal LatchManagerCore_new row_a).2.
Definition core_queued : sample_core := (acquire_internal core_held row_a).2.

Lemma core_queued_reachable : reachable (core_queued, [guard_a]).
Proof.
  eapply (reachable_step (core_held, [guard_a]) (EQueue row_a 0)).
  - eapply (reachable_step (LatchManagerCore_new, [])); [apply reachable_new|]. by apply (step_acquire _ _ row_a).
  - by apply step_queue.
Qed.

Lemma latch_mutual_exclusion_witness :
  tokens row_a (states core_queued) [guard_a] = 1%nat ∧ held (lm_latches core_queued) row_a = true.
Proof.
  destruct (latch_mutual_exclusion core_queued [guard_a] row_a core_queued_reachable) as [E _].
  split; [exact E|]. vm_compute. reflexivity.
Defined.

Lemma latch_fifo_witness :
  ∃ k, 0%nat ∈ waiters (lm_latches core_queued) k ∧ tokens k (states core_queued) [guard_a] = 1%nat ∧
    ∀ g m' gs', step (core_queued, [guard_a]) (EDrop g) (m', gs') → lg_hold g = true → lg_shard_key g = k →
       match ahead (states core_queued) 0 (waiters (lm_latches core_queued) k) with
       | O => states m' !! 0%nat = Some (Delivered (mkGuard true k))
       | S n => states m' !! 0%nat = Some Waiting ∧ 0%nat ∈ waiters (lm_latches m') k ∧
                ahead (states m') 0 (waiters (lm_latches m') k) = n
       end.
Proof.
  destruct (latch_fifo core_queued [guard_a] 0 core_queued_reachable) as (k & Hk & Ht & _ & Hd).
  - vm_compute. reflexivity.
  - exists k. auto.
Defined.

Definition sample_write (keys : list bytes) : Request :=
  RWrite (mkShardWriteRequest 1 (map (λ k, mkDeleteRequest k [] false) keys) []).
Definition task_ab : Task := mkTask 1 [str_bytes "a"; str_bytes "b"] None [].
Lemma row_latches_no_deadlock_witness :
  task_of (sample_write [str_bytes "b"; str_bytes "a"]) = Some task_ab ∧
  ((Forall finished [task_ab; task_ab]) ∨
   ∃ t m' t', t ∈ [task_ab; task_ab] ∧ runs (LatchManagerCore_new : sample_core) t m' t').
Proof.
  split; [reflexivity|].
  apply (row_latches_no_deadlock (LatchManagerCore_new : sample_core) [task_ab; task_ab]).
  apply (rtc_l _ _ (LatchManagerCore_new, [task_ab])); [|apply rtc_once].
  all: by apply (sys_new _ _ (sample_write [str_bytes "b"; str_bytes "a"])).
Defined.

(** A request that names a key twice waits for itself: after taking the first
    latch and queueing for the second, alone in the system, it is stuck. *)
Theorem duplicate_key_self_deadlock :
  row_latch_keys (sample_write [str_bytes "a"; str_bytes "a"]) = Ok (Some (1, [str_bytes "a"; str_bytes "a"])) ∧
  runs (LatchManagerCore_new : sample_core) (mkTask 1 [str_bytes "a"; str_bytes "a"] None [])
    core_held (mkTask 1 [str_bytes "a"] None [guard_a]) ∧
  runs core_held (mkTask 1 [str_bytes "a"] None [guard_a])
    core_queued (mkTask 1 [str_bytes "a"] (Some 0%nat) [guard_a]) ∧
  ∀ m' t', ¬ runs core_queued (mkTask 1 [str_bytes "a"] (Some 0%nat) [guard_a]) m' t'.
Proof.
  split_and!; [reflexivity|by apply runs_acquire|by apply runs_queue|].
  intros m' t' Hr. inversion Hr as [| |m s key todo c gs g m1 E|]; subst. vm_compute in E. done.
Qed.
