(* ===== verification/Resolve.v ===== *)
(** * Resolving a transaction that is in the way
    ([server/src/replica/eval/latch.rs], module [remote])

    A request that meets the intent of another transaction asks the
    transaction's record for its fate, and settles the intent on the spot:
    [RemoteLatchGuard::resolve_txn] for writes that hold the latch of the row,
    [RemoteLatchManager::resolve_txn] for reads, which take it first.

    The state is the group that holds the transaction table and the engine of
    this replica.  What other requests do while this one waits (for a latch,
    for a decision) and the replication of a batch are parameters. *)

From S2P Require Import Prelude Bytes Rock Api RocksDb Errors Schema Keys Engine EngineFacts EngineWrites Samples Cas EvalTxn.
From S2P Require Import EvalTxnFacts TxnSamples EvalTxnProps EvalRead ScanProps TxnTable TxnTableProps TxnServerImpl.

(** The text of an error of the transaction table is not looked at. *)
Definition TABLE_ERROR : string := "txn table".
Definition from_client {A} (r : CResult A) : Result A :=
  match r with Ok a => Ok a | Err e => from_client_error TABLE_ERROR e | Panic => Panic end.

Section Resolve.
  Context {TW : Type} `{TxnServer TW}.
  Context {DB : Type} `{RocksDb DB} `{Codec TxnIntent} `{Codec WriteBatch}.
  Abbreviation RState := (TW * GroupEngine DB)%type.
  Abbreviation M := (prog RState Error).
  Variable tag_of : Z → byte.
  (** [timestamp_millis] *)
  Variable clock : RState → Z.
  (** [RaftGroup::propose]: replicate and apply. *)
  Variable propose : EvalResult → GroupEngine DB → Result unit * GroupEngine DB.
  (** Waiting on the intent channel, then for the latch again. *)
  Variable await_decision : ShardKey → Z → RState → (TxnState * Z) * RState.
  (** Waiting for the latch of a row. *)
  Variable await_latch : ShardKey → RState → RState.

Definition on_table {A} (f : TW → CResult A * TW) : M (CResult A) := λ '(tw, ge),
  let '(r, tw') := f tw in Some (Ok r, (tw', ge)).
Definition on_engine {A} (f : GroupEngine DB → Result A) : M A := prog_reads (λ st, f st.2).
Definition raft_propose (er : EvalResult) : M unit := λ '(tw, ge),
  let '(r, ge') := propose er ge in Some (r, (tw, ge')).
Definition now : M Z := λ st, Some (Ok (clock st), st).

Definition remote_commit_intent (k : ShardKey) (txn_intent : TxnIntent) (commit_version : Z) : M unit :=
  let* wb := on_engine (λ ge,
    let? wb := ge_delete ge [] (sk_shard_id k) (sk_user_key k) TXN_INTENT_VERSION in
    if ti_is_delete txn_intent then ge_tombstone ge wb (sk_shard_id k) (sk_user_key k) commit_version
    else match ti_value txn_intent with
         | Some value => ge_put ge wb (sk_shard_id k) (sk_user_key k) value commit_version
         | None => Ok wb
         end) in
  raft_propose (EvalResult_with_batch (encode_to_vec wb)).

Definition remote_clear_intent (k : ShardKey) : M unit :=
  let* wb := on_engine (λ ge, ge_delete ge [] (sk_shard_id k) (sk_user_key k) TXN_INTENT_VERSION) in
  raft_propose (EvalResult_with_batch (encode_to_vec wb)).

(** What a round of the loop finds out: the decision, and whether the intent
    is still to be settled; [None] is [continue]. *)
Definition txn_fate (k : ShardKey) (start_version : Z) : M (option (TxnState * Z * bool)) :=
  let* r := on_table (get_txn_record tag_of start_version) in
  let* record := prog_lift (from_client r) in
  let* txn_record := prog_lift (ok_or record (InvalidData "resolve txn, but txn record is not exists")) in
  match tr_state txn_record with
  | Running =>
      let* t := now in
      if u64_add (tr_heartbeat txn_record) 500 <? t then
        let* t := now in
        let* r := on_table (abort_txn tag_of t start_version) in
        match r with
        | Ok _ => prog_lift (Ok (Some (Aborted, 0, true)))
        | Err CInvalidArgument => prog_lift (Ok None)
        | Err err => prog_lift (from_client_error TABLE_ERROR err)
        | Panic => prog_lift Panic
        end
      else λ st, let '((txn_state, commit_version), st') := await_decision k start_version st in
           Some (Ok (Some (txn_state, commit_version, false)), st')
  | state => prog_lift (Ok (Some (state, default 0 (tr_commit_version txn_record), true)))
  end.

(** [RemoteLatchGuard::resolve_txn]; [fuel] bounds the rounds, a second one
    is needed only when the transaction was committed in between. *)
Fixpoint guard_resolve (fuel : nat) (k : ShardKey) (txn_intent : TxnIntent) : M (option Value) :=
  match fuel with
  | O => λ _, None
  | S fuel' =>
      let* fate := txn_fate k (ti_start_version txn_intent) in
      match fate with
      | None => guard_resolve fuel' k txn_intent
      | Some (Committed, commit_version, delete_intent) =>
          do* (if (delete_intent : bool) then remote_commit_intent k txn_intent commit_version else prog_lift (Ok tt)) in
          if ti_is_delete txn_intent then prog_lift (Ok (Some (Value_tombstone commit_version)))
          else prog_lift (Ok (Some (mkValue (ti_value txn_intent) commit_version)))
      | Some (Aborted, _, delete_intent) =>
          do* (if (delete_intent : bool) then remote_clear_intent k else prog_lift (Ok tt)) in
          prog_lift (Ok None)
      | Some (Running, _, _) => prog_lift Panic
      end
  end.

(** [RemoteLatchManager::resolve_txn] under the latch: through the versions
    of the key, newest first, to the intent to settle or the value to return. *)
Fixpoint find_intent_loop (fuel : nat) (s : Snapshot) (start_version intent_version : Z) :
    Result (TxnIntent + option Value) :=
  match fuel with
  | O => Panic
  | S fuel' =>
      let? next := (next_mvcc_entry s).1 in
      match next with
      | None => Ok (inr None)
      | Some entry =>
          if entry_version entry =? TXN_INTENT_VERSION then
            let? value := entry_value entry in
            let? content := ok_or value (InvalidData "txn intent value is not exists") in
            let? txn_intent := ok_or (decode_msg content) DecodeError in
            if ti_start_version txn_intent =? intent_version then Ok (inl txn_intent)
            else find_intent_loop fuel' (next_mvcc_entry s).2 start_version intent_version
          else if entry_version entry <=? start_version then let? v := entry_into entry in Ok (inr (Some v))
          else find_intent_loop fuel' (next_mvcc_entry s).2 start_version intent_version
      end
  end.
Definition find_intent (ge : GroupEngine DB) (shard_id : Z) (user_key : bytes) (start_version intent_version : Z) :
    Result (TxnIntent + option Value) :=
  let? snapshot := ge_snapshot ge shard_id (ModeKey user_key) in
  match next_mvcc_iterator snapshot with
  | (Ok (Some _), s) => find_intent_loop (S (items_left s)) s start_version intent_version
  | (Ok None, _) => Ok (inr None)
  | (Err e, _) => Err e
  | (Panic, _) => Panic
  end.

Definition manager_resolve (fuel : nat) (shard_id : Z) (user_key : bytes) (start_version intent_version : Z) :
    M (option Value) := λ st,
  let k := mkShardKey shard_id user_key in
  (let* found := on_engine (λ ge, find_intent ge shard_id user_key start_version intent_version) in
   match found with
   | inl txn_intent => guard_resolve fuel k txn_intent
   | inr v => prog_lift (Ok v)
   end) (await_latch k st).

(** The latch manager the replica reads with. *)
Definition remote_manager (fuel : nat) : LatchManager RState := {|
  mgr_resolve_txn st shard_id user_key start_version intent_version :=
    match manager_resolve fuel shard_id user_key start_version intent_version st with
    | Some r => r
    | None => (Panic, st)
    end |}.

End Resolve.

(** * Properties of resolving transactions

    An intent is settled the way its transaction's record says; a transaction
    that stopped sending heartbeats is aborted in the table first, so the
    decision stands for everybody.  Reads through the remote latch manager
    therefore see exactly the settled state. *)
Section ResolveProps.
  Context {TW : Type} `{TxnServerOk TW}.
  Context {DB : Type} `{RocksDbOk DB} `{CodecOk TxnIntent} `{CodecOk WriteBatch}.
  Context `{CodecOk EntryId} `{CodecOk GroupDesc} `{CodecOk MoveShardState}.
  Abbreviation RState := (TW * GroupEngine DB)%type.
  Variable tag_of : Z → byte.
  Variable clock : RState → Z.
  Variable propose : EvalResult → GroupEngine DB → Result unit * GroupEngine DB.
  Variable await_decision : ShardKey → Z → RState → (TxnState * Z) * RState.
  Variable await_latch : ShardKey → RState → RState.
  (** A proposal that is accepted has been applied. *)
  Hypothesis propose_applies : ∀ er ge ge', apply_eval ge (Some er) = Ok ge' → propose er ge = (Ok tt, ge').

Abbreviation fate := (txn_fate tag_of clock await_decision).
Abbreviation resolve := (guard_resolve tag_of clock propose await_decision).

(** The fate of a transaction whose record reads as [rec]: committed with a
    version, or not. *)
Definition outcome_of (rec : TxnRecord) : option Z :=
  match tr_state rec with Committed => Some (default 0 (tr_commit_version rec)) | _ => None end.
Definition expired (rec : TxnRecord) (t : Z) : Prop := u64_add (tr_heartbeat rec) 500 < t.

(** What asking for the fate of [s] leaves of the table: the table itself, or
    the table in which an expired [s] was aborted. *)
Definition table_after (n : nat) (s now : Z) (tw tw' : TW) : Prop :=
  srv_inv n tw' ∧
  (tw' = tw ∨ rec_state (record_at tag_of tw s) = Some (txn_state_value Running) ∧
              tw' = (run_op tag_of (OAbort now s) tw).2).

Lemma fate_known n k s rec (tw : TW) (ge : GroupEngine DB) :
  srv_inv (S n) tw → u64_ok s → get_txn_record tag_of s tw = (Ok (Some rec), tw) →
  rec_state (record_at tag_of tw s) = Some (txn_state_value (tr_state rec)) →
  (tr_state rec = Running → expired rec (clock (tw, ge))) →
  ∃ st c tw', fate k s (tw, ge) = Some (Ok (Some (st, c, true)), (tw', ge)) ∧
    match outcome_of rec with Some cv => st = Committed ∧ c = cv | None => st = Aborted end ∧
    rec_state (record_at tag_of tw' s) = Some (txn_state_value st) ∧ table_after n s (clock (tw, ge)) tw tw'.
Proof.
  intros Hi Hs Hget Hst Hexp. unfold txn_fate, prog_bind, on_table, prog_lift, now. rewrite Hget. cbn [from_client ok_or].
  unfold outcome_of. destruct (tr_state rec) eqn:Est.
  - rewrite (proj2 (Z.ltb_lt _ _)) by (by apply Hexp).
    destruct (abort_refined tag_of n (clock (tw, ge)) s tw Hi Hs) as (tw' & E & Hi' & Hr & _).
    assert (table_after n s (clock (tw, ge)) tw tw') as Ha by (split; [done|]; right; by rewrite E).
    cbn [run_op op_txn] in E, Hr. rewrite E. cbn [spec_op]. cbn [spec_op] in Hr. rewrite Hst in Hr |- *.
    rewrite (proj2 (bytes_eqb_eq _ _)) in Hr |- * by done. cbn [fst snd] in *.
    do 3 eexists. split; [done|]. split; [done|]. by rewrite Hr.
  - do 3 eexists. split; [done|]. split; [done|]. split; [done|]. split; [by apply srv_inv_weaken|by left].
  - do 3 eexists. split; [done|]. split; [done|]. split; [done|]. split; [by apply srv_inv_weaken|by left].
Qed.


Lemma propose_batch (tw : TW) ge (ops : list vop) t :
  ops ≠ [] →
  raft_propose propose (EvalResult_with_batch (encode_to_vec (map (vop_batch t) ops))) (tw, ge) =
    Some (Ok tt, (tw, mkGroupEngine (write_batch (ge_db ge) (map (vop_batch t) ops)) (ge_core ge))).
Proof.
  intros Hne. unfold raft_propose. rewrite (propose_applies _ ge
    (mkGroupEngine (write_batch (ge_db ge) (map (vop_batch t) ops)) (ge_core ge))); [done|].
  pose proof (batch_result_apply ge (map (vop_batch t) ops)) as E. by destruct ops.
Qed.

Lemma remote_commit_spec (tw : TW) ge sid t key ti commit :
  serves ge sid t → key ≠ [] →
  remote_commit_intent propose (mkShardKey sid key) ti commit (tw, ge) =
    Some (Ok tt, (tw, mkGroupEngine (write_batch (ge_db ge)
      (map (vop_batch t) (resolve_ops key commit (intent_content ti)))) (ge_core ge))).
Proof.
  intros Hs Hne. rewrite <- propose_batch by (by destruct (intent_content ti)).
  unfold remote_commit_intent, prog_bind, on_engine, prog_reads. cbn [sk_shard_id sk_user_key snd].
  pose proof (commit_batch_spec ge sid t key ti commit Hs Hne) as E. unfold commit_batch in E. by rewrite E.
Qed.
Lemma remote_clear_spec (tw : TW) ge sid t key :
  serves ge sid t → key ≠ [] →
  remote_clear_intent propose (mkShardKey sid key) (tw, ge) =
    Some (Ok tt, (tw, mkGroupEngine (write_batch (ge_db ge) (map (vop_batch t) (resolve_ops key 0 None))) (ge_core ge))).
Proof.
  intros Hs Hne. rewrite <- propose_batch by done.
  unfold remote_clear_intent, prog_bind, on_engine, prog_reads. cbn [sk_shard_id sk_user_key snd].
  by rewrite (ge_delete_ok ge [] sid t) by done.
Qed.

(** What it means that the intent on [key] was settled with [outcome]. *)
Definition settled_state ge ge' sid t key ks outcome : Prop :=
  serves ge' sid t ∧ key_repr (ge_db ge') t key (settle ks outcome) ∧
  ∀ key' ks', key' ≠ key → key' ≠ [] → key_repr (ge_db ge) t key' ks' → key_repr (ge_db ge') t key' ks'.

Lemma settled_by_ops ge sid t key ks commit c :
  serves ge sid t → key ≠ [] → key_repr (ge_db ge) t key ks → u64_ok commit → commit < TXN_INTENT_VERSION →
  let ge' := mkGroupEngine (write_batch (ge_db ge) (map (vop_batch t) (resolve_ops key commit c))) (ge_core ge) in
  serves ge' sid t ∧ key_repr (ge_db ge') t key (resolved ks commit c) ∧
  ∀ key' ks', key' ≠ key → key' ≠ [] → key_repr (ge_db ge) t key' ks' → key_repr (ge_db ge') t key' ks'.
Proof.
  intros Hs Hne Hr Hu Hlt. cbv zeta. pose proof (resolve_ops_ok key commit c Hne Hu) as Hok. split_and!.
  - by apply serves_after.
  - by apply key_repr_resolve.
  - intros key' ks' Hk Hk' Hr'. eapply key_repr_other; [done|apply resolve_ops_key|done..].
Qed.

Lemma resolve_known n fuel sid t key ti ks rec (tw : TW) (ge : GroupEngine DB) :
  srv_inv (S n) tw → u64_ok (ti_start_version ti) →
  get_txn_record tag_of (ti_start_version ti) tw = (Ok (Some rec), tw) →
  rec_state (record_at tag_of tw (ti_start_version ti)) = Some (txn_state_value (tr_state rec)) →
  (tr_state rec = Running → expired rec (clock (tw, ge))) →
  (∀ c, outcome_of rec = Some c → u64_ok c ∧ c < TXN_INTENT_VERSION) →
  serves ge sid t → key ≠ [] → key_repr (ge_db ge) t key ks → ks_intent ks = Some ti →
  ∃ tw' ge', resolve (S fuel) (mkShardKey sid key) ti (tw, ge) = Some (Ok (settled_answer ti (outcome_of rec)), (tw', ge')) ∧
    settled_state ge ge' sid t key ks (outcome_of rec) ∧
    rec_state (record_at tag_of tw' (ti_start_version ti)) =
      Some (txn_state_value (match outcome_of rec with Some _ => Committed | None => Aborted end)) ∧
    table_after n (ti_start_version ti) (clock (tw, ge)) tw tw'.
Proof.
  intros Hi Hu Hget Hst Hexp Hc Hs Hne Hr Hti.
  destruct (fate_known n (mkShardKey sid key) _ rec tw ge Hi Hu Hget Hst Hexp) as (st & c & tw' & E & Hout & Hst' & Ha).
  cbn [guard_resolve]. unfold prog_bind at 1. rewrite E. unfold settled_state, settle. rewrite Hti.
  destruct (outcome_of rec) as [cv|] eqn:Eo.
  - destruct Hout as [-> ->]. destruct (Hc cv eq_refl) as [Hcu Hcl].
    unfold prog_bind. rewrite (remote_commit_spec tw' ge sid t) by done.
    exists tw'. eexists. split; [cbn; unfold Value_tombstone; by destruct (ti_is_delete ti)|].
    split; [by apply settled_by_ops|by split].
  - subst st. unfold prog_bind. rewrite (remote_clear_spec tw' ge sid t) by done.
    exists tw'. eexists. split; [done|]. split; [|by split].
    by apply (settled_by_ops ge sid t key ks 0 None).
Qed.

(** Under the latch the manager finds the intent it was asked about, or, when
    it is gone, what is visible to the reader. *)
Lemma find_intent_committed fuel s t rows key start iv :
  (length (take_key key rows) < fuel)%nat →
  snap_rows t s rows → Forall row_ok rows → snap_current s = Some key →
  committed_ok (map row_value (take_key key rows)) →
  find_intent_loop fuel s start iv = Ok (inr (visible start (map row_value (take_key key rows)))).
Proof.
  revert s rows. induction fuel as [|fuel IH]; intros s rows Hf Hrows Hok Hcur Hc; [lia|].
  pose proof (next_entry_take t s rows key Hrows Hok Hcur) as Hn. cbn [find_intent_loop].
  destruct (take_key key rows) as [|r rs].
  { by rewrite Hn. }
  destruct Hn as (s' & rows' & -> & Hr & Hrows' & Hok' & Hcur' & Ers). injection Ers as ->.
  cbn [map fst snd result_bind] in *. apply Forall_cons in Hc as [Hlt Hc]. cbn in Hlt. destruct Hr as (Hk & Hv & Hval).
  rewrite !(row_entry_version t r) by done.
  rewrite (proj2 (Z.eqb_neq _ _)) by lia. unfold visible. cbn [List.find row_value v_version].
  destruct (r_ver r <=? start); [by rewrite row_entry_into|].
  rewrite IH with (rows := rows'); [done|cbn in Hf; lia|done..].
Qed.

Lemma find_intent_repr (ge : GroupEngine DB) sid t key ks start iv :
  serves ge sid t → key ≠ [] → key_repr (ge_db ge) t key ks →
  find_intent ge sid key start iv =
    Ok (match own_intent ks iv with Some ti => inl ti | None => inr (visible start (ks_committed ks)) end).
Proof.
  intros (Hwf & Ht & desc & Hd & <-) Hne [Hv Hc].
  destruct (key_snapshot_iter ge sid desc key Hwf Hd Ht Hne) as (s & vs & Hsnap & Hvs & Hit).
  rewrite (is_versions_unique _ _ _ _ _ Hvs Hv) in *. clear Hvs vs.
  unfold find_intent. rewrite Hsnap. cbn [result_bind].
  destruct Hit as [[E Hn]|(s' & rows & -> & Hrows & Hok & Hcur & Htk & _)].
  { destruct (next_mvcc_iterator s) as [res ?]. cbn in Hn. subst res.
    destruct ks as [[ti|] cs]; [done|]. cbn in *. by subst. }
  assert (length (take_key key rows) < S (items_left s'))%nat as Hfuel.
  { pose proof (snap_rows_items_left _ s' rows Hrows).
    pose proof (sublist_length _ _ (take_key_sublist key rows)). lia. }
  destruct ks as [[ti|] cs]; cbn [ks_intent ks_committed intent_row app own_intent] in *.
  2: { rewrite (find_intent_committed _ s' (sd_table_id desc) rows key) by (done || by rewrite Htk). by rewrite Htk. }
  pose proof (next_entry_take _ s' rows key Hrows Hok Hcur) as Hn. cbn [find_intent_loop].
  destruct (take_key key rows) as [|r rs]; [done|].
  destruct Hn as (s2 & rows' & -> & (Hrk & Hrv & Hrval) & Hrows' & Hok' & Hcur' & Ers). injection Ers as ->.
  cbn [fst snd result_bind map] in *. unfold row_value at 1 in Htk. injection Htk as Hcont Hver Hcs.
  rewrite row_entry_version, Hver, Z.eqb_refl by done.
  destruct Hrval as [E|[d E]]; rewrite E in Hcont; cbn in Hcont; [done|]. injection Hcont as ->.
  assert (entry_value (row_entry (sd_table_id desc) r) = Ok (Some (encode_to_vec ti))) as ->
    by (unfold entry_value; cbn [me_value row_entry]; by rewrite E).
  cbn [result_bind ok_or]. rewrite decode_encode_msg. cbn [ok_or result_bind]. unfold own_intent. cbn [ks_intent].
  destruct (ti_start_version ti =? iv); [done|].
  rewrite (find_intent_committed _ s2 (sd_table_id desc) rows' key) by (done || (cbn in Hfuel; lia) || by rewrite Hcs).
  by rewrite Hcs.
Qed.

Lemma manager_known fuel sid t key ks start iv (st : RState) (tw : TW) (ge : GroupEngine DB) :
  serves ge sid t → key ≠ [] → key_repr (ge_db ge) t key ks →
  await_latch (mkShardKey sid key) st = (tw, ge) →
  manager_resolve tag_of clock propose await_decision await_latch fuel sid key start iv st =
    match own_intent ks iv with
    | Some ti => resolve fuel (mkShardKey sid key) ti (tw, ge)
    | None => Some (Ok (visible start (ks_committed ks)), (tw, ge))
    end.
Proof.
  intros Hs Hne Hr Hl. unfold manager_resolve. rewrite Hl. unfold prog_bind, on_engine, prog_reads. cbn [snd].
  rewrite (find_intent_repr ge sid t key ks) by done. by destruct (own_intent ks iv).
Qed.

(** C8: an intent is settled exactly as its transaction was decided: committed
    with the recorded version, removed when it was aborted, and when it is
    still running but expired, it is first aborted in the table, so that no
    later commit of it can succeed.  The answer, the key and the record agree,
    and no other key changes. *)
Theorem resolve_settles n fuel sid t key ti ks rec (tw : TW) (ge : GroupEngine DB) :
  srv_inv (S n) tw → u64_ok (ti_start_version ti) →
  get_txn_record tag_of (ti_start_version ti) tw = (Ok (Some rec), tw) →
  rec_state (record_at tag_of tw (ti_start_version ti)) = Some (txn_state_value (tr_state rec)) →
  (tr_state rec = Running → expired rec (clock (tw, ge))) →
  (∀ c, outcome_of rec = Some c → u64_ok c ∧ c < TXN_INTENT_VERSION) →
  serves ge sid t → key ≠ [] → key_repr (ge_db ge) t key ks → ks_intent ks = Some ti →
  ∃ tw' ge', resolve (S fuel) (mkShardKey sid key) ti (tw, ge) = Some (Ok (settled_answer ti (outcome_of rec)), (tw', ge')) ∧
    settled_state ge ge' sid t key ks (outcome_of rec) ∧
    rec_state (record_at tag_of tw' (ti_start_version ti)) =
      Some (txn_state_value (match outcome_of rec with Some _ => Committed | None => Aborted end)).
Proof.
  intros Hi Hu Hget Hst Hexp Hc Hs Hne Hr Hti.
  destruct (resolve_known n fuel sid t key ti ks rec tw ge Hi Hu Hget Hst Hexp Hc Hs Hne Hr Hti)
    as (tw' & ge' & ? & ? & ? & _). by exists tw', ge'.
Qed.

(** A no-op write that was committed is settled without a new version, but
    the resolver answers with a tombstone: a reader is told that the key does
    not exist although its newest committed value stays what it was. *)
Theorem committed_nop_reads_tombstone start commit :
  settled_answer (TxnIntent_with_put start None) (Some commit) = Some (Value_tombstone commit) ∧
  ∀ ks, ks_intent ks = Some (TxnIntent_with_put start None) → ks_committed (settle ks (Some commit)) = ks_committed ks.
Proof. split; [done|]. intros ks E. unfold settle. by rewrite E. Qed.

(** ** Reads through the remote latch manager *)

(** The intent a reader at [start] asks the latch manager about. *)
Definition intent_met (start : Z) (ks : key_state) : option TxnIntent :=
  match ks_intent ks with
  | Some ti => if ti_start_version ti <=? start then Some ti else None
  | None => None
  end.
(** The key when the reader gets its latch, after others may have worked on
    it: no version is lost, and none is added under the same intent. *)
Definition waited (ks : key_state) (ti : TxnIntent) (ks1 : key_state) : Prop :=
  match own_intent ks1 (ti_start_version ti) with
  | Some _ => ks_committed ks1 = ks_committed ks
  | None => sublist (ks_committed ks) (ks_committed ks1)
  end.

(** The fate the resolver goes by: that of the record, or, for a transaction
    that is alive, the one its intent channel tells. *)
Definition alive (rec : TxnRecord) (st : RState) : bool :=
  match tr_state rec with Running => negb (u64_add (tr_heartbeat rec) 500 <? clock st) | _ => false end.
Definition told (k : ShardKey) (s : Z) (rec : TxnRecord) (st : RState) : option Z :=
  if alive rec st then
    match (await_decision k s st).1 with (Committed, c) => Some c | _ => None end
  else outcome_of rec.

Lemma resolve_waits fuel k ti rec (st : RState) :
  get_txn_record tag_of (ti_start_version ti) st.1 = (Ok (Some rec), st.1) → alive rec st = true →
  (await_decision k (ti_start_version ti) st).1.1 ≠ Running →
  resolve (S fuel) k ti st =
    Some (Ok (settled_answer ti (told k (ti_start_version ti) rec st)), (await_decision k (ti_start_version ti) st).2).
Proof.
  destruct st as [tw ge]. cbn [fst]. intros Hget Hal Hsig. unfold told. rewrite Hal. unfold alive in Hal.
  destruct (tr_state rec) eqn:Est; [|done..]. apply negb_true_iff in Hal.
  cbn [guard_resolve]. unfold prog_bind, txn_fate, prog_bind, on_table, prog_lift, now. rewrite Hget.
  cbn [from_client ok_or]. rewrite Est, Hal.
  destruct (await_decision k (ti_start_version ti) (tw, ge)) as [[[] c] st'] eqn:Ea; cbn [fst snd] in *; [by destruct Hsig|done|].
  unfold settled_answer, Value_tombstone. by destruct (ti_is_delete ti).
Qed.

(** The shown versions are those of the settled key, the transaction having
    written something and committed above what was there. *)
Lemma shown_settled f start ks ti :
  ks_intent ks = Some ti → ti_start_version ti ≤ start → newest_first (ks_committed ks) →
  (∀ c v, f (ti_start_version ti) = Some c → head (ks_committed ks) = Some v → v_version v < c) →
  ti_is_delete ti = true ∨ ti_value ti ≠ None →
  shown f start (Some ti) (ks_committed ks) = ks_committed (settle ks (f (ti_start_version ti))).
Proof.
  intros Hi Hle Hs Hlt Hnop. unfold shown, settle. rewrite Hi, (proj2 (Z.leb_le _ _)) by done.
  destruct (f (ti_start_version ti)) as [c|] eqn:Ef; [|done]. cbn [settled_answer]. unfold resolved, intent_content.
  assert (∀ b, set_version c b (ks_committed ks) = mkValue b c :: ks_committed ks) as Hset.
  { intros b. destruct (ks_committed ks) as [|v vs]; [done|]. cbn. by rewrite (proj2 (Z.ltb_lt _ _) (Hlt c v eq_refl eq_refl)). }
  destruct (ti_is_delete ti); cbn [ks_committed]; [by rewrite Hset|].
  destruct Hnop as [?|Hv]; [done|]. destruct (ti_value ti) as [b|]; [|done]. cbn. by rewrite Hset.
Qed.

Lemma visible_none_sublist start vs1 vs2 :
  sublist vs1 vs2 → visible start vs2 = None → visible start vs1 = None.
Proof.
  induction 1 as [|v l1 l2 _ IH|v l1 l2 _ IH]; cbn; [done|..]; destruct (v_version v <=? start); done.
Qed.

Abbreviation remote_get fuel := (@get _ _ _ _ (remote_manager tag_of clock propose await_decision await_latch fuel) snd).

(** C12: a read at [start] of a key on a served shard that is not moving,
    through the remote latch manager.  Without an intent of a transaction that
    started at or before the reader it returns the newest version at or below
    [start] and changes nothing.  When it meets such an intent it waits for
    the latch of the row, during which no version of the key is lost ([waited]).
    If the intent is gone by then, it returns what is visible in the key it
    finds.  If it is still there, the transaction is taken as its readable
    record says (an expired one being aborted, for one that is alive as its
    intent channel tells), the intent is settled that way, and the read
    returns the newest version at or below [start] of the committed versions
    with the transaction's value on top.  That is what the settled key shows,
    except for a committed intent without a value that is no delete, for which
    the code answers a tombstone although settling it stores nothing; the
    transaction is taken to have committed above the stored versions. *)
Theorem get_snapshot_read n fuel ctx sid t key ks start (tw : TW) (ge : GroupEngine DB) :
  not_forwarded ctx sid → serves ge sid t → key ≠ [] → key_repr (ge_db ge) t key ks →
  match intent_met start ks with
  | None => remote_get (S fuel) ctx (mkShardGetRequest sid start key) (tw, ge) = (Ok (visible start (ks_committed ks)), (tw, ge))
  | Some ti =>
      ∀ tw1 ge1 ks1, await_latch (mkShardKey sid key) (tw, ge) = (tw1, ge1) →
      serves ge1 sid t → key_repr (ge_db ge1) t key ks1 → waited ks ti ks1 →
      match own_intent ks1 (ti_start_version ti) with
      | None => remote_get (S fuel) ctx (mkShardGetRequest sid start key) (tw, ge) = (Ok (visible start (ks_committed ks1)), (tw1, ge1))
      | Some ti1 =>
          ∀ rec, srv_inv (S n) tw1 → u64_ok (ti_start_version ti) →
          get_txn_record tag_of (ti_start_version ti) tw1 = (Ok (Some rec), tw1) →
          rec_state (record_at tag_of tw1 (ti_start_version ti)) = Some (txn_state_value (tr_state rec)) →
          (∀ c, outcome_of rec = Some c → u64_ok c ∧ c < TXN_INTENT_VERSION) →
          (await_decision (mkShardKey sid key) (ti_start_version ti) (tw1, ge1)).1.1 ≠ Running →
          let outcome := told (mkShardKey sid key) (ti_start_version ti) rec (tw1, ge1) in
          ∃ tw' ge', remote_get (S fuel) ctx (mkShardGetRequest sid start key) (tw, ge) =
              (Ok (visible start (shown (λ _, outcome) start (Some ti1) (ks_committed ks1))), (tw', ge')) ∧
            (alive rec (tw1, ge1) = false → settled_state ge1 ge' sid t key ks1 outcome) ∧
            (alive rec (tw1, ge1) = true → (tw', ge') = (await_decision (mkShardKey sid key) (ti_start_version ti) (tw1, ge1)).2) ∧
            ((∀ c v, outcome = Some c → head (ks_committed ks1) = Some v → v_version v < c) →
             ti_is_delete ti1 = true ∨ ti_value ti1 ≠ None →
             visible start (shown (λ _, outcome) start (Some ti1) (ks_committed ks1)) =
               visible start (ks_committed (settle ks1 outcome)))
      end
  end.
Proof.
  intros Hnf Hs Hne Hr. unfold get. cbn [sg_shard_id sg_user_key sg_start_version]. rewrite check_forward_ok by done.
  rewrite (read_key_repr snd sid t key ks start (tw, ge) Hs Hne Hr). unfold intent_met.
  destruct (ks_intent ks) as [ti|] eqn:Ei; [|done].
  destruct (Z.leb_spec (ti_start_version ti) start) as [Hle|Hgt]; [|done].
  intros tw1 ge1 ks1 Hl Hs1 Hr1 Hw. unfold mgr_resolve_txn, remote_manager.
  rewrite (manager_known (S fuel) sid t key ks1 start _ (tw, ge) tw1 ge1 Hs1 Hne Hr1 Hl).
  unfold waited in Hw. destruct (own_intent ks1 (ti_start_version ti)) as [ti1|] eqn:Eo.
  2: { destruct (visible start (ks_committed ks1)) as [v|] eqn:Ev.
       - apply find_some in Ev as [_ Ev]. by rewrite Ev.
       - by rewrite (visible_none_sublist _ _ _ Hw Ev). }
  apply own_intent_some in Eo as [Ei1 Es]. 
  intros rec Hi Hu Hget Hst Hc Hsig. rewrite <- Es in *. set (outcome := told _ _ rec _).
  assert (Hans : ∃ tw' ge', resolve (S fuel) (mkShardKey sid key) ti1 (tw1, ge1) = Some (Ok (settled_answer ti1 outcome), (tw', ge')) ∧
    (alive rec (tw1, ge1) = false → settled_state ge1 ge' sid t key ks1 outcome) ∧
    (alive rec (tw1, ge1) = true → (tw', ge') = (await_decision (mkShardKey sid key) (ti_start_version ti1) (tw1, ge1)).2)).
  { destruct (alive rec (tw1, ge1)) eqn:Ea.
    - rewrite (resolve_waits fuel _ _ rec) by done. unfold outcome. destruct (await_decision _ _ _).2 as [tw' ge'] eqn:E2.
      exists tw', ge'. by split_and!.
    - destruct (resolve_known n fuel sid t key ti1 ks1 rec tw1 ge1) as (tw' & ge' & E & Hset & _); try done.
      + intros Est. unfold alive in Ea. rewrite Est in Ea. apply negb_false_iff, Z.ltb_lt in Ea. exact Ea.
      + exists tw', ge'. unfold outcome, told. by rewrite Ea. }
  destruct Hans as (tw' & ge' & -> & Hset & Hwait). exists tw', ge'. split; [|split; [done|]; split; [done|]].
  - unfold shown. rewrite (proj2 (Z.leb_le _ _)) by done. rewrite Hw.
    destruct outcome as [c|]; cbn [settled_answer]; [|done]. unfold visible. cbn [List.find v_version]. by destruct (c <=? start).
  - intros Hlt Hnop. rewrite (shown_settled (λ _, outcome)); try done. by eapply key_repr_sorted.
Qed.

(** *** Scans *)
(** The record of [s] can be read and gives the fate [f]: committed with a
    version, aborted, or running and expired for good. *)
Definition known (tw : TW) (s : Z) (f : option Z) : Prop :=
  ∃ st hb h c, u64_ok s ∧ only_record_keys tag_of tw s ∧
    rec_state (record_at tag_of tw s) = Some (txn_state_value st) ∧
    rec_hb (record_at tag_of tw s) = Some hb ∧ decode_u64 hb = Some h ∧
    (match rec_commit (record_at tag_of tw s) with
     | Some cb => ∃ cv, decode_u64 cb = Some cv ∧ c = Some cv | None => c = None end) ∧
    (st = Running → ∀ rs, expired (mkTxnRecord s st h c) (clock rs)) ∧
    outcome_of (mkTxnRecord s st h c) = f ∧ (∀ cv, f = Some cv → u64_ok cv ∧ cv < TXN_INTENT_VERSION).

Lemma txn_state_value_inj st1 st2 : txn_state_value st1 = txn_state_value st2 → st1 = st2.
Proof. by destruct st1, st2. Qed.

Lemma known_after n s now (tw tw' : TW) s0 f :
  srv_inv (S n) tw → u64_ok s → u64_ok now → table_after n s now tw tw' → known tw s0 f → known tw' s0 f.
Proof.
  intros Hi Hs Hnow [Hi' [->|[Hrun ->]]] Hk; [done|]. destruct Hk as (st & hb & h & c & Hs0 & Ho & Hst & Hhb & Hh & Hc & Hx & Hf & Hb).
  pose proof (run_op_record_keys_any tag_of n (OAbort now s) tw s0 Hi Hs Hs0 Ho) as Ho'.
  destruct (abort_refined tag_of n now s tw Hi Hs) as (tw' & E & _ & Hr & Hoth). cbn [op_txn] in *.
  rewrite E in *. cbn [snd] in *. destruct (decide (s0 = s)) as [->|Hne].
  - cbn [spec_op] in Hr. rewrite Hrun in Hr. rewrite (proj2 (bytes_eqb_eq _ _)) in Hr by done. cbn [snd] in Hr.
    rewrite Hst in Hrun. apply (inj Some) in Hrun. apply (txn_state_value_inj st Running) in Hrun as ->.
    exists Aborted, (txn_u64_value now), now, c. unfold known. rewrite Hr. cbn [rec_state rec_hb rec_commit].
    split_and!; try done. by apply decode_u64_encode.
  - exists st, hb, h, c. by rewrite Hoth by done.
Qed.

(** Worlds in the middle of a scan of [ge0]: the keys the manager was not
    asked about are as they were, and fates known at the start are known. *)
Definition mid_scan (tw0 : TW) (ge0 : GroupEngine DB) (sid t : Z) (n : nat) (asked : list bytes) (st : RState) : Prop :=
  srv_inv n st.1 ∧ serves st.2 sid t ∧ (∀ s f, known tw0 s f → known st.1 s f) ∧
  ∀ key ks, key ≠ [] → key ∉ asked → key_repr (ge_db ge0) t key ks → key_repr (ge_db st.2) t key ks.

Lemma mid_scan_resolves (tw0 : TW) (ge0 : GroupEngine DB) sid t fuel n asked key ks ti start fate st :
  (∀ rs, u64_ok (clock rs)) → (∀ k rs, await_latch k rs = rs) →
  key ≠ [] → key_repr (ge_db ge0) t key ks → ks_intent ks = Some ti →
  known tw0 (ti_start_version ti) (fate (ti_start_version ti)) →
  mid_scan tw0 ge0 sid t (S n) asked st → key ∉ asked →
  ∃ st', @mgr_resolve_txn _ (remote_manager tag_of clock propose await_decision await_latch (S fuel))
      st sid key start (ti_start_version ti) = (Ok (settled_answer ti (fate (ti_start_version ti))), st') ∧
    mid_scan tw0 ge0 sid t n (key :: asked) st'.
Proof.
  intros Hclk Hlatch Hne Hr Hti Hk (Hi & Hs & Hknown & Hkeys) Hask. destruct st as [tw ge]. cbn [fst snd] in *.
  pose proof (Hknown _ _ Hk) as Hk1. destruct Hk1 as (d & hb & h & c & Hu & Ho & Hst & Hhb & Hh & Hc & Hx & Hf & Hb).
  pose proof (Hkeys key ks Hne Hask Hr) as Hr1.
  destruct (resolve_known n fuel sid t key ti ks (mkTxnRecord (ti_start_version ti) d h c) tw ge)
    as (tw' & ge' & E & (Hs' & _ & Hoth) & _ & Ha); try done.
  - by apply (get_record_spec tag_of (S n) tw _ d hb h c).
  - intros Hrun. by apply Hx.
  - by rewrite Hf.
  - exists (tw', ge'). rewrite Hf in E. unfold mgr_resolve_txn, remote_manager.
    rewrite (manager_known (S fuel) sid t key ks start _ (tw, ge) tw ge) by done.
    unfold own_intent. rewrite Hti, Z.eqb_refl, E. split; [done|]. split; [by destruct Ha|]. split; [done|]. split.
    + intros s f Hs0%Hknown. eapply (known_after n (ti_start_version ti) (clock (tw, ge)) tw); [done|done|apply Hclk|exact Ha|done].
    + intros key' ks' Hne' [Hn' Ha']%not_elem_of_cons Hr'. apply Hoth; [done..|]. by apply Hkeys.
Qed.

(** C13: an unlimited scan of a served shard that is not moving, through the
    remote latch manager, returns, in key order and each once, exactly the
    keys of the requested range that have something to show at the reader's
    timestamp: the newest shown version when it is not a tombstone, or, in raw
    mode, every shown version.  Shown are the committed versions and, for an
    intent of a transaction that started at or before the reader, the value
    the transaction commits if its record says so; every such record is
    readable and decided or expired for good, and the row latches are free.
    As for a read, that is what the settled key holds ([shown_settled]) except
    for committed intents without a value, which count as tombstones.  When
    the request ignores intents they are taken as stored, without conditions:
    raw mode at the maximal timestamp is then the scan that copies a moving
    shard, and misses no version of any key. *)
Theorem scan_exact n fuel ctx req sid t desc fate (tw : TW) (ge : GroupEngine DB) :
  ss_limit req = 0 → ss_limit_bytes req = 0 → scan_forward ctx req = Ok None → ss_shard_id req = sid →
  serves ge sid t → gc_shard_descs (ge_core ge) !! sid = Some desc →
  ss_ignore_txn_intent req = true ∨
    (∀ k vs, k ≠ [] → is_versions (ge_db ge) t k vs → ∃ ks, vs = intent_row (ks_intent ks) ++ ks_committed ks ∧
       committed_ok (ks_committed ks) ∧
       ∀ ti, intent_met (ss_start_version req) ks = Some ti → known tw (ti_start_version ti) (fate (ti_start_version ti))) →
  (∀ rs, u64_ok (clock rs)) → (∀ k rs, await_latch k rs = rs) →
  (∀ s, ge_snapshot ge sid (scan_request req).2 = Ok s → items_left s < n)%nat → srv_inv n tw →
  ∃ data tw' ge', @scan _ _ _ _ (remote_manager tag_of clock propose await_decision await_latch (S fuel)) snd ctx req (tw, ge) =
      (Ok (mkShardScanResponse data false), (tw', ge')) ∧
    StronglySorted (λ a b, bytes_lt (vs_user_key a) (vs_user_key b)) data ∧
    ∀ k vals, mkValueSet k vals ∈ data ↔
      k ≠ [] ∧ asks_for req desc k = true ∧ vals ≠ [] ∧
      ∃ vs, is_versions (ge_db ge) t k vs ∧ vals = wanted_values req (viewed fate req vs).
Proof.
  intros Hl Hb Hfw Hsid Hs Hd Hrd Hclk Hlatch Hn Hi.
  pose proof Hs as (Hwf & Ht & desc' & Hd' & Htd). rewrite Hd in Hd'. injection Hd' as <-.
  destruct (@scan_exact_view DB _ _ _ _ RState (remote_manager tag_of clock propose await_decision await_latch (S fuel)) snd fate
    (mid_scan tw ge sid t) n ctx req sid t desc (tw, ge)) as (data & [tw' ge'] & n' & asked & E & _ & Hsort & Hdata); try done.
  - intros k vs Hk Hv. destruct Hrd as [?|Hrd]; [by left|right].
    destruct (Hrd k vs Hk Hv) as (ks & -> & Hc & Hkn). exists (ks_intent ks), (ks_committed ks). split; [done|]. split; [done|].
    intros ti Hti Hle n0 asked w Hm Hask. rewrite Hsid. eapply mid_scan_resolves; try done.
    apply Hkn. unfold intent_met. by rewrite Hti, (proj2 (Z.leb_le _ _)).
  - by exists data, tw', ge'.
Qed.

End ResolveProps.

(** ** A committed transaction met by a reader *)
Definition decided_ops : list vop :=
  [VSet (commit_key sample_tag 20) 3 (Some (txn_u64_value 25));
   VSet (hb_key sample_tag 20) 3 (Some (txn_u64_value 10));
   VSet (state_key sample_tag 20) 3 (Some (txn_state_value Committed))].
Definition decided_record : TxnRecord := mkTxnRecord 20 Committed 10 (Some 25).
Definition sample_propose (er : EvalResult) (ge : sample_world) : Result unit * sample_world :=
  match apply_eval ge (Some er) with Ok ge' => (Ok tt, ge') | Err e => (Err e, ge) | Panic => (Panic, ge) end.
Definition sample_await (k : ShardKey) (s : Z) (st : sample_world * sample_world) := ((Aborted, 0), st).
Definition sample_state : sample_world * sample_world := (sample_engine decided_ops, sample_engine locked_ops).

Lemma sample_propose_applies er ge ge' : apply_eval ge (Some er) = Ok ge' → sample_propose er ge = (Ok tt, ge').
Proof. unfold sample_propose. by intros ->. Qed.
Lemma decided_inv : srv_inv 1 (sample_engine decided_ops).
Proof. by apply sample_inv; repeat constructor. Qed.
Lemma decided_at : record_at sample_tag (sample_engine decided_ops) 20 =
  mkRecord (Some (txn_state_value Committed)) (Some (txn_u64_value 25)) (Some (txn_u64_value 10)).
Proof.
  unfold record_at. destruct (record_key_ne sample_tag 20) as (? & ? & ?). by rewrite !sample_content.
Qed.
Lemma decided_only : only_record_keys sample_tag (sample_engine decided_ops) 20.
Proof.
  intros k Hpre Hc. rewrite sample_content in Hc; [|done|intros ->; discriminate Hpre].
  cbn [fold_left decided_ops] in Hc. unfold vop_apply in Hc. cbn [vop_key] in Hc.
  repeat case_bool_decide; auto. done.
Qed.
Lemma decided_get : get_txn_record sample_tag 20 (sample_engine decided_ops) = (Ok (Some decided_record), sample_engine decided_ops).
Proof.
  apply (get_record_spec sample_tag 1 _ 20 Committed (txn_u64_value 10) 10 (Some 25) decided_inv);
    [by vm_compute|apply decided_only|by rewrite decided_at|by rewrite decided_at|by vm_compute|].
  rewrite decided_at. cbn [rec_commit]. exists 25. by vm_compute.
Qed.

Lemma resolve_settles_witness :
  ∃ tw' ge', guard_resolve sample_tag (λ _, 0) sample_propose sample_await 1 (mkShardKey 1 key_a) sample_intent sample_state =
      Some (Ok (Some (mkValue (Some val_x) 25)), (tw', ge')) ∧
    key_repr (ge_db ge') sample_table key_a (settle locked_state (Some 25)).
Proof.
  destruct (resolve_settles sample_tag (λ _, 0) sample_propose sample_await sample_propose_applies 0 0 1 sample_table
    key_a sample_intent locked_state decided_record (sample_engine decided_ops) (sample_engine locked_ops) decided_inv)
    as (tw' & ge' & E & (_ & Hr & _) & _).
  - by vm_compute.
  - exact decided_get.
  - exact (f_equal rec_state decided_at).
  - done.
  - intros c [= <-]. by vm_compute.
  - by apply sample_serves.
  - done.
  - exact sample_locked.
  - done.
  - exists tw', ge'. split; [exact E|exact Hr].
Defined.

Lemma sample_record_spec : get_txn_record sample_tag 20 (sample_engine decided_ops) = (Ok (Some decided_record), sample_engine decided_ops) ∧
  rec_state (record_at sample_tag (sample_engine decided_ops) 20) = Some (txn_state_value Committed).
Proof. split; [exact decided_get|exact (f_equal rec_state decided_at)]. Qed.

Lemma get_snapshot_read_witness :
  ∃ tw' ge', @get _ _ _ _ (remote_manager sample_tag (λ _, 0) sample_propose sample_await (λ _ st, st) 1) snd
      ExecCtx_default (mkShardGetRequest 1 30 key_a) sample_state = (Ok (Some (mkValue (Some val_x) 25)), (tw', ge')) ∧
    key_repr (ge_db ge') sample_table key_a (settle locked_state (Some 25)).
Proof.
  destruct (get_snapshot_read sample_tag (λ _, 0) sample_propose sample_await (λ _ st, st) sample_propose_applies 0 0
    ExecCtx_default 1 sample_table key_a locked_state 30 (sample_engine decided_ops) (sample_engine locked_ops) I
    (sample_serves locked_ops ltac:(done)) ltac:(done) sample_locked
    (sample_engine decided_ops) (sample_engine locked_ops) locked_state eq_refl
    (sample_serves locked_ops ltac:(done)) sample_locked eq_refl decided_record decided_inv)
    as (tw' & ge' & E & Hset & _).
  - by vm_compute.
  - apply sample_record_spec.
  - apply sample_record_spec.
  - intros c [= <-]. by vm_compute.
  - done.
  - exists tw', ge'. split; [exact E|]. by destruct (Hset eq_refl) as (_ & ? & _).
Defined.

(** A scan that meets the same transaction. *)
Definition txn_scan : ShardScanRequest :=
  mkShardScanRequest 1 30 0 0 false false None None None false false false.

Lemma decided_known : known sample_tag (λ _, 0) (TW := sample_world) (DB := gmap bytes bytes) (sample_engine decided_ops) 20 (Some 25).
Proof.
  exists Committed, (txn_u64_value 10), 10, (Some 25). rewrite decided_at. split_and!; try done.
  - apply decided_only.
  - by exists 25.
  - intros cv [= <-]. by vm_compute.
Qed.

Lemma locked_keys k vs :
  k ≠ [] → is_versions (ge_db (sample_engine locked_ops)) sample_table k vs →
  ∃ ks, vs = intent_row (ks_intent ks) ++ ks_committed ks ∧ committed_ok (ks_committed ks) ∧
    ∀ ti, intent_met 30 ks = Some ti → ti = sample_intent.
Proof.
  intros Hk Hv. rewrite (is_versions_unique _ _ _ _ _ Hv (sample_versions locked_ops k ltac:(done) Hk)).
  destruct (decide (k = key_a)) as [->|Ha]; [|destruct (decide (k = key_b)) as [->|Hb]].
  - exists locked_state. split; [done|]. split; [by repeat constructor|]. by intros ti [= <-].
  - exists (mkKeyState None [mkValue None 7]). split; [done|]. split; [by repeat constructor|done].
  - exists (mkKeyState None []). unfold locked_ops, sample_ops. cbn [app fold_left]. unfold vop_apply. cbn [vop_key].
    rewrite !bool_decide_false by done. split; [done|]. split; [constructor|done].
Qed.

Lemma locked_items s : ge_snapshot (sample_engine locked_ops) 1 (scan_request txn_scan).2 = Ok s → (items_left s < 9)%nat.
Proof.
  assert ((match ge_snapshot (sample_engine locked_ops) 1 (scan_request txn_scan).2 with
          | Ok s => Nat.ltb (items_left s) 9 | _ => true end) = true) as E by (by vm_compute).
  intros Hs. rewrite Hs in E. by apply Nat.ltb_lt.
Qed.

Lemma scan_exact_witness :
  ∃ data tw' ge', @scan _ _ _ _ (remote_manager sample_tag (λ _, 0) sample_propose sample_await (λ _ st, st) 1) snd
      ExecCtx_default txn_scan sample_state = (Ok (mkShardScanResponse data false), (tw', ge')) ∧
    mkValueSet key_a [mkValue (Some val_x) 25] ∈ data.
Proof.
  destruct (scan_exact sample_tag (λ _, 0) sample_propose sample_await (λ _ st, st) sample_propose_applies 9 0
    ExecCtx_default txn_scan 1 sample_table sample_shard (λ _, Some 25) (sample_engine decided_ops) (sample_engine locked_ops)
    eq_refl eq_refl eq_refl eq_refl (sample_serves locked_ops eq_refl) eq_refl) as (data & tw' & ge' & E & _ & Hdata).
  - right. intros k vs Hk Hv. destruct (locked_keys k vs Hk Hv) as (ks & ? & ? & Hti). exists ks. split; [done|]. split; [done|].
    intros ti ->%Hti. exact decided_known.
  - intros rs. by vm_compute.
  - reflexivity.
  - exact locked_items.
  - by apply sample_inv; repeat constructor.
  - exists data, tw', ge'. split; [exact E|]. apply Hdata. split; [discriminate|]. split; [reflexivity|]. split; [discriminate|].
    eexists. split; [exact (sample_versions locked_ops key_a eq_refl ltac:(discriminate))|]. reflexivity.
Defined.
