(* ===== verification/Fsm.v ===== *)
(** * The replicated state machine of a group ([server/src/replica/fsm/mod.rs])

    Raft hands over committed entries in order; the state machine stages their
    write batches and metadata changes between [start_plug] and [finish_plug],
    and commits them to the group engine at once.  Metadata changes: replica
    configuration (simple and joint), shards added, split, merged and moved.
    Watchers of keys and the observer of metadata are told afterwards.

    A debug assertion is not part of the release program and is left out; an
    [assert!], [expect], [todo!] or [unreachable!] is a panic. *)

From S2P Require Import Prelude Bytes Api Schema RocksDb Keys Engine.

(** ** Descriptors *)
Definition find_replica (desc : GroupDesc) (replica_id : Z) : option ReplicaDesc :=
  List.find (λ rep, rd_id rep =? replica_id) (gd_replicas desc).
(** Writing the role through [find_replica_mut]. *)
Definition set_role (desc : GroupDesc) (replica_id role : Z) : GroupDesc :=
  set_replicas desc (update_first (λ rep, rd_id rep =? replica_id)
    (λ rep, mkReplicaDesc (rd_id rep) (rd_node_id rep) role) (gd_replicas desc)).
Definition push_replica (desc : GroupDesc) (rep : ReplicaDesc) : GroupDesc :=
  set_replicas desc (gd_replicas desc ++ [rep]).
Definition push_shard (desc : GroupDesc) (s : ShardDesc) : GroupDesc :=
  set_shards desc (gd_shards desc ++ [s]).

Definition check_not_in_joint_state (exist : option ReplicaDesc) : Result unit :=
  match default Voter (exist ≫= λ rep, ReplicaRole_from_i32 (rd_role rep)) with
  | IncomingVoter | DemotingVoter => Panic
  | _ => Ok tt
  end.

Definition apply_simple_change (desc : GroupDesc) (change : ChangeReplica) : Result GroupDesc :=
  let replica_id := cr_replica_id change in
  let exist := find_replica desc replica_id in
  do? check_not_in_joint_state exist in
  match ChangeReplicaType_from_i32 (cr_change_type change) with
  | Some CRAdd =>
      Ok match exist with
         | Some _ => set_role desc replica_id (ReplicaRole_i32 Voter)
         | None => push_replica desc (mkReplicaDesc replica_id (cr_node_id change) (ReplicaRole_i32 Voter))
         end
  | Some CRAddLearner =>
      Ok match exist with
         | Some _ => set_role desc replica_id (ReplicaRole_i32 Learner)
         | None => push_replica desc (mkReplicaDesc replica_id (cr_node_id change) (ReplicaRole_i32 Learner))
         end
  | Some CRRemove => Ok (set_replicas desc (List.filter (λ rep, negb (rd_id rep =? replica_id)) (gd_replicas desc)))
  | None => Panic
  end.

(** One change of [apply_enter_joint], with the learners to remove. *)
Definition enter_joint_change (desc : GroupDesc) (outgoing_learners : gset Z) (change : ChangeReplica) :
    Result (GroupDesc * gset Z) :=
  let replica_id := cr_replica_id change in
  let exist := find_replica desc replica_id in
  do? check_not_in_joint_state exist in
  let exist_role := exist ≫= λ r, ReplicaRole_from_i32 (rd_role r) in
  let? ty := expect (ChangeReplicaType_from_i32 (cr_change_type change)) in
  match exist_role, ty with
  | Some Learner, CRAdd => Ok (set_role desc replica_id (ReplicaRole_i32 IncomingVoter), outgoing_learners)
  | Some Voter, CRAddLearner => Ok (set_role desc replica_id (ReplicaRole_i32 DemotingVoter), outgoing_learners)
  | Some Voter, CRRemove => Ok (set_role desc replica_id (ReplicaRole_i32 DemotingVoter), outgoing_learners)
  | None, CRAdd =>
      Ok (push_replica desc (mkReplicaDesc replica_id (cr_node_id change) (ReplicaRole_i32 IncomingVoter)), outgoing_learners)
  | None, CRAddLearner =>
      Ok (push_replica desc (mkReplicaDesc replica_id (cr_node_id change) (ReplicaRole_i32 Learner)), outgoing_learners)
  | Some Learner, CRRemove => Ok (desc, {[ replica_id ]} ∪ outgoing_learners)
  | Some Voter, CRAdd | Some Learner, CRAddLearner | None, CRRemove => Ok (desc, outgoing_learners)
  | _, _ => Panic
  end.
Fixpoint enter_joint_changes (desc : GroupDesc) (outgoing_learners : gset Z) (changes : list ChangeReplica) :
    Result (GroupDesc * gset Z) :=
  match changes with
  | [] => Ok (desc, outgoing_learners)
  | change :: changes' =>
      let? '(desc', out') := enter_joint_change desc outgoing_learners change in
      enter_joint_changes desc' out' changes'
  end.
Definition apply_enter_joint (desc : GroupDesc) (changes : list ChangeReplica) : Result GroupDesc :=
  let? '(desc', out) := enter_joint_changes desc ∅ changes in
  Ok (set_replicas desc' (List.filter (λ r, negb (bool_decide (rd_id r ∈ out))) (gd_replicas desc'))).

Definition leave_joint_role (r : ReplicaDesc) : ReplicaDesc :=
  match ReplicaRole_from_i32 (rd_role r) with
  | Some IncomingVoter => mkReplicaDesc (rd_id r) (rd_node_id r) (ReplicaRole_i32 Voter)
  | Some DemotingVoter => mkReplicaDesc (rd_id r) (rd_node_id r) (ReplicaRole_i32 Learner)
  | _ => r
  end.
Definition apply_leave_joint (desc : GroupDesc) : GroupDesc :=
  set_replicas desc (map leave_joint_role (gd_replicas desc)).

Inductive ChangeReplicaKind := Simple | EnterJoint | LeaveJoint.
Definition ChangeReplicaKind_new (cc : ChangeReplicas) : ChangeReplicaKind :=
  match length cc with 0%nat => LeaveJoint | 1%nat => Simple | _ => EnterJoint end.

(** The free function [apply_split_shard]. *)
Definition apply_split_shard (desc : GroupDesc) (sp : SplitShard) : Result GroupDesc :=
  let? old_shard := ok_or (shard desc (sp_old_shard_id sp)) (InvalidData "apply split shard but old shard is not exists") in
  match sd_range old_shard with
  | None => Err (InvalidData "shard desc range fields is missing")
  | Some r =>
      if negb (belong_to old_shard (sp_split_key sp))
      then Err (InvalidData "the split shard key is not belong to the old shard range")
      else
        let new_shard := ShardDesc_with_range (sp_new_shard_id sp) (sd_table_id old_shard) (sp_split_key sp) (rp_end r) in
        let old_range := mkRange (rp_start r) (sp_split_key sp) in
        let desc1 := shard_mut desc (sp_old_shard_id sp)
          (λ s, mkShardDesc (sd_id s) (sd_table_id s) (Some old_range)) in
        let desc2 := push_shard desc1 new_shard in
        Ok (set_epoch desc2 (apply_shard_delta (gd_epoch desc2)))
  end.

(** The free function [apply_merge_shard]. *)
Definition apply_merge_shard (desc : GroupDesc) (mg : MergeShard) : Result GroupDesc :=
  let? left_shard := ok_or (shard desc (mg_left_shard_id mg)) (InvalidData "apply merge shard but left shard is not exists") in
  let? right_shard := ok_or (shard desc (mg_right_shard_id mg)) (InvalidData "apply merge shard but right shard is not exists") in
  if negb (sd_table_id left_shard =? sd_table_id right_shard)
  then Err (InvalidData "apply merge shard but two shard from different table")
  else
    match sd_range left_shard with
    | None => Err (InvalidData "apply merge shard but left shard range is missing")
    | Some l =>
        match sd_range right_shard with
        | None => Err (InvalidData "apply merge shard but right shard range is missing")
        | Some r =>
            if negb (bytes_eqb (rp_end l) (rp_start r))
            then Err (InvalidData "the left shard is not mergeable with right shard")
            else
              let new_shard := ShardDesc_with_range (sd_id left_shard) (sd_table_id left_shard) (rp_start l) (rp_end r) in
              let desc1 := drop_shard (drop_shard desc (mg_left_shard_id mg)) (mg_right_shard_id mg) in
              let desc2 := push_shard desc1 new_shard in
              Ok (set_epoch desc2 (apply_shard_delta (gd_epoch desc2)))
        end
    end.

(** ** Observers and watchers *)

(** The trait [StateMachineObserver]. *)
Class StateMachineObserver (O : Type) := {
  on_descriptor_updated : GroupDesc → O → O;
  on_term_updated : Z → O → O;
  on_move_shard_state_updated : option MoveShardState → O → O;
}.

Record WatchEvent := mkWatchEvent { we_version : Z; we_key : bytes; we_value : option bytes }.
(** The sending end of a watcher's channel; [None] when it is closed. *)
Class WatchTrigger (T : Type) := { start_send : T → WatchEvent → option T }.

(** Registrations not yet looked at, and the watchers of each key. *)
Record WatchHub (T : Type) := mkWatchHub {
  wh_receivers : list ((Z * bytes) * T); wh_watchers : gmap bytes (list T) }.
Arguments mkWatchHub {T} _ _.
Arguments wh_receivers {T} _.
Arguments wh_watchers {T} _.

Fixpoint register_events {T} (desc : GroupDesc) (events : list ((Z * bytes) * T)) (watchers : gmap bytes (list T)) :
    gmap bytes (list T) :=
  match events with
  | [] => watchers
  | ((shard_id, user_key), trigger) :: events' =>
      register_events desc events'
        match shard desc shard_id with
        | None => watchers
        | Some s =>
            if negb (belong_to s user_key) then watchers
            else <[user_key := default [] (watchers !! user_key) ++ [trigger]]> watchers
        end
  end.
Definition handle_register_events {T} (hub : WatchHub T) (desc : GroupDesc) : WatchHub T :=
  mkWatchHub [] (register_events desc (wh_receivers hub) (wh_watchers hub)).

(** [WriteBatchIterator for GroupStateMachine]: a put fires the watchers of
    its key, deletes are not looked at. *)
Definition hub_op {T} `{WatchTrigger T} (watchers : gmap bytes (list T)) (op : batch_op) : Result (gmap bytes (list T)) :=
  match op with
  | BatchDelete _ => Ok watchers
  | BatchPut key value =>
      let? entry := MvccEntry_new key value in
      match watchers !! me_user_key entry with
      | None => Ok watchers
      | Some [] => Ok (delete (me_user_key entry) watchers)
      | Some senders =>
          let? v := entry_value entry in
          let event := mkWatchEvent (entry_version entry) (me_user_key entry) v in
          match omap (λ sender, start_send sender event) senders with
          | [] => Ok (delete (me_user_key entry) watchers)
          | senders' => Ok (<[me_user_key entry := senders']> watchers)
          end
      end
  end.
Fixpoint hub_ops {T} `{WatchTrigger T} (watchers : gmap bytes (list T)) (ops : list batch_op) : Result (gmap bytes (list T)) :=
  match ops with
  | [] => Ok watchers
  | op :: ops' => let? watchers' := hub_op watchers op in hub_ops watchers' ops'
  end.

(** ** The state machine *)
Inductive ApplyEntry :=
  | Empty
  | ConfigChange (change_replicas : ChangeReplicas)
  | Proposal (eval_result : EvalResult).

Section Fsm.
  Context {DB : Type} `{RocksDb DB} `{Codec EntryId} `{Codec GroupDesc} `{Codec MoveShardState} `{Codec WriteBatch}.
  Context {O T : Type} `{StateMachineObserver O} `{WatchTrigger T}.

Record GroupStateMachine := mkFsm {
  f_group_engine : GroupEngine DB;
  f_observer : O;
  f_watch_hub : WatchHub T;
  f_plugged_write_batches : list WriteBatch;
  f_plugged_write_states : WriteStates;
  f_move_out_shards : gmap Z ShardDesc;
  f_desc_updated : bool;
  f_move_shard_state_updated : bool;
  f_last_applied_term : Z }.

Definition fsm_new (ge : GroupEngine DB) (observer : O) (hub : WatchHub T) : Result GroupStateMachine :=
  match flushed_apply_state (ge_db ge) with
  | Ok apply_state => Ok (mkFsm ge observer hub [] WriteStates_default ∅ false false (ei_term apply_state))
  | _ => Panic
  end.

(** The descriptor and the move-shard state with the staged changes. *)
Definition fsm_descriptor (f : GroupStateMachine) : GroupDesc :=
  default (ge_descriptor (f_group_engine f)) (ws_descriptor (f_plugged_write_states f)).
Definition must_move_shard_state (f : GroupStateMachine) : Result MoveShardState :=
  match ws_move_shard_state (f_plugged_write_states f) with
  | Some st => Ok st
  | None => expect (ge_move_shard_state (f_group_engine f))
  end.

(** Field updates. *)
Definition plug_batch (wb : WriteBatch) (f : GroupStateMachine) : GroupStateMachine :=
  mkFsm (f_group_engine f) (f_observer f) (f_watch_hub f) (f_plugged_write_batches f ++ [wb]) (f_plugged_write_states f)
    (f_move_out_shards f) (f_desc_updated f) (f_move_shard_state_updated f) (f_last_applied_term f).
Definition plug_states (ws : WriteStates) (f : GroupStateMachine) : GroupStateMachine :=
  mkFsm (f_group_engine f) (f_observer f) (f_watch_hub f) (f_plugged_write_batches f) ws
    (f_move_out_shards f) (f_desc_updated f) (f_move_shard_state_updated f) (f_last_applied_term f).
Definition plug_descriptor (desc : GroupDesc) (f : GroupStateMachine) : GroupStateMachine :=
  let ws := f_plugged_write_states f in
  plug_states (mkWriteStates (ws_apply_state ws) (Some desc) (ws_move_shard_state ws)) f.
Definition plug_move_state (st : MoveShardState) (updated : bool) (f : GroupStateMachine) : GroupStateMachine :=
  let ws := f_plugged_write_states f in
  mkFsm (f_group_engine f) (f_observer f) (f_watch_hub f) (f_plugged_write_batches f)
    (mkWriteStates (ws_apply_state ws) (ws_descriptor ws) (Some st))
    (f_move_out_shards f) (f_desc_updated f) (f_move_shard_state_updated f || updated) (f_last_applied_term f).
Definition mark_desc_updated (f : GroupStateMachine) : GroupStateMachine :=
  mkFsm (f_group_engine f) (f_observer f) (f_watch_hub f) (f_plugged_write_batches f) (f_plugged_write_states f)
    (f_move_out_shards f) true (f_move_shard_state_updated f) (f_last_applied_term f).
Definition move_out_shard (s : ShardDesc) (f : GroupStateMachine) : GroupStateMachine :=
  mkFsm (f_group_engine f) (f_observer f) (f_watch_hub f) (f_plugged_write_batches f) (f_plugged_write_states f)
    (<[sd_id s := s]> (f_move_out_shards f)) (f_desc_updated f) (f_move_shard_state_updated f) (f_last_applied_term f).

Definition apply_change_replicas (cc : ChangeReplicas) (f : GroupStateMachine) : Result GroupStateMachine :=
  let desc := fsm_descriptor f in
  let? desc' :=
    match ChangeReplicaKind_new cc with
    | LeaveJoint => Ok (apply_leave_joint desc)
    | EnterJoint => apply_enter_joint desc cc
    | Simple => match cc with change :: _ => apply_simple_change desc change | [] => Panic end
    end in
  Ok (plug_descriptor (set_epoch desc' (apply_config_delta (gd_epoch desc'))) (mark_desc_updated f)).

(** [apply_moving_shard]: the shard changes hands and both sides get an epoch
    above everything they have seen. *)
Definition apply_moving_shard (group_desc : GroupDesc) (desc : MoveShardDesc) (f : GroupStateMachine) :
    Result (GroupDesc * GroupStateMachine) :=
  let? shard_desc := get_shard_desc desc in
  let inherited_epoch := Z.max (md_src_group_epoch desc) (md_dest_group_epoch desc) in
  let inherited_epoch := Z.max (gd_epoch group_desc) inherited_epoch in
  let g := set_epoch group_desc (apply_shard_delta inherited_epoch) in
  if md_src_group_id desc =? gd_id g then
    Ok (drop_shard g (sd_id shard_desc), mark_desc_updated (move_out_shard shard_desc f))
  else Ok (push_shard g shard_desc, mark_desc_updated f).

Definition set_step (st : MoveShardState) (step : MoveShardStep) : MoveShardState :=
  mkMoveShardState (mss_move_shard st) (mss_last_moved_key st) (MoveShardStep_i32 step).

Definition apply_move_shard_event (ms : MoveShard) (group_desc : GroupDesc) (f : GroupStateMachine) :
    Result (GroupDesc * GroupStateMachine) :=
  let? event := expect (MoveShardEvent_from_i32 (ms_event ms)) in
  match event with
  | Setup =>
      match ms_desc ms with
      | None => Ok (group_desc, f)
      | Some desc =>
          Ok (group_desc, plug_move_state (mkMoveShardState (Some desc) None (MoveShardStep_i32 Prepare)) true f)
      end
  | Ingest =>
      let? state := must_move_shard_state f in
      let prepare := mss_step state =? MoveShardStep_i32 Prepare in
      let state := if prepare then set_step state Moving else state in
      Ok (group_desc,
          plug_move_state (mkMoveShardState (mss_move_shard state) (Some (ms_last_ingested_key ms)) (mss_step state)) prepare f)
  | Commit =>
      let? state := must_move_shard_state f in
      Ok (group_desc, plug_move_state (set_step state Moved) true f)
  | Apply =>
      let? state := must_move_shard_state f in
      let? desc := get_move_shard_desc state in
      let? '(group_desc', f') := apply_moving_shard group_desc desc f in
      Ok (group_desc', plug_move_state (set_step state Finished) true f')
  | Abort =>
      let? state := must_move_shard_state f in
      Ok (group_desc, plug_move_state (set_step state MAborted) true f)
  end.

(** The part of [apply_proposal] that executes a [SyncOp] on the descriptor. *)
Definition apply_sync_op (op : SyncOp) (desc : GroupDesc) (f : GroupStateMachine) :
    Result (GroupDesc * GroupStateMachine) :=
  let? '(desc, f) :=
    match so_add_shard op with
    | Some (Some s) =>
        if existsb (λ existed, sd_id existed =? sd_id s) (gd_shards desc) then Panic
        else Ok (push_shard (set_epoch desc (apply_shard_delta (gd_epoch desc))) s, mark_desc_updated f)
    | _ => Ok (desc, f)
    end in
  let? '(desc, f) :=
    match so_move_shard op with Some m => apply_move_shard_event m desc f | None => Ok (desc, f) end in
  let? '(desc, f) :=
    match so_split_shard op with
    | Some sp => let? desc := apply_split_shard desc sp in Ok (desc, mark_desc_updated f)
    | None => Ok (desc, f)
    end in
  match so_merge_shard op with
  | Some mg => let? desc := apply_merge_shard desc mg in Ok (desc, mark_desc_updated f)
  | None => Ok (desc, f)
  end.

Definition apply_proposal (er : EvalResult) (f : GroupStateMachine) : Result GroupStateMachine :=
  let? f :=
    match er_batch er with
    | Some data => let? wb := ok_or (decode_msg data) (RocksDbError "write batch") in Ok (plug_batch wb f)
    | None => Ok f
    end in
  match er_op er with
  | None => Ok f
  | Some op =>
      let? '(desc, f) := apply_sync_op op (fsm_descriptor f) f in
      Ok (plug_descriptor desc f)
  end.

Definition start_plug (f : GroupStateMachine) : Result unit :=
  match f_plugged_write_batches f, ws_apply_state (f_plugged_write_states f) with
  | [], None => Ok tt
  | _, _ => Panic
  end.

Definition apply (index term : Z) (entry : ApplyEntry) (f : GroupStateMachine) : Result GroupStateMachine :=
  let? f :=
    match entry with
    | Empty => Ok f
    | ConfigChange cc => apply_change_replicas cc f
    | Proposal er => apply_proposal er f
    end in
  let ws := f_plugged_write_states f in
  Ok (plug_states (mkWriteStates (Some (mkEntryId index term)) (ws_descriptor ws) (ws_move_shard_state ws)) f).

Definition trigger_updation_watchers (f : GroupStateMachine) : Result GroupStateMachine :=
  let hub := handle_register_events (f_watch_hub f) (ge_descriptor (f_group_engine f)) in
  let? watchers := hub_ops (wh_watchers hub) (concat (f_plugged_write_batches f)) in
  let watchers := filter (λ kv : bytes * list T,
    forallb (λ s, negb (belong_to s kv.1)) (map_to_list (f_move_out_shards f)).*2 = true) watchers in
  Ok (mkFsm (f_group_engine f) (f_observer f) (mkWatchHub (wh_receivers hub) watchers) [] (f_plugged_write_states f)
    ∅ (f_desc_updated f) (f_move_shard_state_updated f) (f_last_applied_term f)).

Definition flush_updated_events (term : Z) (f : GroupStateMachine) : GroupStateMachine :=
  let o := f_observer f in
  let o := if f_desc_updated f then on_descriptor_updated (ge_descriptor (f_group_engine f)) o else o in
  let newer := f_last_applied_term f <? term in
  let o := if newer then on_term_updated term o else o in
  let o := if f_move_shard_state_updated f
           then on_move_shard_state_updated (ge_move_shard_state (f_group_engine f)) o else o in
  mkFsm (f_group_engine f) o (f_watch_hub f) (f_plugged_write_batches f) (f_plugged_write_states f) (f_move_out_shards f)
    false false (if newer then term else f_last_applied_term f).

Definition finish_plug (f : GroupStateMachine) : Result GroupStateMachine :=
  let? apply_state := expect (ws_apply_state (f_plugged_write_states f)) in
  let? ge := ge_group_commit (f_group_engine f) (f_plugged_write_batches f) (f_plugged_write_states f) in
  let f := mkFsm ge (f_observer f) (f_watch_hub f) (f_plugged_write_batches f) WriteStates_default
    (f_move_out_shards f) (f_desc_updated f) (f_move_shard_state_updated f) (f_last_applied_term f) in
  let? f := trigger_updation_watchers f in
  Ok (flush_updated_events (ei_term apply_state) f).

End Fsm.
Arguments GroupStateMachine : clear implicits.
