(* ===== verification/FsmProps.v ===== *)
(** * Shards of a group: every key in exactly one place

    The shards of a group descriptor have distinct ids and, within a table,
    disjoint ranges.  Adding, moving, splitting and merging shards keeps this
    under [op_safe], and no key is lost or gained but those of the shard that
    comes or goes. *)

From S2P Require Import Prelude Bytes Api Schema RocksDb Keys Engine Fsm.

Definition range_ok (s : ShardDesc) : Prop := end_key s = [] ∨ bytes_le (start_key s) (end_key s).
Definition shards_ok (d : GroupDesc) : Prop :=
  NoDup (map sd_id (gd_shards d)) ∧ Forall range_ok (gd_shards d) ∧
  ∀ s1 s2 k, s1 ∈ gd_shards d → s2 ∈ gd_shards d → sd_table_id s1 = sd_table_id s2 →
    belong_to s1 k = true → belong_to s2 k = true → sd_id s1 = sd_id s2.
(** Key [k] of table [t] is in a shard of the group. *)
Definition covers (d : GroupDesc) (t : Z) (k : bytes) : Prop :=
  ∃ s, s ∈ gd_shards d ∧ sd_table_id s = t ∧ belong_to s k = true.
Definition apart (d : GroupDesc) (s : ShardDesc) : Prop :=
  ∀ s' k, s' ∈ gd_shards d → sd_table_id s' = sd_table_id s → belong_to s' k = true → belong_to s k = true → False.
Definition fresh_shard (d : GroupDesc) (id : Z) : Prop := id ∉ map sd_id (gd_shards d).

(** ** Shards of a descriptor *)
Lemma find_shard_some (d : GroupDesc) id s : shard d id = Some s → s ∈ gd_shards d ∧ sd_id s = id.
Proof.
  unfold shard. intros E. destruct (find_some_iff_first _ _ _ E) as (l1 & l2 & -> & Hid & _).
  split; [apply elem_of_app; right; by left|]. by apply Z.eqb_eq.
Qed.
Lemma shard_id_unique d s1 s2 :
  NoDup (map sd_id (gd_shards d)) → s1 ∈ gd_shards d → s2 ∈ gd_shards d → sd_id s1 = sd_id s2 → s1 = s2.
Proof.
  generalize (gd_shards d). intros l Hn. induction l as [|s l IH]; [by intros ?%not_elem_of_nil|].
  cbn in Hn. apply NoDup_cons in Hn as [Hs Hn].
  assert (Habs : ∀ x, x ∈ l → sd_id s = sd_id x → False).
  { intros x Hx E. apply Hs. rewrite E. by apply list_elem_of_fmap_2. }
  intros [->|H1]%elem_of_cons [->|H2]%elem_of_cons E; [done|by destruct (Habs s2)|by destruct (Habs s1)|].
  by apply IH.
Qed.

Lemma push_shard_ok d s :
  shards_ok d → range_ok s → fresh_shard d (sd_id s) → apart d s → shards_ok (push_shard d s).
Proof.
  intros (Hn & Hr & Hd) Hrs Hf Ha. split; [|split]; cbn.
  - rewrite map_app. apply NoDup_app. split_and!; [done| |apply NoDup_singleton].
    intros x Hx Hx'%list_elem_of_singleton. subst x. done.
  - apply Forall_app. split; [done|]. by constructor.
  - intros s1 s2 k [H1|E1]%elem_of_app [H2|E2]%elem_of_app Ht B1 B2; rewrite ?list_elem_of_singleton in *; subst; eauto.
    + by destruct (Ha s1 k).
    + by destruct (Ha s2 k).
Qed.
Lemma drop_shard_elem d id s : s ∈ gd_shards (drop_shard d id) ↔ s ∈ gd_shards d ∧ sd_id s ≠ id.
Proof.
  cbn. rewrite !list_elem_of_In, filter_In, negb_true_iff, Z.eqb_neq. done.
Qed.
Lemma NoDup_map_filter {A B} (f : A → B) (p : A → bool) l : NoDup (map f l) → NoDup (map f (List.filter p l)).
Proof.
  induction l as [|x l IH]; cbn; [done|]. intros [Hx Hn]%NoDup_cons. destruct (p x); [|by apply IH].
  cbn. apply NoDup_cons. split; [|by apply IH]. intros (y & E & Hy)%list_elem_of_fmap. apply Hx. rewrite E.
  apply list_elem_of_fmap_2. apply list_elem_of_In in Hy. apply filter_In in Hy as [Hy _]. by apply list_elem_of_In.
Qed.
Lemma drop_shard_ok d id : shards_ok d → shards_ok (drop_shard d id).
Proof.
  intros (Hn & Hr & Hd). split; [by apply NoDup_map_filter|]. split.
  { rewrite Forall_forall in Hr. apply Forall_forall. intros s [Hs _]%drop_shard_elem. by apply Hr. }
  intros s1 s2 k [? _]%drop_shard_elem [? _]%drop_shard_elem. eauto.
Qed.
Lemma set_epoch_ok d e : shards_ok (set_epoch d e) ↔ shards_ok d.
Proof. done. Qed.

Lemma covers_push d s t k :
  covers (push_shard d s) t k ↔ covers d t k ∨ (sd_table_id s = t ∧ belong_to s k = true).
Proof.
  unfold covers. cbn. split.
  - intros (x & [Hx|Hx]%elem_of_app & Ht & Hk); [left; eauto|].
    apply list_elem_of_singleton in Hx. subst x. auto.
  - intros [(x & Hx & ? & ?)|[? ?]]; [exists x|exists s]; (split; [apply elem_of_app|done]); [by left|right; by left].
Qed.
Lemma covers_epoch d e t k : covers (set_epoch d e) t k ↔ covers d t k.
Proof. done. Qed.

(** Cutting the first matching shard. *)
Lemma shard_mut_spec d id f s :
  NoDup (map sd_id (gd_shards d)) → shard d id = Some s → (∀ x, sd_id (f x) = sd_id x) →
  map sd_id (gd_shards (shard_mut d id f)) = map sd_id (gd_shards d) ∧
  ∀ x, x ∈ gd_shards (shard_mut d id f) ↔ (x = f s ∨ (x ∈ gd_shards d ∧ sd_id x ≠ id)).
Proof.
  unfold shard, shard_mut. cbn. intros Hn Hf Hid. induction (gd_shards d) as [|y l IH]; [done|].
  cbn in *. apply NoDup_cons in Hn as [Hy Hn]. destruct (sd_id y =? id) eqn:E.
  - injection Hf as ->. apply Z.eqb_eq in E. split; [cbn; by rewrite Hid|]. intros x. rewrite !elem_of_cons. split.
    + intros [->|Hx]; [by left|]. right. split; [by right|]. intros Ex. apply Hy. rewrite E, <- Ex.
      by apply list_elem_of_fmap_2.
    + intros [->|[[->|Hx] Hne]]; [by left|done|by right].
  - apply Z.eqb_neq in E. destruct (IH Hn Hf) as [Em Hx]. split; [cbn; by rewrite Em|].
    intros x. rewrite !elem_of_cons, Hx. naive_solver.
Qed.

(** ** Splitting and merging *)
Lemma apply_split_spec d sp d' :
  apply_split_shard d sp = Ok d' → shards_ok d → sp_split_key sp ≠ [] → fresh_shard d (sp_new_shard_id sp) →
  shards_ok d' ∧ (∀ t k, covers d' t k ↔ covers d t k) ∧ gd_epoch d' = apply_shard_delta (gd_epoch d).
Proof.
  intros E Hok Hkey Hfresh. unfold apply_split_shard in E.
  destruct (shard d (sp_old_shard_id sp)) as [old|] eqn:Eo; [|done]. cbn [ok_or result_bind] in E.
  destruct (sd_range old) as [r|] eqn:Er; [|done]. destruct (belong_to old (sp_split_key sp)) eqn:Eb; [|done].
  cbn [negb] in E. injection E as <-.
  destruct (find_shard_some _ _ _ Eo) as [Hin Hid].
  set (cut := λ s, mkShardDesc (sd_id s) (sd_table_id s) (Some (mkRange (rp_start r) (sp_split_key sp)))).
  destruct (shard_mut_spec d (sp_old_shard_id sp) cut old (proj1 Hok) Eo ltac:(done)) as [Hids Hel].
  set (new := ShardDesc_with_range _ _ _ _). set (d1 := shard_mut d (sp_old_shard_id sp) cut) in *.
  assert (Hsplit : ∀ k, belong_to old k = belong_to (cut old) k || belong_to new k).
  { intros k. unfold belong_to in *. rewrite Er in *. by apply in_range_split. }
  assert (Hdis : ∀ k, belong_to (cut old) k = true → belong_to new k = true → False).
  { intros k. unfold belong_to. cbn. by apply in_range_split_disjoint. }
  assert (Hcut : ∀ k, belong_to (cut old) k = true → belong_to old k = true).
  { intros k Hk. by rewrite Hsplit, Hk. }
  assert (Hnew : ∀ k, belong_to new k = true → belong_to old k = true).
  { intros k Hk. by rewrite Hsplit, Hk, orb_true_r. }
  assert (Hmid : bytes_le (rp_start r) (sp_split_key sp) ∧ (bytes_lt (sp_split_key sp) (rp_end r) ∨ rp_end r = [])).
  { unfold belong_to in Eb. rewrite Er in Eb. by apply in_range_spec. }
  assert (Hd1 : shards_ok d1).
  { split; [rewrite Hids; apply Hok|]. split.
    { apply Forall_forall. intros s [->|[Hs _]]%Hel; [right; apply Hmid|].
      destruct Hok as (_ & Hro & _). rewrite Forall_forall in Hro. by apply Hro. }
    intros s1 s2 k [->|[H1 N1]]%Hel [->|[H2 N2]]%Hel Ht B1 B2; [done|..].
    - exact (proj2 (proj2 Hok) old s2 k Hin H2 Ht (Hcut k B1) B2).
    - exact (proj2 (proj2 Hok) s1 old k H1 Hin Ht B1 (Hcut k B2)).
    - exact (proj2 (proj2 Hok) s1 s2 k H1 H2 Ht B1 B2). }
  split_and!; [| |done].
  - apply set_epoch_ok, push_shard_ok; [done| | |].
    + destruct Hmid as [_ [Hlt|Hlt]]; [right; apply bytes_le_lteq|]; by left.
    + unfold fresh_shard. by rewrite Hids.
    + intros s k [->|[Hs Hne]]%Hel Ht B1 B2; [by eapply Hdis|]. apply Hne. rewrite <- Hid.
      exact (proj2 (proj2 Hok) s old k Hs Hin Ht B1 (Hnew k B2)).
  - intros t k. rewrite covers_epoch, covers_push. split.
    + intros [(s & [->|[Hs _]]%Hel & Ht & Hk)|[Ht Hk]]; [exists old; auto|by exists s|exists old; auto].
    + intros (s & Hs & Ht & Hk). destruct (decide (sd_id s = sp_old_shard_id sp)) as [E|].
      2: { left. exists s. split; [apply Hel; auto|done]. }
      rewrite <- Hid in E. pose proof (shard_id_unique d s old (proj1 Hok) Hs Hin E). subst s.
      rewrite Hsplit in Hk. apply orb_true_iff in Hk as [Hk|Hk]; [left; exists (cut old)|by right].
      split; [apply Hel; auto|done].
Qed.

Lemma in_range_join s m e k :
  m ≠ [] → bytes_le s m → (e = [] ∨ bytes_le m e) → in_range s e k = in_range s m k || in_range m e k.
Proof.
  intros Hne Hsm Hme. apply eq_bool_prop_intro. rewrite orb_True, !Is_true_true, !in_range_spec. split.
  - intros [Hsk Hke]. destruct (decide (bytes_lt k m)) as [?|Hnlt%bytes_not_lt]; [by auto|]. right. auto.
  - intros [[? [?|?]]|[? ?]]; [|done|].
    + split; [done|]. destruct Hme; [by right|left]. by eapply bytes_lt_le_trans.
    + split; [|done]. by eapply bytes_le_trans.
Qed.

Lemma apply_merge_spec d mg l d' :
  apply_merge_shard d mg = Ok d' → shards_ok d → mg_left_shard_id mg ≠ mg_right_shard_id mg →
  shard d (mg_left_shard_id mg) = Some l → end_key l ≠ [] →
  shards_ok d' ∧ (∀ t k, covers d' t k ↔ covers d t k) ∧ gd_epoch d' = apply_shard_delta (gd_epoch d).
Proof.
  intros E Hok Hne El Hend. unfold apply_merge_shard in E. rewrite El in E. cbn [ok_or result_bind] in E.
  destruct (shard d (mg_right_shard_id mg)) as [r|] eqn:Er; [|done]. cbn [ok_or result_bind] in E.
  destruct (sd_table_id l =? sd_table_id r) eqn:Et; [|done]. cbn [negb] in E. apply Z.eqb_eq in Et.
  unfold end_key in Hend. destruct (sd_range l) as [lr|] eqn:Elr; [|done]. destruct (sd_range r) as [rr|] eqn:Err; [|done].
  destruct (bytes_eqb (rp_end lr) (rp_start rr)) eqn:Ee; [|done]. cbn [negb] in E. injection E as <-.
  apply bytes_eqb_eq in Ee. destruct (find_shard_some _ _ _ El) as [Hl Hlid]. destruct (find_shard_some _ _ _ Er) as [Hr Hrid].
  set (new := ShardDesc_with_range _ _ _ _). set (d1 := drop_shard (drop_shard d _) _).
  pose proof Hok as (Hn & Hro & Hdis). rewrite Forall_forall in Hro.
  assert (Hsm : bytes_le (rp_start lr) (rp_end lr)).
  { pose proof (Hro l Hl) as Hrl. unfold range_ok, start_key, end_key in Hrl. rewrite Elr in Hrl. by destruct Hrl. }
  assert (Hme : rp_end rr = [] ∨ bytes_le (rp_end lr) (rp_end rr)).
  { pose proof (Hro r Hr) as Hrr. unfold range_ok, start_key, end_key in Hrr. rewrite Err in Hrr. by rewrite Ee. }
  assert (Hjoin : ∀ k, belong_to new k = belong_to l k || belong_to r k).
  { intros k. unfold belong_to. rewrite Elr, Err, <- Ee. by apply in_range_join. }
  assert (Hel : ∀ s, s ∈ gd_shards d1 ↔ s ∈ gd_shards d ∧ sd_id s ≠ mg_left_shard_id mg ∧ sd_id s ≠ mg_right_shard_id mg).
  { intros s. unfold d1. rewrite !drop_shard_elem. naive_solver. }
  split_and!; [| |done].
  - apply set_epoch_ok, push_shard_ok; [by apply drop_shard_ok, drop_shard_ok| | |].
    + unfold range_ok, new, start_key, end_key. cbn. destruct Hme; [by left|right]. by eapply bytes_le_trans.
    + intros (s & Es & Hs)%list_elem_of_fmap. apply Hel in Hs as (_ & Hs & _). apply Hs. rewrite <- Es. done.
    + intros s k (Hs & H1 & H2)%Hel Ht B1 B2. rewrite Hjoin in B2. apply orb_true_iff in B2 as [B2|B2].
      * apply H1. rewrite <- Hlid. by apply (Hdis s l k).
      * apply H2. rewrite <- Hrid. apply (Hdis s r k); try done. by rewrite Ht.
  - intros t k. rewrite covers_epoch, covers_push. split.
    + intros [(s & (Hs & _)%Hel & Ht & Hk)|[Ht Hk]]; [by exists s|]. rewrite Hjoin in Hk.
      apply orb_true_iff in Hk as [Hk|Hk]; [exists l; auto|exists r]. split_and!; [done| |done]. by rewrite <- Et.
    + intros (s & Hs & Ht & Hk). destruct (decide (sd_id s = mg_left_shard_id mg)) as [E|Hs1].
      { rewrite <- Hlid in E. pose proof (shard_id_unique d s l Hn Hs Hl E). subst s.
        right. by rewrite Hjoin, Hk. }
      destruct (decide (sd_id s = mg_right_shard_id mg)) as [E|Hs2].
      2: { left. exists s. split; [apply Hel; auto|done]. }
      rewrite <- Hrid in E. pose proof (shard_id_unique d s r Hn Hs Hr E). subst s.
      right. rewrite Hjoin, Hk, orb_true_r. split; [|done]. cbn. by rewrite Et.
Qed.

(** ** All shard operations of the state machine *)
Inductive shard_op := OpAdd (s : ShardDesc) | OpMove (m : MoveShard) | OpSplit (sp : SplitShard) | OpMerge (mg : MergeShard).
Definition sync_op (o : shard_op) : SyncOp :=
  match o with
  | OpAdd s => SyncOp_add_shard s
  | OpMove m => mkSyncOp None None (Some m) None None
  | OpSplit sp => mkSyncOp None None None (Some sp) None
  | OpMerge mg => mkSyncOp None None None None (Some mg)
  end.

Lemma apply_shard_delta_grows e : 0 ≤ e → e ≤ u64_MAX - SHARD_UPDATE_DELTA → e < apply_shard_delta e.
Proof.
  intros H0 Hb. assert (0 < SHARD_UPDATE_DELTA) by done.
  unfold apply_shard_delta, u64_add. rewrite u64_wrap_small; [lia|]. unfold u64_ok. lia.
Qed.

Section Ops.
  Context {DB O T : Type}.
  Implicit Types (f : GroupStateMachine DB O T).

(** What the partition depends on and neither the state machine nor its
    proposers check: a shard that is added or moved in has an ordered range of
    keys the group does not have (and, moved in, a new id), a split is not at the
    empty key and brings a new id, the two shards of a merge differ and the left
    one has a right end.  Without the last two the partition breaks
    ([split_at_empty_key_overlaps], [merge_wraps_around]). *)
Definition op_safe (o : shard_op) (d : GroupDesc) f : Prop :=
  match o with
  | OpAdd s => range_ok s ∧ apart d s
  | OpMove m => ∀ st desc s, must_move_shard_state f = Ok st → mss_move_shard st = Some desc → md_shard_desc desc = Some s →
      (md_src_group_id desc ≠ gd_id d → range_ok s ∧ fresh_shard d (sd_id s) ∧ apart d s) ∧
      md_src_group_epoch desc ≤ u64_MAX - SHARD_UPDATE_DELTA ∧ md_dest_group_epoch desc ≤ u64_MAX - SHARD_UPDATE_DELTA
  | OpSplit sp => sp_split_key sp ≠ [] ∧ fresh_shard d (sp_new_shard_id sp)
  | OpMerge mg => mg_left_shard_id mg ≠ mg_right_shard_id mg ∧
      ∀ l, shard d (mg_left_shard_id mg) = Some l → end_key l ≠ []
  end.

(** Which keys the group has afterwards. *)
Definition has_key (s : ShardDesc) (t : Z) (k : bytes) : Prop := sd_table_id s = t ∧ belong_to s k = true.
Definition coverage (o : shard_op) (d d' : GroupDesc) f : Prop :=
  match o with
  | OpAdd s => ∀ t k, covers d' t k ↔ covers d t k ∨ has_key s t k
  | OpMove m => (∀ t k, covers d' t k ↔ covers d t k) ∨
      ∃ st desc s, must_move_shard_state f = Ok st ∧ mss_move_shard st = Some desc ∧ md_shard_desc desc = Some s ∧
        if md_src_group_id desc =? gd_id d
        then ∀ t k, covers d' t k ↔ covers d t k ∧ ∀ s', shard d (sd_id s) = Some s' → ¬ has_key s' t k
        else ∀ t k, covers d' t k ↔ covers d t k ∨ has_key s t k
  | OpSplit _ | OpMerge _ => ∀ t k, covers d' t k ↔ covers d t k
  end.
Lemma shard_in d s : NoDup (map sd_id (gd_shards d)) → s ∈ gd_shards d → shard d (sd_id s) = Some s.
Proof.
  intros Hn Hs. unfold shard. destruct (find _ (gd_shards d)) as [s'|] eqn:E.
  - destruct (find_shard_some d (sd_id s) s' E) as [Hs' Hid]. by rewrite (shard_id_unique d s' s Hn Hs' Hs Hid).
  - apply list_elem_of_In, (List.find_none _ _ E) in Hs. by rewrite Z.eqb_refl in Hs.
Qed.
Lemma covers_drop d id t k :
  shards_ok d → covers (drop_shard d id) t k ↔ covers d t k ∧ ∀ s', shard d id = Some s' → ¬ has_key s' t k.
Proof.
  intros (Hn & _ & Hd). split.
  - intros (s & [Hs Hne]%drop_shard_elem & Ht & Hk). split; [by exists s|]. intros s' [Hs' Hid]%find_shard_some [Ht' Hk'].
    apply Hne. rewrite <- Hid. apply (Hd s s' k); try done. congruence.
  - intros [(s & Hs & Ht & Hk) Hn']. exists s. split; [|done]. apply drop_shard_elem. split; [done|]. intros Hid.
    apply (Hn' s); [rewrite <- Hid; by apply shard_in|done].
Qed.

Lemma move_event_spec m d f d' f' :
  apply_move_shard_event m d f = Ok (d', f') → shards_ok d → op_safe (OpMove m) d f →
  0 ≤ gd_epoch d ≤ u64_MAX - SHARD_UPDATE_DELTA →
  shards_ok d' ∧ (d' = d ∨ gd_epoch d < gd_epoch d') ∧ coverage (OpMove m) d d' f.
Proof.
  intros E Hok Hsafe Hb. unfold apply_move_shard_event in E.
  destruct (MoveShardEvent_from_i32 (ms_event m)) as [ev|]; [|done]. cbn [expect result_bind] in E.
  assert (Hsame : d' = d → shards_ok d' ∧ (d' = d ∨ gd_epoch d < gd_epoch d') ∧ coverage (OpMove m) d d' f).
  { intros ->. split; [done|]. split; [by left|]. by left. }
  destruct ev; [destruct (ms_desc m); simplify_eq; by apply Hsame|..];
    destruct (must_move_shard_state f) as [st|e|] eqn:Est; try done; cbn [result_bind] in E; try (simplify_eq; by apply Hsame).
  unfold get_move_shard_desc in E. destruct (mss_move_shard st) as [desc|] eqn:Ed; [|done]. cbn [expect result_bind] in E.
  unfold apply_moving_shard, get_shard_desc in E. destruct (md_shard_desc desc) as [s|] eqn:Es; [|done].
  cbn [expect result_bind] in E. destruct (Hsafe st desc s Est Ed Es) as (Hin & Hb1 & Hb2).
  set (e := Z.max (gd_epoch d) (Z.max (md_src_group_epoch desc) (md_dest_group_epoch desc))) in E.
  assert (gd_epoch d < apply_shard_delta e) as He.
  { apply (Z.le_lt_trans _ e); [|apply apply_shard_delta_grows]; unfold e; lia. }
  cbn [set_epoch gd_id] in E. destruct (md_src_group_id desc =? gd_id d) eqn:Eg; cbn [result_bind] in E; injection E as <- _.
  - split; [by apply drop_shard_ok|]. split; [by right|]. right. exists st, desc, s. rewrite Eg. split_and!; [done..|].
    intros t k. by apply (covers_drop (set_epoch d _)).
  - pose proof Eg as Eg'. apply Z.eqb_neq in Eg'. destruct (Hin Eg') as (? & ? & ?). split; [by apply push_shard_ok|].
    split; [by right|]. right. exists st, desc, s. rewrite Eg. split_and!; [done..|]. intros t k. apply (covers_push (set_epoch d _)).
Qed.

End Ops.

(** ** Corner cases the checks let through *)

(** The last shard of a table can be merged, as the left one, with the first:
    the missing right end and the missing left end are both the empty key.
    What is left is an empty range, and the keys of both shards belong to
    nobody. *)
Definition ring_desc (b : bytes) : GroupDesc :=
  mkGroupDesc 1 19 [ShardDesc_with_range 10 100 b []; ShardDesc_with_range 11 100 [] b] [].
Theorem merge_wraps_around b :
  b ≠ [] →
  ∃ d', apply_merge_shard (ring_desc b) (mkMergeShard 10 11) = Ok d' ∧ shards_ok (ring_desc b) ∧
    (∀ k, covers (ring_desc b) 100 k) ∧ (∀ k, ¬ covers d' 100 k).
Proof.
  intros Hb. eexists. split; [done|]. split_and!.
  - split; [|split].
    + repeat constructor; set_solver.
    + cbn. rewrite !Forall_cons. split_and!; [by left| |done]. right. cbn. by destruct b.
    + intros s1 s2 k H1 H2 _ B1 B2. cbn in H1, H2. rewrite !elem_of_cons, elem_of_nil in H1. rewrite !elem_of_cons, elem_of_nil in H2.
      destruct H1 as [->|[->|[]]], H2 as [->|[->|[]]]; try done; exfalso;
        rewrite belong_to_with_range in B1, B2; [eapply (in_range_split_disjoint [] b [])|eapply (in_range_split_disjoint [] b [])]; done.
  - intros k. destruct (in_range b [] k) eqn:E.
    + exists (ShardDesc_with_range 10 100 b []). split; [by left|done].
    + exists (ShardDesc_with_range 11 100 [] b). split; [right; by left|]. split; [done|].
      rewrite belong_to_with_range. pose proof (in_range_join [] b [] k Hb) as Hj. rewrite E, orb_false_r in Hj.
      rewrite <- Hj; [|by destruct b|by left]. apply in_range_spec. split; [by destruct k|by right].
  - intros k (s & Hs & _ & Hk). cbn in Hs. apply list_elem_of_singleton in Hs. subst s.
    rewrite belong_to_with_range in Hk. apply in_range_spec in Hk as [H1 [H2|H2]]; [|done].
    apply bytes_not_lt in H1. done.
Qed.

(** A shard that starts at the beginning can be split at the empty key: the
    old shard then ends nowhere, and overlaps the new one and its neighbours. *)
Theorem split_at_empty_key_overlaps e :
  ∃ d', apply_split_shard (mkGroupDesc 1 19 [ShardDesc_with_range 10 100 [] e] []) (mkSplitShard 10 11 []) = Ok d' ∧
    gd_shards d' = [ShardDesc_with_range 10 100 [] []; ShardDesc_with_range 11 100 [] e] ∧
    ∀ k, belong_to (ShardDesc_with_range 11 100 [] e) k = true → belong_to (ShardDesc_with_range 10 100 [] []) k = true.
Proof.
  eexists. split; [destruct e; reflexivity|]. split; [done|].
  intros k _. rewrite belong_to_with_range. apply in_range_spec. split; [by destruct k|by right].
Qed.
