(* ===== verification/FsmPlug.v ===== *)
(** * Batching of applied entries is invisible

    How many entries are staged between [start_plug] and [finish_plug]
    depends on timing and differs between replicas.  Staging entries together
    gives the same group engine as committing after some of them and going on:
    same data, same metadata, same in-memory core. *)

From S2P Require Import Prelude Bytes Api Schema RocksDb Keys Engine EngineFacts EngineWrites Samples Fsm.

Section Plug.
  Context {DB : Type} `{RocksDbOk DB} `{CodecOk EntryId} `{CodecOk GroupDesc} `{CodecOk MoveShardState} `{Codec WriteBatch}.
  Context {O T : Type} `{StateMachineObserver O} `{WatchTrigger T}.
  Abbreviation fsm := (GroupStateMachine DB O T).
  Implicit Types (f fa fb : fsm) (ge : GroupEngine DB).

(** ** Runs of the state machine *)
Fixpoint stage (es : list (Z * Z * ApplyEntry)) f : Result fsm :=
  match es with
  | [] => Ok f
  | (index, term, entry) :: es' => let? f' := apply index term entry f in stage es' f'
  end.
Definition run_plug (es : list (Z * Z * ApplyEntry)) f : Result fsm :=
  do? start_plug f in let? f := stage es f in finish_plug f.
Definition commit_staged f : Result (GroupEngine DB) :=
  ge_group_commit (f_group_engine f) (f_plugged_write_batches f) (f_plugged_write_states f).

Definition engine_equiv (ge1 ge2 : GroupEngine DB) : Prop :=
  ge_core ge1 = ge_core ge2 ∧ ∀ k, db_get (ge_db ge1) k = db_get (ge_db ge2) k.
#[local] Instance engine_equiv_equivalence : Equivalence engine_equiv.
Proof.
  split.
  - by intros ge.
  - intros ge1 ge2 [Ec E]. by split.
  - intros ge1 ge2 ge3 [Ec1 E1] [Ec2 E2]. split; [congruence|]. intros k. by rewrite E1.
Qed.
Definition core_ok (c : GroupEngineCore) : Prop :=
  compute_shard_descs (gc_group_desc c) (gc_move_shard_state c) = Ok (gc_shard_descs c).
(** Nothing staged. *)
Definition clean f : Prop := f_plugged_write_batches f = [] ∧ f_plugged_write_states f = WriteStates_default.

(** ** A staged machine and one that committed its past *)
Definition merged {A} (later earlier : option A) : option A := match later with Some a => Some a | None => earlier end.
Record sim (B1 : list WriteBatch) (ws1 : WriteStates) fa fb : Prop := {
  sim_batches : f_plugged_write_batches fa = B1 ++ f_plugged_write_batches fb;
  sim_desc : ws_descriptor (f_plugged_write_states fa) = merged (ws_descriptor (f_plugged_write_states fb)) (ws_descriptor ws1);
  sim_move : ws_move_shard_state (f_plugged_write_states fa) =
    merged (ws_move_shard_state (f_plugged_write_states fb)) (ws_move_shard_state ws1);
  sim_core : apply_core_states (ge_core (f_group_engine fa)) (ws_descriptor ws1) (ws_move_shard_state ws1) =
    Ok (ge_core (f_group_engine fb));
}.

Lemma sim_descriptor B1 ws1 fa fb : sim B1 ws1 fa fb → fsm_descriptor fa = fsm_descriptor fb.
Proof.
  intros [_ Hd _ Hc]. unfold fsm_descriptor, ge_descriptor. rewrite Hd.
  apply result_bind_ok in Hc as (sds & _ & [= Hc]). rewrite <- Hc. cbn.
  by destruct (ws_descriptor (f_plugged_write_states fb)).
Qed.
Lemma sim_must_move B1 ws1 fa fb st :
  sim B1 ws1 fa fb → must_move_shard_state fb = Ok st → must_move_shard_state fa = Ok st.
Proof.
  intros [_ _ Hm Hc]. unfold must_move_shard_state, ge_move_shard_state. rewrite Hm.
  apply result_bind_ok in Hc as (sds & _ & [= Hc]). rewrite <- Hc. cbn [gc_move_shard_state].
  destruct (ws_move_shard_state (f_plugged_write_states fb)); [done|]. cbn.
  destruct (ws_move_shard_state ws1) as [m|]; [|done]. by destruct (is_end_step m).
Qed.

(** The field updates keep the relation. *)
Lemma sim_plug_batch B1 ws1 fa fb wb : sim B1 ws1 fa fb → sim B1 ws1 (plug_batch wb fa) (plug_batch wb fb).
Proof. intros [Hb ? ? ?]. split; [|done..]. cbn. by rewrite Hb, app_assoc. Qed.
Lemma sim_plug_descriptor B1 ws1 fa fb d : sim B1 ws1 fa fb → sim B1 ws1 (plug_descriptor d fa) (plug_descriptor d fb).
Proof. by intros [? ? ? ?]. Qed.
Lemma sim_plug_move B1 ws1 fa fb st u : sim B1 ws1 fa fb → sim B1 ws1 (plug_move_state st u fa) (plug_move_state st u fb).
Proof. by intros [? ? ? ?]. Qed.
Lemma sim_mark B1 ws1 fa fb : sim B1 ws1 fa fb → sim B1 ws1 (mark_desc_updated fa) (mark_desc_updated fb).
Proof. by intros [? ? ? ?]. Qed.
Lemma sim_move_out B1 ws1 fa fb s : sim B1 ws1 fa fb → sim B1 ws1 (move_out_shard s fa) (move_out_shard s fb).
Proof. by intros [? ? ? ?]. Qed.
#[local] Hint Resolve sim_plug_batch sim_plug_descriptor sim_plug_move sim_mark sim_move_out : sekas.

(** ** Every operation keeps the relation *)
Definition sim_res B1 ws1 (ra rb : Result (GroupDesc * fsm)) : Prop :=
  ∀ d fb', rb = Ok (d, fb') → ∃ fa', ra = Ok (d, fa') ∧ sim B1 ws1 fa' fb'.

Lemma sim_moving_shard B1 ws1 fa fb g desc :
  sim B1 ws1 fa fb → sim_res B1 ws1 (apply_moving_shard g desc fa) (apply_moving_shard g desc fb).
Proof.
  intros Hs d fb' E. unfold apply_moving_shard in *. destruct (get_shard_desc desc) as [s|e|]; [|done..].
  cbn [result_bind] in *. destruct (_ =? _); injection E as <- <-; eauto with sekas.
Qed.
Lemma sim_move_event B1 ws1 fa fb ms g :
  sim B1 ws1 fa fb → sim_res B1 ws1 (apply_move_shard_event ms g fa) (apply_move_shard_event ms g fb).
Proof.
  intros Hs d fb' E. unfold apply_move_shard_event in *.
  destruct (MoveShardEvent_from_i32 (ms_event ms)) as [ev|]; [|done]. cbn [expect result_bind] in *.
  destruct ev; [destruct (ms_desc ms); injection E as <- <-; by eauto with sekas|..];
    apply result_bind_ok in E as (st & Est & E); rewrite (sim_must_move _ _ _ _ _ Hs Est); cbn [result_bind];
    try (injection E as <- <-; by eauto with sekas).
  apply result_bind_ok in E as (desc & -> & E). cbn [result_bind].
  apply result_bind_ok in E as ([g' fb1] & Em & [= <- <-]).
  destruct (sim_moving_shard _ _ _ _ _ _ Hs _ _ Em) as (fa1 & -> & Hs1). cbn [result_bind]. eauto with sekas.
Qed.
Lemma sim_sync_op B1 ws1 fa fb op g :
  sim B1 ws1 fa fb → sim_res B1 ws1 (apply_sync_op op g fa) (apply_sync_op op g fb).
Proof.
  intros Hs d fb' E. unfold apply_sync_op in *.
  apply result_bind_ok in E as ([g1 fb1] & E1 & E).
  assert (∃ fa1, match so_add_shard op with
    | Some (Some s) => if existsb (λ existed, sd_id existed =? sd_id s) (gd_shards g) then Panic
        else Ok (push_shard (set_epoch g (apply_shard_delta (gd_epoch g))) s, mark_desc_updated fa)
    | _ => Ok (g, fa) end = Ok (g1, fa1) ∧ sim B1 ws1 fa1 fb1) as (fa1 & -> & Hs1).
  { destruct (so_add_shard op) as [[s|]|]; [destruct (existsb _ _); [done|]|..]; injection E1 as <- <-; eauto with sekas. }
  cbn [result_bind]. apply result_bind_ok in E as ([g2 fb2] & E2 & E).
  assert (∃ fa2, match so_move_shard op with Some m => apply_move_shard_event m g1 fa1 | None => Ok (g1, fa1) end =
    Ok (g2, fa2) ∧ sim B1 ws1 fa2 fb2) as (fa2 & -> & Hs2).
  { destruct (so_move_shard op) as [m|]; [by eapply sim_move_event|]. injection E2 as <- <-. eauto. }
  cbn [result_bind]. apply result_bind_ok in E as ([g3 fb3] & E3 & E).
  assert (∃ fa3, match so_split_shard op with
    | Some sp => let? desc := apply_split_shard g2 sp in Ok (desc, mark_desc_updated fa2)
    | None => Ok (g2, fa2) end = Ok (g3, fa3) ∧ sim B1 ws1 fa3 fb3) as (fa3 & -> & Hs3).
  { destruct (so_split_shard op) as [sp|]; [|injection E3 as <- <-; by eauto].
    apply result_bind_ok in E3 as (g' & -> & [= <- <-]). cbn [result_bind]. eauto with sekas. }
  cbn [result_bind]. destruct (so_merge_shard op) as [mg|]; [|injection E as <- <-; by eauto].
  apply result_bind_ok in E as (g' & -> & [= <- <-]). cbn [result_bind]. eauto with sekas.
Qed.
Lemma sim_apply B1 ws1 fa fb index term entry fb' :
  sim B1 ws1 fa fb → apply index term entry fb = Ok fb' → ∃ fa', apply index term entry fa = Ok fa' ∧ sim B1 ws1 fa' fb'.
Proof.
  intros Hs E. unfold apply in *. apply result_bind_ok in E as (fb1 & E & [= <-]).
  assert (∃ fa1, match entry with Empty => Ok fa | ConfigChange cc => apply_change_replicas cc fa
    | Proposal er => apply_proposal er fa end = Ok fa1 ∧ sim B1 ws1 fa1 fb1) as (fa1 & -> & Hs1).
  { destruct entry as [|cc|er]; [injection E as <-; by eauto|..].
    - unfold apply_change_replicas in *. rewrite (sim_descriptor _ _ _ _ Hs).
      apply result_bind_ok in E as (d' & -> & [= <-]). cbn [result_bind]. eauto with sekas.
    - unfold apply_proposal in *. apply result_bind_ok in E as (fb2 & E2 & E).
      assert (∃ fa2, match er_batch er with
        | Some data => let? wb := ok_or (decode_msg data) (RocksDbError "write batch") in Ok (plug_batch wb fa)
        | None => Ok fa end = Ok fa2 ∧ sim B1 ws1 fa2 fb2) as (fa2 & -> & Hs2).
      { destruct (er_batch er) as [data|]; [|injection E2 as <-; by eauto].
        apply result_bind_ok in E2 as (wb & -> & [= <-]). cbn [result_bind]. eauto with sekas. }
      cbn [result_bind]. destruct (er_op er) as [op|]; [|injection E as <-; by eauto].
      apply result_bind_ok in E as ([d fb3] & E & [= <-]). rewrite (sim_descriptor _ _ _ _ Hs2).
      destruct (sim_sync_op _ _ _ _ _ _ Hs2 _ _ E) as (fa3 & -> & Hs3). cbn [result_bind]. eauto with sekas. }
  cbn [result_bind]. eexists. split; [done|]. by destruct Hs1.
Qed.
Lemma sim_stage B1 ws1 es fa fb fb' :
  sim B1 ws1 fa fb → stage es fb = Ok fb' → ∃ fa', stage es fa = Ok fa' ∧ sim B1 ws1 fa' fb'.
Proof.
  revert fa fb. induction es as [|[[i t] e] es IH]; intros fa fb Hs; cbn [stage]; [intros [= <-]; by eauto|].
  intros (fb1 & E1 & E)%result_bind_ok. destruct (sim_apply _ _ _ _ _ _ _ _ Hs E1) as (fa1 & -> & Hs1).
  cbn [result_bind]. by eapply IH.
Qed.

(** ** What staging leaves alone *)
Lemma sync_op_engine op g f g' f' :
  apply_sync_op op g f = Ok (g', f') →
  f_group_engine f' = f_group_engine f ∧ f_plugged_write_batches f' = f_plugged_write_batches f.
Proof.
  unfold apply_sync_op. intros ([g1 f1] & E1 & ([g2 f2] & E2 & ([g3 f3] & E3 & E)%result_bind_ok)%result_bind_ok)%result_bind_ok.
  assert (f_group_engine f1 = f_group_engine f ∧ f_plugged_write_batches f1 = f_plugged_write_batches f) as [H1a H1b]
    by (destruct (so_add_shard op) as [[s|]|]; [destruct (existsb _ _)|..]; by simplify_eq).
  assert (f_group_engine f2 = f_group_engine f1 ∧ f_plugged_write_batches f2 = f_plugged_write_batches f1) as [H2a H2b].
  { destruct (so_move_shard op) as [ms|]; [|by simplify_eq]. unfold apply_move_shard_event, apply_moving_shard in E2.
    apply result_bind_ok in E2 as (ev & _ & E2).
    destruct ev; [destruct (ms_desc ms); by simplify_eq|..]; apply result_bind_ok in E2 as (st & _ & E2); try by simplify_eq.
    apply result_bind_ok in E2 as (desc & _ & E2). apply result_bind_ok in E2 as ([g4 f4] & E4 & [= <- <-]).
    apply result_bind_ok in E4 as (s & _ & E4). destruct (_ =? _); by simplify_eq. }
  assert (f_group_engine f3 = f_group_engine f2 ∧ f_plugged_write_batches f3 = f_plugged_write_batches f2) as [H3a H3b]
    by (destruct (so_split_shard op); [apply result_bind_ok in E3 as (? & _ & E3)|]; by simplify_eq).
  assert (f_group_engine f' = f_group_engine f3 ∧ f_plugged_write_batches f' = f_plugged_write_batches f3) as [H4a H4b]
    by (destruct (so_merge_shard op); [apply result_bind_ok in E as (? & _ & E)|]; by simplify_eq).
  split; congruence.
Qed.
Lemma apply_engine i t e f f' : apply i t e f = Ok f' → f_group_engine f' = f_group_engine f.
Proof.
  unfold apply. intros (f1 & E & [= <-])%result_bind_ok. cbn. destruct e as [|cc|er]; [by simplify_eq|..].
  - apply result_bind_ok in E as (d & _ & [= <-]). done.
  - unfold apply_proposal in E. apply result_bind_ok in E as (f2 & E2 & E).
    assert (f_group_engine f2 = f_group_engine f) as <-.
    { destruct (er_batch er); [apply result_bind_ok in E2 as (wb & _ & E2)|]; by simplify_eq. }
    destruct (er_op er) as [op|]; [|by simplify_eq]. apply result_bind_ok in E as ([d f3] & E & [= <-]).
    by apply sync_op_engine in E as [? _].
Qed.
Lemma stage_engine es f f' : stage es f = Ok f' → f_group_engine f' = f_group_engine f.
Proof.
  revert f. induction es as [|[[i t] e] es IH]; intros f; cbn; [by intros [= <-]|].
  intros (f1 & E1 & E)%result_bind_ok. rewrite (IH _ E). by eapply apply_engine.
Qed.
Lemma stage_applied es f f' :
  stage es f = Ok f' →
  ws_apply_state (f_plugged_write_states f') =
    match last es with Some (i, t, _) => Some (mkEntryId i t) | None => ws_apply_state (f_plugged_write_states f) end.
Proof.
  revert f. induction es as [|[[i t] e] es IH]; intros f; cbn [stage]; [by intros [= <-]|].
  intros (f1 & E1 & E)%result_bind_ok. rewrite (IH _ E).
  unfold apply in E1. apply result_bind_ok in E1 as (f2 & _ & [= <-]).
  rewrite last_cons. by destruct (last es) as [[[i' t'] e']|].
Qed.
Lemma stage_app es1 es2 f : stage (es1 ++ es2) f = (let? f1 := stage es1 f in stage es2 f1).
Proof.
  revert f. induction es1 as [|[[i t] e] es1 IH]; intros f; [done|]. cbn. destruct (apply i t e f); [apply IH|done..].
Qed.

(** ** Commits *)
Lemma write_batch_congr (db db' : DB) ops k :
  db_get db k = db_get db' k → db_get (write_batch db ops) k = db_get (write_batch db' ops) k.
Proof.
  revert db db'. induction ops as [|o ops IH]; intros db db' E; [done|]. rewrite !write_batch_cons. apply IH.
  destruct o; cbn; rewrite ?db_get_put, ?db_get_delete; by case_decide.
Qed.
Lemma states_untouched (db : DB) states k :
  k ≠ apply_state_key → k ≠ descriptor_key → k ≠ move_shard_state_key →
  db_get (write_batch db (write_states states)) k = db_get db k.
Proof.
  intros Ha Hd Hm. apply write_batch_other. intros (o & -> & Ho)%list_elem_of_fmap. revert Ho.
  unfold write_states. destruct (ws_apply_state states), (ws_descriptor states), (ws_move_shard_state states) as [m|];
    try destruct (is_end_step m); cbn; rewrite ?elem_of_cons, ?elem_of_nil; intros Ho; destruct_or?; subst; done.
Qed.

(** A commit on a sound core always recomputes the same core. *)
Lemma group_commit_core ge wbs states :
  core_ok (ge_core ge) →
  ge_group_commit ge wbs states =
    (let? core := apply_core_states (ge_core ge) (ws_descriptor states) (ws_move_shard_state states) in
     Ok (mkGroupEngine (write_batch (ge_db ge) (concat wbs ++ write_states states)) core)).
Proof.
  intros Hc. unfold ge_group_commit. destruct (ws_descriptor states), (ws_move_shard_state states); try done.
  unfold apply_core_states. cbn. unfold core_ok in Hc. rewrite Hc. cbn. by destruct (ge_core ge).
Qed.
Lemma core_states_merge c c1 d1 m1 d2 m2 :
  apply_core_states c d1 m1 = Ok c1 → core_ok c1 ∧ apply_core_states c (merged d2 d1) (merged m2 m1) = apply_core_states c1 d2 m2.
Proof.
  intros E. apply result_bind_ok in E as (sds & Es & [= <-]). split; [done|].
  unfold apply_core_states. cbn. destruct d2, m2; done.
Qed.

Lemma commit_merged ge ge1 ge2 B1 B2 ws1 ws2 ws :
  core_ok (ge_core ge) → batch_local_free (concat B2) →
  ge_group_commit ge B1 ws1 = Ok ge1 → ge_group_commit ge1 B2 ws2 = Ok ge2 →
  is_Some (ws_apply_state ws2) → ws_apply_state ws = ws_apply_state ws2 →
  ws_descriptor ws = merged (ws_descriptor ws2) (ws_descriptor ws1) →
  ws_move_shard_state ws = merged (ws_move_shard_state ws2) (ws_move_shard_state ws1) →
  ∃ ge12, ge_group_commit ge (B1 ++ B2) ws = Ok ge12 ∧ engine_equiv ge12 ge2.
Proof.
  intros Hok Hfree E1 E2 [a Ha] Hwa Hwd Hwm. rewrite group_commit_core in E1 |- * by done.
  apply result_bind_ok in E1 as (c1 & Ec1 & [= <-]).
  destruct (core_states_merge _ _ _ _ (ws_descriptor ws2) (ws_move_shard_state ws2) Ec1) as [Hok1 Em].
  rewrite group_commit_core in E2 by done. apply result_bind_ok in E2 as (c2 & Ec2 & [= <-]).
  rewrite Hwd, Hwm, Em. cbn [ge_core] in Ec2. rewrite Ec2. cbn [result_bind].
  eexists. split; [done|]. split; [done|]. intros k. cbn [ge_db].
  rewrite !concat_app, !write_batch_app.
  set (db1 := write_batch (ge_db ge) (concat B1)).
  destruct (decide (local_key k)) as [Hl|Hl].
  - destruct (decide (k = apply_state_key)) as [->|Ha'].
    { by rewrite !states_apply_state, Hwa, Ha. }
    destruct (decide (k = descriptor_key)) as [->|Hd'].
    { rewrite !states_descriptor, Hwd. destruct (ws_descriptor ws2); [done|]. cbn.
      rewrite !local_free_get, states_descriptor by done. by destruct (ws_descriptor ws1). }
    destruct (decide (k = move_shard_state_key)) as [->|Hm'].
    { rewrite !states_move_shard, Hwm. destruct (ws_move_shard_state ws2); [done|]. cbn.
      rewrite !local_free_get, states_move_shard by done. by destruct (ws_move_shard_state ws1). }
    rewrite !states_untouched, !local_free_get, states_untouched by done. done.
  - rewrite !states_other_keys by done. apply write_batch_congr. by rewrite states_other_keys.
Qed.

(** The engine a finished plug leaves. *)
Lemma finish_plug_engine f f' :
  finish_plug f = Ok f' → commit_staged f = Ok (f_group_engine f') ∧ clean f'.
Proof.
  unfold finish_plug, commit_staged. intros (a & _ & (ge & E & (f1 & E1 & [= <-])%result_bind_ok)%result_bind_ok)%result_bind_ok.
  rewrite E. unfold trigger_updation_watchers in E1. apply result_bind_ok in E1 as (w & _ & [= <-]). done.
Qed.

(** C10: how entries are grouped into plugs does not matter: when applying
    [es1] and then [es2] in separate plugs succeeds, applying them in one plug
    succeeds in staging, commits, and leaves an engine with the same content
    under every key and the same in-memory core. *)
Theorem plug_batching_invisible es1 es2 f f1 f2 :
  clean f → core_ok (ge_core (f_group_engine f)) → es2 ≠ [] →
  run_plug es1 f = Ok f1 → run_plug es2 f1 = Ok f2 →
  (∀ f', stage es2 f1 = Ok f' → batch_local_free (concat (f_plugged_write_batches f'))) →
  ∃ f12 ge12, stage (es1 ++ es2) f = Ok f12 ∧ commit_staged f12 = Ok ge12 ∧ engine_equiv ge12 (f_group_engine f2).
Proof.
  intros [Hcb Hcs] Hok Hne R1 R2 Hfree. unfold run_plug in R1, R2.
  apply result_bind_ok in R1 as (_ & _ & R1). apply result_bind_ok in R1 as (s1 & S1 & F1).
  apply result_bind_ok in R2 as (_ & _ & R2). apply result_bind_ok in R2 as (s2 & S2 & F2).
  apply finish_plug_engine in F1 as [C1 [Hcb1 Hcs1]]. apply finish_plug_engine in F2 as [C2 _].
  pose proof (stage_engine _ _ _ S1) as Ge1. pose proof (stage_engine _ _ _ S2) as Ge2.
  unfold commit_staged in C1, C2. rewrite Ge1 in C1. rewrite Ge2 in C2.
  assert (Hsim : sim (f_plugged_write_batches s1) (f_plugged_write_states s1) s1 f1).
  { split; rewrite ?Hcb1, ?Hcs1, ?app_nil_r; cbn; try done.
    rewrite Ge1. rewrite group_commit_core in C1 by done. by apply result_bind_ok in C1 as (c & -> & [= <-]). }
  destruct (sim_stage _ _ _ _ _ _ Hsim S2) as (s12 & S12 & Hsim').
  pose proof (stage_applied _ _ _ S12) as Ha12. pose proof (stage_applied _ _ _ S2) as Ha2.
  destruct (last es2) as [[[i t] e]|] eqn:El; [|by apply last_None in El]. cbn in Ha12, Ha2.
  destruct (commit_merged (f_group_engine f) (f_group_engine f1) (f_group_engine f2)
    (f_plugged_write_batches s1) (f_plugged_write_batches s2) (f_plugged_write_states s1) (f_plugged_write_states s2)
    (f_plugged_write_states s12)) as (ge12 & E12 & Heq); try done; [by apply Hfree|by rewrite Ha2|apply Hsim'|apply Hsim'|].
  exists s12, ge12. rewrite stage_app, S1. split; [done|]. split; [|done].
  unfold commit_staged. rewrite (stage_engine _ _ _ S12), Ge1, (sim_batches _ _ _ _ Hsim'). done.
Qed.

End Plug.
