(* ===== verification/Lease.v ===== *)
(** * Lease state and admission of requests
    ([server/src/replica/state.rs], [server/src/replica/mod.rs])

    The lease state is what a replica knows about itself outside the state
    machine: role and term from raft, and copies of the group's metadata that
    the state machine's observer keeps up to date.  Requests are admitted
    against it.  Channels and wakers are lists of what was sent or woken. *)

From S2P Require Import Prelude Bytes Api RocksDb Schema Keys Engine EngineFacts EngineWrites Samples EvalTxn Fsm FsmProps.
From S2P Require Import FsmPlug.

(** ** Messages *)
Inductive ReplicaLocalState := Initial | Pending | Normal | Terminated | Tombstone.
Record ReplicaInfo := mkReplicaInfo {
  ri_replica_id : Z; ri_group_id : Z; ri_node_id : Z; ri_local_state : ReplicaLocalState }.
Definition ReplicaInfo_new (replica_desc : ReplicaDesc) (group_id : Z) (local_state : ReplicaLocalState) : ReplicaInfo :=
  mkReplicaInfo (rd_id replica_desc) group_id (rd_node_id replica_desc) local_state.
Definition is_terminated (i : ReplicaInfo) : bool :=
  match ri_local_state i with Terminated => true | _ => false end.
(** The compare-and-exchange loop ends in this state whatever others do. *)
Definition terminate_info (i : ReplicaInfo) : ReplicaInfo :=
  mkReplicaInfo (ri_replica_id i) (ri_group_id i) (ri_node_id i) Terminated.

(** ** [LeaseState] *)
Record LeaseState := mkLeaseState {
  ls_leader_id : Z;
  ls_applied_term : Z;
  ls_replica_state : ReplicaState;
  ls_descriptor : GroupDesc;
  ls_move_shard_state : option MoveShardState;
  (** what was sent to the subscriber; [None] once the channel is closed *)
  ls_subscriber : option (list MoveShardState);
  ls_schedule_state : ScheduleState;
  (** tasks that wait for leadership, by their source *)
  ls_leader_subscribers : gmap string nat;
  ls_woken : list nat }.

Definition LeaseState_new (descriptor : GroupDesc) (move_shard_state : option MoveShardState) : LeaseState :=
  mkLeaseState 0 0 ReplicaState_default descriptor move_shard_state (Some []) ScheduleState_default ∅ [].

Definition is_raft_leader (l : LeaseState) : bool := rs_role (ls_replica_state l) =? RaftRole_i32 Leader.
Definition is_log_term_matched (l : LeaseState) : bool := ls_applied_term l =? rs_term (ls_replica_state l).
Definition is_ready_for_serving (l : LeaseState) : bool := is_raft_leader l && is_log_term_matched l.
Definition has_shard_moving (l : LeaseState) : bool :=
  match ls_move_shard_state l with Some _ => true | None => false end.
Definition is_shard_in_moving (l : LeaseState) (shard_id : Z) : Result bool :=
  match ls_move_shard_state l with
  | Some s => let? sd := state_get_shard_desc s in Ok (sd_id sd =? shard_id)
  | None => Ok false
  end.
Definition is_same_shard_moving (l : LeaseState) (desc : MoveShardDesc) : Result bool :=
  let? s := expect (ls_move_shard_state l) in
  let? d := get_move_shard_desc s in Ok (bool_decide (d = desc)).
Definition leader_descriptor (l : LeaseState) : option ReplicaDesc :=
  List.find (λ r, rd_id r =? ls_leader_id l) (gd_replicas (ls_descriptor l)).
Definition wake_all_waiters (l : LeaseState) : LeaseState :=
  mkLeaseState (ls_leader_id l) (ls_applied_term l) (ls_replica_state l) (ls_descriptor l) (ls_move_shard_state l)
    (ls_subscriber l) (ls_schedule_state l) ∅ (ls_woken l ++ (map_to_list (ls_leader_subscribers l)).*2).
Definition terminate_lease (l : LeaseState) : LeaseState :=
  let l := wake_all_waiters l in
  mkLeaseState (ls_leader_id l) (ls_applied_term l) (ls_replica_state l) (ls_descriptor l) (ls_move_shard_state l)
    None (ls_schedule_state l) (ls_leader_subscribers l) (ls_woken l).
(** [unbounded_send(..).unwrap_or_default()]. *)
Definition notify_subscriber (st : MoveShardState) (l : LeaseState) : LeaseState :=
  mkLeaseState (ls_leader_id l) (ls_applied_term l) (ls_replica_state l) (ls_descriptor l) (ls_move_shard_state l)
    ((λ sent, sent ++ [st]) <$> ls_subscriber l) (ls_schedule_state l) (ls_leader_subscribers l) (ls_woken l).

(** ** [LeaseStateObserver] *)
Inductive Broadcast :=
  | BReplicaState (group_id : Z) (s : ReplicaState)
  | BGroupDescriptor (group_id : Z) (d : GroupDesc)
  | BScheduleState (group_id : Z) (s : ScheduleState).
Record LeaseStateObserver := mkLeaseStateObserver {
  lo_info : ReplicaInfo; lo_lease_state : LeaseState; lo_state_channel : list Broadcast }.
Definition with_lease (f : LeaseState → LeaseState) (o : LeaseStateObserver) : LeaseStateObserver :=
  mkLeaseStateObserver (lo_info o) (f (lo_lease_state o)) (lo_state_channel o).
Definition broadcast (b : Broadcast) (o : LeaseStateObserver) : LeaseStateObserver :=
  mkLeaseStateObserver (lo_info o) (lo_lease_state o) (lo_state_channel o ++ [b]).

Definition update_replica_state (o : LeaseStateObserver) (leader_id voted_for term : Z) (role : RaftRole) :
    ReplicaState * option GroupDesc * LeaseStateObserver :=
  let i := lo_info o in
  let replica_state :=
    mkReplicaState (ri_replica_id i) (ri_group_id i) term voted_for (RaftRole_i32 role) (ri_node_id i) in
  let o' := with_lease (λ l, mkLeaseState leader_id (ls_applied_term l) replica_state (ls_descriptor l)
    (ls_move_shard_state l) (ls_subscriber l) (ls_schedule_state l) (ls_leader_subscribers l) (ls_woken l)) o in
  (replica_state, match role with Leader => Some (ls_descriptor (lo_lease_state o)) | _ => None end, o').

Definition on_state_updated (leader_id voted_for term : Z) (role : RaftRole) (o : LeaseStateObserver) : LeaseStateObserver :=
  let '(state, desc, o) := update_replica_state o leader_id voted_for term role in
  let o := broadcast (BReplicaState (ri_group_id (lo_info o)) state) o in
  match desc with Some d => broadcast (BGroupDescriptor (ri_group_id (lo_info o)) d) o | None => o end.

Definition update_descriptor (descriptor : GroupDesc) (o : LeaseStateObserver) : bool * LeaseStateObserver :=
  let o' := with_lease (λ l, mkLeaseState (ls_leader_id l) (ls_applied_term l) (ls_replica_state l) descriptor
    (ls_move_shard_state l) (ls_subscriber l) (ls_schedule_state l) (ls_leader_subscribers l) (ls_woken l)) o in
  (is_raft_leader (lo_lease_state o'), o').

Definition lease_descriptor_updated (descriptor : GroupDesc) (o : LeaseStateObserver) : LeaseStateObserver :=
  let '(leader, o) := update_descriptor descriptor o in
  if (leader : bool) then broadcast (BGroupDescriptor (ri_group_id (lo_info o)) descriptor) o else o.

Definition lease_term_updated (term : Z) : LeaseStateObserver → LeaseStateObserver := with_lease (λ l,
  let l := mkLeaseState (ls_leader_id l) term (ls_replica_state l) (ls_descriptor l) (ls_move_shard_state l)
    (ls_subscriber l) (ls_schedule_state l) (ls_leader_subscribers l) (ls_woken l) in
  if is_ready_for_serving l then
    let l := wake_all_waiters l in
    match ls_move_shard_state l with Some st => notify_subscriber st l | None => l end
  else l).

Definition lease_move_shard_state_updated (st : option MoveShardState) : LeaseStateObserver → LeaseStateObserver :=
  with_lease (λ l,
    let l := mkLeaseState (ls_leader_id l) (ls_applied_term l) (ls_replica_state l) (ls_descriptor l) st
      (ls_subscriber l) (ls_schedule_state l) (ls_leader_subscribers l) (ls_woken l) in
    match ls_move_shard_state l with
    | Some st => if is_ready_for_serving l then notify_subscriber st l else l
    | None => l
    end).

#[global] Instance lease_observer : StateMachineObserver LeaseStateObserver := {
  on_descriptor_updated := lease_descriptor_updated;
  on_term_updated := lease_term_updated;
  on_move_shard_state_updated := lease_move_shard_state_updated;
}.

Definition on_schedule_state_updated (s : ScheduleState) (o : LeaseStateObserver) : LeaseStateObserver :=
  broadcast (BScheduleState (ri_group_id (lo_info o)) s)
    (with_lease (λ l, mkLeaseState (ls_leader_id l) (ls_applied_term l) (ls_replica_state l) (ls_descriptor l)
      (ls_move_shard_state l) (ls_subscriber l) s (ls_leader_subscribers l) (ls_woken l)) o).

(** ** Admission ([Replica::check_request_early]) *)
Definition is_accept_shard (r : Request) : bool := match r with RAcceptShard _ => true | _ => false end.

Definition check_request_early (info : ReplicaInfo) (l : LeaseState) (c : ExecCtx) (req : Request) :
    Result unit * ExecCtx :=
  let group_id := ri_group_id info in
  let c := mkExecCtx group_id (ri_replica_id info) (ec_forward_shard_id c) (ec_epoch c)
    (ec_watch_event_sender c) (ec_move_shard_desc c) in
  if negb (is_raft_leader l) then (Err (NotLeader group_id (ls_applied_term l) (leader_descriptor l)), c)
  else if negb (is_log_term_matched l) then (Err (GroupNotReady group_id), c)
  else
    match ec_forward_shard_id c with
    | Some _ => (Ok tt, c)
    | None =>
        if ec_epoch c <? gd_epoch (ls_descriptor l) then (Err (EpochNotMatch (ls_descriptor l)), c)
        else if has_shard_moving l && is_accept_shard req then (Err (ServiceIsBusy BMoving), c)
        else (Ok tt, mkExecCtx (ec_group_id c) (ec_replica_id c) (ec_forward_shard_id c) (ec_epoch c)
                (ec_watch_event_sender c) (ls_move_shard_state l ≫= mss_move_shard))
    end.

Definition check_leader_early (info : ReplicaInfo) (l : LeaseState) : Result unit :=
  if negb (is_ready_for_serving l) then Err (NotLeader (ri_group_id info) (ls_applied_term l) (leader_descriptor l))
  else Ok tt.

(** What [on_leader] answers at a poll: the term when ready; [None] twice is
    still pending. *)
Definition on_leader_poll (info : ReplicaInfo) (l : LeaseState) (immediate : bool) : option (Result (option Z)) :=
  if is_ready_for_serving l then Some (Ok (Some (rs_term (ls_replica_state l))))
  else if immediate then Some (Ok None)
  else if is_terminated info then Some (Err (NotLeader (ri_group_id info) 0 None))
  else None.

Definition is_change_meta_request (r : Request) : bool :=
  match r with
  | RChangeReplicas _ | RCreateShard _ | RAcceptShard _ | RMoveReplicas _ | RTransfer _ | RSplitShard _ | RMergeShard _ => true
  | RGet _ | RWrite _ | RScan _ | RWriteIntent _ | RCommitIntent _ | RClearIntent _ | RWatchKey _ => false
  end.
(** Which side of the metadata lock a request takes. *)
Inductive MetaAclGuard := AclRead | AclWrite.
Definition take_acl_guard (r : Request) : MetaAclGuard :=
  if is_change_meta_request r && negb (match r with RMoveReplicas _ => true | _ => false end) then AclWrite else AclRead.

(** * The lease state follows the applied metadata

    Through its observer the state machine keeps the lease state's copies of
    the descriptor and of the move-shard state equal to the engine's (the
    progress key of a move apart, which is not announced), so that requests
    are admitted against what has been applied. *)
Section Sync.
  Context {DB : Type} `{RocksDb DB} `{Codec EntryId} `{Codec GroupDesc} `{Codec MoveShardState} `{Codec WriteBatch}.
  Context {T : Type} `{WatchTrigger T}.
  Abbreviation fsm := (GroupStateMachine DB LeaseStateObserver T).
  Implicit Types (f : fsm).

Definition lease f : LeaseState := lo_lease_state (f_observer f).
(** A move without its progress key. *)
Definition move_digest (st : MoveShardState) : option MoveShardDesc * Z := (mss_move_shard st, mss_step st).
Definition in_sync f : Prop :=
  ls_descriptor (lease f) = ge_descriptor (f_group_engine f) ∧
  move_digest <$> ls_move_shard_state (lease f) = move_digest <$> ge_move_shard_state (f_group_engine f).
(** A finished move is not kept. *)
Definition move_running (ge : GroupEngine DB) : Prop :=
  ∀ st, ge_move_shard_state ge = Some st → is_end_step st = false.

(** The move-shard state a commit would leave. *)
Definition effective_move f : option MoveShardState :=
  match ws_move_shard_state (f_plugged_write_states f) with
  | Some st => if is_end_step st then None else Some st
  | None => ge_move_shard_state (f_group_engine f)
  end.
Definition desc_announced f : Prop :=
  fsm_descriptor f = ge_descriptor (f_group_engine f) ∨ f_desc_updated f = true.
Definition move_announced f : Prop :=
  move_digest <$> effective_move f = move_digest <$> ge_move_shard_state (f_group_engine f) ∨
  f_move_shard_state_updated f = true.

(** What the parts of [apply] do to a machine. *)
Record keeps f f' : Prop := {
  kp_engine : f_group_engine f' = f_group_engine f;
  kp_observer : f_observer f' = f_observer f;
  kp_desc : f_desc_updated f = true → f_desc_updated f' = true;
  kp_staged : ws_descriptor (f_plugged_write_states f') = ws_descriptor (f_plugged_write_states f);
  kp_move : move_running (f_group_engine f) → move_announced f → move_announced f';
}.
Lemma keeps_refl f : keeps f f.
Proof. by split. Qed.
Lemma keeps_trans f1 f2 f3 : keeps f1 f2 → keeps f2 f3 → keeps f1 f3.
Proof.
  intros [E1 O1 D1 S1 M1] [E2 O2 D2 S2 M2]. split; [congruence|congruence|auto|congruence|].
  intros Hr Hm. apply M2; [by rewrite E1|auto].
Qed.
Lemma keeps_mark f : keeps f (mark_desc_updated f).
Proof. by split. Qed.
Lemma keeps_move_out s f : keeps f (move_out_shard s f).
Proof. by split. Qed.
Lemma keeps_plug_move st f : keeps f (plug_move_state st true f).
Proof. split; [done..|]. intros _ _. right. cbn. by rewrite orb_true_r. Qed.
(** An ingested key alone is not announced and need not be. *)
Lemma keeps_ingest st key f :
  must_move_shard_state f = Ok st →
  keeps f (plug_move_state (mkMoveShardState (mss_move_shard st) (Some key) (mss_step st)) false f).
Proof.
  intros Hst. split; [done..|]. intros Hr [Hm|Hm]; [left|right; cbn; by rewrite Hm].
  cbn [plug_move_state f_group_engine]. rewrite <- Hm. unfold effective_move, must_move_shard_state in *. cbn.
  destruct (ws_move_shard_state (f_plugged_write_states f)) as [st'|].
  - injection Hst as ->. unfold is_end_step. cbn. by destruct (_ || _).
  - destruct (ge_move_shard_state (f_group_engine f)) as [st'|] eqn:Eg; [|done]. injection Hst as ->.
    pose proof (Hr st Eg) as He. unfold is_end_step in *. cbn [mss_step]. by rewrite He.
Qed.

Lemma move_event_keeps ms g f g' f' :
  apply_move_shard_event ms g f = Ok (g', f') → keeps f f' ∧ (g' = g ∨ f_desc_updated f' = true).
Proof.
  unfold apply_move_shard_event. intros (ev & _ & E)%result_bind_ok.
  destruct ev; [destruct (ms_desc ms); injection E as <- <-; split; auto using keeps_refl, keeps_plug_move|..];
    apply result_bind_ok in E as (st & Est & E);
    try (injection E as <- <-; split; by auto using keeps_plug_move).
  - injection E as <- <-. split; [|by left]. destruct (_ =? _); [apply keeps_plug_move|by apply keeps_ingest].
  - apply result_bind_ok in E as (desc & _ & E). apply result_bind_ok in E as ([g1 f1] & E1 & [= <- <-]).
    unfold apply_moving_shard in E1. apply result_bind_ok in E1 as (s & _ & E1).
    destruct (_ =? _); injection E1 as <- <-; split; try by right.
    + eapply keeps_trans; [apply (keeps_move_out s)|]. eapply keeps_trans; [apply keeps_mark|apply keeps_plug_move].
    + eapply keeps_trans; [apply keeps_mark|apply keeps_plug_move].
Qed.
Lemma sync_op_keeps op g f g' f' :
  apply_sync_op op g f = Ok (g', f') → keeps f f' ∧ (g' = g ∨ f_desc_updated f' = true).
Proof.
  unfold apply_sync_op. intros ([g1 f1] & E1 & ([g2 f2] & E2 & ([g3 f3] & E3 & E)%result_bind_ok)%result_bind_ok)%result_bind_ok.
  assert (keeps f f1 ∧ (g1 = g ∨ f_desc_updated f1 = true)) as [K1 D1].
  { destruct (so_add_shard op) as [[s|]|]; [destruct (existsb _ _); [done|]|..]; injection E1 as <- <-;
      split; auto using keeps_refl, keeps_mark. }
  assert (keeps f1 f2 ∧ (g2 = g1 ∨ f_desc_updated f2 = true)) as [K2 D2].
  { destruct (so_move_shard op); [by eapply move_event_keeps|]. injection E2 as <- <-. auto using keeps_refl. }
  assert (keeps f2 f3 ∧ (g3 = g2 ∨ f_desc_updated f3 = true)) as [K3 D3].
  { destruct (so_split_shard op); [apply result_bind_ok in E3 as (? & _ & E3)|]; injection E3 as <- <-;
      auto using keeps_refl, keeps_mark. }
  assert (keeps f3 f' ∧ (g' = g3 ∨ f_desc_updated f' = true)) as [K4 D4].
  { destruct (so_merge_shard op); [apply result_bind_ok in E as (? & _ & E)|]; injection E as <- <-;
      auto using keeps_refl, keeps_mark. }
  split; [eauto using keeps_trans|].
  destruct D4 as [->|]; [|by right]. destruct D3 as [->|D3]; [|right; by apply K4].
  destruct D2 as [->|D2]; [|right; by apply K4, K3]. destruct D1 as [->|D1]; [by left|right; by apply K4, K3, K2].
Qed.

(** ** Staging announces what it changes *)
Record staged f0 f : Prop := {
  sg_engine : f_group_engine f = f_group_engine f0;
  sg_observer : f_observer f = f_observer f0;
  sg_desc : desc_announced f;
  sg_move : move_announced f;
}.
Lemma apply_staged f0 i t e f f' :
  move_running (f_group_engine f0) → staged f0 f → apply i t e f = Ok f' → staged f0 f'.
Proof.
  intros Hr [E O D M] Ha. unfold apply in Ha. apply result_bind_ok in Ha as (f1 & Ha & [= <-]).
  assert (staged f0 f1) as [E1 O1 D1 M1]; [|by split].
  destruct e as [|cc|er]; [by injection Ha as <-|..].
  - apply result_bind_ok in Ha as (d & _ & [= <-]). split; [done..|by right|done].
  - unfold apply_proposal in Ha. apply result_bind_ok in Ha as (f2 & E2 & Ha).
    assert (staged f0 f2) as [E' O' D' M'].
    { destruct (er_batch er); [apply result_bind_ok in E2 as (wb & _ & E2)|]; injection E2 as <-; by split. }
    destruct (er_op er) as [op|]; [|injection Ha as <-; by split].
    apply result_bind_ok in Ha as ([d f3] & E3 & [= <-]). destruct (sync_op_keeps _ _ _ _ _ E3) as [[Ke Ko Kd Ks Km] Hd].
    split; cbn; [congruence|congruence| |].
    + destruct Hd as [->|Hd]; [|by right]. unfold desc_announced, fsm_descriptor. cbn. rewrite Ke.
      destruct D' as [D'|D']; [left|right; by apply Kd]. exact D'.
    + unfold move_announced, effective_move. cbn. apply Km; [by rewrite E'|done].
Qed.
Lemma stage_staged f0 es f f' :
  move_running (f_group_engine f0) → staged f0 f → stage es f = Ok f' → staged f0 f'.
Proof.
  intros Hr. revert f. induction es as [|[[i t] e] es IH]; intros f Hs; cbn; [by intros [= <-]|].
  intros (f1 & E1 & E)%result_bind_ok. eapply IH; [|done]. by eapply apply_staged.
Qed.

Lemma commit_meta ge wbs states ge' :
  ge_group_commit ge wbs states = Ok ge' →
  ge_descriptor ge' = default (ge_descriptor ge) (ws_descriptor states) ∧
  ge_move_shard_state ge' =
    match ws_move_shard_state states with
    | Some st => if is_end_step st then None else Some st | None => ge_move_shard_state ge end.
Proof.
  unfold ge_group_commit, ge_descriptor, ge_move_shard_state.
  destruct (ws_descriptor states), (ws_move_shard_state states) as [m|]; [| | |by intros [= <-]];
    intros (core & (sds & _ & [= <-])%result_bind_ok & [= <-])%result_bind_ok; done.
Qed.

(** What the observer's calls do to the copies. *)
Lemma lease_desc_after d o (l' := lo_lease_state (lease_descriptor_updated d o)) :
  ls_descriptor l' = d ∧ ls_move_shard_state l' = ls_move_shard_state (lo_lease_state o).
Proof. unfold l', lease_descriptor_updated, update_descriptor. by destruct (is_raft_leader _). Qed.
Lemma lease_term_after t o (l' := lo_lease_state (lease_term_updated t o)) :
  ls_descriptor l' = ls_descriptor (lo_lease_state o) ∧ ls_move_shard_state l' = ls_move_shard_state (lo_lease_state o).
Proof.
  unfold l', lease_term_updated. cbn. destruct (is_ready_for_serving _); [|done]. cbn.
  by destruct (ls_move_shard_state (lo_lease_state o)).
Qed.
Lemma lease_move_after st o (l' := lo_lease_state (lease_move_shard_state_updated st o)) :
  ls_descriptor l' = ls_descriptor (lo_lease_state o) ∧ ls_move_shard_state l' = st.
Proof. unfold l', lease_move_shard_state_updated. cbn. destruct st; [|done]. by destruct (is_ready_for_serving _). Qed.

Lemma flush_sync t f f' (old : GroupEngine DB) :
  flush_updated_events t f = f' →
  ls_descriptor (lease f) = ge_descriptor old → move_digest <$> ls_move_shard_state (lease f) = move_digest <$> ge_move_shard_state old →
  (ge_descriptor (f_group_engine f) = ge_descriptor old ∨ f_desc_updated f = true) →
  (move_digest <$> ge_move_shard_state (f_group_engine f) = move_digest <$> ge_move_shard_state old ∨ f_move_shard_state_updated f = true) →
  in_sync f'.
Proof.
  intros <- Hd Hm Dd Dm. unfold in_sync, lease, flush_updated_events in *. cbn [f_observer f_group_engine].
  set (o1 := if f_desc_updated f then _ else _). set (o2 := if f_last_applied_term f <? t then _ else o1).
  assert (Ho1 : ls_descriptor (lo_lease_state o1) = ge_descriptor (f_group_engine f) ∧
    ls_move_shard_state (lo_lease_state o1) = ls_move_shard_state (lo_lease_state (f_observer f))).
  { unfold o1. destruct (f_desc_updated f); [apply lease_desc_after|]. destruct Dd; [split; congruence|done]. }
  assert (Ho2 : ls_descriptor (lo_lease_state o2) = ls_descriptor (lo_lease_state o1) ∧
    ls_move_shard_state (lo_lease_state o2) = ls_move_shard_state (lo_lease_state o1)).
  { unfold o2. destruct (_ <? _); [apply lease_term_after|done]. }
  destruct Ho1 as [H1d H1m], Ho2 as [H2d H2m]. destruct (f_move_shard_state_updated f).
  - destruct (lease_move_after (ge_move_shard_state (f_group_engine f)) o2) as [Ea Eb].
    split; [exact (eq_trans Ea (eq_trans H2d H1d))|exact (f_equal _ Eb)].
  - destruct Dm as [Dm|]; [|done]. split; congruence.
Qed.

Lemma run_plug_sync es f f' :
  clean f → move_running (f_group_engine f) → in_sync f → run_plug es f = Ok f' →
  in_sync f' ∧ clean f' ∧ move_running (f_group_engine f').
Proof.
  intros [Hb Hs] Hr [Hd Hm] E. unfold run_plug in E. apply result_bind_ok in E as (_ & _ & E).
  apply result_bind_ok in E as (s & S & F).
  assert (staged f f) as Hst.
  { split; [done..|left|left]; unfold fsm_descriptor, effective_move; by rewrite Hs. }
  destruct (stage_staged f es f s Hr Hst S) as [E1 O1 D1 M1].
  unfold finish_plug in F. apply result_bind_ok in F as (a & _ & F). apply result_bind_ok in F as (ge & C & F).
  apply result_bind_ok in F as (f1 & W & [= <-]). destruct (commit_meta _ _ _ _ C) as [Cd Cm].
  unfold trigger_updation_watchers in W. apply result_bind_ok in W as (w & _ & [= <-]).
  unfold desc_announced, fsm_descriptor in D1. unfold move_announced, effective_move in M1.
  rewrite E1 in Cd, Cm, D1, M1. split; [|split].
  - eapply (flush_sync _ _ _ (f_group_engine f)); [reflexivity|..]; unfold lease; cbn; rewrite ?O1; [done|done|..].
    + by rewrite Cd.
    + by rewrite Cm.
  - done.
  - intros st. cbn. rewrite Cm. destruct (ws_move_shard_state _) as [m|]; [|apply Hr].
    destruct (is_end_step m) eqn:Ee; [done|]. by intros [= <-].
Qed.

(** ** A replica over time: plugs of entries and changes of raft state *)
Inductive replica_event :=
  | EvApply (es : list (Z * Z * ApplyEntry))
  | EvRaft (leader_id voted_for term : Z) (role : RaftRole).
Definition set_observer (o : LeaseStateObserver) f : fsm :=
  mkFsm (f_group_engine f) o (f_watch_hub f) (f_plugged_write_batches f) (f_plugged_write_states f)
    (f_move_out_shards f) (f_desc_updated f) (f_move_shard_state_updated f) (f_last_applied_term f).
Definition run_event (e : replica_event) f : Result fsm :=
  match e with
  | EvApply es => run_plug es f
  | EvRaft leader_id voted_for term role => Ok (set_observer (on_state_updated leader_id voted_for term role (f_observer f)) f)
  end.
Fixpoint run_events (es : list replica_event) f : Result fsm :=
  match es with [] => Ok f | e :: es' => let? f' := run_event e f in run_events es' f' end.

Lemma raft_state_sync leader_id voted_for term role f :
  in_sync f → in_sync (set_observer (on_state_updated leader_id voted_for term role (f_observer f)) f).
Proof.
  unfold in_sync, lease, on_state_updated, update_replica_state. intros [Hd Hm]. destruct role; by split.
Qed.
Lemma run_events_sync es f f' :
  clean f → move_running (f_group_engine f) → in_sync f → run_events es f = Ok f' → in_sync f'.
Proof.
  revert f. induction es as [|e es IH]; intros f Hc Hr Hs; cbn; [by intros [= <-]|].
  intros (f1 & E1 & E)%result_bind_ok. destruct e as [ent|leader voted term role].
  - destruct (run_plug_sync _ _ _ Hc Hr Hs E1) as (? & ? & ?). by eapply IH.
  - injection E1 as <-. eapply IH; [| | |exact E]; [done|done|by apply raft_state_sync].
Qed.

(** C11: requests are admitted against the applied metadata: after any sequence
    of applied entries and raft state changes, a request for this group (not a
    forwarded one) is admitted only on a leader that applied an entry of its
    term and only with an epoch not behind the engine's descriptor; its
    context carries the move the engine is in; and a request turned away for
    its epoch is told the engine's descriptor. *)
Theorem admission_sees_applied_metadata es f f' info c req r c' :
  clean f → move_running (f_group_engine f) → in_sync f → run_events es f = Ok f' →
  ec_forward_shard_id c = None →
  check_request_early info (lease f') c req = (r, c') →
  match r with
  | Ok _ => rs_role (ls_replica_state (lease f')) = RaftRole_i32 Leader ∧
            ls_applied_term (lease f') = rs_term (ls_replica_state (lease f')) ∧
            gd_epoch (ge_descriptor (f_group_engine f')) ≤ ec_epoch c ∧
            ec_move_shard_desc c' = ge_move_shard_state (f_group_engine f') ≫= mss_move_shard ∧
            (is_accept_shard req = true → ge_move_shard_state (f_group_engine f') = None)
  | Err (EpochNotMatch d) => d = ge_descriptor (f_group_engine f') ∧ ec_epoch c < gd_epoch d
  | Err _ => True
  | Panic => False
  end.
Proof.
  intros Hc Hr Hs E Hfwd Hchk. destruct (run_events_sync _ _ _ Hc Hr Hs E) as [Hd Hm].
  assert (Hmd : ls_move_shard_state (lease f') ≫= mss_move_shard = ge_move_shard_state (f_group_engine f') ≫= mss_move_shard).
  { destruct (ls_move_shard_state (lease f')), (ge_move_shard_state (f_group_engine f')); try done.
    cbn in Hm |- *. by injection Hm. }
  unfold check_request_early in Hchk. cbn [ec_forward_shard_id ec_epoch] in Hchk. rewrite Hfwd in Hchk.
  destruct (is_raft_leader (lease f')) eqn:El; [|by injection Hchk as <- _].
  destruct (is_log_term_matched (lease f')) eqn:Et; [|by injection Hchk as <- _]. cbn [negb] in Hchk.
  unfold is_raft_leader, is_log_term_matched in *. to_prop.
  destruct (ec_epoch c <? gd_epoch (ls_descriptor (lease f'))) eqn:Ee; to_prop.
  { injection Hchk as <- _. by rewrite Hd in *. }
  destruct (has_shard_moving (lease f') && is_accept_shard req) eqn:Eb; [by injection Hchk as <- _|].
  injection Hchk as <- <-. cbn. rewrite Hd in Ee. split_and!; [done..|].
  intros Ha. rewrite Ha, andb_true_r in Eb. unfold has_shard_moving in Eb.
  destruct (ls_move_shard_state (lease f')); [done|]. by destruct (ge_move_shard_state (f_group_engine f')).
Qed.
End Sync.
