(* ===== verification/FsmSamples.v ===== *)
(** * Concrete runs of the state machine and the lease state *)

From S2P Require Import Prelude Bytes Api Schema RocksDb Keys Engine EngineFacts EngineWrites Samples EvalTxn TxnSamples.
From S2P Require Import Fsm FsmProps FsmPlug Lease.

#[global] Instance deaf_trigger : WatchTrigger unit := { start_send _ _ := None }.
Abbreviation sample_fsm := (GroupStateMachine (gmap bytes bytes) LeaseStateObserver unit).
Definition sample_info : ReplicaInfo := mkReplicaInfo 1 7 1 Normal.
Definition sample_machine : sample_fsm :=
  mkFsm (sample_engine []) (mkLeaseStateObserver sample_info (LeaseState_new (ge_descriptor (sample_engine [])) None) [])
    (mkWatchHub [] ∅) [] WriteStates_default ∅ false false 0.

Definition sample_split : shard_op := OpSplit (mkSplitShard 1 2 (str_bytes "m")).
Definition or_default {A} (d : A) (r : Result A) : A := match r with Ok a => a | _ => d end.
Definition split_desc : GroupDesc :=
  (or_default (ge_descriptor (sample_engine []), sample_machine)
    (apply_sync_op (sync_op sample_split) (ge_descriptor (sample_engine [])) sample_machine)).1.

Lemma sample_shards_ok : shards_ok (ge_descriptor (sample_engine [])).
Proof.
  split; [|split].
  - repeat constructor; set_solver.
  - apply Forall_cons. split; [by left|done].
  - intros s1 s2 k E1%list_elem_of_singleton E2%list_elem_of_singleton. by subst.
Qed.


Definition entries1 : list (Z * Z * ApplyEntry) := [(1, 1, Empty); (2, 1, Proposal (mkEvalResult None (Some (sync_op sample_split))))].
Definition entries2 : list (Z * Z * ApplyEntry) := [(3, 1, ConfigChange [mkChangeReplica 2 9 9])].

(** These entries carry no data and the group has no watchers: their run
    depends on the in-memory core only. *)
Section Runs.
  Context {DB : Type} `{RocksDb DB} `{Codec EntryId} `{Codec GroupDesc} `{Codec MoveShardState} `{Codec WriteBatch}.

Definition quiet (core : GroupEngineCore) (f : GroupStateMachine DB LeaseStateObserver unit) : Prop :=
  clean f ∧ ge_core (f_group_engine f) = core ∧ f_watch_hub f = mkWatchHub [] ∅ ∧ f_move_out_shards f = ∅.
Definition split_core : GroupEngineCore := mkGroupEngineCore split_desc (internal_shard_descs split_desc) None.

Definition leading : LeaseStateObserver :=
  on_state_updated 1 1 1 Leader (mkLeaseStateObserver sample_info (LeaseState_new sample_group None) []).
Lemma entries1_run db :
  ∃ f1, run_plug entries1 (mkFsm (mkGroupEngine db (ge_core (sample_engine []))) leading (mkWatchHub [] ∅) []
      WriteStates_default ∅ false false 0) = Ok f1 ∧ quiet split_core f1 ∧
    is_raft_leader (lease f1) = true ∧ is_log_term_matched (lease f1) = true ∧
    gd_epoch (ls_descriptor (lease f1)) = gd_epoch split_desc.
Proof.
  eexists. split; [reflexivity|]. split; [|split_and!; reflexivity].
  split; [split; reflexivity|]. split; [reflexivity|]. split; reflexivity.
Qed.
Lemma entries2_run f : quiet split_core f → ∃ f2, run_plug entries2 f = Ok f2.
Proof.
  destruct f as [[db core] o hub wbs ws mo du mu lt]. intros [[Hb Hs] (Hc & Hh & Hm)]. cbn in Hb, Hs, Hc, Hh, Hm. subst.
  eexists. reflexivity.
Qed.
Lemma entries2_batches f f' : quiet split_core f → stage entries2 f = Ok f' → f_plugged_write_batches f' = [].
Proof.
  destruct f as [[db core] o hub wbs ws mo du mu lt]. intros [[Hb Hs] (Hc & Hh & Hm)]. cbn in Hb, Hs, Hc, Hh, Hm. subst.
  cbn. by intros [= <-].
Qed.
End Runs.

Definition leading_machine : sample_fsm :=
  mkFsm (sample_engine []) leading (mkWatchHub [] ∅) [] WriteStates_default ∅ false false 0.

Lemma plug_batching_invisible_witness :
  ∃ f12 ge12 f1 f2, run_plug entries1 leading_machine = Ok f1 ∧ run_plug entries2 f1 = Ok f2 ∧
    stage (entries1 ++ entries2) leading_machine = Ok f12 ∧ commit_staged f12 = Ok ge12 ∧
    engine_equiv ge12 (f_group_engine f2).
Proof.
  destruct (entries1_run (ge_db (sample_engine []))) as (f1 & E1 & Q1 & _).
  destruct (entries2_run f1 Q1) as (f2 & E2).
  destruct (plug_batching_invisible entries1 entries2 leading_machine f1 f2) as (f12 & ge12 & S & C & Heq).
  - by split.
  - reflexivity.
  - discriminate.
  - exact E1.
  - exact E2.
  - intros f' Hst. rewrite (entries2_batches f1 f' Q1 Hst). constructor.
  - exists f12, ge12, f1, f2. auto.
Defined.

Lemma admission_sees_applied_metadata_witness :
  ∃ f', run_events [EvApply entries1] leading_machine = Ok f' ∧
    match (check_request_early sample_info (lease f') (ExecCtx_with_epoch 5) (RGet (mkShardGetRequest 1 9 key_a))).1 with
    | Err (EpochNotMatch d) => d = ge_descriptor (f_group_engine f') ∧ 5 < gd_epoch d
    | _ => False
    end.
Proof.
  destruct (entries1_run (ge_db (sample_engine []))) as (f1 & E1 & _ & Hl1 & Hl2 & He).
  assert (E : run_events [EvApply entries1] leading_machine = Ok f1).
  { cbn [run_events run_event]. unfold leading_machine. exact (f_equal (λ r, let? f := r in Ok f) E1). }
  exists f1. split; [exact E|].
  pose proof (admission_sees_applied_metadata [EvApply entries1] leading_machine f1 sample_info (ExecCtx_with_epoch 5)
    (RGet (mkShardGetRequest 1 9 key_a))) as Hthm.
  destruct (check_request_early sample_info (lease f1) (ExecCtx_with_epoch 5) (RGet (mkShardGetRequest 1 9 key_a)))
    as [r c'] eqn:Echk.
  specialize (Hthm r c'). cbn [fst].
  assert (r = Err (EpochNotMatch (ls_descriptor (lease f1)))) as Er.
  { unfold check_request_early in Echk. rewrite Hl1, Hl2 in Echk. cbn [negb] in Echk.
    cbn [ec_forward_shard_id ec_epoch ExecCtx_with_epoch] in Echk. rewrite He in Echk. by injection Echk as <- _. }
  rewrite Er in Hthm |- *. apply Hthm; [by split|done|by split|exact E|done|]. by rewrite Er in Echk.
Defined.
