(* ===== verification/Parse.v ===== *)
(** * The tokenizer of the statement language

    [src/src/parser/src/token.rs] and the error and coordinate types of
    [src/src/parser/src/lib.rs].  A token rule consumes bytes from the front
    of the input; the keyword structs that the [keyword!] macro generates are
    one record indexed by the keyword.  Strings are their UTF-8 bytes. *)

From stdpp Require Import pretty.
From Stdlib Require Strings.String Strings.Ascii.
From Stdlib Require Import Strings.Byte.
From S2P Require Import Prelude Bytes.
#[local] Open Scope Z_scope.

(** ** UTF-8, as [core::str] validates it *)
Definition in_bytes (lo hi : Z) (b : byte) : bool := (lo <=? byte_Z b) && (byte_Z b <=? hi).
Definition is_cont : byte → bool := in_bytes 128 191.

(** The second byte a leading byte of a three- or four-byte character allows. *)
Definition second_ok (first second : byte) : bool :=
  let f := byte_Z first in
  if f =? 224 then in_bytes 160 191 second
  else if f =? 237 then in_bytes 128 159 second
  else if f =? 240 then in_bytes 144 191 second
  else if f =? 244 then in_bytes 128 143 second
  else is_cont second.

(** How many of the following bytes continue a character of [n] more bytes. *)
Fixpoint cont_run (n : nat) (s : bytes) : nat :=
  match n, s with
  | S n', b :: s' => if is_cont b then S (cont_run n' s') else O
  | _, _ => O
  end.

(** A step over the front of a non-empty slice: whether it is a character, and
    how many bytes it, or the maximal broken part of one, has. *)
Definition utf8_step (first : byte) (s : bytes) : bool * nat :=
  let f := byte_Z first in
  if f <? 128 then (true, 1%nat)
  else if in_bytes 194 223 first then
    match s with
    | b :: _ => if is_cont b then (true, 2%nat) else (false, 1%nat)
    | [] => (false, 1%nat)
    end
  else if in_bytes 224 244 first then
    let more := if f <? 240 then 1%nat else 2%nat in
    match s with
    | b :: s' =>
        if second_ok first b then
          let n := cont_run more s' in (bool_decide (n = more), S (S n))
        else (false, 1%nat)
    | [] => (false, 1%nat)
    end
  else (false, 1%nat).

Definition REPLACEMENT : bytes := [xef; xbf; xbd].

Fixpoint utf8_lossy (fuel : nat) (s : bytes) : bytes :=
  match fuel, s with
  | S fuel', b :: s' =>
      let '(ok, n) := utf8_step b s' in
      (if ok then take n s else REPLACEMENT) ++ utf8_lossy fuel' (drop n s)
  | _, _ => []
  end.
(** [String::from_utf8_lossy]. *)
Definition from_utf8_lossy (s : bytes) : bytes := utf8_lossy (length s) s.

Fixpoint utf8_valid_fuel (fuel : nat) (s : bytes) : bool :=
  match fuel, s with
  | S fuel', b :: s' =>
      let '(ok, n) := utf8_step b s' in ok && utf8_valid_fuel fuel' (drop n s)
  | _, _ => true
  end.
(** [std::str::from_utf8(s).is_ok()]. *)
Definition utf8_valid (s : bytes) : bool := utf8_valid_fuel (length s) s.

(** ** Coordinates and errors *)
Record Coord := mkCoord { co_row : Z; co_col : Z; co_pos : Z }.

Inductive ParseError :=
  | Unknown (what : string) (c : Coord)
  | Unexpected (c : Coord)
  | UnexpectedEOS (what : string)
  | Expect (what : string) (c : Coord)
  | InvalidEncoding (c : Coord)
  | UnexpectedToken (what : string) (c : Coord).
Abbreviation ParseResult := (result ParseError).

(** ** The tokenizer *)
Record Tokenizer := mkTokenizer { tk_input : bytes; tk_coord : Coord }.

Definition Tokenizer_new (input : bytes) : Tokenizer := mkTokenizer input (mkCoord 1 1 0).

(** [slice::split_at] panics past the end. *)
Definition split_at (t : Tokenizer) (pos : nat) : ParseResult ((bytes * Coord) * Tokenizer) :=
  let c := tk_coord t in
  if decide (pos ≤ length (tk_input t))%nat then
    Ok ((take pos (tk_input t), c),
        mkTokenizer (drop pos (tk_input t))
          (mkCoord (u64_add (co_row c) (Z.of_nat pos)) (co_col c) (u64_add (co_pos c) (Z.of_nat pos))))
  else Panic.

(** The index at which the loop of [split_when] stops. *)
Fixpoint split_index (pred : byte → bool) (s : bytes) : nat :=
  match s with
  | b :: s' => if pred b then O else S (split_index pred s')
  | [] => O
  end.
Definition split_when (t : Tokenizer) (pred : byte → bool) : (bytes * Coord) * Tokenizer :=
  let i := split_index pred (tk_input t) in
  let c := tk_coord t in
  ((take i (tk_input t), c),
   mkTokenizer (drop i (tk_input t))
     (mkCoord (co_row c) (u64_add (co_col c) (Z.of_nat i)) (u64_add (co_pos c) (Z.of_nat i)))).

Fixpoint skip_whitespace_loop (s : bytes) (c : Coord) : Tokenizer :=
  match s with
  | "010"%byte :: s' => skip_whitespace_loop s' (mkCoord (u64_add (co_row c) 1) 1 (co_pos c))
  | " "%byte :: s' | "009"%byte :: s' | "013"%byte :: s' =>
      skip_whitespace_loop s' (mkCoord (co_row c) (u64_add (co_col c) 1) (co_pos c))
  | _ => mkTokenizer s c
  end.
Definition skip_whitespace (t : Tokenizer) : Tokenizer :=
  skip_whitespace_loop (tk_input t) (tk_coord t).

Definition has_more (t : Tokenizer) : bool * Tokenizer :=
  let t := skip_whitespace t in
  (match tk_input t with [] => false | _ => true end, t).

(** ** Token rules *)
Class TokenRule (T : Type) := {
  tok_parse : Tokenizer → ParseResult (T * Tokenizer);
  tok_coord : T → Coord;
  tok_content : T → bytes }.

Definition next T `{TokenRule T} (t : Tokenizer) : ParseResult (T * Tokenizer) :=
  tok_parse (skip_whitespace t).
(** On a clone of the tokenizer: nothing is consumed. *)
Definition peek T `{TokenRule T} (t : Tokenizer) : bool := is_ok (next T t).

Inductive keyword :=
  | KConfig | KCreate | KDatabase | KDebug | KDelete | KEcho | KExists | KFrom | KGet | KHelp
  | KIf | KInto | KNot | KPut | KShow | KTable.
Definition kw_name (k : keyword) : string :=
  match k with
  | KConfig => "config" | KCreate => "create" | KDatabase => "database" | KDebug => "debug"
  | KDelete => "delete" | KEcho => "echo" | KExists => "exists" | KFrom => "from" | KGet => "get"
  | KHelp => "help" | KIf => "if" | KInto => "into" | KNot => "not" | KPut => "put"
  | KShow => "show" | KTable => "table"
  end.
Definition upper (b : byte) : byte := if in_bytes 97 122 b then Z_byte (byte_Z b - 32) else b.
Definition kw_lower (k : keyword) : bytes := str_bytes (kw_name k).
Definition kw_upper (k : keyword) : bytes := upper <$> kw_lower k.

Record Keyword (k : keyword) := mkKeyword { kw_content : bytes; kw_coord : Coord }.
Arguments mkKeyword {k}.
Arguments kw_content {k}.
Arguments kw_coord {k}.

Definition Keyword_parse (k : keyword) (t : Tokenizer) : ParseResult (Keyword k * Tokenizer) :=
  if negb (starts_with (tk_input t) (kw_lower k)) && negb (starts_with (tk_input t) (kw_upper k)) then
    Err (Expect (String.append "keyword " (kw_name k)) (tk_coord t))
  else
    let? ' ((content, coord), t') := split_at t (length (kw_lower k)) in
    Ok (mkKeyword content coord, t').
#[global] Instance Keyword_rule k : TokenRule (Keyword k) :=
  { tok_parse := Keyword_parse k; tok_coord := kw_coord; tok_content := kw_content }.

Record Dot := mkDot { dot_coord : Coord }.
Definition Dot_parse (t : Tokenizer) : ParseResult (Dot * Tokenizer) :=
  if starts_with (tk_input t) (str_bytes ".") then
    let? ' ((_, coord), t') := split_at t 1 in Ok (mkDot coord, t')
  else Err (Expect "symbol ." (tk_coord t)).
#[global] Instance Dot_rule : TokenRule Dot :=
  { tok_parse := Dot_parse; tok_coord := dot_coord; tok_content _ := str_bytes "." }.

(** [;] or the end of the input. *)
Record Semicolon := mkSemicolon { semi_coord : Coord }.
Definition Semicolon_parse (t : Tokenizer) : ParseResult (Semicolon * Tokenizer) :=
  let coord := tk_coord t in
  if negb (starts_with (tk_input t) (str_bytes ";")) && negb (bool_decide (tk_input t = [])) then
    Err (Expect "symbol ;" coord)
  else if negb (bool_decide (tk_input t = [])) then
    let? ' (_, t') := split_at t 1 in Ok (mkSemicolon coord, t')
  else Ok (mkSemicolon coord, t).
#[global] Instance Semicolon_rule : TokenRule Semicolon :=
  { tok_parse := Semicolon_parse; tok_coord := semi_coord; tok_content _ := str_bytes ";" }.

Definition is_ident (c : byte) : bool :=
  in_bytes 97 122 c || in_bytes 65 90 c || bool_decide (c = "_"%byte) || bool_decide (c = "-"%byte)
  || in_bytes 48 57 c.
Record Ident := mkIdent { id_content : bytes; id_coord : Coord }.
Definition Ident_value (i : Ident) : ParseResult bytes :=
  if utf8_valid (id_content i) then Ok (id_content i) else Panic.
Definition Ident_parse (t : Tokenizer) : ParseResult (Ident * Tokenizer) :=
  let '((content, coord), t') := split_when t (λ c, negb (is_ident c)) in
  match content with
  | [] => Err (Expect "ident [a-zA-Z0-9_]*" coord)
  | _ => if negb (utf8_valid content) then Err (InvalidEncoding coord) else Ok (mkIdent content coord, t')
  end.
#[global] Instance Ident_rule : TokenRule Ident :=
  { tok_parse := Ident_parse; tok_coord := id_coord; tok_content := id_content }.

Record Literal := mkLiteral { li_value : bytes; li_content : bytes; li_coord : Coord }.

(** The loop over a quoted literal ([x22] is the quote, [x5c] the backslash)
    from index [i], [s] the input from there:
    the value and the index after the closing quote, [None] when the input
    ends first. *)
Fixpoint literal_loop (coord : Coord) (s : bytes) (i : nat) (value : bytes) :
    ParseResult (option (bytes * nat)) :=
  match s with
  | [] => Ok None
  | x5c :: s' =>
      match s' with
      | [] => Err (UnexpectedEOS "escape value")
      | "n"%byte :: s'' => literal_loop coord s'' (i + 2) (value ++ ["010"%byte])
      | "t"%byte :: s'' => literal_loop coord s'' (i + 2) (value ++ ["009"%byte])
      | "r"%byte :: s'' => literal_loop coord s'' (i + 2) (value ++ ["013"%byte])
      | " "%byte :: s'' => literal_loop coord s'' (i + 2) (value ++ [" "%byte])
      | x5c :: s'' => literal_loop coord s'' (i + 2) (value ++ [x5c])
      | c :: _ => Err (Unknown (String.append "escape value: " (pretty (Byte.to_N c))) coord)
      end
  | x22 :: _ => Ok (Some (value, S i))
  | c :: s' => literal_loop coord s' (S i) (value ++ [c])
  end.
Definition is_space (c : byte) : bool :=
  bool_decide (c = " "%byte) || bool_decide (c = "009"%byte) || bool_decide (c = "013"%byte)
  || bool_decide (c = "010"%byte).
Definition Literal_parse (t : Tokenizer) : ParseResult (Literal * Tokenizer) :=
  if starts_with (tk_input t) [x22] then
    let? r := literal_loop (tk_coord t) (drop 1 (tk_input t)) 1 [] in
    match r with
    | None => Err (Expect (String.append "close " (String.String (Ascii.ascii_of_byte x22) String.EmptyString)) (tk_coord t))
    | Some (value, i) =>
        let? ' ((content, coord), t') := split_at t i in
        Ok (mkLiteral value content coord, t')
    end
  else
    let '((content, coord), t') := split_when t is_space in
    match content with
    | [] => Err (Expect "literal" coord)
    | _ => Ok (mkLiteral content content coord, t')
    end.
#[global] Instance Literal_rule : TokenRule Literal :=
  { tok_parse := Literal_parse; tok_coord := li_coord; tok_content := li_content }.

(** * The statement parser

    [src/src/parser/src/ast.rs] (the statements) and
    [src/src/parser/src/parse.rs]: recursive descent over the tokenizer, one
    definition per [parse_*] function.  [DEBUG <statement>] is the only
    recursion; the fuel of [Parser_parse] bounds its depth, and [parse] gives it
    one more than the number of bytes of the input, each level consuming five
    of them. *)
(** ** Statements *)
Record EchoStatement := mkEcho { es_message : bytes }.
Record CreateDbStatement := mkCreateDb { cd_db_name : bytes; cd_create_if_not_exists : bool }.
Record CreateTableStatement := mkCreateTable {
  ct_db_name : bytes; ct_table_name : bytes; ct_create_if_not_exists : bool }.
Record ConfigStatement := mkConfig { cs_key : bytes; cs_value : bytes }.
Record HelpStatement := mkHelp { hs_topic : option bytes }.
Record ShowStatement := mkShow { ssm_property : bytes; ssm_from : option bytes }.
Record PutStatement := mkPutStmt {
  pst_key : bytes; pst_value : bytes; pst_db_name : bytes; pst_table_name : bytes }.
Record DeleteStatement := mkDeleteStmt { dst_key : bytes; dst_db_name : bytes; dst_table_name : bytes }.
Record GetStatement := mkGetStmt { gst_key : bytes; gst_db_name : bytes; gst_table_name : bytes }.

Inductive Statement :=
  | SCreateDb (s : CreateDbStatement)
  | SCreateTable (s : CreateTableStatement)
  | SConfig (s : ConfigStatement)
  | SDebug (s : DebugStatement)
  | SEcho (s : EchoStatement)
  | SHelp (s : HelpStatement)
  | SShow (s : ShowStatement)
  | SPut (s : PutStatement)
  | SDelete (s : DeleteStatement)
  | SGet (s : GetStatement)
with DebugStatement := mkDebug (dbg_stmt : Statement).

(** A step of the parser: [parser.next::<T>()?], with the tokenizer threaded. *)
Definition parser (A : Type) : Type := Tokenizer → ParseResult (A * Tokenizer).
Definition p_ret {A} (a : A) : parser A := λ t, Ok (a, t).
Definition p_err {A} (e : Tokenizer → ParseError) : parser A := λ t, Err (e t).
Definition p_bind {A B} (m : parser A) (k : A → parser B) : parser B :=
  λ t, let? ' (a, t') := m t in k a t'.
Definition p_peek T `{TokenRule T} {A} (yes no : parser A) : parser A :=
  λ t, if peek T t then yes t else no t.
(** [parser.next::<Token![ident]>()?.value().to_owned()]. *)
Definition next_ident : parser bytes := λ t,
  let? ' (i, t') := next Ident t in let? v := Ident_value i in Ok (v, t').
Definition next_literal : parser bytes := λ t,
  let? ' (l, t') := next Literal t in Ok (li_value l, t').

Notation "'let+' x := m 'in' k" := (p_bind m (λ x, k))
  (at level 10, x name, m at level 100, k at level 200) : sekas_scope.
Notation "'do+' m 'in' k" := (p_bind m (λ _, k))
  (at level 10, m at level 100, k at level 200) : sekas_scope.

(** ** The statements *)
Definition try_parse_if_not_exists : parser bool :=
  p_peek (Keyword KIf)
    (do+ next (Keyword KIf) in
     do+ next (Keyword KNot) in
     do+ next (Keyword KExists) in
     p_ret true)
    (p_ret false).

Definition parse_echo_statement : parser Statement :=
  do+ next (Keyword KEcho) in
  let+ msg := next_literal in
  do+ next Semicolon in
  p_ret (SEcho (mkEcho (from_utf8_lossy msg))).

Definition parse_config_stmt : parser Statement :=
  do+ next (Keyword KConfig) in
  let+ key := next_literal in
  let+ value := next_literal in
  do+ next Semicolon in
  p_ret (SConfig (mkConfig key value)).

Definition parse_create_stmt : parser Statement :=
  do+ next (Keyword KCreate) in
  p_peek (Keyword KDatabase)
    (do+ next (Keyword KDatabase) in
     let+ create_if_not_exists := try_parse_if_not_exists in
     let+ db_name := next_ident in
     do+ next Semicolon in
     p_ret (SCreateDb (mkCreateDb db_name create_if_not_exists)))
    (p_peek (Keyword KTable)
      (do+ next (Keyword KTable) in
       let+ create_if_not_exists := try_parse_if_not_exists in
       let+ db_name := next_ident in
       do+ next Dot in
       let+ table_name := next_ident in
       do+ next Semicolon in
       p_ret (SCreateTable (mkCreateTable db_name table_name create_if_not_exists)))
      (p_err (λ t, UnexpectedToken "database or table" (tk_coord t)))).

Definition parse_get_stmt : parser Statement :=
  do+ next (Keyword KGet) in
  let+ key := next_literal in
  do+ next (Keyword KFrom) in
  let+ db_name := next_ident in
  do+ next Dot in
  let+ table_name := next_ident in
  p_ret (SGet (mkGetStmt key db_name table_name)).

Definition parse_put_stmt : parser Statement :=
  do+ next (Keyword KPut) in
  let+ key := next_literal in
  let+ value := next_literal in
  do+ next (Keyword KInto) in
  let+ db_name := next_ident in
  do+ next Dot in
  let+ table_name := next_ident in
  p_ret (SPut (mkPutStmt key value db_name table_name)).

Definition parse_delete_stmt : parser Statement :=
  do+ next (Keyword KDelete) in
  let+ key := next_literal in
  do+ next (Keyword KFrom) in
  let+ db_name := next_ident in
  do+ next Dot in
  let+ table_name := next_ident in
  p_ret (SDelete (mkDeleteStmt key db_name table_name)).

Definition parse_show_stmt : parser Statement :=
  do+ next (Keyword KShow) in
  let+ ident := next_ident in
  let+ from :=
    p_peek (Keyword KFrom)
      (do+ next (Keyword KFrom) in let+ name := next_ident in p_ret (Some name))
      (p_ret None) in
  do+ next Semicolon in
  p_ret (SShow (mkShow ident from)).

Definition parse_help_stmt : parser Statement :=
  do+ next (Keyword KHelp) in
  let+ topic := p_peek Ident (let+ topic := next_ident in p_ret (Some topic)) (p_ret None) in
  do+ next Semicolon in
  p_ret (SHelp (mkHelp topic)).

Definition parse_debug_stmt (parse : parser (option Statement)) : parser Statement :=
  do+ next (Keyword KDebug) in
  let+ stmt := parse in
  match stmt with
  | None => p_err (λ _, UnexpectedEOS "statement")
  | Some stmt => p_ret (SDebug (mkDebug stmt))
  end.

(** [Parser::parse], given the recursive call of [parse_debug_stmt]. *)
Definition parse_with (parse : parser (option Statement)) : parser (option Statement) := λ t,
  let '(more, t) := has_more t in
  if negb more then Ok (None, t)
  else
    (let+ stmt :=
       p_peek (Keyword KEcho) parse_echo_statement
       (p_peek (Keyword KConfig) parse_config_stmt
       (p_peek (Keyword KCreate) parse_create_stmt
       (p_peek (Keyword KGet) parse_get_stmt
       (p_peek (Keyword KPut) parse_put_stmt
       (p_peek (Keyword KDelete) parse_delete_stmt
       (p_peek (Keyword KShow) parse_show_stmt
       (p_peek (Keyword KHelp) parse_help_stmt
       (p_peek (Keyword KDebug) (parse_debug_stmt parse)
       (p_err (λ t, Unexpected (tk_coord t))))))))))) in
     p_ret (Some stmt)) t.

Fixpoint Parser_parse (fuel : nat) : parser (option Statement) :=
  match fuel with
  | O => λ _, Panic
  | S fuel' => parse_with (Parser_parse fuel')
  end.

(** The free function [parse]; [input] is the UTF-8 text of a [&str]. *)
Definition parse (input : bytes) : ParseResult (option Statement) :=
  let? ' (stmt, _) := Parser_parse (S (length input)) (Tokenizer_new input) in Ok stmt.
