(* ===== verification/ParseProps.v ===== *)
(** * Correctness of the statement parser

    Termination and absence of panics on every input, the types of what is
    parsed, and the round trip of printing a statement and parsing it. *)

From S2P Require Import Prelude Bytes Parse.
From Stdlib Require Import Strings.Byte.
#[local] Open Scope Z_scope.

Create HintDb parse discriminated.
#[local] Arguments utf8_valid : simpl never.
#[local] Arguments from_utf8_lossy : simpl never.

(** ** UTF-8 *)
Lemma utf8_step_pos b s : (1 ≤ (utf8_step b s).2)%nat.
Proof. unfold utf8_step. repeat case_on_match; cbn; lia. Qed.

Lemma utf8_lossy_valid fuel s :
  (length s ≤ fuel)%nat → utf8_valid_fuel fuel s = true → utf8_lossy fuel s = s.
Proof.
  revert s. induction fuel as [|fuel IH]; intros [|b s] Hl; cbn [utf8_valid_fuel utf8_lossy length] in *;
    [done|lia|done|].
  pose proof (utf8_step_pos b s) as Hp. destruct (utf8_step b s) as [ok n]. cbn in Hp.
  intros [-> Hv]%andb_true_iff. rewrite IH; [apply take_drop| |done].
  rewrite length_drop. cbn [length]. lia.
Qed.

(** A valid string is not changed. *)
Lemma from_utf8_lossy_valid s : utf8_valid s = true → from_utf8_lossy s = s.
Proof. by apply utf8_lossy_valid. Qed.

Lemma cont_run_local n s x : cont_run n s = n → cont_run n (take n s ++ x) = n.
Proof.
  revert s. induction n as [|n IH]; intros [|b s]; cbn; try done.
  destruct (is_cont b); [|done]. intros [= ?]. f_equal. by apply IH.
Qed.

(** A character is recognised by its own bytes. *)
Lemma utf8_step_local b s n x :
  utf8_step b s = (true, n) → utf8_step b (take (pred n) s ++ x) = (true, n).
Proof.
  unfold utf8_step. destruct (byte_Z b <? 128); [intros [= <-]; done|].
  destruct (in_bytes 194 223 b).
  { destruct s as [|c s]; [done|]. destruct (is_cont c) eqn:E; [|done].
    intros [= <-]. cbn. by rewrite E. }
  destruct (in_bytes 224 244 b); [|done]. destruct s as [|c s]; [done|].
  destruct (second_ok b c) eqn:E; [|done].
  set (m := if byte_Z b <? 240 then 1%nat else 2%nat).
  intros [= Hm%bool_decide_eq_true <-]. cbn. rewrite E, Hm, cont_run_local by done.
  by rewrite bool_decide_eq_true_2.
Qed.

Lemma utf8_valid_step b s n t f :
  utf8_step b s = (true, n) → (n ≤ S (length s))%nat →
  (∀ f, (length t ≤ f)%nat → utf8_valid_fuel f t = true) →
  (length (take n (b :: s) ++ t) ≤ f)%nat → utf8_valid_fuel f (take n (b :: s) ++ t) = true.
Proof.
  intros Hs Hn Ht Hf. pose proof (utf8_step_pos b s) as Hp. rewrite Hs in Hp.
  destruct n as [|n]; [cbn in Hp; lia|]. cbn [take app] in *.
  destruct f as [|f]; [done|]. cbn [utf8_valid_fuel].
  rewrite (utf8_step_local _ _ _ _ Hs). cbn [pred andb drop].
  cbn in Hn. rewrite drop_app_length' by (rewrite length_take; lia).
  apply Ht. revert Hf. cbn. rewrite length_app, length_take. lia.
Qed.

Lemma cont_run_le n s : (cont_run n s ≤ n ∧ cont_run n s ≤ length s)%nat.
Proof.
  revert s. induction n as [|n IH]; intros [|b s]; cbn; try lia.
  destruct (is_cont b); [|lia]. destruct (IH s). lia.
Qed.

Lemma utf8_step_len b s : ((utf8_step b s).2 ≤ S (length s))%nat.
Proof.
  unfold utf8_step. destruct (_ <? 128); [cbn; lia|]. destruct (in_bytes 194 223 b).
  { destruct s as [|c s]; [|destruct (is_cont c)]; cbn; lia. }
  destruct (in_bytes 224 244 b); [|cbn; lia]. destruct s as [|c s]; [cbn; lia|].
  destruct (second_ok b c); [|cbn; lia]. cbn [snd length].
  destruct (cont_run_le (if byte_Z b <? 240 then 1 else 2) s). lia.
Qed.

(** What [from_utf8_lossy] returns is UTF-8. *)
Lemma utf8_valid_lossy s : utf8_valid (from_utf8_lossy s) = true.
Proof.
  unfold utf8_valid. enough (∀ n f, (length (utf8_lossy n s) ≤ f)%nat → utf8_valid_fuel f (utf8_lossy n s) = true)
    by (apply (H (length s)); reflexivity).
  intros n. revert s. induction n as [|n IH]; intros [|b s] f Hf; cbn [utf8_lossy] in *;
    [by destruct f..|].
  pose proof (utf8_step_len b s) as Hlen. destruct (utf8_step b s) as [ok m] eqn:E. destruct ok.
  - eapply utf8_valid_step; eauto.
  - destruct f as [|f]; [done|]. cbn in *. change (drop 0 ?x) with x. apply IH. lia.
Qed.

(** ** Steps that consume input, never panic, and what they return *)
Abbreviation left t := (length (tk_input t)).

(** On at most [n] bytes, [m] does not panic, does not grow the input, and
    returns only values [Q] allows. *)
Definition safe {A} (n : nat) (Q : A → Prop) (m : parser A) : Prop :=
  ∀ t, (left t ≤ n)%nat →
  match m t with
  | Ok (a, t') => (left t' ≤ left t)%nat ∧ Q a
  | Err _ => True
  | Panic => False
  end.

Lemma safe_bind {A B} n P Q (m : parser A) (k : A → parser B) :
  safe n P m → (∀ a, P a → safe n Q (k a)) → safe n Q (p_bind m k).
Proof.
  intros Hm Hk t Ht. unfold p_bind. specialize (Hm t Ht). destruct (m t) as [[a t']| |]; cbn; [|done..].
  destruct Hm as [Hle Ha]. specialize (Hk a Ha t' ltac:(lia)).
  destruct (k a t') as [[b t'']| |]; [|done..]. split; [lia|apply Hk].
Qed.
Lemma safe_ret {A} n (Q : A → Prop) a : Q a → safe n Q (p_ret a).
Proof. by intros ? t Ht. Qed.
Lemma safe_err {A} n (Q : A → Prop) e : safe n Q (p_err e).
Proof. by intros t Ht. Qed.
Lemma safe_peek {A} T `{TokenRule T} n (Q : A → Prop) yes no :
  safe n Q yes → safe n Q no → safe n Q (p_peek T yes no).
Proof. intros Hy Hn t Ht. unfold p_peek. destruct (peek T t); [by apply Hy|by apply Hn]. Qed.
Lemma safe_weaken {A} n m (P Q : A → Prop) p :
  (n ≤ m)%nat → (∀ a, P a → Q a) → safe m P p → safe n Q p.
Proof.
  intros Hle HPQ Hp t Ht. specialize (Hp t ltac:(lia)). destruct (p t) as [[a t']| |]; naive_solver.
Qed.

Lemma skip_whitespace_left t : (left (skip_whitespace t) ≤ left t)%nat.
Proof.
  destruct t as [s c]. unfold skip_whitespace. cbn. revert c.
  induction s as [|b s IH]; intros c; [done|].
  destruct b; cbn [skip_whitespace_loop tk_input length]; (lia || (etrans; [apply IH|]; lia)).
Qed.

Lemma split_index_le p s : (split_index p s ≤ length s)%nat.
Proof. induction s as [|b s IH]; cbn; [lia|]. destruct (p b); lia. Qed.

Lemma starts_with_length s p : starts_with s p = true → (length p ≤ length s)%nat.
Proof.
  revert p. induction s as [|b s IH]; intros [|c p]; cbn; try (done || lia).
  intros [_ ?%IH]%andb_true_iff. lia.
Qed.

Lemma split_at_spec t pos : (pos ≤ left t)%nat →
  ∃ c, split_at t pos = Ok ((take pos (tk_input t), tk_coord t), mkTokenizer (drop pos (tk_input t)) c).
Proof. intros Hle. eexists. unfold split_at. by rewrite decide_True. Qed.

Lemma kw_upper_length k : length (kw_upper k) = length (kw_lower k).
Proof. apply length_fmap. Qed.
Lemma kw_lower_pos k : (0 < length (kw_lower k))%nat.
Proof. destruct k; cbn; lia. Qed.

(** A keyword leaves strictly less. *)
Lemma next_keyword_spec k t :
  match next (Keyword k) t with
  | Ok (_, t') => (left t' < left t)%nat
  | Err _ => True
  | Panic => False
  end.
Proof.
  unfold next. cbn [tok_parse Keyword_rule]. unfold Keyword_parse.
  pose proof (skip_whitespace_left t) as Hs. destruct (_ && _) eqn:E; [done|].
  assert (length (kw_lower k) ≤ left (skip_whitespace t))%nat as Hl.
  { apply andb_false_iff in E as [E|E]; apply negb_false_iff, starts_with_length in E; [done|].
    by rewrite kw_upper_length in E. }
  destruct (split_at_spec _ _ Hl) as [c ->]. cbn. rewrite length_drop.
  pose proof (kw_lower_pos k). lia.
Qed.
Lemma safe_keyword k n : safe n (λ _, True) (next (Keyword k)).
Proof.
  intros t Ht. pose proof (next_keyword_spec k t) as H.
  destruct (next _ t) as [[? t']| |]; [|done..]. split; [lia|done].
Qed.
(** After a keyword the rest runs on less input. *)
Lemma safe_keyword_then {A} k n (Q : A → Prop) m :
  ((0 < n)%nat → safe (pred n) Q m) → safe n Q (p_bind (next (Keyword k)) (λ _, m)).
Proof.
  intros Hm t Ht. unfold p_bind. pose proof (next_keyword_spec k t) as H.
  destruct (next _ t) as [[? t']| |]; cbn; [|done..].
  specialize (Hm ltac:(lia) t' ltac:(lia)). destruct (m t') as [[? t'']| |]; [|done..]. split; [lia|apply Hm].
Qed.

Lemma safe_dot n : safe n (λ _, True) (next Dot).
Proof.
  intros t Ht. unfold next. cbn [tok_parse Dot_rule]. unfold Dot_parse.
  pose proof (skip_whitespace_left t) as Hs. destruct (starts_with _ _) eqn:E; [|done].
  apply starts_with_length in E. destruct (split_at_spec _ 1 E) as [c ->]. cbn.
  rewrite length_drop. split; [lia|done].
Qed.
Lemma safe_semicolon n : safe n (λ _, True) (next Semicolon).
Proof.
  intros t Ht. unfold next. cbn [tok_parse Semicolon_rule]. unfold Semicolon_parse.
  pose proof (skip_whitespace_left t) as Hs. destruct (_ && _) eqn:E; [done|].
  case_bool_decide as Hemp; cbn [negb]; [by split|].
  rewrite andb_true_r in E. apply negb_false_iff, starts_with_length in E.
  destruct (split_at_spec _ 1 E) as [c ->]. cbn. rewrite length_drop. split; [lia|done].
Qed.

(** What an identifier of a statement may be. *)
Definition ident_ok (s : bytes) : Prop := s ≠ [] ∧ Forall (λ c, is_ident c = true) s.
#[global] Instance ident_ok_dec s : Decision (ident_ok s).
Proof. unfold ident_ok. apply _. Defined.

Lemma is_ident_ascii c : is_ident c = true → (byte_Z c <? 128) = true.
Proof. by destruct c. Qed.
Lemma ident_utf8 s : Forall (λ c, is_ident c = true) s → utf8_valid s = true.
Proof.
  unfold utf8_valid. induction 1 as [|c s Hc _ IH]; [done|].
  cbn [length utf8_valid_fuel]. unfold utf8_step at 1. by rewrite (is_ident_ascii _ Hc).
Qed.
Lemma split_index_forall p s : Forall (λ c, p c = false) (take (split_index p s) s).
Proof.
  induction s as [|b s IH]; [constructor|]. cbn [split_index].
  destruct (p b) eqn:E; cbn [take]; constructor; auto.
Qed.
Lemma safe_next_ident n : safe n ident_ok next_ident.
Proof.
  intros t Ht. unfold next_ident, next. cbn [tok_parse Ident_rule]. unfold Ident_parse, split_when.
  pose proof (skip_whitespace_left t) as Hs. set (s := skip_whitespace t) in *.
  pose proof (split_index_forall (λ c, negb (is_ident c)) (tk_input s)) as Hf.
  set (i := split_index _ _) in *.
  assert (Forall (λ c, is_ident c = true) (take i (tk_input s))) as Hi.
  { eapply Forall_impl; [exact Hf|]. cbn. intros x ?%negb_false_iff. done. }
  destruct (take i (tk_input s)) as [|c x] eqn:E; [done|].
  rewrite ident_utf8 by done. cbn [negb result_bind]. unfold Ident_value. cbn [id_content].
  rewrite ident_utf8 by done. cbn. rewrite length_drop. split; [lia|]. by split.
Qed.

Lemma literal_loop_spec c s i v :
  match literal_loop c s i v with
  | Ok (Some (_, j)) => (j ≤ i + length s)%nat
  | Ok None | Err _ => True
  | Panic => False
  end.
Proof.
  remember (length s) as n eqn:Hn. revert s i v Hn.
  induction n as [n IH] using lt_wf_ind. intros s i v ->.
  destruct s as [|b s]; [done|].
  assert (∀ s' d v, (length s' < length (b :: s))%nat → (d + length s' ≤ i + length (b :: s))%nat →
    match literal_loop c s' d v with
    | Ok (Some (_, j)) => (j ≤ i + length (b :: s))%nat
    | Ok None | Err _ => True
    | Panic => False
    end) as Hrec.
  { intros s' d v' Hl Hd. pose proof (IH _ Hl s' d v' eq_refl) as H.
    destruct (literal_loop c s' d v') as [[[? j]|]| |]; try done. lia. }
  assert (∀ x v, literal_loop c (x :: s) i v = literal_loop c s (S i) (v ++ [x]) →
    match literal_loop c (x :: s) i v with
    | Ok (Some (_, j)) => (j ≤ i + length (b :: s))%nat
    | Ok None | Err _ => True
    | Panic => False
    end) as Hone by (intros x v' ->; apply Hrec; cbn; lia).
  destruct b; try (apply Hone; reflexivity); [cbn; lia|].
  clear Hone. destruct s as [|e s]; [done|].
  destruct e; cbn [literal_loop]; try done; apply Hrec; cbn; lia.
Qed.
Lemma safe_next_literal n : safe n (λ _, True) next_literal.
Proof.
  intros t Ht. unfold next_literal, next. cbn [tok_parse Literal_rule]. unfold Literal_parse.
  pose proof (skip_whitespace_left t) as Hs. set (s := skip_whitespace t) in *.
  destruct (starts_with _ _) eqn:E.
  - pose proof (literal_loop_spec (tk_coord s) (drop 1 (tk_input s)) 1 []) as H.
    destruct (literal_loop _ _ _ _) as [[[v j]|]| |]; cbn; try done.
    apply starts_with_length in E. rewrite length_drop in H. cbn in E.
    destruct (split_at_spec s j ltac:(lia)) as [c ->]. cbn. rewrite length_drop. split; [lia|done].
  - unfold split_when. destruct (take _ _); [done|]. cbn. rewrite length_drop. split; [lia|done].
Qed.

(** ** Well-formed statements *)
Fixpoint stmt_ok (s : Statement) : Prop :=
  match s with
  | SCreateDb c => ident_ok (cd_db_name c)
  | SCreateTable c => ident_ok (ct_db_name c) ∧ ident_ok (ct_table_name c)
  | SConfig _ => True
  | SDebug (mkDebug s) => stmt_ok s
  | SEcho e => utf8_valid (es_message e) = true
  | SHelp h => from_option ident_ok True (hs_topic h)
  | SShow s => ident_ok (ssm_property s) ∧ from_option ident_ok True (ssm_from s)
  | SPut p => ident_ok (pst_db_name p) ∧ ident_ok (pst_table_name p)
  | SDelete d => ident_ok (dst_db_name d) ∧ ident_ok (dst_table_name d)
  | SGet g => ident_ok (gst_db_name g) ∧ ident_ok (gst_table_name g)
  end.

Lemma safe_if_not_exists n : safe n (λ _, True) try_parse_if_not_exists.
Proof.
  apply safe_peek; [|by apply safe_ret].
  do 3 (eapply safe_bind; [apply safe_keyword|intros _ _]). by apply safe_ret.
Qed.

#[local] Hint Resolve safe_keyword safe_dot safe_semicolon safe_next_ident safe_next_literal
  safe_if_not_exists safe_err utf8_valid_lossy : parse.

(** Runs through the body of a [parse_*] function. *)
Ltac safe_steps :=
  repeat first
    [ apply safe_peek
    | apply safe_err
    | eapply safe_bind; [solve [auto with parse nocore]|intros ? ?]
    | apply safe_ret; cbn; by auto with parse
    | eapply safe_bind with (P := from_option ident_ok True); [|intros ? ?] ].

Lemma safe_statements n :
  safe n stmt_ok parse_echo_statement ∧ safe n stmt_ok parse_config_stmt ∧
  safe n stmt_ok parse_create_stmt ∧ safe n stmt_ok parse_get_stmt ∧ safe n stmt_ok parse_put_stmt ∧
  safe n stmt_ok parse_delete_stmt ∧ safe n stmt_ok parse_show_stmt ∧ safe n stmt_ok parse_help_stmt.
Proof.
  unfold parse_echo_statement, parse_config_stmt, parse_create_stmt, parse_get_stmt, parse_put_stmt,
    parse_delete_stmt, parse_show_stmt, parse_help_stmt.
  repeat split; safe_steps.
Qed.

Abbreviation opt_ok := (from_option stmt_ok True).

Lemma safe_debug n p : ((0 < n)%nat → safe (pred n) opt_ok p) → safe n stmt_ok (parse_debug_stmt p).
Proof.
  intros Hp. apply safe_keyword_then. intros Hn. eapply safe_bind; [exact (Hp Hn)|].
  intros [s|] Hs; [by apply safe_ret|apply safe_err].
Qed.

Lemma safe_parse_with n p : ((0 < n)%nat → safe (pred n) opt_ok p) → safe n opt_ok (parse_with p).
Proof.
  intros Hp t Ht. unfold parse_with, has_more.
  pose proof (skip_whitespace_left t) as Hs. set (t1 := skip_whitespace t) in *.
  destruct (tk_input t1) eqn:E; cbn [negb]; [by rewrite E|]. rewrite <- E in Hs.
  match goal with |- match ?m t1 with _ => _ end => assert (safe n opt_ok m) as Hm end.
  { destruct (safe_statements n) as (?&?&?&?&?&?&?&?).
    eapply (safe_bind _ stmt_ok); [|intros s Hst; by apply safe_ret].
    repeat (apply safe_peek; [by auto using safe_debug|]). apply safe_err. }
  specialize (Hm t1 ltac:(lia)).
  match type of Hm with match ?x with _ => _ end => destruct x as [[a t']| |]; [|done..] end.
  split; [lia|apply Hm].
Qed.

Lemma safe_Parser_parse n : ∀ m, (m < n)%nat → safe m opt_ok (Parser_parse n).
Proof.
  induction n as [|n IH]; intros m Hm; [lia|]. apply safe_parse_with. intros Hpos. apply IH. lia.
Qed.

(** More fuel than bytes changes nothing: the recursion is that of the code. *)
Lemma parse_with_ext p q t :
  (∀ t', (left t' < left t)%nat → p t' = q t') → parse_with p t = parse_with q t.
Proof.
  intros Hpq. unfold parse_with, has_more. pose proof (skip_whitespace_left t) as Hs.
  set (t1 := skip_whitespace t) in *. destruct (tk_input t1) eqn:E; [done|]. cbn [negb].
  rewrite <- E in Hs. unfold p_bind at 1 2. unfold p_peek.
  do 8 (destruct (peek _ t1); [reflexivity|]).
  destruct (peek (Keyword KDebug) t1); [|done]. unfold parse_debug_stmt, p_bind.
  pose proof (next_keyword_spec KDebug t1) as H. destruct (next _ t1) as [[k t2]| |]; cbn; [|done..].
  by rewrite Hpq by lia.
Qed.

Lemma Parser_parse_fuel n m t :
  (left t < n)%nat → (left t < m)%nat → Parser_parse n t = Parser_parse m t.
Proof.
  revert m t. induction n as [|n IH]; intros [|m] t Hn Hm; try lia.
  cbn. apply parse_with_ext. intros t' Hl. apply IH; lia.
Qed.

(** C39: Parsing ends on every text: [parse] gives a statement, nothing, or an
    error, and never panics (no slice is out of range, no [expect] fails); the
    depth of the recursion through [DEBUG] is at most the number of bytes, any
    larger bound giving the same result. *)
Theorem parse_terminates (input : bytes) :
  ((∃ r, parse input = Ok r) ∨ (∃ e, parse input = Err e)) ∧
  (∀ fuel, (length input < fuel)%nat →
   Parser_parse fuel (Tokenizer_new input) = Parser_parse (S (length input)) (Tokenizer_new input)).
Proof.
  split.
  - unfold parse. pose proof (safe_Parser_parse (S (length input)) (length input) ltac:(lia)
      (Tokenizer_new input) (le_n _)) as H.
    destruct (Parser_parse _ _) as [[r t]|e|]; [left|right|done]; eexists; reflexivity.
  - intros fuel Hf. apply Parser_parse_fuel; cbn; lia.
Qed.

(** C40: What is parsed is well formed: every database, table, property and topic
    name of the statement is a non-empty string of [a-zA-Z0-9_-], at any depth
    under [DEBUG], and an echoed message is valid UTF-8. *)
Theorem parsed_statement_ok (input : bytes) s :
  parse input = Ok (Some s) → stmt_ok s.
Proof.
  unfold parse. pose proof (safe_Parser_parse (S (length input)) (length input) ltac:(lia)
    (Tokenizer_new input) (le_n _)) as H.
  destruct (Parser_parse _ _) as [[r t]|e|]; cbn in *; [|done..].
  intros [= ->]. apply H.
Qed.

Lemma parsed_statement_ok_witness :
  parse (str_bytes "help get") = Ok (Some (SHelp (mkHelp (Some (str_bytes "get"))))) ∧
  stmt_ok (SHelp (mkHelp (Some (str_bytes "get")))).
Proof.
  assert (parse (str_bytes "help get") = Ok (Some (SHelp (mkHelp (Some (str_bytes "get")))))) as E
    by (vm_compute; reflexivity).
  split; [exact E|exact (parsed_statement_ok _ _ E)].
Defined.
