(* ===== verification/ParseRound.v ===== *)
(** * Printing a statement and parsing it back

    A concrete syntax of statements, for any spelling of the keywords (lower or
    upper case), any whitespace between the tokens and literals in quotes, and
    the theorem that [parse] inverts it.  The repository has no printer: this
    one is a specification of the texts the parser is meant for.  It leaves out
    what [printable] excludes, names that begin with the keyword [if] and
    literals with a quote among them, which the parser does not read back. *)

From S2P Require Import Prelude Bytes Parse ParseProps.
From Stdlib Require Import Strings.Byte.
#[local] Open Scope Z_scope.
#[local] Arguments utf8_valid : simpl never.
#[local] Arguments from_utf8_lossy : simpl never.

(** ** The concrete syntax *)
Definition escape_byte (b : byte) : bytes :=
  match b with
  | x0a => [x5c; "n"%byte]
  | x09 => [x5c; "t"%byte]
  | x0d => [x5c; "r"%byte]
  | x5c => [x5c; x5c]
  | b => [b]
  end.
Definition print_literal (v : bytes) : bytes := [x22] ++ (v ≫= escape_byte) ++ [x22].

Section Print.
  (** The spelling of each keyword, and the whitespace between tokens. *)
  Context (up : keyword → bool) (ws : bytes).

Definition print_kw (k : keyword) : bytes := if up k then kw_upper k else kw_lower k.
Definition print_if_not_exists (b : bool) : bytes :=
    if b then ws ++ print_kw KIf ++ ws ++ print_kw KNot ++ ws ++ print_kw KExists else [].
Definition print_name (db table : bytes) : bytes := ws ++ db ++ str_bytes "." ++ table.

Fixpoint print_stmt (s : Statement) : bytes :=
    match s with
    | SEcho e => print_kw KEcho ++ ws ++ print_literal (es_message e) ++ str_bytes ";"
    | SConfig c =>
        print_kw KConfig ++ ws ++ print_literal (cs_key c) ++ ws ++ print_literal (cs_value c) ++ str_bytes ";"
    | SCreateDb c =>
        print_kw KCreate ++ ws ++ print_kw KDatabase ++ print_if_not_exists (cd_create_if_not_exists c) ++
        ws ++ cd_db_name c ++ str_bytes ";"
    | SCreateTable c =>
        print_kw KCreate ++ ws ++ print_kw KTable ++ print_if_not_exists (ct_create_if_not_exists c) ++
        print_name (ct_db_name c) (ct_table_name c) ++ str_bytes ";"
    | SGet g =>
        print_kw KGet ++ ws ++ print_literal (gst_key g) ++ ws ++ print_kw KFrom ++
        print_name (gst_db_name g) (gst_table_name g)
    | SPut p =>
        print_kw KPut ++ ws ++ print_literal (pst_key p) ++ ws ++ print_literal (pst_value p) ++ ws ++
        print_kw KInto ++ print_name (pst_db_name p) (pst_table_name p)
    | SDelete d =>
        print_kw KDelete ++ ws ++ print_literal (dst_key d) ++ ws ++ print_kw KFrom ++
        print_name (dst_db_name d) (dst_table_name d)
    | SShow s =>
        print_kw KShow ++ ws ++ ssm_property s ++
        match ssm_from s with Some name => ws ++ print_kw KFrom ++ ws ++ name | None => [] end ++ str_bytes ";"
    | SHelp h =>
        print_kw KHelp ++ match hs_topic h with Some topic => ws ++ topic | None => [] end ++ str_bytes ";"
    | SDebug (mkDebug s) => print_kw KDebug ++ ws ++ print_stmt s
    end.
End Print.

(** The statements that have a spelling: names are identifiers; literals hold
    no quote, which has no escape sequence; without [IF NOT EXISTS], the name
    of a database to create must not itself start with [if] or [IF], which the
    parser takes for the keyword. *)
Definition literal_ok (v : bytes) : Prop := x22 ∉ v.
Definition not_if (name : bytes) : Prop :=
  starts_with name (kw_lower KIf) = false ∧ starts_with name (kw_upper KIf) = false.
Fixpoint printable (s : Statement) : Prop :=
  match s with
  | SCreateDb c => ident_ok (cd_db_name c) ∧ (cd_create_if_not_exists c = false → not_if (cd_db_name c))
  | SCreateTable c =>
      ident_ok (ct_db_name c) ∧ ident_ok (ct_table_name c) ∧
      (ct_create_if_not_exists c = false → not_if (ct_db_name c))
  | SConfig c => literal_ok (cs_key c) ∧ literal_ok (cs_value c)
  | SDebug (mkDebug s) => printable s
  | SEcho e => literal_ok (es_message e) ∧ utf8_valid (es_message e) = true
  | SHelp h => from_option ident_ok True (hs_topic h)
  | SShow s => ident_ok (ssm_property s) ∧ from_option ident_ok True (ssm_from s)
  | SPut p => literal_ok (pst_key p) ∧ literal_ok (pst_value p) ∧
              ident_ok (pst_db_name p) ∧ ident_ok (pst_table_name p)
  | SDelete d => literal_ok (dst_key d) ∧ ident_ok (dst_db_name d) ∧ ident_ok (dst_table_name d)
  | SGet g => literal_ok (gst_key g) ∧ ident_ok (gst_db_name g) ∧ ident_ok (gst_table_name g)
  end.

(** ** Tokens read from the front of the input *)
(** [m] reads [a] and leaves [rest]. *)
Definition reads {A} (m : parser A) (input : bytes) (a : A) (rest : bytes) : Prop :=
  ∀ c, ∃ c', m (mkTokenizer input c) = Ok (a, mkTokenizer rest c').
(** [m] succeeds and leaves [rest]. *)
Definition eats {A} (m : parser A) (input rest : bytes) : Prop :=
  ∀ c, ∃ a c', m (mkTokenizer input c) = Ok (a, mkTokenizer rest c').

Lemma reads_bind {A B} (m : parser A) (k : A → parser B) i a r b r' :
  reads m i a r → reads (k a) r b r' → reads (p_bind m k) i b r'.
Proof.
  intros Hm Hk c. destruct (Hm c) as [c1 E]. destruct (Hk c1) as [c2 E2].
  exists c2. unfold p_bind. by rewrite E.
Qed.
Lemma eats_bind {A B} (m : parser A) (k : parser B) i r b r' :
  eats m i r → reads k r b r' → reads (p_bind m (λ _, k)) i b r'.
Proof.
  intros Hm Hk c. destruct (Hm c) as (a & c1 & E). destruct (Hk c1) as [c2 E2].
  exists c2. unfold p_bind. by rewrite E.
Qed.
Lemma reads_ret {A} (a : A) i : reads (p_ret a) i a i.
Proof. intros c. by exists c. Qed.

Definition sees T `{TokenRule T} (input : bytes) (b : bool) : Prop :=
  ∀ c, peek T (mkTokenizer input c) = b.
Lemma reads_peek_yes {A} T `{TokenRule T} (yes no : parser A) i a r :
  sees T i true → reads yes i a r → reads (p_peek T yes no) i a r.
Proof. intros Hp Hy c. unfold p_peek. rewrite Hp. apply Hy. Qed.
Lemma reads_peek_no {A} T `{TokenRule T} (yes no : parser A) i a r :
  sees T i false → reads no i a r → reads (p_peek T yes no) i a r.
Proof. intros Hp Hy c. unfold p_peek. rewrite Hp. apply Hy. Qed.
Lemma eats_sees T `{TokenRule T} i r : eats (next T) i r → sees T i true.
Proof. intros H1 c. destruct (H1 c) as (? & ? & E). unfold peek. by rewrite E. Qed.

(** Whitespace in front of a token is skipped. *)
Definition blank (ws : bytes) : Prop := Forall (λ c, is_space c = true) ws.
Definition solid (s : bytes) : Prop := match s with b :: _ => is_space b = false | [] => True end.
Lemma skip_blank ws s c : blank ws → solid s →
  ∃ c', skip_whitespace (mkTokenizer (ws ++ s) c) = mkTokenizer s c'.
Proof.
  intros Hws Hs. unfold skip_whitespace. cbn. revert c. induction Hws as [|b ws Hb _ IH]; intros c.
  - exists c. destruct s as [|b s]; [done|]. by destruct b.
  - by destruct b; try done; apply IH.
Qed.
Lemma reads_next T `{TokenRule T} ws s r : blank ws → solid s →
  eats tok_parse s r → eats (next T) (ws ++ s) r.
Proof.
  intros Hws Hs Hp c. unfold next. destruct (skip_blank ws s c Hws Hs) as [c' ->]. apply Hp.
Qed.

Lemma starts_with_app p s : starts_with (p ++ s) p = true.
Proof. induction p as [|b p IH]; cbn; [by destruct s|]. by rewrite bool_decide_eq_true_2. Qed.
Lemma split_at_app a b c : ∃ c', split_at (mkTokenizer (a ++ b) c) (length a) = Ok ((a, c), mkTokenizer b c').
Proof.
  destruct (split_at_spec (mkTokenizer (a ++ b) c) (length a)) as [c' E].
  { cbn. rewrite length_app. lia. }
  exists c'. rewrite E. cbn. by rewrite take_app_length, drop_app_length.
Qed.

Section Tokens.
Context (up : keyword → bool) (ws : bytes) (Hws : blank ws).
Abbreviation kw := (print_kw up).

Lemma kw_length k : length (kw k) = length (kw_lower k).
Proof. unfold print_kw. destruct (up k); [apply kw_upper_length|done]. Qed.
Lemma kw_solid k r : solid (kw k ++ r).
Proof. unfold print_kw. by destruct (up k), k. Qed.

Lemma eats_kw k r : eats (next (Keyword k)) (ws ++ kw k ++ r) r.
Proof.
  apply reads_next; [done|apply kw_solid|]. intros c. cbn [tok_parse Keyword_rule]. unfold Keyword_parse.
  assert (starts_with (kw k ++ r) (kw_lower k) = true ∨ starts_with (kw k ++ r) (kw_upper k) = true) as Hsw
    by (unfold print_kw; destruct (up k); auto using starts_with_app).
  cbn [tk_input]. rewrite <- kw_length. destruct (split_at_app (kw k) r c) as [c' ->]. cbn.
  destruct Hsw as [-> | ->]; rewrite ?andb_false_r; cbn; eauto.
Qed.

(** No keyword is a prefix of another. *)
Lemma kw_prefix_free k k' r : k ≠ k' →
  starts_with (kw k ++ r) (kw_lower k') = false ∧ starts_with (kw k ++ r) (kw_upper k') = false.
Proof. unfold print_kw. intros Hne. by destruct (up k), k, k'. Qed.
Lemma sees_kw k k' r : k ≠ k' → sees (Keyword k') (ws ++ kw k ++ r) false.
Proof.
  intros Hne c. unfold peek, next. destruct (skip_blank ws (kw k ++ r) c Hws (kw_solid k r)) as [c' ->].
  cbn [tok_parse Keyword_rule]. unfold Keyword_parse. cbn [tk_input].
  by destruct (kw_prefix_free k k' r Hne) as [-> ->].
Qed.

(** ** Symbols *)
Lemma eats_semicolon r : eats (next Semicolon) (str_bytes ";" ++ r) r.
Proof.
  apply (reads_next _ [] (str_bytes ";" ++ r)); [constructor|done|]. intros c. cbn [tok_parse Semicolon_rule].
  unfold Semicolon_parse. destruct (split_at_app (str_bytes ";") r c) as [c' E].
  change (length (str_bytes ";")) with 1%nat in E. cbn [tk_input].
  rewrite starts_with_app, bool_decide_eq_false_2, E by done. cbn. eauto.
Qed.
Lemma eats_dot r : eats (next Dot) (str_bytes "." ++ r) r.
Proof.
  apply (reads_next _ [] (str_bytes "." ++ r)); [constructor|done|]. intros c. cbn [tok_parse Dot_rule].
  unfold Dot_parse. destruct (split_at_app (str_bytes ".") r c) as [c' E].
  change (length (str_bytes ".")) with 1%nat in E. cbn [tk_input].
  rewrite starts_with_app, E. cbn. eauto.
Qed.

(** ** Identifiers, up to a byte that is not one of theirs *)
Definition ends_ident (r : bytes) : Prop := match r with b :: _ => is_ident b = false | [] => True end.

Lemma split_index_app p s r :
  Forall (λ c, p c = false) s → match r with b :: _ => p b = true | [] => True end →
  split_index p (s ++ r) = length s.
Proof.
  intros Hs Hr. induction Hs as [|b s Hb _ IH]; cbn.
  - destruct r as [|b r]; [done|]. cbn. by rewrite Hr.
  - by rewrite Hb, IH.
Qed.
Lemma ident_solid s r : ident_ok s → solid (s ++ r).
Proof. intros [Hne Hs]. destruct Hs as [|b s Hb _]; [done|]. by destruct b. Qed.
Lemma ident_parse s r c : ident_ok s → ends_ident r →
  ∃ c', Ident_parse (mkTokenizer (s ++ r) c) = Ok (mkIdent s c, mkTokenizer r c').
Proof.
  intros [Hne Hs] Hr. unfold Ident_parse, split_when. cbn [tk_input].
  rewrite split_index_app; last first.
  { destruct r; [done|]. by rewrite Hr. }
  { eapply Forall_impl; [exact Hs|]. cbn. by intros x ->. }
  rewrite take_app_length, drop_app_length. destruct s as [|b s']; [done|].
  rewrite ident_utf8 by done. cbn. eauto.
Qed.
Lemma reads_ident s r : ident_ok s → ends_ident r → reads next_ident (ws ++ s ++ r) s r.
Proof.
  intros Hok Hr c. unfold next_ident, next.
  destruct (skip_blank ws (s ++ r) c Hws (ident_solid _ _ Hok)) as [c1 ->].
  cbn [tok_parse Ident_rule]. destruct (ident_parse s r c1 Hok Hr) as [c2 ->].
  exists c2. cbn. unfold Ident_value. cbn. by rewrite ident_utf8 by apply Hok.
Qed.
Lemma sees_ident s r : ident_ok s → ends_ident r → sees Ident (ws ++ s ++ r) true.
Proof.
  intros Hok Hr c. unfold peek, next.
  destruct (skip_blank ws (s ++ r) c Hws (ident_solid _ _ Hok)) as [c1 ->].
  cbn [tok_parse Ident_rule]. by destruct (ident_parse s r c1 Hok Hr) as [c2 ->].
Qed.
Lemma sees_no_if s r : ident_ok s → not_if s → ends_ident r → sees (Keyword KIf) (ws ++ s ++ r) false.
Proof.
  intros Hok [Hl Hu] Hr c. unfold peek, next.
  destruct (skip_blank ws (s ++ r) c Hws (ident_solid _ _ Hok)) as [c1 ->].
  cbn [tok_parse Keyword_rule]. unfold Keyword_parse. cbn [tk_input].
  assert (∀ p, starts_with s p = false → length p = 2%nat → Forall (λ c, is_ident c = true) p →
    starts_with (s ++ r) p = false) as Hsw.
  { intros p Hp Hlen Hid. destruct Hok as [Hne _]. destruct s as [|a [|b s]]; [done| |].
    - destruct p as [|x [|y [|]]]; try done. destruct r as [|z r]; cbn in *.
      + by destruct (bool_decide (x = a)).
      + rewrite bool_decide_eq_false_2 with (P := y = z); [by rewrite andb_false_r|].
        intros ->. rewrite !Forall_cons in Hid. naive_solver congruence.
    - destruct p as [|x [|y [|]]]; try done. cbn in *. by destruct s, r. }
  by rewrite !Hsw by (done || (repeat constructor)).
Qed.

(** ** Quoted literals *)
Lemma literal_loop_escape c v r i acc : literal_ok v →
  literal_loop c ((v ≫= escape_byte) ++ x22 :: r) i acc =
  Ok (Some (acc ++ v, i + length (v ≫= escape_byte) + 1)%nat).
Proof.
  revert i acc. induction v as [|b v IH]; intros i acc Hok.
  { cbn. rewrite app_nil_r. do 3 f_equal. lia. }
  assert (literal_ok v) as Hv by (intros ?; apply Hok; by right).
  assert (b ≠ x22) as Hb by (intros ->; apply Hok; left).
  change ((b :: v) ≫= escape_byte) with (escape_byte b ++ (v ≫= escape_byte)).
  rewrite <- app_assoc, length_app.
  destruct b; try done; cbn [escape_byte app literal_loop length]; rewrite IH by done;
    rewrite <- app_assoc; cbn [app]; do 3 f_equal; lia.
Qed.
Lemma reads_literal v r : literal_ok v → reads next_literal (ws ++ print_literal v ++ r) v r.
Proof.
  intros Hok c. unfold next_literal, next.
  destruct (skip_blank ws (print_literal v ++ r) c Hws eq_refl) as [c1 ->].
  cbn [tok_parse Literal_rule]. unfold Literal_parse. cbn [tk_input tk_coord].
  assert (print_literal v ++ r = x22 :: ((v ≫= escape_byte) ++ x22 :: r)) as E
    by (unfold print_literal; cbn [app]; by rewrite <- app_assoc).
  assert (starts_with (print_literal v ++ r) [x22] = true) as -> by (rewrite E; apply (starts_with_app [x22])).
  assert (drop 1 (print_literal v ++ r) = (v ≫= escape_byte) ++ x22 :: r) as -> by (by rewrite E).
  rewrite literal_loop_escape by done. cbn [result_bind app].
  replace (1 + length (v ≫= escape_byte) + 1)%nat with (length (print_literal v))
    by (unfold print_literal; cbn; rewrite length_app; cbn; lia).
  destruct (split_at_app (print_literal v) r c1) as [c2 ->]. cbn. eauto.
Qed.
End Tokens.

(** ** Statements *)
Section Stmts.
Context (up : keyword → bool) (ws : bytes) (Hws : blank ws) (Hne : ws ≠ []).
Abbreviation kw := (print_kw up).

Lemma blank_ends_ident r : ends_ident (ws ++ r).
Proof. destruct Hws as [|b l Hb _]; [done|]. by destruct b. Qed.
#[local] Hint Resolve blank_ends_ident : parse.

Lemma eats_kw0 k r : eats (next (Keyword k)) (kw k ++ r) r.
Proof. apply (eats_kw _ []). constructor. Qed.

(** [<db>.<table>] and what follows. *)
Lemma reads_name {A} db tb r (k : bytes → bytes → parser A) a r' :
  ident_ok db → ident_ok tb → ends_ident r → reads (k db tb) r a r' →
  reads (let+ d := next_ident in do+ next Dot in let+ t := next_ident in k d t)
    (ws ++ db ++ str_bytes "." ++ tb ++ r) a r'.
Proof.
  intros Hdb Htb Hr Hk.
  eapply reads_bind; [by apply reads_ident|]. eapply eats_bind; [apply eats_dot|].
  eapply reads_bind; [by apply (reads_ident []); [constructor|..]|]. exact Hk.
Qed.

Lemma reads_last_name {A} db tb (k : bytes → bytes → A) :
  ident_ok db → ident_ok tb →
  reads (let+ d := next_ident in do+ next Dot in let+ t := next_ident in p_ret (k d t))
    (print_name ws db tb) (k db tb) [].
Proof.
  intros Hdb Htb. unfold print_name. rewrite <- (app_nil_r tb) at 1.
  by apply (reads_name _ _ _ (λ d t, p_ret (k d t))); [..|apply reads_ret].
Qed.

(** [IF NOT EXISTS], when it is there and when a name follows instead. *)
Lemma reads_if_not_exists b db r : ident_ok db → ends_ident r → (b = false → not_if db) →
  reads try_parse_if_not_exists (print_if_not_exists up ws b ++ ws ++ db ++ r) b (ws ++ db ++ r).
Proof.
  intros Hdb Hr Hif. destruct b; cbn [print_if_not_exists].
  - rewrite <- !app_assoc. eapply reads_peek_yes; [by eapply eats_sees, eats_kw|].
    do 3 (eapply eats_bind; [by apply eats_kw|]). apply reads_ret.
  - cbn [app]. apply reads_peek_no; [by apply sees_no_if; auto|]. apply reads_ret.
Qed.

Lemma reads_semicolon {A} (a : A) : reads (do+ next Semicolon in p_ret a) (str_bytes ";") a [].
Proof. eapply eats_bind; [apply (eats_semicolon [])|apply reads_ret]. Qed.

(** One statement after its first keyword has been looked at. *)
Definition stmt_parser (p : parser (option Statement)) (s : Statement) : parser Statement :=
  match s with
  | SEcho _ => parse_echo_statement
  | SConfig _ => parse_config_stmt
  | SCreateDb _ | SCreateTable _ => parse_create_stmt
  | SGet _ => parse_get_stmt
  | SPut _ => parse_put_stmt
  | SDelete _ => parse_delete_stmt
  | SShow _ => parse_show_stmt
  | SHelp _ => parse_help_stmt
  | SDebug _ => parse_debug_stmt p
  end.
Definition stmt_kw (s : Statement) : keyword :=
  match s with
  | SEcho _ => KEcho | SConfig _ => KConfig | SCreateDb _ | SCreateTable _ => KCreate | SGet _ => KGet
  | SPut _ => KPut | SDelete _ => KDelete | SShow _ => KShow | SHelp _ => KHelp | SDebug _ => KDebug
  end.

Lemma print_stmt_kw s : ∃ r, print_stmt up ws s = kw (stmt_kw s) ++ r.
Proof. destruct s as [| | |[]| | | | | |]; cbn [print_stmt stmt_kw]; eauto. Qed.

(** [Parser::parse] finds the function of the statement. *)
Lemma reads_dispatch p lead s : blank lead →
  reads (stmt_parser p s) (print_stmt up ws s) s [] →
  reads (parse_with p) (lead ++ print_stmt up ws s) (Some s) [].
Proof.
  intros Hlead Hs c. unfold parse_with, has_more.
  destruct (print_stmt_kw s) as [r Er].
  destruct (skip_blank lead (print_stmt up ws s) c Hlead) as [c' ->].
  { rewrite Er. apply kw_solid. }
  assert (∃ b i, print_stmt up ws s = b :: i) as (b & i & Eb).
  { rewrite Er. unfold print_kw. destruct (up _), (stmt_kw s); cbn; eauto. }
  cbn [tk_input].
  assert (match print_stmt up ws s with [] => false | _ => true end = true) as -> by (by rewrite Eb).
  cbn [negb]. revert c'.
  match goal with |- ∀ c', ∃ c'0, ?m _ = _ => change (reads m (print_stmt up ws s) (Some s) []) end.
  eapply reads_bind; [|apply reads_ret]. revert Hs. rewrite Er. intros Hs.
  pose proof (λ k', eats_sees _ _ _ (eats_kw up [] (Forall_nil_2 _) k' r)) as Hyes.
  pose proof (λ k k', sees_kw up [] (Forall_nil_2 _) k k' r) as Hno.
  destruct s; cbn [stmt_kw stmt_parser] in *;
    repeat first [apply reads_peek_yes; [apply Hyes|exact Hs] | apply reads_peek_no; [by apply Hno|]].
Qed.

Lemma reads_create_db c : printable (SCreateDb c) →
  reads parse_create_stmt (print_stmt up ws (SCreateDb c)) (SCreateDb c) [].
Proof.
  destruct c as [db b]. cbn. intros [Hdb Hif]. eapply eats_bind; [apply eats_kw0|].
  eapply reads_peek_yes; [by eapply eats_sees, eats_kw|]. eapply eats_bind; [by apply eats_kw|].
  eapply reads_bind; [by apply reads_if_not_exists|].
  eapply reads_bind; [by apply reads_ident|apply reads_semicolon].
Qed.
Lemma reads_create_table c : printable (SCreateTable c) →
  reads parse_create_stmt (print_stmt up ws (SCreateTable c)) (SCreateTable c) [].
Proof.
  destruct c as [db tb b]. cbn. intros (Hdb & Htb & Hif). eapply eats_bind; [apply eats_kw0|].
  eapply reads_peek_no; [by apply sees_kw|].
  eapply reads_peek_yes; [by eapply eats_sees, eats_kw|]. eapply eats_bind; [by apply eats_kw|].
  eapply reads_bind.
  { unfold print_name. rewrite <- !app_assoc. by apply reads_if_not_exists. }
  by apply (reads_name _ _ _ (λ d t, do+ next Semicolon in p_ret (SCreateTable (mkCreateTable d t b))));
    [..|apply reads_semicolon].
Qed.

Lemma reads_stmt p s : printable s → (∀ s', s = SDebug (mkDebug s') →
    reads p (ws ++ print_stmt up ws s') (Some s') []) →
  reads (stmt_parser p s) (print_stmt up ws s) s [].
Proof.
  intros Hs Hrec. destruct s as [c|c|c|[s]|e|h|s|q|d|g];
    [by apply reads_create_db|by apply reads_create_table|..]; cbn [print_stmt stmt_parser printable] in *.
  - destruct Hs as [Hk Hv]. destruct c. eapply eats_bind; [apply eats_kw0|].
    do 2 (eapply reads_bind; [by apply reads_literal|]). apply reads_semicolon.
  - eapply eats_bind; [apply eats_kw0|]. eapply reads_bind; [by apply Hrec|]. apply reads_ret.
  - destruct e as [m]. cbn in *. destruct Hs as [Hk Hv]. eapply eats_bind; [apply eats_kw0|].
    eapply reads_bind; [by apply reads_literal|]. cbn. rewrite from_utf8_lossy_valid by done.
    apply reads_semicolon.
  - destruct h as [[t|]]; cbn in *; eapply eats_bind; [apply eats_kw0| |apply eats_kw0|].
    + rewrite <- app_assoc. eapply reads_bind; [|apply reads_semicolon].
      apply reads_peek_yes; [by apply sees_ident|]. eapply reads_bind; [by apply reads_ident|apply reads_ret].
    + eapply reads_bind; [|apply reads_semicolon]. apply reads_peek_no; [done|apply reads_ret].
  - destruct s as [n [f|]]; cbn in *; destruct Hs as [Hn Hf]; (eapply eats_bind; [apply eats_kw0|]).
    + rewrite <- !app_assoc. eapply reads_bind; [by apply reads_ident; auto with parse|].
      eapply reads_bind; [|apply reads_semicolon]. apply reads_peek_yes; [by eapply eats_sees, eats_kw|].
      eapply eats_bind; [by apply eats_kw|]. eapply reads_bind; [by apply reads_ident|apply reads_ret].
    + eapply reads_bind; [by apply reads_ident|]. eapply reads_bind; [|apply reads_semicolon].
      apply reads_peek_no; [done|apply reads_ret].
  - destruct q as [k v db tb]. destruct Hs as (Hk & Hv & Hdb & Htb). cbn in *.
    eapply eats_bind; [apply eats_kw0|]. do 2 (eapply reads_bind; [by apply reads_literal|]).
    eapply eats_bind; [by apply eats_kw|].
    by apply (reads_last_name _ _ (λ d t, SPut (mkPutStmt k v d t))).
  - destruct d as [k db tb]. destruct Hs as (Hk & Hdb & Htb). cbn in *.
    eapply eats_bind; [apply eats_kw0|]. eapply reads_bind; [by apply reads_literal|].
    eapply eats_bind; [by apply eats_kw|].
    by apply (reads_last_name _ _ (λ d t, SDelete (mkDeleteStmt k d t))).
  - destruct g as [k db tb]. destruct Hs as (Hk & Hdb & Htb). cbn in *.
    eapply eats_bind; [apply eats_kw0|]. eapply reads_bind; [by apply reads_literal|].
    eapply eats_bind; [by apply eats_kw|].
    by apply (reads_last_name _ _ (λ d t, SGet (mkGetStmt k d t))).
Qed.

(** The depth of [DEBUG]. *)
Fixpoint stmt_depth (s : Statement) : nat :=
  match s with SDebug (mkDebug s) => S (stmt_depth s) | _ => 1 end.

Lemma reads_parse n s lead : (stmt_depth s ≤ n)%nat → printable s → blank lead →
  reads (Parser_parse n) (lead ++ print_stmt up ws s) (Some s) [].
Proof.
  revert s lead. induction n as [|n IH]; intros s lead Hn Hs Hl.
  { destruct s as [| | |[]| | | | | |]; cbn in Hn; lia. }
  cbn [Parser_parse]. apply reads_dispatch; [done|]. apply reads_stmt; [done|].
  intros s' ->. apply IH; [cbn in Hn; lia|done|done].
Qed.

Lemma stmt_depth_print s : (stmt_depth s ≤ length (print_stmt up ws s))%nat.
Proof.
  assert (∀ k, 1 ≤ length (kw k))%nat as Hk.
  { intros k. rewrite kw_length. pose proof (kw_lower_pos k). lia. }
  enough (∀ n s, stmt_depth s ≤ n → stmt_depth s ≤ length (print_stmt up ws s))%nat by eauto.
  clear s. induction n as [|n IH]; intros s Hn.
  { destruct s as [| | |[]| | | | | |]; cbn in Hn; lia. }
  destruct (print_stmt_kw s) as [r Er]. specialize (Hk (stmt_kw s)).
  assert (1 ≤ length (print_stmt up ws s))%nat by (rewrite Er, length_app; lia).
  destruct s as [| | |[s]| | | | | |]; try done. cbn [stmt_depth print_stmt stmt_kw] in *.
  specialize (IH s ltac:(lia)). rewrite !length_app. lia.
Qed.
End Stmts.

(** Parsing inverts printing: a [printable] statement spelled with keywords in
    lower or upper case, any non-empty whitespace between the tokens and its
    literals quoted and escaped is parsed to itself. *)
Theorem parse_print up ws s :
  blank ws → ws ≠ [] → printable s → parse (print_stmt up ws s) = Ok (Some s).
Proof.
  intros Hws Hne Hs. unfold parse, Tokenizer_new. pose proof (stmt_depth_print up ws s) as Hd.
  destruct (reads_parse up ws Hws Hne (S (length (print_stmt up ws s))) s [] ltac:(lia) Hs
    (Forall_nil_2 _) (mkCoord 1 1 0)) as [c' E].
  cbn [app] in E. by rewrite E.
Qed.

Definition sample_stmt : Statement :=
  SDebug (mkDebug (SPut (mkPutStmt [x61; x0a; x20; x5c] (str_bytes "v") (str_bytes "db-1") (str_bytes "t_2")))).

Lemma parse_print_witness :
  blank [x20; x0a] ∧ printable sample_stmt ∧
  parse (print_stmt (λ k, bool_decide (kw_name k = "put"%string)) [x20; x0a] sample_stmt) = Ok (Some sample_stmt).
Proof.
  assert (blank [x20; x0a]) as Hb by (repeat constructor).
  assert (printable sample_stmt) as Hs
    by (cbn; repeat split; try done; apply (bool_decide_unpack _); vm_compute; exact I).
  split; [done|]. split; [done|]. by apply parse_print.
Defined.

(** A name that starts with [if] cannot be created: the keyword is looked for as
    a prefix, so that the rest of the name is then read for [NOT]. *)
Lemma if_prefix_taken_for_keyword :
  ∃ c, parse (str_bytes "CREATE DATABASE iffy;") = Err (Expect "keyword not" c).
Proof. eexists. vm_compute. reflexivity. Qed.

(** What follows a complete [GET] is not looked at, without any [;]. *)
Lemma get_ignores_the_rest :
  parse (str_bytes "GET k FROM db.tb WHERE x") = parse (str_bytes "GET k FROM db.tb").
Proof. vm_compute. reflexivity. Qed.

(** An unquoted literal runs to the next blank, over the [;] of the statement. *)
Lemma unquoted_literal_takes_semicolon :
  parse (str_bytes "ECHO hi;") = Ok (Some (SEcho (mkEcho (str_bytes "hi;")))).
Proof. vm_compute. reflexivity. Qed.

(** The width of a keyword is added to the row: the tokens of one line are
    reported on different rows. *)
Lemma error_row_moves_with_the_text :
  parse (str_bytes "CREATE x") = Err (UnexpectedToken "database or table" (mkCoord 7 1 6)).
Proof. vm_compute. reflexivity. Qed.
