(* ===== verification/Router.v ===== *)
(** * The client's view of the cluster ([client/src/rpc/router.rs])

    A table from keys to shards, from shards to groups and from groups to
    replicas, kept up to date by the events of the root's watch stream.  The
    task that follows the stream is the sequence of its events. *)

From stdpp Require Import sorting.
From S2P Require Import Prelude Bytes Api RocksDb Errors Schema.
#[local] Open Scope Z_scope.

Record RouterGroupState := mkRouterGroupState {
  rg_id : Z; rg_epoch : Z; rg_leader_state : option (Z * Z); rg_replicas : gmap Z ReplicaDesc }.

Record State := mkState {
  node_id_lookup : gmap Z string;
  db_id_lookup : gmap Z DatabaseDesc;
  db_name_lookup : gmap string Z;
  co_id_lookup : gmap Z TableDesc;
  co_name_lookup : gmap (Z * string) Z;
  co_shards_lookup : gmap Z (list ShardDesc);
  shard_group_lookup : gmap Z (Z * Z);
  group_id_lookup : gmap Z RouterGroupState;
  cached_group_states : gmap Z GroupState }.
Definition State_default : State := mkState ∅ ∅ ∅ ∅ ∅ ∅ ∅ ∅ ∅.

(** ** Looking up *)
Definition state_find_group_by_shard (st : State) (shard_id : Z) : option RouterGroupState :=
  '(group_id, epoch) ← shard_group_lookup st !! shard_id;
  group_state ← group_id_lookup st !! group_id;
  if epoch <? rg_epoch group_state then None else Some group_state.

Fixpoint find_shard_in (st : State) (shards : list ShardDesc) (user_key : bytes) :
    option (RouterGroupState * ShardDesc) :=
  match shards with
  | [] => None
  | shard :: shards' =>
      if belong_to shard user_key then
        match state_find_group_by_shard st (sd_id shard) with
        | Some group_state => Some (group_state, shard)
        | None => find_shard_in st shards' user_key
        end
      else find_shard_in st shards' user_key
  end.
Definition find_shard (st : State) (table_id : Z) (user_key : bytes) : CResult (RouterGroupState * ShardDesc) :=
  let? shards := ok_or (co_shards_lookup st !! table_id) CNotFound in
  ok_or (find_shard_in st shards user_key) CNotFound.
Definition find_group_by_shard (st : State) (shard : Z) : CResult RouterGroupState :=
  ok_or (state_find_group_by_shard st shard) CNotFound.
Definition find_group (st : State) (id : Z) : CResult RouterGroupState :=
  ok_or (group_id_lookup st !! id) CNotFound.
Definition find_node_addr (st : State) (id : Z) : CResult string :=
  ok_or (node_id_lookup st !! id) CNotFound.
Definition total_nodes (st : State) : nat := size (node_id_lookup st).

(** ** Leaders: the one of the highest term among the reported replicas *)
Definition term_le (a b : Z * Z) : Prop := a.2 ≤ b.2.
#[global] Instance term_le_dec : RelDecision term_le.
Proof. intros a b. unfold term_le. apply _. Defined.
Definition leader_state (group_state : GroupState) : option (Z * Z) :=
  match gs_leader_id group_state with
  | Some _ =>
      last (merge_sort term_le
        ((λ r, (rs_replica_id r, rs_term r)) <$>
         filter (λ r, rs_role r = RaftRole_i32 Leader) (gs_replicas group_state)))
  | None => None
  end.

(** ** Events *)
Definition apply_shard (id epoch : Z) (st : State) (shard : ShardDesc) : State :=
  let sgl :=
    match shard_group_lookup st !! sd_id shard with
    | None => <[sd_id shard := (id, epoch)]> (shard_group_lookup st)
    | Some (_, entry_epoch) =>
        if entry_epoch <? epoch then <[sd_id shard := (id, epoch)]> (shard_group_lookup st)
        else shard_group_lookup st
    end in
  let csl :=
    match co_shards_lookup st !! sd_table_id shard with
    | None => <[sd_table_id shard := [shard]]> (co_shards_lookup st)
    | Some shards =>
        <[sd_table_id shard := filter (λ s, sd_id s ≠ sd_id shard) shards ++ [shard]]> (co_shards_lookup st)
    end in
  mkState (node_id_lookup st) (db_id_lookup st) (db_name_lookup st) (co_id_lookup st) (co_name_lookup st)
    csl sgl (group_id_lookup st) (cached_group_states st).

Definition apply_group_descriptor (st : State) (group_desc : GroupDesc) : State :=
  let id := gd_id group_desc in
  let epoch := gd_epoch group_desc in
  let replicas := list_to_map ((λ d, (rd_id d, d)) <$> reverse (gd_replicas group_desc)) in
  let '(leader, cached) :=
    match group_id_lookup st !! id with
    | Some old_state => (rg_leader_state old_state, cached_group_states st)
    | None =>
        match cached_group_states st !! id with
        | Some cached_state => (leader_state cached_state, delete id (cached_group_states st))
        | None => (None, cached_group_states st)
        end
    end in
  let st := mkState (node_id_lookup st) (db_id_lookup st) (db_name_lookup st) (co_id_lookup st)
    (co_name_lookup st) (co_shards_lookup st) (shard_group_lookup st)
    (<[id := mkRouterGroupState id epoch leader replicas]> (group_id_lookup st)) cached in
  foldl (apply_shard id epoch) st (gd_shards group_desc).

Definition apply_update_event (st : State) (event : UpdateEvent) : State :=
  match event with
  | UNode node_desc =>
      mkState (<[nd_id node_desc := nd_addr node_desc]> (node_id_lookup st)) (db_id_lookup st)
        (db_name_lookup st) (co_id_lookup st) (co_name_lookup st) (co_shards_lookup st)
        (shard_group_lookup st) (group_id_lookup st) (cached_group_states st)
  | UGroup group_desc => apply_group_descriptor st group_desc
  | UGroupState group_state =>
      let id := gs_group_id group_state in
      let '(gil, cached) :=
        match group_id_lookup st !! id with
        | Some group =>
            (<[id := mkRouterGroupState (rg_id group) (rg_epoch group) (leader_state group_state)
                (rg_replicas group)]> (group_id_lookup st), cached_group_states st)
        | None => (group_id_lookup st, <[id := group_state]> (cached_group_states st))
        end in
      mkState (node_id_lookup st) (db_id_lookup st) (db_name_lookup st) (co_id_lookup st)
        (co_name_lookup st) (co_shards_lookup st) (shard_group_lookup st) gil cached
  | UDatabase db_desc =>
      let '(id, name) := (db_id db_desc, db_name db_desc) in
      let names :=
        match db_id_lookup st !! id with
        | Some old_desc =>
            if bool_decide (db_name old_desc ≠ name) then delete name (db_name_lookup st) else db_name_lookup st
        | None => db_name_lookup st
        end in
      mkState (node_id_lookup st) (<[id := db_desc]> (db_id_lookup st)) (<[name := id]> names)
        (co_id_lookup st) (co_name_lookup st) (co_shards_lookup st) (shard_group_lookup st)
        (group_id_lookup st) (cached_group_states st)
  | UTable co_desc =>
      let '(id, name, db) := (tb_id co_desc, tb_name co_desc, tb_db co_desc) in
      let names :=
        match co_id_lookup st !! id with
        | Some old_desc =>
            if bool_decide (tb_name old_desc ≠ name) then delete (db, tb_name old_desc) (co_name_lookup st)
            else co_name_lookup st
        | None => co_name_lookup st
        end in
      mkState (node_id_lookup st) (db_id_lookup st) (db_name_lookup st) (<[id := co_desc]> (co_id_lookup st))
        (<[(db, name) := id]> names) (co_shards_lookup st) (shard_group_lookup st)
        (group_id_lookup st) (cached_group_states st)
  end.

Definition apply_delete_event (st : State) (event : DeleteEvent) : result unit State :=
  match event with
  | DNode node =>
      Ok (mkState (delete node (node_id_lookup st)) (db_id_lookup st) (db_name_lookup st) (co_id_lookup st)
        (co_name_lookup st) (co_shards_lookup st) (shard_group_lookup st) (group_id_lookup st)
        (cached_group_states st))
  | DGroup _ | DGroupState _ => Panic
  | DDatabase db =>
      let names :=
        match db_id_lookup st !! db with
        | Some desc => delete (db_name desc) (db_name_lookup st)
        | None => db_name_lookup st
        end in
      Ok (mkState (node_id_lookup st) (delete db (db_id_lookup st)) names (co_id_lookup st)
        (co_name_lookup st) (co_shards_lookup st) (shard_group_lookup st) (group_id_lookup st)
        (cached_group_states st))
  | DTable co =>
      let names :=
        match co_id_lookup st !! co with
        | Some desc => delete (tb_db desc, tb_name desc) (co_name_lookup st)
        | None => co_name_lookup st
        end in
      Ok (mkState (node_id_lookup st) (db_id_lookup st) (db_name_lookup st) (delete co (co_id_lookup st))
        names (co_shards_lookup st) (shard_group_lookup st) (group_id_lookup st) (cached_group_states st))
  end.

(** [watch_events]: the updates of a response, then its deletes; an event
    that is not set, or a response that is an error, is skipped. *)
Definition apply_opt {A B} (f : A → B → A) (a : A) (b : option B) : A :=
  match b with Some b => f a b | None => a end.
Fixpoint apply_deletes (st : State) (deletes : list (option DeleteEvent)) : result unit State :=
  match deletes with
  | [] => Ok st
  | None :: deletes' => apply_deletes st deletes'
  | Some e :: deletes' => let? st := apply_delete_event st e in apply_deletes st deletes'
  end.
Definition watch_event (st : State) (event : option (list (option UpdateEvent) * list (option DeleteEvent))) :
    result unit State :=
  match event with
  | Some (updates, deletes) => apply_deletes (foldl (apply_opt apply_update_event) st updates) deletes
  | None => Ok st
  end.

(** * Routing by the watched descriptors

    The router learns of groups one descriptor at a time, in whatever order the
    root sends them.  When the descriptors that share a group or a shard arrive
    by growing epoch, as the state machine numbers them, a lookup answers with
    a shard of the current descriptor of its group. *)
(** ** Histories *)
Definition desc_of (e : UpdateEvent) : option GroupDesc :=
  match e with UGroup d => Some d | _ => None end.
Definition descs (evs : list UpdateEvent) : list GroupDesc := omap desc_of evs.

Definition shard_ids (d : GroupDesc) : list Z := sd_id <$> gd_shards d.
Definition replica_map (d : GroupDesc) : gmap Z ReplicaDesc :=
  list_to_map ((λ d, (rd_id d, d)) <$> reverse (gd_replicas d)).
(** The current descriptor of a group, and the last one to name a shard. *)
Definition last_of (g : Z) (h : list GroupDesc) : option GroupDesc :=
  last (filter (λ d, gd_id d = g) h).
Definition last_mention (sid : Z) (h : list GroupDesc) : option GroupDesc :=
  last (filter (λ d, sid ∈ shard_ids d) h).

#[global] Instance RangePartition_eq_dec : EqDecision RangePartition.
Proof. solve_decision. Defined.
#[global] Instance ShardDesc_eq_dec : EqDecision ShardDesc.
Proof. solve_decision. Defined.

(** What the epochs of two descriptors, the first one received before the
    second, say about them. *)
Definition pair_ok (d1 d2 : GroupDesc) : Prop :=
  (gd_id d1 = gd_id d2 → gd_epoch d1 ≤ gd_epoch d2 ∧
     (gd_epoch d1 = gd_epoch d2 → gd_shards d1 = gd_shards d2)) ∧
  Forall (λ s1, Forall (λ s2, sd_id s1 = sd_id s2 →
     sd_table_id s1 = sd_table_id s2 ∧ (gd_id d1 ≠ gd_id d2 → gd_epoch d1 < gd_epoch d2)) (gd_shards d2))
     (gd_shards d1).
#[global] Instance pair_ok_dec d1 d2 : Decision (pair_ok d1 d2).
Proof. unfold pair_ok. apply _. Defined.
Definition history_ok (h : list GroupDesc) : Prop :=
  Forall (λ d, NoDup (shard_ids d)) h ∧ StronglySorted pair_ok h.

Lemma history_ok_snoc h d : history_ok (h ++ [d]) →
  history_ok h ∧ NoDup (shard_ids d) ∧ Forall (λ d', pair_ok d' d) h.
Proof.
  intros [Hf Hs]. apply Forall_app in Hf as [Hf Hd]. rewrite Forall_singleton in Hd.
  assert (StronglySorted pair_ok h ∧ Forall (λ d', pair_ok d' d) h) as [? ?].
  { clear Hf. induction h as [|x h IH]; [split; constructor|].
    cbn in Hs. inversion_clear Hs as [|? ? Hs' Hx]. apply Forall_app in Hx as [Hx Hxd].
    destruct (IH Hs'). rewrite Forall_singleton in Hxd. split; constructor; auto. }
  done.
Qed.

Lemma last_filter_snoc {A} (P : A → Prop) `{∀ x, Decision (P x)} l x :
  last (filter P (l ++ [x])) = if decide (P x) then Some x else last (filter P l).
Proof.
  rewrite filter_app, filter_cons, filter_nil. destruct (decide (P x)); cbn.
  - by rewrite last_snoc.
  - by rewrite app_nil_r.
Qed.
Lemma last_filter_elem {A} (P : A → Prop) `{∀ x, Decision (P x)} l x :
  last (filter P l) = Some x → P x ∧ x ∈ l.
Proof. intros Hl. apply last_Some_elem_of, list_elem_of_filter in Hl. done. Qed.
Lemma last_filter_is_Some {A} (P : A → Prop) `{∀ x, Decision (P x)} l x :
  x ∈ l → P x → ∃ y, last (filter P l) = Some y.
Proof.
  intros Hx HP. destruct (last (filter P l)) as [y|] eqn:E; [eauto|].
  apply last_None in E. assert (x ∈ filter P l) as Hin by (by apply list_elem_of_filter).
  rewrite E in Hin. by apply not_elem_of_nil in Hin.
Qed.
(** In a sorted list, the last element with a property comes after the others. *)
Lemma last_filter_sorted {A} (R : A → A → Prop) (P : A → Prop) `{∀ x, Decision (P x)} l x y :
  StronglySorted R l → last (filter P l) = Some y → x ∈ l → P x → x = y ∨ R x y.
Proof.
  induction l as [|z l IH] using rev_ind; intros Hs Hl Hx HP; [by apply not_elem_of_nil in Hx|].
  assert (StronglySorted R l ∧ Forall (λ a, R a z) l) as [Hs' Hz].
  { clear -Hs. induction l as [|a l IH]; [split; constructor|].
    inversion_clear Hs as [|? ? Hs' Ha]. apply Forall_app in Ha as [? Haz]. destruct (IH Hs').
    rewrite Forall_singleton in Haz. split; constructor; auto. }
  rewrite last_filter_snoc in Hl. apply elem_of_app in Hx. destruct (decide (P z)) as [Pz|Pz].
  - simplify_eq. destruct Hx as [Hx|Hx%list_elem_of_singleton]; [|by left].
    right. by apply (Forall_forall (λ a, R a y) l).
  - destruct Hx as [Hx| ->%list_elem_of_singleton]; [auto|done].
Qed.

(** ** The tables after a history *)
(** The shards the router knows of a table. *)
Definition table_shards (st : State) (t : Z) : list ShardDesc := default [] (co_shards_lookup st !! t).

Record router_inv (h : list GroupDesc) (st : State) : Prop := {
  inv_group g :
    match last_of g h with
    | Some d => ∃ gs, group_id_lookup st !! g = Some gs ∧
        rg_id gs = g ∧ rg_epoch gs = gd_epoch d ∧ rg_replicas gs = replica_map d
    | None => group_id_lookup st !! g = None
    end;
  inv_shard sid : shard_group_lookup st !! sid = (λ d, (gd_id d, gd_epoch d)) <$> last_mention sid h;
  inv_table t s : s ∈ table_shards st t ↔
    sd_table_id s = t ∧ ∃ d, last_mention (sd_id s) h = Some d ∧ s ∈ gd_shards d }.

Lemma router_inv_empty : router_inv [] State_default.
Proof.
  split; cbn; [by intros; rewrite lookup_empty..|].
  intros t s. unfold table_shards. cbn. rewrite lookup_empty. cbn. rewrite elem_of_nil.
  split; [done|]. by intros (_ & d & [=] & _).
Qed.

(** ** One shard of a descriptor *)
Lemma table_shards_apply id e st s t x :
  x ∈ table_shards (apply_shard id e st s) t ↔
  (x = s ∧ sd_table_id s = t) ∨ (x ∈ table_shards st t ∧ (sd_table_id s = t → sd_id x ≠ sd_id s)).
Proof.
  unfold table_shards, apply_shard. cbn.
  destruct (decide (sd_table_id s = t)) as [<-|Hne].
  - destruct (co_shards_lookup st !! sd_table_id s) as [l|] eqn:E; rewrite lookup_insert_eq; cbn.
    + rewrite elem_of_app, list_elem_of_filter, list_elem_of_singleton. naive_solver.
    + rewrite list_elem_of_singleton, elem_of_nil. naive_solver.
  - destruct (co_shards_lookup st !! sd_table_id s); rewrite lookup_insert_ne by done; naive_solver.
Qed.
Lemma shard_lookup_apply id e st s sid :
  shard_group_lookup (apply_shard id e st s) !! sid =
    if decide (sid = sd_id s) then
      match shard_group_lookup st !! sid with
      | Some (g, e') => Some (if e' <? e then (id, e) else (g, e'))
      | None => Some (id, e)
      end
    else shard_group_lookup st !! sid.
Proof.
  unfold apply_shard. cbn. case_decide as Hd.
  - subst. destruct (shard_group_lookup st !! sd_id s) as [[g e']|] eqn:E; [|by rewrite lookup_insert_eq].
    destruct (e' <? e); [by rewrite lookup_insert_eq|done].
  - destruct (shard_group_lookup st !! sd_id s) as [[g e']|] eqn:E; [|by rewrite lookup_insert_ne].
    destruct (e' <? e); [by rewrite lookup_insert_ne|done].
Qed.

(** ** All shards of a descriptor *)
Section Fold.
Context (id e : Z).

Lemma fold_group_lookup ss st :
  group_id_lookup (foldl (apply_shard id e) st ss) = group_id_lookup st.
Proof. revert st. induction ss as [|s ss IH]; intros st; [done|]. cbn. by rewrite IH. Qed.

Lemma fold_shard_lookup ss st sid : NoDup (sd_id <$> ss) →
  shard_group_lookup (foldl (apply_shard id e) st ss) !! sid =
    if decide (sid ∈ sd_id <$> ss) then
      match shard_group_lookup st !! sid with
      | Some (g, e') => Some (if e' <? e then (id, e) else (g, e'))
      | None => Some (id, e)
      end
    else shard_group_lookup st !! sid.
Proof.
  revert st. induction ss as [|s ss IH]; intros st Hnd.
  { rewrite decide_False; [done|]. apply not_elem_of_nil. }
  cbn in Hnd. apply NoDup_cons in Hnd as [Hs Hnd]. cbn [foldl]. rewrite IH by done.
  rewrite shard_lookup_apply. cbn [fmap list_fmap].
  destruct (decide (sid = sd_id s)) as [->|Hne].
  - rewrite decide_False by done. by rewrite (decide_True (P := sd_id s ∈ sd_id s :: _)) by left.
  - destruct (decide (sid ∈ sd_id <$> ss)) as [Hin|Hin].
    + by rewrite decide_True by (by right).
    + rewrite decide_False; [done|]. by intros [?|?]%elem_of_cons.
Qed.

Lemma fold_table_shards ss st t x : NoDup (sd_id <$> ss) →
  x ∈ table_shards (foldl (apply_shard id e) st ss) t ↔
  (x ∈ ss ∧ sd_table_id x = t) ∨
  (x ∈ table_shards st t ∧ ∀ s, s ∈ ss → sd_table_id s = t → sd_id x ≠ sd_id s).
Proof.
  revert st. induction ss as [|s ss IH]; intros st Hnd.
  { cbn. setoid_rewrite elem_of_nil. naive_solver. }
  cbn in Hnd. apply NoDup_cons in Hnd as [Hs Hnd]. cbn [foldl]. rewrite IH by done.
  rewrite table_shards_apply. setoid_rewrite elem_of_cons.
  assert (∀ s', s' ∈ ss → sd_id s ≠ sd_id s') as Hs'.
  { intros s' Hin Heq. apply Hs. rewrite Heq. by apply list_elem_of_fmap_2. }
  naive_solver.
Qed.
End Fold.

(** ** One event *)
Lemma mention_pair h d sid d' :
  Forall (λ d', pair_ok d' d) h → last_mention sid h = Some d' → sid ∈ shard_ids d →
  (gd_epoch d' <? gd_epoch d) = true ∨ (gd_id d' = gd_id d ∧ gd_epoch d' = gd_epoch d).
Proof.
  intros Hp [Hm Hin]%last_filter_elem Hd. rewrite Forall_forall in Hp. destruct (Hp d' Hin) as [Hg Hs].
  destruct (decide (gd_id d' = gd_id d)) as [E|E].
  { destruct (Hg E) as [Hle _]. destruct (decide (gd_epoch d' = gd_epoch d)); [by right|].
    left. apply Z.ltb_lt. lia. }
  left. apply Z.ltb_lt. apply list_elem_of_fmap in Hm as (s1 & E1 & H1).
  apply list_elem_of_fmap in Hd as (s2 & E2 & H2).
  rewrite Forall_forall in Hs. specialize (Hs s1 H1). rewrite Forall_forall in Hs.
  destruct (Hs s2 H2 ltac:(congruence)) as [_ Hlt]. by apply Hlt.
Qed.

Lemma mention_table h d s1 d1 s2 :
  Forall (λ d', pair_ok d' d) h → d1 ∈ h → s1 ∈ gd_shards d1 → s2 ∈ gd_shards d → sd_id s1 = sd_id s2 →
  sd_table_id s1 = sd_table_id s2.
Proof.
  intros Hp Hd1 H1 H2 E. rewrite Forall_forall in Hp. destruct (Hp d1 Hd1) as [_ Hs].
  rewrite Forall_forall in Hs. specialize (Hs s1 H1). rewrite Forall_forall in Hs. by apply (Hs s2).
Qed.

Lemma router_inv_group h st d : history_ok (h ++ [d]) → router_inv h st →
  router_inv (h ++ [d]) (apply_group_descriptor st d).
Proof.
  intros (Hh & Hnd & Hp)%history_ok_snoc [Hg Hs Ht]. unfold apply_group_descriptor.
  match goal with |- context [let '(_, _) := ?x in _] => destruct x as [leader cached] end.
  set (st1 := mkState _ _ _ _ _ _ _ _ _). split.
  - intros g. rewrite fold_group_lookup. unfold last_of. rewrite last_filter_snoc. cbn.
    case_decide as E.
    + rewrite E, lookup_insert_eq. eexists. split; [done|]. by subst.
    + rewrite lookup_insert_ne by done. apply Hg.
  - intros sid. rewrite fold_shard_lookup by done. unfold last_mention. rewrite last_filter_snoc.
    change (shard_group_lookup st1 !! sid) with (shard_group_lookup st !! sid). rewrite Hs.
    destruct (decide (sid ∈ shard_ids d)) as [E|E];
      [rewrite decide_True by done|by rewrite decide_False by done].
    destruct (last_mention sid h) as [d'|] eqn:El; [|done]. cbn.
    destruct (mention_pair h d sid d' Hp El E) as [->|[E1 E2]]; [done|].
    rewrite E1, E2. by destruct (_ <? _).
  - intros t s. rewrite fold_table_shards by done.
    change (table_shards st1 t) with (table_shards st t). rewrite Ht.
    unfold last_mention. rewrite last_filter_snoc. split.
    + intros [[Hin <-]|[[<- (d' & El & Hin)] Hno]].
      * split; [done|]. exists d. rewrite decide_True by (by apply list_elem_of_fmap_2). done.
      * split; [done|]. exists d'. rewrite decide_False; [done|].
        intros (s2 & E2 & H2)%list_elem_of_fmap. apply (Hno s2 H2); [|done].
        apply last_filter_elem in El as [_ Hd']. symmetry. by eapply mention_table.
    + intros [<- (d' & El & Hin)]. case_decide as E; [simplify_eq; by left|].
      right. split; [eauto|]. intros s2 H2 _ E2. apply E. rewrite E2. by apply list_elem_of_fmap_2.
Qed.

Lemma router_inv_event h st e : history_ok (h ++ descs [e]) → router_inv h st →
  router_inv (h ++ descs [e]) (apply_update_event st e).
Proof.
  destruct e as [n|d|gs|db|tb]; intros Hh Hi; [|by apply router_inv_group|..];
    change (descs [_]) with (@nil GroupDesc); rewrite app_nil_r; destruct Hi as [Hg Hs Ht].
  - by split.
  - split; [|by destruct (group_id_lookup st !! gs_group_id gs) eqn:E; unfold apply_update_event; rewrite E..].
    intros g. specialize (Hg g). unfold apply_update_event.
    destruct (group_id_lookup st !! gs_group_id gs) as [x|] eqn:E; [|done]. cbn.
    destruct (decide (g = gs_group_id gs)) as [->|Hne].
    + rewrite lookup_insert_eq. destruct (last_of _ h) as [d|]; [|congruence].
      destruct Hg as (y & Hy & Hrest). assert (x = y) as <- by congruence. eauto.
    + rewrite lookup_insert_ne by done. apply Hg.
  - by split.
  - by split.
Qed.

Lemma router_inv_run evs : history_ok (descs evs) →
  router_inv (descs evs) (foldl apply_update_event State_default evs).
Proof.
  induction evs as [|e evs IH] using rev_ind; intros Hh; [apply router_inv_empty|].
  unfold descs in *. rewrite omap_app in *. rewrite foldl_snoc. apply router_inv_event; [done|].
  apply IH. change (omap desc_of [e]) with (descs [e]) in Hh.
  destruct Hh as [Hf Hs]. apply Forall_app in Hf as [? _]. split; [done|].
  revert Hs. generalize (omap desc_of evs). intros l. induction l as [|x l IHl]; [constructor|].
  intros Hs. inversion_clear Hs as [|? ? Hs' Hx]. apply Forall_app in Hx as [? _]. constructor; auto.
Qed.

(** ** Lookups *)
Section Lookup.
Context (h : list GroupDesc) (st : State) (Hh : history_ok h) (Hi : router_inv h st).

(** The shard a live lookup finds is one of the current descriptor. *)
Lemma live_shard_current t s gs : s ∈ table_shards st t → state_find_group_by_shard st (sd_id s) = Some gs →
  ∃ d, last_of (rg_id gs) h = Some d ∧ s ∈ gd_shards d ∧ sd_table_id s = t ∧
    rg_epoch gs = gd_epoch d ∧ rg_replicas gs = replica_map d.
Proof.
  intros Hs Hf. apply (inv_table _ _ Hi) in Hs as [Ht (d & Hm & Hin)].
  unfold state_find_group_by_shard in Hf. rewrite (inv_shard _ _ Hi), Hm in Hf. cbn in Hf.
  apply last_filter_elem in Hm as [_ Hd].
  destruct (last_filter_is_Some (λ d', gd_id d' = gd_id d) h d Hd eq_refl) as [dg Hg].
  pose proof (inv_group _ _ Hi (gd_id d)) as Hgl. unfold last_of in Hgl. rewrite Hg in Hgl.
  destruct Hgl as (gs' & El & Eid & Eep & Erep). rewrite El in Hf. cbn in Hf.
  destruct (_ <? _) eqn:Elt; [done|]. simplify_eq. to_prop. rewrite Eid.
  exists dg. split; [done|]. split; [|done]. destruct Hh as [_ Hsort].
  destruct (last_filter_sorted pair_ok _ h d dg Hsort Hg Hd eq_refl) as [<-|[Hpair _]]; [done|].
  pose proof (last_filter_elem _ _ _ Hg) as [Egd _].
  destruct (Hpair ltac:(done)) as [Hle Heq]. by rewrite <- Heq by lia.
Qed.

Lemma find_shard_in_sound l k gs s : find_shard_in st l k = Some (gs, s) →
  s ∈ l ∧ belong_to s k = true ∧ state_find_group_by_shard st (sd_id s) = Some gs.
Proof.
  induction l as [|x l IH]; [done|]. cbn [find_shard_in]. rewrite elem_of_cons.
  destruct (belong_to x k) eqn:E; [|naive_solver].
  destruct (state_find_group_by_shard st (sd_id x)) eqn:E2; naive_solver.
Qed.
Lemma find_shard_in_complete l k s gs : s ∈ l → belong_to s k = true →
  state_find_group_by_shard st (sd_id s) = Some gs → ∃ r, find_shard_in st l k = Some r.
Proof.
  intros Hs Hb Hg. induction l as [|x l IH]; [by apply not_elem_of_nil in Hs|]. cbn [find_shard_in].
  apply elem_of_cons in Hs as [<-|Hs].
  - rewrite Hb, Hg. eauto.
  - destruct (belong_to x k); [|auto]. destruct (state_find_group_by_shard st (sd_id x)); eauto.
Qed.

Lemma find_shard_sound t k gs s : find_shard st t k = Ok (gs, s) →
  ∃ d, last_of (rg_id gs) h = Some d ∧ s ∈ gd_shards d ∧ sd_table_id s = t ∧ belong_to s k = true ∧
    rg_epoch gs = gd_epoch d ∧ rg_replicas gs = replica_map d.
Proof.
  unfold find_shard. destruct (co_shards_lookup st !! t) as [l|] eqn:E; cbn; [|done].
  destruct (find_shard_in st l k) as [[gs' s']|] eqn:Ef; cbn; [|done]. intros [= -> ->].
  apply find_shard_in_sound in Ef as (Hin & Hb & Hg).
  destruct (live_shard_current t s gs) as (d & ? & ? & ? & ? & ?); [|done|naive_solver].
  unfold table_shards. by rewrite E.
Qed.

Lemma find_shard_complete d s k :
  last_of (gd_id d) h = Some d → last_mention (sd_id s) h = Some d → s ∈ gd_shards d →
  belong_to s k = true →
  (∀ d' s', last_of (gd_id d') h = Some d' → s' ∈ gd_shards d' → sd_table_id s' = sd_table_id s →
     belong_to s' k = true → s' = s) →
  ∃ gs, find_shard st (sd_table_id s) k = Ok (gs, s) ∧ rg_id gs = gd_id d.
Proof.
  intros Hd Hm Hin Hb Huniq.
  assert (s ∈ table_shards st (sd_table_id s)) as Hs by (apply (inv_table _ _ Hi); eauto).
  pose proof (inv_group _ _ Hi (gd_id d)) as Hg. rewrite Hd in Hg. destruct Hg as (gs & El & Eid & Eep & _).
  assert (state_find_group_by_shard st (sd_id s) = Some gs) as Hlive.
  { unfold state_find_group_by_shard. rewrite (inv_shard _ _ Hi), Hm. cbn. rewrite El. cbn.
    by rewrite Eep, Z.ltb_irrefl. }
  unfold table_shards in Hs. destruct (co_shards_lookup st !! sd_table_id s) as [l|] eqn:E;
    [|by apply not_elem_of_nil in Hs]. cbn in Hs.
  destruct (find_shard_in_complete l k s gs Hs Hb Hlive) as [[gs' s'] Hr].
  assert (find_shard st (sd_table_id s) k = Ok (gs', s')) as Hfind.
  { unfold find_shard. rewrite E. cbn. by rewrite Hr. }
  destruct (find_shard_sound _ _ _ _ Hfind) as (d' & Hd' & Hin' & Ht' & Hb' & _).
  assert (gd_id d' = rg_id gs') as E' by (by apply last_filter_elem in Hd' as [? _]).
  rewrite <- E' in Hd'. pose proof (Huniq d' s' Hd' Hin' Ht' Hb') as ->.
  apply find_shard_in_sound in Hr as (_ & _ & Hr). rewrite Hlive in Hr. injection Hr as <-.
  eauto.
Qed.
End Lookup.

(** C34: Routing: let the router follow any interleaving of events in which the
    descriptors of one group, and those that name one shard, come by growing
    epoch.  A shard that [find_shard] returns for a key is in the current
    descriptor of the group it is returned with, belongs to the table and holds
    the key (a shard that a later descriptor of its group no longer has is never
    returned); and a key of a shard whose owner is known and that no other
    current shard claims is routed to that shard and its owner. *)
Theorem router_follows_descriptors evs t k :
  history_ok (descs evs) →
  (∀ gs s, find_shard (foldl apply_update_event State_default evs) t k = Ok (gs, s) →
    ∃ d, last_of (rg_id gs) (descs evs) = Some d ∧ s ∈ gd_shards d ∧ sd_table_id s = t ∧
      belong_to s k = true ∧ rg_epoch gs = gd_epoch d ∧ rg_replicas gs = replica_map d) ∧
  (∀ d s, last_of (gd_id d) (descs evs) = Some d → last_mention (sd_id s) (descs evs) = Some d →
    s ∈ gd_shards d → sd_table_id s = t → belong_to s k = true →
    (∀ d' s', last_of (gd_id d') (descs evs) = Some d' → s' ∈ gd_shards d' → sd_table_id s' = t →
       belong_to s' k = true → s' = s) →
    ∃ gs, find_shard (foldl apply_update_event State_default evs) t k = Ok (gs, s) ∧ rg_id gs = gd_id d).
Proof.
  intros Hh. pose proof (router_inv_run evs Hh) as Hi. split.
  - intros gs s. by apply find_shard_sound.
  - intros d s Hd Hm Hin <- Hb Hu. by apply (find_shard_complete (descs evs)).
Qed.

(** ** A shard that moves *)
Definition moved_shard : ShardDesc := mkShardDesc 10 7 (Some (mkRange [] [])).
Definition owner_before : GroupDesc := mkGroupDesc 1 5 [moved_shard] [mkReplicaDesc 11 1 0].
Definition owner_after : GroupDesc := mkGroupDesc 2 (2 ^ 32 + 5) [moved_shard] [mkReplicaDesc 21 2 0].
Definition left_behind : GroupDesc := mkGroupDesc 1 (2 ^ 32 + 5) [] [mkReplicaDesc 11 1 0].
Definition move_events : list UpdateEvent :=
  [UGroup owner_before; UNode (mkNodeDesc 2 "n2" None 0); UGroup owner_after; UGroup left_behind].

Lemma router_follows_descriptors_witness :
  history_ok (descs move_events) ∧
  ∃ gs, find_shard (foldl apply_update_event State_default move_events) 7 [Byte.x61] = Ok (gs, moved_shard) ∧
    rg_id gs = 2.
Proof.
  assert (history_ok (descs move_events)) as Hh.
  { split; [apply (bool_decide_unpack _); vm_compute; exact I|].
    change (descs move_events) with [owner_before; owner_after; left_behind].
    repeat apply SSorted_cons; [apply SSorted_nil|..]; apply (bool_decide_unpack _); vm_compute; exact I. }
  split; [done|].
  apply (proj2 (router_follows_descriptors move_events 7 [Byte.x61] Hh) owner_after moved_shard);
    [reflexivity|reflexivity|left|reflexivity|reflexivity|].
  intros d' s' Hl Hin Ht Hb. apply last_filter_elem in Hl as [_ Hd].
  repeat (apply elem_of_cons in Hd as [->|Hd]); [..|by apply not_elem_of_nil in Hd]; cbn in Hin;
    repeat (apply elem_of_cons in Hin as [->|Hin]); done || by apply not_elem_of_nil in Hin.
Defined.

(** The range of a shard is replaced whatever the epoch, unlike its group: the
    old descriptor of the previous owner, when it arrives late, brings back the
    range the shard had before it was split. *)
Definition split_left : ShardDesc := mkShardDesc 10 7 (Some (mkRange [] [Byte.x6d])).
Lemma late_descriptor_restores_range :
  find_shard (foldl apply_update_event State_default
    [UGroup (mkGroupDesc 2 (2 ^ 33) [split_left] []); UGroup owner_before]) 7 [Byte.x7a] =
  Ok (mkRouterGroupState 2 (2 ^ 33) None ∅, moved_shard) ∧ belong_to split_left [Byte.x7a] = false.
Proof. split; vm_compute; reflexivity. Qed.

(** Renaming a database removes the new name before inserting it: the old name
    still leads to the database. *)
Lemma renamed_database_keeps_old_name st id old new :
  old ≠ new →
  db_name_lookup (foldl apply_update_event st
    [UDatabase (mkDatabaseDesc id old); UDatabase (mkDatabaseDesc id new)]) !! old = Some id.
Proof.
  intros Hne. cbn. rewrite lookup_insert_eq. cbn. rewrite bool_decide_eq_true_2 by done.
  rewrite lookup_insert_ne by done. rewrite lookup_delete_ne by done. by rewrite lookup_insert_eq.
Qed.

(** The leader is the reported one of the highest term. *)
Lemma leader_state_max gs id term : leader_state gs = Some (id, term) →
  (∃ r, r ∈ gs_replicas gs ∧ rs_replica_id r = id ∧ rs_term r = term ∧ rs_role r = RaftRole_i32 Leader) ∧
  ∀ r, r ∈ gs_replicas gs → rs_role r = RaftRole_i32 Leader → rs_term r ≤ term.
Proof.
  unfold leader_state. destruct (gs_leader_id gs) as [lid|]; [|done].
  set (l := (λ r, (rs_replica_id r, rs_term r)) <$> _). intros Hl.
  assert (Transitive term_le ∧ Total term_le) as [Htr Htot].
  { unfold term_le. split; [intros x y z; lia|intros x y; cbn; lia]. }
  pose proof (StronglySorted_merge_sort term_le l) as Hs.
  pose proof (merge_sort_Permutation term_le l) as Hp.
  split.
  - apply last_Some_elem_of in Hl. rewrite Hp in Hl. apply list_elem_of_fmap in Hl as (r & [= -> ->] & Hr).
    apply list_elem_of_filter in Hr as [? ?]. eauto 10.
  - intros r Hr Hlead.
    assert ((rs_replica_id r, rs_term r) ∈ merge_sort term_le l) as Hin.
    { rewrite Hp. apply list_elem_of_fmap. exists r. split; [done|]. by apply list_elem_of_filter. }
    apply last_Some in Hl as [l' El]. rewrite El in Hs, Hin.
    apply elem_of_app in Hin as [Hin|Hin%list_elem_of_singleton]; [|simplify_eq; done].
    clear -Hs Hin. induction l' as [|x l' IH]; [by apply not_elem_of_nil in Hin|].
    inversion_clear Hs as [|? ? Hs' Hf]. apply elem_of_cons in Hin as [<-|Hin]; [|auto].
    rewrite Forall_app, Forall_singleton in Hf. apply (proj2 Hf).
Qed.
