(* ===== verification/GroupClient.v ===== *)
(** * The group client ([client/src/group_client.rs])

    Submits a request to the leader of a group: it walks the replicas, follows
    [NotLeader] and [EpochNotMatch] answers, and gives up with
    [GroupNotAccessable] when it has tried them all.  The connections and what
    the nodes answer are parameters; the world [W] carries the router's state
    and the clock. *)

From S2P Require Import Prelude Bytes Api RocksDb Errors Schema Router.
#[local] Open Scope Z_scope.

Record InvokeOpt := mkInvokeOpt {
  io_request : option Request; io_accurate_epoch : bool; io_ignore_transport_error : bool }.
Definition InvokeOpt_default : InvokeOpt := mkInvokeOpt None false false.
Record InvokeContext := mkInvokeContext { ic_group_id : Z; ic_epoch : Z; ic_timeout : option Z }.

(** ** The order of the replicas *)
Definition swap {A} (l : list A) (i j : nat) : list A :=
  match l !! i, l !! j with
  | Some x, Some y => <[j := x]> (<[i := y]> l)
  | _, _ => l
  end.
Definition move_node_to_first_element (replicas : list ReplicaDesc) (node_id : Z) : list ReplicaDesc :=
  match list_find (λ r, rd_node_id r = node_id) replicas with
  | Some (idx, _) => if decide (idx ≠ O) then swap replicas 0 idx else replicas
  | None => replicas
  end.
Definition move_replica_to_first_element (replicas : list ReplicaDesc) (replica : ReplicaDesc) : list ReplicaDesc :=
  let '(replicas, idx) :=
    match list_find (λ r, rd_node_id r = rd_node_id replica) replicas with
    | Some (idx, _) => (replicas, idx)
    | None => (replicas ++ [replica], length replicas)
    end in
  if decide (idx ≠ O) then swap replicas 0 idx else replicas.

(** ** Which requests may be sent again *)
Definition is_read_only_request (request : Request) : bool :=
  match request with RGet _ | RScan _ => true | _ => false end.
Definition is_target_shard_exists (desc : GroupDesc) (shard_id : Z) (key : bytes) : bool :=
  match List.find (λ s, sd_id s =? shard_id) (gd_shards desc) with
  | Some s => belong_to s key
  | None => false
  end.
Definition is_all_target_shard_exists (desc : GroupDesc) (shard_id : Z) (deletes : list DeleteRequest)
    (puts : list PutRequest) : bool :=
  if negb (forallb (λ d, is_target_shard_exists desc shard_id (del_key d)) deletes) then false
  else if negb (forallb (λ p, is_target_shard_exists desc shard_id (put_key p)) puts) then false
  else true.
Definition is_executable (desc : GroupDesc) (request : Request) : bool :=
  match request with
  | RGet req => is_target_shard_exists desc (sg_shard_id req) (sg_user_key req)
  | RWrite req => is_all_target_shard_exists desc (sw_shard_id req) (sw_deletes req) (sw_puts req)
  | RWriteIntent req =>
      match wi_write req with
      | Some (WDelete delete) => is_target_shard_exists desc (wi_shard_id req) (del_key delete)
      | Some (WPut put) => is_target_shard_exists desc (wi_shard_id req) (put_key put)
      | None => false
      end
  | RCommitIntent req => is_target_shard_exists desc (ci_shard_id req) (ci_user_key req)
  | RClearIntent req => is_target_shard_exists desc (cl_shard_id req) (cl_user_key req)
  | _ => false
  end.

(** ** The client *)
Section Client.
  Context {NC : Type}.
  Context `{Codec V1Error}.

Record GroupClient := mkGroupClient {
  gc_group_id : Z; gc_timeout : option Z; gc_epoch : Z; gc_leader_state : option (Z * Z);
  gc_replicas : list ReplicaDesc; gc_access_node_id : option Z; gc_next_access_index : nat;
  gc_node_clients : gmap Z NC }.

Definition lazy (group_id : Z) : GroupClient := mkGroupClient group_id None 0 None [] None 0 ∅.
Definition set_timeout_opt (c : GroupClient) (timeout : option Z) : GroupClient :=
  mkGroupClient (gc_group_id c) timeout (gc_epoch c) (gc_leader_state c) (gc_replicas c)
    (gc_access_node_id c) (gc_next_access_index c) (gc_node_clients c).
Definition set_access (c : GroupClient) (node : option Z) : GroupClient :=
  mkGroupClient (gc_group_id c) (gc_timeout c) (gc_epoch c) (gc_leader_state c) (gc_replicas c)
    node (gc_next_access_index c) (gc_node_clients c).
Definition set_next_index (c : GroupClient) (i : nat) : GroupClient :=
  mkGroupClient (gc_group_id c) (gc_timeout c) (gc_epoch c) (gc_leader_state c) (gc_replicas c)
    (gc_access_node_id c) i (gc_node_clients c).

(** [into_values] visits the replicas in some order. *)
Definition apply_group_state (c : GroupClient) (group : RouterGroupState) : GroupClient :=
  let leader_node_id :=
    '(leader_id, _) ← rg_leader_state group; rd_node_id <$> rg_replicas group !! leader_id in
  let replicas := (map_to_list (rg_replicas group)).*2 in
  mkGroupClient (gc_group_id c) (gc_timeout c) (rg_epoch group) (rg_leader_state group)
    match leader_node_id with
    | Some node_id => move_node_to_first_element replicas node_id
    | None => replicas
    end (gc_access_node_id c) (gc_next_access_index c) (gc_node_clients c).
Definition GroupClient_new (group_state : RouterGroupState) : GroupClient :=
  apply_group_state (lazy (rg_id group_state)) group_state.
Definition initial_group_state (st : State) (c : GroupClient) : CResult GroupClient :=
  match find_group st (gc_group_id c) with
  | Ok group_state => Ok (apply_group_state c group_state)
  | Err _ => Err (CGroupNotAccessable (gc_group_id c))
  | Panic => Panic
  end.

(** An empty list of replicas divides by zero. *)
Definition next_access_node_id (c : GroupClient) : CResult (option Z * GroupClient) :=
  if decide (gc_next_access_index c ≤ length (gc_replicas c))%nat then
    match gc_replicas c !! (gc_next_access_index c mod length (gc_replicas c))%nat with
    | Some r => Ok (Some (rd_node_id r), set_next_index c (S (gc_next_access_index c)))
    | None => Panic
    end
  else Ok (None, c).

Definition apply_not_leader_status (c : GroupClient) (term : Z) (leader_desc : option ReplicaDesc) : GroupClient :=
  let c := set_access c None in
  match leader_desc with
  | None => c
  | Some leader =>
      if negb (match gc_leader_state c with Some (_, local_term) => term <=? local_term | None => false end) then
        mkGroupClient (gc_group_id c) (gc_timeout c) (gc_epoch c) (Some (rd_id leader, term))
          (move_replica_to_first_element (gc_replicas c) leader) (Some (rd_node_id leader))
          (gc_next_access_index c) (gc_node_clients c)
      else c
  end.

Definition apply_epoch_not_match_status (c : GroupClient) (group_desc : GroupDesc) (opt : InvokeOpt) :
    CResult GroupClient :=
  if io_accurate_epoch opt then Err (CEpochNotMatch group_desc)
  else if gd_epoch group_desc <=? gc_epoch c then Panic
  else if match io_request opt with Some r => negb (is_executable group_desc r) | None => false end
  then Err (CEpochNotMatch group_desc)
  else
    Ok (mkGroupClient (gc_group_id c) (gc_timeout c) (gd_epoch group_desc) (gc_leader_state c)
          (move_node_to_first_element (gd_replicas group_desc) (default 0 (gc_access_node_id c)))
          (gc_access_node_id c) 1 (gc_node_clients c)).

Definition apply_status (c : GroupClient) (status : Status) (opt : InvokeOpt) : CResult GroupClient :=
  let? e := from_status status in
  match e with
  | CGroupNotFound _ => Ok (set_access c None)
  | CNotLeader _ term leader_desc => Ok (apply_not_leader_status c term leader_desc)
  | CConnect => Ok (set_access c None)
  | CTransport =>
      if io_ignore_transport_error opt
         || match io_request opt with Some r => is_read_only_request r | None => false end
      then Ok (set_access c None) else Err CTransport
  | CEpochNotMatch group_desc => apply_epoch_not_match_status c group_desc opt
  | e => Err e
  end.

(** ** Sending *)
Section World.
  Context {W : Type}.
  Variable router : W → State.
  (** [Instant::now], in milliseconds. *)
  Variable now : W → Z.
  (** [ConnManager::get_node_client]. *)
  Variable get_node_client : string → option NC.

Definition fetch_client (st : State) (c : GroupClient) (node_id : Z) : option NC * GroupClient :=
  match gc_node_clients c !! node_id with
  | Some client => (Some client, c)
  | None =>
      match find_node_addr st node_id with
      | Ok addr =>
          match get_node_client addr with
          | Some client =>
              (Some client,
               mkGroupClient (gc_group_id c) (gc_timeout c) (gc_epoch c) (gc_leader_state c) (gc_replicas c)
                 (gc_access_node_id c) (gc_next_access_index c) (<[node_id := client]> (gc_node_clients c)))
          | None => (None, c)
          end
      | _ => (None, c)
      end
  end.

(** [fuel] bounds the replicas without an address that are skipped. *)
Fixpoint recommend_client_loop (fuel : nat) (st : State) (c : GroupClient) :
    option (CResult (option (Z * NC) * GroupClient)) :=
  match fuel with
  | O => None
  | S fuel' =>
      match
        match gc_access_node_id c with
        | Some node_id => Ok (Some node_id, c)
        | None => next_access_node_id c
        end
      with
      | Panic => Some Panic
      | Err e => Some (Err e)
      | Ok (None, c) => Some (Ok (None, c))
      | Ok (Some node_id, c) =>
          match fetch_client st c node_id with
          | (Some client, c) => Some (Ok (Some (node_id, client), set_access c (Some node_id)))
          | (None, c) => recommend_client_loop fuel' st (set_access c None)
          end
      end
  end.
Definition recommend_client (st : State) (c : GroupClient) : option (CResult (option (Z * NC) * GroupClient)) :=
  recommend_client_loop (3 + length (gc_replicas c)) st c.

Section Invoke.
  Context {V : Type}.
  Variable op : InvokeContext → NC → W → (Status + V) * W.

(** The loop of [invoke_with_opt]; [None] when [fuel] attempts are not enough. *)
Fixpoint invoke_loop (fuel : nat) (opt : InvokeOpt) (deadline : option Z) (c : GroupClient) (w : W) :
    option (CResult V * GroupClient * W) :=
  match fuel with
  | O => None
  | S fuel' =>
      match recommend_client (router w) c with
      | None => None
      | Some Panic => Some (Panic, c, w)
      | Some (Err e) => Some (Err e, c, w)
      | Some (Ok (None, c)) => Some (Err (CGroupNotAccessable (gc_group_id c)), c, w)
      | Some (Ok (Some (_, client), c)) =>
          let ctx := mkInvokeContext (gc_group_id c) (gc_epoch c) (gc_timeout c) in
          match op ctx client w with
          | (inr s, w) => Some (Ok s, c, w)
          | (inl status, w) =>
              match apply_status c status opt with
              | Err e => Some (Err e, c, w)
              | Panic => Some (Panic, c, w)
              | Ok c =>
                  if match deadline with Some v => v <? now w | None => false end
                  then Some (Err CDeadlineExceeded, c, w)
                  else invoke_loop fuel' opt deadline c w
              end
          end
      end
  end.

Definition invoke_with_opt (fuel : nat) (opt : InvokeOpt) (c : GroupClient) (w : W) :
    option (CResult V * GroupClient * W) :=
  match (if gc_epoch c =? 0 then initial_group_state (router w) c else Ok c) with
  | Err e => Some (Err e, c, w)
  | Panic => Some (Panic, c, w)
  | Ok c =>
      let c := set_next_index c 0 in
      let deadline := (λ duration, now w + duration) <$> gc_timeout c in
      invoke_loop fuel opt deadline (set_timeout_opt c None) w
  end.
End Invoke.

(** ** Requests *)
(** [GroupResponse], and [NodeClient::unary_group_request] with its timeout. *)
Record GroupResponse := mkGroupResponse {
  gp_response : option (option Response); gp_error : option V1Error }.
Variable unary_group_request : NC → option Z → GroupRequest → W → (Status + GroupResponse) * W.

Definition group_response (resp : GroupResponse) : Status + Response :=
  match gp_response resp ≫= id with
  | Some resp => inr resp
  | None =>
      match gp_error resp with
      | Some err => inl (Status_with_details CodeUnknown "response" (encode_to_vec err))
      | None => inl (Status_new CodeInternal "Both response and error are None in GroupResponse")
      end
  end.

(** A unary request built from the context, and the answer it expects. *)
Definition unary_op {V} (timeout : InvokeContext → option Z) (req : InvokeContext → GroupRequest)
    (expected : Response → option V) (ctx : InvokeContext) (client : NC) (w : W) : (Status + V) * W :=
  match unary_group_request client (timeout ctx) (req ctx) w with
  | (inl s, w) => (inl s, w)
  | (inr resp, w) =>
      match group_response resp with
      | inl s => (inl s, w)
      | inr resp =>
          match expected resp with
          | Some v => (inr v, w)
          | None => (inl (Status_new CodeInternal "invalid response type"), w)
          end
      end
  end.
Definition group_request (r : Request) (ctx : InvokeContext) : GroupRequest :=
  mkGroupRequest (ic_group_id ctx) (ic_epoch ctx) (Some (Some r)).

Definition request (fuel : nat) (r : Request) (c : GroupClient) (w : W) : option (CResult Response * GroupClient * W) :=
  invoke_with_opt (unary_op ic_timeout (group_request r) Some) fuel (mkInvokeOpt (Some r) false false) c w.

(** *** Scheduling requests *)
Definition is_resp (b : bool) : option unit := if b then Some tt else None.
Definition create_shard (fuel : nat) (desc : ShardDesc) (c : GroupClient) (w : W) : option (CResult unit * GroupClient * W) :=
  invoke_with_opt (unary_op (λ _, None) (group_request (RCreateShard (mkCreateShardRequest (Some desc))))
    (λ r, is_resp match r with SCreateShardResp => true | _ => false end)) fuel InvokeOpt_default c w.
Definition transfer_leader (fuel : nat) (dest_replica : Z) (c : GroupClient) (w : W) : option (CResult unit * GroupClient * W) :=
  invoke_with_opt (unary_op (λ _, None) (group_request (RTransfer (mkTransferRequest dest_replica)))
    (λ r, is_resp match r with STransferResp => true | _ => false end)) fuel (mkInvokeOpt None true true) c w.
Definition change_replica (fuel : nat) (change : ChangeReplica) (c : GroupClient) (w : W) : option (CResult unit * GroupClient * W) :=
  invoke_with_opt (unary_op (λ _, None) (group_request (RChangeReplicas (mkChangeReplicasRequest (Some [change]))))
    (λ r, is_resp match r with SChangeReplicasResp => true | _ => false end)) fuel InvokeOpt_default c w.
Definition add_replica (fuel : nat) (replica node : Z) (c : GroupClient) (w : W) : option (CResult unit * GroupClient * W) :=
  change_replica fuel (mkChangeReplica 0 replica node) c w.
Definition remove_group_replica (fuel : nat) (replica : Z) (c : GroupClient) (w : W) : option (CResult unit * GroupClient * W) :=
  change_replica fuel (mkChangeReplica 1 replica 0) c w.
Definition add_learner (fuel : nat) (replica node : Z) (c : GroupClient) (w : W) : option (CResult unit * GroupClient * W) :=
  change_replica fuel (mkChangeReplica 2 replica node) c w.
Definition move_replicas (fuel : nat) (incoming outgoing : list ReplicaDesc) (c : GroupClient) (w : W) :
    option (CResult ScheduleState * GroupClient * W) :=
  match request fuel (RMoveReplicas (mkMoveReplicasRequest incoming outgoing)) c w with
  | None => None
  | Some (r, c, w) =>
      Some (let? resp := r in
            match resp with SMoveReplicasResp (Some st) => Ok st | _ => Err CInternal end, c, w)
  end.
Definition accept_shard (fuel : nat) (src_group src_epoch : Z) (shard : ShardDesc) (c : GroupClient) (w : W) :
    option (CResult unit * GroupClient * W) :=
  invoke_with_opt (unary_op (λ _, None)
    (group_request (RAcceptShard (mkAcceptShardRequest src_group src_epoch (Some shard))))
    (λ r, is_resp match r with SAcceptShardResp => true | _ => false end)) fuel (mkInvokeOpt None true true) c w.
Definition split_shard (fuel : nat) (old_shard_id new_shard_id : Z) (split_key : option bytes) (c : GroupClient) (w : W) :
    option (CResult unit * GroupClient * W) :=
  invoke_with_opt (unary_op (λ _, None)
    (group_request (RSplitShard (mkSplitShardRequest old_shard_id new_shard_id split_key)))
    (λ r, is_resp match r with SSplitShardResp => true | _ => false end)) fuel (mkInvokeOpt None true true) c w.
Definition merge_shard (fuel : nat) (left_shard_id right_shard_id : Z) (c : GroupClient) (w : W) :
    option (CResult unit * GroupClient * W) :=
  invoke_with_opt (unary_op (λ _, None)
    (group_request (RMergeShard (mkMergeShardRequest left_shard_id right_shard_id)))
    (λ r, is_resp match r with SMergeShardResp => true | _ => false end)) fuel (mkInvokeOpt None true true) c w.

End World.
End Client.
Arguments GroupClient : clear implicits.

(** ** [client/src/retry.rs] *)
Definition MIN_INTERVAL_MS : Z := 8.
Definition MAX_INTERVAL_MS : Z := 3000.
Record RetryState := mkRetryState { rt_interval_ms : Z; rt_deadline : option Z }.
Definition with_deadline_opt (deadline : option Z) : RetryState := mkRetryState MIN_INTERVAL_MS deadline.
(** [saturating_duration_since]. *)
Definition retry_timeout (t : Z) (r : RetryState) : option Z := (λ d, Z.max 0 (d - t)) <$> rt_deadline r.
Definition reset_wait_interval (r : RetryState) : RetryState := mkRetryState MIN_INTERVAL_MS (rt_deadline r).
Definition is_retryable (e : ClientError) : CResult bool :=
  match e with
  | CNotFound | CEpochNotMatch _ | CGroupNotAccessable _ => Ok true
  | CNotLeader _ _ _ | CGroupNotFound _ | CNotRootLeader _ _ _ | CConnect => Panic
  | CInvalidArgument | CDeadlineExceeded | CResourceExhausted | CAlreadyExists | CCasFailed _ _ _
  | CTxnConflict | CRpc | CTransport | CInternal => Ok false
  end.
(** The pause before the next attempt, at time [t], and the state after it. *)
Definition force_retry (t : Z) (r : RetryState) : CResult (Z * RetryState) :=
  let next := mkRetryState (Z.min (rt_interval_ms r * 2) MAX_INTERVAL_MS) (rt_deadline r) in
  match rt_deadline r with
  | Some deadline =>
      if t <=? deadline then Ok (Z.min (rt_interval_ms r) (deadline - t), next) else Err CDeadlineExceeded
  | None => Ok (rt_interval_ms r, next)
  end.
Definition retry (t : Z) (r : RetryState) (err : ClientError) : CResult (Z * RetryState) :=
  let? b := is_retryable err in
  if negb b then Err err else force_retry t r.
