(* ===== verification/GroupClientProps.v ===== *)
(** * Properties of the group client

    Every invocation ends (whatever the nodes answer, as long as the terms and
    epochs they name are bounded), never leaks an answer that only the client
    itself can act on, and executes a request that is not read-only at most
    once. *)

From S2P Require Import Prelude Bytes Api RocksDb Errors Schema Router GroupClient.
#[local] Open Scope Z_scope.

(** ** The list of replicas *)
Lemma length_swap {A} (l : list A) i j : length (swap l i j) = length l.
Proof. unfold swap. repeat case_match; rewrite ?length_insert; done. Qed.
Lemma length_move_node l n : length (move_node_to_first_element l n) = length l.
Proof. unfold move_node_to_first_element. repeat case_match; rewrite ?length_swap; done. Qed.
Lemma move_replica_nonempty l r : move_replica_to_first_element l r ≠ [].
Proof.
  intros E%(f_equal length). revert E. unfold move_replica_to_first_element.
  destruct (list_find _ l) as [[i x]|] eqn:Ef.
  - apply list_find_Some in Ef as (Hi & _). apply lookup_lt_Some in Hi.
    case_decide; rewrite ?length_swap; cbn; lia.
  - case_decide; rewrite ?length_swap, length_app; cbn; lia.
Qed.

Lemma from_status_no_err `{Codec V1Error} s e : from_status s ≠ Err e.
Proof.
  unfold from_status, from_code, from_source_or_details, from_wire.
  repeat (case_match; simplify_eq; try done). unfold from_code in *. by repeat (case_match; simplify_eq).
Qed.

Lemma from_status_accessible `{Codec V1Error} s g : from_status s ≠ Ok (CGroupNotAccessable g).
Proof.
  unfold from_status, from_code, from_source_or_details, from_wire, from_source.
  repeat (case_match; simplify_eq; try done); unfold from_code, from_source in *;
    by repeat (case_match; simplify_eq).
Qed.

Section Client.
  Context {NC : Type} `{Codec V1Error}.
  Abbreviation Client := (GroupClient NC).
  Context {W : Type} (router : W → State) (now : W → Z) (get_node_client : string → option NC).

(** Attempts left before all replicas have been tried. *)
Definition attempts (c : Client) : nat :=
  2 * (S (length (gc_replicas c)) - gc_next_access_index c)
  + match gc_access_node_id c with Some _ => 1 | None => 0 end.

(** What finding a connection leaves unchanged. *)
Definition same_view (c c' : Client) : Prop :=
  gc_group_id c' = gc_group_id c ∧ gc_timeout c' = gc_timeout c ∧ gc_epoch c' = gc_epoch c ∧
  gc_leader_state c' = gc_leader_state c ∧ gc_replicas c' = gc_replicas c.

Lemma fetch_client_view st (c : Client) node :
  same_view c (fetch_client get_node_client st c node).2 ∧
  gc_access_node_id (fetch_client get_node_client st c node).2 = gc_access_node_id c ∧
  gc_next_access_index (fetch_client get_node_client st c node).2 = gc_next_access_index c.
Proof. unfold fetch_client. repeat case_match; by cbn. Qed.

Lemma next_access_spec (c : Client) : gc_replicas c ≠ [] →
  (next_access_node_id c = Ok (None, c) ∧ (length (gc_replicas c) < gc_next_access_index c)%nat) ∨
  ∃ node, next_access_node_id c = Ok (Some node, set_next_index c (S (gc_next_access_index c))) ∧
    (gc_next_access_index c ≤ length (gc_replicas c))%nat.
Proof.
  intros Hne. unfold next_access_node_id. case_decide as Hd; [right|left; split; [done|lia]].
  destruct (lookup_lt_is_Some_2 (gc_replicas c) (gc_next_access_index c mod length (gc_replicas c))) as [r Hr].
  { apply Nat.mod_upper_bound. by destruct (gc_replicas c). }
  rewrite Hr. eauto.
Qed.

(** Finding a connection ends; it spends attempts and keeps the view. *)
Lemma recommend_loop_spec n st (c : Client) :
  gc_replicas c ≠ [] →
  (S (length (gc_replicas c)) - gc_next_access_index c +
   match gc_access_node_id c with Some _ => 1 | None => 0 end < n)%nat →
  ∃ o c', recommend_client_loop get_node_client n st c = Some (Ok (o, c')) ∧ same_view c c' ∧
    match o with
    | Some (node, _) => gc_access_node_id c' = Some node ∧ (attempts c' ≤ attempts c)%nat
    | None => True
    end.
Proof.
  revert c. induction n as [|n IH]; intros c Hne Hn; [lia|]. cbn [recommend_client_loop].
  destruct (gc_access_node_id c) as [node|] eqn:Ea; cbn.
  - pose proof (fetch_client_view st c node) as (Hv & Hacc & Hidx).
    destruct (fetch_client get_node_client st c node) as [[cl|] c1]; cbn in *.
    + eexists _, _. split; [reflexivity|]. split; [exact Hv|]. split; [done|].
      destruct Hv as (_ & _ & _ & _ & Hr). unfold attempts. cbn. rewrite Hr, Hidx, Ea. lia.
    + destruct Hv as (Hv1 & Hv2 & Hv3 & Hv4 & Hr).
      destruct (IH (set_access c1 None)) as (o & c2 & E & Hv' & Ho); cbn.
      { by rewrite Hr. } { rewrite Hr, Hidx. lia. }
      exists o, c2. split; [done|]. destruct Hv' as (?&?&?&?&?). cbn in *.
      split; [split_and!; congruence|]. destruct o as [[node' cl]|]; [|done].
      destruct Ho as [? Ho]. split; [done|]. etrans; [exact Ho|]. unfold attempts. cbn.
      rewrite Hr, Hidx, Ea. lia.
  - destruct (next_access_spec c Hne) as [[-> Hi]|(node & -> & Hi)].
    { eexists None, _. split; [reflexivity|]. split; [|done]. by split_and!. }
    pose proof (fetch_client_view st (set_next_index c (S (gc_next_access_index c))) node) as (Hv & Hacc & Hidx).
    destruct (fetch_client get_node_client st _ node) as [[cl|] c1]; cbn in *.
    + eexists _, _. split; [reflexivity|]. split; [exact Hv|]. split; [done|].
      destruct Hv as (_ & _ & _ & _ & Hr). cbn in Hr. unfold attempts. cbn. rewrite Hr, Hidx, Ea. lia.
    + destruct Hv as (Hv1 & Hv2 & Hv3 & Hv4 & Hr). cbn in *.
      destruct (IH (set_access c1 None)) as (o & c2 & E & Hv' & Ho); cbn.
      { by rewrite Hr. } { rewrite Hr, Hidx. lia. }
      exists o, c2. split; [done|]. destruct Hv' as (?&?&?&?&?). cbn in *.
      split; [split_and!; congruence|]. destruct o as [[node' cl]|]; [|done].
      destruct Ho as [? Ho]. split; [done|]. etrans; [exact Ho|]. unfold attempts. cbn.
      rewrite Hr, Hidx, Ea. lia.
Qed.

Lemma recommend_spec st (c : Client) : gc_replicas c ≠ [] →
  ∃ o c', recommend_client get_node_client st c = Some (Ok (o, c')) ∧ same_view c c' ∧
    match o with
    | Some (node, _) => gc_access_node_id c' = Some node ∧ (attempts c' ≤ attempts c)%nat
    | None => True
    end.
Proof.
  intros Hne. apply recommend_loop_spec; [done|]. destruct (gc_access_node_id c); lia.
Qed.

Lemma recommend_no_err st (c : Client) e x : recommend_client get_node_client st c = x → x ≠ Some (Err e).
Proof.
  intros <-. unfold recommend_client. generalize (3 + length (gc_replicas c))%nat. intros n. revert c.
  induction n as [|n IH]; intros c; cbn [recommend_client_loop]; [done|].
  unfold next_access_node_id. repeat (case_match; simplify_eq; try done); apply IH.
Qed.

Section Invoke.
  Context {V : Type} (op : InvokeContext → NC → W → (Status + V) * W).
  (** The terms and epochs the nodes know, and what they answer: an [EpochNotMatch] comes from
      a newer descriptor, as [check_request_early] makes sure of, that has
      replicas. *)
  Context (E T : Z).
Definition answers_ok : Prop := ∀ ctx client w s w', op ctx client w = (inl s, w') →
    match from_status s with
    | Ok (CNotLeader _ term _) => 0 ≤ term ≤ T
    | Ok (CEpochNotMatch desc) => ic_epoch ctx < gd_epoch desc ≤ E ∧ gd_replicas desc ≠ []
    | Ok _ => True
    | _ => False
    end.

(** ** Termination: the epoch grows, or the term, or an attempt is spent *)
Definition leader_term (c : Client) : Z := match gc_leader_state c with Some (_, t) => t | None => -1 end.
Definition progress (c c' : Client) : Prop :=
  (Z.to_nat (E - gc_epoch c') < Z.to_nat (E - gc_epoch c))%nat ∨
  (gc_epoch c' = gc_epoch c ∧
    ((Z.to_nat (T - leader_term c') < Z.to_nat (T - leader_term c))%nat ∨
     (leader_term c' = leader_term c ∧ (attempts c' < attempts c)%nat))).

Lemma progress_wf : well_founded (λ c' c, progress c c').
Proof.
  intros c. remember (Z.to_nat (E - gc_epoch c)) as e eqn:He. revert c He.
  induction e as [e IHe] using lt_wf_ind. intros c He.
  remember (Z.to_nat (T - leader_term c)) as t eqn:Ht. revert c He Ht.
  induction t as [t IHt] using lt_wf_ind. intros c He Ht.
  remember (attempts c) as a eqn:Ha. revert c He Ht Ha.
  induction a as [a IHa] using lt_wf_ind. intros c He Ht Ha.
  constructor. intros c' [Hlt|[Ee [Hlt|[Et Hlt]]]].
  - eapply (IHe (Z.to_nat (E - gc_epoch c'))); [lia|done].
  - eapply (IHt (Z.to_nat (T - leader_term c'))); [lia|by rewrite Ee|done].
  - eapply (IHa (attempts c')); [lia|by rewrite Ee|by rewrite Et|done].
Qed.

(** An answer that is acted upon makes progress. *)
Lemma apply_status_progress (c c' : Client) ctx client w s w' opt :
  answers_ok → op ctx client w = (inl s, w') → ic_epoch ctx = gc_epoch c →
  gc_replicas c ≠ [] → gc_access_node_id c ≠ None → apply_status c s opt = Ok c' →
  progress c c' ∧ gc_replicas c' ≠ [] ∧ gc_timeout c' = gc_timeout c.
Proof.
  intros Hok Hop Hep Hne Hacc Hs. specialize (Hok _ _ _ _ _ Hop). unfold apply_status in Hs.
  assert (∀ c1, c1 = set_access c None → progress c c1) as Hspend.
  { intros c1 ->. right. split; [done|]. right. split; [done|]. unfold attempts. cbn.
    destruct (gc_access_node_id c); [lia|done]. }
  destruct (from_status s) as [e| |]; cbn in Hs; [|done..].
  destruct e; simplify_eq; try (by split; [by apply Hspend|]).
  - unfold apply_epoch_not_match_status in Hs. destruct Hok as [[Hlt Hle] Hrep].
    assert (∀ n, move_node_to_first_element (gd_replicas desc) n ≠ []) as Hmove.
    { intros n E0%(f_equal length). rewrite length_move_node in E0. by destruct (gd_replicas desc). }
    repeat case_match; simplify_eq; (split; [left; cbn; lia|]); split; [apply Hmove|done|apply Hmove|done].
  - unfold apply_not_leader_status. cbn. destruct leader as [leader|]; [|by split; [by apply Hspend|]].
    destruct (gc_leader_state c) as [[l t]|] eqn:El; cbn.
    + destruct (term <=? t) eqn:Et; cbn; [by split; [by apply Hspend|]|]. to_prop.
      split; [|split; [apply move_replica_nonempty|done]].
      right. split; [done|]. left. unfold leader_term. cbn. rewrite El. lia.
    + split; [|split; [apply move_replica_nonempty|done]].
      right. split; [done|]. left. unfold leader_term. cbn. rewrite El. lia.
  - case_match; simplify_eq. by split; [by apply Hspend|].
Qed.

Lemma apply_status_no_panic (c : Client) ctx client w s w' opt :
  answers_ok → op ctx client w = (inl s, w') → ic_epoch ctx = gc_epoch c → apply_status c s opt ≠ Panic.
Proof.
  intros Hok Hop Hep. specialize (Hok _ _ _ _ _ Hop). unfold apply_status.
  destruct (from_status s) as [e| |]; cbn; [|done..].
  destruct e; try done; [|by case_match]. unfold apply_epoch_not_match_status.
  destruct Hok as [[Hlt _] _]. repeat case_match; try done. to_prop. lia.
Qed.

Lemma invoke_loop_terminates opt deadline (c : Client) w :
  answers_ok → gc_replicas c ≠ [] →
  ∃ fuel r c' w', invoke_loop router now get_node_client op fuel opt deadline c w = Some (r, c', w') ∧ r ≠ Panic.
Proof.
  intros Hok. revert w. induction c as [c IH] using (well_founded_induction progress_wf). intros w Hne.
  destruct (recommend_spec (router w) c Hne) as (o & c1 & Hrec & Hv & Ho).
  destruct o as [[node cl]|]; last first.
  { exists 1%nat. cbn [invoke_loop]. rewrite Hrec. by eexists _, _, _. }
  destruct Hv as (Hg & Hto & He & Hl & Hr). destruct Ho as [Hacc Hatt].
  destruct (op (mkInvokeContext (gc_group_id c1) (gc_epoch c1) (gc_timeout c1)) cl w) as [[s|v] w1] eqn:Hop; last first.
  { exists 1%nat. cbn [invoke_loop]. rewrite Hrec, Hop. by eexists _, _, _. }
  destruct (apply_status c1 s opt) as [c2|e|] eqn:Hs.
  - destruct (apply_status_progress c1 c2 _ _ _ _ _ opt Hok Hop eq_refl ltac:(by rewrite Hr)
      ltac:(by rewrite Hacc) Hs) as (Hp & Hne2 & _).
    assert (progress c c2) as Hp'.
    { unfold progress, leader_term in *. rewrite He, Hl in Hp. destruct Hp as [?|[? [?|[? ?]]]]; [by left|..];
        right; (split; [done|]); [by left|right]. split; [done|lia]. }
    destruct (match deadline with Some v => v <? now w1 | None => false end) eqn:Hd.
    { exists 1%nat. cbn [invoke_loop]. rewrite Hrec, Hop, Hs, Hd. by eexists _, _, _. }
    destruct (IH c2 Hp' w1 Hne2) as (fuel & r & c' & w' & Hrun & Hnp).
    exists (S fuel), r, c', w'. cbn [invoke_loop]. rewrite Hrec, Hop, Hs, Hd. done.
  - exists 1%nat. cbn [invoke_loop]. rewrite Hrec, Hop, Hs. by eexists _, _, _.
  - destruct (apply_status_no_panic c1 _ _ _ _ _ opt Hok Hop eq_refl Hs).
Qed.

(** More fuel does not change a result. *)
Lemma invoke_loop_mono n m opt deadline (c : Client) w x :
  (n ≤ m)%nat → invoke_loop router now get_node_client op n opt deadline c w = Some x →
  invoke_loop router now get_node_client op m opt deadline c w = Some x.
Proof.
  revert m c w. induction n as [|n IH]; intros [|m] c w Hle; cbn [invoke_loop]; try (done || lia).
  repeat case_match; try done; apply IH; lia.
Qed.
(** C33: Every invocation of the group client ends, without a panic, with an answer
    or an error: as long as the terms the nodes report and the epochs of the
    descriptors they answer with are bounded, and an [EpochNotMatch] carries a
    newer descriptor than the one the request was sent with.  The client knows
    a replica of the group, or asks the router for the group first. *)
Theorem invoke_terminates opt (c : Client) w :
  answers_ok →
  (gc_epoch c ≠ 0 → gc_replicas c ≠ []) →
  (∀ gs, gc_epoch c = 0 → group_id_lookup (router w) !! gc_group_id c = Some gs → rg_replicas gs ≠ ∅) →
  ∃ fuel r c' w', r ≠ Panic ∧ ∀ n, (fuel ≤ n)%nat →
    invoke_with_opt router now get_node_client op n opt c w = Some (r, c', w').
Proof.
  intros Hok Hne Hgs. unfold invoke_with_opt.
  assert ((∃ e, (if gc_epoch c =? 0 then initial_group_state (router w) c else Ok c) = Err e) ∨
    ∃ c1, (if gc_epoch c =? 0 then initial_group_state (router w) c else Ok c) = Ok c1 ∧ gc_replicas c1 ≠ [])
    as [[e ->]|(c1 & -> & Hne1)].
  { destruct (gc_epoch c =? 0) eqn:E0; to_prop; [|right; eauto].
    unfold initial_group_state, find_group.
    destruct (group_id_lookup (router w) !! gc_group_id c) as [gs|] eqn:Eg; cbn; [right|left; eauto].
    eexists. split; [reflexivity|]. cbn. specialize (Hgs gs E0 eq_refl).
    assert ((map_to_list (rg_replicas gs)).*2 ≠ []) as Hl.
    { intros El%fmap_nil_inv. by apply map_to_list_empty_iff in El. }
    case_match; [|done]. intros El%(f_equal length). rewrite length_move_node in El. by destruct (_.*2). }
  { eexists O, _, _, _. split; [|intros n _; reflexivity]. done. }
  destruct (invoke_loop_terminates opt ((λ d, now w + d) <$> gc_timeout c1)
    (set_timeout_opt (set_next_index c1 0) None) w Hok Hne1) as (fuel & r & c' & w' & Hrun & Hnp).
  exists fuel, r, c', w'. split; [done|]. intros n Hn. by eapply invoke_loop_mono.
Qed.

(** ** What is returned *)
Lemma apply_status_err (c : Client) s opt e :
  apply_status c s opt = Err e →
  from_status s = Ok e ∧ match e with CGroupNotFound _ | CNotLeader _ _ _ | CConnect => False | _ => True end.
Proof.
  unfold apply_status. destruct (from_status s) as [e'|e'|] eqn:Es; cbn; [|by destruct (from_status_no_err s e')|done].
  destruct e'; intros Ha; simplify_eq; try done.
  - unfold apply_epoch_not_match_status in Ha. repeat case_match; by simplify_eq.
  - case_match; by simplify_eq.
Qed.

(** A rejected request was not executed. *)
Definition rejected (s : Status) : Prop :=
  match from_status s with
  | Ok (CGroupNotFound _) | Ok (CNotLeader _ _ _) | Ok CConnect | Ok (CEpochNotMatch _) | Ok CNotFound => True
  | _ => False
  end.
(** Errors that say the request never ran, and errors no caller expects. *)
Definition not_run (e : ClientError) : Prop :=
  match e with CGroupNotAccessable _ | CEpochNotMatch _ | CNotFound => True | _ => False end.
Definition leaked (e : ClientError) : Prop :=
  match e with CGroupNotFound _ | CNotLeader _ _ _ | CConnect => True | _ => False end.

Lemma apply_status_ok_rejected (c c' : Client) s opt :
  io_ignore_transport_error opt = false →
  match io_request opt with Some r => is_read_only_request r | None => false end = false →
  apply_status c s opt = Ok c' → rejected s.
Proof.
  unfold apply_status, rejected. intros Hi Hr.
  destruct (from_status s) as [e| |]; cbn; [|done..]. destruct e; try done. by rewrite Hi, Hr.
Qed.

Section Once.
  Context (execs : W → nat).
  Hypothesis execs_step : ∀ ctx client w r w', op ctx client w = (r, w') →
    (execs w' ≤ S (execs w))%nat ∧
    match r with inl s => rejected s → execs w' = execs w | inr _ => True end.

Lemma invoke_loop_once fuel opt deadline (c : Client) w r c' w' :
  io_ignore_transport_error opt = false →
  match io_request opt with Some r => is_read_only_request r | None => false end = false →
  invoke_loop router now get_node_client op fuel opt deadline c w = Some (r, c', w') →
  (execs w' ≤ S (execs w))%nat ∧
  match r with Err e => (not_run e → execs w' = execs w) ∧ ¬ leaked e | _ => True end.
Proof.
  intros Hi Hr. revert c w. induction fuel as [|fuel IH]; intros c w; cbn [invoke_loop]; [done|].
  destruct (recommend_client get_node_client (router w) c) as [[[[[node cl]|] c1]|e|]|] eqn:Hrec;
    [|by intros; simplify_eq; cbn; split_and?; auto|by destruct (recommend_no_err _ _ e _ Hrec)
     |by intros; simplify_eq; cbn; split_and?; auto|done].
  destruct (op _ cl w) as [[s|v] w1] eqn:Hop; destruct (execs_step _ _ _ _ _ Hop) as [Hle Hrej];
    [|by intros; simplify_eq].
  destruct (apply_status c1 s opt) as [c2|e|] eqn:Hs.
  - specialize (Hrej (apply_status_ok_rejected _ _ _ _ Hi Hr Hs)).
    destruct (match deadline with Some v => v <? now w1 | None => false end).
    + intros; simplify_eq. cbn. split_and!; [lia|done|by intros []].
    + intros Hrun%IH. by rewrite Hrej in Hrun.
  - intros; simplify_eq. split; [done|]. apply apply_status_err in Hs as [Es Hnl]. split.
    + intros Hnr. apply Hrej. unfold rejected. rewrite Es.
      destruct e; try done. by destruct (from_status_accessible s group_id).
    + destruct e; cbn; tauto.
  - intros; simplify_eq. done.
Qed.

(** A request that is not read-only is executed at most once, however often the
    client sends it: it is sent again only after an answer that says it was not
    executed.  An invocation that ends in [GroupNotAccessable] or
    [EpochNotMatch], the errors the callers retry, has not executed it at all,
    and none of the answers that only this client can act on ([NotLeader],
    [GroupNotFound], a failed connection) reaches the caller, whose
    [is_retryable] has no case for them. *)
Lemma invoke_at_most_once fuel opt (c : Client) w r c' w' :
  io_ignore_transport_error opt = false →
  match io_request opt with Some r => is_read_only_request r | None => false end = false →
  invoke_with_opt router now get_node_client op fuel opt c w = Some (r, c', w') →
  (execs w' ≤ S (execs w))%nat ∧
  match r with Err e => (not_run e → execs w' = execs w) ∧ ¬ leaked e | _ => True end.
Proof.
  intros Hi Hr. unfold invoke_with_opt, initial_group_state.
  destruct (gc_epoch c =? 0); [|by apply invoke_loop_once].
  destruct (find_group _ _); [by apply invoke_loop_once|by intros; simplify_eq; cbn; split_and?; auto..].
Qed.
End Once.
End Invoke.
End Client.

(** ** A group of two nodes *)
(** Node 1 points to replica 12 on node 2, the leader of term 3, which knows the
    descriptor of epoch 7; the world counts the executed requests. *)
Definition sample_desc : GroupDesc :=
  mkGroupDesc 1 7 [mkShardDesc 10 7 (Some (mkRange [] []))] [mkReplicaDesc 11 1 0; mkReplicaDesc 12 2 0].
#[local] Instance sample_codec : Codec V1Error := {|
  encode_to_vec e := [];
  decode_msg b :=
    match b with
    | [Byte.x01] => Some (with_detail_value (VNotLeader 1 3 (Some (mkReplicaDesc 12 2 0))))
    | _ => Some (with_detail_value (VNotMatch (Some sample_desc)))
    end |}.
Definition sample_op (ctx : InvokeContext) (node : Z) (w : nat) : (Status + unit) * nat :=
  if node =? 1 then (inl (Status_with_details CodeUnknown "not leader" [Byte.x01]), w)
  else if ic_epoch ctx <? 7 then (inl (Status_with_details CodeUnknown "epoch not match" [Byte.x02]), w)
  else (inr tt, S w).
Definition sample_state : State :=
  foldl apply_update_event State_default [UNode (mkNodeDesc 1 "n1" None 0); UNode (mkNodeDesc 2 "n2" None 0)].
Definition sample_client : GroupClient Z := mkGroupClient 1 None 5 None [mkReplicaDesc 11 1 0] None 0 ∅.
Definition sample_connect (addr : string) : option Z :=
  if bool_decide (addr = "n1"%string) then Some 1 else Some 2.
Definition sample_write : Request :=
  RClearIntent (mkClearIntentRequest 10 5 [Byte.x61]).
Definition sample_opt : InvokeOpt := mkInvokeOpt (Some sample_write) false false.

Lemma sample_answers : answers_ok sample_op 7 3.
Proof.
  intros ctx node w s w'. unfold sample_op. destruct (node =? 1).
  { intros [= <- <-]. vm_compute. split; congruence. }
  destruct (ic_epoch ctx <? 7) eqn:E; [|done]. to_prop. intros [= <- <-].
  change (from_status _) with (@Ok ClientError _ (CEpochNotMatch sample_desc)). cbn. split; [lia|done].
Qed.

Lemma invoke_terminates_witness :
  answers_ok sample_op 7 3 ∧
  ∃ fuel r c' w', r ≠ Panic ∧ ∀ n, (fuel ≤ n)%nat →
    invoke_with_opt (λ _, sample_state) (λ _, 0) sample_connect sample_op n sample_opt sample_client O = Some (r, c', w').
Proof.
  split; [exact sample_answers|].
  apply (invoke_terminates (λ _, sample_state) (λ _, 0) sample_connect sample_op 7 3 sample_opt sample_client O
    sample_answers); done.
Defined.

Lemma invoke_at_most_once_witness :
  ∃ c', invoke_with_opt (λ _, sample_state) (λ _, 0) sample_connect sample_op 5 sample_opt sample_client O
    = Some (Ok tt, c', 1%nat) ∧ (1 ≤ 1)%nat.
Proof.
  assert (∃ c', invoke_with_opt (λ _, sample_state) (λ _, 0) sample_connect sample_op 5 sample_opt sample_client O
    = Some (Ok tt, c', 1%nat)) as [c' Hrun] by (eexists; vm_compute; reflexivity).
  exists c'. split; [exact Hrun|].
  refine (proj1 (invoke_at_most_once (λ _, sample_state) (λ _, 0) sample_connect sample_op id _ 5 sample_opt
    sample_client O (Ok tt) c' 1%nat eq_refl eq_refl Hrun)).
  intros ctx node w r w'. unfold sample_op. destruct (node =? 1); [|destruct (_ <? 7)];
    intros [= <- <-]; cbn; split; (lia || done).
Defined.
