(* ===== verification/ClientTxn.v ===== *)
(** * Client transactions ([client/src/txn.rs])

    [WriteBatchContext]: the two phases of a transaction's commit.  Phase one
    writes an intent for every key, retrying the ones whose group moved; then
    the record of the transaction is committed; phase two turns the intents
    into versions in the background.

    The cluster is the interface [TxnWorld]: the router, the clock, the
    requests that the group client sends, the version allocator of the root
    and the transaction table.  The requests of one phase run as concurrent
    tasks: [tw_order] is the order in which they happen to be executed. *)

From S2P Require Import Prelude Bytes Rock Api RocksDb Errors Schema TxnTable Router GroupClient.
#[local] Open Scope Z_scope.

(** What became of a write to the transaction table when [TxnStateTable::write]
    stops retrying: the group executed it and its answer arrived, or the client
    gives up with an error, without its having been executed or with its answer
    lost. *)
Inductive Delivery := Delivered | Unsent (e : ClientError) | Unanswered (e : ClientError).

Class TxnWorld (W : Type) := {
  tw_router : W → State;
  tw_now : W → Z;
  (** [GroupClient::new(group).request(..)], with its timeout. *)
  tw_send : option Z → RouterGroupState → Request → W → CResult Response * W;
  (** [RootClient::alloc_txn_id(1, timeout)]. *)
  tw_alloc : option Z → W → CResult Z * W;
  (** [tokio::time::sleep]. *)
  tw_sleep : Z → W → W;
  (** The order in which [n] spawned tasks get to run. *)
  tw_order : W → nat → list nat;
  (** A write to the transaction table: what others do while it is on its way,
      and what becomes of it. *)
  tw_pause : W → W;
  tw_delivery : W → Delivery;
}.

(** The transaction table as the client sees it: the group that holds it,
    behind the network. *)
Definition client_table (W : Type) `{TxnWorld W} (group : TxnServer W) : TxnServer W := {|
  srv_write w puts :=
    match tw_delivery w with
    | Delivered => srv_write (tw_pause w) puts
    | Unsent e => (Err e, tw_pause w)
    | Unanswered e => (Err e, (srv_write (tw_pause w) puts).2)
    end;
  srv_scan := srv_scan |}.

Record WriteContext := mkWriteContext {
  wc_table_id : Z; wc_request : WriteRequest; wc_response : option WriteResponse; wc_index : nat; wc_done : bool }.
Record WriteBatchContext := mkWriteBatchContext {
  wx_writes : list WriteContext; wx_num_doing_writes : nat; wx_num_deletes : nat;
  wx_start_version : Z; wx_commit_version : Z; wx_retry_state : RetryState }.
Record WriteBatchResponse := mkWriteBatchResponse {
  wbr_version : Z; wbr_deletes : list (option Value); wbr_puts : list (option Value) }.

Definition with_put (index : nat) (p : Z * PutRequest) : WriteContext :=
  mkWriteContext p.1 (WPut p.2) None index false.
Definition with_delete (index : nat) (d : Z * DeleteRequest) : WriteContext :=
  mkWriteContext d.1 (WDelete d.2) None index false.
Definition wc_user_key (w : WriteContext) : bytes := user_key (wc_request w).

Definition WriteBatchContext_new (start_version : Z) (deletes : list (Z * DeleteRequest))
    (puts : list (Z * PutRequest)) (deadline : option Z) : WriteBatchContext :=
  mkWriteBatchContext (imap with_delete deletes ++ imap with_put puts)
    (length deletes + length puts) (length deletes) start_version 0 (with_deadline_opt deadline).

Definition set_writes (ctx : WriteBatchContext) (writes : list WriteContext) (doing : nat) : WriteBatchContext :=
  mkWriteBatchContext writes doing (wx_num_deletes ctx) (wx_start_version ctx) (wx_commit_version ctx)
    (wx_retry_state ctx).
Definition set_retry (ctx : WriteBatchContext) (r : RetryState) : WriteBatchContext :=
  mkWriteBatchContext (wx_writes ctx) (wx_num_doing_writes ctx) (wx_num_deletes ctx) (wx_start_version ctx)
    (wx_commit_version ctx) r.
Definition set_commit_version (ctx : WriteBatchContext) (v : Z) : WriteBatchContext :=
  mkWriteBatchContext (wx_writes ctx) (wx_num_doing_writes ctx) (wx_num_deletes ctx) (wx_start_version ctx)
    v (wx_retry_state ctx).

Section Commit.
  Context {W : Type} `{TxnWorld W} (group : TxnServer W).
  (** [fnv] of the hash tag of a transaction's record. *)
  Variable tag_of : Z → byte.

(** ** Spawned tasks *)
(** A request in flight, with the index its task returns. *)
Record Task := mkTask { tk_index : nat; tk_group : RouterGroupState; tk_request : Request; tk_timeout : option Z }.

Definition run_task (tasks : list Task) (acc : gmap nat (CResult Response) * W) (i : nat) :
    gmap nat (CResult Response) * W :=
  match tasks !! i with
  | Some t =>
      let '(r, w') := tw_send (tk_timeout t) (tk_group t) (tk_request t) acc.2 in (<[i := r]> acc.1, w')
  | None => acc
  end.
(** The answers in the order of the handles. *)
Definition run_tasks (tasks : list Task) (w : W) : list (nat * CResult Response) * W :=
  let '(m, w') := foldl (run_task tasks) (∅, w) (tw_order w (length tasks)) in
  (imap (λ i t, (tk_index t, default (Err CInternal) (m !! i))) tasks, w').

(** ** Phase one *)
(** The tasks of the writes that are not done; looking up a shard may fail, and
    the tasks spawned before it run all the same. *)
Fixpoint spawn_intents (st : State) (timeout : option Z) (start_version : Z) (index : nat)
    (writes : list WriteContext) : list Task * option ClientError :=
  match writes with
  | [] => ([], None)
  | write :: writes' =>
      if wc_done write then spawn_intents st timeout start_version (S index) writes'
      else
        match find_shard st (wc_table_id write) (wc_user_key write) with
        | Ok (group_state, shard_desc) =>
            let req := RWriteIntent (mkWriteIntentRequest (sd_id shard_desc) start_version (Some (wc_request write))) in
            let '(tasks, e) := spawn_intents st timeout start_version (S index) writes' in
            (mkTask index group_state req timeout :: tasks, e)
        | Err e => ([], Some e)
        | Panic => ([], None)
        end
  end.

(** The answers to the intents, in the order of the handles. *)
Fixpoint take_intents (answers : list (nat * CResult Response)) (ctx : WriteBatchContext) :
    CResult WriteBatchContext :=
  match answers with
  | [] => Ok ctx
  | (index, answer) :: answers' =>
      let answer :=
        match answer with
        | Ok (SWriteIntentResp (mkWriteIntentResponse (Some resp))) => Ok resp
        | Ok _ => Err CInternal
        | Err e => Err e
        | Panic => Panic
        end in
      match answer with
      | Ok resp =>
          match wx_num_doing_writes ctx, wx_writes ctx !! index with
          | S doing, Some write =>
              take_intents answers' (set_writes ctx
                (<[index := mkWriteContext (wc_table_id write) (wc_request write) (Some resp) (wc_index write) true]>
                   (wx_writes ctx)) doing)
          | _, _ => Panic
          end
      | Err err =>
          let? b := is_retryable err in
          if negb b then Err err else take_intents answers' ctx
      | Panic => Panic
      end
  end.

(** Whether writes are left. *)
Definition prepare_intents_inner (ctx : WriteBatchContext) (w : W) : CResult (bool * WriteBatchContext) * W :=
  let timeout := retry_timeout (tw_now w) (wx_retry_state ctx) in
  let '(tasks, e) := spawn_intents (tw_router w) timeout (wx_start_version ctx) 0 (wx_writes ctx) in
  let '(answers, w') := run_tasks tasks w in
  match e with
  | Some e => (Err e, w')
  | None =>
      (let? ctx := take_intents answers ctx in
       Ok (bool_decide (0 < wx_num_doing_writes ctx)%nat, ctx), w')
  end.

(** [fuel] is the number of rounds. *)
Fixpoint prepare_intents (fuel : nat) (ctx : WriteBatchContext) (w : W) :
    option (CResult WriteBatchContext * W) :=
  match fuel with
  | O => None
  | S fuel' =>
      match prepare_intents_inner ctx w with
      | (Ok (false, ctx), w) => Some (Ok ctx, w)
      | (Ok (true, ctx), w) =>
          match force_retry (tw_now w) (wx_retry_state ctx) with
          | Ok (interval, r) => prepare_intents fuel' (set_retry ctx r) (tw_sleep interval w)
          | Err e => Some (Err e, w)
          | Panic => Some (Panic, w)
          end
      | (Err e, w) => Some (Err e, w)
      | (Panic, w) => Some (Panic, w)
      end
  end.

Fixpoint alloc_txn_version (fuel : nat) (r : RetryState) (w : W) : option (CResult (Z * RetryState) * W) :=
  match fuel with
  | O => None
  | S fuel' =>
      match tw_alloc (retry_timeout (tw_now w) r) w with
      | (Ok value, w) => Some (Ok (value, r), w)
      | (Err err, w) =>
          match retry (tw_now w) r err with
          | Ok (interval, r) => alloc_txn_version fuel' r (tw_sleep interval w)
          | Err e => Some (Err e, w)
          | Panic => Some (Panic, w)
          end
      | (Panic, w) => Some (Panic, w)
      end
  end.

(** ** The response *)
Definition prev_values (is_delete : bool) (writes : list WriteContext) : list (option Value) :=
  omap (λ write,
    match wc_request write, is_delete with
    | WDelete _, true | WPut _, false => Some (wc_response write ≫= wr_prev_value)
    | _, _ => None
    end) writes.

(** ** Phase two, a task of its own *)
Fixpoint spawn_commits (st : State) (start_version commit_version : Z) (writes : list WriteContext) :
    list Task * option ClientError :=
  match writes with
  | [] => ([], None)
  | write :: writes' =>
      if wc_done write then spawn_commits st start_version commit_version writes'
      else
        match find_shard st (wc_table_id write) (wc_user_key write) with
        | Ok (group_state, shard_desc) =>
            let req := RCommitIntent (mkCommitIntentRequest (sd_id shard_desc) start_version commit_version
              (wc_user_key write)) in
            let '(tasks, e) := spawn_commits st start_version commit_version writes' in
            (mkTask (wc_index write) group_state req None :: tasks, e)
        | Err e => ([], Some e)
        | Panic => ([], None)
        end
  end.
Fixpoint take_commits (answers : list (nat * CResult Response)) (ctx : WriteBatchContext) :
    CResult WriteBatchContext :=
  match answers with
  | [] => Ok ctx
  | (index, answer) :: answers' =>
      match answer with
      | Ok SCommitIntentResp =>
          match wx_writes ctx !! index, wx_num_doing_writes ctx with
          | Some write, S doing =>
              take_commits answers' (set_writes ctx
                (<[index := mkWriteContext (wc_table_id write) (wc_request write) (wc_response write) (wc_index write) true]>
                   (wx_writes ctx)) doing)
          | _, _ => Panic
          end
      | Panic => Panic
      | _ => Err CInternal
      end
  end.
Definition commit_intents_inner (ctx : WriteBatchContext) (w : W) : CResult (bool * WriteBatchContext) * W :=
  let '(tasks, e) := spawn_commits (tw_router w) (wx_start_version ctx) (wx_commit_version ctx) (wx_writes ctx) in
  let '(answers, w') := run_tasks tasks w in
  match e with
  | Some e => (Err e, w')
  | None =>
      (let? ctx := take_commits answers ctx in
       Ok (bool_decide (0 < wx_num_doing_writes ctx)%nat, ctx), w')
  end.
Fixpoint commit_intents_loop (pauses : list Z) (ctx : WriteBatchContext) (w : W) : W :=
  match pauses with
  | [] => w
  | i :: pauses' =>
      match commit_intents_inner ctx w with
      | (Ok (false, _), w) => w
      | (Ok (true, ctx), w) => commit_intents_loop pauses' ctx (tw_sleep i w)
      | (_, w) => w
      end
  end.
Definition commit_intents (ctx : WriteBatchContext) (w : W) : W :=
  commit_intents_loop [1; 3; 5]
    (set_writes ctx
       ((λ x, mkWriteContext (wc_table_id x) (wc_request x) (wc_response x) (wc_index x) false) <$> wx_writes ctx)
       (length (wx_writes ctx))) w.

(** ** The whole commit *)
Definition start_txn (ctx : WriteBatchContext) (w : W) : CResult unit * W :=
  @begin_txn W (client_table W group) tag_of (tw_now w) (wx_start_version ctx) w.

(** Up to the answer: the response and the context for phase two. *)
Definition commit_inner (fuel : nat) (ctx : WriteBatchContext) (w : W) :
    option (CResult (WriteBatchResponse * WriteBatchContext) * W) :=
  match prepare_intents fuel ctx w with
  | None => None
  | Some (Err e, w) => Some (Err e, w)
  | Some (Panic, w) => Some (Panic, w)
  | Some (Ok ctx, w) =>
      match alloc_txn_version fuel (wx_retry_state ctx) w with
      | None => None
      | Some (Err e, w) => Some (Err e, w)
      | Some (Panic, w) => Some (Panic, w)
      | Some (Ok (version, r), w) =>
          let ctx := set_commit_version (set_retry ctx r) version in
          match @commit_txn W (client_table W group) tag_of (tw_now w) (wx_start_version ctx) version w with
          | (Err e, w) => Some (Err e, w)
          | (Panic, w) => Some (Panic, w)
          | (Ok _, w) =>
              let resp := mkWriteBatchResponse version (prev_values true (wx_writes ctx))
                (prev_values false (wx_writes ctx)) in
              let ctx := set_writes ctx
                ((λ x, mkWriteContext (wc_table_id x) (wc_request x) None (wc_index x) (wc_done x)) <$> wx_writes ctx)
                (wx_num_doing_writes ctx) in
              Some (Ok (resp, ctx), w)
          end
      end
  end.
(** [commit], with the task of phase two run to its end. *)
Definition commit (fuel : nat) (ctx : WriteBatchContext) (w : W) : option (CResult WriteBatchResponse * W) :=
  match start_txn ctx w with
  | (Err e, w) => Some (Err e, w)
  | (Panic, w) => Some (Panic, w)
  | (Ok _, w) =>
      match commit_inner fuel ctx w with
      | None => None
      | Some (Err e, w) => Some (Err e, w)
      | Some (Panic, w) => Some (Panic, w)
      | Some (Ok (resp, ctx), w) => Some (Ok resp, commit_intents ctx w)
      end
  end.
End Commit.
