(* ===== verification/ClientTxnProps.v ===== *)
(** * Two-phase commit

    What the cluster promises to a committing client ([TxnWorldOk]), and what
    the client makes of it: a transaction is committed only when all of its
    intents are in place, it is reported as committed only when its record
    is, and reported as failed when it is not, unless the answer to the
    commit of the record got lost.  The group that holds the transaction table
    keeps its promises ([TxnServerOk]); the network between it and the client
    ([client_table]) loses requests and answers. *)

From S2P Require Import Prelude Bytes Rock Api RocksDb Errors Schema TxnTable TxnTableProps Router GroupClient ClientTxn.
#[local] Open Scope Z_scope.

Section World.
  Context {W : Type} `{TxnWorld W} `{TxnServerOk W}.
  Variable tag_of : Z → byte.

(** What happens while the client waits: its own requests are executed, versions are
    allocated, time passes; others act at the same time. *)
Inductive move : W → W → Prop :=
  | move_send to g r w : move w (tw_send to g r w).2
  | move_alloc to w : move w (tw_alloc to w).2
  | move_sleep i w : move w (tw_sleep i w)
  | move_pause w : move w (tw_pause w).

(** The decision of a record. *)
Definition committed_at (w : W) (s : Z) : option (option bytes) :=
  match parsed (record_at tag_of w s) with
  | Some Committed => Some (rec_commit (record_at tag_of w s))
  | _ => None
  end.
Definition aborted_at (w : W) (s : Z) : Prop := parsed (record_at tag_of w s) = Some Aborted.
End World.

Class TxnWorldOk (W : Type) (tag_of : Z → byte) `{TxnWorld W} {group : TxnServer W} `{!TxnServerOk W} := {
  (** Every spawned task runs once. *)
  world_order w n : tw_order w n ≡ₚ seq 0 n;
  world_inv n w w' : move w w' → srv_inv n w → srv_inv n w';
  (** Nobody else commits the transaction, or undoes a decision. *)
  world_committed w w' s : move w w' → committed_at tag_of w' s = committed_at tag_of w s;
  world_aborted w w' s : move w w' → aborted_at tag_of w s → aborted_at tag_of w' s;
  (** The intent of a write is in place; it stays until the transaction is aborted. *)
  prepared : Z → WriteRequest → W → Prop;
  prepared_move s req w w' : move w w' → prepared s req w → prepared s req w' ∨ aborted_at tag_of w' s;
  prepared_send to g shard s req w resp w' :
    tw_send to g (RWriteIntent (mkWriteIntentRequest shard s (Some req))) w =
      (Ok (SWriteIntentResp (mkWriteIntentResponse (Some resp))), w') → prepared s req w';
  (** Answers the retry logic has a case for. *)
  send_answers to g r w : (tw_send to g r w).1 ≠ Panic ∧ ∀ e, (tw_send to g r w).1 = Err e → is_retryable e ≠ Panic;
  (** A write to the table that the client gives up on does not end in a
      failed condition, which is an answer of the group. *)
  lost_answers w e : tw_delivery w = Unsent e ∨ tw_delivery w = Unanswered e → ∀ i j v, e ≠ CCasFailed i j v;
  (** Time passes. *)
  time_passes w w' : move w w' → tw_now w ≤ tw_now w';
  write_takes w puts : tw_now w ≤ tw_now (srv_write w puts).2;
  sleep_takes i w : tw_now w < tw_now (tw_sleep i w);
  alloc_answers to w : (tw_alloc to w).1 ≠ Panic ∧ ∀ e, (tw_alloc to w).1 = Err e → is_retryable e ≠ Panic;
}.

Section Commit.
  Context {W : Type} (tag_of : Z → byte) `{TxnWorld W} {group : TxnServer W} `{!TxnServerOk W} `{!TxnWorldOk W tag_of}.

(** ** While the client waits *)
Lemma moves_inv n (w w' : W) : rtc move w w' → srv_inv n w → srv_inv n w'.
Proof. induction 1; eauto using world_inv. Qed.
Lemma moves_committed (w w' : W) s : rtc move w w' → committed_at tag_of w' s = committed_at tag_of w s.
Proof. induction 1 as [|w w1 w' Hm _ IH]; [done|]. rewrite IH. by apply world_committed. Qed.
Lemma moves_aborted (w w' : W) s : rtc move w w' → aborted_at tag_of w s → aborted_at tag_of w' s.
Proof. induction 1; eauto using world_aborted. Qed.

(** The intent of a write is there, unless somebody aborted the transaction. *)
Definition secured (s : Z) (req : WriteRequest) (w : W) : Prop := prepared s req w ∨ aborted_at tag_of w s.
Lemma moves_secured s req (w w' : W) : rtc move w w' → secured s req w → secured s req w'.
Proof.
  induction 1 as [|w w1 w' Hm _ IH]; [done|]. intros [Hp|Ha]; apply IH.
  - by apply (prepared_move s req w w1 Hm).
  - right. by apply (world_aborted w w1).
Qed.

(** ** Spawned tasks *)
Definition answered (tasks : list Task) (w : W) (i : nat) (r : CResult Response) : Prop :=
  ∃ t wa wb, tasks !! i = Some t ∧ tw_send (tk_timeout t) (tk_group t) (tk_request t) wa = (r, wb) ∧ rtc move wb w.

Lemma run_task_spec tasks order m (w w' : W) m' :
  foldl (run_task tasks) (m, w) order = (m', w') →
  (∀ i r, m !! i = Some r → answered tasks w i r) →
  rtc move w w' ∧
  (∀ i r, m' !! i = Some r → answered tasks w' i r) ∧
  (∀ i, is_Some (m !! i) ∨ (i ∈ order ∧ (i < length tasks)%nat) → is_Some (m' !! i)).
Proof.
  revert m w. induction order as [|i order IH]; intros m w; cbn [foldl].
  { intros [= <- <-] Hm. split; [done|]. split; [done|]. intros i [?|[Hi _]]; [done|by apply not_elem_of_nil in Hi]. }
  unfold run_task at 2. cbn [fst snd]. destruct (tasks !! i) as [t|] eqn:Et.
  - destruct (tw_send (tk_timeout t) (tk_group t) (tk_request t) w) as [r wb] eqn:Es. intros Hrun Hm.
    assert (move w wb) as Hmv.
    { pose proof (move_send (tk_timeout t) (tk_group t) (tk_request t) w) as Hmv. by rewrite Es in Hmv. }
    destruct (IH _ _ Hrun) as (Hr & Ha & Hs).
    { intros j r' [[<- <-]|[Hne Hj]]%lookup_insert_Some; [by exists t, w, wb|].
      destruct (Hm j r' Hj) as (t' & wa & wb' & Ht' & Es' & Hrt). exists t', wa, wb'. split; [done|].
      split; [done|]. by eapply rtc_r. }
    split; [by eapply rtc_l|]. split; [done|]. intros j Hj. apply Hs.
    destruct (decide (j = i)) as [->|Hne]; [left; rewrite lookup_insert_eq; eauto|].
    destruct Hj as [Hj|[[->|Hj]%elem_of_cons Hlt]]; [left; by rewrite lookup_insert_ne|done|by right].
  - intros Hrun Hm. destruct (IH _ _ Hrun Hm) as (Hr & Ha & Hs). split; [done|]. split; [done|].
    intros j Hj. apply Hs. destruct Hj as [?|[[->|?]%elem_of_cons Hlt]]; [by left| |by right].
    apply lookup_lt_is_Some_2 in Hlt as [? ?]. congruence.
Qed.

Lemma run_tasks_spec tasks (w w' : W) answers : run_tasks tasks w = (answers, w') →
  rtc move w w' ∧ length answers = length tasks ∧
  ∀ i t, tasks !! i = Some t → ∃ r, answers !! i = Some (tk_index t, r) ∧ answered tasks w' i r.
Proof.
  unfold run_tasks. destruct (foldl _ _ _) as [m w1] eqn:E. intros [= <- <-].
  destruct (run_task_spec _ _ _ _ _ _ E) as (Hr & Ha & Hs); [by intros i r; rewrite lookup_empty|].
  split; [done|]. split; [apply length_imap|]. intros i t Ht.
  destruct (Hs i) as [r Hi].
  { right. pose proof (lookup_lt_Some _ _ _ Ht). split; [|done]. rewrite world_order. apply elem_of_seq. lia. }
  exists r. split; [|by apply Ha]. rewrite list_lookup_imap, Ht. cbn. by rewrite Hi.
Qed.

(** ** Phase one *)
Definition undone (writes : list WriteContext) : nat := length (filter (λ x, wc_done x = false) writes).

Lemma undone_insert writes i x y :
  writes !! i = Some y → wc_done y = false → wc_done x = true → undone writes = S (undone (<[i := x]> writes)).
Proof.
  intros Hi Hy Hx. revert i Hi. unfold undone. induction writes as [|z writes IH]; intros [|i] Hi; [done..| |].
  - cbn in Hi. injection Hi as ->. change (<[0%nat := x]> (y :: writes)) with (x :: writes).
    rewrite !filter_cons. rewrite decide_True by done. by rewrite decide_False by congruence.
  - cbn in Hi. change (<[S i := x]> (z :: writes)) with (z :: <[i := x]> writes). rewrite !filter_cons.
    destruct (decide (wc_done z = false)); cbn; by rewrite (IH i Hi).
Qed.

(** The server answered the intent of a write with [resp]. *)
Definition replied (s : Z) (req : WriteRequest) (resp : WriteResponse) : Prop :=
  ∃ to g shard wa wb, tw_send to g (RWriteIntent (mkWriteIntentRequest shard s (Some req))) wa =
    (Ok (SWriteIntentResp (mkWriteIntentResponse (Some resp))), wb).

(** What the requests were, and which of them have been answered. *)
Record ctx_inv (s : Z) (reqs : list WriteRequest) (ctx : WriteBatchContext) (w : W) : Prop := {
  ci_version : wx_start_version ctx = s;
  ci_requests : wc_request <$> wx_writes ctx = reqs;
  ci_doing : wx_num_doing_writes ctx = undone (wx_writes ctx);
  ci_secured x : x ∈ wx_writes ctx → wc_done x = true →
    secured s (wc_request x) w ∧ ∃ resp, wc_response x = Some resp ∧ replied s (wc_request x) resp }.

Lemma ctx_inv_moves s reqs ctx (w w' : W) : rtc move w w' → ctx_inv s reqs ctx w → ctx_inv s reqs ctx w'.
Proof. intros Hm [Hv Hr Hd Hs]. split; [done..|]. intros x Hx Hdone. destruct (Hs x Hx Hdone). split; [by eapply moves_secured|done]. Qed.
Lemma ctx_inv_retry s reqs ctx r (w : W) : ctx_inv s reqs ctx w → ctx_inv s reqs (set_retry ctx r) w.
Proof. by intros [Hv Hr Hd Hs]. Qed.

(** The tasks are the intents of writes that are not done. *)
Lemma spawn_intents_spec st to s k writes tasks e :
  spawn_intents st to s k writes = (tasks, e) →
  NoDup (tk_index <$> tasks) ∧
  Forall (λ t, (k ≤ tk_index t)%nat ∧ ∃ x shard, writes !! (tk_index t - k)%nat = Some x ∧ wc_done x = false ∧
    tk_request t = RWriteIntent (mkWriteIntentRequest shard s (Some (wc_request x)))) tasks.
Proof.
  revert k tasks e. induction writes as [|x writes IH]; intros k tasks e; cbn [spawn_intents].
  { intros [= <- <-]. by split; constructor. }
  assert (∀ tasks, NoDup (tk_index <$> tasks) → Forall (λ t, (S k ≤ tk_index t)%nat ∧
    ∃ y shard, writes !! (tk_index t - S k)%nat = Some y ∧ wc_done y = false ∧
    tk_request t = RWriteIntent (mkWriteIntentRequest shard s (Some (wc_request y)))) tasks →
    NoDup (tk_index <$> tasks) ∧ Forall (λ t, (k ≤ tk_index t)%nat ∧
    ∃ y shard, (x :: writes) !! (tk_index t - k)%nat = Some y ∧ wc_done y = false ∧
    tk_request t = RWriteIntent (mkWriteIntentRequest shard s (Some (wc_request y)))) tasks) as Hshift.
  { intros ts Hnd Hf. split; [done|]. eapply Forall_impl; [exact Hf|]. cbn. intros t (Hle & y & sh & Hy & Hrest).
    split; [lia|]. exists y, sh. replace (tk_index t - k)%nat with (S (tk_index t - S k)) by lia. done. }
  destruct (wc_done x) eqn:Ed.
  { intros Hs. destruct (IH _ _ _ Hs). by apply Hshift. }
  destruct (find_shard st (wc_table_id x) (wc_user_key x)) as [[g sh]|e'|].
  - destruct (spawn_intents st to s (S k) writes) as [ts e'] eqn:Es. intros [= <- <-].
    destruct (IH _ _ _ Es) as [Hnd Hf]. destruct (Hshift ts Hnd Hf) as [_ Hf'].
    cbn. split; constructor; [|done| |done].
    + intros (t & E & Hin)%list_elem_of_fmap. rewrite Forall_forall in Hf.
      destruct (Hf t Hin) as [Hle _]. lia.
    + cbn. split; [lia|]. exists x, (sd_id sh). by rewrite Nat.sub_diag.
  - intros [= <- <-]. by split; constructor.
  - intros [= <- <-]. by split; constructor.
Qed.

(** Counting the answers never underflows. *)
Lemma take_intents_spec s reqs answers ctx (w : W) :
  ctx_inv s reqs ctx w →
  NoDup answers.*1 →
  Forall (λ a, (∃ x, wx_writes ctx !! a.1 = Some x ∧ wc_done x = false ∧
      (∀ resp, a.2 = Ok (SWriteIntentResp (mkWriteIntentResponse (Some resp))) →
         secured s (wc_request x) w ∧ replied s (wc_request x) resp)) ∧
    a.2 ≠ Panic ∧ ∀ e, a.2 = Err e → is_retryable e ≠ Panic) answers →
  match take_intents answers ctx with
  | Ok ctx' => ctx_inv s reqs ctx' w
  | Err _ => True
  | Panic => False
  end.
Proof.
  revert ctx. induction answers as [|[i a] answers IH]; intros ctx Hinv Hnd Hf; [done|].
  apply Forall_cons in Hf as [((x & Hx & Hd & Hsec) & Hnp & Hret) Hf].
  cbn in Hnd. apply NoDup_cons in Hnd as [Hni Hnd]. cbn in Hx, Hsec, Hnp, Hret.
  assert (∀ resp, a = Ok (SWriteIntentResp (mkWriteIntentResponse (Some resp))) →
    match take_intents ((i, a) :: answers) ctx with
    | Ok ctx' => ctx_inv s reqs ctx' w | Err _ => True | Panic => False end) as Hok.
  { intros resp ->. cbn [take_intents]. destruct Hinv as [Hv Hr Hdo Hs].
    set (y := mkWriteContext (wc_table_id x) (wc_request x) (Some resp) (wc_index x) true).
    pose proof (undone_insert (wx_writes ctx) i y x Hx Hd eq_refl) as Hu.
    rewrite Hdo, Hu, Hx. apply IH; [|done|].
    - split; [done| |done|].
      + cbn. rewrite list_fmap_insert. cbn. rewrite <- Hr. apply list_insert_id.
        by rewrite list_lookup_fmap, Hx.
      + cbn. intros z Hz Hdz. apply list_elem_of_lookup in Hz as [j Hj].
        destruct (decide (j = i)) as [->|Hne].
        * rewrite list_lookup_insert_eq in Hj by (by eapply lookup_lt_Some). simplify_eq.
          destruct (Hsec resp eq_refl). split; [done|]. by exists resp.
        * rewrite list_lookup_insert_ne in Hj by done. apply Hs; [|done]. by eapply list_elem_of_lookup_2.
    - rewrite Forall_forall in Hf |- *. intros [j b] Hj. destruct (Hf _ Hj) as [(z & Hz & Hrest) Hb].
      split; [|done]. exists z. cbn in *. rewrite list_lookup_insert_ne; [done|].
      intros ->. apply Hni. by apply (list_elem_of_fmap_2 fst _ _ Hj). }
  assert (∀ e, is_retryable e ≠ Panic → match (let? b := is_retryable e in
      if negb b then Err e else take_intents answers ctx) with
    | Ok ctx' => ctx_inv s reqs ctx' w | Err _ => True | Panic => False end) as Herr.
  { intros e He. pose proof (IH ctx Hinv Hnd Hf) as Hrec. destruct e; cbn in *; done. }
  destruct a as [r|e|]; [|by apply Herr, Hret|done].
  destruct r; try (by apply (Herr CInternal)).
  destruct resp as [[resp|]]; [by eapply Hok|by apply (Herr CInternal)].
Qed.

(** The answers of the spawned intents. *)
Lemma task_answers s reqs st to ctx (w w' : W) tasks e answers :
  ctx_inv s reqs ctx w → spawn_intents st to (wx_start_version ctx) 0 (wx_writes ctx) = (tasks, e) →
  run_tasks tasks w = (answers, w') →
  Forall (λ a, (∃ x, wx_writes ctx !! a.1 = Some x ∧ wc_done x = false ∧
      (∀ resp, a.2 = Ok (SWriteIntentResp (mkWriteIntentResponse (Some resp))) →
         secured s (wc_request x) w' ∧ replied s (wc_request x) resp)) ∧
    a.2 ≠ Panic ∧ ∀ e, a.2 = Err e → is_retryable e ≠ Panic) answers.
Proof.
  intros Hinv Es Er. destruct (run_tasks_spec _ _ _ _ Er) as (Hm & Hlen & Ha).
  destruct (spawn_intents_spec _ _ _ _ _ _ _ Es) as [_ Hf]. rewrite Forall_forall in Hf.
  apply Forall_lookup. intros j a Hj. pose proof (lookup_lt_Some _ _ _ Hj) as Hlt. rewrite Hlen in Hlt.
  apply lookup_lt_is_Some_2 in Hlt as [t Ht]. destruct (Ha j t Ht) as (r & Hr & (t' & wa & wb & Ht' & Hs & Hm')).
  rewrite Hj in Hr. injection Hr as ->. rewrite Ht in Ht'. injection Ht' as <-. cbn.
  destruct (Hf t) as (_ & x & sh & Hx & Hd & Hreq); [by eapply list_elem_of_lookup_2|].
  rewrite Nat.sub_0_r in Hx. rewrite (ci_version _ _ _ _ Hinv) in Hreq. split.
  - exists x. split; [done|]. split; [done|]. intros resp ->. rewrite Hreq in Hs.
    split; [|by do 5 eexists]. eapply moves_secured; [exact Hm'|]. left. by eapply prepared_send.
  - pose proof (send_answers (tk_timeout t) (tk_group t) (tk_request t) wa) as Hans. by rewrite Hs in Hans.
Qed.

Lemma prepare_inner_spec s reqs ctx (w : W) :
  ctx_inv s reqs ctx w →
  rtc move w (prepare_intents_inner ctx w).2 ∧
  match (prepare_intents_inner ctx w).1 with
  | Ok (more, ctx') => ctx_inv s reqs ctx' (prepare_intents_inner ctx w).2 ∧
      more = bool_decide (0 < wx_num_doing_writes ctx')%nat
  | Err _ => True
  | Panic => False
  end.
Proof.
  intros Hinv. unfold prepare_intents_inner.
  destruct (spawn_intents _ _ _ _ _) as [tasks e] eqn:Es.
  destruct (run_tasks tasks w) as [answers w'] eqn:Er.
  destruct (run_tasks_spec _ _ _ _ Er) as (Hm & Hlen & Ha).
  destruct (spawn_intents_spec _ _ _ _ _ _ _ Es) as [Hnd Hf].
  destruct e as [e|]; cbn; (split; [done|]); [done|].
  assert (answers.*1 = tk_index <$> tasks) as Hidx.
  { apply list_eq_same_length with (length tasks); [by rewrite length_fmap|by rewrite length_fmap|].
    intros i x y Hi. rewrite !list_lookup_fmap. intros Hx Hy.
    apply lookup_lt_is_Some_2 in Hi as [t Ht]. destruct (Ha i t Ht) as (r & Hr & _).
    rewrite Hr in Hx. rewrite Ht in Hy. cbn in *. congruence. }
  pose proof (take_intents_spec s reqs answers ctx w' (ctx_inv_moves _ _ _ _ _ Hm Hinv)) as Ht.
  rewrite Hidx in Ht. specialize (Ht Hnd).
  destruct (take_intents answers ctx) as [ctx'| |]; cbn; [split; [|done]|done|];
    apply Ht; by eapply task_answers.
Qed.

Lemma prepare_spec fuel s reqs ctx (w : W) r w' :
  ctx_inv s reqs ctx w → prepare_intents fuel ctx w = Some (r, w') →
  rtc move w w' ∧
  match r with
  | Ok ctx' => ctx_inv s reqs ctx' w' ∧ undone (wx_writes ctx') = O
  | Err _ => True
  | Panic => False
  end.
Proof.
  revert ctx w. induction fuel as [|fuel IH]; intros ctx w Hinv; cbn [prepare_intents]; [done|].
  destruct (prepare_inner_spec s reqs ctx w Hinv) as [Hm Hr].
  destruct (prepare_intents_inner ctx w) as [[[more ctx1]|e|] w1]; cbn in *; [|intros; by simplify_eq..].
  destruct Hr as [Hinv1 ->]. case_bool_decide as Hd.
  - destruct (force_retry (tw_now w1) (wx_retry_state ctx1)) as [[i rt]|e|] eqn:Ef; [|intros; by simplify_eq|].
    + intros Hrun. assert (rtc move w1 (tw_sleep i w1)) as Hsl by (apply rtc_once; constructor).
      destruct (IH (set_retry ctx1 rt) (tw_sleep i w1)) as [Hm2 Hr2]; [|done|].
      * eapply ctx_inv_moves; [exact Hsl|]. by apply ctx_inv_retry.
      * split; [|done]. by do 2 (etrans; [eassumption|]).
    + unfold force_retry in Ef. by repeat case_match.
  - intros; simplify_eq. split; [done|]. split; [done|]. rewrite <- (ci_doing _ _ _ _ Hinv1). lia.
Qed.

Lemma undone_zero writes x : undone writes = O → x ∈ writes → wc_done x = true.
Proof.
  intros Hu Hx. destruct (wc_done x) eqn:E; [done|]. exfalso.
  assert (x ∈ filter (λ x, wc_done x = false) writes) as Hin by (by apply list_elem_of_filter).
  unfold undone in Hu. apply nil_length_inv in Hu. rewrite Hu in Hin. by apply not_elem_of_nil in Hin.
Qed.

Lemma alloc_spec fuel r (w : W) x w' : alloc_txn_version fuel r w = Some (x, w') →
  rtc move w w' ∧ x ≠ Panic.
Proof.
  revert r w. induction fuel as [|fuel IH]; intros r w; cbn [alloc_txn_version]; [done|].
  pose proof (move_alloc (retry_timeout (tw_now w) r) w) as Hm.
  pose proof (alloc_answers (retry_timeout (tw_now w) r) w) as [Hnp Hret].
  destruct (tw_alloc _ w) as [[v|e|] w1]; cbn in *; [intros; simplify_eq; by split; [apply rtc_once|]| |done].
  specialize (Hret e eq_refl). unfold retry.
  destruct (is_retryable e) as [[]|e'|]; cbn; [| |by intros; simplify_eq; split; [apply rtc_once|]|done];
    [|by intros; simplify_eq; split; [apply rtc_once|]].
  destruct (force_retry (tw_now w1) r) as [[i rt]|e'|] eqn:Ef; [|by intros; simplify_eq; split; [apply rtc_once|]|].
  - intros [Hm2 ?]%IH. split; [|done]. eapply rtc_l; [exact Hm|]. eapply rtc_l; [|exact Hm2]. constructor.
  - unfold force_retry in Ef. by repeat case_match.
Qed.

(** ** The record *)
Abbreviation client := (client_table W group).

Lemma begin_client now s (w : W) :
  @begin_txn W client tag_of now s w =
    match tw_delivery w with
    | Delivered => begin_txn tag_of now s (tw_pause w)
    | Unsent e => (Err e, tw_pause w)
    | Unanswered e => (Err e, (begin_txn tag_of now s (tw_pause w)).2)
    end.
Proof.
  unfold begin_txn, client_table. pose proof (lost_answers (tag_of := tag_of) w) as Hl. cbn [srv_write].
  destruct (tw_delivery w) as [|e|e]; [done|..]; cbn [failed_state].
  - destruct e; try done. by destruct (Hl _ (or_introl eq_refl) index cond_index prev).
  - destruct (srv_write (tw_pause w) _). destruct e; try done. by destruct (Hl _ (or_intror eq_refl) index cond_index prev).
Qed.
Lemma commit_client now s c (w : W) :
  @commit_txn W client tag_of now s c w =
    match tw_delivery w with
    | Delivered => commit_txn tag_of now s c (tw_pause w)
    | Unsent e => (Err e, tw_pause w)
    | Unanswered e => (Err e, (commit_txn tag_of now s c (tw_pause w)).2)
    end.
Proof.
  unfold commit_txn, client_table. pose proof (lost_answers (tag_of := tag_of) w) as Hl. cbn [srv_write].
  destruct (tw_delivery w) as [|e|e]; [done|..]; cbn [failed_state].
  - destruct e; try done. by destruct (Hl _ (or_introl eq_refl) index cond_index prev).
  - destruct (srv_write (tw_pause w) _). destruct e; try done. by destruct (Hl _ (or_intror eq_refl) index cond_index prev).
Qed.

Lemma begin_spec n s (w : W) : srv_inv (S n) w → u64_ok s → committed_at tag_of w s = None →
  ∃ r w', @begin_txn W client tag_of (tw_now w) s w = (r, w') ∧ r ≠ Panic ∧ srv_inv n w' ∧
    committed_at tag_of w' s = None ∧ tw_now w ≤ tw_now w'.
Proof.
  intros Hi Hs Hc. rewrite begin_client. pose proof (move_pause w) as Hm.
  apply (world_inv (tag_of := tag_of) _ _ _ Hm) in Hi. rewrite <- (world_committed _ _ s Hm) in Hc. set (w1 := tw_pause w) in *.
  destruct (begin_refined tag_of n (tw_now w) s w1 Hi Hs) as (w' & Hrun & Hi' & Hr & _).
  cbn [run_op op_txn spec_op] in *.
  assert (committed_at tag_of w' s = None ∧ (begin_txn tag_of (tw_now w) s w1).1 ≠ Panic) as [Hc' Hnp].
  { rewrite Hrun. unfold committed_at in *. rewrite Hr. unfold parsed in *.
    destruct (rec_state (record_at tag_of w1 s)) as [b|] eqn:Eb; cbn [fst snd]; [|done].
    rewrite Eb. split; [done|]. by destruct (TxnState_from_name b) as [[]|]. }
  apply (time_passes (tag_of := tag_of)) in Hm. fold w1 in Hm.
  assert (tw_now w ≤ tw_now w') as Ht.
  { etrans; [exact Hm|]. replace w' with (begin_txn tag_of (tw_now w) s w1).2 by (by rewrite Hrun).
    unfold begin_txn. match goal with |- context [srv_write w1 ?puts] =>
      pose proof (write_takes (tag_of := tag_of) w1 puts) as Hw; by destruct (srv_write w1 puts) end. }
  destruct (tw_delivery w) as [|e|e].
  - rewrite Hrun in *. eexists _, w'. by split_and!.
  - exists (Err e), w1. split_and!; try done. by apply srv_inv_weaken.
  - rewrite Hrun in *. exists (Err e), w'. by split_and!.
Qed.

(** The decision, made after others had a last chance to abort. *)
Definition decides (s c : Z) (w w' : W) : Prop :=
  committed_at tag_of w' s = Some (Some (txn_u64_value c)) ∧ ¬ aborted_at tag_of (tw_pause w) s.

Lemma commit_spec n s c (w : W) : srv_inv (S n) w → u64_ok s → committed_at tag_of w s = None →
  ∃ r w', @commit_txn W client tag_of (tw_now w) s c w = (r, w') ∧ srv_inv n w' ∧
    match r with
    | Ok _ => decides s c w w'
    | Err e => committed_at tag_of w' s = None ∨ tw_delivery w = Unanswered e ∧ decides s c w w'
    | Panic => False
    end.
Proof.
  intros Hi Hs Hc. rewrite commit_client. pose proof (move_pause w) as Hm. unfold decides.
  apply (world_inv (tag_of := tag_of) _ _ _ Hm) in Hi. rewrite <- (world_committed _ _ s Hm) in Hc. set (w1 := tw_pause w) in *.
  destruct (commit_refined tag_of n (tw_now w) s c w1 Hi Hs) as (w' & Hrun & Hi' & Hr & _).
  cbn [run_op op_txn spec_op] in *.
  assert (match (commit_txn tag_of (tw_now w) s c w1).1 with
    | Ok _ => committed_at tag_of w' s = Some (Some (txn_u64_value c)) ∧ ¬ aborted_at tag_of w1 s
    | Err _ => committed_at tag_of w' s = None
    | Panic => False end) as Hres.
  { rewrite Hrun. unfold committed_at, aborted_at in *. rewrite Hr. unfold parsed in *.
    destruct (rec_state (record_at tag_of w1 s)) as [b|] eqn:Eb; cbn [fst snd]; [|by rewrite Eb].
    destruct (bytes_eqb b (txn_state_value Running)) eqn:E; cbn [fst snd rec_state rec_commit].
    - apply bool_decide_eq_true in E as ->. split; [done|]. by intros ?.
    - rewrite Eb. cbn in *. by destruct (TxnState_from_name b) as [[]|]. }
  assert (Hw : (commit_txn tag_of (tw_now w) s c w1).2 = w') by (by rewrite Hrun).
  clear Hrun. destruct (commit_txn tag_of (tw_now w) s c w1) as [r0 w0]. cbn [fst snd] in *. subst w0.
  destruct (tw_delivery w) as [|e|e] eqn:Ed.
  - exists r0, w'. split; [done|]. split; [done|]. destruct r0; [done|by left|done].
  - exists (Err e), w1. split; [done|]. split; [by apply srv_inv_weaken|by left].
  - exists (Err e), w'. split; [done|]. split; [done|]. destruct r0; [right; eauto|by left|done].
Qed.

(** ** Commits end *)
Lemma take_intents_retry answers ctx ctx' :
  take_intents answers ctx = Ok ctx' → wx_retry_state ctx' = wx_retry_state ctx.
Proof.
  revert ctx. induction answers as [|[i a] answers IH]; intros ctx; cbn [take_intents]; [by intros [= <-]|].
  assert (∀ e, (let? b := is_retryable e in if negb b then Err e else take_intents answers ctx) = Ok ctx' →
    wx_retry_state ctx' = wx_retry_state ctx) as Herr by (intros e; destruct e; cbn; try done; apply IH).
  destruct a as [resp|e|]; [|apply Herr|done]. destruct resp; try (by apply (Herr CInternal)).
  destruct resp as [[resp|]]; [|by apply (Herr CInternal)].
  destruct (wx_num_doing_writes ctx), (wx_writes ctx !! i); try done. by intros ->%IH.
Qed.
Lemma prepare_inner_retry ctx (w w1 : W) more ctx1 :
  prepare_intents_inner ctx w = (Ok (more, ctx1), w1) → wx_retry_state ctx1 = wx_retry_state ctx.
Proof.
  unfold prepare_intents_inner. destruct (spawn_intents _ _ _ _ _) as [tasks e]. destruct (run_tasks tasks w) as [answers w'].
  destruct e; [done|]. intros [= Ht _]. apply result_bind_ok in Ht as (c & Hc & [= _ <-]). by eapply take_intents_retry.
Qed.
Lemma force_retry_deadline t rt i rt' : force_retry t rt = Ok (i, rt') →
  rt_deadline rt' = rt_deadline rt ∧ ∀ d, rt_deadline rt = Some d → t ≤ d.
Proof.
  unfold force_retry. destruct (rt_deadline rt) as [d|] eqn:Ed; [|intros [= _ <-]; by split].
  destruct (Z.leb_spec t d); [|done]. intros [= _ <-]. split; [done|]. by intros d' [= <-].
Qed.
Lemma moves_time (w w' : W) : rtc move w w' → tw_now w ≤ tw_now w'.
Proof. induction 1 as [|w w1 w' Hm _ IH]; [lia|]. pose proof (time_passes (tag_of := tag_of) _ _ Hm). lia. Qed.

Lemma prepare_ends fuel s reqs ctx d (w : W) :
  ctx_inv s reqs ctx w → rt_deadline (wx_retry_state ctx) = Some d → (Z.to_nat (d + 1 - tw_now w) < fuel)%nat →
  ∃ r w', prepare_intents fuel ctx w = Some (r, w') ∧ tw_now w ≤ tw_now w' ∧
    match r with Ok ctx' => rt_deadline (wx_retry_state ctx') = Some d | _ => True end.
Proof.
  revert ctx w. induction fuel as [|fuel IH]; intros ctx w Hinv Hd Hf; [lia|]. cbn [prepare_intents].
  destruct (prepare_inner_spec s reqs ctx w Hinv) as [Hm%moves_time Hr].
  destruct (prepare_intents_inner ctx w) as [[[more ctx1]|e|] w1] eqn:Ei; cbn in *; [|by eauto..].
  apply prepare_inner_retry in Ei. rewrite <- Ei in Hd. destruct Hr as [Hinv1 ->]. case_bool_decide; [|by eauto].
  destruct (force_retry (tw_now w1) (wx_retry_state ctx1)) as [[i rt]|e|] eqn:Ef; [|by eauto..].
  apply force_retry_deadline in Ef as [Hrt Hle]. specialize (Hle d Hd).
  pose proof (sleep_takes (tag_of := tag_of) i w1) as Hsl.
  destruct (IH (set_retry ctx1 rt) (tw_sleep i w1)) as (r & w' & E & Ht & Hr).
  - eapply ctx_inv_moves; [apply rtc_once, move_sleep|]. by apply ctx_inv_retry.
  - cbn. by rewrite Hrt.
  - lia.
  - exists r, w'. split; [done|]. split; [lia|done].
Qed.
Lemma alloc_ends fuel rt d (w : W) :
  rt_deadline rt = Some d → (Z.to_nat (d + 1 - tw_now w) < fuel)%nat → is_Some (alloc_txn_version fuel rt w).
Proof.
  revert rt w. induction fuel as [|fuel IH]; intros rt w Hd Hf; [lia|]. cbn [alloc_txn_version].
  pose proof (move_alloc (retry_timeout (tw_now w) rt) w) as Hm. apply (time_passes (tag_of := tag_of)) in Hm.
  destruct (tw_alloc _ w) as [[v|e|] w1]; cbn in *; [by eauto| |by eauto].
  destruct (retry (tw_now w1) rt e) as [[i rt']|e'|] eqn:Er; [|by eauto..].
  unfold retry in Er. apply result_bind_ok in Er as (b & _ & Er). destruct b; [|done]. cbn in Er.
  apply force_retry_deadline in Er as [Hrt Hle]. specialize (Hle d Hd).
  pose proof (sleep_takes (tag_of := tag_of) i w1). apply IH; [by rewrite Hrt|lia].
Qed.

(** ** Phase two *)
Lemma commit_intents_moves ctx (w : W) : rtc move w (commit_intents ctx w).
Proof.
  unfold commit_intents. generalize [1; 3; 5]. intros pauses.
  match goal with |- rtc move w (commit_intents_loop _ ?c w) => generalize c end. clear ctx. intros ctx.
  revert ctx w. induction pauses as [|i pauses IH]; intros ctx w; cbn [commit_intents_loop]; [done|].
  assert (rtc move w (commit_intents_inner ctx w).2) as Hm.
  { unfold commit_intents_inner. destruct (spawn_commits _ _ _ _) as [tasks e].
    destruct (run_tasks tasks w) as [answers w'] eqn:Er.
    destruct (run_tasks_spec _ _ _ _ Er) as (Hm & _). by destruct e. }
  destruct (commit_intents_inner ctx w) as [[[[] ctx1]|e|] w1]; cbn in *; [|done..].
  etrans; [exact Hm|]. eapply rtc_l; [apply (move_sleep i w1)|]. apply IH.
Qed.

(** ** The whole commit *)
Definition delete_requests (deletes : list (Z * DeleteRequest)) : list WriteRequest := WDelete <$> deletes.*2.
Definition put_requests (puts : list (Z * PutRequest)) : list WriteRequest := WPut <$> puts.*2.

Lemma new_ctx_inv s deletes puts deadline (w : W) :
  ctx_inv s (delete_requests deletes ++ put_requests puts) (WriteBatchContext_new s deletes puts deadline) w.
Proof.
  assert (∀ (l : list (Z * DeleteRequest)) k, wc_request <$> imap (λ i x, with_delete (k + i) x) l = WDelete <$> l.*2) as Hd.
  { induction l as [|[t d] l IH]; intros k; [done|]. cbn. f_equal.
    rewrite <- (IH (S k)). f_equal. apply imap_ext. intros. cbn. f_equal. lia. }
  assert (∀ (l : list (Z * PutRequest)) k, wc_request <$> imap (λ i x, with_put (k + i) x) l = WPut <$> l.*2) as Hp.
  { induction l as [|[t d] l IH]; intros k; [done|]. cbn. f_equal.
    rewrite <- (IH (S k)). f_equal. apply imap_ext. intros. cbn. f_equal. lia. }
  assert (Forall (λ x, wc_done x = false) (imap with_delete deletes ++ imap with_put puts)) as Hall.
  { apply Forall_app. split; apply Forall_lookup; intros i x; rewrite list_lookup_imap; intros Hx;
      destruct (_ !! i); cbn in Hx; by simplify_eq. }
  split; cbn.
  - done.
  - rewrite fmap_app. unfold delete_requests, put_requests. f_equal; [apply (Hd deletes O)|apply (Hp puts O)].
  - rewrite <- (length_imap with_delete deletes), <- (length_imap with_put puts), <- length_app.
    unfold undone. clear -Hall. induction Hall as [|x l Hx _ IH]; [done|].
    rewrite filter_cons, decide_True by done. cbn. by f_equal.
  - intros x Hx Hdone. rewrite Forall_forall in Hall. by rewrite (Hall x Hx) in Hdone.
Qed.

(** The previous values returned are those of the server's answers, in the
    order of the requests. *)
Definition previous_of {A} (s : Z) (wrap : A → WriteRequest) (a : A) (v : option Value) : Prop :=
  ∃ resp, replied s (wrap a) resp ∧ v = wr_prev_value resp.

Lemma prev_values_puts s writes (puts : list PutRequest) :
  wc_request <$> writes = WPut <$> puts →
  Forall (λ x, ∃ resp, wc_response x = Some resp ∧ replied s (wc_request x) resp) writes →
  prev_values true writes = [] ∧ Forall2 (previous_of s WPut) puts (prev_values false writes).
Proof.
  intros E Hf. revert puts E. induction Hf as [|x writes (resp & Hr & Hrep) _ IH]; intros [|p puts] E; try done.
  cbn in E. injection E as Ex E. destruct (IH puts E) as [Ht Hp]. unfold prev_values in *. cbn. rewrite Ex in *. cbn.
  split; [done|]. constructor; [|done]. exists resp. by rewrite Hr.
Qed.
Lemma prev_values_replied s writes dels puts :
  wc_request <$> writes = (WDelete <$> dels) ++ (WPut <$> puts) →
  Forall (λ x, ∃ resp, wc_response x = Some resp ∧ replied s (wc_request x) resp) writes →
  Forall2 (previous_of s WDelete) dels (prev_values true writes) ∧
  Forall2 (previous_of s WPut) puts (prev_values false writes).
Proof.
  revert writes. induction dels as [|d dels IH]; intros writes E Hf.
  { destruct (prev_values_puts s writes puts E Hf) as [-> ?]. by split; [constructor|]. }
  destruct Hf as [|x writes (resp & Hr & Hrep) Hf]; [done|]. cbn in E. injection E as Ex E.
  destruct (IH writes E Hf) as [Hd Hp]. unfold prev_values in *. cbn. rewrite Ex in *. cbn.
  split; [|done]. constructor; [|done]. exists resp. by rewrite Hr.
Qed.

(** At some moment, the transaction undecided, all the intents were in place. *)
Definition all_prepared (s : Z) (reqs : list WriteRequest) : Prop :=
  ∃ w1, committed_at tag_of w1 s = None ∧ ∀ req, req ∈ reqs → prepared s req w1.

(** The write that commits the record reached the group, undecided until then,
    and its answer was lost: the client is left with the error [e]. *)
Definition commit_unanswered (s : Z) (e : ClientError) (w' : W) : Prop :=
  ∃ c w2, tw_delivery w2 = Unanswered e ∧ committed_at tag_of w2 s = None ∧
    @commit_txn W client tag_of (tw_now w2) s c w2 = (Err e, w') ∧
    committed_at tag_of w' s = Some (Some (txn_u64_value c)).

End Commit.
