(* ===== verification/ClientTxnSamples.v ===== *)
(** * A cluster for the two-phase commit

    The transaction table is the engine-backed one of [TxnServerImpl]; next to
    it, a list of the intents that were accepted.  Tasks run last spawned
    first. *)

From S2P Require Import Prelude Bytes Rock Api RocksDb Errors Schema Samples TxnTable TxnTableProps TxnServerImpl.
From S2P Require Import TxnSamples Router GroupClient ClientTxn ClientTxnProps.
#[local] Open Scope Z_scope.

(** A server beside something else. *)
Section Beside.
  Context {A B : Type} `{TxnServerOk A}.
#[local] Instance beside_server : TxnServer (A * B) := {|
  srv_write w puts := let '(r, g) := srv_write w.1 puts in (r, (g, w.2));
  srv_scan w prefix := let '(r, g) := srv_scan w.1 prefix in (r, (g, w.2)) |}.
#[local] Program Instance beside_server_ok : TxnServerOk (A * B) := {|
  srv_inv n w := srv_inv n w.1;
  latest w k := latest w.1 k |}.
Next Obligation. intros n w. apply srv_inv_weaken. Qed.
Next Obligation.
  intros n [g l] puts f Hi Hp Hf. cbn in *. by rewrite (srv_write_fails n g puts f Hi Hp Hf).
Qed.
Next Obligation.
  intros n [g l] puts Hi Hp Hf. cbn in *.
  destruct (srv_write_done n g puts Hi Hp Hf) as (resp & g' & E & Hi' & Hin & Hout).
  rewrite E. by exists resp, (g', l).
Qed.
Next Obligation.
  intros n [g l] prefix Hi Hp. cbn in *. destruct (srv_scan_done n g prefix Hi Hp) as (data & E & Hs).
  rewrite E. by exists data.
Qed.
End Beside.

(** The engine, the accepted intents and the clock. *)
Abbreviation world := (sample_world * (list (Z * WriteRequest) * Z))%type.
#[local] Instance world_server : TxnServer world := beside_server.
#[local] Instance world_server_ok : TxnServerOk world := beside_server_ok.

(** A cluster whose network treats the writes to the table as [delivery] says. *)
Section Cluster.
  Variable delivery : world → Delivery.
  Hypothesis delivery_ok : ∀ w e, delivery w = Unsent e ∨ delivery w = Unanswered e → ∀ i j v, e ≠ CCasFailed i j v.

#[local] Instance sample_txn_world : TxnWorld world := {|
  tw_router _ := foldl apply_update_event State_default move_events;
  tw_now w := w.2.2;
  tw_send _ _ r w :=
    match r with
    | RWriteIntent (mkWriteIntentRequest _ s (Some req)) =>
        (Ok (SWriteIntentResp (mkWriteIntentResponse (Some (mkWriteResponse None)))), (w.1, ((s, req) :: w.2.1, w.2.2)))
    | RCommitIntent _ => (Ok SCommitIntentResp, w)
    | _ => (Err CInternal, w)
    end;
  tw_alloc _ w := (Ok 9, w);
  tw_sleep i w := (w.1, (w.2.1, w.2.2 + 1 + Z.max 0 i));
  tw_order _ n := reverse (seq 0 n);
  tw_pause w := w;
  tw_delivery := delivery |}.

Lemma move_same_table (w w' : world) : move w w' → w'.1 = w.1 ∧ (∀ x, x ∈ w.2.1 → x ∈ w'.2.1) ∧ w.2.2 ≤ w'.2.2.
Proof.
  intros [to g r [e [l t]]|to [e [l t]]|i [e [l t]]|[e [l t]]].
  - destruct r; try (repeat split; cbn; auto; lia). destruct req as [sh s [req|]]; [|repeat split; cbn; auto; lia].
    cbn. split_and!; [done| |lia]. intros x Hx. by right.
  - repeat split; cbn; auto; lia.
  - repeat split; cbn; auto; lia.
  - repeat split; cbn; auto; lia.
Qed.
Lemma record_same (w w' : world) s : w'.1 = w.1 → record_at sample_tag w' s = record_at sample_tag w s.
Proof. unfold record_at, content_at. cbn. by intros ->. Qed.

#[local] Program Instance sample_txn_world_ok : TxnWorldOk world sample_tag := {|
  prepared s req w := (s, req) ∈ w.2.1 |}.
Next Obligation. intros w n. cbn. apply reverse_Permutation. Qed.
Next Obligation. intros n w w' [E _]%move_same_table. cbn. by rewrite E. Qed.
Next Obligation.
  intros w w' s [E _]%move_same_table. unfold committed_at. by rewrite (record_same w w' s E).
Qed.
Next Obligation.
  intros w w' s [E _]%move_same_table. unfold aborted_at. by rewrite (record_same w w' s E).
Qed.
Next Obligation. intros s req w w' (_ & Hin & _)%move_same_table Hp. left. by apply Hin. Qed.
Next Obligation. intros to g shard s req w resp w' [= _ <-]. cbn. left. Qed.
Next Obligation.
  intros to g r w. cbn. repeat case_match; split; try done; intros e [= <-]; done.
Qed.
Next Obligation. exact delivery_ok. Qed.
Next Obligation. intros w w' (_ & _ & Ht)%move_same_table. exact Ht. Qed.
Next Obligation.
  intros [g [l t]] puts. change (t <= (let '(r, g') := srv_write g puts in (r, (g', (l, t)))).2.2.2).
  destruct (srv_write g puts). cbn. lia.
Qed.
Next Obligation. intros i [g [l t]]. cbn. lia. Qed.
Next Obligation. intros to w. by split. Qed.

End Cluster.
Definition sample_deletes : list (Z * DeleteRequest) := [(7, mkDeleteRequest [Byte.x62] [] true)].
Definition sample_puts : list (Z * PutRequest) := [(7, build_put (WriteBuilder_new [Byte.x61]) [Byte.x01])].
Abbreviation sample_ctx := (WriteBatchContext_new 5 sample_deletes sample_puts None).

(** The network delivers everything, or it loses the answer to the commit of
    the record, the only write to the table after the intents. *)
Definition reliable (w : world) : Delivery := Delivered.
Definition lossy (w : world) : Delivery := match w.2.1 with [] => Delivered | _ => Unanswered CTransport end.
Lemma reliable_ok w e : reliable w = Unsent e ∨ reliable w = Unanswered e → ∀ i j v, e ≠ CCasFailed i j v.
Proof. by intros [?|?]. Qed.
Lemma lossy_ok w e : lossy w = Unsent e ∨ lossy w = Unanswered e → ∀ i j v, e ≠ CCasFailed i j v.
Proof. unfold lossy. destruct w.2.1; intros [?|E]; try done. by injection E as <-. Qed.

Abbreviation commit_over delivery :=
  (@commit world (sample_txn_world delivery) world_server sample_tag 1 sample_ctx (sample_engine [], ([], 10))).

(** Both intents are accepted in the first round, the put's first. *)
Lemma sample_prepare (delivery : world → Delivery) (g : sample_world) l :
  ∃ ctx, @prepare_intents world (sample_txn_world delivery) 1 sample_ctx (g, (l, 10)) = Some (Ok ctx,
    (g, ((5, WDelete (mkDeleteRequest [Byte.x62] [] true)) ::
        (5, WPut (build_put (WriteBuilder_new [Byte.x61]) [Byte.x01])) :: l, 10))) ∧
    wx_start_version ctx = 5.
Proof. eexists. split; [vm_compute|]; reflexivity. Qed.

Lemma world_record (g : sample_world) l s :
  record_at (W := world) sample_tag (g, l) s = record_at (W := sample_world) sample_tag g s.
Proof. reflexivity. Qed.

Lemma world_srv_inv (n : nat) (g : sample_world) (l l' : list (Z * WriteRequest) * Z) :
  srv_inv n ((g, l) : world) → srv_inv n ((g, l') : world).
Proof. unfold srv_inv, world_server_ok, beside_server_ok. cbn [fst]. exact id. Qed.

Lemma five_ok : u64_ok 5.
Proof. unfold u64_ok, u64_MAX. lia. Qed.
Lemma first_inv : srv_inv 2 ((sample_engine [], ([], 10)) : world).
Proof. by apply sample_inv; repeat constructor. Qed.
Lemma first_undecided : committed_at (W := world) sample_tag (sample_engine [], ([], 10)) 5 = None.
Proof. unfold committed_at. by rewrite world_record, sample_empty_record. Qed.

(** The table's own writes pass through, and keep what is beside it. *)
Lemma beside_write (g : sample_world) (l : list (Z * WriteRequest) * Z) puts :
  srv_write ((g, l) : world) puts = ((srv_write g puts).1, ((srv_write g puts).2, l)).
Proof.
  change (srv_write ((g, l) : world) puts) with (let '(r, g') := srv_write g puts in (r, (g', l))).
  by destruct (srv_write g puts).
Qed.

Lemma sample_begin : ∃ g, begin_txn (W := world) sample_tag 10 5 (sample_engine [], ([], 10)) = (Ok tt, (g, ([], 10))) ∧
  srv_inv 1 ((g, ([], 10)) : world) ∧ rec_state (record_at sample_tag g 5) = running.
Proof.
  destruct (begin_refined (W := world) sample_tag 1 10 5 _ first_inv five_ok) as ([g l] & Hb & Hib & Hr & _).
  cbn [run_op op_txn] in *. rewrite (world_record (sample_engine []) _ 5), sample_empty_record in Hb, Hr.
  cbn [spec_op rec_state fst snd] in Hb, Hr. exists g.
  assert ((begin_txn (W := world) sample_tag 10 5 (sample_engine [], ([], 10))).2.2 = ([], 10)) as Hl.
  { unfold begin_txn. by rewrite beside_write. }
  rewrite Hb in Hl. cbn [snd] in Hl. subst l.
  split; [exact Hb|]. split; [exact Hib|]. rewrite world_record in Hr. by rewrite Hr.
Qed.

Lemma running_commits (g : sample_world) l :
  srv_inv 1%nat ((g, l) : world) → rec_state (record_at sample_tag g 5) = running →
  ∃ w', commit_txn (W := world) sample_tag 10 5 9 (g, l) = (Ok tt, w').
Proof.
  intros Hi Hrun. destruct (commit_refined (W := world) sample_tag 0 10 5 9 (g, l) Hi five_ok) as (w' & Hc & _).
  cbn [run_op op_txn] in Hc. rewrite world_record in Hc. cbn [spec_op] in Hc. rewrite Hrun in Hc. exists w'. exact Hc.
Qed.

(** Up to the commit of the record both runs are the same. *)
Lemma sample_commit (delivery : world → Delivery) :
  (∀ g, delivery (g, ([], 10)) = Delivered) →
  ∃ g l, l.1 ≠ [] ∧ srv_inv 1%nat ((g, l) : world) ∧ rec_state (record_at sample_tag g 5) = running ∧
    ∃ resp ctx, commit_over delivery =
      match @commit_txn world (@client_table world (sample_txn_world delivery) world_server) sample_tag 10 5 9 (g, l) with
      | (Ok _, w') => Some (Ok resp, @commit_intents world (sample_txn_world delivery) ctx w')
      | (Err e, w') => Some (Err e, w')
      | (Panic, w') => Some (Panic, w')
      end.
Proof.
  intros Hd. destruct sample_begin as (g & Hb & Hi & Hrun).
  destruct (sample_prepare delivery g []) as (ctx & Hp & Hv).
  exists g, ([(5, WDelete (mkDeleteRequest [Byte.x62] [] true));
    (5, WPut (build_put (WriteBuilder_new [Byte.x61]) [Byte.x01]))], 10). split; [|split; [by eapply world_srv_inv|]; split; [done|]].
  2: { unfold commit, start_txn. change (wx_start_version sample_ctx) with 5.
       change (tw_now (sample_engine [], ([], 10))) with 10.
       assert (@begin_txn world (@client_table world (sample_txn_world delivery) world_server) sample_tag 10 5
         (sample_engine [], ([], 10)) = (Ok tt, (g, ([], 10)))) as ->.
       { rewrite <- Hb. unfold begin_txn, client_table. cbn [srv_write tw_delivery sample_txn_world tw_pause]. by rewrite Hd. }
       unfold commit_inner. rewrite Hp.
       cbn [alloc_txn_version tw_alloc sample_txn_world set_commit_version set_retry wx_start_version]. rewrite Hv.
       eexists _, _. change (tw_now _) with 10.
       match goal with |- context [@commit_txn ?a ?b ?c ?d ?e ?f ?g] => generalize (@commit_txn a b c d e f g) end.
       intros [[[]|e|] w1]; reflexivity. }
  done.
Qed.


(** The answer to the commit of the record is lost: the client is told that
    its transaction failed, and it is committed. *)
Theorem lost_answer_commits :
  ∃ w', commit_over lossy = Some (Err CTransport, w') ∧ committed_at (W := world) sample_tag w' 5 = Some (Some (txn_u64_value 9)).
Proof.
  destruct (sample_commit lossy) as (g & l & Hl & Hi & Hrun & resp & ctx & E); [done|].
  destruct (commit_refined (W := world) sample_tag 0 10 5 9 (g, l) Hi five_ok) as (w' & Hc & _ & Hr & _).
  cbn [run_op op_txn spec_op] in Hc, Hr. rewrite world_record, Hrun in Hr. cbn in Hr.
  exists w'. split; [|unfold committed_at; by rewrite Hr].
  rewrite E. destruct l as [[|x l] t]; [destruct (Hl eq_refl)|].
  assert (@commit_txn world (@client_table world (sample_txn_world lossy) world_server) sample_tag 10 5 9 (g, (x :: l, t)) =
    (Err CTransport, (commit_txn (W := world) sample_tag 10 5 9 (g, (x :: l, t))).2)) as ->.
  { unfold commit_txn, client_table. cbn [srv_write tw_delivery sample_txn_world tw_pause lossy snd fst failed_state].
    match goal with |- context [@srv_write ?a ?b ?c ?d] => generalize (@srv_write a b c d) end. intros [r0 w0]. reflexivity. }
  by rewrite Hc.
Qed.
