(* ===== verification/RangeScan.v ===== *)
(** * The range iterator of the client ([client/src/range.rs])

    A background task walks the shards of a table and sends what it scans, one
    batch per request, to the stream the caller reads.  The world [W] is the
    router, the group client and the channel. *)

From S2P Require Import Prelude Bytes Rock Api RocksDb Errors Schema Router GroupClient.
#[local] Open Scope Z_scope.

Inductive Range :=
  | RPrefix (prefix : bytes)
  | RRange (begin_ end_ : option bytes).
Definition Range_all : Range := RRange None None.
Record RangeRequest := mkRangeRequest {
  rr_table_id : Z; rr_version : option Z; rr_range : Range; rr_limit : Z; rr_limit_bytes : Z;
  rr_buffered_requests : Z }.

Inductive ScannerState := SNormal | SFinished | SCancelled.
Record RangeScanner := mkRangeScanner {
  sc_state : ScannerState; sc_table_id : Z; sc_version : Z; sc_limit : Z; sc_limit_bytes : Z;
  sc_cursor_key : bytes; sc_end_key : option bytes; sc_num_scanned : nat }.

Definition extract_request_range (range : Range) : bytes * option bytes :=
  match range with
  | RPrefix prefix => (prefix, Some (lexical_next_boundary prefix))
  | RRange begin_ end_ => (default [] begin_, end_)
  end.
Definition is_entire_range_scanned (scan_end : option bytes) (shard_end : bytes) : bool :=
  match scan_end with
  | Some range_end => bytes_leb range_end shard_end || bool_decide (shard_end = [])
  | None => bool_decide (shard_end = [])
  end.

Definition RangeScanner_init (request : RangeRequest) : RangeScanner :=
  let '(cursor_key, end_key) := extract_request_range (rr_range request) in
  mkRangeScanner SNormal (rr_table_id request) (default TXN_MAX_VERSION (rr_version request))
    (rr_limit request) (rr_limit_bytes request) cursor_key end_key 0.

Definition set_state (s : RangeScanner) (state : ScannerState) : RangeScanner :=
  mkRangeScanner state (sc_table_id s) (sc_version s) (sc_limit s) (sc_limit_bytes s) (sc_cursor_key s)
    (sc_end_key s) (sc_num_scanned s).
Definition set_cursor (s : RangeScanner) (cursor : bytes) : RangeScanner :=
  mkRangeScanner (sc_state s) (sc_table_id s) (sc_version s) (sc_limit s) (sc_limit_bytes s) cursor
    (sc_end_key s) (sc_num_scanned s).
Definition count_batch (s : RangeScanner) : RangeScanner :=
  mkRangeScanner (sc_state s) (sc_table_id s) (sc_version s) (sc_limit s) (sc_limit_bytes s) (sc_cursor_key s)
    (sc_end_key s) (S (sc_num_scanned s)).

Section Scan.
  Context {W : Type}.
  Variable router : W → State.
  Variable now : W → Z.
  Variable sleep : Z → W → W.
  (** [GroupClient::new(group).request(..)]. *)
  Variable send : RouterGroupState → Request → W → CResult Response * W.
  (** [Sender::send]: whether the stream is still there. *)
  Variable deliver : CResult (list ValueSet) → W → bool * W.

Definition scan_request (s : RangeScanner) (shard_desc : ShardDesc) : ShardScanRequest :=
  mkShardScanRequest (sd_id shard_desc) (sc_version s) (sc_limit s) (sc_limit_bytes s) false true None
    (Some (sc_cursor_key s)) (sc_end_key s) false false false.

(** [fuel] bounds the requests to the shard. *)
Fixpoint scan_shard (fuel : nat) (group : RouterGroupState) (shard_desc : ShardDesc) (s : RangeScanner) (w : W) :
    option (CResult unit * RangeScanner * W) :=
  match fuel with
  | O => None
  | S fuel' =>
      match send group (RScan (scan_request s shard_desc)) w with
      | (Ok (SScanResp scan_resp), w) =>
          let s :=
            match last (sr_data scan_resp) with
            | Some last_value => set_cursor s (lexical_next_boundary (vs_user_key last_value))
            | None => s
            end in
          match deliver (Ok (sr_data scan_resp)) w with
          | (false, w) => Some (Ok tt, set_state s SCancelled, w)
          | (true, w) =>
              let s := count_batch s in
              if negb (sr_has_more scan_resp) then Some (Ok tt, s, w)
              else scan_shard fuel' group shard_desc s w
          end
      | (Ok _, w) => Some (Err CInternal, s, w)
      | (Err e, w) => Some (Err e, s, w)
      | (Panic, w) => Some (Panic, s, w)
      end
  end.

(** The loop over the shards. *)
Fixpoint range_scan_inner (fuel : nat) (retry_state : RetryState) (s : RangeScanner) (w : W) :
    option (CResult unit * RangeScanner * W) :=
  match fuel with
  | O => None
  | S fuel' =>
      match sc_state s with
      | SNormal =>
          match find_shard (router w) (sc_table_id s) (sc_cursor_key s) with
          | Err e => Some (Err e, s, w)
          | Panic => Some (Panic, s, w)
          | Ok (group_state, shard_desc) =>
              match scan_shard fuel group_state shard_desc s w with
              | None => None
              | Some (Panic, s, w) => Some (Panic, s, w)
              | Some (Err err, s, w) =>
                  match retry (now w) retry_state err with
                  | Ok (interval, retry_state) => range_scan_inner fuel' retry_state s (sleep interval w)
                  | Err e => Some (Err e, s, w)
                  | Panic => Some (Panic, s, w)
                  end
              | Some (Ok _, s, w) =>
                  let retry_state := reset_wait_interval retry_state in
                  match sd_range shard_desc with
                  | None => Some (Err CInternal, s, w)
                  | Some shard_range =>
                      if is_entire_range_scanned (sc_end_key s) (rp_end shard_range)
                      then range_scan_inner fuel' retry_state (set_state s SFinished) w
                      else range_scan_inner fuel' retry_state (set_cursor s (rp_end shard_range)) w
                  end
              end
          end
      | _ => Some (Ok tt, s, w)
      end
  end.

(** [scan]: an error is the last thing the stream sees. *)
Definition range_scan (fuel : nat) (deadline : option Z) (s : RangeScanner) (w : W) : option (RangeScanner * W) :=
  match range_scan_inner fuel (with_deadline_opt deadline) s w with
  | None => None
  | Some (Ok _, s, w) => Some (s, w)
  | Some (Err err, s, w) => Some (s, (deliver (Err err) w).2)
  | Some (Panic, s, w) => Some (s, w)
  end.
End Scan.

(** * The range iterator delivers the range

    Against shards that answer a scan with the entries they hold, or with a
    first part of them, the iterator ends and delivers every entry of the range
    once, in order, except for those it jumps over: behind an answer that was
    cut short it goes on at the [lexical_next_boundary] of the last key, past
    the entries of the shard whose keys extend that key. *)
Abbreviation vkey := vs_user_key.
Definition entry_lt (a b : ValueSet) : Prop := bytes_lt (vkey a) (vkey b).

(** ** Sorted lists *)
Lemma sorted_filter {A} (R : A → A → Prop) (P : A → Prop) `{∀ x, Decision (P x)} l :
  StronglySorted R l → StronglySorted R (filter P l).
Proof.
  induction 1 as [|x l Hs IH Hf]; [constructor|]. rewrite filter_cons. case_decide; [|done].
  constructor; [done|]. apply Forall_forall. intros y [_ Hy]%list_elem_of_filter.
  by apply (Forall_forall (R x) l).
Qed.
Lemma sorted_app_lt {A} (R : A → A → Prop) l1 l2 x y :
  StronglySorted R (l1 ++ l2) → x ∈ l1 → y ∈ l2 → R x y.
Proof.
  induction l1 as [|z l1 IH]; intros Hs Hx Hy; [by apply not_elem_of_nil in Hx|].
  inversion_clear Hs as [|? ? Hs' Hf]. apply elem_of_cons in Hx as [->|Hx]; [|auto].
  apply (Forall_forall (R z) (l1 ++ l2)); [done|]. apply elem_of_app. by right.
Qed.
Lemma filter_all {A} (P : A → Prop) `{∀ x, Decision (P x)} (l : list A) : (∀ x, x ∈ l → P x) → filter P l = l.
Proof.
  induction l as [|x l IH]; intros Hp; [done|]. rewrite filter_cons, decide_True by (apply Hp; left).
  f_equal. apply IH. intros y Hy. apply Hp. by right.
Qed.
Lemma filter_none {A} (P : A → Prop) `{∀ x, Decision (P x)} (l : list A) : (∀ x, x ∈ l → ¬ P x) → filter P l = [].
Proof.
  induction l as [|x l IH]; intros Hp; [done|]. rewrite filter_cons, decide_False by (apply Hp; left).
  apply IH. intros y Hy. apply Hp. by right.
Qed.
Lemma filter_ext_in {A} (P Q : A → Prop) `{∀ x, Decision (P x)} `{∀ x, Decision (Q x)} (l : list A) :
  (∀ x, x ∈ l → P x ↔ Q x) → filter P l = filter Q l.
Proof.
  induction l as [|x l IH]; intros Hp; [done|]. rewrite !filter_cons.
  assert (P x ↔ Q x) as Hx by (apply Hp; left). rewrite IH by (intros y Hy; apply Hp; by right).
  destruct (decide (P x)), (decide (Q x)); tauto || done.
Qed.
Lemma filter_filter {A} (P Q R : A → Prop) `{∀ x, Decision (P x)} `{∀ x, Decision (Q x)} `{∀ x, Decision (R x)} (l : list A) :
  (∀ x, R x ↔ P x ∧ Q x) → filter R l = filter P (filter Q l).
Proof.
  intros HR. induction l as [|x l IH]; [done|]. rewrite !filter_cons.
  destruct (decide (Q x)); [rewrite filter_cons|]; destruct (decide (R x)); [| |naive_solver|done].
  - rewrite decide_True by naive_solver. by f_equal.
  - rewrite decide_False by naive_solver. done.
Qed.
(** A sorted list is cut in two by a key. *)
Lemma sorted_cut (l : list ValueSet) m : StronglySorted entry_lt l →
  l = filter (λ v, bytes_lt (vkey v) m) l ++ filter (λ v, bytes_le m (vkey v)) l.
Proof.
  induction 1 as [|x l Hs IH Hf]; [done|]. rewrite !filter_cons.
  destruct (decide (bytes_lt (vkey x) m)) as [Hx|Hx].
  - rewrite decide_False by (by rewrite bytes_not_le). cbn. by f_equal.
  - apply bytes_not_lt in Hx. rewrite decide_True by done.
    assert (∀ y, y ∈ l → bytes_le m (vkey y)) as Hall.
    { intros y Hy. rewrite Forall_forall in Hf. specialize (Hf y Hy). unfold entry_lt in Hf.
      apply bytes_le_lteq. left. by eapply bytes_le_lt_trans. }
    rewrite filter_none, filter_all; [done| |].
    + intros y Hy. by apply Hall.
    + intros y Hy. rewrite bytes_not_lt. by apply Hall.
Qed.

(** ** The cursor after a cut answer *)
Definition extendsb (k v : bytes) : bool := starts_with v k && negb (bytes_eqb v k).
(** The entries that are jumped over, for the last keys of the answers that
    were cut and their shards. *)
Definition skipped (cuts : list (bytes * ShardDesc)) (v : bytes) : bool :=
  existsb (λ c, extendsb c.1 v && belong_to c.2 v) cuts.
Definition kept (cuts : list (bytes * ShardDesc)) (l : list ValueSet) : list ValueSet :=
  filter (λ v, skipped cuts (vkey v) = false) l.
(** No key consists of [0xFF] only: it would have no next boundary. *)
Definition bounded_keys (data : list ValueSet) : Prop := ∀ a, a ∈ data → lexical_next_boundary (vkey a) ≠ [].

Lemma boundary_next k l : lexical_next_boundary l ≠ [] →
  bytes_lt l (lexical_next_boundary l) ∧
  (bytes_le l k → bytes_lt k (lexical_next_boundary l) → starts_with k l = true).
Proof.
  intros Hne. destruct (lexical_next_boundary_cases l) as [[E _]|(stem & c & n & Hc & El & E)]; [done|].
  rewrite E. split.
  - pose proof (prefix_lt_boundary stem c n [] Hc) as Hlt. by rewrite app_nil_r, <- El in Hlt.
  - intros Hle Hlt. apply starts_with_spec. by eapply prefix_between.
Qed.
(** Behind a key come those that extend it and those from its boundary on. *)
Lemma behind_key k l : lexical_next_boundary l ≠ [] → bytes_lt l k →
  extendsb l k = false ↔ bytes_le (lexical_next_boundary l) k.
Proof.
  intros Hne Hlt. unfold extendsb. assert (k ≠ l) as Hkl by (intros ->; by apply bytes_lt_irrefl in Hlt).
  assert (bytes_eqb k l = false) as -> by (by apply bool_decide_eq_false). rewrite andb_true_r.
  destruct (starts_with k l) eqn:E.
  - split; [done|]. intros Hle. rewrite <- prefix_range_boundary, in_range_spec in E. destruct E as [_ [Hlt'|?]]; [|done].
    destruct (bytes_lt_irrefl k). by eapply bytes_lt_le_trans.
  - split; [|done]. intros _. destruct (decide (bytes_lt k (lexical_next_boundary l))) as [Hb|Hb%bytes_not_lt]; [|done].
    destruct (boundary_next k l Hne) as [_ Hs]. rewrite Hs in E; [done| |done]. apply bytes_le_lteq. by left.
Qed.
Lemma extends_le k v : extendsb k v = true → bytes_le k v.
Proof. intros [[x ->]%starts_with_spec _]%andb_true_iff. apply bytes_le_app. Qed.

Lemma kept_before cuts l c : (∀ x, x ∈ cuts → bytes_le c x.1) → (∀ v, v ∈ l → bytes_lt (vkey v) c) → kept cuts l = l.
Proof.
  intros Hc Hl. apply filter_all. intros v Hv. apply not_true_iff_false.
  intros (x & Hx%list_elem_of_In & [Hext%extends_le _]%andb_true_iff)%existsb_exists.
  destruct (bytes_lt_irrefl (vkey v)). eapply bytes_lt_le_trans; [by apply Hl|]. eapply bytes_le_trans; [by apply Hc|done].
Qed.
Lemma kept_app cuts1 cuts2 l : kept (cuts1 ++ cuts2) l = kept cuts2 (kept cuts1 l).
Proof.
  unfold kept. apply filter_filter. intros v. unfold skipped. rewrite existsb_app, orb_false_iff. tauto.
Qed.
Lemma kept_both cuts l1 l2 : kept cuts (l1 ++ l2) = kept cuts l1 ++ kept cuts l2.
Proof. apply filter_app. Qed.
Lemma kept_outside cuts l : (∀ x v, x ∈ cuts → v ∈ l → belong_to x.2 (vkey v) = false) → kept cuts l = l.
Proof.
  intros Ho. apply filter_all. intros v Hv. apply not_true_iff_false.
  intros (x & Hx%list_elem_of_In & [_ Hb]%andb_true_iff)%existsb_exists. by rewrite (Ho x v) in Hb.
Qed.

Lemma cut_answer (s : ShardDesc) (d t : list ValueSet) x :
  lexical_next_boundary (vkey x) ≠ [] → StronglySorted entry_lt (d ++ t) → (∀ v, v ∈ d ++ t → belong_to s (vkey v) = true) →
  last d = Some x →
  filter (λ v, bytes_le (lexical_next_boundary (vkey x)) (vkey v)) (d ++ t) = kept [(vkey x, s)] t ∧
  (∀ v, v ∈ d → bytes_lt (vkey v) (lexical_next_boundary (vkey x))) ∧ kept [(vkey x, s)] d = d.
Proof.
  intros Hne Hs Hb Hl. assert (x ∈ d) as Hx by (by apply last_Some_elem_of).
  assert (Hd : ∀ v, v ∈ d → bytes_le (vkey v) (vkey x)).
  { intros v Hv. apply last_Some in Hl as [d' ->]. apply elem_of_app in Hv as [Hv| ->%list_elem_of_singleton]; [|apply bytes_le_refl].
    rewrite <- app_assoc in Hs. assert (entry_lt v x) as Hlt by (apply (sorted_app_lt _ _ _ _ _ Hs Hv); left).
    apply bytes_le_lteq. by left. }
  destruct (boundary_next (vkey x) _ Hne) as [Hbd _].
  assert (Hd' : ∀ v, v ∈ d → bytes_lt (vkey v) (lexical_next_boundary (vkey x))) by (intros v Hv; eapply bytes_le_lt_trans; eauto).
  split_and!; [|done|].
  - rewrite filter_app, filter_none; [|intros v Hv; rewrite bytes_not_le; by apply Hd'].
    apply filter_ext_in. intros v Hv. pose proof (sorted_app_lt _ _ _ _ _ Hs Hx Hv) as Hlt. unfold entry_lt in Hlt.
    unfold skipped. cbn [existsb fst snd]. rewrite (Hb v) by (apply elem_of_app; by right).
    rewrite andb_true_r, orb_false_r. symmetry. by apply behind_key.
  - apply filter_all. intros v Hv. unfold skipped. cbn [existsb fst snd]. rewrite orb_false_r. apply andb_false_iff. left.
    apply not_true_iff_false. intros [Hpre Hne']%andb_true_iff. specialize (Hd v Hv).
    assert (bytes_le (vkey x) (vkey v)) as Hle by (by apply extends_le, andb_true_iff).
    apply negb_true_iff, bool_decide_eq_false in Hne'. apply bytes_le_lteq in Hle as [Hlt|?]; [|done].
    apply (bytes_lt_irrefl (vkey v)). by eapply bytes_le_lt_trans.
Qed.

(** ** What is left of the range *)
Definition before_end (e : option bytes) (k : bytes) : Prop :=
  match e with Some e => bytes_lt k e | None => True end.
#[global] Instance before_end_dec e k : Decision (before_end e k).
Proof. unfold before_end. destruct e; apply _. Defined.

Definition ends_past (c : bytes) (s : ShardDesc) : Prop :=
  match sd_range s with Some r => bytes_lt c (rp_end r) | None => False end.
#[global] Instance ends_past_dec c s : Decision (ends_past c s).
Proof. unfold ends_past. destruct (sd_range s); apply _. Defined.

Section Data.
  Context (data : list ValueSet) (Hsorted : StronglySorted entry_lt data).

(** The entries from a key on, and those of a shard among them. *)
Definition from_key (c : bytes) (e : option bytes) : list ValueSet :=
  filter (λ v, bytes_le c (vkey v) ∧ before_end e (vkey v)) data.
Definition in_shard (s : ShardDesc) (c : bytes) (e : option bytes) : list ValueSet :=
  filter (λ v, belong_to s (vkey v) = true ∧ bytes_le c (vkey v) ∧ before_end e (vkey v)) data.

Lemma in_shard_from s c e : in_shard s c e = filter (λ v, belong_to s (vkey v) = true) (from_key c e).
Proof. unfold in_shard, from_key. by apply filter_filter. Qed.

Lemma in_shard_later s c c' e : bytes_le c c' →
  in_shard s c' e = filter (λ v, bytes_le c' (vkey v)) (in_shard s c e).
Proof.
  intros Hle. unfold in_shard. apply filter_filter. intros v. split; [|tauto].
  intros (? & ? & ?). split_and!; eauto using bytes_le_trans.
Qed.

(** A shard that holds the cursor has the first part of what is left. *)
Lemma from_key_shard s r c e :
  sd_range s = Some r → in_range (rp_start r) (rp_end r) c = true →
  from_key c e = in_shard s c e ++ if is_entire_range_scanned e (rp_end r) then [] else from_key (rp_end r) e.
Proof.
  intros Hr [Hsc Hce]%in_range_spec.
  assert (∀ v, v ∈ from_key c e → belong_to s (vkey v) = true ↔ bytes_lt (vkey v) (rp_end r) ∨ rp_end r = []) as Hb.
  { intros v [[Hle _] _]%list_elem_of_filter. unfold belong_to. rewrite Hr, in_range_spec.
    split; [tauto|]. split; [by eapply bytes_le_trans|done]. }
  destruct (is_entire_range_scanned e (rp_end r)) eqn:E.
  - rewrite app_nil_r, in_shard_from, filter_all; [done|]. intros v Hv. apply Hb; [done|].
    apply list_elem_of_filter in Hv as [[_ Hbe] _]. unfold is_entire_range_scanned in E.
    destruct e as [x|]; cbn in Hbe.
    + apply orb_true_iff in E as [E%bytes_leb_le|E%bool_decide_eq_true]; [left|by right].
      by eapply bytes_lt_le_trans.
    + apply bool_decide_eq_true in E. by right.
  - assert (rp_end r ≠ []) as Hne.
    { intros E0. unfold is_entire_range_scanned in E. rewrite E0 in E.
      destruct e; [apply orb_false_iff in E as [_ E]|]; by rewrite bool_decide_eq_true_2 in E. }
    rewrite (sorted_cut (from_key c e) (rp_end r)) at 1 by (by apply sorted_filter).
    f_equal.
    + rewrite in_shard_from. apply filter_ext_in. intros v Hv. rewrite Hb by done. tauto.
    + unfold from_key. symmetry. apply filter_filter. intros v. destruct Hce as [Hce|Hce]; [|done].
      split; [|tauto]. intros [? ?]. split_and!; [done| |done].
      apply bytes_le_lteq. left. by eapply bytes_lt_le_trans.
Qed.

(** ** The scanner against such shards *)
Section Scanner.
  Context {W : Type} (router : W → State) (now : W → Z) (sleep : Z → W → W).
  Context (send : RouterGroupState → Request → W → CResult Response * W).
  Context (deliver : CResult (list ValueSet) → W → bool * W).
  Context (table : Z) (shards : list ShardDesc) (delivered : W → list (list ValueSet)).

  (** Every key has a shard of the layout. *)
  Hypothesis routed : ∀ w c, ∃ g s r, find_shard (router w) table c = Ok (g, s) ∧ s ∈ shards ∧
    sd_range s = Some r ∧ in_range (rp_start r) (rp_end r) c = true.
  (** A shard answers with its entries, or with a first part of them. *)
  Hypothesis answers : ∀ g s sc w, s ∈ shards → ∃ d more,
    send g (RScan (scan_request sc s)) w = (Ok (SScanResp (mkShardScanResponse d more)), w) ∧
    ∃ t, in_shard s (sc_cursor_key sc) (sc_end_key sc) = d ++ t ∧
      if more then d ≠ [] ∧ bounded_keys data else t = [].
  (** The caller reads the stream. *)
  Hypothesis delivers : ∀ b w, ∃ w', deliver (Ok b) w = (true, w') ∧ delivered w' = delivered w ++ [b].

Definition same_scan (sc sc' : RangeScanner) : Prop :=
  sc_state sc' = sc_state sc ∧ sc_table_id sc' = sc_table_id sc ∧ sc_end_key sc' = sc_end_key sc.

Lemma in_shard_sorted s c e : StronglySorted entry_lt (in_shard s c e).
Proof. by apply sorted_filter. Qed.

(** The last key of a batch that was delivered, from [c] on. *)
Definition cut_at (bs : list (list ValueSet)) (c k : bytes) : Prop :=
  bytes_le c k ∧ ∃ b x, b ∈ bs ∧ last b = Some x ∧ vkey x = k.

Lemma scan_shard_spec fuel g s sc w :
  s ∈ shards → (length (in_shard s (sc_cursor_key sc) (sc_end_key sc)) < fuel)%nat →
  ∃ sc' w' bs cuts, scan_shard send deliver fuel g s sc w = Some (Ok tt, sc', w') ∧ same_scan sc sc' ∧
    delivered w' = delivered w ++ bs ∧ concat bs = kept cuts (in_shard s (sc_cursor_key sc) (sc_end_key sc)) ∧
    ∀ x, x ∈ cuts → x.2 = s ∧ cut_at bs (sc_cursor_key sc) x.1.
Proof.
  intros Hs. revert sc w. induction fuel as [|fuel IH]; intros sc w Hf; [lia|]. cbn [scan_shard].
  destruct (answers g s sc w Hs) as (d & more & -> & t & Hd & Hmore). cbn [sr_data sr_has_more].
  set (sc1 := match last d with Some v => _ | None => sc end).
  assert (same_scan sc sc1) as Hsame by (unfold sc1; by destruct (last d)).
  destruct (delivers d w) as (w1 & -> & Hw1). destruct more; cbn [negb]; last first.
  { eexists _, w1, [d], []. split; [done|]. split; [exact Hsame|]. split; [done|].
    split; [|by intros x ?%not_elem_of_nil]. cbn. rewrite Hd, Hmore, !app_nil_r. symmetry. by apply filter_all. }
  destruct Hmore as [Hne Hff].
  destruct (last d) as [x|] eqn:Hl; [|destruct (Hne (proj1 (last_None d) Hl))].
  assert (Hx : x ∈ in_shard s (sc_cursor_key sc) (sc_end_key sc)).
  { rewrite Hd. apply elem_of_app. left. by apply last_Some_elem_of. }
  apply list_elem_of_filter in Hx as [(_ & Hle & _) Hxd]. pose proof (Hff x Hxd) as Hb.
  destruct (boundary_next (vkey x) _ Hb) as [Hbd _].
  assert (Hle1 : bytes_le (sc_cursor_key sc) (lexical_next_boundary (vkey x))).
  { apply bytes_le_lteq. left. by eapply bytes_le_lt_trans. }
  destruct (cut_answer s d t x Hb) as (Ht & Hdlt & Hdk); [rewrite <- Hd; apply in_shard_sorted| |done|].
  { intros v Hv. rewrite <- Hd in Hv. by apply list_elem_of_filter in Hv as [[? _] _]. }
  rewrite <- Hd, <- in_shard_later in Ht by done.
  destruct (IH (count_batch sc1) w1) as (sc' & w' & bs & cuts & Hrun & Hsm & Hdel & Hbs & Hcuts).
  { unfold sc1. cbn. rewrite Ht. rewrite Hd, length_app in Hf. pose proof (length_filter (λ v, skipped [(vkey x, s)] (vkey v) = false) t).
    unfold kept. destruct d; [done|]. cbn in Hf. lia. }
  exists sc', w', (d :: bs), ((vkey x, s) :: cuts). split; [exact Hrun|].
  destruct Hsame as (?&?&?), Hsm as (?&?&?). cbn in *. split; [split_and!; congruence|].
  split; [by rewrite Hdel, Hw1, <- app_assoc|].
  split.
  - rewrite Hbs, Ht, Hd. change ((vkey x, s) :: cuts) with ([(vkey x, s)] ++ cuts). rewrite kept_app, !kept_both, Hdk.
    f_equal. symmetry. apply (kept_before cuts d (lexical_next_boundary (vkey x))); [|done].
    intros y Hy. by apply Hcuts.
  - intros y [->|Hy]%elem_of_cons; cbn.
    + split; [done|]. split; [done|]. exists d, x. split; [left|done].
    + destruct (Hcuts y Hy) as (? & Hc & b & z & Hin & ?). split; [done|]. split; [by eapply bytes_le_trans|].
      exists b, z. split; [by right|done].
Qed.

Definition ends_after (c : bytes) : list ShardDesc :=
  filter (ends_past c) shards.

Lemma range_scan_spec n fuel rt sc w :
  (length (ends_after (sc_cursor_key sc)) ≤ n)%nat → (n + length data + 2 < fuel)%nat →
  sc_state sc = SNormal → sc_table_id sc = table →
  ∃ sc' w' bs cuts, range_scan_inner router now sleep send deliver fuel rt sc w = Some (Ok tt, sc', w') ∧
    sc_state sc' = SFinished ∧ delivered w' = delivered w ++ bs ∧
    concat bs = kept cuts (from_key (sc_cursor_key sc) (sc_end_key sc)) ∧
    ∀ x, x ∈ cuts → cut_at bs (sc_cursor_key sc) x.1.
Proof.
  revert n rt sc w. induction fuel as [|fuel IH]; intros n rt sc w Hn Hf Hst Ht; [lia|].
  cbn [range_scan_inner]. rewrite Hst, Ht.
  destruct (routed w (sc_cursor_key sc)) as (g & s & r & -> & Hs & Hr & Hin).
  destruct (scan_shard_spec (S fuel) g s sc w Hs) as (sc1 & w1 & bs & cuts & -> & (Es & Et & Ee) & Hdel & Hbs & Hcuts).
  { assert (length (in_shard s (sc_cursor_key sc) (sc_end_key sc)) ≤ length data)%nat by apply length_filter. lia. }
  rewrite Hr, (from_key_shard s r _ _ Hr Hin), Ee.
  destruct (is_entire_range_scanned (sc_end_key sc) (rp_end r)) eqn:E.
  - destruct fuel as [|fuel]; [lia|]. cbn. eexists _, w1, bs, cuts. rewrite app_nil_r. split_and!; try done. by apply Hcuts.
  - assert (rp_end r ≠ []) as Hre.
    { intros E0. unfold is_entire_range_scanned in E. rewrite E0 in E.
      destruct (sc_end_key sc); [apply orb_false_iff in E as [_ E]|]; by rewrite bool_decide_eq_true_2 in E. }
    assert (bytes_lt (sc_cursor_key sc) (rp_end r)) as Hlt by (by apply in_range_spec in Hin as [_ [?|?]]).
    assert (length (ends_after (rp_end r)) < length (ends_after (sc_cursor_key sc)))%nat as Hless.
    { unfold ends_after. rewrite (filter_filter (ends_past (rp_end r)) (ends_past (sc_cursor_key sc))
        (ends_past (rp_end r))).
      - apply (length_filter_lt _ _ s); unfold ends_past.
        + apply list_elem_of_filter. unfold ends_past. by rewrite Hr.
        + rewrite Hr. apply bytes_lt_irrefl.
      - intros x. unfold ends_past. destruct (sd_range x); [|tauto]. split; [|tauto]. eauto using bytes_lt_trans. }
    destruct (IH (pred n) (reset_wait_interval rt) (set_cursor sc1 (rp_end r)) w1)
      as (sc' & w' & bs' & cuts' & Hrun & Hfin & Hdel' & Hbs' & Hcuts');
      [cbn; lia|lia|cbn; congruence|cbn; congruence|].
    cbn in Hbs', Hcuts'. rewrite Ee in Hbs'.
    exists sc', w', (bs ++ bs'), (cuts ++ cuts'). split; [exact Hrun|]. split; [done|]. split; [|split].
    + by rewrite Hdel', Hdel, app_assoc.
    + rewrite concat_app, Hbs, Hbs', kept_both, !kept_app. f_equal.
      * symmetry. apply (kept_before cuts' _ (rp_end r)); [intros x Hx; by apply Hcuts'|].
        intros v [_ Hv]%list_elem_of_filter. apply list_elem_of_filter in Hv as [[Hb _] _].
        unfold belong_to in Hb. rewrite Hr in Hb. by apply in_range_spec in Hb as [_ [?|?]].
      * f_equal. symmetry. apply kept_outside. intros x v Hx [[Hv _] _]%list_elem_of_filter.
        destruct (Hcuts x Hx) as [-> _]. apply not_true_iff_false. unfold belong_to. rewrite Hr, in_range_spec.
        intros [_ [Hlt'|?]]; [|done]. apply (bytes_lt_irrefl (vkey v)). by eapply bytes_lt_le_trans.
    + intros x [Hx|Hx]%elem_of_app.
      * destruct (Hcuts x Hx) as (_ & ? & b & z & ? & ?). split; [done|]. exists b, z. split; [apply elem_of_app; by left|done].
      * destruct (Hcuts' x Hx) as (? & b & z & ? & ?). split; [apply bytes_le_lteq; left; by eapply bytes_lt_le_trans|].
        exists b, z. split; [apply elem_of_app; by right|done].
Qed.


(** Nothing is jumped over when no key is a prefix of another one. *)
Lemma kept_prefix_free cuts bs l :
  (∀ a b, a ∈ l → b ∈ l → starts_with (vkey b) (vkey a) = true → a = b) → concat bs = kept cuts l →
  (∀ x, x ∈ cuts → ∃ b v, b ∈ bs ∧ last b = Some v ∧ vkey v = x.1) → kept cuts l = l.
Proof.
  intros Hfree Hbs Hcuts. apply filter_all. intros v Hv. apply not_true_iff_false.
  intros (x & Hx%list_elem_of_In & [[Hpre Hne]%andb_true_iff _]%andb_true_iff)%existsb_exists.
  destruct (Hcuts x Hx) as (b & u & Hb & Hu%last_Some_elem_of & Ek). rewrite <- Ek in *.
  assert (u ∈ l) as Hul.
  { assert (u ∈ concat bs) as Hc by (apply list_elem_of_In, in_concat; exists b; by rewrite <- !list_elem_of_In).
    rewrite Hbs in Hc. by apply list_elem_of_filter in Hc as [_ ?]. }
  rewrite (Hfree u v Hul Hv Hpre) in Hne. by apply negb_true_iff, bool_decide_eq_false in Hne.
Qed.
End Scanner.
End Data.

(** ** A table of two shards *)
Definition left_shard : ShardDesc := mkShardDesc 1 7 (Some (mkRange [] [Byte.x6d])).
Definition right_shard : ShardDesc := mkShardDesc 2 7 (Some (mkRange [Byte.x6d] [])).
Definition two_shards : State :=
  foldl apply_update_event State_default [UGroup (mkGroupDesc 1 5 [left_shard; right_shard] [mkReplicaDesc 11 1 0])].
Definition sample_entry (k : bytes) : ValueSet := mkValueSet k [mkValue (Some k) 3].

(** A server that answers with one entry at a time; the world is what was delivered. *)
Abbreviation scan_world := (list (list ValueSet)).
Definition sample_scan (data : list ValueSet) (_ : RouterGroupState) (r : Request) (w : scan_world) :
    CResult Response * scan_world :=
  match r with
  | RScan req =>
      let s := if ss_shard_id req =? 1 then left_shard else right_shard in
      let full := in_shard data s (default [] (ss_start_key req)) (ss_end_key req) in
      (Ok (SScanResp (mkShardScanResponse (take 1 full) (bool_decide (full ≠ [])))), w)
  | _ => (Err CInternal, w)
  end.
Definition sample_deliver (b : CResult (list ValueSet)) (w : scan_world) : bool * scan_world :=
  match b with Ok b => (true, w ++ [b]) | _ => (true, w) end.
Definition sample_range (end_ : option bytes) : RangeRequest :=
  mkRangeRequest 7 None (RRange None end_) 1 0 1.
Definition sample_data : list ValueSet := sample_entry <$> [[Byte.x61]; [Byte.x62; Byte.x61]; [Byte.x6e]; [Byte.x7a]].

Lemma two_shards_find c : ∃ g, find_shard two_shards 7 c =
  if belong_to left_shard c then Ok (g, left_shard)
  else if belong_to right_shard c then Ok (g, right_shard) else Err CNotFound.
Proof.
  eexists. unfold find_shard.
  change (co_shards_lookup two_shards !! 7) with (Some [left_shard; right_shard]).
  cbn [result_bind ok_or find_shard_in].
  change (state_find_group_by_shard two_shards (sd_id right_shard))
    with (state_find_group_by_shard two_shards (sd_id left_shard)).
  destruct (belong_to left_shard c); [reflexivity|]. by destruct (belong_to right_shard c).
Qed.

Lemma sample_prefix_free c e a b :
  a ∈ from_key sample_data c e → b ∈ from_key sample_data c e → starts_with (vkey b) (vkey a) = true → a = b.
Proof.
  intros [_ Ha]%list_elem_of_filter [_ Hb]%list_elem_of_filter.
  repeat (apply elem_of_cons in Ha as [->|Ha]); [..|by apply not_elem_of_nil in Ha];
    (repeat (apply elem_of_cons in Hb as [->|Hb]); [..|by apply not_elem_of_nil in Hb]); done.
Qed.


(** A cut answer loses keys: with one entry per answer, the key that has the
    last one as a prefix is never delivered. *)
Lemma range_scan_skips_extensions :
  range_scan (λ _, two_shards) (λ _, 0) (λ _ w, w)
    (sample_scan (sample_entry <$> [[Byte.x61]; [Byte.x61; Byte.x61]])) sample_deliver 10 None
    (RangeScanner_init (sample_range None)) [] =
  Some (mkRangeScanner SFinished 7 TXN_MAX_VERSION 1 0 [Byte.x6d] None 3, [[sample_entry [Byte.x61]]; []; []]).
Proof. vm_compute. reflexivity. Qed.
