(* ===== verification/LogEngine.v ===== *)
(** * The raft log engine, as a region sees it

    [third/raft-engine/src/memtable.rs] keeps, for every region, the
    consecutive log entries from a first index on and a map of keys and values;
    [engine.rs] and [log_batch.rs] apply batches of items to it.  The files
    behind it are left out: an entry is kept in place of its position in a
    file, a batch is applied when its write returns, and a batch has room for
    what is put in it.  The keys that the engine reserves for itself, which the
    public interface refuses, are left out too. *)

From S2P Require Import Prelude Bytes Api RocksDb.
#[local] Open Scope Z_scope.

(** ** The raft messages ([eraft.proto]) *)
Inductive EntryType := EntryNormal | EntryConfChange | EntryConfChangeV2.
Record Entry := mkEntry {
  e_type : EntryType; e_term : Z; e_index : Z; e_data : bytes; e_context : bytes; e_sync_log : bool }.
Record HardState := mkHardState { hs_term : Z; hs_vote : Z; hs_commit : Z }.
Record ConfState := mkConfState {
  cf_voters : list Z; cf_learners : list Z; cf_voters_outgoing : list Z; cf_learners_next : list Z;
  cf_auto_leave : bool }.
Record SnapshotMetadata := mkSnapshotMetadata { sm_conf_state : option ConfState; sm_index : Z; sm_term : Z }.
Record RaftSnapshot := mkRaftSnapshot { sn_data : bytes; sn_metadata : option SnapshotMetadata }.
(** The accessor [get_metadata]. *)
Definition sn_get_metadata (s : RaftSnapshot) : SnapshotMetadata :=
  default (mkSnapshotMetadata None 0 0) (sn_metadata s).

(** ** One region *)
Record MemTable := mkMemTable { mt_first_index : Z; mt_entries : list Entry; mt_kvs : gmap bytes bytes }.
Definition MemTable_new : MemTable := mkMemTable 0 [] ∅.
Inductive EngineError := EntryCompacted | EntryNotFound | DecodeFailed.

Definition mt_span (mt : MemTable) : option (Z * Z) :=
  if decide (0 < length (mt_entries mt))%nat then
    Some (mt_first_index mt, mt_first_index mt + Z.of_nat (length (mt_entries mt)) - 1)
  else None.
Definition mt_last_index (mt : MemTable) : option Z := snd <$> mt_span mt.

Definition mt_get_entry (mt : MemTable) (index : Z) : option Entry :=
  match mt_span mt with
  | Some (first, last) =>
      if (index <? first) || (last <? index) then None
      else mt_entries mt !! Z.to_nat (index - first)
  | None => None
  end.

(** [unsafe_truncate_back]; a start before the first entry drops them all. *)
Definition mt_truncate_back (mt : MemTable) (first index : Z) : MemTable :=
  mkMemTable (mt_first_index mt) (take (Z.to_nat (index - first)) (mt_entries mt)) (mt_kvs mt).

(** [prepare_append] without [allow_hole] and [allow_overwrite_compacted]. *)
Definition mt_prepare_append (mt : MemTable) (first_index_to_add : Z) : result EngineError MemTable :=
  match mt_span mt with
  | Some (first, last) =>
      if first_index_to_add <? first then Panic
      else if last + 1 <? first_index_to_add then Panic
      else if negb (first_index_to_add =? last + 1) then Ok (mt_truncate_back mt first first_index_to_add)
      else Ok mt
  | None => Ok (mkMemTable first_index_to_add (mt_entries mt) (mt_kvs mt))
  end.
Definition mt_append (mt : MemTable) (entries : list Entry) : result EngineError MemTable :=
  match entries with
  | [] => Ok mt
  | e :: _ =>
      let? mt := mt_prepare_append mt (e_index e) in
      Ok (mkMemTable (mt_first_index mt) (mt_entries mt ++ entries) (mt_kvs mt))
  end.
Definition mt_compact_to (mt : MemTable) (index : Z) : MemTable :=
  if bool_decide (mt_entries mt = []) then mt
  else if index <=? mt_first_index mt then mt
  else mkMemTable index (drop (Nat.min (Z.to_nat (index - mt_first_index mt)) (length (mt_entries mt))) (mt_entries mt))
         (mt_kvs mt).
Definition mt_put (mt : MemTable) (key value : bytes) : MemTable :=
  mkMemTable (mt_first_index mt) (mt_entries mt) (<[key := value]> (mt_kvs mt)).
Definition mt_delete (mt : MemTable) (key : bytes) : MemTable :=
  mkMemTable (mt_first_index mt) (mt_entries mt) (delete key (mt_kvs mt)).

Section Fetch.
  Context `{Codec Entry}.

Definition entry_len (e : Entry) : Z := Z.of_nat (length (encode_to_vec e)).

(** The sizes are [u32]. *)
Fixpoint mt_fetch_loop (max_size : option Z) (total_size : Z) (l : list Entry) : list Entry :=
  match l with
  | [] => []
  | e :: l' =>
      let len := entry_len e mod 2 ^ 32 in
      let total_size := (total_size + len) mod 2 ^ 32 in
      if match max_size with Some m => (m <? total_size) && (len <? total_size) | None => false end then []
      else e :: mt_fetch_loop max_size total_size l'
  end.
Definition mt_fetch_entries_to (mt : MemTable) (begin end_ : Z) (max_size : option Z) :
    result EngineError (list Entry) :=
  if end_ <=? begin then Ok []
  else
    let len := Z.of_nat (length (mt_entries mt)) in
    if len =? 0 then Err EntryNotFound
    else
      let first := mt_first_index mt in
      if begin <? first then Err EntryCompacted
      else if first + len <? end_ then Err EntryNotFound
      else Ok (mt_fetch_loop max_size 0
             (take (Z.to_nat (end_ - begin)) (drop (Z.to_nat (begin - first)) (mt_entries mt)))).
End Fetch.

(** ** The engine *)
Abbreviation LogEngine := (gmap Z MemTable).

Definition engine_first_index (engine : LogEngine) (region : Z) : option Z :=
  engine !! region ≫= λ mt, fst <$> mt_span mt.
Definition engine_last_index (engine : LogEngine) (region : Z) : option Z :=
  engine !! region ≫= mt_last_index.
Definition engine_get_entry (engine : LogEngine) (region index : Z) : option Entry :=
  engine !! region ≫= λ mt, mt_get_entry mt index.
Definition engine_fetch_entries_to `{Codec Entry} (engine : LogEngine) (region begin end_ : Z) (max_size : option Z) :
    result EngineError (list Entry) :=
  match engine !! region with
  | Some mt => mt_fetch_entries_to mt begin end_ max_size
  | None => Ok []
  end.
Definition engine_get_message (A : Type) `{Codec A} (engine : LogEngine) (region : Z) (key : bytes) :
    result EngineError (option A) :=
  match engine !! region ≫= λ mt, mt_kvs mt !! key with
  | Some value =>
      match decode_msg value with
      | Some a => Ok (Some a)
      | None => Err DecodeFailed
      end
  | None => Ok None
  end.

(** ** Batches *)
Inductive LogItem :=
  | ItemEntries (region : Z) (entries : list Entry)
  | ItemClean (region : Z)
  | ItemCompact (region index : Z)
  | ItemPut (region : Z) (key value : bytes)
  | ItemDelete (region : Z) (key : bytes).
Abbreviation LogBatch := (list LogItem).

Definition batch_add_entries (batch : LogBatch) (region : Z) (entries : list Entry) : LogBatch :=
  match entries with [] => batch | _ => batch ++ [ItemEntries region entries] end.
Definition batch_put_message {A} `{Codec A} (batch : LogBatch) (region : Z) (key : bytes) (a : A) : LogBatch :=
  batch ++ [ItemPut region key (encode_to_vec a)].

Definition get_or_insert (engine : LogEngine) (region : Z) : MemTable :=
  default MemTable_new (engine !! region).
(** [apply_append_writes]. *)
Definition apply_item (engine : LogEngine) (item : LogItem) : result EngineError LogEngine :=
  match item with
  | ItemEntries region entries =>
      let? mt := mt_append (get_or_insert engine region) entries in Ok (<[region := mt]> engine)
  | ItemClean region => Ok (delete region engine)
  | ItemCompact region index => Ok (<[region := mt_compact_to (get_or_insert engine region) index]> engine)
  | ItemPut region key value => Ok (<[region := mt_put (get_or_insert engine region) key value]> engine)
  | ItemDelete region key => Ok (<[region := mt_delete (get_or_insert engine region) key]> engine)
  end.
Fixpoint engine_write (engine : LogEngine) (batch : LogBatch) : result EngineError LogEngine :=
  match batch with
  | [] => Ok engine
  | item :: batch' => let? engine := apply_item engine item in engine_write engine batch'
  end.
