(* ===== verification/RaftStorage.v ===== *)
(** * The raft storage ([raftgroup/storage.rs], parts of [raftgroup/mod.rs])

    The log of one replica: a range of indices, a cache of the newest entries,
    the hard state and the truncation point, over the region of the log engine
    that persists them.  Indices are [u64]s that stay far from their bound, so
    their additions are written plainly. *)

From S2P Require Import Prelude Bytes Api RocksDb LogEngine.
#[local] Open Scope Z_scope.

(** ** The entry cache *)
Abbreviation EntryCache := (list Entry).

Definition cache_first_index (cache : EntryCache) : option Z := e_index <$> head cache.

(** An index beyond the cache is out of the bounds of the deque. *)
Definition cache_entry {E} (cache : EntryCache) (index : Z) : result E (option Entry) :=
  match cache_first_index cache with
  | None => Ok None
  | Some first_index =>
      if first_index <=? index then
        let? e := expect (cache !! Z.to_nat (index - first_index)) in Ok (Some e)
      else Ok None
  end.

Section Cache.
  Context `{Codec Entry}.

(** [take_while] with its running sum, then [count]. *)
Fixpoint cache_fit (fetched_size max_size : Z) (l : list Entry) : nat :=
  match l with
  | [] => 0
  | e :: l' =>
      let fetched_size := fetched_size + entry_len e in
      if fetched_size <=? max_size then S (cache_fit fetched_size max_size l') else 0
  end.
Definition cache_fetch_entries_to {E} (cache : EntryCache) (begin end_ max_size : Z) : result E (list Entry) :=
  if end_ <=? begin then Ok []
  else
    let limit := Z.to_nat (end_ - begin) in
    let? cache_low := expect (cache_first_index cache) in
    let? start_index := expect (checked_sub begin cache_low) in
    let start_index := Z.to_nat start_index in
    let window := take limit (drop start_index cache) in
    let count := cache_fit 0 max_size window in
    let count := if decide (0 < length window)%nat then if decide (count = 0)%nat then 1%nat else count else count in
    if decide (length cache < start_index)%nat then Panic
    else Ok (take count window).
End Cache.

Definition cache_append {E} (cache : EntryCache) (entries : list Entry) : result E EntryCache :=
  match entries with
  | [] => Ok cache
  | e0 :: _ =>
      let first_index := e_index e0 in
      let? cache :=
        match e_index <$> last cache with
        | Some cache_last_index =>
            if first_index <=? cache_last_index then
              let truncate_to :=
                default 0 (checked_sub (Z.of_nat (length cache)) (cache_last_index - first_index + 1)) in
              Ok (take (Z.to_nat truncate_to) cache)
            else if cache_last_index + 1 <? first_index then Panic
            else Ok cache
        | None => Ok cache
        end in
      Ok (cache ++ entries)
  end.

Definition cache_drains_to {E} (cache : EntryCache) (applied_index : Z) : result E EntryCache :=
  match cache_first_index cache with
  | Some cache_low =>
      let? len := expect (checked_sub applied_index cache_low) in
      if decide (length cache < Z.to_nat (len / 2))%nat then Panic
      else Ok (drop (Z.to_nat (len / 2)) cache)
  | None => Ok cache
  end.

(** ** The storage *)
Record RaftLocalState := mkRaftLocalState { rl_replica_id : Z; rl_last_truncated : option EntryId }.
Record Storage := mkStorage {
  st_replica_id : Z; st_first_index : Z; st_last_index : Z; st_cache : EntryCache;
  st_local_state : RaftLocalState; st_hard_state : HardState; st_initial_conf_state : option ConfState;
  st_create_snapshot : bool; st_is_creating_snapshot : bool }.

(** [WriteTask] ([raftgroup/node.rs]); what to do after the write is the worker's. *)
Record WriteTask := mkWriteTask {
  wt_hard_state : option HardState; wt_entries : list Entry; wt_snapshot : option RaftSnapshot }.

Inductive StorageError := Compacted | SnapshotTemporarilyUnavailable | StoreOther (e : EngineError).
Abbreviation RaftResult := (result StorageError).

Definition HARD_STATE_KEY : bytes := str_bytes "hard_state".
Definition LOCAL_STATE_KEY : bytes := str_bytes "local_state".

Definition set_cache (st : Storage) (cache : EntryCache) : Storage :=
  mkStorage (st_replica_id st) (st_first_index st) (st_last_index st) cache (st_local_state st)
    (st_hard_state st) (st_initial_conf_state st) (st_create_snapshot st) (st_is_creating_snapshot st).
Definition set_hard_state (st : Storage) (hs : HardState) : Storage :=
  mkStorage (st_replica_id st) (st_first_index st) (st_last_index st) (st_cache st) (st_local_state st)
    hs (st_initial_conf_state st) (st_create_snapshot st) (st_is_creating_snapshot st).
Definition set_commit (hs : HardState) (commit : Z) : HardState := mkHardState (hs_term hs) (hs_vote hs) commit.

Definition last_truncated_entry_id (st : Storage) : EntryId :=
  default (mkEntryId 0 0) (rl_last_truncated (st_local_state st)).
Definition truncated_index (st : Storage) : Z := ei_index (last_truncated_entry_id st).
Definition truncated_term (st : Storage) : Z := ei_term (last_truncated_entry_id st).
(** [range]: from the first index to behind the last. *)
Definition st_range (st : Storage) : Z * Z := (st_first_index st, st_last_index st + 1).

Definition check_range (st : Storage) (low high : Z) : RaftResult unit :=
  if high <? low then Panic
  else if st_last_index st + 1 <? high then Panic
  else if low <=? truncated_index st then Err Compacted
  else Ok tt.

(** [raft_engine::Error] as a server error. *)
Definition engine_result {A} (m : result EngineError A) : Result A :=
  result_map_err (λ _, RaftEngineError "engine") m.
Definition store_result {A} (m : result EngineError A) : RaftResult A := result_map_err StoreOther m.

Section Storage.
  Context `{Codec Entry} `{Codec HardState} `{Codec RaftLocalState}.

Definition storage_open (force_new_peer_receiving_snapshot : bool) (replica_id applied_index : Z)
    (conf_state : ConfState) (engine : LogEngine) : Result Storage :=
  let? hs := engine_result (engine_get_message HardState engine replica_id HARD_STATE_KEY) in
  let? hard_state := expect hs in
  let? ls := engine_result (engine_get_message RaftLocalState engine replica_id LOCAL_STATE_KEY) in
  let? local_state := expect ls in
  let first_index := default 1 (engine_first_index engine replica_id) in
  let last_index := default 0 (engine_last_index engine replica_id) in
  let? ' (first_index, last_index) :=
    match rl_last_truncated local_state with
    | Some truncated =>
        if first_index <=? last_index then
          if negb (ei_index truncated + 1 =? first_index) then Panic else Ok (first_index, last_index)
        else Ok (ei_index truncated + 1, ei_index truncated)
    | None => Ok (first_index, last_index)
    end in
  let? cache :=
    if applied_index <? last_index then
      let applied_index := if force_new_peer_receiving_snapshot && (applied_index =? 0) then 5 else applied_index in
      if negb (first_index <=? applied_index + 1) then Panic
      else engine_result (engine_fetch_entries_to engine replica_id (applied_index + 1) (last_index + 1) None)
    else Ok [] in
  Ok (mkStorage replica_id first_index last_index cache local_state hard_state (Some conf_state) false false).

Definition storage_write (st : Storage) (batch : LogBatch) (task : WriteTask) : Result (Storage * LogBatch) :=
  let '(st, batch) :=
    match wt_hard_state task with
    | Some hs => (set_hard_state st hs, batch_put_message batch (st_replica_id st) HARD_STATE_KEY hs)
    | None => (st, batch)
    end in
  let id := st_replica_id st in
  match wt_snapshot task with
  | Some snapshot =>
      if negb (bool_decide (wt_entries task = [])) then Panic
      else
        let batch := batch ++ [ItemClean id] in
        let metadata := sn_get_metadata snapshot in
        let local_state := mkRaftLocalState id (Some (mkEntryId (sm_index metadata) (sm_term metadata))) in
        let batch := batch_put_message batch id LOCAL_STATE_KEY local_state in
        let hs := set_commit (st_hard_state st) (sm_index metadata) in
        let batch := batch_put_message batch id HARD_STATE_KEY hs in
        Ok (mkStorage id (sm_index metadata + 1) (sm_index metadata) [] local_state hs
              (st_initial_conf_state st) (st_create_snapshot st) (st_is_creating_snapshot st), batch)
  | None =>
      match last (wt_entries task) with
      | Some e =>
          let batch := batch_add_entries batch id (wt_entries task) in
          let? cache := cache_append (st_cache st) (wt_entries task) in
          Ok (mkStorage id (st_first_index st) (e_index e) cache (st_local_state st) (st_hard_state st)
                (st_initial_conf_state st) (st_create_snapshot st) (st_is_creating_snapshot st), batch)
      | None => Ok (st, batch)
      end
  end.

Definition post_apply (st : Storage) (applied_index : Z) : Result Storage :=
  let? cache := cache_drains_to (st_cache st) applied_index in Ok (set_cache st cache).

(** ** What raft reads *)
Definition storage_initial_state (st : Storage) : RaftResult (HardState * ConfState * Storage) :=
  let? cs := expect (st_initial_conf_state st) in
  Ok (st_hard_state st, cs,
      mkStorage (st_replica_id st) (st_first_index st) (st_last_index st) (st_cache st) (st_local_state st)
        (st_hard_state st) None (st_create_snapshot st) (st_is_creating_snapshot st)).

Definition storage_entries (st : Storage) (engine : LogEngine) (low high : Z) (max_size : option Z) :
    RaftResult (list Entry) :=
  do? check_range st low high in
  if low =? high then Ok []
  else
    let max_size := default u64_MAX max_size in
    let cache_low := default u64_MAX (cache_first_index (st_cache st)) in
    let from_cache (entries : list Entry) : RaftResult (list Entry) :=
      if cache_low <? high then
        let fetched_size := Z.of_nat (sum_list_with (λ e, length (e_data e)) entries) in
        let? cached := cache_fetch_entries_to (st_cache st) (Z.max low cache_low) high
          (Z.max 0 (max_size - fetched_size)) in
        Ok (entries ++ cached)
      else Ok entries in
    if low <? cache_low then
      let end_ := Z.min cache_low high in
      let? entries := store_result (engine_fetch_entries_to engine (st_replica_id st) low end_ (Some max_size)) in
      if Z.of_nat (length entries) <? end_ - low then Ok entries else from_cache entries
    else from_cache [].

Definition storage_term (st : Storage) (engine : LogEngine) (idx : Z) : RaftResult Z :=
  if idx =? truncated_index st then Ok (truncated_term st)
  else
    do? check_range st idx (idx + 1) in
    if negb (default false ((λ fi, fi <=? idx) <$> cache_first_index (st_cache st))) then
      match engine_get_entry engine (st_replica_id st) idx with
      | Some entry => Ok (e_term entry)
      | None => Err Compacted
      end
    else
      let? e := cache_entry (st_cache st) idx in
      let? e := expect e in
      Ok (e_term e).

(** [snapshot]; the newest snapshot that [SnapManager] has is an argument. *)
Record SnapInfo := mkSnapInfo { si_apply_state : option EntryId; si_raft_snapshot : RaftSnapshot }.
Definition storage_snapshot (latest_snap : option SnapInfo) (st : Storage) (request_index : Z) :
    RaftResult RaftSnapshot * Storage :=
  if negb (st_is_creating_snapshot st) then
    let create :=
      if st_create_snapshot st then (Panic, st)
      else
        (Err SnapshotTemporarilyUnavailable,
         mkStorage (st_replica_id st) (st_first_index st) (st_last_index st) (st_cache st) (st_local_state st)
           (st_hard_state st) (st_initial_conf_state st) true true) in
    match latest_snap with
    | Some snap_info =>
        match si_apply_state snap_info with
        | Some apply_state =>
            if request_index <=? ei_index apply_state then (Ok (si_raft_snapshot snap_info), st) else create
        | None => (Panic, st)
        end
    | None => create
    end
  else (Err SnapshotTemporarilyUnavailable, st).

(** ** Compaction *)
Definition storage_compact_to (st : Storage) (engine : LogEngine) (to : Z) : RaftResult (Storage * LogBatch) :=
  let id := st_replica_id st in
  let st := mkStorage id to (st_last_index st) (st_cache st) (st_local_state st) (st_hard_state st)
    (st_initial_conf_state st) (st_create_snapshot st) (st_is_creating_snapshot st) in
  let? truncated_index := expect (checked_sub to 1) in
  let? term := match storage_term st engine truncated_index with Ok t => Ok t | _ => Panic end in
  let local_state := mkRaftLocalState id (Some (mkEntryId truncated_index term)) in
  let lb := [ItemCompact id to] in
  let lb := batch_put_message lb id LOCAL_STATE_KEY local_state in
  let '(hs, lb) :=
    if hs_commit (st_hard_state st) <? st_first_index st then
      let hs := set_commit (st_hard_state st) (st_first_index st) in
      (hs, batch_put_message lb id LOCAL_STATE_KEY hs)
    else (st_hard_state st, lb) in
  Ok (mkStorage id to (st_last_index st) (st_cache st) local_state hs
        (st_initial_conf_state st) (st_create_snapshot st) (st_is_creating_snapshot st), lb).
End Storage.

(** ** Configuration changes ([raftgroup/mod.rs]) *)
Inductive ConfChangeType := AddNode | RemoveNode | AddLearnerNode.
Record ConfChangeSingle := mkConfChangeSingle { cc_change_type : ConfChangeType; cc_node_id : Z }.
(** The transition is always [Auto]. *)
Record ConfChangeV2 := mkConfChangeV2 { ccv_changes : list ConfChangeSingle; ccv_context : bytes }.
Definition ConfChangeV2_default : ConfChangeV2 := mkConfChangeV2 [] [].

Definition to_conf_change_type (t : Z) : Result ConfChangeType :=
  match ChangeReplicaType_from_i32 t with
  | Some CRAdd => Ok AddNode
  | Some CRRemove => Ok RemoveNode
  | Some CRAddLearner => Ok AddLearnerNode
  | None => Panic
  end.
Fixpoint encode_changes (changes : ChangeReplicas) : Result (list ConfChangeSingle) :=
  match changes with
  | [] => Ok []
  | c :: changes' =>
      let? t := to_conf_change_type (cr_change_type c) in
      let? l := encode_changes changes' in
      Ok (mkConfChangeSingle t (cr_replica_id c) :: l)
  end.
Definition encode_to_conf_change `{Codec ChangeReplicas} (change_replicas : ChangeReplicas) : Result ConfChangeV2 :=
  let? changes := encode_changes change_replicas in
  Ok (mkConfChangeV2 changes (encode_to_vec change_replicas)).
Definition decode_from_conf_change `{Codec ChangeReplicas} (cc : ConfChangeV2) : Result ChangeReplicas :=
  expect (decode_msg (ccv_context cc)).

Definition conf_state_add (acc : ConfState * bool) (replica : ReplicaDesc) : ConfState * bool :=
  let '(cs, in_joint) := acc in
  match default Voter (ReplicaRole_from_i32 (rd_role replica)) with
  | Voter =>
      (mkConfState (cf_voters cs ++ [rd_id replica]) (cf_learners cs) (cf_voters_outgoing cs) (cf_learners_next cs)
         (cf_auto_leave cs), in_joint)
  | Learner =>
      (mkConfState (cf_voters cs) (cf_learners cs ++ [rd_id replica]) (cf_voters_outgoing cs) (cf_learners_next cs)
         (cf_auto_leave cs), in_joint)
  | IncomingVoter =>
      (mkConfState (cf_voters cs ++ [rd_id replica]) (cf_learners cs) (cf_voters_outgoing cs) (cf_learners_next cs)
         (cf_auto_leave cs), true)
  | DemotingVoter =>
      (mkConfState (cf_voters cs) (cf_learners cs) (cf_voters_outgoing cs ++ [rd_id replica])
         (cf_learners_next cs ++ [rd_id replica]) (cf_auto_leave cs), true)
  end.
Definition conf_state_from_group_descriptor (desc : GroupDesc) : ConfState :=
  let '(cs, in_joint) := foldl conf_state_add (mkConfState [] [] [] [] false, false) (gd_replicas desc) in
  if negb in_joint then mkConfState (cf_voters cs) (cf_learners cs) [] (cf_learners_next cs) (cf_auto_leave cs)
  else cs.

(** ** The first state of a replica *)
Section Initial.
  Context `{Codec HardState} `{Codec RaftLocalState} `{Codec ChangeReplicas} `{Codec ConfChangeV2} `{Codec EvalResult}.

Definition replica_id_le (a b : ReplicaDesc) : Prop := rd_id a ≤ rd_id b.
#[global] Instance replica_id_le_dec : RelDecision replica_id_le.
Proof. intros a b. unfold replica_id_le. apply _. Defined.

Definition initial_change (replica : ReplicaDesc) : ChangeReplica :=
  mkChangeReplica (if rd_role replica =? ReplicaRole_i32 Learner then 2 else 0) (rd_id replica) (rd_node_id replica).
Fixpoint initial_conf_entries (last_index : Z) (replicas : list ReplicaDesc) : Result (list Entry) :=
  match replicas with
  | [] => Ok []
  | replica :: replicas' =>
      let? cc := encode_to_conf_change [initial_change replica] in
      let? l := initial_conf_entries (last_index + 1) replicas' in
      Ok (mkEntry EntryConfChangeV2 1 (last_index + 1) (encode_to_vec cc) [] false :: l)
  end.
Fixpoint initial_eval_entries (last_index : Z) (results : list EvalResult) : list Entry :=
  match results with
  | [] => []
  | r :: results' =>
      mkEntry EntryNormal 1 (last_index + 1) (encode_to_vec r) [] false :: initial_eval_entries (last_index + 1) results'
  end.
Definition write_initial_state (force_new_peer_receiving_snapshot : bool) (engine : LogEngine) (replica_id : Z)
    (replicas : list ReplicaDesc) (initial_eval_results : list EvalResult) : Result LogEngine :=
  let initial_index :=
    if force_new_peer_receiving_snapshot && negb (bool_decide (replicas = []) && bool_decide (initial_eval_results = []))
    then 5 else 0 in
  let? confs := initial_conf_entries initial_index (merge_sort replica_id_le replicas) in
  let last_index := initial_index + Z.of_nat (length confs) in
  let evals := initial_eval_entries last_index initial_eval_results in
  let last_index := last_index + Z.of_nat (length evals) in
  let initial_entries := confs ++ evals in
  let local_state := mkRaftLocalState replica_id (Some (mkEntryId initial_index 0)) in
  let hard_state :=
    if negb (bool_decide (initial_entries = [])) then mkHardState 1 replica_id last_index else mkHardState 0 0 0 in
  let batch := [ItemClean replica_id] in
  let batch := batch_add_entries batch replica_id initial_entries in
  let batch := batch_put_message batch replica_id HARD_STATE_KEY hard_state in
  let batch := batch_put_message batch replica_id LOCAL_STATE_KEY local_state in
  engine_result (engine_write engine batch).
End Initial.

Definition destory (engine : LogEngine) (replica_id : Z) : Result LogEngine :=
  engine_result (engine_write engine [ItemClean replica_id]).
