(* ===== verification/RaftStorageProps.v ===== *)
(** * The raft storage keeps a log

    [RaftLog] is what the storage stands for: a truncation point, the entries
    behind it, how far they are applied, and the hard state.  Every operation
    of the storage refines one on the log, and every query is answered from
    it, whichever entries are cached. *)

From S2P Require Import Prelude Bytes Api RocksDb LogEngine RaftStorage.
#[local] Open Scope Z_scope.

Record RaftLog := mkRaftLog {
  lg_truncated : EntryId; lg_entries : list Entry; lg_applied : Z; lg_hard : HardState }.
Definition lg_first (log : RaftLog) : Z := ei_index (lg_truncated log) + 1.
Definition lg_last (log : RaftLog) : Z := ei_index (lg_truncated log) + Z.of_nat (length (lg_entries log)).

(** The entries have consecutive indices from [from] on. *)
Definition consecutive (from : Z) (l : list Entry) : Prop :=
  ∀ j e, l !! j = Some e → e_index e = from + Z.of_nat j.

(** The entries of the log in [[low, high)]. *)
Definition slice (log : RaftLog) (low high : Z) : list Entry :=
  take (Z.to_nat (high - low)) (drop (Z.to_nat (low - lg_first log)) (lg_entries log)).

(** ** Operations *)
Inductive LogOp :=
  | LWrite (task : WriteTask)
  | LApplied (index : Z)
  | LCompact (to : Z)
  | LReopen (flushed : Z).

Definition term_at (log : RaftLog) (i : Z) : Z :=
  default 0 (e_term <$> lg_entries log !! Z.to_nat (i - lg_first log)).

Definition spec_op (log : RaftLog) (op : LogOp) : RaftLog :=
  match op with
  | LWrite task =>
      let hs := default (lg_hard log) (wt_hard_state task) in
      match wt_snapshot task with
      | Some s =>
          let m := sn_get_metadata s in
          mkRaftLog (mkEntryId (sm_index m) (sm_term m)) [] (sm_index m) (set_commit hs (sm_index m))
      | None =>
          match wt_entries task with
          | [] => mkRaftLog (lg_truncated log) (lg_entries log) (lg_applied log) hs
          | e0 :: _ =>
              mkRaftLog (lg_truncated log)
                (take (Z.to_nat (e_index e0 - lg_first log)) (lg_entries log) ++ wt_entries task)
                (lg_applied log) hs
          end
      end
  | LApplied i => mkRaftLog (lg_truncated log) (lg_entries log) i (lg_hard log)
  | LCompact to =>
      mkRaftLog (mkEntryId (to - 1) (term_at log (to - 1)))
        (drop (Z.to_nat (to - lg_first log)) (lg_entries log)) (lg_applied log) (lg_hard log)
  | LReopen flushed => mkRaftLog (lg_truncated log) (lg_entries log) flushed (lg_hard log)
  end.

Section Props.
  Context {CE : Codec Entry} {CH : Codec HardState} {CHok : CodecOk HardState}.
  Context {CL : Codec RaftLocalState} {CLok : CodecOk RaftLocalState}.

(** Both sizes the limits of [entries] count: encoded, and of the data. *)
Definition total_len (l : list Entry) : Z :=
  Z.of_nat (sum_list_with (λ e, length (encode_to_vec e) + length (e_data e))%nat l).

Definition log_ok (log : RaftLog) : Prop :=
  0 ≤ ei_index (lg_truncated log) ∧ consecutive (lg_first log) (lg_entries log) ∧
  ei_index (lg_truncated log) ≤ lg_applied log ≤ lg_last log ∧ lg_last log < u64_MAX ∧
  total_len (lg_entries log) ≤ u64_MAX.

(** What raft and the worker guarantee: entries that are applied are not
    rewritten and leave no hole, a snapshot comes alone, a log is compacted
    within its applied entries, and a replica restarts from a flushed index
    that compaction left.  Compaction stays at or below the recorded commit
    index: a condition of this development, not of [compact_log], which has
    [compact_to] overwrite the local state otherwise ([compact_past_commit]). *)
Definition op_ok (log : RaftLog) (op : LogOp) : Prop :=
  match op with
  | LWrite task =>
      match wt_snapshot task, wt_entries task with
      | Some s, [] => 0 ≤ sm_index (sn_get_metadata s) < u64_MAX
      | Some _, _ => False
      | None, [] => True
      | None, e0 :: _ =>
          consecutive (e_index e0) (wt_entries task) ∧ lg_applied log < e_index e0 ≤ lg_last log + 1 ∧
          e_index e0 + Z.of_nat (length (wt_entries task)) ≤ u64_MAX ∧
          total_len (lg_entries (spec_op log op)) ≤ u64_MAX
      end
  | LApplied i => lg_applied log < i ≤ lg_last log
  | LCompact to => lg_first log < to ≤ lg_applied log ∧ to ≤ hs_commit (lg_hard log)
  | LReopen flushed => ei_index (lg_truncated log) ≤ flushed ≤ lg_applied log
  end.

(** The storage and its region after one operation. *)
Definition run_op (conf : ConfState) (s : Storage * LogEngine) (op : LogOp) : Result (Storage * LogEngine) :=
  let '(st, engine) := s in
  match op with
  | LWrite task =>
      let? ' (st, batch) := storage_write st [] task in
      let? engine := engine_result (engine_write engine batch) in Ok (st, engine)
  | LApplied i => let? st := post_apply st i in Ok (st, engine)
  | LCompact to =>
      match storage_compact_to st engine to with
      | Ok (st, batch) => let? engine := engine_result (engine_write engine batch) in Ok (st, engine)
      | _ => Panic
      end
  | LReopen flushed => let? st := storage_open false (st_replica_id st) flushed conf engine in Ok (st, engine)
  end.

(** ** The relation *)

(** From [c0] on the cache is the log; it reaches its end and holds
    everything that is not applied. *)
Definition cache_repr (c0 : Z) (cache : EntryCache) (log : RaftLog) : Prop :=
  consecutive c0 cache ∧ c0 + Z.of_nat (length cache) = lg_last log + 1 ∧ 0 ≤ c0 ≤ lg_applied log + 1 ∧
  drop (Z.to_nat (lg_first log - c0)) cache = drop (Z.to_nat (c0 - lg_first log)) (lg_entries log).

Definition region_repr (id : Z) (engine : LogEngine) (log : RaftLog) : Prop :=
  ∃ mt, engine !! id = Some mt ∧ mt_entries mt = lg_entries log ∧
    (lg_entries log ≠ [] → mt_first_index mt = lg_first log) ∧
    mt_kvs mt !! HARD_STATE_KEY = Some (encode_to_vec (lg_hard log)) ∧
    mt_kvs mt !! LOCAL_STATE_KEY = Some (encode_to_vec (mkRaftLocalState id (Some (lg_truncated log)))).

Definition storage_repr (s : Storage * LogEngine) (log : RaftLog) : Prop :=
  st_first_index s.1 = lg_first log ∧ st_last_index s.1 = lg_last log ∧
  st_local_state s.1 = mkRaftLocalState (st_replica_id s.1) (Some (lg_truncated log)) ∧
  st_hard_state s.1 = lg_hard log ∧ (∃ c0, cache_repr c0 (st_cache s.1) log) ∧
  region_repr (st_replica_id s.1) s.2 log.

(** ** Lists of entries *)
Lemma consecutive_nil from : consecutive from [].
Proof. intros j e. by rewrite lookup_nil. Qed.

Lemma consecutive_app from l1 l2 :
  consecutive from l1 → consecutive (from + Z.of_nat (length l1)) l2 → consecutive from (l1 ++ l2).
Proof.
  intros H1 H2 j e [Hj|[Hj He]]%lookup_app_Some; [by apply H1|].
  apply H2 in He. lia.
Qed.

Lemma consecutive_take from n l : consecutive from l → consecutive from (take n l).
Proof. intros Hl j e [Hj _]%lookup_take_Some. by apply Hl. Qed.

Lemma consecutive_drop from n l :
  consecutive from l → consecutive (from + Z.of_nat n) (drop n l).
Proof. intros Hl j e. rewrite lookup_drop. intros Hj%Hl. lia. Qed.

Lemma consecutive_head from l e : consecutive from l → head l = Some e → e_index e = from.
Proof. intros Hl He. rewrite head_lookup in He. apply Hl in He. lia. Qed.

Lemma consecutive_last from l e :
  consecutive from l → last l = Some e → e_index e = from + Z.of_nat (length l) - 1.
Proof.
  intros Hl He. rewrite last_lookup in He. pose proof (lookup_lt_Some _ _ _ He). apply Hl in He. lia.
Qed.

Lemma total_len_nonneg l : 0 ≤ total_len l.
Proof. unfold total_len. lia. Qed.

Lemma total_len_app l1 l2 : total_len (l1 ++ l2) = total_len l1 + total_len l2.
Proof. unfold total_len. rewrite sum_list_with_app. lia. Qed.

Lemma total_len_drop n l : total_len (drop n l) ≤ total_len l.
Proof. rewrite <-(take_drop n l) at 2. rewrite total_len_app. pose proof (total_len_nonneg (take n l)). lia. Qed.

Lemma total_len_take n l : total_len (take n l) ≤ total_len l.
Proof. rewrite <-(take_drop n l) at 2. rewrite total_len_app. pose proof (total_len_nonneg (drop n l)). lia. Qed.

Lemma cache_first c0 cache : consecutive c0 cache →
  cache_first_index cache = if decide (cache = []) then None else Some c0.
Proof.
  intros Hc. unfold cache_first_index. case_decide as E; [by subst|].
  destruct cache as [|e l]; [done|]. cbn. f_equal. by apply (consecutive_head _ _ _ Hc).
Qed.

(** ** Reading *)
Lemma mt_fetch_loop_prefix m t l : mt_fetch_loop m t l `prefix_of` l.
Proof.
  revert t. induction l as [|e l IH]; intros t; cbn; [done|].
  destruct (match m with Some _ => _ | None => _ end); [apply prefix_nil|]. apply prefix_cons, IH.
Qed.

Lemma mt_fetch_loop_some m l : l ≠ [] → mt_fetch_loop m 0 l ≠ [].
Proof.
  destruct l as [|e l]; [done|]. intros _. cbn [mt_fetch_loop].
  rewrite Z.add_0_l, Z.mod_mod by done.
  destruct m; [|done]. by rewrite Z.ltb_irrefl, andb_false_r.
Qed.

Lemma mt_fetch_loop_all m t l :
  match m with Some m => 2 ^ 32 ≤ m | None => True end → mt_fetch_loop m t l = l.
Proof.
  intros Hm. revert t. induction l as [|e l IH]; intros t; cbn; [done|].
  destruct m as [m|]; [|by rewrite IH].
  assert ((m <? (t + entry_len e mod 2 ^ 32) mod 2 ^ 32) = false) as ->; [|cbn; by rewrite IH].
  apply Z.ltb_ge. pose proof (Z.mod_pos_bound (t + entry_len e mod 2 ^ 32) (2 ^ 32)). lia.
Qed.

Lemma cache_fit_le s m l : (cache_fit s m l ≤ length l)%nat.
Proof. revert s. induction l as [|e l IH]; intros s; cbn; [done|]. case_match; [|lia]. specialize (IH (s + entry_len e)). lia. Qed.

Lemma cache_fit_all s m l : s + total_len l ≤ m → cache_fit s m l = length l.
Proof.
  revert s. induction l as [|e l IH]; intros s Hs; cbn; [done|].
  unfold total_len in *. cbn in Hs. unfold entry_len.
  rewrite (proj2 (Z.leb_le _ _)) by lia. f_equal. apply IH. lia.
Qed.

(** A fetch from the cache is a non-empty part of the window, and all of it
    when it fits. *)
Lemma cache_fetch_spec {E} c0 cache begin end_ m :
  consecutive c0 cache → c0 ≤ begin < end_ → end_ ≤ c0 + Z.of_nat (length cache) →
  ∃ es, cache_fetch_entries_to (E := E) cache begin end_ m = Ok es ∧
    es `prefix_of` take (Z.to_nat (end_ - begin)) (drop (Z.to_nat (begin - c0)) cache) ∧ es ≠ [] ∧
    (total_len (take (Z.to_nat (end_ - begin)) (drop (Z.to_nat (begin - c0)) cache)) ≤ m →
     es = take (Z.to_nat (end_ - begin)) (drop (Z.to_nat (begin - c0)) cache)).
Proof.
  intros Hc Hb He. unfold cache_fetch_entries_to.
  rewrite (proj2 (Z.leb_gt _ _)) by lia.
  rewrite (cache_first c0) by done. rewrite decide_False by (intros ->; cbn in *; lia). cbn [expect result_bind].
  unfold checked_sub. rewrite (proj2 (Z.leb_le _ _)) by lia. cbn [expect result_bind].
  set (w := take (Z.to_nat (end_ - begin)) (drop (Z.to_nat (begin - c0)) cache)).
  assert (length w = Z.to_nat (end_ - begin)) as Hw by (unfold w; rewrite length_take, length_drop; lia).
  rewrite (decide_True (P := (0 < length w)%nat)) by lia. rewrite (decide_False (P := (length cache < _)%nat)) by lia.
  eexists. split; [done|]. split; [apply prefix_take|]. split.
  - intros Hn%(f_equal length). rewrite length_take in Hn. cbn in Hn.
    case_decide; [lia|]. pose proof (cache_fit_le 0 m w). lia.
  - intros Hm. rewrite cache_fit_all by lia. case_decide; [lia|]. by rewrite take_ge.
Qed.

Lemma slice_length log low high :
  lg_first log ≤ low ≤ high → high ≤ lg_last log + 1 → length (slice log low high) = Z.to_nat (high - low).
Proof. unfold slice, lg_first, lg_last. intros. rewrite length_take, length_drop. lia. Qed.

Lemma slice_app log low mid high :
  lg_first log ≤ low ≤ mid → mid ≤ high → slice log low mid ++ slice log mid high = slice log low high.
Proof.
  intros Hl Hm. unfold slice.
  replace (Z.to_nat (high - low)) with (Z.to_nat (mid - low) + Z.to_nat (high - mid))%nat by lia.
  rewrite <-(take_take_drop _ (Z.to_nat (mid - low))). f_equal.
  rewrite drop_drop. do 2 f_equal. lia.
Qed.

Lemma slice_total log low high : log_ok log → total_len (slice log low high) ≤ u64_MAX.
Proof.
  intros (_ & _ & _ & _ & Ht). unfold slice. etrans; [apply total_len_take|].
  etrans; [apply total_len_drop|done].
Qed.

(** The window of the cache is the slice of the log. *)
Lemma cache_slice c0 cache log low high :
  cache_repr c0 cache log → lg_first log ≤ low → c0 ≤ low →
  take (Z.to_nat (high - low)) (drop (Z.to_nat (low - c0)) cache) = slice log low high.
Proof.
  intros (Hc & Hlen & Hb & Heq) Hl Hc0. unfold slice. f_equal.
  replace (Z.to_nat (low - c0)) with (Z.to_nat (lg_first log - c0) + Z.to_nat (low - Z.max c0 (lg_first log)))%nat by lia.
  rewrite <-drop_drop, Heq, drop_drop. f_equal. lia.
Qed.

Lemma region_fetch id engine log low high m :
  region_repr id engine log → lg_first log ≤ low < high → high ≤ lg_last log + 1 →
  engine_fetch_entries_to engine id low high m = Ok (mt_fetch_loop m 0 (slice log low high)).
Proof.
  intros (mt & Hmt & He & Hf & _) Hl Hh. unfold engine_fetch_entries_to, mt_fetch_entries_to, slice.
  rewrite Hmt, He. unfold lg_last, lg_first in *.
  assert (lg_entries log ≠ []) as Hne by (intros E; rewrite E in *; cbn in *; lia).
  rewrite (Hf Hne).
  zbool. done.
Qed.

Lemma repr_truncated s log : storage_repr s log →
  truncated_index s.1 = ei_index (lg_truncated log) ∧ truncated_term s.1 = ei_term (lg_truncated log).
Proof.
  intros (_ & _ & Hl & _). unfold truncated_index, truncated_term, last_truncated_entry_id. by rewrite Hl.
Qed.

Lemma check_range_spec s log low high : storage_repr s log →
  low ≤ high → high ≤ lg_last log + 1 →
  check_range s.1 low high = if low <=? ei_index (lg_truncated log) then Err Compacted else Ok tt.
Proof.
  intros Hr Hl Hh. destruct (repr_truncated _ _ Hr) as [Ht _]. destruct Hr as (_ & Hlast & _).
  unfold check_range. rewrite Hlast, Ht.
  by rewrite (proj2 (Z.ltb_ge _ _)), (proj2 (Z.ltb_ge _ _)) by lia.
Qed.

Lemma data_len_total l : Z.of_nat (sum_list_with (λ e, length (e_data e)) l) ≤ total_len l.
Proof. unfold total_len. induction l as [|e l IH]; cbn; lia. Qed.

Lemma prefix_length_eq {A} (l1 l2 : list A) : l1 `prefix_of` l2 → (length l2 ≤ length l1)%nat → l1 = l2.
Proof. intros [k ->] Hl. rewrite length_app in Hl. destruct k; [by rewrite app_nil_r|cbn in Hl; lia]. Qed.

(** What the cache adds to the entries before it. *)
Lemma entries_cached c0 cache log low high mx :
  cache_repr c0 cache log → log_ok log → lg_first log ≤ low → c0 ≤ Z.max low c0 < high → high ≤ lg_last log + 1 →
  let pre := slice log low (Z.max low c0) in
  ∃ cached, cache_fetch_entries_to (E := StorageError) cache (Z.max low c0) high
      (Z.max 0 (mx - Z.of_nat (sum_list_with (λ e, length (e_data e)) pre))) = Ok cached ∧
    pre ++ cached `prefix_of` slice log low high ∧ cached ≠ [] ∧
    (mx = u64_MAX → pre ++ cached = slice log low high).
Proof.
  intros Hcr Hok Hl Hb Hh pre. pose proof Hcr as (Hc & Hlen & _).
  destruct (cache_fetch_spec (E := StorageError) c0 cache (Z.max low c0) high
    (Z.max 0 (mx - Z.of_nat (sum_list_with (λ e, length (e_data e)) pre)))) as (es & He & Hp & Hn & Hall);
    [done|lia..|].
  rewrite (cache_slice c0 cache log) in Hp, Hall by (done || lia).
  pose proof (slice_app log low (Z.max low c0) high ltac:(lia) ltac:(lia)) as Happ. fold pre in Happ.
  exists es. split; [done|]. split; [rewrite <-Happ; by apply prefix_app|]. split; [done|].
  intros ->. rewrite Hall; [done|].
  pose proof (slice_total log low high Hok) as Ht. rewrite <-Happ, total_len_app in Ht.
  pose proof (data_len_total pre). pose proof (total_len_nonneg (slice log (Z.max low c0) high)). lia.
Qed.

(** [entries] answers with a part of the log, all of it without a limit. *)
Lemma entries_spec s log low high m :
  storage_repr s log → log_ok log → lg_first log ≤ low ≤ high → high ≤ lg_last log + 1 →
  ∃ es, storage_entries s.1 s.2 low high m = Ok es ∧ es `prefix_of` slice log low high ∧
    (low < high → es ≠ []) ∧ (m = None → es = slice log low high).
Proof.
  intros Hr Hok Hl Hh. unfold storage_entries.
  rewrite (check_range_spec _ _ _ _ Hr) by lia.
  rewrite (proj2 (Z.leb_gt _ _)) by (unfold lg_first in *; lia). cbn [result_bind].
  destruct (Z.eqb_spec low high) as [->|Hne].
  { exists []. split; [done|]. unfold slice. rewrite Z.sub_diag. cbn. split; [done|]. split; [lia|done]. }
  destruct Hr as (_ & _ & _ & _ & (c0 & Hcr) & Hreg).
  pose proof Hcr as (Hc & Hlen & Hb & _). pose proof Hok as (H0 & _ & Happ & Hmax & _).
  rewrite (cache_first c0) by done.
  assert (m = None → default u64_MAX m = u64_MAX) as Hnone by (by intros ->).
  set (mx := default u64_MAX m) in *. set (cl := default u64_MAX _).
  assert (Hcl : (st_cache s.1 = [] ∧ cl = u64_MAX ∧ c0 = lg_last log + 1) ∨ cl = c0).
  { unfold cl. case_decide as E; [left|by right]. rewrite E in Hlen. cbn in Hlen. split_and!; [done..|lia]. }
  destruct (Z.ltb_spec low cl) as [Hlt|Hge].
  - assert (Hmin : low < Z.min cl high) by lia.
    rewrite (region_fetch _ _ log) by (done || lia). cbn [store_result result_map_err result_bind].
    pose proof (mt_fetch_loop_prefix (Some mx) 0 (slice log low (Z.min cl high))) as Hp.
    pose proof (mt_fetch_loop_some (Some mx) (slice log low (Z.min cl high))) as Hsome.
    pose proof (mt_fetch_loop_all (Some mx) 0 (slice log low (Z.min cl high))) as Hall.
    set (p := mt_fetch_loop _ _ _) in *.
    pose proof (slice_length log low (Z.min cl high) ltac:(lia) ltac:(lia)) as Hsl.
    assert (Hpn : p ≠ []) by (apply Hsome; intros E; rewrite E in Hsl; cbn in Hsl; lia).
    destruct (Z.ltb_spec (Z.of_nat (length p)) (Z.min cl high - low)) as [Hshort|Hfull].
    + exists p. split; [done|].
      rewrite <-(slice_app log low (Z.min cl high) high) by lia.
      split; [etrans; [exact Hp|by apply prefix_app_r]|]. split; [done|].
      intros Hm. rewrite Hnone in Hall by done. rewrite Hall in Hshort by done. lia.
    + apply prefix_length_eq in Hp; [|lia]. rewrite Hp.
      destruct (Z.ltb_spec cl high) as [Hch|Hch].
      * destruct Hcl as [(_ & -> & _)| Ecl]; [unfold lg_last, lg_first in *; lia|].
        rewrite Z.min_l by lia. rewrite Ecl in *.
        destruct (entries_cached c0 (st_cache s.1) log low high mx) as (cached & He & Hpre & Hn & Heq); [done|done|lia..|].
        rewrite Z.max_r in He, Hpre, Heq by lia. rewrite Z.max_r, He by lia. cbn [result_bind].
        exists (slice log low c0 ++ cached). split; [done|]. split; [done|].
        split; [by destruct cached, (slice log low c0)|]. auto.
      * rewrite Z.min_r by lia. exists (slice log low high). split; [done|]. split; [done|].
        split; [|done]. intros _. by rewrite Z.min_r in Hp by lia; rewrite <-Hp.
  - destruct Hcl as [(_ & Ecl & _)| Ecl]; [unfold lg_last, lg_first in *; lia|]. rewrite Ecl in *.
    rewrite (proj2 (Z.ltb_lt c0 high)) by lia.
    destruct (entries_cached c0 (st_cache s.1) log low high mx) as (cached & He & Hpre & Hn & Heq); [done|done|lia..|].
    assert (slice log low (Z.max low c0) = []) as Hnil.
    { unfold slice. rewrite Z.max_l by lia. by rewrite Z.sub_diag. }
    rewrite Hnil in He, Hpre, Heq. cbn [sum_list_with] in *. rewrite He. cbn [result_bind app].
    exists cached. split; [done|]. split; [done|]. split; [done|]. auto.
Qed.

(** [term] answers for the truncation point and every entry behind it. *)
Lemma term_spec s log i :
  storage_repr s log → log_ok log → ei_index (lg_truncated log) ≤ i ≤ lg_last log →
  storage_term s.1 s.2 i =
    Ok (if i =? ei_index (lg_truncated log) then ei_term (lg_truncated log) else term_at log i).
Proof.
  intros Hr Hok Hi. unfold storage_term. destruct (repr_truncated _ _ Hr) as [-> ->].
  destruct (Z.eqb_spec i (ei_index (lg_truncated log))) as [->|Hne]; [done|].
  rewrite (check_range_spec _ _ _ _ Hr) by lia. zbool. cbn [result_bind].
  destruct Hr as (_ & _ & _ & _ & (c0 & Hcr) & Hreg).
  pose proof Hcr as (Hc & Hlen & Hb & Heq). unfold term_at.
  destruct (lookup_lt_is_Some_2 (lg_entries log) (Z.to_nat (i - lg_first log))) as [e He].
  { unfold lg_last, lg_first in *. lia. }
  rewrite He. cbn [from_option fmap option_fmap option_map].
  unfold cache_entry. rewrite (cache_first c0) by done.
  assert (negb (default false ((λ fi : Z, fi <=? i) <$> (if decide (st_cache s.1 = []) then None else Some c0)))
    = (i <? c0)) as ->.
  { case_decide as E; cbn; [|by rewrite Z.leb_antisym, negb_involutive].
    rewrite E in Hlen. cbn in Hlen. symmetry. apply Z.ltb_lt. lia. }
  destruct (Z.ltb_spec i c0) as [Hlt|Hge].
  - destruct Hreg as (mt & Hmt & Hent & Hfirst & _).
    unfold engine_get_entry. rewrite Hmt. cbn [mbind option_bind]. unfold mt_get_entry, mt_span.
    pose proof (lookup_lt_Some _ _ _ He) as Hl. rewrite Hent. rewrite decide_True by lia.
    rewrite Hfirst by (intros E; rewrite E in Hl; cbn in Hl; lia). unfold lg_last, lg_first in *. zbool. cbn [orb].
    by rewrite He.
  - rewrite decide_False by (intros E; rewrite E in Hlen; cbn in Hlen; lia). cbn [from_option]. zbool.
    assert (st_cache s.1 !! Z.to_nat (i - c0) = Some e) as ->; [|done].
    rewrite <-He.
    replace (Z.to_nat (i - c0)) with (Z.to_nat (lg_first log - c0) + Z.to_nat (i - Z.max c0 (lg_first log)))%nat
      by (unfold lg_first in *; lia).
    rewrite <-lookup_drop, Heq, lookup_drop. f_equal. unfold lg_first in *. lia.
Qed.

(** ** Writing *)
Lemma drop_take_app {A} n m (l k : list A) :
  (n ≤ m ≤ length l)%nat → drop n (take m l ++ k) = take (m - n) (drop n l) ++ k.
Proof.
  intros Hn. rewrite drop_app_le by (rewrite length_take; lia). f_equal.
  rewrite take_drop_commute. do 2 f_equal. lia.
Qed.

Lemma cache_append_spec {E} c0 cache log es e0 :
  cache_repr c0 cache log → head es = Some e0 → consecutive (e_index e0) es →
  lg_applied log < e_index e0 ≤ lg_last log + 1 →
  cache_append (E := E) cache es = Ok (take (Z.to_nat (e_index e0 - c0)) cache ++ es).
Proof.
  intros (Hc & Hlen & Hb & _) Hh Hes Hf. destruct es as [|e es]; [done|]. injection Hh as ->.
  unfold cache_append. destruct (last cache) as [el|] eqn:El; cbn [fmap option_fmap option_map].
  - rewrite (consecutive_last _ _ _ Hc El).
    destruct (Z.leb_spec (e_index e0) (c0 + Z.of_nat (length cache) - 1)); cbn [result_bind].
    + unfold checked_sub. rewrite (proj2 (Z.leb_le _ _)) by lia. cbn [from_option]. unfold id. do 3 f_equal. f_equal. lia.
    + zbool. cbn [result_bind]. by rewrite take_ge by lia.
  - apply last_None in El as ->. cbn in *. by rewrite take_nil.
Qed.

Lemma mt_append_spec mt log es e0 :
  mt_entries mt = lg_entries log → (lg_entries log ≠ [] → mt_first_index mt = lg_first log) →
  head es = Some e0 → lg_first log ≤ e_index e0 ≤ lg_last log + 1 →
  ∃ mt', mt_append mt es = Ok mt' ∧ mt_first_index mt' = lg_first log ∧
    mt_entries mt' = take (Z.to_nat (e_index e0 - lg_first log)) (lg_entries log) ++ es ∧ mt_kvs mt' = mt_kvs mt.
Proof.
  intros He Hf Hh Hr. destruct es as [|e es]; [done|]. injection Hh as ->.
  unfold mt_append, mt_prepare_append, mt_span. rewrite He. unfold lg_first, lg_last in *.
  destruct (lg_entries log) as [|x l] eqn:El; cbn [length] in *.
  - rewrite decide_False by lia. cbn [result_bind]. eexists. split; [done|]. cbn. rewrite ?He, take_nil.
    split_and!; [lia|done..].
  - rewrite decide_True by lia. rewrite (Hf ltac:(done)).
    zbool. destruct (Z.eqb_spec (e_index e0)
      (ei_index (lg_truncated log) + 1 + Z.of_nat (S (length l)) - 1 + 1)); cbn [negb result_bind];
      eexists; (split; [done|]); cbn [mt_first_index mt_entries mt_kvs mt_truncate_back]; rewrite ?He, ?(Hf ltac:(done)).
    + rewrite take_ge by (cbn; lia). done.
    + done.
Qed.

(** *** A batch on one region *)
Lemma write_put engine id mt k v rest :
  engine !! id = Some mt →
  engine_write engine (ItemPut id k v :: rest) = engine_write (<[id := mt_put mt k v]> engine) rest.
Proof. intros Hmt. cbn. unfold get_or_insert. by rewrite Hmt. Qed.

Lemma write_put_fresh engine id k v rest :
  engine !! id = None →
  engine_write engine (ItemPut id k v :: rest) = engine_write (<[id := mt_put MemTable_new k v]> engine) rest.
Proof. intros Hmt. cbn. unfold get_or_insert. by rewrite Hmt. Qed.

Lemma keys_differ : HARD_STATE_KEY ≠ LOCAL_STATE_KEY.
Proof. vm_compute. discriminate. Qed.

(** The hard state of a task goes first. *)
Lemma write_hard_state id engine log hs rest :
  region_repr id engine log →
  ∃ engine', engine_write engine (match hs with
      | Some hs => batch_put_message [] id HARD_STATE_KEY hs | None => [] end ++ rest) = engine_write engine' rest ∧
    region_repr id engine' (mkRaftLog (lg_truncated log) (lg_entries log) (lg_applied log) (default (lg_hard log) hs)).
Proof.
  intros (mt & Hmt & He & Hf & Hh & Hl). destruct hs as [hs|]; cbn [from_option].
  - cbn [batch_put_message app]. rewrite (write_put _ _ mt) by done.
    eexists. split; [done|]. eexists. split; [apply lookup_insert_eq|].
    cbn [mt_put mt_entries mt_first_index mt_kvs lg_entries lg_truncated lg_hard].
    split; [done|]. split; [done|]. rewrite lookup_insert_eq.
    split; [done|]. rewrite lookup_insert_ne by apply keys_differ. done.
  - exists engine. split; [done|]. by exists mt.
Qed.

Lemma batch_of_task (id : Z) (hs : option HardState) (st : Storage) :
  match hs with
  | Some hs => (set_hard_state st hs, batch_put_message [] id HARD_STATE_KEY hs)
  | None => (st, [])
  end = (set_hard_state st (default (st_hard_state st) hs),
         match hs with Some hs => batch_put_message [] id HARD_STATE_KEY hs | None => [] end).
Proof. by destruct hs, st. Qed.

Lemma cache_repr_append c0 cache log task e0 :
  cache_repr c0 cache log → head (wt_entries task) = Some e0 → wt_snapshot task = None →
  consecutive (e_index e0) (wt_entries task) → ei_index (lg_truncated log) ≤ lg_applied log →
  lg_applied log < e_index e0 ≤ lg_last log + 1 →
  cache_repr c0 (take (Z.to_nat (e_index e0 - c0)) cache ++ wt_entries task) (spec_op log (LWrite task)).
Proof.
  intros (Hc & Hlen & Hb & Heq) Hh Hs Hes Ha Hf. cbn [spec_op]. rewrite Hs.
  destruct (wt_entries task) as [|e es] eqn:Et; [done|]. injection Hh as ->.
  unfold cache_repr, lg_first, lg_last in *. cbn [lg_truncated lg_entries lg_applied].
  split_and!; [|rewrite !length_app, !length_take; lia|lia|lia|].
  - apply consecutive_app; [by apply consecutive_take|]. rewrite length_take.
    replace (c0 + Z.of_nat _) with (e_index e0) by lia. done.
  - rewrite !drop_take_app by lia. rewrite Heq. do 2 f_equal. lia.
Qed.

Lemma write_ok conf s log task :
  storage_repr s log → log_ok log → op_ok log (LWrite task) →
  ∃ s', run_op conf s (LWrite task) = Ok s' ∧ storage_repr s' (spec_op log (LWrite task)) ∧
    st_replica_id s'.1 = st_replica_id s.1.
Proof.
  destruct s as [st engine]. intros (Hfirst & Hlast & Hlocal & Hhard & (c0 & Hcr) & Hreg) Hok Hop.
  cbn [fst snd] in *. destruct Hok as (H0 & Hcons & Happ & Hmax & Htot).
  cbn [run_op]. unfold storage_write. rewrite batch_of_task.
  cbn [op_ok spec_op] in *. destruct (wt_snapshot task) as [snap|] eqn:Es.
  - destruct (wt_entries task) eqn:Et; [|done]. rewrite bool_decide_eq_true_2 by done. cbn [negb result_bind].
    unfold batch_put_message at 1 2. rewrite <-!app_assoc. cbn [app].
    destruct (write_hard_state _ _ _ (wt_hard_state task) [ItemClean (st_replica_id st);
      ItemPut (st_replica_id st) LOCAL_STATE_KEY (encode_to_vec (mkRaftLocalState (st_replica_id st)
        (Some (mkEntryId (sm_index (sn_get_metadata snap)) (sm_term (sn_get_metadata snap))))));
      ItemPut (st_replica_id st) HARD_STATE_KEY (encode_to_vec (set_commit (default (lg_hard log) (wt_hard_state task))
        (sm_index (sn_get_metadata snap))))] Hreg) as (engine' & Hw & _).
    cbn [set_hard_state st_replica_id st_hard_state st_initial_conf_state st_create_snapshot st_is_creating_snapshot].
    rewrite Hhard, Hw. cbn [engine_write apply_item result_bind]. unfold get_or_insert.
    rewrite lookup_delete_eq. cbn [from_option]; unfold id. rewrite lookup_insert_eq. cbn [from_option]; unfold id.
    eexists. split; [done|]. split; [|done].
    unfold storage_repr, cache_repr, region_repr, lg_first, lg_last.
    cbn [fst snd st_first_index st_last_index st_local_state st_hard_state st_cache st_replica_id
         lg_truncated lg_entries lg_applied lg_hard ei_index length].
    split_and!; [lia|lia|done|done| |].
    + exists (sm_index (sn_get_metadata snap) + 1). split; [apply consecutive_nil|].
      split; [cbn; lia|]. split; [lia|]. by rewrite !drop_nil.
    + eexists. split; [apply lookup_insert_eq|]. cbn [mt_put mt_entries mt_kvs MemTable_new].
      split; [done|]. split; [done|]. rewrite lookup_insert_eq. split; [done|].
      rewrite lookup_insert_ne by apply keys_differ. by rewrite lookup_insert_eq.
  - destruct (wt_entries task) as [|e0 es] eqn:Et.
    + cbn [last]. cbn [result_bind].
      destruct (write_hard_state _ _ _ (wt_hard_state task) [] Hreg) as (engine' & Hw & Hr').
      rewrite app_nil_r in Hw. rewrite Hw. cbn [engine_write engine_result result_map_err result_bind].
      eexists. split; [done|]. split; [|done].
      split_and!; [done..|cbn; by rewrite Hhard|by exists c0|done].
    + destruct Hop as (Hes & Hf & Hmx & Ht). rewrite <-Et in *.
      assert (head (wt_entries task) = Some e0) as Hh by (by rewrite Et).
      destruct (last (wt_entries task)) as [el|] eqn:El; [|apply last_None in El; rewrite El in Et; done].
      cbn [set_hard_state st_cache st_replica_id st_first_index st_local_state st_hard_state
           st_initial_conf_state st_create_snapshot st_is_creating_snapshot].
      rewrite (cache_append_spec c0 _ log _ e0) by done. cbn [result_bind].
      destruct (write_hard_state _ _ _ (wt_hard_state task) [ItemEntries (st_replica_id st) (wt_entries task)] Hreg)
        as (engine' & Hw & (mt & Hmt & He & Hfi & Hhs & Hls)). cbn [lg_entries lg_truncated lg_hard] in *.
      assert (batch_add_entries (match wt_hard_state task with
          | Some hs => batch_put_message [] (st_replica_id st) HARD_STATE_KEY hs | None => [] end)
          (st_replica_id st) (wt_entries task) =
        match wt_hard_state task with
          | Some hs => batch_put_message [] (st_replica_id st) HARD_STATE_KEY hs | None => [] end
          ++ [ItemEntries (st_replica_id st) (wt_entries task)]) as ->.
      { unfold batch_add_entries. by rewrite Et. }
      rewrite Hw. cbn [engine_write apply_item]. unfold get_or_insert. rewrite Hmt. cbn [from_option]; unfold id.
      destruct (mt_append_spec mt log (wt_entries task) e0) as (mt' & Hmt' & Hf' & He' & Hk'); [done..| |].
      { unfold lg_first, lg_last in *. lia. }
      rewrite Hmt'. cbn [result_bind engine_result result_map_err].
      eexists. split; [done|]. split; [|done].
      pose proof (cache_repr_append c0 _ log task e0 Hcr Hh Es Hes ltac:(lia) Hf) as Hcr'.
      cbn [spec_op] in Hcr'. rewrite Es, Et in Hcr'. rewrite <-Et in Hcr'.
      unfold storage_repr, region_repr, lg_first, lg_last in *.
      cbn [fst snd st_first_index st_last_index st_local_state st_hard_state st_cache st_replica_id
           lg_truncated lg_entries lg_applied lg_hard] in *.
      split_and!; [done| |done|by rewrite Hhard|by exists c0|].
      * rewrite (consecutive_last _ _ _ Hes El), length_app, length_take. lia.
      * exists mt'. split; [apply lookup_insert_eq|]. rewrite Hk'. done.
Qed.

Lemma applied_ok conf s log i :
  storage_repr s log → log_ok log → op_ok log (LApplied i) →
  ∃ s', run_op conf s (LApplied i) = Ok s' ∧ storage_repr s' (spec_op log (LApplied i)) ∧
    st_replica_id s'.1 = st_replica_id s.1.
Proof.
  destruct s as [st engine]. intros (Hfirst & Hlast & Hlocal & Hhard & (c0 & Hc & Hlen & Hb & Heq) & Hreg) Hok Hi.
  cbn [fst snd op_ok] in *. cbn [run_op]. unfold post_apply, cache_drains_to. rewrite (cache_first c0) by done.
  rewrite decide_False by (intros E; rewrite E in Hlen; cbn in Hlen; lia).
  unfold checked_sub. rewrite (proj2 (Z.leb_le _ _)) by lia. cbn [expect result_bind].
  assert (0 ≤ (i - c0) / 2 ≤ i - c0) as Hhalf.
  { split; [apply Z.div_pos; lia|]. apply Z.div_le_upper_bound; lia. }
  rewrite decide_False by lia. cbn [result_bind].
  eexists. split; [done|]. split; [|done]. split_and!; [done..| |done].
  exists (c0 + (i - c0) / 2). unfold cache_repr. cbn [set_cache st_cache fst spec_op lg_applied].
  unfold lg_first, lg_last in *. cbn [lg_truncated lg_entries].
  split_and!; [|rewrite length_drop; lia|lia|lia|].
  - replace (c0 + (i - c0) / 2) with (c0 + Z.of_nat (Z.to_nat ((i - c0) / 2))) by lia. by apply consecutive_drop.
  - set (h := (i - c0) / 2) in *. set (f := ei_index (lg_truncated log) + 1) in *.
    rewrite drop_drop.
    replace (Z.to_nat h + Z.to_nat (f - (c0 + h)))%nat
      with (Z.to_nat (f - c0) + Z.to_nat (c0 + h - Z.max c0 f))%nat by lia.
    rewrite <-drop_drop, Heq, drop_drop. f_equal. lia.
Qed.

Lemma cache_repr_compact c0 cache log to :
  cache_repr c0 cache log → lg_first log < to ≤ lg_last log + 1 → cache_repr c0 cache (spec_op log (LCompact to)).
Proof.
  intros (Hc & Hlen & Hb & Heq) Hto. unfold cache_repr, lg_first, lg_last in *.
  cbn [spec_op lg_truncated lg_entries lg_applied ei_index]. unfold lg_first in *.
  split_and!; [done|rewrite length_drop; lia|lia|lia|].
  set (f := ei_index (lg_truncated log) + 1) in *.
  replace (Z.to_nat (to - 1 + 1 - c0)) with (Z.to_nat (f - c0) + Z.to_nat (to - Z.max c0 f))%nat by lia.
  rewrite <-drop_drop, Heq, !drop_drop. f_equal. lia.
Qed.

(** The term the compaction records is the one of the last entry it drops. *)
Lemma compact_term s log to : storage_repr s log → log_ok log → lg_first log < to ≤ lg_last log + 1 →
  storage_term (mkStorage (st_replica_id s.1) to (st_last_index s.1) (st_cache s.1) (st_local_state s.1)
    (st_hard_state s.1) (st_initial_conf_state s.1) (st_create_snapshot s.1) (st_is_creating_snapshot s.1)) s.2 (to - 1)
  = Ok (term_at log (to - 1)).
Proof.
  intros Hr Hok Hto. pose proof (term_spec s log (to - 1) Hr Hok) as Ht.
  unfold lg_first in *. rewrite (proj2 (Z.eqb_neq _ _)) in Ht by lia.
  destruct s as [st engine]. apply Ht. lia.
Qed.

Lemma compact_ok conf s log to :
  storage_repr s log → log_ok log → op_ok log (LCompact to) →
  ∃ s', run_op conf s (LCompact to) = Ok s' ∧ storage_repr s' (spec_op log (LCompact to)) ∧
    st_replica_id s'.1 = st_replica_id s.1.
Proof.
  intros Hr Hok [Hto Hcommit]. pose proof Hok as (H0 & _ & Happ & _ & _).
  pose proof (compact_term s log to Hr Hok ltac:(lia)) as Hterm.
  destruct s as [st engine].
  destruct Hr as (Hfirst & Hlast & Hlocal & Hhard & (c0 & Hcr) & (mt & Hmt & He & Hf & Hh & Hl)).
  cbn [fst snd] in *. cbn [run_op]. unfold storage_compact_to, checked_sub.
  unfold lg_first in Hto. rewrite (proj2 (Z.leb_le 1 to)) by lia. cbn [expect result_bind].
  rewrite Hterm. cbn [result_bind st_hard_state st_first_index]. rewrite Hhard.
  rewrite (proj2 (Z.ltb_ge _ _)) by lia.
  unfold batch_put_message. cbn [app engine_write apply_item result_bind]. unfold get_or_insert. rewrite Hmt.
  cbn [from_option]; unfold id. rewrite lookup_insert_eq. cbn [engine_result result_map_err result_bind].
  eexists. split; [done|]. split; [|done].
  pose proof (cache_repr_compact c0 _ log to Hcr ltac:(unfold lg_first; lia)) as Hcr'.
  unfold storage_repr, region_repr.
  cbn [fst snd st_first_index st_last_index st_local_state st_hard_state st_cache st_replica_id].
  split_and!; [| |done|done|by exists c0|].
  - unfold lg_first. cbn. lia.
  - rewrite Hlast. unfold lg_last, lg_first in *. cbn [spec_op lg_truncated lg_entries ei_index].
    unfold lg_first. rewrite length_drop. lia.
  - eexists. split; [apply lookup_insert_eq|]. unfold id. cbn [from_option mt_put mt_entries mt_first_index mt_kvs].
    unfold mt_compact_to. assert (lg_entries log ≠ []) as Hne.
    { intros E. unfold lg_last in *. rewrite E in *. cbn in *. lia. }
    rewrite bool_decide_eq_false_2 by (by rewrite He). rewrite (Hf Hne).
    rewrite (proj2 (Z.leb_gt to (lg_first log))) by (unfold lg_first; lia).
    cbn [mt_entries mt_first_index mt_kvs spec_op lg_entries lg_truncated lg_hard].
    rewrite He. unfold lg_first, lg_last in *. cbn [lg_truncated ei_index].
    split; [f_equal; lia|]. split; [lia|].
    split; [by rewrite lookup_insert_ne by (apply not_eq_sym, keys_differ)|]. by rewrite lookup_insert_eq.
Qed.

Lemma open_ok conf id engine log flushed :
  region_repr id engine log → log_ok log → op_ok log (LReopen flushed) →
  ∃ st, storage_open false id flushed conf engine = Ok st ∧
    storage_repr (st, engine) (spec_op log (LReopen flushed)) ∧ st_replica_id st = id.
Proof.
  intros Hreg (H0 & Hcons & Happ & Hmax & Htot) Hfl.
  cbn [fst snd op_ok] in *. pose proof Hreg as (mt & Hmt & He & Hf & Hh & Hl).
  assert (Hgetm : ∀ A (C : Codec A) (Cok : CodecOk A) k (a : A), mt_kvs mt !! k = Some (encode_to_vec a) →
    engine_get_message A engine (id) k = Ok (Some a)).
  { intros A C Cok k a Hk. unfold engine_get_message. rewrite Hmt. cbn [mbind option_bind]. rewrite Hk.
    by rewrite decode_encode_msg. }
  unfold storage_open.
  rewrite (Hgetm _ _ _ _ _ Hh), (Hgetm _ _ _ _ _ Hl). cbn [engine_result result_map_err result_bind expect rl_last_truncated].
  assert (Hrange : (if default 1 (engine_first_index engine (id)) <=?
        default 0 (engine_last_index engine (id))
     then if negb (ei_index (lg_truncated log) + 1 =? default 1 (engine_first_index engine (id)))
       then Panic else Ok (default 1 (engine_first_index engine (id)),
                           default 0 (engine_last_index engine (id)))
     else Ok (ei_index (lg_truncated log) + 1, ei_index (lg_truncated log)))
    = Ok (E := Error) (lg_first log, lg_last log)).
  { unfold engine_first_index, engine_last_index, mt_last_index, mt_span. rewrite Hmt. cbn [mbind option_bind].
    rewrite He. unfold lg_first, lg_last in *. destruct (lg_entries log) as [|x l] eqn:El; cbn [length] in *.
    - rewrite decide_False by lia. cbn. do 2 f_equal. lia.
    - rewrite decide_True by lia. rewrite (Hf ltac:(done)). cbn [fmap option_fmap option_map fst snd from_option].
      unfold Datatypes.id. zbool. cbn [negb]. do 2 f_equal. lia. }
  rewrite Hrange. cbn [result_bind].
  assert (Hcache : (if flushed <? lg_last log then
      if negb (lg_first log <=? flushed + 1) then Panic
      else engine_result (engine_fetch_entries_to engine (id) (flushed + 1) (lg_last log + 1) None)
     else Ok []) = Ok (drop (Z.to_nat (flushed + 1 - lg_first log)) (lg_entries log))).
  { unfold lg_first, lg_last in *. destruct (Z.ltb_spec flushed
      (ei_index (lg_truncated log) + Z.of_nat (length (lg_entries log)))) as [Hlt|Hge].
    - zbool. cbn [negb]. rewrite (region_fetch _ _ log) by (done || unfold lg_first, lg_last; lia).
      rewrite mt_fetch_loop_all by done. unfold slice, lg_first. cbn.
      by rewrite take_ge by (rewrite length_drop; lia).
    - by rewrite drop_ge by lia. }
  cbn [andb]. rewrite Hcache. cbn [result_bind].
  eexists. split; [done|]. split; [|done].
  split_and!; [done..| |by exists mt].
  exists (flushed + 1). unfold cache_repr. cbn [fst st_cache spec_op lg_applied].
  unfold lg_first, lg_last in *. cbn [lg_truncated lg_entries].
  split_and!; [|rewrite length_drop; lia|lia|lia|].
  - pose proof (consecutive_drop _ (Z.to_nat (flushed + 1 - (ei_index (lg_truncated log) + 1))) _ Hcons) as Hd.
    unfold lg_first in Hd.
    by replace (ei_index (lg_truncated log) + 1 + Z.of_nat _) with (flushed + 1) in Hd by lia.
  - rewrite drop_drop. f_equal. lia.
Qed.

Lemma reopen_ok conf s log flushed :
  storage_repr s log → log_ok log → op_ok log (LReopen flushed) →
  ∃ s', run_op conf s (LReopen flushed) = Ok s' ∧ storage_repr s' (spec_op log (LReopen flushed)) ∧
    st_replica_id s'.1 = st_replica_id s.1.
Proof.
  destruct s as [st engine]. intros (_ & _ & _ & _ & _ & Hreg) Hok Hfl.
  destruct (open_ok conf _ _ log flushed Hreg Hok Hfl) as (st' & Ho & Hr & Hid).
  exists (st', engine). cbn [fst snd run_op] in *. by rewrite Ho.
Qed.

(** The log stays well formed. *)
Lemma spec_op_ok log op : log_ok log → op_ok log op → log_ok (spec_op log op).
Proof.
  intros (H0 & Hcons & Happ & Hmax & Htot) Hop. destruct op as [task|i|to|fl]; cbn [op_ok spec_op] in *.
  - destruct (wt_snapshot task) as [snap|]; destruct (wt_entries task) as [|e0 es] eqn:Et; try done.
    + unfold log_ok, lg_first, lg_last. cbn. split_and!; try lia; [apply consecutive_nil|].
      unfold total_len, u64_MAX. cbn. lia.
    + destruct Hop as (Hes & Hf & Hm & Ht). rewrite <-Et in *.
      unfold log_ok, lg_first, lg_last in *. cbn [lg_truncated lg_entries lg_applied lg_hard] in *.
      rewrite length_app, length_take.
      split_and!; try (done || lia). apply consecutive_app; [by apply consecutive_take|].
      rewrite length_take. by replace (ei_index (lg_truncated log) + 1 + Z.of_nat _) with (e_index e0) by lia.
  - unfold log_ok, lg_first, lg_last in *. cbn. split_and!; (done || lia).
  - destruct Hop as [Hto _]. unfold log_ok, lg_first, lg_last in *. cbn [lg_truncated lg_entries lg_applied ei_index].
    rewrite length_drop. split_and!; try lia.
    + pose proof (consecutive_drop _ (Z.to_nat (to - (ei_index (lg_truncated log) + 1))) _ Hcons) as Hd.
      unfold lg_first in *. by replace (_ + Z.of_nat _) with (to - 1 + 1) in Hd by lia.
    + etrans; [apply total_len_drop|done].
  - unfold log_ok, lg_first, lg_last in *. cbn. split_and!; (done || lia).
Qed.

Fixpoint run_ops (conf : ConfState) (s : Storage * LogEngine) (ops : list LogOp) : Result (Storage * LogEngine) :=
  match ops with
  | [] => Ok s
  | op :: ops' => let? s := run_op conf s op in run_ops conf s ops'
  end.
Fixpoint ops_ok (log : RaftLog) (ops : list LogOp) : Prop :=
  match ops with
  | [] => True
  | op :: ops' => op_ok log op ∧ ops_ok (spec_op log op) ops'
  end.

Lemma run_op_ok conf s log op :
  storage_repr s log → log_ok log → op_ok log op →
  ∃ s', run_op conf s op = Ok s' ∧ storage_repr s' (spec_op log op).
Proof.
  intros Hr Hok Hop.
  destruct op;
    [edestruct write_ok as (s' & ? & ? & _)|edestruct applied_ok as (s' & ? & ? & _)
    |edestruct compact_ok as (s' & ? & ? & _)|edestruct reopen_ok as (s' & ? & ? & _)];
    (done || (exists s'; split; [eassumption|done])).
Qed.

Lemma run_ops_ok conf s log ops :
  storage_repr s log → log_ok log → ops_ok log ops →
  ∃ s', run_ops conf s ops = Ok s' ∧ storage_repr s' (foldl spec_op log ops) ∧ log_ok (foldl spec_op log ops).
Proof.
  revert s log. induction ops as [|op ops IH]; intros s log Hr Hok Hops; [by exists s|].
  destruct Hops as [Hop Hops]. destruct (run_op_ok conf s log op Hr Hok Hop) as (s1 & H1 & Hr1).
  destruct (IH s1 (spec_op log op) Hr1 (spec_op_ok _ _ Hok Hop) Hops) as (s' & H' & Hr').
  exists s'. split; [|done]. cbn. by rewrite H1.
Qed.

(** C36: The raft storage is a log.  After any sequence of writes (hard states,
    entries that replace a conflicting tail, snapshots), applications,
    compactions and restarts that keeps to [op_ok], none of which panics or
    fails, the storage answers from the log those operations leave: its bounds;
    [entries] with the entries of the range in order, at least one of them and
    all of them when there is no limit, wherever the cache begins; [term] with
    the term of every entry and of the truncation point, and [Compacted] below
    it; and every entry that is not applied yet is in the cache.  The sequences
    are those in which applied entries are not rewritten and a snapshot comes
    alone, as raft has it, a replica restarts from an index between the
    truncation point and the applied one, and a compaction stays within the
    applied entries and, which the worker does not check, at or below the
    commit index that was last recorded: past it the local state is overwritten
    and a restart does not find the log ([compact_past_commit]). *)
Theorem raft_storage_refines conf s log ops :
  storage_repr s log → log_ok log → ops_ok log ops →
  ∃ s', run_ops conf s ops = Ok s' ∧
    let log' := foldl spec_op log ops in
    st_range s'.1 = (lg_first log', lg_last log' + 1) ∧ st_hard_state s'.1 = lg_hard log' ∧
    (∀ low high m, lg_first log' ≤ low ≤ high → high ≤ lg_last log' + 1 →
      ∃ es, storage_entries s'.1 s'.2 low high m = Ok es ∧ es `prefix_of` slice log' low high ∧
        (low < high → es ≠ []) ∧ (m = None → es = slice log' low high)) ∧
    (∀ i, ei_index (lg_truncated log') < i ≤ lg_last log' →
      storage_term s'.1 s'.2 i = Ok (term_at log' i)) ∧
    storage_term s'.1 s'.2 (ei_index (lg_truncated log')) = Ok (ei_term (lg_truncated log')) ∧
    (∀ i, i < ei_index (lg_truncated log') → storage_term s'.1 s'.2 i = Err Compacted) ∧
    (∀ i e, lg_applied log' < i → lg_entries log' !! Z.to_nat (i - lg_first log') = Some e → e ∈ st_cache s'.1).
Proof.
  intros Hr Hok Hops. destruct (run_ops_ok conf s log ops Hr Hok Hops) as (s' & Hs' & Hr' & Hok').
  exists s'. split; [done|]. intros log'. fold log' in Hr', Hok'.
  pose proof Hr' as (Hf & Hl & _ & Hh & (c0 & Hcr) & _). pose proof Hok' as (H0 & _ & Happ & _).
  split_and!; [unfold st_range; by rewrite Hf, Hl|done|intros; by apply entries_spec| | | |].
  - intros i Hi. rewrite (term_spec s' log') by (done || lia). by zbool.
  - rewrite (term_spec s' log') by (done || lia). by rewrite Z.eqb_refl.
  - intros i Hi. unfold storage_term. destruct (repr_truncated _ _ Hr') as [-> _]. zbool.
    rewrite (check_range_spec _ _ _ _ Hr') by lia. by zbool.
  - intros i e Hi He. destruct Hcr as (Hc & Hlen & Hb & Heq).
    apply (elem_of_sublist (drop (Z.to_nat (lg_first log' - c0)) (st_cache s'.1))); [|apply sublist_drop].
    rewrite Heq. apply (list_elem_of_lookup_2 _ (Z.to_nat (i - Z.max c0 (lg_first log')))).
    rewrite lookup_drop, <-He. f_equal. unfold lg_first in *. lia.
Qed.

(** ** Compacting past the recorded commit index *)

(** [compact_to] then writes the hard state under the key of the local state:
    a restart does not find the truncation point. *)
Lemma compact_past_commit s log to st' batch engine' :
  storage_repr s log → log_ok log → lg_first log < to ≤ lg_applied log → hs_commit (lg_hard log) < to →
  storage_compact_to s.1 s.2 to = Ok (st', batch) → engine_write s.2 batch = Ok engine' →
  ∃ mt, engine' !! st_replica_id s.1 = Some mt ∧
    mt_kvs mt !! LOCAL_STATE_KEY = Some (encode_to_vec (set_commit (lg_hard log) to)) ∧
    mt_kvs mt !! HARD_STATE_KEY = Some (encode_to_vec (lg_hard log)).
Proof.
  intros Hr Hok Hto Hc. pose proof Hok as (H0 & _ & Happ & _ & _).
  pose proof (compact_term s log to Hr Hok ltac:(lia)) as Hterm.
  destruct s as [st engine]. destruct Hr as (_ & _ & _ & Hhard & _ & (mt & Hmt & _ & _ & Hh & _)).
  cbn [fst snd] in *. unfold storage_compact_to, checked_sub. unfold lg_first in Hto.
  rewrite (proj2 (Z.leb_le 1 to)) by lia. cbn [expect result_bind].
  rewrite Hterm. cbn [result_bind st_hard_state st_first_index]. rewrite Hhard.
  rewrite (proj2 (Z.ltb_lt _ _)) by lia. unfold batch_put_message. cbn [app]. intros [= <- <-].
  cbn [engine_write apply_item result_bind]. unfold get_or_insert. rewrite Hmt.
  cbn [from_option]; unfold id. rewrite !lookup_insert_eq. cbn [from_option]; unfold id. intros [= <-].
  eexists. split; [apply lookup_insert_eq|]. cbn [mt_put mt_kvs].
  split; [by rewrite lookup_insert_eq|].
  rewrite !lookup_insert_ne by (apply not_eq_sym, keys_differ). unfold mt_compact_to.
  repeat case_match; done.
Qed.
End Props.

(** ** The first state *)
Section First.
  Context {CE : Codec Entry} {CH : Codec HardState} {CHok : CodecOk HardState}.
  Context {CL : Codec RaftLocalState} {CLok : CodecOk RaftLocalState}.
  Context `{Codec ChangeReplicas} `{Codec ConfChangeV2} `{Codec EvalResult}.

Lemma consecutive_cons from e l : e_index e = from → consecutive (from + 1) l → consecutive from (e :: l).
Proof.
  intros He Hl. apply (consecutive_app from [e]).
  - intros [|j] x Hj; [|done]. injection Hj as <-. lia.
  - by replace (from + Z.of_nat (length [e])) with (from + 1) by (cbn; lia).
Qed.

Lemma initial_conf_ok last replicas :
  ∃ es, initial_conf_entries last replicas = Ok es ∧ consecutive (last + 1) es ∧ length es = length replicas.
Proof.
  revert last. induction replicas as [|r replicas IH]; intros last; cbn [initial_conf_entries].
  { exists []. split; [done|]. split; [apply consecutive_nil|done]. }
  assert (∃ cc, encode_to_conf_change [initial_change r] = Ok cc) as [cc ->].
  { unfold encode_to_conf_change, initial_change. cbn. case_match; eexists; done. }
  cbn [result_bind]. destruct (IH (last + 1)) as (es & -> & Hc & Hlen). cbn [result_bind].
  eexists. split; [done|]. split; [by apply consecutive_cons|]. cbn. by f_equal.
Qed.

Lemma initial_eval_ok last results :
  consecutive (last + 1) (initial_eval_entries last results) ∧
  length (initial_eval_entries last results) = length results.
Proof.
  revert last. induction results as [|r l IH]; intros last; cbn; [split; [apply consecutive_nil|done]|].
  destruct (IH (last + 1)) as [Hc Hl]. split; [by apply consecutive_cons|by rewrite Hl].
Qed.

(** A new replica opens on the log of its first entries, none of them applied. *)
Lemma initial_state_repr engine id replicas results :
  ∃ engine' log, write_initial_state false engine id replicas results = Ok engine' ∧
    region_repr id engine' log ∧ lg_truncated log = mkEntryId 0 0 ∧ lg_applied log = 0 ∧
    consecutive 1 (lg_entries log) ∧ length (lg_entries log) = (length replicas + length results)%nat ∧
    hs_commit (lg_hard log) = Z.of_nat (length (lg_entries log)).
Proof.
  unfold write_initial_state. cbn [andb].
  destruct (initial_conf_ok 0 (merge_sort replica_id_le replicas)) as (confs & -> & Hc & Hl).
  rewrite (Permutation_length (merge_sort_Permutation _ _)) in Hl. cbn [result_bind].
  destruct (initial_eval_ok (0 + Z.of_nat (length confs)) results) as [He Hle].
  set (evals := initial_eval_entries _ _) in *.
  set (hs := if negb _ then _ else _).
  exists (<[id := mkMemTable (if bool_decide (confs ++ evals = []) then 0 else 1) (confs ++ evals)
     (<[LOCAL_STATE_KEY := encode_to_vec (mkRaftLocalState id (Some (mkEntryId 0 0)))]>
        (<[HARD_STATE_KEY := encode_to_vec hs]> ∅))]> (delete id engine)),
    (mkRaftLog (mkEntryId 0 0) (confs ++ evals) 0 hs).
  cbn [lg_truncated lg_applied lg_entries].
  assert (Hcons : consecutive 1 (confs ++ evals)).
  { apply consecutive_app; [done|]. by replace (1 + Z.of_nat (length confs)) with (0 + Z.of_nat (length confs) + 1) by lia. }
  split; [|split_and!; [|done|done|done|rewrite length_app; lia|]].
  3: { subst hs. case_bool_decide as E; cbn [negb lg_hard hs_commit]; [by rewrite E|rewrite length_app; lia]. }
  - unfold batch_add_entries, batch_put_message.
    destruct (confs ++ evals) as [|e0 es] eqn:Ees; cbn [app engine_write apply_item result_bind];
      unfold get_or_insert; rewrite lookup_delete_eq; cbn [from_option]; unfold Datatypes.id.
    + rewrite lookup_insert_eq. cbn. by rewrite insert_insert_eq.
    + assert (mt_append MemTable_new (e0 :: es) = Ok (mkMemTable (e_index e0) (e0 :: es) ∅)) as -> by done.
      cbn [result_bind]. rewrite lookup_insert_eq. cbn [from_option]. unfold Datatypes.id.
      rewrite insert_insert_eq, lookup_insert_eq. cbn [from_option]. unfold Datatypes.id.
      rewrite insert_insert_eq. unfold mt_put. cbn [mt_first_index mt_entries mt_kvs engine_result result_map_err].
      by rewrite (Hcons 0%nat e0) by done.
  - unfold region_repr, lg_first. cbn [lg_entries lg_truncated lg_hard ei_index].
    eexists. split; [apply lookup_insert_eq|]. cbn [mt_entries mt_first_index mt_kvs].
    split; [done|]. split; [intros Hn; by rewrite bool_decide_eq_false_2|].
    rewrite lookup_insert_ne by (apply not_eq_sym, keys_differ). by rewrite !lookup_insert_eq.
Qed.
End First.
