(* ===== verification/Applier.v ===== *)
(** * The applier ([raftgroup/applier.rs], the traits of [raftgroup/fsm.rs])

    Applies committed entries to the state machine of the group and answers
    the requests that wait for them.  A [oneshot::Sender] is a number; the
    answers that were sent are kept in order. *)

From S2P Require Import Prelude Bytes Api RocksDb Engine Fsm LogEngine RaftStorage.
#[local] Open Scope Z_scope.

(** The trait [StateMachine]; [Snap] is the content of a snapshot directory. *)
Class StateMachine (M Snap : Type) := {
  sm_start_plug : M → Result unit;
  sm_apply : Z → Z → ApplyEntry → M → Result M;
  sm_finish_plug : M → Result M;
  sm_apply_snapshot : Snap → M → Result M;
  sm_descriptor : M → GroupDesc;
  sm_flushed_index : M → Result Z;
}.

(** ** The group's state machine *)
Section Group.
  Context {DB : Type} `{RocksDb DB} `{Codec EntryId} `{Codec GroupDesc} `{Codec MoveShardState} `{Codec WriteBatch}.
  Context {O T : Type} `{StateMachineObserver O} `{WatchTrigger T}.

Definition fsm_flushed_apply_state (f : GroupStateMachine DB O T) : Result EntryId :=
  match flushed_apply_state (ge_db (f_group_engine f)) with Ok s => Ok s | _ => Panic end.
Definition fsm_flushed_index (f : GroupStateMachine DB O T) : Result Z :=
  let? s := fsm_flushed_apply_state f in Ok (ei_index s).
(** The files of the snapshot hold a whole column family. *)
Definition fsm_apply_snapshot (files : DB) (f : GroupStateMachine DB O T) : Result (GroupStateMachine DB O T) :=
  let? ge := ge_ingest (f_group_engine f) files in
  let f := mkFsm ge (on_descriptor_updated (ge_descriptor ge) (f_observer f)) (f_watch_hub f)
    (f_plugged_write_batches f) (f_plugged_write_states f) (f_move_out_shards f) (f_desc_updated f)
    (f_move_shard_state_updated f) (f_last_applied_term f) in
  let? apply_state := fsm_flushed_apply_state f in
  Ok (mkFsm ge (on_term_updated (ei_term apply_state) (f_observer f)) (f_watch_hub f)
    (f_plugged_write_batches f) (f_plugged_write_states f) (f_move_out_shards f) (f_desc_updated f)
    (f_move_shard_state_updated f) (f_last_applied_term f)).

#[global] Instance group_state_machine : StateMachine (GroupStateMachine DB O T) DB := {|
  sm_start_plug := start_plug;
  sm_apply := apply;
  sm_finish_plug := finish_plug;
  sm_apply_snapshot := fsm_apply_snapshot;
  sm_descriptor := fsm_descriptor;
  sm_flushed_index := fsm_flushed_index;
|}.
End Group.

(** ** The applier *)
Abbreviation Sender := nat.
Record ProposalContext := mkProposalContext { pc_index : Z; pc_term : Z; pc_sender : Sender }.
(** [raft::ReadState]. *)
Record ReadState := mkReadState { rs_index : Z; rs_request_ctx : bytes }.
Abbreviation ReplicaCache := (gmap Z ReplicaDesc).

Definition cache_insert (cache : ReplicaCache) (replica : ReplicaDesc) : ReplicaCache :=
  <[rd_id replica := replica]> cache.
Definition cache_batch_insert (cache : ReplicaCache) (replicas : list ReplicaDesc) : ReplicaCache :=
  foldl cache_insert cache replicas.
Definition cache_get (cache : ReplicaCache) (replica_id : Z) : option ReplicaDesc := cache !! replica_id.

Section Applier.
  Context {M Snap : Type} `{StateMachine M Snap}.
  Context `{Codec ConfChangeV2} `{Codec ChangeReplicas} `{Codec EvalResult}.

Record Applier := mkApplier {
  ap_group_id : Z; ap_proposal_queue : list ProposalContext; ap_next_read_state_index : Z;
  ap_read_requests : gmap bytes (list Sender); ap_read_states : list ReadState;
  ap_last_applied_index : Z; ap_state_machine : M;
  ap_answers : list (Sender * Result unit) }.

Definition Applier_new (group_id : Z) (state_machine : M) : Result Applier :=
  let? flushed := sm_flushed_index state_machine in
  Ok (mkApplier group_id [] 0 ∅ [] flushed state_machine []).

Definition set_queue (a : Applier) (q : list ProposalContext) (answers : list (Sender * Result unit)) : Applier :=
  mkApplier (ap_group_id a) q (ap_next_read_state_index a) (ap_read_requests a) (ap_read_states a)
    (ap_last_applied_index a) (ap_state_machine a) (ap_answers a ++ answers).
Definition set_machine (a : Applier) (index : Z) (m : M) : Applier :=
  mkApplier (ap_group_id a) (ap_proposal_queue a) (ap_next_read_state_index a) (ap_read_requests a)
    (ap_read_states a) index m (ap_answers a).

Definition delegate_proposal_context (index term : Z) (sender : Sender) (a : Applier) : Applier :=
  let ctx := mkProposalContext index term sender in
  match last (ap_proposal_queue a) with
  | Some last_ctx =>
      if index <=? pc_index last_ctx then
        set_queue a (removelast (ap_proposal_queue a) ++ [ctx])
          [(pc_sender last_ctx, Err (NotLeader (ap_group_id a) term None))]
      else set_queue a (ap_proposal_queue a ++ [ctx]) []
  | None => set_queue a (ap_proposal_queue a ++ [ctx]) []
  end.

Definition delegate_read_requests (requests : list Sender) (a : Applier) : bytes * Applier :=
  let read_state_ctx := le_bytes 8 (ap_next_read_state_index a) in
  (read_state_ctx,
   mkApplier (ap_group_id a) (ap_proposal_queue a) (u64_add (ap_next_read_state_index a) 1)
     (<[read_state_ctx := requests]> (ap_read_requests a)) (ap_read_states a) (ap_last_applied_index a)
     (ap_state_machine a) (ap_answers a)).

(** [response_read_states]: the requests left, the answers and the states kept. *)
Fixpoint answer_read_states (ready : list ReadState) (requests : gmap bytes (list Sender)) :
    gmap bytes (list Sender) * list (Sender * Result unit) :=
  match ready with
  | [] => (requests, [])
  | rs :: ready' =>
      match requests !! rs_request_ctx rs with
      | Some senders =>
          let '(requests', answers) := answer_read_states ready' (delete (rs_request_ctx rs) requests) in
          (requests', ((λ s, (s, Ok tt)) <$> senders) ++ answers)
      | None => answer_read_states ready' requests
      end
  end.
Definition response_read_states (read_states : list ReadState) (requests : gmap bytes (list Sender))
    (last_applied_index : Z) : list ReadState * gmap bytes (list Sender) * list (Sender * Result unit) :=
  let '(requests', answers) :=
    answer_read_states (List.filter (λ rs, rs_index rs <=? last_applied_index) read_states) requests in
  (List.filter (λ rs, last_applied_index <? rs_index rs) read_states, requests', answers).

Definition set_reads (a : Applier) (read_states : list ReadState) (requests : gmap bytes (list Sender))
    (answers : list (Sender * Result unit)) : Applier :=
  mkApplier (ap_group_id a) (ap_proposal_queue a) (ap_next_read_state_index a) requests read_states
    (ap_last_applied_index a) (ap_state_machine a) (ap_answers a ++ answers).
Definition apply_read_states (read_states : list ReadState) (a : Applier) : Applier :=
  let '(left_states, requests, answers) :=
    response_read_states read_states (ap_read_requests a) (ap_last_applied_index a) in
  set_reads a (ap_read_states a ++ left_states) requests answers.
Definition response_cached_read_states (a : Applier) : Applier :=
  let '(left_states, requests, answers) :=
    response_read_states (ap_read_states a) (ap_read_requests a) (ap_last_applied_index a) in
  set_reads a left_states requests answers.

Definition applier_apply_snapshot (snap : Snap) (a : Applier) : Result Applier :=
  let? m := sm_apply_snapshot snap (ap_state_machine a) in
  let? index := sm_flushed_index m in
  Ok (set_machine a index m).

(** ** Applying entries *)

(** An empty configuration entry is the one that leaves a joint state. *)
Definition decode_conf_change (data : bytes) : Result ConfChangeV2 :=
  match data with
  | [] => Ok ConfChangeV2_default
  | _ => expect (decode_msg data)
  end.
(** What the entry means to the state machine. *)
Definition decode_entry (entry : Entry) : Result (ApplyEntry * option ConfChangeV2) :=
  match e_type entry with
  | EntryNormal =>
      match e_data entry with
      | [] => Ok (Empty, None)
      | _ => let? eval_result := expect (decode_msg (e_data entry)) in Ok (Proposal eval_result, None)
      end
  | EntryConfChange => Panic
  | EntryConfChangeV2 =>
      let? cc := decode_conf_change (e_data entry) in
      let? change_replicas := decode_from_conf_change cc in
      Ok (ConfigChange change_replicas, Some cc)
  end.

(** [expect]. *)
Definition must {A} (m : Result A) : Result A := match m with Ok a => Ok a | _ => Panic end.

(** The loop over the committed entries; the configuration changes go to raft. *)
Fixpoint apply_loop (entries : list Entry) (a : Applier) (cache : ReplicaCache) (ccs : list ConfChangeV2) :
    Result (Applier * ReplicaCache * list ConfChangeV2) :=
  match entries with
  | [] => Ok (a, cache, ccs)
  | entry :: entries' =>
      if negb (e_index entry =? ap_last_applied_index a + 1) && negb (ap_last_applied_index a =? 0) then Panic
      else
        let? ' (ae, cc) := decode_entry entry in
        let? m := must (sm_apply (e_index entry) (e_term entry) ae (ap_state_machine a)) in
        let a := set_machine a (e_index entry) m in
        match cc with
        | Some cc => apply_loop entries' a (cache_batch_insert cache (gd_replicas (sm_descriptor m))) (ccs ++ [cc])
        | None => apply_loop entries' a cache ccs
        end
  end.

Definition response_proposal (index term : Z) (a : Applier) : Applier :=
  match ap_proposal_queue a with
  | ctx :: queue =>
      if pc_index ctx =? index then
        set_queue a queue
          [(pc_sender ctx, if pc_term ctx =? term then Ok tt else Err (NotLeader (ap_group_id a) term None))]
      else a
  | [] => a
  end.

Definition apply_entries (cache : ReplicaCache) (committed_entries : list Entry) (a : Applier) :
    Result (Applier * ReplicaCache * list ConfChangeV2) :=
  do? must (sm_start_plug (ap_state_machine a)) in
  let? ' (a, cache, ccs) := apply_loop committed_entries a cache [] in
  let? m := must (sm_finish_plug (ap_state_machine a)) in
  let a := set_machine a (ap_last_applied_index a) m in
  let a := foldl (λ a e, response_proposal (e_index e) (e_term e) a) a committed_entries in
  Ok (response_cached_read_states a, cache, ccs).
End Applier.
Arguments Applier : clear implicits.
