(* ===== verification/ApplierProps.v ===== *)
(** * What an answer of the applier means

    A proposal is answered [Ok] only after an entry with its index and term
    was applied, a read only after everything up to its read index was; and as
    long as proposals are queued by growing index, applying entries answers
    exactly the proposals they decide. *)

From S2P Require Import Prelude Bytes Api RocksDb Engine Fsm LogEngine RaftStorage RaftStorageProps Applier.
#[local] Open Scope Z_scope.

Section Props.
  Context {M Snap : Type} {SM : StateMachine M Snap}.
  Context {C1 : Codec ConfChangeV2} {C2 : Codec ChangeReplicas} {C3 : Codec EvalResult}.
  Implicit Types (a : Applier M).

(** ** A history of requests, reports of raft, and applied entries *)
Inductive ApEvent :=
  | EvPropose (index term : Z) (sender : Sender)
  | EvRead (senders : list Sender)
  | EvReadStates (states : list ReadState)
  | EvApply (entries : list Entry)
  | EvSnapshot (snap : Snap).

Record History := mkHistory {
  h_proposals : list ProposalContext; h_reads : list (bytes * list Sender); h_states : list ReadState;
  h_applied : list (Z * Z) }.

Definition entry_id (e : Entry) : Z * Z := (e_index e, e_term e).

Definition ap_step (s : Applier M * ReplicaCache * History) (ev : ApEvent) :
    Result (Applier M * ReplicaCache * History) :=
  let '(a, cache, h) := s in
  match ev with
  | EvPropose index term sender =>
      Ok (delegate_proposal_context index term sender a, cache,
          mkHistory (h_proposals h ++ [mkProposalContext index term sender]) (h_reads h) (h_states h) (h_applied h))
  | EvRead senders =>
      let '(ctx, a) := delegate_read_requests senders a in
      Ok (a, cache, mkHistory (h_proposals h) (h_reads h ++ [(ctx, senders)]) (h_states h) (h_applied h))
  | EvReadStates states =>
      Ok (apply_read_states states a, cache,
          mkHistory (h_proposals h) (h_reads h) (h_states h ++ states) (h_applied h))
  | EvApply entries =>
      let? ' (a, cache, _) := apply_entries cache entries a in
      Ok (a, cache, mkHistory (h_proposals h) (h_reads h) (h_states h) (h_applied h ++ (entry_id <$> entries)))
  | EvSnapshot snap =>
      let? a := applier_apply_snapshot snap a in Ok (a, cache, h)
  end.
Fixpoint ap_run (s : Applier M * ReplicaCache * History) (evs : list ApEvent) :
    Result (Applier M * ReplicaCache * History) :=
  match evs with
  | [] => Ok s
  | ev :: evs' => let? s := ap_step s ev in ap_run s evs'
  end.

(** An acknowledgement is founded: the entry was applied, or the state a read
    waited for was reached at some point of the history. *)
Definition founded (reached : list Z) (h : History) (s : Sender) : Prop :=
  (∃ ctx, ctx ∈ h_proposals h ∧ pc_sender ctx = s ∧ (pc_index ctx, pc_term ctx) ∈ h_applied h) ∨
  (∃ k ss rs i, (k, ss) ∈ h_reads h ∧ s ∈ ss ∧ rs ∈ h_states h ∧ rs_request_ctx rs = k ∧
     i ∈ reached ∧ rs_index rs ≤ i).

Definition ap_inv (reached : list Z) (a : Applier M) (h : History) : Prop :=
  (∀ ctx, ctx ∈ ap_proposal_queue a → ctx ∈ h_proposals h) ∧
  (∀ k ss, ap_read_requests a !! k = Some ss → (k, ss) ∈ h_reads h) ∧
  (∀ rs, rs ∈ ap_read_states a → rs ∈ h_states h) ∧
  (∀ s, (s, Ok tt) ∈ ap_answers a → founded reached h s) ∧ ap_last_applied_index a ∈ reached.

Lemma founded_mono r1 h1 r2 h2 s :
  r1 ⊆ r2 → h_proposals h1 ⊆ h_proposals h2 → h_reads h1 ⊆ h_reads h2 → h_states h1 ⊆ h_states h2 →
  h_applied h1 ⊆ h_applied h2 → founded r1 h1 s → founded r2 h2 s.
Proof. intros Hr Hp Hd Hs Ha. unfold founded. set_solver. Qed.

Lemma answer_reads_spec ready requests requests' answers s :
  answer_read_states ready requests = (requests', answers) →
  (∀ k ss, requests' !! k = Some ss → requests !! k = Some ss) ∧
  (s ∈ answers → ∃ rs ss, rs ∈ ready ∧ requests !! rs_request_ctx rs = Some ss ∧ s.1 ∈ ss ∧ s.2 = Ok tt).
Proof.
  revert requests requests' answers. induction ready as [|rs ready IH]; intros requests requests' answers; cbn.
  { intros [= <- <-]. set_solver. }
  destruct (requests !! rs_request_ctx rs) as [senders|] eqn:E.
  - destruct (answer_read_states ready _) as [r2 a2] eqn:Ea. intros [= <- <-].
    destruct (IH _ _ _ Ea) as [Hk Hs]. split.
    + intros k ss Hkk%Hk. by apply lookup_delete_Some in Hkk as [_ ?].
    + intros [Hin|Hin]%elem_of_app.
      * apply list_elem_of_fmap in Hin as (x & -> & Hx). exists rs, senders. by split; [left|].
      * destruct (Hs Hin) as (r & ss & Hr & Hl & ? & ?). apply lookup_delete_Some in Hl as [_ Hl].
        exists r, ss. by split; [right|].
  - intros Ea. destruct (IH _ _ _ Ea) as [Hk Hs]. split; [done|].
    intros Hin. destruct (Hs Hin) as (r & ss & Hr & ? & ? & ?). exists r, ss. by split; [right|].
Qed.

Lemma response_reads_spec states requests last left requests' answers :
  response_read_states states requests last = (left, requests', answers) →
  left ⊆ states ∧ (∀ k ss, requests' !! k = Some ss → requests !! k = Some ss) ∧
  (∀ s, s ∈ answers → ∃ rs ss, rs ∈ states ∧ rs_index rs ≤ last ∧
     requests !! rs_request_ctx rs = Some ss ∧ s.1 ∈ ss ∧ s.2 = Ok tt).
Proof.
  unfold response_read_states. destruct (answer_read_states _ _) as [r2 a2] eqn:Ea. intros [= <- <- <-]. split_and!.
  - intros rs [Hin _]%list_elem_of_In%filter_In. by apply list_elem_of_In.
  - apply (answer_reads_spec _ _ _ _ (0%nat, Panic) Ea).
  - intros s Hs. destruct (answer_reads_spec _ _ _ _ s Ea) as [_ Hf].
    destruct (Hf Hs) as (rs & ss & Hin%list_elem_of_In & Hrest). apply filter_In in Hin as [Hin Hle%Z.leb_le].
    exists rs, ss. split; [by apply list_elem_of_In|]. done.
Qed.

(** Sending answers for reads keeps the invariant. *)
Lemma reads_inv reached a h states new_states left requests answers :
  ap_inv reached a h → states ⊆ h_states h → new_states ⊆ h_states h → left ⊆ states →
  (∀ k ss, requests !! k = Some ss → ap_read_requests a !! k = Some ss) →
  (∀ s, s ∈ answers → ∃ rs ss, rs ∈ states ∧ rs_index rs ≤ ap_last_applied_index a ∧
     ap_read_requests a !! rs_request_ctx rs = Some ss ∧ s.1 ∈ ss ∧ s.2 = Ok tt) →
  ap_inv reached (set_reads a (new_states ++ left) requests answers) h.
Proof.
  intros (Hq & Hk & Hs & Ha & Hl) Hst Hns Hleft Hreq Hans. split_and!; cbn; [done|by eauto| | |done].
  - intros rs [?|?]%elem_of_app; eauto.
  - intros s [?|Hin]%elem_of_app; [by apply Ha|]. right.
    destruct (Hans _ Hin) as (rs & ss & Hrs & Hle & Hlk & Hss & _).
    exists (rs_request_ctx rs), ss, rs, (ap_last_applied_index a). split_and!; eauto.
Qed.

Lemma read_states_inv reached a h states :
  ap_inv reached a h → states ⊆ h_states h → ap_inv reached (apply_read_states states a) h.
Proof.
  intros Hi Hst. unfold apply_read_states. destruct (response_read_states _ _ _) as [[lf rq] an] eqn:E.
  destruct (response_reads_spec _ _ _ _ _ _ E) as (? & ? & ?).
  eapply reads_inv; eauto. destruct Hi as (_ & _ & Hs & _). done.
Qed.

Lemma cached_reads_inv reached a h : ap_inv reached a h → ap_inv reached (response_cached_read_states a) h.
Proof.
  intros Hi. unfold response_cached_read_states. destruct (response_read_states _ _ _) as [[lf rq] an] eqn:E.
  destruct (response_reads_spec _ _ _ _ _ _ E) as (? & ? & ?). destruct Hi as (Hq & Hk & Hs & Ha & Hl).
  pose proof (reads_inv reached a h (ap_read_states a) [] lf rq an) as Hr. apply Hr; try done; set_solver.
Qed.

Lemma response_proposal_inv reached a h i t :
  ap_inv reached a h → (i, t) ∈ h_applied h → ap_inv reached (response_proposal i t a) h.
Proof.
  intros (Hq & Hk & Hs & Ha & Hl) Hin. unfold response_proposal.
  destruct (ap_proposal_queue a) as [|ctx q] eqn:Eq; [by split_and!; rewrite ?Eq|].
  destruct (Z.eqb_spec (pc_index ctx) i) as [Ei|]; [|by split_and!; rewrite ?Eq].
  split_and!; cbn; [intros c Hc; apply Hq; by right|done|done| |done].
  intros s [?|Hx]%elem_of_app; [by apply Ha|]. apply list_elem_of_singleton in Hx as [= -> Hy].
  left. exists ctx. split; [apply Hq; by left|]. split; [done|].
  destruct (Z.eqb_spec (pc_term ctx) t) as [->|]; [|done]. by rewrite Ei.
Qed.

Lemma apply_loop_fields entries a cache ccs a' cache' ccs' :
  apply_loop entries a cache ccs = Ok (a', cache', ccs') →
  ∃ i m, a' = set_machine a i m.
Proof.
  revert a cache ccs. induction entries as [|e entries IH]; intros a cache ccs; cbn [apply_loop].
  { intros [= <- _ _]. exists (ap_last_applied_index a), (ap_state_machine a). by destruct a. }
  case_match; [done|]. intros ([ae cc] & _ & (m & _ & Hr)%result_bind_ok)%result_bind_ok.
  destruct cc; apply IH in Hr as (i' & m' & ->); exists i', m'; done.
Qed.

Lemma propose_inv reached a h i t s :
  ap_inv reached a h →
  ap_inv reached (delegate_proposal_context i t s a)
    (mkHistory (h_proposals h ++ [mkProposalContext i t s]) (h_reads h) (h_states h) (h_applied h)).
Proof.
  intros (Hq & Hk & Hs & Ha & Hl). unfold delegate_proposal_context.
  assert (Hf : ∀ x, founded reached h x → founded reached
    (mkHistory (h_proposals h ++ [mkProposalContext i t s]) (h_reads h) (h_states h) (h_applied h)) x).
  { intros x. apply founded_mono; cbn; set_solver. }
  destruct (last (ap_proposal_queue a)) as [lc|] eqn:El; [|split_and!; cbn; rewrite ?app_nil_r; set_solver].
  apply last_Some in El as (q & Eq). rewrite Eq in *. case_match.
  - split_and!; cbn; [|done|done| |done].
    + rewrite removelast_last. set_solver.
    + intros x [?|Hx]%elem_of_app; [by apply Hf, Ha|]. by apply list_elem_of_singleton in Hx.
  - split_and!; cbn; rewrite ?app_nil_r; set_solver.
Qed.

Lemma applier_step_inv reached a cache h ev a' cache' h' :
  ap_inv reached a h → ap_step (a, cache, h) ev = Ok (a', cache', h') →
  ap_inv (reached ++ [ap_last_applied_index a']) a' h'.
Proof.
  intros Hi Hstep.
  assert (Hgrow : ∀ (b : Applier M) g, ap_last_applied_index b = ap_last_applied_index a → ap_inv reached b g →
    ap_inv (reached ++ [ap_last_applied_index b]) b g).
  { intros b g Hb (? & ? & ? & Hans & Hl). split_and!; try done.
    - intros s Hs%Hans. eapply founded_mono; [..|exact Hs]; set_solver.
    - set_solver. }
  destruct ev as [i t s|senders|states|entries|snap]; cbn [ap_step] in Hstep.
  - injection Hstep as <- <- <-. apply Hgrow; [|by apply propose_inv].
    unfold delegate_proposal_context. by repeat case_match.
  - injection Hstep as <- <- <-. apply Hgrow; [done|]. destruct Hi as (Hq & Hk & Hs & Ha & Hl).
    split_and!; cbn; [done| |done| |done].
    + intros k ss [[<- <-]|[_ ?]]%lookup_insert_Some; set_solver.
    + intros s Hs'%Ha. eapply founded_mono; [..|exact Hs']; cbn; set_solver.
  - injection Hstep as <- <- <-. apply Hgrow; [unfold apply_read_states; by repeat case_match|].
    apply read_states_inv; [|cbn; set_solver]. destruct Hi as (Hq & Hk & Hs & Ha & Hl).
    split_and!; cbn; [done|done|set_solver| |done].
    intros s Hs'%Ha. eapply founded_mono; [..|exact Hs']; cbn; set_solver.
  - apply result_bind_ok in Hstep as ([[a1 c1] ccs] & Happ & [= <- <- <-]).
    unfold apply_entries in Happ. apply result_bind_ok in Happ as (_ & _ & Happ).
    apply result_bind_ok in Happ as ([[a2 c2] ccs2] & Hloop & Happ).
    apply result_bind_ok in Happ as (m & _ & [= <- <- <-]).
    apply apply_loop_fields in Hloop as (i & m2 & ->).
    set (h2 := mkHistory _ _ _ _).
    assert (Hfold : ∀ es (b : Applier M), entry_id <$> es ⊆ h_applied h2 → ap_inv (reached ++ [i]) b h2 →
      let b' := foldl (λ a e, response_proposal (e_index e) (e_term e) a) b es in
      ap_inv (reached ++ [i]) b' h2 ∧ ap_last_applied_index b' = ap_last_applied_index b).
    { induction es as [|e es IH]; intros b Hsub Hb; cbn; [done|].
      destruct (IH (response_proposal (e_index e) (e_term e) b)) as [H1 H2].
      - intros x Hx. apply Hsub. by right.
      - apply response_proposal_inv; [done|]. apply Hsub. by left.
      - split; [done|]. rewrite H2. unfold response_proposal. by repeat case_match. }
    destruct (Hfold entries (set_machine (set_machine a i m2) i m)) as [Hinv Hlast].
    { cbn. set_solver. }
    { destruct Hi as (Hq & Hk & Hs & Ha & Hl). split_and!; cbn; [done..| |set_solver].
      intros s Hs'%Ha. eapply founded_mono; [..|exact Hs']; cbn; set_solver. }
    cbn [set_machine ap_last_applied_index] in *.
    apply cached_reads_inv in Hinv.
    assert (ap_last_applied_index (response_cached_read_states (foldl
      (λ a e, response_proposal (e_index e) (e_term e) a) (set_machine (set_machine a i m2) i m) entries)) = i) as ->;
      [|exact Hinv].
    unfold response_cached_read_states. case_match. case_match. cbn. done.
  - apply result_bind_ok in Hstep as (a1 & Hsnap & [= <- <- <-]).
    unfold applier_apply_snapshot in Hsnap. apply result_bind_ok in Hsnap as (m & _ & Hsnap).
    apply result_bind_ok in Hsnap as (i & _ & [= <-]). destruct Hi as (Hq & Hk & Hs & Ha & Hl).
    split_and!; cbn; [done..| |set_solver]. intros s Hs'%Ha. eapply founded_mono; [..|exact Hs']; set_solver.
Qed.

(** The applied indices of a run. *)
Fixpoint ap_reached (s : Applier M * ReplicaCache * History) (evs : list ApEvent) : list Z :=
  match evs with
  | [] => []
  | ev :: evs' =>
      match ap_step s ev with
      | Ok s' => ap_last_applied_index s'.1.1 :: ap_reached s' evs'
      | _ => []
      end
  end.

Lemma run_inv reached s evs s' :
  ap_inv reached s.1.1 s.2 → ap_run s evs = Ok s' → ap_inv (reached ++ ap_reached s evs) s'.1.1 s'.2.
Proof.
  revert reached s. induction evs as [|ev evs IH]; intros reached s Hi; cbn [ap_run ap_reached].
  { intros [= <-]. by rewrite app_nil_r. }
  intros (s1 & H1 & Hr)%result_bind_ok. rewrite H1. destruct s as [[a c] h], s1 as [[a1 c1] h1].
  pose proof (applier_step_inv _ _ _ _ _ _ _ _ Hi H1) as Hi1. cbn [fst snd] in *.
  rewrite cons_middle, app_assoc. by apply IH.
Qed.

(** ** Answering exactly what was applied *)

(** The entries as the state machine sees them. *)
Fixpoint decode_entries (entries : list Entry) : Result (list (Z * Z * ApplyEntry)) :=
  match entries with
  | [] => Ok []
  | e :: entries' =>
      let? ' (ae, _) := decode_entry e in
      let? l := decode_entries entries' in
      Ok ((e_index e, e_term e, ae) :: l)
  end.
Fixpoint sm_stage (es : list (Z * Z * ApplyEntry)) (m : M) : Result M :=
  match es with
  | [] => Ok m
  | (index, term, ae) :: es' => let? m := sm_apply index term ae m in sm_stage es' m
  end.

Lemma apply_loop_ok entries es a cache ccs m' :
  (ap_last_applied_index a = 0 → entries ≠ [] → ∃ e, head entries = Some e ∧ 0 < e_index e) →
  (∃ first, consecutive first entries ∧ (ap_last_applied_index a = 0 ∨ first = ap_last_applied_index a + 1)) →
  decode_entries entries = Ok es → sm_stage es (ap_state_machine a) = Ok m' →
  ∃ cache' ccs', apply_loop entries a cache ccs =
    Ok (set_machine a (default (ap_last_applied_index a) (e_index <$> last entries)) m', cache', ccs').
Proof.
  revert es a cache ccs. induction entries as [|e entries IH]; intros es a cache ccs Hpos (first & Hc & Hf) Hd Hs.
  { injection Hd as <-. injection Hs as <-. exists cache, ccs. cbn. by destruct a. }
  cbn [decode_entries] in Hd. apply result_bind_ok in Hd as ([ae cc] & Hd1 & Hd).
  apply result_bind_ok in Hd as (es1 & Hd2 & [= <-]). cbn [sm_stage] in Hs.
  apply result_bind_ok in Hs as (m1 & Ha & Hs).
  pose proof (Hc 0%nat e eq_refl) as Hi. rewrite Z.add_0_r in Hi. cbn [apply_loop].
  assert (negb (e_index e =? ap_last_applied_index a + 1) && negb (ap_last_applied_index a =? 0) = false) as ->.
  { destruct Hf as [-> | ->]; [by rewrite andb_false_r|]. by rewrite Hi, Z.eqb_refl. }
  rewrite Hd1. cbn [result_bind]. rewrite Ha. cbn [must result_bind].
  assert (Hc' : consecutive (e_index e + 1) entries).
  { intros j x Hj. rewrite (Hc (S j) x Hj). lia. }
  destruct (IH es1 (set_machine a (e_index e) m1)
    match cc with Some _ => cache_batch_insert cache (gd_replicas (sm_descriptor m1)) | None => cache end
    match cc with Some cc => ccs ++ [cc] | None => ccs end) as (c2 & ccs2 & Heq); [..|exact Hd2|exact Hs|].
  - cbn. intros H0. destruct (ap_last_applied_index a =? 0) eqn:E0; to_prop.
    + destruct (Hpos E0) as (x & [= <-] & Hx); [done|]. lia.
    + destruct entries as [|e2 es2]; [done|]. intros _. exists e2. split; [done|].
      rewrite (Hc 1%nat e2 eq_refl). lia.
  - exists (e_index e + 1). split; [done|by right].
  - exists c2, ccs2. assert (default (e_index e) (e_index <$> last entries) =
      default (ap_last_applied_index a) (e_index <$> last (e :: entries))) as Hl.
    { destruct entries as [|e2 es2]; [done|]. change (last (e :: e2 :: es2)) with (last (e2 :: es2)).
      destruct (last (e2 :: es2)) eqn:El; [done|]. by apply last_None in El. }
    cbn [set_machine ap_last_applied_index] in Heq. rewrite Hl in Heq. by destruct cc.
Qed.

Definition answer_of (group_id : Z) (entries : list Entry) (ctx : ProposalContext) : Sender * Result unit :=
  (pc_sender ctx,
   match List.find (λ e, e_index e =? pc_index ctx) entries with
   | Some e => if pc_term ctx =? e_term e then Ok tt else Err (NotLeader group_id (e_term e) None)
   | None => Panic
   end).

(** The queue is by growing index, all of it behind what is applied. *)
Definition queue_ok (from : Z) (q : list ProposalContext) : Prop :=
  StronglySorted (λ c d, pc_index c < pc_index d) q ∧ ∀ c, c ∈ q → from ≤ pc_index c.

Lemma queue_ok_tail from from' c q :
  queue_ok from (c :: q) → from' ≤ pc_index c + 1 → queue_ok from' q.
Proof.
  intros [Hs Hf] Hle. apply StronglySorted_inv in Hs as [Hs Hall]. split; [done|].
  intros d Hd. rewrite Forall_forall in Hall. specialize (Hall d Hd). lia.
Qed.

Lemma answers_skip g e entries (q : list ProposalContext) behind :
  (∀ d, d ∈ q → e_index e ≠ pc_index d) →
  answer_of g (e :: entries) <$> List.filter (λ c, pc_index c <? behind) q =
  answer_of g entries <$> List.filter (λ c, pc_index c <? behind) q.
Proof.
  intros Hq. apply list_fmap_ext. intros j d Hd%list_elem_of_lookup_2%list_elem_of_In%filter_In.
  destruct Hd as [Hd%list_elem_of_In _]. unfold answer_of. cbn [List.find].
  by rewrite (proj2 (Z.eqb_neq _ _)) by (by apply Hq).
Qed.

(** Entries answer the proposals of their indices and leave the others. *)
Lemma response_all entries (a : Applier M) from :
  consecutive from entries → queue_ok from (ap_proposal_queue a) →
  let behind := from + Z.of_nat (length entries) in
  foldl (λ a e, response_proposal (e_index e) (e_term e) a) a entries =
  set_queue a (List.filter (λ c, behind <=? pc_index c) (ap_proposal_queue a))
    (answer_of (ap_group_id a) entries <$> List.filter (λ c, pc_index c <? behind) (ap_proposal_queue a)).
Proof.
  revert a from. induction entries as [|e entries IH]; intros a from Hc Hq behind.
  { cbn in behind. destruct Hq as [_ Hf]. cbn [foldl].
    rewrite List.forallb_filter_id, (List.filter_ext_in _ (λ _, false)), List.filter_false.
    - cbn. unfold set_queue. rewrite app_nil_r. by destruct a.
    - intros c Hin%list_elem_of_In%Hf. apply Z.ltb_ge. lia.
    - apply forallb_forall. intros c Hin%list_elem_of_In%Hf. apply Z.leb_le. lia. }
  pose proof (Hc 0%nat e eq_refl) as Hi. rewrite Z.add_0_r in Hi.
  assert (Hc' : consecutive (from + 1) entries) by (intros j x Hj; rewrite (Hc (S j) x Hj); lia).
  assert (Hb : behind = from + 1 + Z.of_nat (length entries)) by (unfold behind; cbn [length]; lia).
  cbn [foldl]. unfold response_proposal at 2.
  destruct (ap_proposal_queue a) as [|c q] eqn:Eq.
  { specialize (IH a (from + 1) Hc'). rewrite Eq in IH. rewrite IH by (split; [constructor|set_solver]). done. }
  destruct Hq as [Hs Hf].
  assert (Htail : ∀ d, d ∈ q → pc_index c < pc_index d).
  { apply StronglySorted_inv in Hs as [_ Hall]. by rewrite Forall_forall in Hall. }
  destruct (Z.eqb_spec (pc_index c) (e_index e)) as [Hce|Hce].
  - assert (Hq' : queue_ok (from + 1) q) by (eapply queue_ok_tail; [split; done|lia]).
    rewrite (IH _ (from + 1) Hc') by done. rewrite <-Hb.
    cbn [set_queue ap_proposal_queue ap_group_id ap_answers List.filter].
    rewrite (proj2 (Z.leb_gt behind (pc_index c))), (proj2 (Z.ltb_lt (pc_index c) behind)) by lia.
    rewrite fmap_cons, answers_skip by (intros d Hd%Htail; lia).
    assert (answer_of (ap_group_id a) (e :: entries) c = (pc_sender c,
      if pc_term c =? e_term e then Ok tt else Err (NotLeader (ap_group_id a) (e_term e) None))) as ->.
    { unfold answer_of. cbn [List.find]. by rewrite Hce, Z.eqb_refl. }
    unfold set_queue. cbn [ap_answers ap_group_id ap_next_read_state_index ap_read_requests ap_read_states
      ap_last_applied_index ap_state_machine]. by rewrite <-app_assoc.
  - assert (e_index e < pc_index c) as Hlt by (pose proof (Hf c ltac:(by left)); lia).
    rewrite (IH a (from + 1) Hc'); rewrite Eq.
    + rewrite <-Hb. rewrite (answers_skip _ e); [done|]. intros d [->|Hd%Htail]%elem_of_cons; lia.
    + split; [done|]. intros d [->|Hd%Htail]%elem_of_cons; lia.
Qed.

(** Reads whose index was reached are answered, the others wait on. *)
Lemma answered_reads ready requests requests' answers :
  answer_read_states ready requests = (requests', answers) →
  (∀ rs senders s, rs ∈ ready → requests !! rs_request_ctx rs = Some senders → s ∈ senders → (s, Ok tt) ∈ answers) ∧
  (∀ ctx, (∀ rs, rs ∈ ready → rs_request_ctx rs ≠ ctx) → requests' !! ctx = requests !! ctx).
Proof.
  revert requests requests' answers. induction ready as [|r0 ready IH]; intros requests requests' answers; cbn [answer_read_states].
  { intros [= <- <-]. split; [by intros rs senders s ?%not_elem_of_nil|done]. }
  destruct (requests !! rs_request_ctx r0) as [senders0|] eqn:E0.
  - destruct (answer_read_states ready _) as [req1 an1] eqn:E1. intros [= <- <-]. destruct (IH _ _ _ E1) as [Ha Hk]. split.
    + intros rs senders s Hrs Hq Hs. apply elem_of_app.
      destruct (decide (rs_request_ctx rs = rs_request_ctx r0)) as [Ec|Ec].
      * left. rewrite Ec, E0 in Hq. injection Hq as <-. by apply (list_elem_of_fmap_2 (λ s, (s, Ok tt))).
      * right. apply elem_of_cons in Hrs as [->|Hrs]; [done|]. eapply Ha; [done| |done]. by rewrite lookup_delete_ne.
    + intros ctx Hctx. rewrite Hk by (intros rs Hrs; apply Hctx; by right).
      apply lookup_delete_ne. apply Hctx. left.
  - intros E1. destruct (IH _ _ _ E1) as [Ha Hk]. split.
    + intros rs senders s [->|Hrs]%elem_of_cons Hq Hs; [congruence|by eapply Ha].
    + intros ctx Hctx. apply Hk. intros rs Hrs. apply Hctx. by right.
Qed.

(** C37: the applier acknowledges nothing that did not happen.  In any run of
    proposals, reads, reports of raft, applied entries and snapshots, a request
    answered [Ok] is a proposal whose index and term were applied, or a read
    whose read index was reached.  When the queued proposals are by growing
    index and none lies behind what was applied, which the queue does not ensure
    after a change of leader ([stale_proposal_blocks_answers]), applying the
    next entries, if the state machine takes them, puts them through it as one
    plug, answers exactly the queued proposals up to the last one, [Ok] if the
    entry has their term and [NotLeader] if another leader took their place,
    and keeps the others.  It also answers [Ok] to all reads that waited for an
    index reached now, and keeps the read states of later indices and every
    other request. *)
Theorem applier_answers a cache evs a' cache' h' entries es m1 m2 from :
  ap_answers a = [] → ap_proposal_queue a = [] → ap_read_requests a = ∅ → ap_read_states a = [] →
  ap_run (a, cache, mkHistory [] [] [] []) evs = Ok (a', cache', h') →
  (∀ s, (s, Ok tt) ∈ ap_answers a' →
     founded (ap_last_applied_index a :: ap_reached (a, cache, mkHistory [] [] [] []) evs) h' s) ∧
  (entries ≠ [] → consecutive from entries → 0 < from →
   (ap_last_applied_index a' = 0 ∨ from = ap_last_applied_index a' + 1) →
   queue_ok from (ap_proposal_queue a') → decode_entries entries = Ok es →
   sm_start_plug (ap_state_machine a') = Ok tt → sm_stage es (ap_state_machine a') = Ok m1 →
   sm_finish_plug m1 = Ok m2 →
   ∃ a2 cache2 ccs reads, apply_entries cache' entries a' = Ok (a2, cache2, ccs) ∧
     let behind := from + Z.of_nat (length entries) in
     ap_state_machine a2 = m2 ∧ ap_last_applied_index a2 = behind - 1 ∧
     ap_proposal_queue a2 = List.filter (λ c, behind <=? pc_index c) (ap_proposal_queue a') ∧
     ap_answers a2 = ap_answers a' ++
       (answer_of (ap_group_id a') entries <$> List.filter (λ c, pc_index c <? behind) (ap_proposal_queue a')) ++ reads ∧
     (∀ rs senders s, rs ∈ ap_read_states a' → rs_index rs < behind →
        ap_read_requests a' !! rs_request_ctx rs = Some senders → s ∈ senders → (s, Ok tt) ∈ reads) ∧
     ap_read_states a2 = List.filter (λ rs, behind <=? rs_index rs) (ap_read_states a') ∧
     (∀ ctx, (∀ rs, rs ∈ ap_read_states a' → rs_index rs < behind → rs_request_ctx rs ≠ ctx) →
        ap_read_requests a2 !! ctx = ap_read_requests a' !! ctx)).
Proof.
  intros Han Hq Hr Hs Hrun. split.
  - assert (ap_inv [ap_last_applied_index a] a (mkHistory [] [] [] [])) as Hi.
    { split_and!; rewrite ?Han, ?Hq, ?Hr, ?Hs; set_solver. }
    pose proof (run_inv _ (a, cache, mkHistory [] [] [] []) evs _ Hi Hrun) as (_ & _ & _ & Ha & _). done.
  - intros Hne Hc Hpos Hf Hqo Hd Hst Hsg Hfin.
    destruct (apply_loop_ok entries es a' cache' [] m1) as (c2 & ccs & Hloop); [..|done|done|].
    { intros _ _. destruct entries as [|e entries]; [done|]. exists e. split; [done|].
      pose proof (Hc 0%nat e eq_refl). lia. }
    { exists from. split; [done|]. destruct Hf; [by left|by right]. }
    unfold apply_entries. rewrite Hst. cbn [must result_bind]. rewrite Hloop. cbn [result_bind].
    cbn [set_machine ap_state_machine ap_last_applied_index ap_group_id ap_proposal_queue ap_read_requests
         ap_read_states ap_answers ap_next_read_state_index].
    rewrite Hfin. cbn [must result_bind]. rewrite (response_all _ _ from) by done.
    unfold response_cached_read_states. cbn [set_queue set_machine ap_proposal_queue ap_group_id ap_answers ap_read_states
      ap_read_requests ap_last_applied_index ap_state_machine].
    assert (default (ap_last_applied_index a') (e_index <$> last entries) = from + Z.of_nat (length entries) - 1) as ->.
    { destruct (last entries) as [el|] eqn:El; [|by apply last_None in El]. cbn.
      rewrite (consecutive_last _ _ _ Hc El). lia. }
    unfold response_read_states. destruct (answer_read_states _ _) as [rq an] eqn:Er.
    destruct (answered_reads _ _ _ _ Er) as [Hreads Hkeep].
    assert (Hle : ∀ rs, rs ∈ List.filter (λ rs, rs_index rs <=? from + Z.of_nat (length entries) - 1) (ap_read_states a') ↔
      rs ∈ ap_read_states a' ∧ rs_index rs < from + Z.of_nat (length entries)).
    { intros rs. rewrite list_elem_of_In, filter_In, <- list_elem_of_In, Z.leb_le. intuition lia. }
    eexists _, c2, ccs, an. split; [done|]. cbn. split_and!; [done|lia|done|by rewrite app_assoc| | |].
    + intros rs senders s Hrs Hlt. apply Hreads. by apply Hle.
    + apply List.filter_ext. intros rs. apply Bool.eq_iff_eq_true. rewrite Z.ltb_lt, Z.leb_le. lia.
    + intros ctx Hctx. apply Hkeep. intros rs [? ?]%Hle. by apply Hctx.
Qed.
End Props.
