(* ===== verification/RaftSamples.v ===== *)
(** * A sample raft log: a new replica that writes, applies, compacts, is
    overwritten, restarts and installs a snapshot *)

From S2P Require Import Prelude Bytes Api RocksDb Engine Samples Fsm LogEngine RaftStorage RaftStorageProps Applier.
From S2P Require Import ApplierProps.
#[local] Open Scope Z_scope.

#[global] Instance HardState_eq_dec : EqDecision HardState.
Proof. solve_decision. Defined.
#[global] Program Instance HardState_countable : Countable HardState :=
  inj_countable' (λ h, (hs_term h, hs_vote h, hs_commit h)) (λ '(t, v, c), mkHardState t v c) _.
Next Obligation. by intros []. Qed.
#[global] Instance HardState_codec : Codec HardState := countable_codec _.
#[global] Instance HardState_codec_ok : CodecOk HardState := countable_codec_ok _.
#[global] Instance RaftLocalState_eq_dec : EqDecision RaftLocalState.
Proof. solve_decision. Defined.
#[global] Program Instance RaftLocalState_countable : Countable RaftLocalState :=
  inj_countable' (λ l, (rl_replica_id l, rl_last_truncated l)) (λ '(i, t), mkRaftLocalState i t) _.
Next Obligation. by intros []. Qed.
#[global] Instance RaftLocalState_codec : Codec RaftLocalState := countable_codec _.
#[global] Instance RaftLocalState_codec_ok : CodecOk RaftLocalState := countable_codec_ok _.
(** Of an entry only the size of its encoding matters here. *)
#[global] Instance Entry_codec : Codec Entry := {| encode_to_vec e := e_data e; decode_msg _ := None |}.

Definition sample_entry (index term : Z) : Entry :=
  mkEntry EntryNormal term index (str_bytes "data") [] false.
Definition sample_log0 : RaftLog := mkRaftLog (mkEntryId 0 0) [] 0 (mkHardState 0 0 0).
Definition sample_region : LogEngine :=
  {[ 1 := mkMemTable 0 [] (<[LOCAL_STATE_KEY := encode_to_vec (mkRaftLocalState 1 (Some (mkEntryId 0 0)))]>
       (<[HARD_STATE_KEY := encode_to_vec (mkHardState 0 0 0)]> ∅)) ]}.
Definition sample_storage : Storage :=
  mkStorage 1 1 0 [] (mkRaftLocalState 1 (Some (mkEntryId 0 0))) (mkHardState 0 0 0) None false false.

Lemma sample_storage_repr : storage_repr (sample_storage, sample_region) sample_log0.
Proof.
  split_and!; [done..| |].
  - exists 1. split_and!; [apply consecutive_nil|done..].
  - eexists. split; [apply lookup_singleton_eq|]. split_and!; [done..| |];
      cbn [mt_kvs]; [rewrite lookup_insert_ne by (apply not_eq_sym, keys_differ)|]; by rewrite lookup_insert_eq.
Qed.

Definition sample_log_ops : list LogOp :=
  [LWrite (mkWriteTask (Some (mkHardState 1 1 4)) [sample_entry 1 1; sample_entry 2 1; sample_entry 3 1;
     sample_entry 4 1; sample_entry 5 1] None);
   LApplied 4; LCompact 3;
   LWrite (mkWriteTask (Some (mkHardState 2 1 4)) [sample_entry 5 2; sample_entry 6 2] None);
   LReopen 3; LApplied 5].
Definition sample_conf : ConfState := mkConfState [1] [] [] [] false.

Ltac consecutive_by_cases :=
  let j := fresh in let e := fresh in let He := fresh in
  intros j e He; repeat (destruct j as [|j]; [injection He as <-; reflexivity|]); discriminate He.

Lemma raft_storage_refines_witness :
  ops_ok sample_log0 sample_log_ops ∧
  ∃ s', run_ops sample_conf (sample_storage, sample_region) sample_log_ops = Ok s' ∧
    storage_entries s'.1 s'.2 4 7 None = Ok [sample_entry 4 1; sample_entry 5 2; sample_entry 6 2] ∧
    storage_term s'.1 s'.2 2 = Ok 1 ∧ storage_term s'.1 s'.2 1 = Err Compacted.
Proof.
  assert (ops_ok sample_log0 sample_log_ops) as Hops.
  { unfold sample_log_ops. cbn [ops_ok op_ok wt_snapshot wt_entries].
    split_and!; first [done | vm_compute; reflexivity | vm_compute; discriminate | consecutive_by_cases]. }
  split; [exact Hops|].
  destruct (raft_storage_refines sample_conf (sample_storage, sample_region) sample_log0 sample_log_ops)
    as (s' & Hrun & _ & _ & Hent & _ & Htr & Hc & _).
  - apply sample_storage_repr.
  - split_and!; [done|apply consecutive_nil|done..].
  - exact Hops.
  - exists s'. split; [exact Hrun|]. split; [|split; [exact Htr|apply Hc; reflexivity]].
    destruct (Hent 4 7 None) as (es & Hes & _ & _ & Heq); [split; reflexivity || discriminate..|discriminate|].
    rewrite Hes. f_equal. exact (Heq eq_refl).
Defined.

(** * Sample runs of the applier, and two that go wrong *)
(** A state machine that remembers the entries it was given. *)
#[local] Instance sample_machine : StateMachine (list (Z * Z)) unit := {|
  sm_start_plug _ := Ok tt;
  sm_apply i t _ m := Ok (m ++ [(i, t)]);
  sm_finish_plug m := Ok m;
  sm_apply_snapshot _ m := Ok m;
  sm_descriptor _ := mkGroupDesc 1 1 [] [];
  sm_flushed_index _ := Ok 0;
|}.
#[local] Instance sample_cc_codec : Codec ConfChangeV2 := {| encode_to_vec _ := []; decode_msg _ := None |}.
#[local] Instance sample_changes_codec : Codec ChangeReplicas := {| encode_to_vec _ := []; decode_msg _ := Some [] |}.
#[local] Instance sample_eval_codec : Codec EvalResult :=
  {| encode_to_vec _ := str_bytes "e"; decode_msg _ := Some (mkEvalResult None None) |}.

Definition sample_applier (last : Z) : Applier (list (Z * Z)) := mkApplier 7 [] 0 ∅ [] last [] [].
Definition normal (index term : Z) : Entry := mkEntry EntryNormal term index (str_bytes "e") [] false.

Definition sample_applier_events : list (ApEvent (Snap := unit)) :=
  [EvPropose 5 1 50%nat; EvPropose 6 1 60%nat; EvRead [10%nat]; EvReadStates [mkReadState 5 (le_bytes 8 0)]].

Definition sample_applied : Applier (list (Z * Z)) * _ * _ :=
  match ap_run (sample_applier 4, ∅, mkHistory [] [] [] []) sample_applier_events with
  | Ok st => st
  | _ => (sample_applier 0, ∅, mkHistory [] [] [] [])
  end.
Abbreviation a' := (sample_applied.1.1).
Abbreviation c' := (sample_applied.1.2).
Abbreviation h' := (sample_applied.2).
Lemma applier_answers_witness :
  ∃ a2 cache2 ccs reads,
    ap_run (sample_applier 4, ∅, mkHistory [] [] [] []) sample_applier_events = Ok (a', c', h') ∧
    apply_entries c' [normal 5 1; normal 6 2] a' = Ok (a2, cache2, ccs) ∧
    ap_last_applied_index a2 = 6 ∧
    ap_answers a2 = [(50%nat, Ok tt); (60%nat, Err (NotLeader 7 2 None))] ++ reads.
Proof.
  assert (ap_run (sample_applier 4, ∅, mkHistory [] [] [] []) sample_applier_events = Ok (a', c', h')) as E by computed.
  pose proof (applier_answers (sample_applier 4) ∅ sample_applier_events a' c' h' [normal 5 1; normal 6 2]
    [(5, 1, Proposal (mkEvalResult None None)); (6, 2, Proposal (mkEvalResult None None))]
    [(5, 1); (6, 2)] [(5, 1); (6, 2)] 5 eq_refl eq_refl eq_refl eq_refl E) as [_ Hans].
  assert (queue_ok 5 (ap_proposal_queue a')) as Hq.
  { assert (ap_proposal_queue a' = [mkProposalContext 5 1 50; mkProposalContext 6 1 60]) as -> by computed.
    split; [repeat constructor|]. intros c [->|[->|Hc]%elem_of_cons]%elem_of_cons; [discriminate..|by apply elem_of_nil in Hc]. }
  destruct Hans as (a2 & c2 & ccs & reads & Happ & _ & Hlast & _ & Han & _); [done| |done|right; computed|exact Hq|computed..|].
  - intros [|[|j]] e He; [injection He as <-; reflexivity..|discriminate He].
  - exists a2, c2, ccs, reads. split; [exact E|]. split; [exact Happ|]. split; [exact Hlast|].
    replace (ap_answers a') with (@nil (Sender * Result unit)) in Han by computed. exact Han.
Defined.

(** A leader that lost and regained its office: only the newest of its old
    proposals is taken off the queue, so a proposal of the new term ends up
    behind an old one of the same index.  Its entry is applied, but it is not
    answered, then or later, and neither is anything behind it. *)
Definition requeued : Applier (list (Z * Z)) :=
  foldl (λ a '(i, t, s), delegate_proposal_context i t s a) (sample_applier 4)
    [(5, 1, 51%nat); (6, 1, 61%nat); (7, 1, 71%nat); (6, 3, 63%nat); (7, 3, 73%nat)].
Lemma stale_proposal_blocks_answers :
  (λ '(a, _, _), (ap_answers a, ap_proposal_queue a)) <$>
    match apply_entries ∅ [normal 5 3; normal 6 3; normal 7 3; normal 8 3] requeued with Ok st => Some st | _ => None end =
  Some ([(71%nat, Err (NotLeader 7 3 None)); (51%nat, Err (NotLeader 7 3 None)); (61%nat, Err (NotLeader 7 3 None))],
    [mkProposalContext 6 3 63; mkProposalContext 7 3 73]).
Proof. computed. Qed.

(** Entering a joint configuration moves replica 3 out and 4 in; a replica
    that restarts then rebuilds an outgoing configuration of replica 3 alone,
    where raft's is 1, 2 and 3: both majorities no longer include one of the
    old configuration. *)
Lemma joint_conf_state_drops_voters :
  let desc := mkGroupDesc 1 1 [] [mkReplicaDesc 1 1 0; mkReplicaDesc 2 2 0; mkReplicaDesc 3 3 0; mkReplicaDesc 4 4 1] in
  ∃ desc', apply_enter_joint desc [mkChangeReplica 0 4 4; mkChangeReplica 2 3 3] = Ok desc' ∧
    cf_voters (conf_state_from_group_descriptor desc) = [1; 2; 3] ∧
    cf_voters_outgoing (conf_state_from_group_descriptor desc') = [3].
Proof. eexists. split; [reflexivity|]. split; reflexivity. Qed.
