(* ===== verification/Replica.v ===== *)
(** * Executing requests on a replica ([server/src/replica/mod.rs], [retry.rs])

    [execute] takes the metadata lock, admits the request, takes the row
    latches, evaluates the command and proposes its result; [retry_execute] is
    the loop around it.  The world [W] of a replica holds its engine and its
    lease state; what a request does to it apart from evaluating (latches,
    locks, proposals, other requests while it waits) is the class
    [ReplicaEnv]. *)

From S2P Require Import Prelude Bytes Rock Api Errors Schema Router GroupClient.
From S2P Require Import RocksDb Keys Engine Cas EvalTxn EvalRead EvalWrite Fsm Lease Latch.

Class ReplicaEnv (DB W G : Type) := {
  re_engine : W → GroupEngine DB;
  re_info : W → ReplicaInfo;
  re_lease : W → LeaseState;
  (** the clock of [batch_write], and the split keys RocksDB suggests *)
  re_next_version : W → nat → Z;
  re_split_keys : W → bytes → bytes → list bytes;
  (** the row latches: waiting for one, giving one back *)
  re_acquire : Z → bytes → W → Result G * W;
  re_release : G → W → W;
  (** [RaftGroup] *)
  re_propose : EvalResult → W → Result unit * W;
  re_change_config : ChangeReplicas → W → Result unit * W;
  re_transfer_leader : Z → W → Result unit * W;
  (** [MoveReplicasProvider::assign], and the answer of the scheduler *)
  re_assign : Z → list ReplicaDesc → list ReplicaDesc → W → Result unit * W;
  (** the channel of watchers; [None] when the state machine is gone *)
  re_watch : Z * bytes → Z → W → option W;
  (** the metadata lock *)
  re_take_acl : MetaAclGuard → W → W;
  re_try_acl : MetaAclGuard → W → option W;
  re_drop_acl : MetaAclGuard → W → W;
  re_sleep : W → W;
}.

Section Replica.
  Context {DB : Type} `{RocksDb DB} `{Codec TxnIntent} `{Codec WriteBatch}.
  Context {W G : Type} {LG : LatchGuard W G} {LM : LatchManager W} {RE : ReplicaEnv DB W G}.
  Abbreviation M := (prog W Error).
  Abbreviation Latches := (DeferSignalLatchGuard G).

Definition call {A} (f : W → Result A * W) : M A := λ w, Some (f w).

(** ** The row latches *)
Definition release_all (latches : gmap ShardKey G) (w : W) : W :=
  fold_left (λ w p, re_release p.2 w) (map_to_list latches) w.
(** Dropping the guards: the deferred signal first, then the latches. *)
Definition drop_latches (latches : option Latches) (w : W) : W :=
  match latches with
  | None => w
  | Some d => release_all (dl_latches d) (defer_drop d w)
  end.

Fixpoint acquire_latches (shard_id : Z) (keys : list bytes) (latches : gmap ShardKey G) (w : W) :
    Result (gmap ShardKey G) * W :=
  match keys with
  | [] => (Ok latches, w)
  | user_key :: keys' =>
      match re_acquire shard_id user_key w with
      | (Ok latch, w) =>
          let k := mkShardKey shard_id user_key in
          let w := match latches !! k with Some old => re_release old w | None => w end in
          acquire_latches shard_id keys' (<[k := latch]> latches) w
      | (Err e, w) => (Err e, release_all latches w)
      | (Panic, w) => (Panic, w)
      end
  end.
Definition acquire_row_latches (request : Request) (w : W) : Result (option Latches) * W :=
  match row_latch_keys request with
  | Ok None => (Ok None, w)
  | Ok (Some (shard_id, keys)) =>
      match acquire_latches shard_id keys ∅ w with
      | (Ok latches, w) => (Ok (Some (mkDefer None latches)), w)
      | (Err e, w) => (Err e, w)
      | (Panic, w) => (Panic, w)
      end
  | Err e => (Err e, w)
  | Panic => (Panic, w)
  end.

(** ** [evaluate_command] *)
Abbreviation Eval := (prog (option Latches * W) Error).
Definition lift_w {A} (m : M A) : Eval A := λ '(l, w),
  match m w with None => None | Some (r, w) => Some (r, (l, w)) end.
(** A handler that needs the latches, [latches.as_mut().expect(..)]. *)
Definition with_latches {A} (m : prog (EvalState W G) Error A) : Eval A := λ '(l, w),
  match l with
  | None => Some (Panic, (None, w))
  | Some d => match m (d, w) with None => None | Some (r, (d, w)) => Some (r, (Some d, w)) end
  end.

Definition eval_command (fuel : nat) (exec_ctx : ExecCtx) (request : Request) :
    Eval (option EvalResult * Response) :=
  match request with
  | RGet req =>
      let* value := lift_w (call (get re_engine exec_ctx req)) in prog_lift (Ok (None, SGetResp value))
  | RWrite req =>
      let* ' (eval_result, resp) := lift_w (prog_reads (λ w,
        batch_write (re_next_version w) exec_ctx (re_engine w) req)) in
      prog_lift (Ok (eval_result, SWriteResp resp))
  | RWriteIntent req =>
      let* ' (eval_result, resp) := with_latches (write_intent re_engine fuel exec_ctx req) in
      prog_lift (Ok (eval_result, SWriteIntentResp resp))
  | RCommitIntent req =>
      let* eval_result := with_latches (commit_intent re_engine exec_ctx req) in
      prog_lift (Ok (eval_result, SCommitIntentResp))
  | RClearIntent req =>
      let* eval_result := with_latches (clear_intent re_engine exec_ctx req) in
      prog_lift (Ok (eval_result, SClearIntentResp))
  | RScan req =>
      let* resp := lift_w (call (scan re_engine exec_ctx req)) in prog_lift (Ok (None, SScanResp resp))
  | RCreateShard req =>
      let* shard := prog_lift (ok_or (cs_shard req) (InvalidArgument "CreateShard::shard")) in
      let* eval_result := lift_w (prog_reads (λ w,
        match ge_shard_desc (re_engine w) (sd_id shard) with
        | Ok _ => Ok None
        | _ => Ok (Some (add_shard shard))
        end)) in
      prog_lift (Ok (eval_result, SCreateShardResp))
  | RChangeReplicas req =>
      do* (match chr_change_replicas req with
           | Some change => lift_w (call (re_change_config change))
           | None => prog_lift (Ok tt)
           end) in
      prog_lift (Ok (None, SChangeReplicasResp))
  | RMoveReplicas req =>
      do* lift_w (call (re_assign (ec_epoch exec_ctx) (mr_incoming_voters req) (mr_outgoing_voters req))) in
      let* state := lift_w (prog_reads (λ w, Ok (ls_schedule_state (re_lease w)))) in
      prog_lift (Ok (None, SMoveReplicasResp (Some state)))
  | RAcceptShard req =>
      let* eval_result := lift_w (prog_reads (λ w,
        Ok (accept_shard (ri_group_id (re_info w)) (ec_epoch exec_ctx) req))) in
      prog_lift (Ok (Some eval_result, SAcceptShardResp))
  | RTransfer req =>
      do* lift_w (call (re_transfer_leader (tf_transferee req))) in prog_lift (Ok (None, STransferResp))
  | RWatchKey req =>
      let* watcher := prog_lift (expect (ec_watch_event_sender exec_ctx)) in
      do* lift_w (λ w,
        match re_watch (wk_shard_id req, wk_key req) watcher w with
        | Some w => Some (Ok tt, w)
        | None => Some (Panic, w)
        end) in
      prog_lift (Ok (None, SWatchKeyResp (mkWatchKeyResponse 0 None)))
  | RSplitShard req =>
      let* eval_result := lift_w (prog_reads (λ w, split_shard (re_split_keys w) (re_engine w) req)) in
      prog_lift (Ok (Some eval_result, SSplitShardResp))
  | RMergeShard req =>
      let* eval_result := lift_w (prog_reads (λ w, merge_shard (re_engine w) req)) in
      prog_lift (Ok (Some eval_result, SMergeShardResp))
  end.

Definition propose_result (eval_result : option EvalResult) : M unit :=
  match eval_result with Some er => call (re_propose er) | None => prog_lift (Ok tt) end.

Definition evaluate_command (fuel : nat) (exec_ctx : ExecCtx) (request : Request) : M Response := λ w,
  match acquire_row_latches request w with
  | (Err e, w) => Some (Err e, w)
  | (Panic, w) => Some (Panic, w)
  | (Ok latches, w) =>
      match (let* ' (eval_result, resp) := eval_command fuel exec_ctx request in
             do* lift_w (propose_result eval_result) in
             prog_lift (Ok resp)) (latches, w) with
      | None => None
      | Some (r, (latches, w)) => Some (r, drop_latches latches w)
      end
  end.

(** ** [execute], [try_execute] *)
Definition execute_admitted (fuel : nat) (guard : MetaAclGuard) (exec_ctx : ExecCtx) (request : Request) (w : W) :
    option (Result Response * ExecCtx * W) :=
  let '(r, exec_ctx) := check_request_early (re_info w) (re_lease w) exec_ctx request in
  match r with
  | Err e => Some (Err e, exec_ctx, re_drop_acl guard w)
  | Panic => Some (Panic, exec_ctx, w)
  | Ok _ =>
      match evaluate_command fuel exec_ctx request w with
      | None => None
      | Some (r, w) => Some (r, exec_ctx, re_drop_acl guard w)
      end
  end.
Definition execute (fuel : nat) (exec_ctx : ExecCtx) (request : Request) (w : W) :
    option (Result Response * ExecCtx * W) :=
  if is_terminated (re_info w) then Some (Err (GroupNotFound (ri_group_id (re_info w))), exec_ctx, w)
  else
    let guard := take_acl_guard request in
    execute_admitted fuel guard exec_ctx request (re_take_acl guard w).
Definition try_execute (fuel : nat) (exec_ctx : ExecCtx) (request : Request) : M Response := λ w,
  if is_terminated (re_info w) then Some (Err (GroupNotFound (ri_group_id (re_info w))), w)
  else
    let guard := take_acl_guard request in
    match re_try_acl guard w with
    | None => Some (Err (ServiceIsBusy AclGuard), w)
    | Some w =>
        match execute_admitted fuel guard exec_ctx request w with
        | None => None
        | Some (r, _, w) => Some (r, w)
        end
    end.

(** ** [retry.rs] *)
Definition retry_is_target_shard_exists (desc : GroupDesc) (shard_id : Z) (key : bytes) : bool :=
  match List.find (λ s, sd_id s =? shard_id) (gd_shards desc) with
  | Some s => belong_to s key
  | None => false
  end.
Definition is_scan_retryable (desc : GroupDesc) (req : ShardScanRequest) : bool :=
  match ss_prefix req with
  | Some prefix => retry_is_target_shard_exists desc (ss_shard_id req) prefix
  | None => false
  end.
Definition retry_is_executable (descriptor : GroupDesc) (request : Request) : bool :=
  match request with
  | RGet req => retry_is_target_shard_exists descriptor (sg_shard_id req) (sg_user_key req)
  | RScan req => is_scan_retryable descriptor req
  | RWrite req =>
      forallb (λ delete, retry_is_target_shard_exists descriptor (sw_shard_id req) (del_key delete)) (sw_deletes req)
      && forallb (λ put, retry_is_target_shard_exists descriptor (sw_shard_id req) (put_key put)) (sw_puts req)
  | RWriteIntent req =>
      match wi_write req with
      | Some (WPut put) => retry_is_target_shard_exists descriptor (wi_shard_id req) (put_key put)
      | Some (WDelete delete) => retry_is_target_shard_exists descriptor (wi_shard_id req) (del_key delete)
      | None => false
      end
  | RCommitIntent req => retry_is_target_shard_exists descriptor (ci_shard_id req) (ci_user_key req)
  | RClearIntent req => retry_is_target_shard_exists descriptor (cl_shard_id req) (cl_user_key req)
  | RWatchKey req => retry_is_target_shard_exists descriptor (wk_shard_id req) (wk_key req)
  | RAcceptShard _ | RCreateShard _ | RChangeReplicas _ | RTransfer _ | RMoveReplicas _ | RSplitShard _ | RMergeShard _ =>
      false
  end.

Definition GroupResponse_new (resp : Response) : GroupResponse := mkGroupResponse (Some (Some resp)) None.
Definition GroupResponse_with_error (resp : Response) (error : V1Error) : GroupResponse :=
  mkGroupResponse (Some (Some resp)) (Some error).
Definition set_ctx_epoch (c : ExecCtx) (epoch : Z) : ExecCtx :=
  mkExecCtx (ec_group_id c) (ec_replica_id c) (ec_forward_shard_id c) epoch (ec_watch_event_sender c) (ec_move_shard_desc c).

(** The rounds of [retry::execute]: nothing bounds them while the replica is
    busy, so [rounds] does. *)
Fixpoint retry_loop (rounds fuel : nat) (exec_ctx : ExecCtx) (request : Request) (freshed : option GroupDesc) :
    M GroupResponse := λ w,
  match rounds with
  | O => None
  | S rounds' =>
      match execute fuel (ExecCtx_reset exec_ctx) request w with
      | None => None
      | Some (Ok resp, _, w) =>
          match freshed with
          | Some descriptor =>
              Some (match to_wire (EpochNotMatch descriptor) with
                    | Ok err => Ok (GroupResponse_with_error resp err)
                    | _ => Panic
                    end, w)
          | None => Some (Ok (GroupResponse_new resp), w)
          end
      | Some (Err (ServiceIsBusy _), exec_ctx, w) | Some (Err (GroupNotReady _), exec_ctx, w) =>
          retry_loop rounds' fuel exec_ctx request freshed (re_sleep w)
      | Some (Err (EpochNotMatch desc), exec_ctx, w) =>
          if retry_is_executable desc request
          then retry_loop rounds' fuel (set_ctx_epoch exec_ctx (gd_epoch desc)) request (Some desc) w
          else Some (Err (EpochNotMatch desc), w)
      | Some (Err (ShardNotFound shard_id), exec_ctx, w) =>
          match ec_forward_shard_id exec_ctx with
          | None => Some (Panic, w)
          | Some _ => Some (Err (EpochNotMatch (ls_descriptor (re_lease w))), w)
          end
      | Some (Err e, _, w) => Some (Err e, w)
      | Some (Panic, _, w) => Some (Panic, w)
      end
  end.
Definition retry_execute (rounds fuel : nat) (exec_ctx : ExecCtx) (request : GroupRequest) : M GroupResponse := λ w,
  let exec_ctx := mkExecCtx (ri_group_id (re_info w)) (ri_replica_id (re_info w)) (ec_forward_shard_id exec_ctx)
    (gr_epoch request) (ec_watch_event_sender exec_ctx) (ec_move_shard_desc exec_ctx) in
  match gr_request request ≫= id with
  | None => Some (Err (InvalidArgument "GroupRequest::request is None"), w)
  | Some request => retry_loop rounds fuel exec_ctx request None w
  end.
End Replica.
