(* ===== verification/ReplicaProps.v ===== *)
(** * A request takes effect at most once

    Executing a request, with all the rounds of [retry::execute], changes the
    group at most once, and not at all when the answer is an error that asks
    the sender to try again. *)

From S2P Require Import Prelude Bytes Rock Api Errors Schema Router GroupClient.
From S2P Require Import RocksDb Keys Engine Cas EvalTxn EvalRead EvalWrite Fsm Lease Latch Replica.

(** Errors that say a command was not taken. *)
Definition declined (e : Error) : Prop :=
  match e with
  | NotLeader _ _ _ | GroupNotFound _ | EpochNotMatch _ | ServiceIsBusy _ | GroupNotReady _ | ShardNotFound _
  | Forward _ | DatabaseNotFound _ => True
  | _ => False
  end.

(** ** Programs that leave a counter alone, or raise it once *)
Section Counter.
  Context {S A : Type} (count : S → nat).

Definition quiet (m : prog S Error A) : Prop := ∀ s r s', m s = Some (r, s') → count s' = count s.
Definition counted (s : S) (r : Result A) (s' : S) : Prop :=
  (count s' ≤ 1 + count s)%nat ∧ match r with Err e => declined e → count s' = count s | _ => True end.
Definition once (m : prog S Error A) : Prop := ∀ s r s', m s = Some (r, s') → counted s r s'.

Lemma quiet_once m : quiet m → once m.
Proof. intros Hm s r s' E%Hm. split; [lia|]. by destruct r. Qed.
Lemma quiet_lift r : quiet (prog_lift r).
Proof. by intros s r' s' [= _ <-]. Qed.
Lemma quiet_reads f : quiet (prog_reads f).
Proof. by intros s r' s' [= _ <-]. Qed.
Lemma once_quiet_trans s s1 r s' : count s1 = count s → counted s1 r s' → counted s r s'.
Proof. unfold counted. by intros ->. Qed.
End Counter.
Arguments quiet {S A} count m.
Arguments once {S A} count m.
#[export] Hint Resolve quiet_lift quiet_reads quiet_once : sekas.

Lemma prog_bind_inv {S E A B} (m : prog S E A) (k : A → prog S E B) s r s' :
  prog_bind m k s = Some (r, s') →
  (∃ a s1, m s = Some (Ok a, s1) ∧ k a s1 = Some (r, s')) ∨
  (∃ e, m s = Some (Err e, s') ∧ r = Err e) ∨ (m s = Some (Panic, s') ∧ r = Panic).
Proof.
  unfold prog_bind. destruct (m s) as [[[a|e|] s1]|]; [|intros [= <- <-]..|done]; [by eauto 6|by eauto 6|by eauto].
Qed.

Section Bind.
  Context {S A B : Type} (count : S → nat).

Lemma quiet_bind (m : prog S Error A) (k : A → prog S Error B) :
  quiet count m → (∀ a, quiet count (k a)) → quiet count (prog_bind m k).
Proof.
  intros Hm Hk s r s' [(a & s1 & E1 & E)|[(e & E & _)|[E _]]]%prog_bind_inv.
  - apply Hm in E1. apply Hk in E. congruence.
  - by apply Hm in E.
  - by apply Hm in E.
Qed.
Lemma once_bind (m : prog S Error A) (k : A → prog S Error B) :
  quiet count m → (∀ a, once count (k a)) → once count (prog_bind m k).
Proof.
  intros Hm Hk s r s' [(a & s1 & E1 & E)|[(e & E & ->)|[E ->]]]%prog_bind_inv.
  - apply Hm in E1. apply Hk in E. by eapply once_quiet_trans.
  - apply Hm in E. split; [lia|done].
  - apply Hm in E. split; [lia|done].
Qed.
(** After the effect only an answer follows. *)
Lemma once_answer (m : prog S Error A) (k : A → prog S Error B) :
  once count m → (∀ a s r s', k a s = Some (r, s') → count s' = count s ∧ ∃ b, r = Ok b) → once count (prog_bind m k).
Proof.
  intros Hm Hk s r s' [(a & s1 & E1 & E)|[(e & E & ->)|[E ->]]]%prog_bind_inv.
  - apply Hm in E1 as [E1 _]. apply Hk in E as [E [b ->]]. split; [lia|done].
  - by apply Hm in E.
  - by apply Hm in E as [E _].
Qed.
End Bind.
#[export] Hint Resolve quiet_bind once_bind : sekas.

(** ** What the services promise *)
Class ReplicaEnvOk {DB W G} (RE : ReplicaEnv DB W G) (LG : LatchGuard W G) (LM : LatchManager W) (execs : W → nat) := {
  ok_resolve w s k a b : execs (mgr_resolve_txn w s k a b).2 = execs w;
  ok_guard_resolve g i w : execs (guard_resolve_txn g i w).2 = execs w;
  ok_signal g st v w : execs (guard_signal_all g st v w) = execs w;
  ok_acquire s k w : execs (re_acquire s k w).2 = execs w;
  ok_release g w : execs (re_release g w) = execs w;
  ok_watch k c w w' : re_watch k c w = Some w' → execs w' = execs w;
  ok_take_acl g w : execs (re_take_acl g w) = execs w;
  ok_try_acl g w w' : re_try_acl g w = Some w' → execs w' = execs w;
  ok_drop_acl g w : execs (re_drop_acl g w) = execs w;
  ok_sleep w : execs (re_sleep w) = execs w;
  (** an effect happens once, and not when it is declined *)
  ok_propose er : once execs (call (re_propose er));
  ok_change_config c : once execs (call (re_change_config c));
  ok_transfer t : once execs (call (re_transfer_leader t));
  ok_assign e i o : once execs (call (re_assign e i o));
}.

Section Props.
  Context {DB : Type} `{RocksDb DB} `{Codec TxnIntent} `{Codec WriteBatch}.
  Context {W G : Type} {LG : LatchGuard W G} {LM : LatchManager W} {RE : ReplicaEnv DB W G}.
  Context {execs : W → nat} {OK : ReplicaEnvOk RE LG LM execs}.

(** *** Reads *)
Ltac settle :=
  repeat (case_match; simplify_eq/=; try done);
  repeat match goal with
  | E : mgr_resolve_txn ?w ?s ?k ?a ?b = (_, ?w') |- _ =>
      let Hr := fresh in pose proof (ok_resolve w s k a b) as Hr; rewrite E in Hr; cbn in Hr; clear E
  end.
Lemma read_key_loop_quiet fuel s shard_id key v w : execs (read_key_loop fuel s shard_id key v w).2 = execs w.
Proof.
  revert s w. induction fuel as [|fuel IH]; intros s w; [done|]. cbn [read_key_loop].
  settle; rewrite ?IH; congruence.
Qed.
Lemma get_quiet exec_ctx req w : execs (get re_engine exec_ctx req w).2 = execs w.
Proof. unfold get, read_key. repeat (case_match; try done). apply read_key_loop_quiet. Qed.

Lemma scan_entry_quiet req entry w : execs (scan_entry req entry w).2 = execs w.
Proof. unfold scan_entry, scan_resolve_txn. settle; congruence. Qed.
Lemma scan_value_set_loop_quiet fuel s req w vs t : execs (scan_value_set_loop fuel s req w vs t).2 = execs w.
Proof.
  revert s w vs t. induction fuel as [|fuel IH]; intros s w vs t; [done|]. cbn [scan_value_set_loop].
  repeat (case_match; simplify_eq/=; try done); rewrite ?IH;
    match goal with E : scan_entry ?r ?e ?w = _ |- _ => pose proof (scan_entry_quiet r e w) as Hq; by rewrite E in Hq end.
Qed.
Lemma scan_value_set_quiet s req w : execs (scan_value_set s req w).2 = execs w.
Proof.
  unfold scan_value_set. pose proof (scan_value_set_loop_quiet (S (items_left s)) s req w [] 0) as Hq.
  destruct (scan_value_set_loop _ _ _ _ _ _) as [[r s'] w']. repeat (case_match; simplify_eq/=; try done).
Qed.
Lemma scan_inner_loop_quiet fuel s req w data t : execs (scan_inner_loop fuel s req w data t).2 = execs w.
Proof.
  revert s w data t. induction fuel as [|fuel IH]; intros s w data t; [done|]. cbn [scan_inner_loop].
  repeat (case_match; simplify_eq/=; try done); rewrite ?IH;
    match goal with E : scan_value_set ?s ?r ?w = _ |- _ => pose proof (scan_value_set_quiet s r w) as Hq; by rewrite E in Hq end.
Qed.
Lemma scan_quiet exec_ctx req w : execs (scan re_engine exec_ctx req w).2 = execs w.
Proof. unfold scan. repeat (case_match; try done). apply scan_inner_loop_quiet. Qed.

(** *** Handlers that hold latches *)
Abbreviation inner := (λ st : EvalState W G, execs st.2).
Lemma resolve_quiet shard_id key intent : quiet inner (defer_resolve_txn shard_id key intent).
Proof.
  intros [d w] r [d' w']. unfold defer_resolve_txn. destruct (dl_latches d !! _) as [g|]; [|by intros [= _ _ <-]].
  pose proof (ok_guard_resolve g intent w) as Hg. destruct (guard_resolve_txn g intent w) as [[r1 g1] w1].
  by intros [= _ _ <-].
Qed.
Lemma signal_quiet st v : quiet inner (defer_signal_all st v).
Proof. intros [d w] r [d' w'] [= _ _ <-]. done. Qed.
Hint Resolve resolve_quiet signal_quiet : sekas.
Ltac quiet := repeat first [ solve [eauto 4 with sekas] | apply quiet_bind; [|intros ?] | case_match ].
Lemma read_first_quiet fuel v shard_id key : quiet inner (read_first_non_intent_key re_engine fuel v shard_id key).
Proof.
  induction fuel as [|fuel IH]; [by intros ???|]. cbn [read_first_non_intent_key].
  unfold with_engine. quiet.
Qed.
Hint Resolve read_first_quiet : sekas.
Lemma write_intent_quiet fuel exec_ctx req : quiet inner (write_intent re_engine fuel exec_ctx req).
Proof. unfold write_intent, with_engine. quiet. Qed.
Lemma commit_intent_quiet exec_ctx req : quiet inner (commit_intent re_engine exec_ctx req).
Proof. unfold commit_intent, with_engine. quiet. Qed.
Lemma clear_intent_quiet exec_ctx req : quiet inner (clear_intent re_engine exec_ctx req).
Proof. unfold clear_intent, with_engine. quiet. Qed.

(** *** [evaluate_command] *)
Abbreviation outer := (λ st : option (DeferSignalLatchGuard G) * W, execs st.2).
Lemma lift_quiet {A} (m : prog W Error A) : quiet execs m → quiet outer (lift_w (G := G) m).
Proof. intros Hm [l w] r [l' w']. unfold lift_w. destruct (m w) as [[r1 w1]|] eqn:E; [|done]. intros [= _ _ <-]. by eapply Hm. Qed.
Lemma lift_once {A} (m : prog W Error A) : once execs m → once outer (lift_w (G := G) m).
Proof. intros Hm [l w] r [l' w']. unfold lift_w. destruct (m w) as [[r1 w1]|] eqn:E; [|done]. intros [= -> _ <-]. by eapply Hm. Qed.
Lemma call_quiet {A} (f : W → Result A * W) : (∀ w, execs (f w).2 = execs w) → quiet execs (call f).
Proof. intros Hf w r w' [= E]. specialize (Hf w). by rewrite E in Hf. Qed.
Lemma latches_quiet {A} (m : prog (EvalState W G) Error A) : quiet inner m → quiet outer (with_latches m).
Proof.
  intros Hm [[d|] w] r [l' w']; cbn; [|by intros [= _ _ <-]].
  destruct (m (d, w)) as [[r1 [d1 w1]]|] eqn:E; [|done]. intros [= _ _ <-]. exact (Hm _ _ _ E).
Qed.
Hint Resolve lift_quiet lift_once call_quiet latches_quiet get_quiet scan_quiet write_intent_quiet commit_intent_quiet
  clear_intent_quiet ok_propose ok_change_config ok_transfer ok_assign : sekas.

(** A command either leaves everything to the proposal, or has no proposal. *)
Definition split_effect (m : prog (option (DeferSignalLatchGuard G) * W) Error (option EvalResult * Response)) : Prop :=
  quiet outer m ∨ (once outer m ∧ ∀ s r s' er, m s = Some (Ok (er, r), s') → er = None).
Lemma no_proposal {A} (m : prog (option (DeferSignalLatchGuard G) * W) Error A) resp :
  once outer m → split_effect (do* m in prog_lift (Ok (None, resp))).
Proof.
  intros Hm. right. split.
  - apply once_answer; [done|]. intros _ s r s' [= <- <-]. eauto.
  - intros s r s' er [(a & s1 & _ & [= <- _])|[(e & _ & [=])|[_ [=]]]]%prog_bind_inv. done.
Qed.
Lemma eval_command_effect fuel exec_ctx request : split_effect (eval_command fuel exec_ctx request).
Proof.
  destruct request; cbn [eval_command]; try (left; quiet; fail).
  - (* watch key *) left. quiet. apply lift_quiet. intros w r w'.
    destruct (re_watch _ _ w) as [w1|] eqn:E; [|by intros [= _ <-]]. intros [= _ <-]. by eapply ok_watch.
  - (* change replicas *) apply no_proposal. destruct (chr_change_replicas req); eauto with sekas.
  - (* transfer *) apply no_proposal. eauto with sekas.
  - (* move replicas *) right. split.
    + apply once_answer; [by eauto with sekas|]. intros _ s r s'.
      intros [(a & s1 & E1 & [= <- <-])|[(e & E & _)|[E _]]]%prog_bind_inv;
        destruct s as [l w]; cbn in *; simplify_eq; eauto.
    + intros s r s' er [(a & s1 & _ & E)|[(e & _ & [=])|[_ [=]]]]%prog_bind_inv.
      apply prog_bind_inv in E as [(b & s2 & _ & [= <- _])|[(e & _ & [=])|[_ [=]]]]. done.
Qed.

Lemma command_once fuel exec_ctx request :
  once outer (let* ' (eval_result, resp) := eval_command fuel exec_ctx request in
              do* lift_w (propose_result eval_result) in prog_lift (Ok resp)).
Proof.
  destruct (eval_command_effect fuel exec_ctx request) as [Hq|[Ho Hn]].
  - apply once_bind; [done|]. intros [er resp]. apply once_answer; [|intros _ s r s' [= <- <-]; by eauto].
    destruct er; cbn; eauto with sekas.
  - intros s r s' [([er resp] & s1 & E1 & E)|[(e & E & ->)|[E ->]]]%prog_bind_inv; [|by apply Ho in E..].
    pose proof (Hn _ _ _ _ E1) as ->. apply Ho in E1 as [E1 _]. cbn in E.
    destruct s1 as [l1 w1]. injection E as <- <-. by split.
Qed.

Lemma release_all_quiet l w : execs (release_all l w) = execs w.
Proof.
  unfold release_all. revert w. induction (map_to_list l) as [|p ps IH]; intros w; [done|]. cbn. by rewrite IH, ok_release.
Qed.
Lemma drop_latches_quiet l w : execs (drop_latches l w) = execs w.
Proof.
  destruct l as [d|]; [|done]. cbn. rewrite release_all_quiet. unfold defer_drop.
  destruct (dl_state d) as [[st v]|]; [|done]. revert w.
  induction (map_to_list (dl_latches d)) as [|p ps IH]; intros w; [done|]. cbn. by rewrite IH, ok_signal.
Qed.
Lemma acquire_latches_quiet shard_id keys l w : execs (acquire_latches shard_id keys l w).2 = execs w.
Proof.
  revert l w. induction keys as [|k keys IH]; intros l w; [done|]. cbn [acquire_latches].
  pose proof (ok_acquire shard_id k w) as Ha. destruct (re_acquire shard_id k w) as [[g|e|] w1]; cbn in *.
  - rewrite IH. destruct (l !! _); by rewrite ?ok_release.
  - by rewrite release_all_quiet.
  - done.
Qed.
Lemma acquire_row_quiet request w : execs (acquire_row_latches request w).2 = execs w.
Proof.
  unfold acquire_row_latches. destruct (row_latch_keys request) as [[[shard_id keys]|]|e|]; try done.
  pose proof (acquire_latches_quiet shard_id keys ∅ w). by destruct (acquire_latches shard_id keys ∅ w) as [[]].
Qed.

Lemma evaluate_once fuel exec_ctx request : once execs (evaluate_command fuel exec_ctx request).
Proof.
  intros w r w'. unfold evaluate_command. pose proof (acquire_row_quiet request w) as Ha.
  destruct (acquire_row_latches request w) as [[l|e|] w1]; cbn in Ha.
  - destruct (prog_bind _ _ (l, w1)) as [[r1 [l1 w2]]|] eqn:E; [|done]. intros [= <- <-].
    apply command_once in E. unfold counted in *. cbn in E. by rewrite drop_latches_quiet, <- Ha.
  - intros [= <- <-]. split; [lia|by intros].
  - intros [= <- <-]. split; [lia|done].
Qed.

Lemma admitted_once fuel guard exec_ctx request w r exec_ctx' w' :
  execute_admitted fuel guard exec_ctx request w = Some (r, exec_ctx', w') → counted execs w r w'.
Proof.
  unfold execute_admitted. destruct (check_request_early _ _ _ _) as [[u|e|] c].
  - destruct (evaluate_command fuel c request w) as [[r1 w1]|] eqn:E; [|done]. intros [= <- <- <-].
    apply evaluate_once in E. unfold counted in *. by rewrite ok_drop_acl.
  - intros [= <- <- <-]. unfold counted. rewrite ok_drop_acl. split; [lia|done].
  - intros [= <- <- <-]. split; [lia|done].
Qed.
Lemma execute_once fuel exec_ctx request w r exec_ctx' w' :
  execute fuel exec_ctx request w = Some (r, exec_ctx', w') → counted execs w r w'.
Proof.
  unfold execute. destruct (is_terminated (re_info w)); [intros [= <- <- <-]; by split; [lia|]|].
  intros E%admitted_once. eapply once_quiet_trans; [|done]. apply ok_take_acl.
Qed.
(** [try_execute] takes effect at most once too. *)
Lemma try_execute_once fuel exec_ctx request : once execs (try_execute fuel exec_ctx request).
Proof.
  intros w r w'. unfold try_execute. destruct (is_terminated (re_info w)); [intros [= <- <-]; by split; [lia|]|].
  destruct (re_try_acl _ w) as [w1|] eqn:Ea; [|intros [= <- <-]; by split; [lia|]].
  destruct (execute_admitted _ _ _ _ w1) as [[[r1 c1] w2]|] eqn:E; [|done]. intros [= <- <-].
  apply admitted_once in E. eapply once_quiet_trans; [|done]. by apply ok_try_acl in Ea.
Qed.

Lemma retry_loop_once rounds fuel exec_ctx request freshed : once execs (retry_loop rounds fuel exec_ctx request freshed).
Proof.
  revert exec_ctx freshed. induction rounds as [|rounds IH]; intros exec_ctx freshed w r w'; [done|]. cbn [retry_loop].
  destruct (execute fuel (ExecCtx_reset exec_ctx) request w) as [[[[resp|e|] c1] w1]|] eqn:E; [| | |done].
  - apply execute_once in E as [E _]. destruct freshed; cbn; intros [= <- <-]; by split.
  - apply execute_once in E as [E He].
    assert (declined e → ∀ c f w2, execs w2 = execs w1 → retry_loop rounds fuel c request f w2 = Some (r, w') →
      counted execs w r w') as Hgo.
    { intros Hd c f w2 E2 Er. apply IH in Er. eapply once_quiet_trans; [|done]. rewrite E2. by apply He. }
    destruct e; try (intros [= <- <-]; by split).
    + (* shard not found *) destruct (ec_forward_shard_id c1); intros [= <- <-]; split; auto.
    + apply Hgo; [done|]. apply ok_sleep.
    + apply Hgo; [done|]. apply ok_sleep.
    + destruct (retry_is_executable desc request); [by apply Hgo|]. intros [= <- <-]. by split.
  - apply execute_once in E as [E _]. intros [= <- <-]. by split.
Qed.

(** However many rounds the retry loop of a replica takes (the replica is
    busy, not yet ready, or has a newer descriptor), the request takes effect
    at most once; and when the answer is an error that makes the sender try
    again (not the leader, no such group, a mismatched epoch, busy, forward),
    it has not taken effect at all. *)
Lemma retry_execute_at_most_once rounds fuel exec_ctx request w r w' :
  retry_execute rounds fuel exec_ctx request w = Some (r, w') →
  (execs w' ≤ 1 + execs w)%nat ∧ match r with Err e => declined e → execs w' = execs w | _ => True end.
Proof.
  unfold retry_execute. destruct (gr_request request ≫= id) as [req|]; [apply retry_loop_once|].
  intros [= <- <-]. split; [lia|done].
Qed.

(** A response always carries an answer. *)
Definition answered (g : GroupResponse) : Prop := ∃ r, gp_response g = Some (Some r).
Lemma retry_answered rounds fuel exec_ctx request w g w' :
  retry_execute rounds fuel exec_ctx request w = Some (Ok g, w') → answered g.
Proof.
  unfold retry_execute. destruct (gr_request request ≫= id) as [req|]; [|done].
  generalize (@None GroupDesc) as f. generalize (mkExecCtx (ri_group_id (re_info w)) (ri_replica_id (re_info w))
    (ec_forward_shard_id exec_ctx) (gr_epoch request) (ec_watch_event_sender exec_ctx) (ec_move_shard_desc exec_ctx)) as c.
  revert w. induction rounds as [|n IH]; intros w c f; [done|]. cbn [retry_loop].
  repeat case_match; intros; simplify_eq; try (by eexists); eauto.
Qed.
End Props.
