(* ===== verification/ShardClient.v ===== *)
(** * The clients of shard moving ([client/src/shard_client.rs],
    [move_shard_client.rs], the moving part of [group_client.rs] and
    [rpc/node_client.rs])

    Each call builds a fresh group client and retries, without a deadline,
    what [RetryState] calls retryable. *)

From S2P Require Import Prelude Bytes Rock Api RocksDb Errors Schema Router GroupClient TxnTable.
#[local] Open Scope Z_scope.

Record ForwardRequest := mkForwardRequest {
  fr_group_id : Z; fr_shard_id : Z; fr_forward_data : list ValueSet; fr_request : option (option Request) }.
Record ForwardResponse := mkForwardResponse { fp_response : option (option Response) }.
(** [move_shard_request::Request], [move_shard_response::Response]. *)
Inductive MoveShardRequest :=
  | MForward (req : ForwardRequest)
  | MAcquireShard (desc : option MoveShardDesc)
  | MMoveOut (desc : option MoveShardDesc).
Inductive MoveShardResponse :=
  | MForwardResp (resp : ForwardResponse)
  | MAcquireShardResp
  | MMoveOutResp.

Section ShardClient.
  Context {NC : Type} `{Codec V1Error} {W : Type}.
  Variable router : W → State.
  Variable now : W → Z.
  Variable sleep : Z → W → W.
  Variable get_node_client : string → option NC.
  (** The [group] and [move_shard] calls of a node's service. *)
  Variable unary_group_request : NC → option Z → GroupRequest → W → (Status + GroupResponse) * W.
  Variable rpc_move_shard : NC → MoveShardRequest → W → (Status + option MoveShardResponse) * W.

(** ** [node_client.rs] *)
Definition node_move_shard {V} (req : MoveShardRequest) (expected : MoveShardResponse → option V) (client : NC) (w : W) :
    (Status + V) * W :=
  match rpc_move_shard client req w with
  | (inl s, w) => (inl s, w)
  | (inr resp, w) =>
      match resp ≫= expected with
      | Some v => (inr v, w)
      | None => (inl (Status_new CodeInternal "Invalid response type"), w)
      end
  end.
Definition node_forward (req : ForwardRequest) : NC → W → (Status + ForwardResponse) * W :=
  node_move_shard (MForward req) (λ r, match r with MForwardResp resp => Some resp | _ => None end).
Definition node_acquire_shard (desc : MoveShardDesc) : NC → W → (Status + unit) * W :=
  node_move_shard (MAcquireShard (Some desc)) (λ r, match r with MAcquireShardResp => Some tt | _ => None end).
Definition node_move_out (desc : MoveShardDesc) : NC → W → (Status + unit) * W :=
  node_move_shard (MMoveOut (Some desc)) (λ r, match r with MMoveOutResp => Some tt | _ => None end).

(** ** [group_client.rs] *)
Definition group_acquire_shard (fuel : nat) (desc : MoveShardDesc) (c : GroupClient NC) (w : W) :
    option (CResult unit * GroupClient NC * W) :=
  invoke_with_opt router now get_node_client (λ _, node_acquire_shard desc) fuel (mkInvokeOpt None true true) c w.
Definition group_move_out (fuel : nat) (desc : MoveShardDesc) (c : GroupClient NC) (w : W) :
    option (CResult unit * GroupClient NC * W) :=
  invoke_with_opt router now get_node_client (λ _, node_move_out desc) fuel (mkInvokeOpt None false true) c w.
Definition group_forward (fuel : nat) (req : ForwardRequest) (c : GroupClient NC) (w : W) :
    option (CResult ForwardResponse * GroupClient NC * W) :=
  invoke_with_opt router now get_node_client (λ _, node_forward req) fuel (mkInvokeOpt None true false) c w.

(** ** The retry loops *)
(** [loop { match attempt { Ok(v) => return Ok(v), Err(err) => retry_state.retry(err).await? } }] *)
Fixpoint retry_op {V} (rounds : nat) (attempt : W → option (CResult V * W)) (r : RetryState) (w : W) :
    option (CResult V * W) :=
  match rounds with
  | O => None
  | S rounds' =>
      match attempt w with
      | None => None
      | Some (Ok v, w) => Some (Ok v, w)
      | Some (Panic, w) => Some (Panic, w)
      | Some (Err err, w) =>
          match retry (now w) r err with
          | Ok (interval, r) => retry_op rounds' attempt r (sleep interval w)
          | Err e => Some (Err e, w)
          | Panic => Some (Panic, w)
          end
      end
  end.
Definition drop_client {V} (r : option (CResult V * GroupClient NC * W)) : option (CResult V * W) :=
  match r with None => None | Some (v, _, w) => Some (v, w) end.
Definition RetryState_default : RetryState := mkRetryState MIN_INTERVAL_MS None.

(** *** [shard_client.rs] *)
Definition pull_request (shard_id : Z) (last_key : option bytes) : ShardScanRequest :=
  mkShardScanRequest shard_id TXN_INTENT_VERSION 0 (64 * 1024) true false None last_key None true true true.
Definition scan_answer {V} (f : list ValueSet → V) (r : option (CResult Response * W)) : option (CResult V * W) :=
  match r with
  | None => None
  | Some (r, w) => Some (let? resp := r in match resp with SScanResp resp => Ok (f (sr_data resp)) | _ => Err CInternal end, w)
  end.
Definition group_unary (fuel : nat) (r : Request) (group_id : Z) (w : W) : option (CResult Response * W) :=
  drop_client (request router now get_node_client unary_group_request fuel r (lazy group_id) w).
Definition pull (fuel : nat) (group_id shard_id : Z) (last_key : option bytes) (w : W) :
    option (CResult (list ValueSet) * W) :=
  scan_answer id (group_unary fuel (RScan (pull_request shard_id last_key)) group_id w).
Definition prefix_list_inner (fuel : nat) (group_id shard_id : Z) (prefix : bytes) (w : W) :
    option (CResult (list bytes) * W) :=
  scan_answer (λ data, concat (map (λ v, omap v_content (vs_values v)) data))
    (group_unary fuel (RScan (mkShardScanRequest shard_id TXN_MAX_VERSION 0 0 false false (Some prefix) None None
       false false false)) group_id w).
Definition prefix_list (rounds fuel : nat) (group_id shard_id : Z) (prefix : bytes) : W → option (CResult (list bytes) * W) :=
  retry_op rounds (prefix_list_inner fuel group_id shard_id prefix) RetryState_default.
Definition delete_inner (fuel : nat) (group_id shard_id : Z) (key : bytes) (w : W) : option (CResult unit * W) :=
  match group_unary fuel (RWrite (mkShardWriteRequest shard_id
      [build_delete (WriteBuilder_new key)] [])) group_id w with
  | None => None
  | Some (r, w) => Some (let? _ := r in Ok tt, w)
  end.
Definition shard_delete (rounds fuel : nat) (group_id shard_id : Z) (key : bytes) : W → option (CResult unit * W) :=
  retry_op rounds (delete_inner fuel group_id shard_id key) RetryState_default.

(** *** [move_shard_client.rs]; [group_id] is the group it talks to *)
Fixpoint acquire_loop (rounds fuel : nat) (group_id : Z) (desc : MoveShardDesc) (r : RetryState) (w : W) :
    option (CResult unit * W) :=
  match rounds with
  | O => None
  | S rounds' =>
      match drop_client (group_acquire_shard fuel desc (lazy group_id) w) with
      | Some (Err (CEpochNotMatch d), w) => Some (Err (CEpochNotMatch d), w)
      | Some (Err err, w) =>
          match retry (now w) r err with
          | Ok (interval, r) => acquire_loop rounds' fuel group_id desc r (sleep interval w)
          | Err e => Some (Err e, w)
          | Panic => Some (Panic, w)
          end
      | r => r
      end
  end.
Definition msc_acquire_shard (rounds fuel : nat) (group_id : Z) (desc : MoveShardDesc) : W → option (CResult unit * W) :=
  acquire_loop rounds fuel group_id desc RetryState_default.
Definition msc_move_out (rounds fuel : nat) (group_id : Z) (desc : MoveShardDesc) : W → option (CResult unit * W) :=
  retry_op rounds (λ w, drop_client (group_move_out fuel desc (lazy group_id) w)) RetryState_default.
Definition msc_pull_shard_chunk (rounds fuel : nat) (group_id shard_id : Z) (last_key : option bytes) :
    W → option (CResult (list ValueSet) * W) :=
  retry_op rounds (pull fuel group_id shard_id last_key) RetryState_default.
Definition msc_forward (rounds fuel : nat) (group_id : Z) (req : ForwardRequest) : W → option (CResult ForwardResponse * W) :=
  retry_op rounds (λ w, drop_client (group_forward fuel req (lazy group_id) w)) RetryState_default.
End ShardClient.
