(* ===== verification/MoveShard.v ===== *)
(** * Moving a shard between groups, on a replica
    ([server/src/replica/move_shard.rs], [move_shard_with_retry] of [retry.rs])

    The checks of a change of the move-shard state, the changes themselves, and
    the ingestion and deletion of data under a move. *)

From S2P Require Import Prelude Bytes Rock Api Errors Schema Router GroupClient.
From S2P Require Import RocksDb Keys Engine Cas EvalTxn EvalRead EvalWrite Fsm Lease Latch Replica.

(** ** Checks *)
Definition is_shard_moved_out (shard_desc : ShardDesc) (group_desc : GroupDesc) : bool :=
  negb (existsb (λ shard, sd_id shard =? sd_id shard_desc) (gd_shards group_desc)).
Definition is_shard_moved_in (shard_desc : ShardDesc) (group_desc : GroupDesc) : bool :=
  existsb (λ shard, sd_id shard =? sd_id shard_desc) (gd_shards group_desc).
Definition is_moving_shard_finished (info : ReplicaInfo) (desc : MoveShardDesc) (descriptor : GroupDesc) : Result bool :=
  let? shard_desc := expect (md_shard_desc desc) in
  Ok (((md_src_group_id desc =? ri_group_id info) && (md_src_group_epoch desc <? gd_epoch descriptor)
         && is_shard_moved_out shard_desc descriptor)
      || ((md_dest_group_id desc =? ri_group_id info) && (md_dest_group_epoch desc <? gd_epoch descriptor)
         && is_shard_moved_in shard_desc descriptor)).

Definition check_moving_shard_setup (l : LeaseState) (desc : MoveShardDesc) : Result bool :=
  if md_src_group_epoch desc <? gd_epoch (ls_descriptor l) then Err (EpochNotMatch (ls_descriptor l))
  else if negb (has_shard_moving l) then Ok true
  else
    let? same := is_same_shard_moving l desc in
    if negb same then Err (EpochNotMatch (ls_descriptor l)) else Ok false.

Definition check_moving_shard_commit (info : ReplicaInfo) (l : LeaseState) (desc : MoveShardDesc) : Result bool :=
  let? finished := is_moving_shard_finished info desc (ls_descriptor l) in
  if (finished : bool) then Ok false
  else
    match ls_move_shard_state l with
    | None => Err (InvalidArgument "no such moving shard task exists")
    | Some st =>
        let? same := is_same_shard_moving l desc in
        if negb same then Err (InvalidArgument "no such moving shard task exists")
        else if mss_step st =? MoveShardStep_i32 Moved then Ok false
        else Ok true
    end.

Definition check_move_shard_state_update_early (info : ReplicaInfo) (l : LeaseState) (desc : MoveShardDesc)
    (event : MoveShardEvent) : Result bool :=
  if negb (is_ready_for_serving l) then
    Err (NotLeader (ri_group_id info) (ls_applied_term l) (leader_descriptor l))
  else
    match event with
    | Setup => check_moving_shard_setup l desc
    | Commit => check_moving_shard_commit info l desc
    | _ =>
        if negb (has_shard_moving l) then Err (InvalidArgument "no such moving shard exists")
        else
          let? same := is_same_shard_moving l desc in
          if negb same then Err (InvalidArgument "exists another moving shard task") else Ok true
    end.

Definition check_moving_shard_request_early (info : ReplicaInfo) (l : LeaseState) (shard_id : Z) : Result unit :=
  if negb (is_ready_for_serving l) then
    Err (NotLeader (ri_group_id info) (ls_applied_term l) (leader_descriptor l))
  else
    let? moving := is_shard_in_moving l shard_id in
    if negb moving then Err (ShardNotFound shard_id) else Ok tt.

(** ** Changes *)
Section MoveShard.
  Context {DB : Type} `{RocksDb DB} `{Codec WriteBatch}.
  Context {W G : Type} {RE : ReplicaEnv DB W G}.
  Abbreviation M := (prog W Error).

(** Under the metadata lock. *)
Definition under_acl {A} (guard : MetaAclGuard) (m : M A) : M A := λ w,
  match m (re_take_acl guard w) with
  | None => None
  | Some (r, w) => Some (r, re_drop_acl guard w)
  end.

Definition update_move_shard_state (desc : MoveShardDesc) (event : MoveShardEvent) : M unit :=
  under_acl AclWrite (
    let* go := prog_reads (λ w, check_move_shard_state_update_early (re_info w) (re_lease w) desc event) in
    if negb go then prog_lift (Ok tt)
    else call (re_propose (mkEvalResult None (Some (SyncOp_move_shard event desc))))).
Definition setup_shard_moving (desc : MoveShardDesc) : M unit := update_move_shard_state desc Setup.
Definition enter_pulling_step (desc : MoveShardDesc) : M unit := update_move_shard_state desc Ingest.
Definition commit_shard_moving (desc : MoveShardDesc) : M unit := update_move_shard_state desc Commit.
Definition abort_shard_moving (desc : MoveShardDesc) : M unit := update_move_shard_state desc Abort.
Definition finish_shard_moving (desc : MoveShardDesc) : M unit := update_move_shard_state desc Apply.

(** [Replica::ingest_value_set]: [eval::ingest_value_set] under the latch of the key. *)
Definition replica_ingest_value_set (shard_id : Z) (value_set : ValueSet) : M unit :=
  under_acl AclRead (
    do* prog_reads (λ w, check_moving_shard_request_early (re_info w) (re_lease w) shard_id) in
    let* latch := call (re_acquire shard_id (vs_user_key value_set)) in
    λ w,
      match (let* er := prog_reads (λ w, ingest_value_set (re_engine w) shard_id value_set) in
             propose_result er) w with
      | None => None
      | Some (r, w) => Some (r, re_release latch w)
      end).

Definition save_ingest_progress (shard_id : Z) (user_key : bytes) : M unit :=
  under_acl AclRead (
    do* prog_reads (λ w, check_moving_shard_request_early (re_info w) (re_lease w) shard_id) in
    call (re_propose (mkEvalResult None (Some (SyncOp_ingest user_key))))).

Fixpoint delete_keys (ge : GroupEngine DB) (shard_id : Z) (keys : list (bytes * Z)) (wb : WriteBatch) : Result WriteBatch :=
  match keys with
  | [] => Ok wb
  | (key, version) :: keys' =>
      let? wb := ge_delete ge wb shard_id key version in delete_keys ge shard_id keys' wb
  end.
Definition delete_chunks (shard_id : Z) (keys : list (bytes * Z)) : M unit :=
  match keys with
  | [] => prog_lift (Ok tt)
  | _ =>
      under_acl AclRead (
        do* prog_reads (λ w, check_moving_shard_request_early (re_info w) (re_lease w) shard_id) in
        let* wb := prog_reads (λ w, delete_keys (re_engine w) shard_id keys []) in
        call (re_propose (mkEvalResult (Some (encode_to_vec wb)) None)))
  end.

(** ** [retry.rs]; nothing bounds the rounds while the replica is busy *)
Fixpoint move_shard_with_retry (rounds : nat) (event : MoveShardEvent) (desc : MoveShardDesc) : M unit := λ w,
  match rounds with
  | O => None
  | S rounds' =>
      match
        match event with
        | Setup => setup_shard_moving desc w
        | Commit => commit_shard_moving desc w
        | _ => Some (Panic, w)
        end
      with
      | Some (Err (ServiceIsBusy _), w) | Some (Err (GroupNotReady _), w) =>
          move_shard_with_retry rounds' event desc (re_sleep w)
      | r => r
      end
  end.
End MoveShard.
