(* ===== verification/Node.v ===== *)
(** * Requests to a node ([server/src/node/mod.rs], [node/move_shard/ctrl.rs],
    [gc.rs], [service/node.rs])

    A node finds the replica of a group, lets it execute a request, and
    forwards what belongs to a shard on its way out.  The coordinator of a
    replica drives the move of a shard from the states it sees.  The replicas
    of a node live in one world [W]; [replica_env] gives the services of each. *)

From S2P Require Import Prelude Bytes Rock Api Errors Schema Router GroupClient ShardClient.
From S2P Require Import RocksDb Keys Engine Cas EvalTxn EvalRead EvalWrite Fsm Lease Latch Replica MoveShard.

(** ** [gc.rs] *)
Section Chunks.
  Context {DB : Type} `{RocksDb DB}.

(** The versions from [start_key] on, key by key, until there are [gc_keys];
    a round takes an entry of the snapshot, so [items_left] bounds them. *)
Fixpoint collect_chunks_loop (fuel : nat) (gc_keys : nat) (s : Snapshot) (buf : list (bytes * Z)) :
    Result (list (bytes * Z)) :=
  match fuel with
  | O => Panic
  | S fuel' =>
      let '(next, s) := next_mvcc_iterator s in
      let? next := next in
      match next with
      | None => Ok buf
      | Some _ =>
          let '(entries, s) := collect_entries s in
          let? entries := entries in
          let buf := buf ++ map (λ e, (me_user_key e, entry_version e)) entries in
          if (gc_keys <=? length buf)%nat then Ok buf else collect_chunks_loop fuel' gc_keys s buf
      end
  end.
Definition collect_chunks (gc_keys : nat) (ge : GroupEngine DB) (shard_id : Z) (start_key : option bytes) :
    Result (list (bytes * Z)) :=
  let? s := ge_snapshot ge shard_id (ModeStart start_key) in
  collect_chunks_loop (S (S (items_left s))) gc_keys s [].
End Chunks.

Section RemoveShard.
  Context {DB : Type} `{RocksDb DB} `{Codec WriteBatch}.
  Context {W G : Type} {RE : ReplicaEnv DB W G}.

(** [latest_key] is kept for the next chunk; [rounds] chunks. *)
Fixpoint remove_shard (rounds gc_keys : nat) (shard_id : Z) (latest_key : option bytes) : prog W Error unit := λ w,
  match rounds with
  | O => None
  | S rounds' =>
      (let* chunk := prog_reads (λ w, collect_chunks gc_keys (re_engine w) shard_id latest_key) in
       match last chunk with
       | None => prog_lift (Ok tt)
       | Some (latest_key, _) =>
           do* delete_chunks shard_id chunk in remove_shard rounds' gc_keys shard_id (Some latest_key)
       end) w
  end.
End RemoveShard.

(** ** [ctrl.rs] *)
Section Coordinator.
  Context {DB : Type} `{RocksDb DB} `{Codec WriteBatch}.
  Context {W G : Type} {RE : ReplicaEnv DB W G}.
  Abbreviation M := (prog W Error).
  (** [MoveShardClient] of the other group; [None] while it still retries. *)
  Variable acquire_shard : MoveShardDesc → W → option (CResult unit * W).
  Variable move_out : MoveShardDesc → W → option (CResult unit * W).
  Variable pull_shard_chunk : Z → option bytes → W → option (CResult (list ValueSet) * W).
  Variable rounds gc_keys : nat.

Definition get_shard_id (desc : MoveShardDesc) : Result Z := let? s := get_shard_desc desc in Ok (sd_id s).

(** A failed step is logged and forgotten. *)
Definition logged (m : M unit) : M unit := λ w,
  match m w with Some (Err _, w) => Some (Ok tt, w) | r => r end.
(** What the other group's client answers, as an error of the server. *)
Definition client_call {A} (f : W → option (CResult A * W)) : M A := λ w,
  match f w with
  | None => None
  | Some (Ok a, w) => Some (Ok a, w)
  | Some (Err e, w) => Some (from_client_error "" e, w)
  | Some (Panic, w) => Some (Panic, w)
  end.

Definition setup_source_group (desc : MoveShardDesc) : M unit := λ w,
  match acquire_shard desc w with
  | None => None
  | Some (Ok _, w) => logged (enter_pulling_step desc) w
  | Some (Err (CEpochNotMatch _), w) => logged (abort_shard_moving desc) w
  | Some (Err _, w) => Some (Ok tt, w)
  | Some (Panic, w) => Some (Panic, w)
  end.
Definition clean_move_shard_state (desc : MoveShardDesc) : M unit := logged (finish_shard_moving desc).
Definition commit_source_group (desc : MoveShardDesc) : M unit := λ w,
  match move_out desc w with
  | None => None
  | Some (Ok _, w) => clean_move_shard_state desc w
  | Some (Err _, w) => Some (Ok tt, w)
  | Some (Panic, w) => Some (Panic, w)
  end.
Definition commit_dest_group (desc : MoveShardDesc) : M unit := logged (commit_shard_moving desc).

Fixpoint ingest_chunk (shard_id : Z) (chunk : list ValueSet) : M unit :=
  match chunk with
  | [] => prog_lift (Ok tt)
  | value_set :: chunk' => do* replica_ingest_value_set shard_id value_set in ingest_chunk shard_id chunk'
  end.
(** One round of [pull_shard]: the key to continue behind, or [None] at the end. *)
Definition pull_round (shard_id : Z) (last_key : option bytes) : M (option bytes) :=
  let* chunk := client_call (pull_shard_chunk shard_id last_key) in
  do* ingest_chunk shard_id chunk in
  match last chunk with
  | None => prog_lift (Ok None)
  | Some value_set =>
      do* save_ingest_progress shard_id (vs_user_key value_set) in prog_lift (Ok (Some (vs_user_key value_set)))
  end.
Fixpoint pull_loop (rounds : nat) (shard_id : Z) (last_key : option bytes) : M unit := λ w,
  match rounds with
  | O => None
  | S rounds' =>
      (let* next := pull_round shard_id last_key in
       match next with
       | None => prog_lift (Ok tt)
       | Some key => pull_loop rounds' shard_id (Some key)
       end) w
  end.
Definition pull_shard (desc : MoveShardDesc) (last_migrated_key : option bytes) : M unit :=
  let* shard_id := prog_lift (get_shard_id desc) in pull_loop rounds shard_id last_migrated_key.
Definition pull (desc : MoveShardDesc) (last_migrated_key : option bytes) : M unit := λ w,
  match pull_shard desc last_migrated_key w with
  | Some (Ok _, w) => commit_dest_group desc w
  | Some (Err _, w) => Some (Ok tt, w)
  | r => r
  end.

Definition clean_orphan_shard (desc : MoveShardDesc) : M unit := λ w,
  match (let* shard_id := prog_lift (get_shard_id desc) in remove_shard rounds gc_keys shard_id None) w with
  | Some (Ok _, w) => clean_move_shard_state desc w
  | Some (Err _, w) => Some (Ok tt, w)
  | r => r
  end.

Definition is_dest_group (group_id : Z) (desc : MoveShardDesc) : bool := group_id =? md_dest_group_id desc.
Definition MoveShardStep_from_i32 (z : Z) : option MoveShardStep :=
  List.find (λ s, MoveShardStep_i32 s =? z) [Prepare; Moving; Moved; Finished; MAborted].

(** [next_step] of the coordinator of [desc] on a replica of [group_id]. *)
Definition next_step (group_id : Z) (desc : MoveShardDesc) (state : MoveShardState) : M unit :=
  let* step := prog_lift (expect (MoveShardStep_from_i32 (mss_step state))) in
  if is_dest_group group_id desc then
    match step with
    | Prepare => setup_source_group desc
    | Moving => pull desc (mss_last_moved_key state)
    | Moved => commit_source_group desc
    | Finished | MAborted => prog_lift Panic
    end
  else
    match step with
    | Moved => clean_orphan_shard desc
    | Prepare | Moving => prog_lift (Ok tt)
    | Finished | MAborted => prog_lift Panic
    end.

(** [watch_state_changes]: the coordinator of a state is the one of its descriptor. *)
Fixpoint watch_state_changes (group_id : Z) (states : list MoveShardState) : M unit :=
  match states with
  | [] => prog_lift (Ok tt)
  | state :: states' =>
      let* desc := prog_lift (get_move_shard_desc state) in
      do* next_step group_id desc state in watch_state_changes group_id states'
  end.
End Coordinator.

(** ** [node/mod.rs] *)
Section Node.
  Context {DB : Type} `{RocksDb DB} `{Codec TxnIntent} `{Codec WriteBatch} {CE : Codec V1Error}.
  Context {W G R : Type}.
  Context (replica_env : R → ReplicaEnv DB W G) (replica_guard : R → LatchGuard W G) (replica_mgr : R → LatchManager W).
  Abbreviation M := (prog W Error).
  (** [ReplicaRouteTable::find]. *)
  Variable find_replica : W → Z → option R.
  (** [MoveShardClient::forward] of a group. *)
  Variable client_forward : Z → ForwardRequest → W → option (CResult ForwardResponse * W).
  Variable rounds fuel : nat.

Definition replica_execute (replica : R) : ExecCtx → GroupRequest → M GroupResponse :=
  retry_execute (LG := replica_guard replica) (LM := replica_mgr replica) (RE := replica_env replica) rounds fuel.

(** [MoveShardController::forward]. *)
Definition ctrl_forward (ctx : ForwardCtx) (request : Request) : M Response :=
  let group_id := fc_dest_group_id ctx in
  let payloads := filter (λ v, vs_values v ≠ []) (fc_payloads ctx) in
  let* resp := client_call (client_forward group_id
    (mkForwardRequest group_id (fc_shard_id ctx) payloads (Some (Some request)))) in
  prog_lift (expect (fp_response resp ≫= id)).

(** The scan of the source is spawned first and awaited last. *)
Definition forward_scan_request (replica : R) (ctx : ForwardCtx) (scan_request : ShardScanRequest) :
    M ShardScanResponse := λ w,
  let req := mkShardScanRequest (ss_shard_id scan_request) (ss_start_version scan_request) (ss_limit scan_request)
    (ss_limit_bytes scan_request) (ss_exclude_start_key scan_request) (ss_exclude_end_key scan_request)
    (ss_prefix scan_request) (ss_start_key scan_request) (ss_end_key scan_request)
    (ss_include_raw_data scan_request) (ss_ignore_txn_intent scan_request) true in
  match execute (LG := replica_guard replica) (LM := replica_mgr replica) (RE := replica_env replica) fuel
    ExecCtx_default (RScan req) w with
  | None => None
  | Some (source, _, w) =>
      (let* target_resp := ctrl_forward ctx (RScan req) in
       let* target_resp := prog_lift match target_resp with
         | SScanResp scan => Ok scan
         | _ => Err (InvalidData "ShardScanResponse is required")
         end in
       let* source := prog_lift source in
       match source with
       | SScanResp source_resp => prog_lift (Ok (merge_scan_response target_resp source_resp))
       | _ => prog_lift (Err (InvalidData "ShardScanResponse is required"))
       end) w
  end.

Definition execute_request (exec_ctx : ExecCtx) (request : GroupRequest) : M GroupResponse := λ w,
  match find_replica w (gr_group_id request) with
  | None => Some (Err (GroupNotFound (gr_group_id request)), w)
  | Some replica =>
      match replica_execute replica exec_ctx request w with
      | Some (Err (Forward forward_ctx), w) =>
          match gr_request request ≫= id with
          | None => Some (Err (InvalidArgument "GroupRequest::request is None"), w)
          | Some (RScan scan_request) =>
              (let* scan_resp := forward_scan_request replica forward_ctx scan_request in
               prog_lift (Ok (GroupResponse_new (SScanResp scan_resp)))) w
          | Some request =>
              (let* resp := ctrl_forward forward_ctx request in prog_lift (Ok (GroupResponse_new resp))) w
          end
      | r => r
      end
  end.

(** The ingestion tasks of [forward]: all of them run, the first failure is
    the one reported. *)
Fixpoint ingest_forwarded (replica : R) (shard_id : Z) (forward_data : list ValueSet) : M unit := λ w,
  match forward_data with
  | [] => Some (Ok tt, w)
  | value_set :: data' =>
      if bool_decide (vs_values value_set = []) then ingest_forwarded replica shard_id data' w
      else
        match replica_ingest_value_set (RE := replica_env replica) shard_id value_set w with
        | None => None
        | Some (r, w) =>
            match ingest_forwarded replica shard_id data' w with
            | None => None
            | Some (r', w) =>
                Some (match r with Ok _ | Err (ShardNotFound _) => r' | _ => r end, w)
            end
        end
  end.
Definition forward (request : ForwardRequest) : M ForwardResponse := λ w,
  match find_replica w (fr_group_id request) with
  | None => Some (Err (GroupNotFound (fr_group_id request)), w)
  | Some replica =>
      (do* ingest_forwarded replica (fr_shard_id request) (fr_forward_data request) in
       λ w,
         match replica_execute replica (ExecCtx_forward (fr_shard_id request))
           (mkGroupRequest (fr_group_id request) 0 (fr_request request)) w with
         | Some (Err (Forward _), w) => Some (Panic, w)
         | Some (Err e, w) => Some (Err e, w)
         | Some (Ok resp, w) => Some (Ok (mkForwardResponse (gp_response resp)), w)
         | Some (Panic, w) => Some (Panic, w)
         | None => None
         end) w
  end.

Definition node_handle_move_shard (event : MoveShardEvent) (desc : MoveShardDesc) : M unit := λ w,
  match md_shard_desc desc with
  | None => Some (Err (InvalidArgument "MoveShardDesc::shard_desc"), w)
  | Some _ =>
      match find_replica w (md_src_group_id desc) with
      | None => Some (Err (GroupNotFound (md_src_group_id desc)), w)
      | Some replica => move_shard_with_retry (RE := replica_env replica) rounds event desc w
      end
  end.

(** ** [service/node.rs] *)
Definition error_to_response (e : Error) : CResult GroupResponse :=
  let? err := to_wire e in Ok (mkGroupResponse None (Some err)).
(** The answer to a request that is not a watch: one response, or the status
    of a request without content. *)
Definition handle_group_request (request : GroupRequest) (w : W) : option (CResult (Status + GroupResponse) * W) :=
  match gr_request request ≫= id with
  | None =>
      Some (let? s := to_status (InvalidArgument "GroupRequest::request is None") in Ok (inl s), w)
  | Some _ =>
      match execute_request ExecCtx_default request w with
      | None => None
      | Some (Ok resp, w) => Some (Ok (inr resp), w)
      | Some (Err e, w) => Some (let? resp := error_to_response e in Ok (inr resp), w)
      | Some (Panic, w) => Some (Panic, w)
      end
  end.

(** The [move_shard] call of the service. *)
Definition answer_status {A} (r : option (Result A * W)) : option (CResult (Status + A) * W) :=
  match r with
  | None => None
  | Some (Ok a, w) => Some (Ok (inr a), w)
  | Some (Err e, w) => Some (let? s := to_status e in Ok (inl s), w)
  | Some (Panic, w) => Some (Panic, w)
  end.
Definition service_move_shard (request : option MoveShardRequest) (w : W) :
    option (CResult (Status + MoveShardResponse) * W) :=
  match request with
  | None => Some (Ok (inl (Status_new CodeInvalidArgument "MoveShardRequest::request is empty")), w)
  | Some (MForward req) => answer_status ((let* resp := forward req in prog_lift (Ok (MForwardResp resp))) w)
  | Some (MAcquireShard None) => Some (Ok (inl (Status_new CodeInvalidArgument "AcquireShardRequest::desc is empty")), w)
  | Some (MAcquireShard (Some desc)) =>
      answer_status ((do* node_handle_move_shard Setup desc in prog_lift (Ok MAcquireShardResp)) w)
  | Some (MMoveOut None) => Some (Ok (inl (Status_new CodeInvalidArgument "MoveOutRequest::desc is empty")), w)
  | Some (MMoveOut (Some desc)) =>
      answer_status ((do* node_handle_move_shard Commit desc in prog_lift (Ok MMoveOutResp)) w)
  end.
End Node.
