(* ===== verification/NodeProps.v ===== *)
(** * From the client to the group and back: a request takes effect at most once

    The client's attempts, the network, the node that answers, the retry loop
    of the replica, and the group a moving shard goes to, put together. *)

From S2P Require Import Prelude Bytes Rock Api Errors Schema Router GroupClient GroupClientProps ShardClient.
From S2P Require Import RocksDb Keys Engine Cas EvalTxn EvalRead EvalWrite Fsm Lease Latch Replica ReplicaProps MoveShard Node.
#[local] Open Scope Z_scope.

(** An error of the client library that says the request was not executed. *)
Definition unexecuted (e : ClientError) : Prop := not_run e ∨ leaked e.

Section NodeProps.
  Context {DB : Type} `{RocksDb DB} `{Codec TxnIntent} `{Codec WriteBatch} `{CodecOk V1Error}.
  Context {W G R : Type}.
  Context (replica_env : R → ReplicaEnv DB W G) (replica_guard : R → LatchGuard W G) (replica_mgr : R → LatchManager W).
  Context (execs : W → nat).
  (** Every replica of the system keeps to its contract. *)
  Context {OK : ∀ r, ReplicaEnvOk (replica_env r) (replica_guard r) (replica_mgr r) execs}.
  (** Carrying over the versions of a key is not an effect of the request. *)
  Hypothesis ingest_quiet : ∀ r shard_id vs, quiet execs (replica_ingest_value_set (RE := replica_env r) shard_id vs).

Section Serve.
  Variable find_replica : W → Z → option R.
  Variable rounds fuel : nat.

Abbreviation node_execute := (replica_execute replica_env replica_guard replica_mgr rounds fuel).
Lemma node_execute_once r exec_ctx request : once execs (node_execute r exec_ctx request).
Proof. intros w res w'. apply retry_execute_at_most_once. Qed.

(** ** A forwarded request at its destination *)
Lemma ingest_forwarded_quiet r shard_id data : quiet execs (ingest_forwarded replica_env r shard_id data).
Proof.
  induction data as [|vs data IH]; intros w res w'; cbn [ingest_forwarded]; [by intros [= _ <-]|].
  destruct (bool_decide _); [apply IH|].
  destruct (replica_ingest_value_set shard_id vs w) as [[r1 w1]|] eqn:E1; [|done].
  destruct (ingest_forwarded _ _ _ _ w1) as [[r2 w2]|] eqn:E2; [|done]. intros [= _ <-].
  apply IH in E2. apply ingest_quiet in E1. congruence.
Qed.
Abbreviation node_forward_request := (forward replica_env replica_guard replica_mgr find_replica rounds fuel).
Lemma forward_once req : once execs (node_forward_request req).
Proof.
  intros w res w'. unfold forward. destruct (find_replica w _) as [r|]; [|intros [= <- <-]; by split; [lia|]].
  apply once_bind; [apply ingest_forwarded_quiet|]. clear w res w'. intros _ w res w'.
  destruct (replica_execute _ _ _ _ _ r _ _ w) as [[[resp|e|] w1]|] eqn:E; [| | |done].
  - apply node_execute_once in E as [E _]. intros [= <- <-]. by split.
  - apply node_execute_once in E as [E He]. destruct e; intros [= <- <-]; by split.
  - apply node_execute_once in E as [E _]. intros [= <- <-]. by split.
Qed.

(** ** A request at the node that was asked *)
Section Execute.
  Variable client_forward : Z → ForwardRequest → W → option (CResult ForwardResponse * W).
  Hypothesis forward_calls_once : ∀ g req w r w', client_forward g req w = Some (r, w') →
    (execs w' ≤ 1 + execs w)%nat ∧ match r with Err e => unexecuted e → execs w' = execs w | _ => True end.

Lemma client_call_once g req : once execs (client_call (client_forward g req)).
Proof.
  intros w r w'. unfold client_call. destruct (client_forward g req w) as [[[a|e|] w1]|] eqn:Ef; [| | |done];
    apply forward_calls_once in Ef as [Hle He].
  - intros [= <- <-]. by split.
  - destruct e; intros [= <- <-]; split; auto; intros Hd; first [by destruct Hd|apply He; unfold unexecuted; cbn; tauto].
  - intros [= <- <-]. by split.
Qed.
Lemma ctrl_forward_once ctx request : once execs (ctrl_forward client_forward ctx request).
Proof.
  unfold ctrl_forward. intros w r w' [(resp & w1 & E & E')|[(e & E & ->)|[E ->]]]%prog_bind_inv;
    apply client_call_once in E as [E He]; [|by split..].
  destruct (fp_response resp ≫= id); injection E' as <- <-; by split.
Qed.

Abbreviation node_request :=
  (execute_request replica_env replica_guard replica_mgr find_replica client_forward rounds fuel).
Definition writes (request : GroupRequest) : Prop :=
  match gr_request request ≫= id with Some r => is_read_only_request r = false | None => True end.
Lemma request_answered exec_ctx request w g w' :
  node_request exec_ctx request w = Some (Ok g, w') → answered g.
Proof.
  unfold execute_request. destruct (find_replica w _) as [r|]; [|done].
  destruct (replica_execute _ _ _ _ _ r exec_ctx request w) as [[[resp|e|] w1]|] eqn:E; [| |done..].
  - intros [= <- <-]. by eapply retry_answered.
  - destruct e; try done. destruct (gr_request request ≫= id) as [req|]; [|done].
    destruct req; intros [(a & w2 & _ & [= <- _])|[(e & _ & [=])|[_ [=]]]]%prog_bind_inv; by eexists.
Qed.
Lemma execute_request_once exec_ctx request : writes request → once execs (node_request exec_ctx request).
Proof.
  intros Hw w res w'. unfold execute_request.
  destruct (find_replica w _) as [r|]; [|intros [= <- <-]; by split; [lia|]].
  destruct (replica_execute _ _ _ _ _ r exec_ctx request w) as [[[resp|e|] w1]|] eqn:E; [| | |done];
    apply node_execute_once in E as [E He]; [by intros [= <- <-]| |by intros [= <- <-]].
  destruct e; try (intros [= <- <-]; by split). specialize (He I). unfold writes in Hw.
  destruct (gr_request request ≫= id) as [req|]; [|intros [= <- <-]; by split].
  destruct req; try done; intros Ef; (eapply once_quiet_trans; [exact He|]); revert Ef;
    (apply once_answer; [apply ctrl_forward_once|]); intros ? ? ? ? [= <- <-]; eauto.
Qed.

(** ** The answer as the client sees it *)
Lemma wire_rejected e err :
  to_wire e = Ok err → rejected (Status_with_details CodeUnknown "response" (encode_to_vec err)) → declined e.
Proof.
  intros Hw. unfold rejected, from_status, from_source_or_details. cbn.
  destruct (encode_to_vec err) as [|b l] eqn:Ee; [done|]. rewrite <- Ee, decode_encode_msg.
  destruct e; cbn in Hw; simplify_eq; done.
Qed.
Abbreviation serve :=
  (handle_group_request replica_env replica_guard replica_mgr find_replica client_forward rounds fuel).
Lemma serve_once request w resp w' :
  writes request → serve request w = Some (resp, w') →
  (execs w' ≤ 1 + execs w)%nat ∧
  match resp with
  | Ok a =>
      match (match a with inl s => inl s | inr g => group_response g end) with
      | inl s => rejected s → execs w' = execs w
      | inr _ => True
      end
  | _ => True
  end.
Proof.
  intros Hw. unfold handle_group_request. destruct (gr_request request ≫= id) eqn:Er.
  2:{ intros [= <- <-]. split; [lia|done]. }
  destruct (execute_request _ _ _ _ _ _ _ _ request w) as [[[g|e|] w1]|] eqn:E; [| | |done].
  - pose proof (request_answered _ _ _ _ _ E) as [a Ha]. apply execute_request_once in E as [E _]; [|done].
    intros [= <- <-]. split; [done|]. unfold group_response. by rewrite Ha.
  - apply execute_request_once in E as [E He]; [|done]. unfold error_to_response.
    destruct (to_wire e) as [err| |] eqn:Ee; intros [= <- <-]; split; try done.
    cbn. intros Hr. apply He. by eapply wire_rejected.
  - apply execute_request_once in E as [E _]; [|done]. intros [= <- <-]. by split.
Qed.
End Execute.

(** The status of a forwarded request. *)
Lemma status_rejected e s : to_status e = Ok s → rejected s → declined e.
Proof.
  unfold rejected. destruct e; try done; cbn [to_status]; unfold detailed; intros [= <-]; try done;
    unfold from_status, from_source_or_details; cbn;
    (destruct (encode_to_vec (with_detail_value _)) as [|b l] eqn:Ee; [done|]; rewrite <- Ee, decode_encode_msg; done).
Qed.
Abbreviation serve_move client_rounds :=
  (service_move_shard replica_env replica_guard replica_mgr find_replica client_rounds fuel).
Lemma serve_forward_once req w resp w' :
  serve_move rounds (Some (MForward req)) w = Some (resp, w') →
  (execs w' ≤ 1 + execs w)%nat ∧ match resp with Ok (inl s) => rejected s → execs w' = execs w | _ => True end.
Proof.
  unfold service_move_shard, answer_status.
  destruct (prog_bind _ _ w) as [[[a|e|] w1]|] eqn:E; [| | |done];
    apply (once_answer execs _ _ (forward_once req)) in E as [E He]; try (by intros ???? [= <- <-]; eauto).
  - intros [= <- <-]. by split.
  - destruct (to_status e) as [s| |] eqn:Es; intros [= <- <-]; split; try done. intros Hr. apply He. by eapply status_rejected.
  - intros [= <- <-]. by split.
Qed.
End Serve.

(** ** The whole way *)
Section System.
  Context {NC : Type}.
  (** The replicas of the node behind a connection. *)
  Variable find_replica : NC → W → Z → option R.
  Variable router : W → State.
  Variable now : W → Z.
  Variable sleep : Z → W → W.
  Variable get_node_client : string → option NC.
  Variable unary_group_request : NC → option Z → GroupRequest → W → (Status + GroupResponse) * W.
  Variable rpc_move_shard : NC → MoveShardRequest → W → (Status + option MoveShardResponse) * W.
  Hypothesis sleep_quiet : ∀ t w, execs (sleep t w) = execs w.

(** A call is lost on the way, or it is served (with as many rounds as that
    takes) and the answer arrives or is lost; a status the transport makes up
    for a lost answer is not one of the refusals of a server. *)
Definition transmits {Q A} (serve : nat → Q → W → option (CResult (Status + A) * W)) (call : Q → W → (Status + A) * W) :
    Prop := ∀ q w r w', call q w = (r, w') →
  (w' = w ∧ ∃ s, r = inl s) ∨
  (∃ n resp, serve n q w = Some (resp, w') ∧ (resp = Ok r ∨ ∃ s, r = inl s ∧ ¬ rejected s)).

Definition node_move_service (node : NC) (n : nat) (req : MoveShardRequest) (w : W) :
    option (CResult (Status + option MoveShardResponse) * W) :=
  match service_move_shard replica_env replica_guard replica_mgr (find_replica node) n n (Some req) w with
  | None => None
  | Some (r, w) =>
      Some (let? a := r in Ok match a with inl s => inl s | inr resp => inr (Some resp) end, w)
  end.
Definition node_group_service (node : NC) (n : nat) (req : GroupRequest) (w : W) :
    option (CResult (Status + GroupResponse) * W) :=
  handle_group_request replica_env replica_guard replica_mgr (find_replica node)
    (msc_forward router now sleep get_node_client rpc_move_shard n n) n n req w.
Hypothesis move_calls : ∀ node, transmits (node_move_service node) (rpc_move_shard node).
Hypothesis group_calls : ∀ node t, transmits (node_group_service node) (unary_group_request node t).

Lemma node_forward_call_once req node w r w' :
  node_forward rpc_move_shard req node w = (r, w') →
  (execs w' ≤ S (execs w))%nat ∧ match r with inl s => rejected s → execs w' = execs w | inr _ => True end.
Proof.
  unfold node_forward, node_move_shard. destruct (rpc_move_shard node (MForward req) w) as [r1 w1] eqn:Ec.
  apply move_calls in Ec as [[-> [s ->]]|(n & resp & Es & Hr)]; [intros [= <- <-]; split; [lia|done]|].
  unfold node_move_service in Es. destruct (service_move_shard _ _ _ _ _ _ _ w) as [[r0 w0]|] eqn:E; [|done].
  injection Es as <- <-. apply serve_forward_once in E as [E He]. destruct Hr as [Hr|(s & -> & Hs)]; cycle 1.
  { intros [= <- <-]. split; [lia|done]. }
  destruct r0 as [a| |]; [|done..]. injection Hr as Hr. destruct a as [s|a]; subst r1.
  - intros [= <- <-]. split; [lia|done].
  - destruct (Some a ≫= _); intros [= <- <-]; split; try lia; done.
Qed.

Lemma retry_op_once {V} n (attempt : W → option (CResult V * W)) st :
  (∀ w r w', attempt w = Some (r, w') →
    (execs w' ≤ 1 + execs w)%nat ∧ match r with Err e => unexecuted e → execs w' = execs w | _ => True end) →
  ∀ w r w', retry_op now sleep n attempt st w = Some (r, w') →
    (execs w' ≤ 1 + execs w)%nat ∧ match r with Err e => unexecuted e → execs w' = execs w | _ => True end.
Proof.
  intros Ha. revert st. induction n as [|n IH]; intros st w r w'; [done|]. cbn [retry_op].
  destruct (attempt w) as [[[v|e|] w1]|] eqn:E; [| | |done]; apply Ha in E as [E He]; try (by intros [= <- <-]).
  destruct (retry (now w1) st e) as [[t st']|e'|] eqn:Er; [| |by intros [= <- <-]].
  - intros [Hle Hr]%IH. rewrite sleep_quiet, He in Hle, Hr; [done| |];
      left; unfold retry in Er; destruct e; cbn in Er; done.
  - intros [= <- <-]. split; [done|]. intros Hu. apply He. revert Er Hu. unfold retry.
    destruct e; cbn; intros; simplify_eq; try done; unfold unexecuted in *; cbn in *; auto;
      unfold force_retry in *; repeat case_match; simplify_eq; cbn in *; tauto.
Qed.
Lemma msc_forward_once n g req w r w' :
  msc_forward router now sleep get_node_client rpc_move_shard n n g req w = Some (r, w') →
  (execs w' ≤ 1 + execs w)%nat ∧ match r with Err e => unexecuted e → execs w' = execs w | _ => True end.
Proof.
  apply retry_op_once. clear w r w'. intros w r w'. unfold drop_client, group_forward.
  destruct (invoke_with_opt _ _ _ _ _ _ _ w) as [[[r1 c1] w1]|] eqn:E; [|done]. intros [= <- <-].
  apply (invoke_at_most_once _ _ _ _ execs) in E as [E He]; [|intros _; apply node_forward_call_once|done..].
  split; [lia|]. destruct r1 as [|e|]; try done. intros [Hn|Hl]; [by apply He|]. by destruct He.
Qed.

(** C19: Whatever is lost on the network, whoever is the leader, wherever the
    shard is being moved and however often the client, the replica and the
    forwarding node try again: a request that is not a read takes effect at
    most once, and not at all when the client reports an error after which its
    caller sends the request again. *)
Theorem request_takes_effect_once fuel r (c : GroupClient NC) w res c' w' :
  is_read_only_request r = false →
  request router now get_node_client unary_group_request fuel r c w = Some (res, c', w') →
  (execs w' ≤ 1 + execs w)%nat ∧ match res with Err e => not_run e → execs w' = execs w | _ => True end.
Proof.
  intros Hr E. apply (invoke_at_most_once _ _ _ _ execs) in E as [E He]; [|clear E w w' c'|done..].
  { split; [lia|]. destruct res; try done. by intros ?%He. }
  intros ctx node w r1 w1. unfold unary_op.
  destruct (unary_group_request node (ic_timeout ctx) (group_request r ctx) w) as [r2 w2] eqn:Ec.
  apply group_calls in Ec as [[-> [s ->]]|(n & resp & Es & Hc)]; [intros [= <- <-]; split; [lia|done]|].
  apply serve_once in Es as [Hle Hrej]; [|by apply msc_forward_once|done].
  destruct Hc as [->|(s & -> & Hs)]; [|intros [= <- <-]; split; [lia|done]].
  destruct r2 as [s|g]; [intros [= <- <-]; split; [lia|done]|].
  destruct (group_response g) as [s|a]; intros [= <- <-]; (split; [lia|done]).
Qed.
End System.
End NodeProps.
