(* ===== verification/MoveProtocol.v ===== *)
(** * Two groups move a shard

    The replica functions of [MoveShard] on the state machines of the source
    and the destination, composed by a step relation of its own: an abstraction
    of the coordinators, the network and other requests that is not derived
    from [Node.next_step].  It follows who owns the shard, not its data: a
    destination that acknowledged the step [Moved] counts as having pulled
    everything. *)

From S2P Require Import Prelude Bytes Rock Api Errors Schema Router GroupClient.
From S2P Require Import RocksDb Keys Engine EngineFacts EngineWrites Cas EvalTxn EvalRead EvalWrite Fsm FsmProps FsmPlug Lease Latch.
From S2P Require Import Replica ReplicaProps MoveShard Node.
#[local] Open Scope Z_scope.

Section Protocol.
  Context {DB : Type} `{RocksDb DB} `{Codec EntryId} `{Codec GroupDesc} `{Codec MoveShardState} `{Codec WriteBatch}.
  Context {T : Type} `{WatchTrigger T}.
  Abbreviation fsm := (GroupStateMachine DB LeaseStateObserver T).
  Implicit Types (f : fsm) (d : MoveShardDesc).

(** ** A group, seen from its leader *)
(** A proposal is an entry that the leader applies; [position] gives its index
    and term. *)
Variable position : fsm → Z * Z.
Definition propose_one (er : EvalResult) f : Result unit * fsm :=
  let '(index, term) := position f in
  match run_plug [(index, term, Proposal er)] f with
  | Ok f' => (Ok tt, f')
  | _ => (Panic, f)
  end.
#[export] Instance group_env : ReplicaEnv DB fsm unit := {|
  re_engine := f_group_engine; re_info f := lo_info (f_observer f); re_lease := lease;
  re_next_version _ _ := 0; re_split_keys _ _ _ := [];
  re_acquire _ _ f := (Ok tt, f); re_release _ f := f;
  re_propose := propose_one; re_change_config _ f := (Err Canceled, f);
  re_transfer_leader _ f := (Err Canceled, f); re_assign _ _ _ f := (Err Canceled, f);
  re_watch _ _ f := Some f; re_take_acl _ f := f; re_try_acl _ f := Some f; re_drop_acl _ f := f; re_sleep f := f |}.

(** What matters of a group: its descriptor, and the move it is in. *)
Definition ds f : GroupDesc := ge_descriptor (f_group_engine f).
Definition mv f : option (option MoveShardDesc * Z) := move_digest <$> ge_move_shard_state (f_group_engine f).
Record group_ok f : Prop := {
  ok_clean : clean f; ok_running : move_running (f_group_engine f); ok_sync : in_sync f }.

(** ** What an entry of the move does *)
Definition handed_over (g : GroupDesc) d (s : ShardDesc) : GroupDesc :=
  let g' := set_epoch g (apply_shard_delta (Z.max (gd_epoch g) (Z.max (md_src_group_epoch d) (md_dest_group_epoch d)))) in
  if md_src_group_id d =? gd_id g then drop_shard g' (sd_id s) else push_shard g' s.

Lemma propose_view (op : SyncOp) f f' i t :
  group_ok f → run_plug [(i, t, Proposal (mkEvalResult None (Some op)))] f = Ok f' →
  group_ok f' ∧
  ∃ g f1, apply_sync_op op (ds f) f = Ok (g, f1) ∧ ds f' = g ∧
    mv f' = match ws_move_shard_state (f_plugged_write_states f1) with
            | Some st => if is_end_step st then None else Some (move_digest st)
            | None => mv f
            end.
Proof.
  intros [Hc Hr Hs] E. destruct (run_plug_sync _ _ _ Hc Hr Hs E) as (Hs' & Hc' & Hr'). split; [by split|].
  unfold run_plug in E. apply result_bind_ok in E as (_ & _ & E). apply result_bind_ok in E as (s & E & F).
  cbn [stage] in E. apply result_bind_ok in E as (s' & E & [= ->]). unfold apply in E.
  apply result_bind_ok in E as (f2 & E & [= <-]). unfold apply_proposal in E. cbn [er_batch er_op result_bind] in E.
  apply result_bind_ok in E as ([g f1] & E & [= <-]).
  assert (fsm_descriptor f = ds f) as Hd. { destruct Hc as [_ Hw]. unfold fsm_descriptor. by rewrite Hw. }
  rewrite Hd in E. exists g, f1. split; [done|].
  apply finish_plug_engine in F as [C _]. unfold commit_staged in C. apply commit_meta in C as [Cd Cm].
  pose proof (proj1 (sync_op_keeps _ _ _ _ _ E)) as K. unfold ds, mv. rewrite Cd, Cm. split; [done|]. cbn.
  destruct (ws_move_shard_state (f_plugged_write_states f1)) as [st|]; [by destruct (is_end_step st)|].
  by rewrite (kp_engine _ _ K).
Qed.

(** The entry of an event: its effect on the view. *)
Definition event_effect (ev : MoveShardEvent) d f (g' : GroupDesc) (m' : option (option MoveShardDesc * Z)) : Prop :=
  match ev with
  | Setup => g' = ds f ∧ m' = Some (Some d, 0)
  | Ingest => g' = ds f ∧ ∃ o s, mv f = Some (o, s) ∧ m' = Some (o, if s =? 0 then 1 else s)
  | Commit => g' = ds f ∧ ∃ o s, mv f = Some (o, s) ∧ m' = Some (o, 2)
  | Abort => g' = ds f ∧ m' = None
  | Apply => ∃ o s shard, mv f = Some (Some o, s) ∧ md_shard_desc o = Some shard ∧ g' = handed_over (ds f) o shard ∧ m' = None
  end.
Lemma must_move_view f st : group_ok f → must_move_shard_state f = Ok st → ge_move_shard_state (f_group_engine f) = Some st.
Proof.
  intros [[_ Hw] _ _]. unfold must_move_shard_state. rewrite Hw. cbn.
  destruct (ge_move_shard_state (f_group_engine f)); [|done]. by intros [= ->].
Qed.
Lemma running_step f st : group_ok f → ge_move_shard_state (f_group_engine f) = Some st → is_end_step st = false.
Proof. intros [_ Hr _]. apply Hr. Qed.

Lemma event_view ev d f f' i t :
  group_ok f → run_plug [(i, t, Proposal (mkEvalResult None (Some (SyncOp_move_shard ev d))))] f = Ok f' →
  group_ok f' ∧ event_effect ev d f (ds f') (mv f').
Proof.
  intros Hok E. destruct (propose_view _ _ _ _ _ Hok E) as (Hok' & g & f1 & Ea & <- & Hm). split; [done|].
  unfold apply_sync_op in Ea. cbn [so_add_shard SyncOp_move_shard so_move_shard so_split_shard so_merge_shard result_bind] in Ea.
  apply result_bind_ok in Ea as ([g1 f2] & Ea & [= <- <-]). unfold apply_move_shard_event in Ea.
  destruct ev; cbn in Ea.
  - injection Ea as <- <-. by split.
  - apply result_bind_ok in Ea as (st & Est & [= <- <-]). apply must_move_view in Est; [|done].
    pose proof (running_step _ _ Hok Est) as Hr. split; [done|]. exists (mss_move_shard st), (mss_step st).
    unfold mv at 1. rewrite Est. split; [done|]. rewrite Hm. cbn.
    destruct (mss_step st =? 0) eqn:Es; cbn; [done|]. unfold is_end_step in *. cbn in *. by rewrite Hr.
  - apply result_bind_ok in Ea as (st & Est & [= <- <-]). apply must_move_view in Est; [|done].
    split; [done|]. exists (mss_move_shard st), (mss_step st). unfold mv at 1. rewrite Est. split; [done|]. by rewrite Hm.
  - apply result_bind_ok in Ea as (st & Est & [= <- <-]). split; [done|]. by rewrite Hm.
  - apply result_bind_ok in Ea as (st & Est & Ea). apply must_move_view in Est; [|done].
    unfold get_move_shard_desc in Ea. destruct (mss_move_shard st) as [o|] eqn:Eo; [|done]. cbn in Ea.
    apply result_bind_ok in Ea as ([g2 f3] & Ea & [= <- <-]). unfold apply_moving_shard, get_shard_desc in Ea.
    destruct (md_shard_desc o) as [shard|] eqn:Esd; [|done]. cbn [expect result_bind] in Ea.
    exists o, (mss_step st), shard. split; [unfold mv; rewrite Est; unfold move_digest; cbn; by rewrite Eo|]. split; [done|].
    rewrite Hm. unfold handed_over. destruct (_ =? _); injection Ea as <- <-; by split.
Qed.

(** Recording the progress of the pull. *)
Lemma progress_view key f f' i t :
  group_ok f → run_plug [(i, t, Proposal (mkEvalResult None (Some (SyncOp_ingest key))))] f = Ok f' →
  group_ok f' ∧ ds f' = ds f ∧ ∃ o s, mv f = Some (o, s) ∧ mv f' = Some (o, if s =? 0 then 1 else s).
Proof.
  intros Hok E. destruct (propose_view _ _ _ _ _ Hok E) as (Hok' & g & f1 & Ea & <- & Hm). split; [done|].
  unfold apply_sync_op in Ea. cbn [so_add_shard SyncOp_ingest so_move_shard so_split_shard so_merge_shard result_bind] in Ea.
  apply result_bind_ok in Ea as ([g1 f2] & Ea & [= <- <-]). unfold apply_move_shard_event in Ea. cbn in Ea.
  apply result_bind_ok in Ea as (st & Est & [= <- <-]). apply must_move_view in Est; [|done].
  pose proof (running_step _ _ Hok Est) as Hr. split; [done|]. exists (mss_move_shard st), (mss_step st).
  unfold mv at 1. rewrite Est. split; [done|]. rewrite Hm. cbn.
  destruct (mss_step st =? 0) eqn:Es; cbn; [done|]. unfold is_end_step in *. cbn in *. by rewrite Hr.
Qed.

(** ** The checks, on the view *)
Definition checked ev d f : Result bool :=
  check_move_shard_state_update_early (lo_info (f_observer f)) (lease f) d ev.
Lemma lease_view f : group_ok f → ls_descriptor (lease f) = ds f ∧ move_digest <$> ls_move_shard_state (lease f) = mv f.
Proof. by intros [_ _ [Hd Hm]]. Qed.
Lemma same_moving_view f d b :
  group_ok f → is_same_shard_moving (lease f) d = Ok b →
  ∃ o s, mv f = Some (Some o, s) ∧ b = bool_decide (o = d).
Proof.
  intros Hok. unfold is_same_shard_moving. destruct (lease_view f Hok) as [_ <-].
  destruct (ls_move_shard_state (lease f)) as [st|]; [|done]. cbn. unfold get_move_shard_desc, move_digest.
  destruct (mss_move_shard st) as [o|]; [|done]. cbn. intros [= <-]. eauto.
Qed.
(** The events that only ask for the move to be the one in progress. *)
Lemma checked_running ev d f :
  group_ok f → ev = Ingest ∨ ev = Abort ∨ ev = Apply → ∀ b, checked ev d f = Ok b → b = true ∧ ∃ s, mv f = Some (Some d, s).
Proof.
  intros Hok Hev b. unfold checked, check_move_shard_state_update_early. destruct (negb (is_ready_for_serving _)); [done|].
  assert ((if negb (has_shard_moving (lease f)) then Err (InvalidArgument "no such moving shard exists")
    else let? same := is_same_shard_moving (lease f) d in
         if negb same then Err (InvalidArgument "exists another moving shard task") else Ok true) = Ok b →
    b = true ∧ ∃ s, mv f = Some (Some d, s)) as Hg; [|by destruct Hev as [->|[->| ->]]].
  destruct (negb (has_shard_moving _)); [done|]. intros (same & Es & E)%result_bind_ok.
  apply same_moving_view in Es as (o & s & Hm & ->); [|done]. case_bool_decide; simplify_eq/=. eauto.
Qed.
Lemma checked_setup d f b :
  group_ok f → checked Setup d f = Ok b →
  gd_epoch (ds f) ≤ md_src_group_epoch d ∧ (if b then mv f = None else ∃ s, mv f = Some (Some d, s)).
Proof.
  intros Hok. unfold checked, check_move_shard_state_update_early. destruct (negb (is_ready_for_serving _)); [done|].
  unfold check_moving_shard_setup. destruct (lease_view f Hok) as [-> Hm].
  destruct (_ <? _) eqn:Ee; [done|]. to_prop. unfold has_shard_moving. destruct (ls_move_shard_state (lease f)) as [st|] eqn:El.
  - intros (same & Es & E)%result_bind_ok. apply same_moving_view in Es as (o & s & Hs & ->); [|done].
    case_bool_decide; simplify_eq/=. split; [lia|eauto].
  - intros [= <-]. split; [lia|]. by rewrite <- Hm.
Qed.
Lemma checked_setup_err d f e :
  group_ok f → checked Setup d f = Err (EpochNotMatch e) →
  md_src_group_epoch d < gd_epoch (ds f) ∨ ∃ o s, mv f = Some (Some o, s) ∧ o ≠ d.
Proof.
  intros Hok. unfold checked, check_move_shard_state_update_early. destruct (negb (is_ready_for_serving _)); [done|].
  unfold check_moving_shard_setup. destruct (lease_view f Hok) as [-> Hm].
  destruct (_ <? _) eqn:Ee; [to_prop; by left|]. destruct (negb (has_shard_moving _)); [done|].
  destruct (is_same_shard_moving (lease f) d) as [same|er|] eqn:Es; [|exfalso|done].
  2:{ revert Es. unfold is_same_shard_moving, get_move_shard_desc.
      destruct (ls_move_shard_state (lease f)) as [st|]; [|done]. cbn. by destruct (mss_move_shard st). }
  apply same_moving_view in Es as (o & s & Hs & ->); [|done]. cbn [result_bind]. case_bool_decide; cbn; [done|].
  intros _. right. eauto.
Qed.
Lemma checked_commit d f b shard :
  group_ok f → md_shard_desc d = Some shard → checked Commit d f = Ok b →
  if b then ∃ s, mv f = Some (Some d, s) ∧ s ≠ 2
  else mv f = Some (Some d, 2) ∨ is_moving_shard_finished (lo_info (f_observer f)) d (ds f) = Ok true.
Proof.
  intros Hok Hsd. unfold checked, check_move_shard_state_update_early. destruct (negb (is_ready_for_serving _)); [done|].
  unfold check_moving_shard_commit. destruct (lease_view f Hok) as [-> Hm].
  destruct (is_moving_shard_finished _ _ _) as [fin|er|] eqn:Ef; [|done..]. cbn [result_bind].
  destruct fin; [intros [= <-]; by right|].
  destruct (ls_move_shard_state (lease f)) as [st|] eqn:El; [|done]. intros (same & Es & E)%result_bind_ok.
  apply same_moving_view in Es as (o & s & Hs & ->); [|done]. case_bool_decide; [subst o|done]. cbn [negb] in E.
  rewrite Hs in Hm |- *. cbn in Hm. unfold move_digest in Hm. injection Hm as Ho Hst. rewrite Hst in E.
  destruct (Z.eqb_spec s (MoveShardStep_i32 Moved)) as [Es|Es]; injection E as <-; [left; by rewrite Es|eauto].
Qed.

(** The identity of a replica does not change. *)
Lemma flush_info t f : lo_info (f_observer (flush_updated_events t f)) = lo_info (f_observer f).
Proof.
  unfold flush_updated_events. cbn [f_observer].
  destruct (f_desc_updated f), (f_last_applied_term f <? t), (f_move_shard_state_updated f); cbn; try done;
    unfold lease_descriptor_updated, update_descriptor; cbn; by repeat case_match.
Qed.
Lemma run_plug_info es f f' : group_ok f → run_plug es f = Ok f' → lo_info (f_observer f') = lo_info (f_observer f).
Proof.
  intros [[Hb Hs] Hr Hy] E. unfold run_plug in E. apply result_bind_ok in E as (_ & _ & E). apply result_bind_ok in E as (s & S & F).
  assert (staged f f) as Hst.
  { split; [done..|left|left]; unfold fsm_descriptor, effective_move; by rewrite Hs. }
  destruct (stage_staged f es f s Hr Hst S) as [_ <- _ _].
  unfold finish_plug in F. apply result_bind_ok in F as (a & _ & F). apply result_bind_ok in F as (ge & _ & F).
  apply result_bind_ok in F as (f1 & W & [= <-]). rewrite flush_info.
  unfold trigger_updation_watchers in W. by apply result_bind_ok in W as (w & _ & [= <-]).
Qed.

(** ** The changes of the move-shard state *)
Lemma update_view ev d f r f' :
  group_ok f → update_move_shard_state d ev f = Some (r, f') →
  (f' = f ∧ match checked ev d f with Ok true => r = Panic | Ok false => r = Ok tt | Err e => r = Err e | Panic => r = Panic end) ∨
  (checked ev d f = Ok true ∧ r = Ok tt ∧ group_ok f' ∧ lo_info (f_observer f') = lo_info (f_observer f) ∧
   event_effect ev d f (ds f') (mv f')).
Proof.
  intros Hok. unfold update_move_shard_state, under_acl, prog_bind, prog_reads. cbn.
  fold (checked ev d f). destruct (checked ev d f) as [[]|e|] eqn:Ec; cbn; [|intros [= <- <-]; by left..].
  unfold call, propose_one. destruct (position f) as [i t].
  destruct (run_plug _ f) as [f1|e|] eqn:E; cbn; intros [= <- <-]; [right|by left..].
  pose proof (run_plug_info _ _ _ Hok E). apply event_view in E as [? ?]; done.
Qed.

(** ** A move and everything around it *)
Definition has (id : Z) f : bool := existsb (λ s, sd_id s =? id) (gd_shards (ds f)).
(** The step of the move [d] that the group is in. *)
Definition step_of d f : option Z :=
  match mv f with Some (Some o, s) => if decide (o = d) then Some s else None | _ => None end.
(** A group in good order, under its identity. *)
Record group_at (gid : Z) f : Prop := {
  at_ok : group_ok f; at_id : gd_id (ds f) = gid; at_info : ri_group_id (lo_info (f_observer f)) = gid }.
Lemma step_of_mv d f s : step_of d f = Some s ↔ mv f = Some (Some d, s).
Proof. unfold step_of. destruct (mv f) as [[[o|] s']|]; [case_decide|..]; split; intros; simplify_eq; done. Qed.
Lemma step_of_same d o s f : mv f = Some (o, s) → step_of d f = if decide (o = Some d) then Some s else None.
Proof. unfold step_of. intros ->. destruct o as [o|]; repeat case_decide; congruence. Qed.

(** *** What each event does to a group *)
Lemma setup_spec gid d f r f' :
  group_at gid f → setup_shard_moving d f = Some (r, f') →
  group_at gid f' ∧ ds f' = ds f ∧ (r = Ok tt → gd_epoch (ds f) ≤ md_src_group_epoch d ∧ is_Some (step_of d f')) ∧
  (step_of d f' = step_of d f ∨
   (step_of d f = None ∧ step_of d f' = Some 0 ∧ gd_epoch (ds f) ≤ md_src_group_epoch d)).
Proof.
  intros [Hok Hid Hi] E. destruct (update_view Setup d f r f' Hok E) as [[-> Hr]|(Hc & -> & Hok' & Hi' & Hd & Hm)].
  - split; [done|]. split; [done|]. split; [|by left]. intros ->. destruct (checked Setup d f) as [[]|e|] eqn:Ec; try done.
    apply checked_setup in Ec as [He (s & Hm)]; [|done]. split; [done|]. exists s. by apply step_of_mv.
  - apply checked_setup in Hc as [He Hn]; [|done]. split; [split; congruence|]. split; [done|].
    assert (step_of d f' = Some 0) as Hs by by apply step_of_mv.
    split; [intros _; split; [done|by eexists]|]. right. split_and!; try done. unfold step_of. by rewrite Hn.
Qed.
Lemma ingest_spec gid d f r f' :
  group_at gid f → enter_pulling_step d f = Some (r, f') →
  group_at gid f' ∧ ds f' = ds f ∧
  (step_of d f' = step_of d f ∨ ∃ s, step_of d f = Some s ∧ step_of d f' = Some (if s =? 0 then 1 else s)).
Proof.
  intros [Hok Hid Hi] E. destruct (update_view Ingest d f r f' Hok E) as [[-> Hr]|(Hc & -> & Hok' & Hi' & Hd & o & s & Hm & Hm')].
  - split; [done|]. by auto.
  - apply (checked_running Ingest d f Hok) in Hc as [_ [s' Hs]]; [|auto]. rewrite Hs in Hm. injection Hm as <- <-.
    split; [split; congruence|]. split; [done|]. right. exists s'. by rewrite !step_of_mv.
Qed.
Lemma progress_spec gid d id key f r f' :
  group_at gid f → save_ingest_progress id key f = Some (r, f') →
  group_at gid f' ∧ ds f' = ds f ∧
  (step_of d f' = step_of d f ∨ ∃ s, step_of d f = Some s ∧ step_of d f' = Some (if s =? 0 then 1 else s)).
Proof.
  intros [Hok Hid Hi]. unfold save_ingest_progress, under_acl, prog_bind, prog_reads, call. cbn.
  destruct (check_moving_shard_request_early _ _ _); [|intros [= <- <-]; by auto using Build_group_at..].
  unfold propose_one. destruct (position f) as [i t].
  destruct (run_plug _ f) as [f1|e|] eqn:Er; intros [= <- <-]; [|by auto using Build_group_at..].
  pose proof (run_plug_info _ _ _ Hok Er) as Hi'. apply progress_view in Er as (Hok' & Hd & o & s & Hm & Hm'); [|done].
  split; [split; congruence|]. split; [done|]. rewrite (step_of_same d _ _ _ Hm), (step_of_same d _ _ _ Hm').
  case_decide; [right; eauto|by left].
Qed.
Lemma abort_spec gid d f r f' :
  group_at gid f → abort_shard_moving d f = Some (r, f') →
  group_at gid f' ∧ ds f' = ds f ∧ (step_of d f' = step_of d f ∨ (is_Some (step_of d f) ∧ step_of d f' = None)).
Proof.
  intros [Hok Hid Hi] E. destruct (update_view Abort d f r f' Hok E) as [[-> Hr]|(Hc & -> & Hok' & Hi' & Hd & Hm)].
  - split; [done|]. by auto.
  - apply (checked_running Abort d f Hok) in Hc as [_ [s' Hs]]; [|auto]. split; [split; congruence|]. split; [done|].
    right. split; [exists s'; by apply step_of_mv|]. unfold step_of. by rewrite Hm.
Qed.
Lemma commit_moving_spec gid d shard f r f' :
  group_at gid f → md_shard_desc d = Some shard → commit_shard_moving d f = Some (r, f') →
  group_at gid f' ∧ ds f' = ds f ∧
  (step_of d f' = step_of d f ∨ (is_Some (step_of d f) ∧ step_of d f' = Some 2)) ∧
  (r = Ok tt → step_of d f' = Some 2 ∨ is_moving_shard_finished (lo_info (f_observer f)) d (ds f) = Ok true).
Proof.
  intros [Hok Hid Hi] Hsd E. destruct (update_view Commit d f r f' Hok E) as [[-> Hr]|(Hc & -> & Hok' & Hi' & Hd & o & s & Hm & Hm')].
  - split; [done|]. split; [done|]. split; [by left|]. intros ->. destruct (checked Commit d f) as [[]|e|] eqn:Ec; try done.
    rewrite step_of_mv. by eapply checked_commit in Ec.
  - eapply checked_commit in Hc as (s' & Hs & _); [|done..]. rewrite Hs in Hm. injection Hm as <- <-.
    split; [split; congruence|]. split; [done|]. rewrite !step_of_mv.
    split; [right; split; [exists s'; by apply step_of_mv|done]|by left].
Qed.
Lemma finish_spec gid d shard f r f' :
  group_at gid f → md_shard_desc d = Some shard → finish_shard_moving d f = Some (r, f') →
  group_at gid f' ∧
  ((f' = f) ∨ (is_Some (step_of d f) ∧ step_of d f' = None ∧ ds f' = handed_over (ds f) d shard)).
Proof.
  intros [Hok Hid Hi] Hsd E.
  destruct (update_view Apply d f r f' Hok E) as [[-> Hr]|(Hc & -> & Hok' & Hi' & o & s & sh & Hm & Hsh & Hd & Hm')].
  - split; [done|]. by left.
  - apply (checked_running Apply d f Hok) in Hc as [_ [s' Hs]]; [|auto]. rewrite Hs in Hm. injection Hm as <- <-.
    rewrite Hsd in Hsh. injection Hsh as <-.
    assert (gd_id (handed_over (ds f) d shard) = gd_id (ds f)) by (unfold handed_over; by destruct (_ =? _)).
    split; [split; congruence|]. right. split; [exists s'; by apply step_of_mv|]. split; [|done].
    unfold step_of. by rewrite Hm'.
Qed.

(** Other requests, configuration changes and changes of leadership: anything
    that neither touches the shard nor the move, nor lowers the epoch. *)
Record bystander (id : Z) d f f' : Prop := {
  by_ok : group_ok f';
  by_info : ri_group_id (lo_info (f_observer f')) = ri_group_id (lo_info (f_observer f));
  by_id : gd_id (ds f') = gd_id (ds f);
  by_epoch : gd_epoch (ds f) ≤ gd_epoch (ds f');
  by_has : has id f' = has id f;
  by_step : step_of d f' = step_of d f }.

(** The two groups, what the destination knows of the source's answers, and
    the steps that were seen. *)
Record sys := mkSys {
  src : fsm; dst : fsm;
  acquired : bool; refused : bool; moved_out : bool;
  pulling : bool; pulled : bool; released : bool }.

Section Move.
  Context (d : MoveShardDesc) (shard : ShardDesc).
  (** Whether a refusal of the source is acted upon only while the destination
      still prepares. *)
  Context (fresh : Prop).
  Abbreviation id := (sd_id shard).

(** After a step, the coordinators look at the states. *)
Definition note (s : sys) : sys :=
  mkSys (src s) (dst s) (acquired s) (refused s) (moved_out s)
    (pulling s || bool_decide (step_of d (dst s) = Some 1))
    (pulled s || bool_decide (step_of d (dst s) = Some 2))
    (released s || bool_decide (step_of d (src s) = Some 2)).
Definition set_src (f : fsm) (s : sys) : sys :=
  mkSys f (dst s) (acquired s) (refused s) (moved_out s) (pulling s) (pulled s) (released s).
Definition set_dst (f : fsm) (s : sys) : sys :=
  mkSys (src s) f (acquired s) (refused s) (moved_out s) (pulling s) (pulled s) (released s).
Definition is_ok (r : Result unit) : bool := match r with Ok _ => true | _ => false end.
Definition is_epoch_err (r : Result unit) : bool := match r with Err (EpochNotMatch _) => true | _ => false end.

Inductive step : sys → sys → Prop :=
  (** [acquire_shard], sent while the destination prepares, arrives any time *)
  | st_acquire s r f : setup_shard_moving d (src s) = Some (r, f) →
      step s (note (mkSys f (dst s) (acquired s || is_ok r) (refused s || is_epoch_err r) (moved_out s)
                      (pulling s) (pulled s) (released s)))
  | st_ingest s r f : acquired s = true → enter_pulling_step d (dst s) = Some (r, f) → step s (note (set_dst f s))
  | st_abort s r f : refused s = true → (fresh → step_of d (dst s) = Some 0) →
      abort_shard_moving d (dst s) = Some (r, f) → step s (note (set_dst f s))
  | st_progress s key r f : pulling s = true → save_ingest_progress id key (dst s) = Some (r, f) → step s (note (set_dst f s))
  | st_commit s r f : pulling s = true → commit_shard_moving d (dst s) = Some (r, f) → step s (note (set_dst f s))
  (** [move_out], sent once the destination has everything *)
  | st_move_out s r f : pulled s = true → commit_shard_moving d (src s) = Some (r, f) →
      step s (note (mkSys f (dst s) (acquired s) (refused s) (moved_out s || is_ok r)
                      (pulling s) (pulled s) (released s)))
  | st_finish_dst s r f : moved_out s = true → finish_shard_moving d (dst s) = Some (r, f) → step s (note (set_dst f s))
  | st_finish_src s r f : released s = true →
      Z.max (gd_epoch (ds (src s))) (Z.max (md_src_group_epoch d) (md_dest_group_epoch d)) + 2 ^ 32 < 2 ^ 64 →
      finish_shard_moving d (src s) = Some (r, f) → step s (note (set_src f s))
  | st_other_src s f : bystander id d (src s) f → step s (note (set_src f s))
  | st_other_dst s f : bystander id d (dst s) f → step s (note (set_dst f s)).

(** The destination has accepted the move; the source has the shard. *)
Record starts (s : sys) : Prop := {
  in_src : group_ok (src s); in_dst : group_ok (dst s);
  in_shard : md_shard_desc d = Some shard;
  in_groups : md_src_group_id d ≠ md_dest_group_id d;
  in_epochs : 0 ≤ md_src_group_epoch d ∧ 0 ≤ md_dest_group_epoch d ∧ 0 ≤ gd_epoch (ds (src s));
  in_src_id : gd_id (ds (src s)) = md_src_group_id d ∧ ri_group_id (lo_info (f_observer (src s))) = md_src_group_id d;
  in_dst_id : gd_id (ds (dst s)) = md_dest_group_id d ∧ ri_group_id (lo_info (f_observer (dst s))) = md_dest_group_id d;
  in_has : has id (src s) = true ∧ has id (dst s) = false;
  in_steps : step_of d (src s) = None ∧ step_of d (dst s) = Some 0;
  in_flags : acquired s = false ∧ refused s = false ∧ moved_out s = false ∧ pulling s = false ∧ pulled s = false ∧ released s = false }.

(** *** The invariant *)
Record consistent (s : sys) : Prop := {
  cs_src : group_at (md_src_group_id d) (src s);
  cs_dst : group_at (md_dest_group_id d) (dst s);
  cs_epoch : 0 ≤ gd_epoch (ds (src s));
  cs_source :
    (has id (src s) = true ∧ (step_of d (src s) = None ∨ step_of d (src s) = Some 0) ∧ released s = false) ∨
    (has id (src s) = true ∧ step_of d (src s) = Some 2 ∧ released s = true) ∨
    (has id (src s) = false ∧ step_of d (src s) = None ∧ md_src_group_epoch d < gd_epoch (ds (src s)) ∧ released s = true);
  cs_destination :
    (has id (dst s) = false ∧ step_of d (dst s) = Some 0 ∧ pulling s = false ∧ pulled s = false) ∨
    (has id (dst s) = false ∧ step_of d (dst s) = Some 1 ∧ pulling s = true ∧ pulled s = false) ∨
    (has id (dst s) = false ∧ step_of d (dst s) = Some 2 ∧ pulled s = true) ∨
    (has id (dst s) = true ∧ step_of d (dst s) = None ∧ moved_out s = true) ∨
    (has id (dst s) = false ∧ step_of d (dst s) = None ∧ (fresh → pulled s = false));
  cs_acquired : acquired s = true → is_Some (step_of d (src s)) ∨ released s = true;
  cs_pulling : pulling s = true → acquired s = true;
  cs_pulled : pulled s = true → pulling s = true;
  cs_released : released s = true → pulled s = true;
  cs_moved_out : moved_out s = true → released s = true }.

Lemma starts_consistent s : starts s → consistent s.
Proof.
  intros [Ks Kd Hsd Hne He [Hs1 Hs2] [Hd1 Hd2] [Hh1 Hh2] [Ht1 Ht2] (F1 & F2 & F3 & F4 & F5 & F6)].
  split; rewrite ?F1, ?F3, ?F4, ?F5, ?F6; try done; try (by split); [lia|left; by auto|left; by auto].
Qed.

Ltac flags := repeat (rewrite ?bool_decide_eq_true_2 by done; rewrite ?bool_decide_eq_false_2 by done);
  rewrite ?orb_false_r, ?orb_true_r.
(** What the source may do. *)
Lemma source_step s f (acq ref mo : bool) :
  0 ≤ md_src_group_epoch d → consistent s → group_at (md_src_group_id d) f →
  (has id f = has id (src s) ∧ gd_epoch (ds (src s)) ≤ gd_epoch (ds f) ∧
     (step_of d f = step_of d (src s) ∨
      (step_of d (src s) = None ∧ step_of d f = Some 0 ∧ gd_epoch (ds (src s)) ≤ md_src_group_epoch d) ∨
      (is_Some (step_of d (src s)) ∧ step_of d f = Some 2 ∧ pulled s = true))) ∨
  (released s = true ∧ is_Some (step_of d (src s)) ∧ step_of d f = None ∧ has id f = false ∧
     md_src_group_epoch d < gd_epoch (ds f)) →
  (acq = true → acquired s = true ∨ is_Some (step_of d f)) → (acquired s = true → acq = true) →
  (mo = true → moved_out s = true ∨ step_of d f = Some 2 ∨ released s = true) → (moved_out s = true → mo = true) →
  consistent (note (mkSys f (dst s) acq ref mo (pulling s) (pulled s) (released s))).
Proof.
  intros Hse [Cs Cd Hpos Csrc Cdst Ca Cpl Cpd Cr Cm] Hat Hf Hacq Hacq' Hmo Hmo'.
  assert (pulling s || bool_decide (step_of d (dst s) = Some 1) = pulling s) as Npl.
  { destruct (decide (step_of d (dst s) = Some 1)) as [E|E]; flags; [|done].
    destruct Cdst as [(_&?&_)|[(_&_&->&_)|[(_&?&_)|[(_&?&_)|(_&?&_)]]]]; try done; congruence. }
  assert (pulled s || bool_decide (step_of d (dst s) = Some 2) = pulled s) as Npd.
  { destruct (decide (step_of d (dst s) = Some 2)) as [E|E]; flags; [|done].
    destruct Cdst as [(_&?&_)|[(_&?&_)|[(_&_& ->)|[(_&?&_)|(_&?&_)]]]]; try done; congruence. }
  unfold note. cbn [src dst acquired refused moved_out pulling pulled released]. rewrite Npl, Npd.
  set (rl := released s || bool_decide (step_of d f = Some 2)).
  assert (rl = true ↔ released s = true ∨ step_of d f = Some 2) as Hrl.
  { unfold rl. rewrite orb_true_iff, bool_decide_eq_true. done. }
  assert (released s = true → rl = true) as Hrl' by tauto.
  assert (¬ (released s = true ∨ step_of d f = Some 2) → rl = false) as Hrl0.
  { intros Hn. apply not_true_is_false. tauto. }
  clearbody rl. split; cbn [src dst acquired refused moved_out pulling pulled released]; try done.
  - destruct Hf as [(_ & ? & _)|(_ & _ & _ & _ & ?)]; lia.
  - destruct Hf as [(Hh & He & [Hs|[(Hn & Hs & Hle)|(Hn & Hs & Hp)]])|(Hr & Hn & Hs & Hh & He)];
      rewrite ?Hs in *; [|left|right; left|right; right].
    + rewrite Hh. destruct Csrc as [(Hc & Hd & Hr)|[(Hc & Hd & Hr)|(Hc & Hd & Hl & Hr)]]; [left|right; left|right; right].
      * split_and!; try done. apply Hrl0. rewrite Hr. intros [?|?]; [done|]. destruct Hd; congruence.
      * auto.
      * split_and!; try done; [lia|auto].
    + rewrite Hh. destruct Csrc as [(Hc & Hd & Hr)|[(Hc & Hd & Hr)|(Hc & Hd & Hl & Hr)]]; [|congruence|lia].
      split_and!; try done; [by right|]. apply Hrl0. rewrite Hr. by intros [?|?].
    + rewrite Hh. destruct Csrc as [(Hc & Hd & Hr)|[(Hc & Hd & Hr)|(Hc & Hd & Hl & Hr)]]; [by split_and!; tauto..|].
      rewrite Hd in Hn. by destruct Hn.
    + by auto.
  - destruct Cdst as [?|[?|[?|[(?&?&?)|?]]]]; auto 10.
  - intros Ha. destruct (Hacq Ha) as [Ha'|?]; [|by left].
    destruct (Ca Ha') as [Hn|Hr]; [|right; by auto].
    destruct Hf as [(_ & _ & [->|[(_ & -> & _)|(_ & -> & _)]])|(Hr & _)]; [by left|left; by eexists..|right; by auto].
  - auto.
  - rewrite Hrl. intros [?|E]; [by apply Cr|].
    destruct Hf as [(_ & _ & [Hs|[(_ & Hs & _)|(_ & _ & Hp)]])|(Hr & _)]; [|congruence|done|by apply Cr].
    destruct Csrc as [(_ & [?|?] & _)|[(_ & _ & Hr)|(_ & ? & _)]]; try congruence. by apply Cr.
  - intros Hm. apply Hmo in Hm as [?|[?|?]]; tauto.
Qed.


(** What the destination may do. *)
Lemma destination_step s f :
  consistent s → group_at (md_dest_group_id d) f →
  (has id f = has id (dst s) ∧
     (step_of d f = step_of d (dst s) ∨
      (acquired s = true ∧ ∃ t, step_of d (dst s) = Some t ∧ step_of d f = Some (if t =? 0 then 1 else t)) ∨
      (is_Some (step_of d (dst s)) ∧ step_of d f = None ∧ (fresh → step_of d (dst s) = Some 0)) ∨
      (pulling s = true ∧ is_Some (step_of d (dst s)) ∧ step_of d f = Some 2))) ∨
  (moved_out s = true ∧ is_Some (step_of d (dst s)) ∧ step_of d f = None ∧ has id f = true) →
  consistent (note (set_dst f s)).
Proof.
  intros [Cs Cd Hpos Csrc Cdst Ca Cpl Cpd Cr Cm] Hat Hf.
  assert (released s || bool_decide (step_of d (src s) = Some 2) = released s) as Nrl.
  { destruct (decide (step_of d (src s) = Some 2)) as [E|E]; flags; [|done].
    destruct Csrc as [(_ & [?|?] & _)|[(_ & _ & ->)|(_ & ? & _)]]; try done; congruence. }
  unfold note, set_dst. cbn [src dst acquired refused moved_out pulling pulled released]. rewrite Nrl.
  destruct Hf as [(Hh & [Hs|[(Ha & t & Ht & Hs)|[(Hn & Hs & Hfr)|(Hp & Hn & Hs)]]])|(Hm & Hn & Hs & Hh)].
  - (* nothing *)
    assert (pulling s || bool_decide (step_of d f = Some 1) = pulling s ∧
      pulled s || bool_decide (step_of d f = Some 2) = pulled s) as [-> ->].
    { rewrite Hs. destruct Cdst as [(_&->&->&->)|[(_&->&->&->)|[(_&->&Hp)|[(_&->&_)|(_&->&_)]]]]; flags; try done. }
    split; cbn [src dst acquired refused moved_out pulling pulled released]; try done. by rewrite Hh, Hs.
  - (* pulling *)
    assert (has id (dst s) = false ∧ step_of d f = Some (if t =? 0 then 1 else t) ∧
      ((t = 0 ∨ t = 1) ∧ pulled s = false ∨ t = 2 ∧ pulled s = true)) as (Hd & _ & Hc).
    { destruct Cdst as [(?&E&_&?)|[(?&E&_&?)|[(?&E&?)|[(_&E&_)|(_&E&_)]]]]; rewrite E in Ht; try done; injection Ht as <-; auto 10. }
    destruct Hc as [[Ht' Hpd]|[-> Hpd]].
    + assert (step_of d f = Some 1) as Hs1 by (rewrite Hs; by destruct Ht' as [-> | ->]).
      rewrite Hs1, Hpd. flags. split; cbn [src dst acquired refused moved_out pulling pulled released]; try done;
        [rewrite Hh, Hs1, Hd; by right; left|intros Hr; by rewrite (Cr Hr) in Hpd].
    + cbn in Hs. rewrite Hs, Hpd. flags. split; cbn [src dst acquired refused moved_out pulling pulled released]; try done;
        [rewrite Hh, Hs, Hd; by right; right; left|by intros _; apply Cpd].
  - (* aborted *)
    rewrite Hs. flags. split; cbn [src dst acquired refused moved_out pulling pulled released]; try done.
    rewrite Hh, Hs. right; right; right; right.
    destruct Cdst as [(?&E&_&?)|[(?&E&_&?)|[(?&E&?)|[(_&E&_)|(_&E&_)]]]]; rewrite E in Hn, Hfr; try by destruct Hn.
    split_and!; try done. by intros ?%Hfr.
  - (* everything pulled *)
    rewrite Hs. flags. rewrite Hp. split; cbn [src dst acquired refused moved_out pulling pulled released]; try done; [|by auto].
    rewrite Hh, Hs. right; right; left.
    destruct Cdst as [(?&E&_&?)|[(?&E&_&?)|[(?&E&?)|[(_&E&_)|(_&E&_)]]]]; rewrite E in Hn; try done; by destruct Hn.
  - (* finished *)
    rewrite Hs. flags. split; cbn [src dst acquired refused moved_out pulling pulled released]; try done.
    rewrite Hh, Hs. right; right; right; left. done.
Qed.

(** *** Every step *)
Lemma has_drop g sid : existsb (λ s, sd_id s =? sid) (gd_shards (drop_shard g sid)) = false.
Proof.
  cbn. induction (gd_shards g) as [|s l IH]; [done|]. cbn. destruct (sd_id s =? sid) eqn:E; cbn; [done|]. by rewrite E.
Qed.
Lemma handed_over_src g : gd_id g = md_src_group_id d → 0 ≤ gd_epoch g →
  0 ≤ md_src_group_epoch d →
  Z.max (gd_epoch g) (Z.max (md_src_group_epoch d) (md_dest_group_epoch d)) + 2 ^ 32 < 2 ^ 64 →
  existsb (λ s, sd_id s =? id) (gd_shards (handed_over g d shard)) = false ∧
  md_src_group_epoch d < gd_epoch (handed_over g d shard).
Proof.
  intros Hid Hg He Hlt. unfold handed_over. rewrite Hid, Z.eqb_refl. split; [apply has_drop|].
  cbn [drop_shard set_shards gd_epoch set_epoch]. unfold apply_shard_delta, u64_add, u64_wrap.
  change SHARD_UPDATE_DELTA with (2 ^ 32). rewrite Z.mod_small; lia.
Qed.
Lemma handed_over_dst g : gd_id g ≠ md_src_group_id d →
  existsb (λ s, sd_id s =? id) (gd_shards (handed_over g d shard)) = true.
Proof.
  intros Hid. unfold handed_over. rewrite (proj2 (Z.eqb_neq _ _)) by congruence. cbn.
  rewrite existsb_app. cbn. rewrite Z.eqb_refl. by rewrite orb_true_r.
Qed.

Section Steps.
  Hypothesis shard_of : md_shard_desc d = Some shard.
  Hypothesis groups_differ : md_src_group_id d ≠ md_dest_group_id d.
  Hypothesis src_epoch_pos : 0 ≤ md_src_group_epoch d.

(** The only way [move_out] is answered without a change after the source let
    go is that it has finished. *)
Lemma finished_src f : group_at (md_src_group_id d) f →
  is_moving_shard_finished (lo_info (f_observer f)) d (ds f) = Ok true → has id f = false.
Proof.
  intros [_ _ Hi]. unfold is_moving_shard_finished. rewrite shard_of, Hi. cbn [expect result_bind].
  rewrite (proj2 (Z.eqb_neq (md_dest_group_id d) _)) by congruence.
  rewrite andb_false_l, orb_false_r. unfold is_shard_moved_out, has. intros [= [_ Hn%negb_true_iff]%andb_true_iff]. done.
Qed.

Lemma step_consistent s s' : consistent s → step s s' → consistent s'.
Proof.
  intros C St. pose proof C as [Cs Cd Hpos Csrc Cdst Ca Cpl Cpd Cr Cm].
  destruct St as [s r f E|s r f Ha E|s r f Hr Hf E|s key r f Hp E|s r f Hp E|s r f Hp E|s r f Hm E|s r f Hr Hlt E|s f B|s f B].
  - apply (setup_spec (md_src_group_id d)) in E as (Hat & Hd & Hr & Hs); [|done]. unfold has in *. apply source_step; try done.
    + left. unfold has. rewrite Hd. split; [done|]. split; [lia|].
      destruct Hs as [Hs|Hs]; [by left|]. by right; left.
    + destruct r as [[]|e|]; cbn; rewrite ?orb_false_r, ?orb_true_r; auto. intros _. right. by apply Hr.
    + intros ->. done.
    + auto.
  - apply (ingest_spec (md_dest_group_id d)) in E as (Hat & Hd & Hs); [|done]. apply destination_step; try done.
    left. unfold has. rewrite Hd. split; [done|]. destruct Hs as [Hs|Hs]; [by left|]. right; left. auto.
  - apply (abort_spec (md_dest_group_id d)) in E as (Hat & Hd & Hs); [|done]. apply destination_step; try done.
    left. unfold has. rewrite Hd. split; [done|]. destruct Hs as [Hs|[Hs1 Hs2]]; [by left|]. right; right; left. auto.
  - apply (progress_spec (md_dest_group_id d) d) in E as (Hat & Hd & Hs); [|done]. apply destination_step; try done.
    left. unfold has. rewrite Hd. split; [done|]. destruct Hs as [Hs|Hs]; [by left|]. right; left. auto.
  - apply (commit_moving_spec (md_dest_group_id d) d shard) in E as (Hat & Hd & Hs & _); [|done..]. apply destination_step; try done.
    left. unfold has. rewrite Hd. split; [done|]. destruct Hs as [Hs|[Hs1 Hs2]]; [by left|]. right; right; right. auto.
  - apply (commit_moving_spec (md_src_group_id d) d shard) in E as (Hat & Hd & Hs & Hr); [|done..]. apply source_step; try done.
    + left. unfold has. rewrite Hd. split; [done|]. split; [lia|]. destruct Hs as [Hs|[Hs1 Hs2]]; [by left|]. right; right. auto.
    + auto.
    + destruct r as [[]|e|]; cbn; rewrite ?orb_false_r, ?orb_true_r; auto. intros _. right.
      destruct (Hr eq_refl) as [?|Hfin%finished_src]; [by left|right|done].
      destruct Csrc as [(Hc & _)|[(Hc & _)|(_ & _ & _ & ?)]]; congruence.
    + by intros ->.
  - apply (finish_spec (md_dest_group_id d) d shard) in E as (Hat & Hs); [|done..]. apply destination_step; try done.
    destruct Hs as [->|(Hs1 & Hs2 & Hd)]; [by left; auto|right]. split_and!; try done.
    unfold has. rewrite Hd. apply handed_over_dst. destruct Cd as [_ -> _]. congruence.
  - apply (finish_spec (md_src_group_id d) d shard) in E as (Hat & Hs); [|done..]. unfold set_src. apply source_step; try done; auto.
    destruct Hs as [->|(Hs1 & Hs2 & Hd)]; [left; split_and!; try done; auto; lia|right].
    destruct (handed_over_src (ds (src s))) as [Hh He]; [by destruct Cs|done..|].
    unfold has. rewrite Hd. by split_and!.
  - destruct B as [Bok Bi Bid Be Bh Bs]. unfold set_src. apply source_step; try done; auto.
    + destruct Cs. split; congruence.
  - destruct B as [Bok Bi Bid Be Bh Bs]. apply destination_step; try done; auto.
    destruct Cd. split; congruence.
Qed.
Lemma steps_consistent s s' : consistent s → rtc step s s' → consistent s'.
Proof. intros C St. induction St; [done|]. eauto using step_consistent. Qed.
End Steps.

(** In this abstraction, while a shard moves between two groups, whatever is
    lost or repeated, it is never served twice: once the destination owns the
    shard, the source either forwards every request for it (the move is in step
    [Moved]) or has dropped it; and the source lets go only after the
    destination was told that it has everything.  When a refusal of the source
    is acted upon only while the destination still prepares ([fresh]; see
    [stale_refusal_loses_shard] for the other case), the shard is not lost
    either: the source has it, or the destination has it, or the destination is
    about to. *)
Theorem move_shard_exclusive s s' :
  starts s → rtc step s s' →
  (has id (dst s') = true → has id (src s') = true → step_of d (src s') = Some 2) ∧
  (has id (src s') = false ∨ step_of d (src s') = Some 2 → pulled s' = true) ∧
  (fresh → has id (src s') = true ∨ has id (dst s') = true ∨ step_of d (dst s') = Some 2).
Proof.
  intros Hst Hsteps. pose proof Hst as [Ks Kd Hsd Hne He Hs Hd Hh Ht Fl].
  eapply steps_consistent in Hsteps as [Cs Cd Hpos Csrc Cdst Ca Cpl Cpd Cr Cm]; [|done|done|lia|by apply starts_consistent].
  split; [|split].
  - intros Hd1 Hs1. destruct Cdst as [(?&_)|[(?&_)|[(?&_)|[(_&_&Hm)|(?&_)]]]]; try congruence. apply Cm in Hm.
    destruct Csrc as [(_&_&?)|[(_&?&_)|(?&_)]]; congruence.
  - intros Hg. apply Cr. destruct Csrc as [(?&[?|?]&?)|[(_&_&?)|(_&_&_&?)]]; try done; destruct Hg; congruence.
  - intros Hfr. destruct Csrc as [(?&_)|[(?&_)|(_&_&_&Hr)]]; [by left..|right]. apply Cr in Hr.
    destruct Cdst as [(_&_&_&?)|[(_&_&_&?)|[(_&?&_)|[(?&_)|(_&_&Hp)]]]]; auto; [congruence..|].
    specialize (Hp Hfr). congruence.
Qed.

End Move.
End Protocol.
