(* ===== verification/NodeSamples.v ===== *)
(** * Requests to a group of two nodes *)

From S2P Require Import Prelude Bytes Rock Api RocksDb Errors Schema Keys Engine EngineFacts EngineWrites Samples Cas EvalTxn.
From S2P Require Import TxnSamples EvalRead EvalWrite Latch Fsm FsmProps FsmPlug Lease FsmSamples Router.
From S2P Require Import GroupClient GroupClientProps Replica ReplicaProps ShardClient MoveShard Node NodeProps MoveProtocol.
#[local] Open Scope Z_scope.

(** Replica 12 on node 2 leads group 1 in term 3, replica 11 on node 1
    follows; the world counts the effects. *)
Definition two_nodes : GroupDesc :=
  mkGroupDesc 1 7 [mkShardDesc 10 7 (Some (mkRange [] []))] [mkReplicaDesc 11 1 0; mkReplicaDesc 12 2 0].
Definition two_lease (node : Z) : LeaseState :=
  mkLeaseState 12 3 (mkReplicaState (10 + node) 1 3 12 (RaftRole_i32 (if node =? 2 then Leader else Follower)) node)
    two_nodes None (Some []) ScheduleState_default ∅ [].
Definition two_engine : GroupEngine (gmap bytes bytes) :=
  mkGroupEngine ∅ (mkGroupEngineCore two_nodes (internal_shard_descs two_nodes) None).
Definition two_env (node : Z) : ReplicaEnv (gmap bytes bytes) nat unit := {|
  re_engine _ := two_engine; re_info _ := mkReplicaInfo (10 + node) 1 node Normal; re_lease _ := two_lease node;
  re_next_version _ _ := 1; re_split_keys _ _ _ := [];
  re_acquire _ _ w := (Ok tt, w); re_release _ w := w;
  re_propose _ w := (Ok tt, S w); re_change_config _ w := (Ok tt, S w);
  re_transfer_leader _ w := (Ok tt, S w); re_assign _ _ _ w := (Ok tt, S w);
  re_watch _ _ w := Some w; re_take_acl _ w := w; re_try_acl _ w := Some w; re_drop_acl _ w := w; re_sleep w := w |}.
Definition two_guard (node : Z) : LatchGuard nat unit := {|
  guard_resolve_txn g _ w := (Ok None, g, w); guard_signal_all _ _ _ w := w |}.
Definition two_mgr (node : Z) : LatchManager nat := {| mgr_resolve_txn w _ _ _ _ := (Ok None, w) |}.

#[local] Instance two_env_ok node : ReplicaEnvOk (two_env node) (two_guard node) (two_mgr node) id.
Proof. split; try done; cbn; try congruence; intros; intros w r w' [= <- <-]; by split. Qed.
Lemma two_ingest_quiet node shard_id vs : quiet id (replica_ingest_value_set (RE := two_env node) shard_id vs).
Proof.
  intros w r w'. unfold replica_ingest_value_set, under_acl, prog_bind, prog_reads. cbn.
  destruct (check_moving_shard_request_early _ _ shard_id) as [u|e|] eqn:E; [|by intros [= _ <-]..].
  revert E. unfold check_moving_shard_request_early, two_lease. by destruct (node =? 2).
Qed.
Definition two_find (node : Z) (w : nat) (g : Z) : option Z := if g =? 1 then Some node else None.

(** A network that loses what is not answered. *)
Definition two_move (node : Z) (req : MoveShardRequest) (w : nat) : (Status + option MoveShardResponse) * nat :=
  (inl (Status_new CodeInternal "down"), w).
Abbreviation two_service :=
  (node_group_service two_env two_guard two_mgr two_find (λ _, sample_state) (λ _, 0) (λ _ w, w) sample_connect two_move).
Definition two_call (node : Z) (t : option Z) (req : GroupRequest) (w : nat) : (Status + GroupResponse) * nat :=
  match two_service node 5 req w with
  | Some (Ok r, w) => (r, w)
  | _ => (inl (Status_new CodeInternal "down"), w)
  end.
Definition two_client : GroupClient Z := mkGroupClient 1 None 7 None [mkReplicaDesc 11 1 0; mkReplicaDesc 12 2 0] None 0 ∅.
Definition new_shard : Request := RCreateShard (mkCreateShardRequest (Some (mkShardDesc 99 8 (Some (mkRange [] []))))).

Lemma request_takes_effect_once_witness :
  is_read_only_request new_shard = false ∧
  ∃ c', request (λ _, sample_state) (λ _, 0) sample_connect two_call 5 new_shard two_client O
    = Some (Ok SCreateShardResp, c', 1%nat) ∧ (1 ≤ 1 + 0)%nat.
Proof.
  assert (∃ c', request (λ _, sample_state) (λ _, 0) sample_connect two_call 5 new_shard two_client O
    = Some (Ok SCreateShardResp, c', 1%nat)) as [c' Hrun] by (eexists; vm_compute; reflexivity).
  split; [reflexivity|]. exists c'. split; [exact Hrun|].
  refine (proj1 (request_takes_effect_once two_env two_guard two_mgr id two_ingest_quiet two_find
    (λ _, sample_state) (λ _, 0) (λ _ w, w) sample_connect two_call two_move _ _ _ 5 new_shard two_client O
    (Ok SCreateShardResp) c' 1%nat eq_refl Hrun)).
  - done.
  - intros node req w r w' [= <- <-]. left. by eauto.
  - intros node t req w r w'. unfold two_call.
    destruct (two_service node 5 req w) as [[[a| |] w1]|] eqn:E; intros [= <- <-]; [|left; by eauto..].
    right. exists 5%nat, (Ok a). by eauto.
Defined.

(** ** Where a request fails for the wrong reason *)
Abbreviation on_leader request := (replica_execute two_env two_guard two_mgr 5 5 2 ExecCtx_default
  (mkGroupRequest 1 7 (Some (Some request))) O).

(** A request that names a shard the group does not have, with the right
    epoch, brings the server down instead of an error. *)
Lemma unknown_shard_panics : on_leader (RGet (mkShardGetRequest 99 5 [Byte.x61])) = Some (Panic, O).
Proof. vm_compute. reflexivity. Qed.
(** So does an intent without a write, which [write_intent] answers with
    [InvalidArgument]: the latches it has not taken are unwrapped first. *)
Lemma empty_intent_panics : on_leader (RWriteIntent (mkWriteIntentRequest 10 5 None)) = Some (Panic, O).
Proof. vm_compute. reflexivity. Qed.

Section MovingScan.
  Context {DB : Type} `{RocksDb DB} `{Codec TxnIntent} `{Codec WriteBatch}.
  Context {W G R : Type}.
  Context (replica_env : R → ReplicaEnv DB W G) (replica_guard : R → LatchGuard W G) (replica_mgr : R → LatchManager W).
  Variable client_forward : Z → ForwardRequest → W → option (CResult ForwardResponse * W).

(** The scan of a shard that is moved away never succeeds: the part at the
    source is executed with the epoch 0 of an empty context, which no leader
    admits. *)
Lemma moving_scan_fails replica ctx req w fuel r w' :
  let l := @re_lease _ _ _ (replica_env replica) (@re_take_acl _ _ _ (replica_env replica) AclRead w) in
  is_terminated (@re_info _ _ _ (replica_env replica) w) = false → is_ready_for_serving l = true →
  0 < gd_epoch (ls_descriptor l) →
  forward_scan_request replica_env replica_guard replica_mgr client_forward fuel replica ctx req w = Some (r, w') →
  ∀ resp, r ≠ Ok resp.
Proof.
  intros l Ht Hl He. unfold forward_scan_request, execute. rewrite Ht. unfold execute_admitted, check_request_early.
  cbn [take_acl_guard is_change_meta_request andb]. fold l.
  apply andb_true_iff in Hl as [Hl1 Hl2]. rewrite Hl1, Hl2. cbn [negb ec_forward_shard_id ExecCtx_default ec_epoch].
  rewrite (proj2 (Z.ltb_lt _ _) He).
  intros [(a & w1 & _ & [(b & w2 & _ & [(c & w3 & [=] & _)|[(e & [= <- <-] & ->)|[[=] _]]]%prog_bind_inv)
    |[(e & _ & ->)|[_ ->]]]%prog_bind_inv)|[(e & _ & ->)|[_ ->]]]%prog_bind_inv resp; done.
Qed.
End MovingScan.

(** And the client that gets this answer, with the epoch it already has, panics. *)
Lemma known_epoch_panics_client {NC} (c : GroupClient NC) desc opt :
  io_accurate_epoch opt = false → gd_epoch desc = gc_epoch c → apply_epoch_not_match_status c desc opt = Panic.
Proof. intros Ha He. unfold apply_epoch_not_match_status. by rewrite Ha, He, Z.leb_refl. Qed.

(** A forwarded request that meets a newer epoch is sent again for ever: the
    answer never reaches the client that should look for the shard anew. *)
Lemma forward_never_answers {W V} (now : W → Z) sleep rounds (attempt : W → option (CResult V * W)) st w :
  rt_deadline st = None → (∀ w, ∃ desc w', attempt w = Some (Err (CEpochNotMatch desc), w')) →
  retry_op now sleep rounds attempt st w = None.
Proof.
  intros Hst Ha. revert st w Hst. induction rounds as [|n IH]; intros st w Hst; [done|]. cbn [retry_op].
  destruct (Ha w) as (desc & w' & ->). unfold retry. cbn. unfold force_retry. rewrite Hst. by apply IH.
Qed.

(** The move of the second shard of a table: entering the pulling step records
    the empty key as the last one moved, so the first chunk starts at the
    beginning of the table and carries the keys of its other shards. *)
Definition halves : GroupDesc :=
  mkGroupDesc 1 7 [mkShardDesc 1 100 (Some (mkRange [] (str_bytes "m"))); mkShardDesc 2 100 (Some (mkRange (str_bytes "m") []))] [].
Definition halves_engine : GroupEngine (gmap bytes bytes) :=
  mkGroupEngine (write_batch db_empty (map (vop_batch 100) [VSet (str_bytes "a") 5 (Some val_x); VSet (str_bytes "z") 6 (Some val_y)]))
    (mkGroupEngineCore halves (internal_shard_descs halves) None).
Definition pulled_keys (last_key : option bytes) : Result (list bytes) :=
  let? resp := (@scan _ _ _ nat (two_mgr 2) (λ _, halves_engine) ExecCtx_default (pull_request 2 last_key) O).1 in
  Ok (map vs_user_key (sr_data resp)).
Lemma pull_takes_foreign_keys :
  (∀ desc, so_move_shard (SyncOp_move_shard Ingest desc) = Some (mkMoveShard 1 (Some desc) [])) ∧
  pulled_keys (Some []) = Ok [str_bytes "a"; str_bytes "z"] ∧ pulled_keys None = Ok [str_bytes "z"].
Proof. split; [done|]. split; vm_compute; reflexivity. Qed.

(** * A shard moves between two groups *)
(** Shard 10 of group 1 is to move to group 2. *)
Definition moving : ShardDesc := mkShardDesc 10 7 (Some (mkRange [] [])).
Definition moving_desc : MoveShardDesc := mkMoveShardDesc (Some moving) 1 7 2 5.
Definition from_group : GroupDesc := mkGroupDesc 1 7 [moving] [mkReplicaDesc 11 1 0].
Definition to_group : GroupDesc := mkGroupDesc 2 5 [mkShardDesc 20 8 (Some (mkRange [] []))] [mkReplicaDesc 12 2 0].
Definition to_move : MoveShardState := mkMoveShardState (Some moving_desc) None 0.

Section Run.
  Context {DB : Type} `{RocksDb DB} `{Codec EntryId} `{Codec GroupDesc} `{Codec MoveShardState} `{Codec WriteBatch}.
  Abbreviation machine := (GroupStateMachine DB LeaseStateObserver unit).

(** The leader of a group in term 1, every entry of which is applied. *)
Definition leader_of (db : DB) (g : GroupDesc) (m : option MoveShardState) (replica : Z) : machine :=
  mkFsm (mkGroupEngine db (mkGroupEngineCore g (internal_shard_descs g) m))
    (lease_term_updated 1 (on_state_updated replica replica 1 Leader
      (mkLeaseStateObserver (mkReplicaInfo replica (gd_id g) replica Normal) (LeaseState_new g m) [])))
    (mkWatchHub [] ∅) [] WriteStates_default ∅ false false 1.
Definition before_move (db1 db2 : DB) : sys :=
  mkSys (leader_of db1 from_group None 11) (leader_of db2 to_group (Some to_move) 12) false false false false false false.
Definition at_ (f : machine) : Z * Z := (1, 1).

Lemma before_move_starts db1 db2 : starts moving_desc moving (before_move db1 db2).
Proof.
  split; try done; try (by split_and!);
    (split; [done|intros st Hst; cbn in Hst; by simplify_eq|split; reflexivity]).
Qed.

(** The whole move. *)
Lemma whole_move db1 db2 :
  ∃ s', rtc (step at_ moving_desc moving True) (before_move db1 db2) s' ∧
    has 10 (src s') = false ∧ has 10 (dst s') = true.
Proof.
  eexists. split.
  { eapply rtc_l; [eapply st_acquire; by vm_compute|].
    eapply rtc_l; [eapply st_ingest; by vm_compute|].
    eapply rtc_l; [eapply st_commit; by vm_compute|].
    eapply rtc_l; [eapply st_move_out; by vm_compute|].
    eapply rtc_l; [eapply st_finish_dst; by vm_compute|].
    eapply rtc_l; [eapply st_finish_src; by vm_compute|]. apply rtc_refl. }
  split; by vm_compute.
Qed.

(** A refusal of the source that the destination acts upon late, after it told
    the source to let go: the shard is gone. *)
Lemma stale_refusal_loses_shard db1 db2 :
  ∃ s', rtc (step at_ moving_desc moving False) (before_move db1 db2) s' ∧
    has 10 (src s') = false ∧ has 10 (dst s') = false ∧ step_of moving_desc (dst s') = None.
Proof.
  eexists. split.
  { eapply rtc_l; [eapply st_acquire; by vm_compute|].
    eapply rtc_l; [eapply st_ingest; by vm_compute|].
    eapply rtc_l; [eapply st_commit; by vm_compute|].
    eapply rtc_l; [eapply st_move_out; by vm_compute|].
    eapply rtc_l; [eapply st_finish_src; by vm_compute|].
    eapply rtc_l; [eapply st_acquire; by vm_compute|].
    eapply rtc_l; [eapply st_abort; [by vm_compute|done|by vm_compute]|]. apply rtc_refl. }
  split_and!; by vm_compute.
Qed.
End Run.

Lemma move_shard_exclusive_witness :
  ∃ s', rtc (step at_ moving_desc moving True) (before_move (∅ : gmap bytes bytes) (∅ : gmap bytes bytes)) s' ∧
    has 10 (src s') = false ∧ pulled s' = true.
Proof.
  destruct (whole_move (∅ : gmap bytes bytes) (∅ : gmap bytes bytes)) as (s' & Hrun & Hs & _).
  exists s'. split; [exact Hrun|]. split; [exact Hs|].
  refine (proj1 (proj2 (move_shard_exclusive at_ moving_desc moving True _ s' _ Hrun)) _).
  - apply before_move_starts.
  - left. exact Hs.
Defined.
