(* ===== verification/RootStats.v ===== *)
(** * What the root knows of the cluster

    [server/src/root/stats.rs], [liveness.rs] and [allocator/source.rs]: the
    statistics the groups report, the nodes' liveness, and the copy of the
    metadata that the allocator works on. *)

From S2P Require Import Prelude Bytes F64 Api Schema.
#[local] Open Scope Z_scope.

(** A [HashMap] is visited in an order of its own. *)
Class HashOrder := {
  visit : ∀ {A : Type}, gmap Z A → list (Z * A);
  visit_perm : ∀ {A : Type} (m : gmap Z A), visit m ≡ₚ map_to_list m;
}.

(** ** [stats.rs] *)
Record GroupDelta := mkGroupDelta { dl_epoch : Z; dl_incoming : list ReplicaDesc; dl_outgoing : list ReplicaDesc }.
Record NodeDelta := mkNodeDelta { nd_replica_count : Z }.
Definition NodeDelta_default : NodeDelta := mkNodeDelta 0.
Record SchedStats := mkSchedStats {
  raw_group_delta : gmap Z GroupDelta; node_view : gmap Z NodeDelta; split_shards : gset Z }.
Record TableStats := mkTableStats { ts_shards : gmap Z ShardStats; ts_shard_indexes : gmap Z Z }.
Definition TableStats_default : TableStats := mkTableStats ∅ ∅.
Record ClusterStats := mkClusterStats {
  sched_stats : SchedStats; job_node_delta : gmap Z NodeDelta;
  table_set_stats : gmap Z TableStats; group_set_stats : gmap Z GroupStats }.
Definition ClusterStats_default : ClusterStats := mkClusterStats (mkSchedStats ∅ ∅ ∅) ∅ ∅ ∅.

Section Stats.
  Context `{HashOrder}.

Definition record_shard (group_id : Z) (tables : gmap Z TableStats) (shard : ShardStats) : gmap Z TableStats :=
  let t := default TableStats_default (tables !! sst_table_id shard) in
  <[sst_table_id shard := mkTableStats (<[sst_shard_id shard := shard]> (ts_shards t))
                                       (<[sst_shard_id shard := group_id]> (ts_shard_indexes t))]> tables.
Definition handle_group_stats (g : GroupStats) (c : ClusterStats) : ClusterStats :=
  mkClusterStats (sched_stats c) (job_node_delta c)
    (fold_left (record_shard (gst_group_id g)) (gst_shard_stats g) (table_set_stats c))
    (<[gst_group_id g := g]> (group_set_stats c)).

Definition replace_one (m : gmap Z GroupDelta) (state : ScheduleState) : bool * gmap Z GroupDelta :=
  let new := mkGroupDelta (sch_epoch state) (sch_incoming_replicas state) (sch_outgoing_replicas state) in
  match m !! sch_group_id state with
  | Some delta => if dl_epoch delta <? sch_epoch state then (true, <[sch_group_id state := new]> m) else (false, m)
  | None => (true, <[sch_group_id state := new]> m)
  end.
Fixpoint replace_state (updates : list ScheduleState) (m : gmap Z GroupDelta) : bool * gmap Z GroupDelta :=
  match updates with
  | [] => (false, m)
  | state :: updates' =>
      let '(u, m) := replace_one m state in
      let '(u', m) := replace_state updates' m in (u || u', m)
  end.
Definition bump (d : Z) (view : gmap Z NodeDelta) (r : ReplicaDesc) : gmap Z NodeDelta :=
  match view !! rd_node_id r with
  | Some n => <[rd_node_id r := mkNodeDelta (i64_wrap (nd_replica_count n + d))]> view
  | None => <[rd_node_id r := mkNodeDelta d]> view
  end.
Definition rebuild_one (view : gmap Z NodeDelta) (r : GroupDelta) : gmap Z NodeDelta :=
  fold_left (bump (-1)) (dl_outgoing r) (fold_left (bump 1) (dl_incoming r) view).
Definition rebuild_view (m : gmap Z GroupDelta) : gmap Z NodeDelta :=
  fold_left rebuild_one (snd <$> visit m) ∅.

Definition handle_schedule_update (state_updates : list ScheduleState) (job_updates : option (gmap Z NodeDelta))
    (c : ClusterStats) : ClusterStats :=
  let s := sched_stats c in
  let s :=
    match state_updates with
    | [] => s
    | _ =>
        let '(updated, raw) := replace_state state_updates (raw_group_delta s) in
        mkSchedStats raw (if updated then rebuild_view raw else node_view s) (split_shards s)
    end in
  mkClusterStats s (match job_updates with Some j => j | None => job_node_delta c end)
    (table_set_stats c) (group_set_stats c).

Definition with_split (f : gset Z → gset Z) (c : ClusterStats) : ClusterStats :=
  let s := sched_stats c in
  mkClusterStats (mkSchedStats (raw_group_delta s) (node_view s) (f (split_shards s)))
    (job_node_delta c) (table_set_stats c) (group_set_stats c).
Definition handle_split_shard (shard_id : Z) : ClusterStats → ClusterStats := with_split (λ s, {[shard_id]} ∪ s).
Definition finish_split_shard (shard_id : Z) : ClusterStats → ClusterStats := with_split (λ s, s ∖ {[shard_id]}).

Definition get_node_delta (c : ClusterStats) (node : Z) : NodeDelta :=
  let rs := match node_view (sched_stats c) !! node with
            | Some d => i64_wrap (0 + nd_replica_count d)
            | None => 0
            end in
  let rs := match job_node_delta c !! node with
            | Some d => i64_wrap (rs + nd_replica_count d)
            | None => rs
            end in
  mkNodeDelta rs.

Definition SPLIT_THRESHOLD : Z := 64 * 1024 * 1024.
Fixpoint large_of_table (limit : Z) (in_spliting : gset Z) (t : TableStats) (shards : list ShardStats)
    (targets : list (Z * Z)) : list (Z * Z) :=
  match shards with
  | [] => targets
  | s :: shards' =>
      if (sst_shard_size s <? SPLIT_THRESHOLD) || bool_decide (sst_shard_id s ∈ in_spliting)
      then large_of_table limit in_spliting t shards' targets
      else
        match ts_shard_indexes t !! sst_shard_id s with
        | None => large_of_table limit in_spliting t shards' targets
        | Some group_id =>
            if group_id =? ROOT_GROUP_ID then large_of_table limit in_spliting t shards' targets
            else
              let targets := targets ++ [(group_id, sst_shard_id s)] in
              if limit <=? Z.of_nat (length targets) then targets
              else large_of_table limit in_spliting t shards' targets
        end
  end.
Definition get_large_shards (c : ClusterStats) (limit : Z) : list (Z * Z) :=
  fold_left (λ targets t, large_of_table limit (split_shards (sched_stats c)) t (snd <$> visit (ts_shards t)) targets)
    (snd <$> visit (table_set_stats c)) [].
Definition get_shard_stats (c : ClusterStats) (shard_id : Z) : option ShardStats :=
  head (omap (λ t, ts_shards t !! shard_id) (snd <$> visit (table_set_stats c))).
Definition get_group_stats (c : ClusterStats) (group_id : Z) : option GroupStats := group_set_stats c !! group_id.
(** The statistics of the groups are kept. *)
Definition stats_reset (c : ClusterStats) : ClusterStats :=
  mkClusterStats (mkSchedStats ∅ ∅ ∅) ∅ ∅ (group_set_stats c).
End Stats.

(** ** [liveness.rs] *)
Record Liveness := mkLiveness { liveness_threshold : Z; lv_nodes : gmap Z Z }.
Definition Liveness_new (threshold : Z) : Liveness := mkLiveness threshold ∅.
Section Liveness.
  Context (now : Z) (l : Liveness).
Definition new_expiration : Z := now + liveness_threshold l.
Definition liveness_get (node : Z) : Z := default new_expiration (lv_nodes l !! node).
Definition is_dead (expiration : Z) : bool := expiration <? now.
Definition renew (node : Z) : Liveness :=
  match lv_nodes l !! node with
  | Some expiration =>
      if expiration <? new_expiration then mkLiveness (liveness_threshold l) (<[node := new_expiration]> (lv_nodes l)) else l
  | None => mkLiveness (liveness_threshold l) (<[node := new_expiration]> (lv_nodes l))
  end.
Definition init_node_if_first_seen (node : Z) : Liveness :=
  match lv_nodes l !! node with
  | Some _ => l
  | None => mkLiveness (liveness_threshold l) (<[node := new_expiration]> (lv_nodes l))
  end.
Definition liveness_reset : Liveness := mkLiveness (liveness_threshold l) ∅.
End Liveness.

(** ** [source.rs] *)
Inductive NodeFilter := FAll | FAlive | FSchedulable | FNotDecommissioned.
Record SysAllocSource := mkSysAllocSource {
  as_nodes : list NodeDesc; as_groups : gmap Z GroupDesc;
  as_node_replicas : gmap Z (list (ReplicaDesc * Z)); as_replicas : gmap Z ReplicaState }.
Definition SysAllocSource_default : SysAllocSource := mkSysAllocSource [] ∅ ∅ ∅.

Definition set_nodes (ns : list NodeDesc) (s : SysAllocSource) : SysAllocSource :=
  mkSysAllocSource ns (as_groups s) (as_node_replicas s) (as_replicas s).
Definition push_replica (group_id : Z) (m : gmap Z (list (ReplicaDesc * Z))) (r : ReplicaDesc) :
    gmap Z (list (ReplicaDesc * Z)) :=
  match m !! rd_node_id r with
  | Some l => <[rd_node_id r := l ++ [(r, group_id)]]> m
  | None => <[rd_node_id r := [(r, group_id)]]> m
  end.
Definition index_group (m : gmap Z (list (ReplicaDesc * Z))) (g : GroupDesc) : gmap Z (list (ReplicaDesc * Z)) :=
  fold_left (push_replica (gd_id g)) (gd_replicas g) m.
Definition set_groups (gs : list GroupDesc) (s : SysAllocSource) : SysAllocSource :=
  mkSysAllocSource (as_nodes s) (fold_left (λ m g, <[gd_id g := g]> m) gs ∅)
    (fold_left index_group gs ∅) (as_replicas s).
Definition set_replica_states (rs : list ReplicaState) (s : SysAllocSource) : SysAllocSource :=
  mkSysAllocSource (as_nodes s) (as_groups s) (as_node_replicas s)
    (fold_left (λ m r, <[rs_replica_id r := r]> m) rs ∅).
Definition node_replicas (s : SysAllocSource) (node_id : Z) : list (ReplicaDesc * Z) :=
  default [] (as_node_replicas s !! node_id).
Definition replica_state (s : SysAllocSource) (replica_id : Z) : option ReplicaState := as_replicas s !! replica_id.
Definition replica_states `{HashOrder} (s : SysAllocSource) : list ReplicaState := snd <$> visit (as_replicas s).

Definition node_alive (now : Z) (l : Liveness) (n : NodeDesc) : bool := negb (is_dead now (liveness_get now l (nd_id n))).
Definition nodes (now : Z) (l : Liveness) (s : SysAllocSource) (filter : NodeFilter) : list NodeDesc :=
  match filter with
  | FAll => as_nodes s
  | FAlive => List.filter (node_alive now l) (as_nodes s)
  | FSchedulable =>
      List.filter (λ n, (nd_status n =? NodeStatus_i32 NActive) && node_alive now l n) (as_nodes s)
  | FNotDecommissioned => List.filter (λ n, negb (nd_status n =? NodeStatus_i32 NDecommissioned)) (as_nodes s)
  end.

(** * Pending changes of the groups, by node *)
(** ** A list collected in a map by a key without duplicates *)
Section Keyed.
  Context {A : Type} (key : A → Z).
Definition collect (l : list A) : gmap Z A := fold_left (λ m a, <[key a := a]> m) l ∅.
Lemma collect_list l : NoDup (key <$> l) → map_to_list (collect l) ≡ₚ (λ a, (key a, a)) <$> l.
Proof.
  unfold collect. induction l as [|a l IH] using rev_ind; intros Hn; [cbn; by rewrite map_to_list_empty|].
  rewrite fmap_app, NoDup_app in Hn. destruct Hn as (Hn & Hd & _). rewrite fold_left_app. cbn. rewrite fmap_app. cbn.
  assert (fold_left (λ (m : gmap Z A) a, <[key a := a]> m) l ∅ !! key a = None) as Hnone; [|by rewrite map_to_list_insert, IH, Permutation_app_comm].
  destruct (fold_left _ l ∅ !! key a) as [b|] eqn:E; [|done]. exfalso. apply elem_of_map_to_list in E. rewrite IH in E by done.
  apply list_elem_of_fmap in E as (c & [= Hk ->] & Hc). apply (Hd (key a)); [|by left]. rewrite Hk. by apply list_elem_of_fmap_2.
Qed.
Lemma collect_lookup l k a : NoDup (key <$> l) → collect l !! k = Some a ↔ a ∈ l ∧ key a = k.
Proof.
  intros Hn. rewrite <- elem_of_map_to_list, collect_list by done. rewrite list_elem_of_fmap. naive_solver.
Qed.
End Keyed.

Section Pending.
  Context `{HashOrder}.
Definition at_node (node : Z) (l : list ReplicaDesc) : Z := Z.of_nat (length (List.filter (λ r, rd_node_id r =? node) l)).
(** What a group's pending change brings to a node. *)
Definition delta_at (node : Z) (d : GroupDelta) : Z := at_node node (dl_incoming d) - at_node node (dl_outgoing d).
Definition view_at (view : gmap Z NodeDelta) (node : Z) : Z := default 0 (nd_replica_count <$> view !! node).
Definition sum_at (node : Z) (l : list GroupDelta) : Z := foldr (λ d acc, delta_at node d + acc) 0 l.

Lemma i64_wrap_add a b : i64_wrap (i64_wrap a + b) = i64_wrap (a + b).
Proof.
  unfold i64_wrap. replace ((a + 2 ^ 63) mod 2 ^ 64 - 2 ^ 63 + b + 2 ^ 63) with ((a + 2 ^ 63) mod 2 ^ 64 + b) by lia.
  rewrite Zplus_mod_idemp_l. by replace (a + 2 ^ 63 + b) with (a + b + 2 ^ 63) by lia.
Qed.
Lemma bump_view d view r node : d = 1 ∨ d = -1 → view_at view node = i64_wrap (view_at view node) →
  view_at (bump d view r) node = i64_wrap (view_at view node + if rd_node_id r =? node then d else 0).
Proof.
  intros Hd Hv. unfold bump, view_at in *. destruct (Z.eqb_spec (rd_node_id r) node) as [->|Hn].
  - destruct (view !! node) as [x|] eqn:E; rewrite lookup_insert_eq; cbn; [done|]. by destruct Hd as [-> | ->].
  - rewrite Z.add_0_r, <- Hv. destruct (view !! rd_node_id r); by rewrite lookup_insert_ne.
Qed.
Lemma bumps_view d l view node : d = 1 ∨ d = -1 → view_at view node = i64_wrap (view_at view node) →
  view_at (fold_left (bump d) l view) node = i64_wrap (view_at view node + d * at_node node l).
Proof.
  intros Hd. revert view. induction l as [|r l IH]; intros view Hv; cbn.
  { by rewrite Z.mul_0_r, Z.add_0_r. }
  rewrite IH; rewrite (bump_view d view r node Hd Hv).
  - rewrite i64_wrap_add. f_equal. unfold at_node. cbn. destruct (rd_node_id r =? node); cbn [length]; lia.
  - symmetry. apply i64_wrap_small, i64_wrap_ok.
Qed.
Lemma rebuild_view_list l view node : view_at view node = i64_wrap (view_at view node) →
  view_at (fold_left rebuild_one l view) node = i64_wrap (view_at view node + sum_at node l).
Proof.
  revert view. induction l as [|d l IH]; intros view Hv; cbn; [by rewrite Z.add_0_r|].
  assert (view_at (rebuild_one view d) node = i64_wrap (view_at view node + delta_at node d)) as E.
  { unfold rebuild_one. rewrite bumps_view; rewrite ?bumps_view; auto.
    - rewrite i64_wrap_add. f_equal. unfold delta_at. lia.
    - symmetry. apply i64_wrap_small, i64_wrap_ok. }
  rewrite IH; rewrite E.
  - rewrite i64_wrap_add. f_equal. fold (sum_at node l). lia.
  - symmetry. apply i64_wrap_small, i64_wrap_ok.
Qed.
Lemma sum_at_perm node l l' : l ≡ₚ l' → sum_at node l = sum_at node l'.
Proof. unfold sum_at. induction 1; cbn; lia. Qed.
(** Whatever the order in which the map is visited, the view of a node is the
    sum over the groups. *)
Lemma rebuild_view_sum m node : view_at (rebuild_view m) node = i64_wrap (sum_at node (map_to_list m).*2).
Proof. unfold rebuild_view. rewrite rebuild_view_list by done. cbn. f_equal. apply sum_at_perm. by rewrite visit_perm. Qed.

(** A group's entry is one of the newest reports. *)
Definition newest (m : gmap Z GroupDelta) (reports : list ScheduleState) : Prop := ∀ g,
  match m !! g with
  | None => ∀ s, s ∈ reports → sch_group_id s ≠ g
  | Some d => (∃ s, s ∈ reports ∧ sch_group_id s = g ∧
                 d = mkGroupDelta (sch_epoch s) (sch_incoming_replicas s) (sch_outgoing_replicas s)) ∧
              ∀ s, s ∈ reports → sch_group_id s = g → sch_epoch s ≤ dl_epoch d
  end.
Lemma replace_one_newest m reports s : newest m reports → newest (replace_one m s).2 (reports ++ [s]).
Proof.
  intros Hn g. specialize (Hn g). unfold replace_one. destruct (decide (sch_group_id s = g)) as [<-|Hne].
  - destruct (m !! sch_group_id s) as [d|] eqn:E; [destruct (dl_epoch d <? sch_epoch s) eqn:El; to_prop|]; cbn [snd].
    + rewrite lookup_insert_eq. split; [exists s; set_solver|]. intros s' [Hs'| ->%list_elem_of_singleton]%elem_of_app Hg; [|done].
      cbn. destruct Hn as [_ Hn]. specialize (Hn s' Hs' Hg). lia.
    + rewrite E. destruct Hn as [(s0 & H0 & Hg0 & ->) Hn]. split; [exists s0; set_solver|].
      intros s' [Hs'| ->%list_elem_of_singleton]%elem_of_app Hg; [by apply Hn|done].
    + rewrite lookup_insert_eq. split; [exists s; set_solver|]. intros s' [Hs'| ->%list_elem_of_singleton]%elem_of_app Hg; [by destruct (Hn s')|done].
  - assert ((replace_one m s).2 !! g = m !! g) as E.
    { unfold replace_one. destruct (m !! sch_group_id s) as [d|]; [destruct (_ <? _)|]; cbn; by rewrite ?lookup_insert_ne. }
    unfold replace_one in E. rewrite E. destruct (m !! g) as [d|].
    + destruct Hn as [(s0 & H0 & Hg0 & ->) Hn]. split; [exists s0; set_solver|]. set_solver.
    + set_solver.
Qed.
Lemma replace_one_false m s m' : replace_one m s = (false, m') → m' = m.
Proof. unfold replace_one. destruct (m !! sch_group_id s) as [d|]; [destruct (_ <? _)|]; congruence. Qed.
Lemma replace_state_newest l m reports :
  newest m reports → newest (replace_state l m).2 (reports ++ l) ∧ ((replace_state l m).1 = false → (replace_state l m).2 = m).
Proof.
  revert m reports. induction l as [|s l IH]; intros m reports Hn; cbn; [by rewrite app_nil_r|].
  pose proof (replace_one_newest m reports s Hn) as H1. destruct (replace_one m s) as [u m1] eqn:E1. cbn in H1.
  destruct (IH m1 _ H1) as [H2 H3]. destruct (replace_state l m1) as [u' m2]. cbn in *. rewrite <- app_assoc in H2.
  split; [done|]. intros [-> ->]%orb_false_iff. rewrite H3 by done. by apply replace_one_false in E1.
Qed.

(** The scheduling statistics after a sequence of reports. *)
Definition reported (batches : list (list ScheduleState)) : ClusterStats :=
  fold_left (λ c b, handle_schedule_update b None c) batches ClusterStats_default.
Record pending_ok (reports : list ScheduleState) (c : ClusterStats) : Prop := {
  po_newest : newest (raw_group_delta (sched_stats c)) reports;
  po_view : ∀ node, view_at (node_view (sched_stats c)) node = i64_wrap (sum_at node (map_to_list (raw_group_delta (sched_stats c))).*2);
  po_jobs : job_node_delta c = ∅ }.
Lemma update_pending reports b c : pending_ok reports c → pending_ok (reports ++ b) (handle_schedule_update b None c).
Proof.
  intros [Hn Hv Hj]. unfold handle_schedule_update. destruct b as [|s b]; [by rewrite app_nil_r|].
  destruct (replace_state_newest (s :: b) _ _ Hn) as [H1 H2].
  destruct (replace_state (s :: b) _) as [u m] eqn:E. cbn [fst snd] in *. split; [done| |done]. cbn.
  intros node. destruct u; [apply rebuild_view_sum|]. by rewrite H2.
Qed.
(** However the reports are batched and delayed, the pending change of a node
    is the sum, over the groups, of their newest reports. *)
Lemma node_delta_newest batches node :
  newest (raw_group_delta (sched_stats (reported batches))) (concat batches) ∧
  nd_replica_count (get_node_delta (reported batches) node) =
    i64_wrap (sum_at node (map_to_list (raw_group_delta (sched_stats (reported batches)))).*2).
Proof.
  assert (pending_ok (concat batches) (reported batches)) as [Hn Hv Hj].
  { unfold reported. assert (∀ c reports, pending_ok reports c →
      pending_ok (reports ++ concat batches) (fold_left (λ c b, handle_schedule_update b None c) batches c)) as Hg.
    { induction batches as [|b l IH]; intros c reports Hc; cbn; [by rewrite app_nil_r|]. rewrite app_assoc. by apply IH, update_pending. }
    apply (Hg _ []). split; [|done..]. intros g. cbn. rewrite lookup_empty. by intros s ?%not_elem_of_nil. }
  split; [done|]. rewrite <- Hv. unfold get_node_delta. rewrite Hj, lookup_empty. cbn [nd_replica_count].
  unfold view_at. destruct (node_view _ !! node) as [d|] eqn:E; cbn; [|done].
  specialize (Hv node). unfold view_at in Hv. rewrite E in Hv. cbn in Hv. rewrite Hv. apply i64_wrap_small, i64_wrap_ok.
Qed.
End Pending.
