(* ===== verification/Allocator.v ===== *)
(** * The allocator of the root

    [server/src/root/allocator]: the three balancing policies and the
    placement of replicas and shards.  A balancing round reads the nodes once
    more than here; both reads are taken to give the same nodes. *)

From S2P Require Import Prelude Bytes F64 Api Errors Schema RootStats.
#[local] Open Scope Z_scope.

(** ** Data *)
Record TransferLeader := mkTransferLeader {
  tl_group : Z; tl_src_node : Z; tl_src_replica : Z; tl_target_node : Z; tl_target_replica : Z }.
Record ReallocateReplica := mkReallocateReplica {
  rr_group : Z; rr_source_node : Z; rr_source_replica : Z; rr_target_node : NodeDesc }.
Record ReallocateShard := mkReallocateShard { rh_shard : Z; rh_source_group : Z; rh_target_group : Z }.
Inductive GroupAction := GNoop | GAdd (n : Z) | GRemove (groups : list Z).
Inductive LeaderAction := LNoop | LShed (t : TransferLeader).
Inductive BalanceStatus := Overfull | Balanced | Underfull.
#[global] Instance BalanceStatus_eq_dec : EqDecision BalanceStatus.
Proof. solve_decision. Defined.
Record RootConfig := mkRootConfig {
  replicas_per_group : Z; enable_group_balance : bool; enable_replica_balance : bool;
  enable_shard_balance : bool; enable_leader_balance : bool;
  enable_auto_shard_split : bool; enable_auto_shard_merge : bool;
  liveness_threshold_sec : Z; heartbeat_timeout_sec : Z }.
Definition REPLICA_PER_GROUP : nat := 3.

(** ** Ranking *)
(** [slice::sort_by], a stable sort. *)
Fixpoint insert_by {A} (cmp : A → A → comparison) (x : A) (l : list A) : list A :=
  match l with
  | [] => [x]
  | y :: l' => match cmp x y with Gt => y :: insert_by cmp x l' | _ => x :: l end
  end.
Definition sort_by {A} (cmp : A → A → comparison) : list A → list A := foldr (insert_by cmp) [].
Definition is_status (s : BalanceStatus) {A} (p : A * BalanceStatus) : bool := bool_decide (p.2 = s).
Section Rank.
  Context {A : Type} (count : A → Z) (state : f64 → f64 → BalanceStatus).
Definition rank_cmp (n1 n2 : A * BalanceStatus) : comparison :=
  if is_status Overfull n2 && negb (is_status Overfull n1) then Gt
  else if is_status Underfull n2 && negb (is_status Underfull n1) then Lt
  else count n2.1 ?= count n1.1.
Definition with_status (mean : f64) (n : A) : A * BalanceStatus := (n, state (f64_of_Z (count n)) mean).
Definition rank (ns : list A) (mean : f64) : list (A * BalanceStatus) := sort_by rank_cmp (with_status mean <$> ns).
Definition mean_count (ns : list A) : f64 :=
  f64_div (f64_of_Z (u64_wrap (foldr (λ n acc, count n + acc) 0 ns))) (f64_of_Z (Z.of_nat (length ns))).
End Rank.
(** The elements in front that satisfy [f], as a loop with [break] visits them. *)
Fixpoint take_while {A} (f : A → bool) (l : list A) : list A :=
  match l with [] => [] | x :: l' => if f x then x :: take_while f l' else [] end.
Fixpoint first_some {A B} (f : A → Result (option B)) (l : list A) : Result (option B) :=
  match l with
  | [] => Ok None
  | x :: l' => let? r := f x in match r with Some b => Ok (Some b) | None => first_some f l' end
  end.

(** Half a unit around the mean, for leaders and shards. *)
Definition half : f64 := Num (QArith_base.Qmake 1 2).
Definition half_balance_state (num mean : f64) : BalanceStatus :=
  if f64_lt (f64_add mean half) num then Overfull
  else if f64_lt num (f64_sub mean half) then Underfull
  else Balanced.
(** At least two replicas, or a twentieth of the mean. *)
Definition THRESHOLD_FRACTION : f64 := round (QArith_base.Qmake 5 100).
Definition MIN_RANGE_DELTA : f64 := Num (QArith_base.Qmake 2 1).
Definition node_balance_state (num mean : f64) : BalanceStatus :=
  let delta := f64_max (f64_mul mean THRESHOLD_FRACTION) MIN_RANGE_DELTA in
  if f64_lt (f64_add mean delta) num then Overfull
  else if f64_lt num (f64_sub mean delta) then Underfull
  else Balanced.

Definition capacity (n : NodeDesc) : Result NodeCapacity := expect (nd_capacity n).
(** Every node has reported its capacity, or the allocator panics. *)
Definition capacities (ns : list NodeDesc) : Result (list (NodeDesc * NodeCapacity)) :=
  foldr (λ n acc, let? c := capacity n in let? l := acc in Ok ((n, c) :: l)) (Ok []) ns.

Section Policies.
  Context `{HashOrder} (source : SysAllocSource) (stats : ClusterStats).

(** ** [policy_shard_cnt.rs] *)
Definition current_user_groups : list GroupDesc :=
  List.filter (λ g, negb (gd_id g =? ROOT_GROUP_ID)) (snd <$> visit (as_groups source)).
Definition shard_count (g : GroupDesc) : Z := Z.of_nat (length (gd_shards g)).
Definition allocate_shard (n : nat) : list GroupDesc :=
  let groups := current_user_groups in
  match groups with
  | [] => []
  | _ => take n (sort_by (λ g1 g2, shard_count g1 ?= shard_count g2) groups)
  end.
Definition preferred_remove_shard (src_group : GroupDesc) : option ShardDesc := head (gd_shards src_group).
Fixpoint shard_target (mean : f64) (source_group : GroupDesc) (targets : list (GroupDesc * BalanceStatus)) :
    option ReallocateShard :=
  match targets with
  | [] => None
  | (target, state) :: targets' =>
      if negb (bool_decide (state = Underfull)) then None
      else if bool_decide (half_balance_state (f64_of_Z (shard_count target + 1)) mean = Overfull)
      then shard_target mean source_group targets'
      else
        s ← preferred_remove_shard source_group;
        Some (mkReallocateShard (sd_id s) (gd_id source_group) (gd_id target))
  end.
Definition shard_balance : option ReallocateShard :=
  let groups := current_user_groups in
  let mean := mean_count shard_count groups in
  let ranked := rank shard_count half_balance_state groups mean in
  head (omap (λ p, shard_target mean p.1 (rev ranked)) (take_while (is_status Overfull) ranked)).

(** ** [policy_replica_cnt.rs] *)
Definition node_replica_count (p : NodeDesc * NodeCapacity) : Z :=
  Z.max 0 (i64_wrap (i64_wrap (nc_replica_count p.2) + nd_replica_count (get_node_delta stats (nd_id p.1)))).
Definition node_alloc_score (p : NodeDesc * NodeCapacity) : f64 := f64_neg (f64_of_Z (node_replica_count p)).
(** [partial_cmp] of two scores, which are numbers. *)
Definition score_cmp (a b : f64) : comparison := if f64_lt a b then Lt else if f64_lt b a then Gt else Eq.
Definition allocate_group_replica (candidates : list NodeDesc) (existing_replica_nodes : list Z) (wanted_count : nat) :
    Result (list NodeDesc) :=
  let candidates := List.filter (λ n, negb (bool_decide (nd_id n ∈ existing_replica_nodes))) candidates in
  match candidates with
  | [n] => Ok (take wanted_count [n])
  | _ =>
      let? ns := capacities candidates in
      Ok (take wanted_count (fst <$> sort_by (λ n1 n2, score_cmp (node_alloc_score n2) (node_alloc_score n1)) ns))
  end.

Definition note_state (m : gmap Z (gset Z)) (s : ReplicaState) : gmap Z (gset Z) :=
  match m !! rs_group_id s with
  | Some g => <[rs_group_id s := {[rs_node_id s]} ∪ g]> m
  | None => m
  end.
(** The nodes of each group, by descriptor and by report. *)
Definition group_nodes : gmap Z (gset Z) :=
  fold_left note_state (replica_states source)
    ((λ g, list_to_set (rd_node_id <$> gd_replicas g)) <$> as_groups source).
Definition preferred_remove_replica (src target : NodeDesc) (groups : gmap Z (gset Z)) : option (ReplicaDesc * Z) :=
  List.find (λ p : ReplicaDesc * Z,
    if p.2 =? ROOT_GROUP_ID then false
    else match groups !! p.2 with
         | Some exist_nodes =>
             if bool_decide (size exist_nodes < REPLICA_PER_GROUP)%nat then false
             else negb (bool_decide (nd_id target ∈ exist_nodes))
         | None => false
         end) (node_replicas source (nd_id src)).
Fixpoint replica_target (mean : f64) (src : NodeDesc) (groups : gmap Z (gset Z))
    (targets : list ((NodeDesc * NodeCapacity) * BalanceStatus)) : option ReallocateReplica :=
  match targets with
  | [] => None
  | (target, state) :: targets' =>
      if negb (bool_decide (state = Underfull)) then None
      else if bool_decide (node_balance_state (f64_of_Z (u64_add (node_replica_count target) 1)) mean = Overfull)
      then replica_target mean src groups targets'
      else
        p ← preferred_remove_replica src target.1 groups;
        Some (mkReallocateReplica p.2 (rd_node_id p.1) (rd_id p.1) target.1)
  end.
Definition replica_balance (candidates : list NodeDesc) : Result (option ReallocateReplica) :=
  let? ns := capacities candidates in
  let mean := mean_count node_replica_count ns in
  let ranked := rank node_replica_count node_balance_state ns mean in
  Ok (head (omap (λ p, replica_target mean p.1.1 group_nodes (rev ranked)) (take_while (is_status Overfull) ranked))).

(** ** [policy_leader_cnt.rs] *)
Definition leader_count (p : NodeDesc * NodeCapacity) : Z := nc_leader_count p.2.
Definition others_by_node (replica : ReplicaDesc) (group : GroupDesc) : gmap Z ReplicaDesc :=
  fold_left (λ m r, <[rd_node_id r := r]> m) (List.filter (λ r, negb (rd_id r =? rd_id replica)) (gd_replicas group)) ∅.
Definition leader_target (mean : f64) (replica : ReplicaDesc) (group_id : Z) (others : gmap Z ReplicaDesc)
    (targets : list (NodeDesc * NodeCapacity)) : option TransferLeader :=
  head (omap (λ target,
    if bool_decide (half_balance_state (f64_of_Z (u64_add (leader_count target) 1)) mean = Overfull) then None
    else
      r ← others !! nd_id target.1;
      Some (mkTransferLeader group_id (rd_node_id replica) (rd_id replica) (rd_node_id r) (rd_id r))) targets).
Definition try_descrease_node_leader_count (n : NodeDesc) (ranked : list ((NodeDesc * NodeCapacity) * BalanceStatus))
    (mean : f64) : Result (option TransferLeader) :=
  first_some (λ '(replica, group_id),
    match replica_state source (rd_id replica) with
    | None => Ok None
    | Some st =>
        if negb (rs_role st =? RaftRole_i32 Leader) then Ok None
        else
          let? group := expect (as_groups source !! group_id) in
          Ok (leader_target mean replica group_id (others_by_node replica group)
                (fst <$> List.filter (is_status Underfull) (rev ranked)))
    end)
    (List.filter (λ '(r, g), negb (g =? ROOT_GROUP_ID) && (rd_role r =? ReplicaRole_i32 Voter))
       (node_replicas source (nd_id n))).
Definition leader_balance (candidates : list NodeDesc) : Result LeaderAction :=
  let? ns := capacities candidates in
  let mean := mean_count leader_count ns in
  let ranked := rank leader_count half_balance_state ns mean in
  let? r := first_some (λ p, try_descrease_node_leader_count p.1.1 ranked mean)
              (List.filter (is_status Overfull) ranked) in
  Ok (match r with Some t => LShed t | None => LNoop end).
End Policies.

(** ** [allocator/mod.rs] *)
(** The root the allocator works for: its copy of the metadata, which
    [refresh_all] loads, the statistics, the clock and the liveness. *)
Class AllocEnv (W : Type) := {
  ae_source : W → SysAllocSource;
  ae_stats : W → ClusterStats;
  ae_now : W → Z;
  ae_liveness : W → Liveness;
  ae_refresh_all : prog W Error unit;
}.
Section Allocator.
  Context `{HashOrder} {W : Type} {AE : AllocEnv W} (cfg : RootConfig).
  Abbreviation M := (prog W Error).

Definition alloc_nodes (w : W) (f : NodeFilter) : list NodeDesc := nodes (ae_now w) (ae_liveness w) (ae_source w) f.
Definition current_groups (w : W) : Z := Z.of_nat (size (as_groups (ae_source w))).
Definition desired_groups (w : W) : Result Z :=
  let? ns := capacities (alloc_nodes w FNotDecommissioned) in
  let total_cpus := fold_left (λ acc n, f64_add acc (nc_cpu_nums n.2)) ns (Num (QArith_base.Qmake 0 1)) in
  Ok (Z.max (f64_to_usize (f64_div total_cpus (f64_of_Z (replicas_per_group cfg)))) (Z.of_nat (length ns))).
Definition preferred_remove_groups (w : W) (want_remove : Z) : list Z :=
  nd_id <$> take (Z.to_nat want_remove) (alloc_nodes w FNotDecommissioned).
Definition compute_group_action : M GroupAction :=
  if negb (enable_group_balance cfg) then prog_lift (Ok GNoop)
  else
    do* ae_refresh_all in
    prog_reads (λ w,
      if Z.of_nat (length (alloc_nodes w FNotDecommissioned)) <? replicas_per_group cfg then Ok GNoop
      else
        let? desired := desired_groups w in
        Ok (match current_groups w ?= desired with
            | Lt => GAdd (desired - current_groups w)
            | Gt => GRemove (preferred_remove_groups w (current_groups w - desired))
            | Eq => GNoop
            end)).
Definition compute_replica_action : M (list ReallocateReplica) :=
  if negb (enable_replica_balance cfg) then prog_lift (Ok [])
  else prog_reads (λ w,
    let? r := replica_balance (ae_source w) (ae_stats w) (alloc_nodes w FSchedulable) in
    Ok (match r with Some a => [a] | None => [] end)).
Definition compute_shard_action : M (list ReallocateShard) :=
  if negb (enable_shard_balance cfg) then prog_lift (Ok [])
  else prog_reads (λ w,
    if replicas_per_group cfg <=? Z.of_nat (length (alloc_nodes w FAll))
    then Ok (match shard_balance (ae_source w) with Some a => [a] | None => [] end)
    else Ok []).
Definition alloc_group_replica (existing_replica_nodes : list Z) (wanted_count : nat) : M (list NodeDesc) :=
  do* ae_refresh_all in
  prog_reads (λ w,
    allocate_group_replica (ae_stats w) (alloc_nodes w FSchedulable) existing_replica_nodes wanted_count).
Definition place_group_for_shard (n : nat) : M (list GroupDesc) :=
  do* ae_refresh_all in prog_reads (λ w, Ok (allocate_shard (ae_source w) n)).
Definition compute_leader_action : M (list LeaderAction) :=
  if negb (enable_leader_balance cfg) then prog_lift (Ok [])
  else prog_reads (λ w,
    let? a := leader_balance (ae_source w) (alloc_nodes w FSchedulable) in
    Ok (match a with LNoop => [] | LShed _ => [a] end)).
End Allocator.
