(* ===== verification/AllocatorProps.v ===== *)
(** * Balancing makes progress and ends *)

From S2P Require Import Prelude Bytes F64 Api Errors Schema RocksDb Keys Engine Fsm RootStats Allocator.
From Stdlib Require Import QArith Lqa.
#[local] Open Scope Z_scope.

(** ** Sorting *)
Lemma insert_by_perm {A} (cmp : A → A → comparison) x l : insert_by cmp x l ≡ₚ x :: l.
Proof. induction l as [|y l IH]; cbn; [done|]. destruct (cmp x y); [done..|]. rewrite IH. constructor. Qed.
Lemma sort_by_perm {A} (cmp : A → A → comparison) l : sort_by cmp l ≡ₚ l.
Proof. induction l as [|x l IH]; cbn; [done|]. by rewrite insert_by_perm, IH. Qed.
(** Where the comparison agrees with a descending key, the result descends. *)
Lemma sort_by_key {A} (cmp : A → A → comparison) (key : A → Z) l :
  (∀ x y, x ∈ l → y ∈ l → cmp x y = Gt ↔ key x < key y) →
  StronglySorted (λ x y, key y ≤ key x) (sort_by cmp l).
Proof.
  induction l as [|x l IH]; intros Hk; cbn; [constructor|].
  assert (StronglySorted (λ x y, key y ≤ key x) (sort_by cmp l)) as Hs.
  { apply IH. intros y z ??. apply Hk; by right. }
  assert (∀ y, y ∈ sort_by cmp l → cmp x y = Gt ↔ key x < key y) as Hx.
  { intros y Hy. rewrite (sort_by_perm cmp l) in Hy. apply Hk; [by left|by right]. }
  clear Hk IH. induction Hs as [|y s Hs IH Hf]; cbn; [repeat constructor|].
  pose proof (Hx y ltac:(by left)) as Hy. destruct (cmp x y) eqn:E.
  1,2: assert (key y ≤ key x) by (apply Z.nlt_ge; intros ?%Hy; done); constructor; [by constructor|];
    constructor; [done|]; eapply Forall_impl; [done|]; cbn; intros; lia.
  constructor; [apply IH; intros; apply Hx; by right|]. rewrite (insert_by_perm cmp x s). constructor; [|done].
  apply Z.lt_le_incl. by apply Hy.
Qed.

(** ** A count against the thresholds *)
Definition small (z : Z) : Prop := 0 ≤ z < 2 ^ 53 - 1.
Lemma half_state z mean q : small z → mean = Num q →
  match half_balance_state (f64_of_Z z) mean with
  | Overfull => (q + (1 # 2) < inject_Z z)%Q
  | Underfull => (inject_Z z < q - (1 # 2))%Q
  | Balanced => True
  end.
Proof.
  intros Hz ->. unfold half_balance_state. destruct (f64_of_Z_exact z ltac:(unfold small in Hz; lia)) as (r & -> & Hr).
  unfold f64_sub, half. cbn [f64_neg f64_add].
  destruct (f64_lt (round _) (Num r)) eqn:E1; [eapply above_round in E1; [exact E1|done|unfold small in Hz; lia]|].
  destruct (f64_lt (Num r) (round _)) eqn:E2; [|done]. apply (below_round z) in E2; [exact E2|done|unfold small in Hz; lia].
Qed.

(** Both policies compare a count with two thresholds. *)
Definition by_thresholds (hi lo num : f64) : BalanceStatus :=
  if f64_lt hi num then Overfull else if f64_lt num lo then Underfull else Balanced.
Lemma f64_lt_small hi a b : small a → small b → f64_lt hi (f64_of_Z a) = true → f64_lt hi (f64_of_Z b) = false → b < a.
Proof.
  unfold small. intros Ha Hb. destruct (f64_of_Z_exact a) as (p & -> & Hp); [lia|]. destruct (f64_of_Z_exact b) as (q & -> & Hq); [lia|].
  destruct hi as [|s|h]; cbn; [done|by destruct s|]. intros H1%negb_true_iff H2%negb_false_iff%Qle_bool_iff.
  apply not_true_iff_false in H1. rewrite Qle_bool_iff in H1. apply Qnot_le_lt in H1.
  rewrite Zlt_Qlt. lra.
Qed.
Lemma f64_small_lt lo a b : small a → small b → f64_lt (f64_of_Z a) lo = false → f64_lt (f64_of_Z b) lo = true → b < a.
Proof.
  unfold small. intros Ha Hb. destruct (f64_of_Z_exact a) as (p & -> & Hp); [lia|]. destruct (f64_of_Z_exact b) as (q & -> & Hq); [lia|].
  destruct lo as [|s|h]; cbn; [done|by destruct s|]. intros H2%negb_false_iff%Qle_bool_iff H1%negb_true_iff.
  apply not_true_iff_false in H1. rewrite Qle_bool_iff in H1. apply Qnot_le_lt in H1.
  rewrite Zlt_Qlt. lra.
Qed.
Lemma thresholds_order hi lo a b :
  small a → small b →
  let s z := by_thresholds hi lo (f64_of_Z z) in
  (s a = Overfull → s b ≠ Overfull → b < a) ∧ (s a ≠ Underfull → s b = Underfull → b < a).
Proof.
  intros Ha Hb s. unfold s, by_thresholds.
  destruct (f64_lt hi (f64_of_Z a)) eqn:A1, (f64_lt hi (f64_of_Z b)) eqn:B1; split; try done;
    try (intros _ _; by eapply f64_lt_small); destruct (f64_lt (f64_of_Z a) lo) eqn:A2; try done;
    destruct (f64_lt (f64_of_Z b) lo) eqn:B2; try done. intros _ _. by eapply f64_small_lt.
Qed.

(** What the policies need of the thresholds: an overfull and an underfull
    element are far apart, and one more does not make the latter overfull. *)
Class Thresholds (state : f64 → f64 → BalanceStatus) (gap : Z) := {
  th_bounds : ∀ mean, ∃ hi lo, ∀ num, state num mean = by_thresholds hi lo num;
  th_gap : ∀ mean a b, small a → small b →
    state (f64_of_Z a) mean = Overfull → state (f64_of_Z b) mean = Underfull →
    b + gap ≤ a ∧ state (f64_of_Z (b + 1)) mean ≠ Overfull;
}.
Lemma half_extreme s z : half_balance_state (f64_of_Z z) (Inf s) ≠ (if s then Underfull else Overfull).
Proof.
  unfold half_balance_state. cbn. destruct s, (f64_of_Z z) as [|[]|q]; done.
Qed.
#[global] Instance half_thresholds : Thresholds half_balance_state 2.
Proof.
  split; [intros mean; by exists (f64_add mean half), (f64_sub mean half)|].
  intros mean a b Ha Hb Ea Eb. destruct mean as [|s|q].
  - unfold half_balance_state in Ea. cbn in Ea. by destruct (f64_of_Z a).
  - destruct s; [by apply half_extreme in Eb|by apply half_extreme in Ea].
  - pose proof (half_state a _ q Ha eq_refl) as Qa. rewrite Ea in Qa. pose proof (half_state b _ q Hb eq_refl) as Qb. rewrite Eb in Qb.
    split.
    + assert (b + 1 < a); [|lia]. rewrite Zlt_Qlt, inject_Z_plus. change (inject_Z 1) with 1%Q. lra.
    + intros E. pose proof (half_state (b + 1) (Num q) q) as Qc. rewrite E, inject_Z_plus in Qc. change (inject_Z 1) with 1%Q in Qc.
      assert (b < a) by (rewrite Zlt_Qlt; lra). unfold small in *. lapply Qc; [|lia]. intros Hc. specialize (Hc eq_refl). lra.
Qed.

Lemma delta_at_least_two mean :
  match f64_max (f64_mul mean THRESHOLD_FRACTION) MIN_RANGE_DELTA with
  | NaN | Inf true => False
  | Inf false => True
  | Num d => (2 <= d)%Q
  end.
Proof.
  unfold f64_max, MIN_RANGE_DELTA. destruct (f64_mul mean THRESHOLD_FRACTION) as [|[]|d]; cbn; try done; try lra.
  destruct (Qle_bool _ d) eqn:E; cbn; [by apply Qle_bool_iff in E|lra].
Qed.
#[global] Instance node_thresholds : Thresholds node_balance_state 5.
Proof.
  split.
  { intros mean. by eexists (f64_add mean _), (f64_sub mean _). }
  intros mean a b Ha Hb. unfold node_balance_state. pose proof (delta_at_least_two mean) as Hd.
  destruct (f64_max _ _) as [|[]|d]; try done.
  { destruct (f64_of_Z_exact a) as (p & -> & _); [unfold small in *; lia|]. by destruct mean as [|[]|q]. }
  destruct mean as [|s|q].
  { cbn. by destruct (f64_of_Z a). }
  { unfold small in *. destruct (f64_of_Z_exact a) as (p & -> & _); [lia|]. destruct (f64_of_Z_exact b) as (r & -> & _); [lia|].
    by destruct s. }
  destruct (f64_of_Z_exact a) as (p & -> & Hp); [unfold small in *; lia|].
  destruct (f64_of_Z_exact b) as (r & -> & Hr); [unfold small in *; lia|].
  unfold f64_sub. cbn [f64_neg f64_add].
  destruct (f64_lt (round (q + d)) (Num p)) eqn:E1; [|by destruct (f64_lt (Num p) _)]. intros _.
  destruct (f64_lt (round (q + d)) (Num r)) eqn:E2; [done|].
  destruct (f64_lt (Num r) _) eqn:E3; [|done]. intros _.
  apply (above_round a) in E1; [|done|unfold small in *; lia]. apply (below_round b) in E3; [|done|unfold small in *; lia].
  split.
  - assert (b + 4 < a); [|lia]. rewrite Zlt_Qlt, inject_Z_plus. change (inject_Z 4) with 4%Q. lra.
  - assert (b < a) by (rewrite Zlt_Qlt; lra). unfold small in *.
    destruct (f64_of_Z_exact (b + 1)) as (u & -> & Hu); [lia|].
    destruct (f64_lt (round (q + d)) (Num u)) eqn:E4; [|by destruct (f64_lt (Num u) _)].
    apply (above_round (b + 1)) in E4; [|done|lia]. rewrite inject_Z_plus in E4. change (inject_Z 1) with 1%Q in E4. lra.
Qed.

(** ** The ranking puts the overfull first and the underfull last *)
Section Ranked.
  Context {A : Type} (count : A → Z) (state : f64 → f64 → BalanceStatus) (gap : Z) {T : Thresholds state gap}.
  Context (ns : list A) (mean : f64) (ns_small : ∀ n, n ∈ ns → small (count n)).
  Abbreviation ranked := (rank count state ns mean).
  Abbreviation status n := (state (f64_of_Z (count n)) mean).

Lemma rank_elem p : p ∈ ranked ↔ p.1 ∈ ns ∧ p.2 = status p.1.
Proof.
  unfold rank. rewrite sort_by_perm, list_elem_of_fmap. split.
  - by intros (n & -> & ?).
  - destruct p as [n s]. cbn. intros [? ->]. by exists n.
Qed.
Lemma status_order a b :
  a ∈ ns → b ∈ ns →
  (status a = Overfull → status b ≠ Overfull → count b < count a) ∧
  (status a ≠ Underfull → status b = Underfull → count b < count a).
Proof.
  intros Ha Hb. destruct (th_bounds (Thresholds := T) mean) as (hi & lo & Hs). rewrite !Hs.
  apply thresholds_order; by apply ns_small.
Qed.
Lemma rank_sorted : StronglySorted (λ p q, count q.1 ≤ count p.1) ranked.
Proof.
  apply (sort_by_key _ (λ p, count p.1)). intros p q (a & -> & Ha)%list_elem_of_fmap (b & -> & Hb)%list_elem_of_fmap.
  destruct (status_order a b Ha Hb) as [H1 H2], (status_order b a Hb Ha) as [H3 H4].
  unfold rank_cmp, is_status, with_status. cbn [fst snd].
  pose proof (Z.compare_gt_iff (count b) (count a)) as Hc.
  destruct (bool_decide_reflect (status b = Overfull)), (bool_decide_reflect (status a = Overfull)); cbn [andb negb];
    try (destruct (bool_decide_reflect (status b = Underfull)), (bool_decide_reflect (status a = Underfull)); cbn [andb negb]);
    try congruence; naive_solver lia.
Qed.
Lemma rank_head a : a ∈ ns → status a = Overfull → ∃ p l, ranked = (p, Overfull) :: l.
Proof.
  intros Ha Hs. pose proof rank_sorted as Hsort. assert ((a, Overfull) ∈ ranked) as Hin by (by apply rank_elem).
  destruct ranked as [|[p s] l] eqn:E; [by apply not_elem_of_nil in Hin|].
  assert ((p, s) ∈ ranked) as [Hp Hps]%rank_elem by (rewrite E; by left). cbn in Hp, Hps. subst s.
  destruct (decide (status p = Overfull)) as [->|Hn]; [by eauto|]. exfalso.
  apply elem_of_cons in Hin as [[= -> ]|Hin]; [congruence|]. apply StronglySorted_inv in Hsort as [_ Hf].
  rewrite Forall_forall in Hf. specialize (Hf _ Hin). cbn in Hf.
  destruct (status_order a p Ha Hp) as [Ho _]. specialize (Ho Hs Hn). lia.
Qed.
Lemma last_inv {B} (l : list B) : l = [] ∨ ∃ l' x, l = l' ++ [x].
Proof. induction l as [|x l _] using rev_ind; eauto. Qed.
Lemma rank_last b : b ∈ ns → status b = Underfull → ∃ p l, rev ranked = (p, Underfull) :: l.
Proof.
  intros Hb Hs. pose proof rank_sorted as Hsort. assert ((b, Underfull) ∈ ranked) as Hin by (by apply rank_elem).
  destruct (last_inv ranked) as [E|(l & [p s] & E)]; rewrite E in Hin, Hsort |- *; [by apply not_elem_of_nil in Hin|].
  rewrite rev_app_distr. cbn. assert ((p, s) ∈ ranked) as [Hp Hps]%rank_elem by (rewrite E; set_solver). cbn in Hp, Hps. subst s.
  destruct (decide (status p = Underfull)) as [->|Hn]; [by eauto|]. exfalso.
  apply elem_of_app in Hin as [Hin|[= -> ]%list_elem_of_singleton]; [|congruence].
  apply StronglySorted_app in Hsort as [Hf _]. specialize (Hf _ _ Hin ltac:(left)). cbn in Hf.
  destruct (status_order p b Hp Hb) as [_ Ho]. specialize (Ho Hn Hs). lia.
Qed.
Lemma take_over_elem p : p ∈ take_while (is_status Overfull) ranked → p.1 ∈ ns ∧ status p.1 = Overfull.
Proof.
  intros Hp. assert (p ∈ ranked ∧ p.2 = Overfull) as [[Hn Hs]%rank_elem Ho]; [|split; congruence].
  induction ranked as [|q l IH]; cbn in Hp; [by apply not_elem_of_nil in Hp|].
  destruct (is_status Overfull q) eqn:E; [|by apply not_elem_of_nil in Hp].
  apply elem_of_cons in Hp as [->|Hp]; [split; [left|by apply bool_decide_eq_true in E]|].
  destruct (IH Hp). split; [by right|done].
Qed.
End Ranked.

(** ** The shard policy *)
Section ShardPolicy.
  Context `{HashOrder}.
Definition group_status (source : SysAllocSource) (g : GroupDesc) : BalanceStatus :=
  half_balance_state (f64_of_Z (shard_count g)) (mean_count shard_count (current_user_groups source)).
Lemma shard_target_spec mean src targets a :
  shard_target mean src targets = Some a →
  ∃ target s rest, (target, Underfull) ∈ targets ∧ gd_shards src = s :: rest ∧
    a = mkReallocateShard (sd_id s) (gd_id src) (gd_id target).
Proof.
  induction targets as [|[t st] l IH]; cbn; [done|]. case_bool_decide as Es; cbn; [|done]. subst st.
  case_bool_decide; [intros (t' & s & rest & Ht & ?)%IH; exists t', s, rest; split; [by right|done]|].
  unfold preferred_remove_shard. destruct (gd_shards src) as [|s rest]; cbn; [done|]. intros [= <-]. exists t, s, rest.
  split; [left|done].
Qed.
Lemma head_omap {A B} (f : A → option B) l b : head (omap f l) = Some b → ∃ a, a ∈ l ∧ f a = Some b.
Proof.
  induction l as [|x l IH]; cbn; [done|]. destruct (f x) as [b'|] eqn:E; cbn.
  - intros [= ->]. exists x. split; [left|done].
  - intros (a & Ha & ?)%IH. exists a. split; [by right|done].
Qed.

Lemma shard_balance_spec source :
  (∀ g, g ∈ current_user_groups source → small (shard_count g)) →
  match shard_balance source with
  | Some a => ∃ src tgt s rest,
      src ∈ current_user_groups source ∧ tgt ∈ current_user_groups source ∧
      group_status source src = Overfull ∧ group_status source tgt = Underfull ∧
      gd_shards src = s :: rest ∧ a = mkReallocateShard (sd_id s) (gd_id src) (gd_id tgt) ∧
      shard_count tgt + 2 ≤ shard_count src
  | None =>
      (∀ g, g ∈ current_user_groups source → group_status source g ≠ Overfull) ∨
      (∀ g, g ∈ current_user_groups source → group_status source g ≠ Underfull)
  end.
Proof.
  intros Hsm. unfold shard_balance. set (gs := current_user_groups source) in *. set (mean := mean_count shard_count gs).
  destruct (head _) as [a|] eqn:E.
  - apply head_omap in E as (p & Hp & Ha).
    apply (take_over_elem shard_count half_balance_state) in Hp as [Hin Ho].
    apply shard_target_spec in Ha as (t & s & rest & Ht & Hs & ->).
    apply list_elem_of_In, in_rev, list_elem_of_In in Ht.
    apply (rank_elem shard_count half_balance_state) in Ht as [Htin Hu]. cbn in Htin, Hu.
    exists p.1, t, s, rest. split_and!; try done. by eapply (th_gap (state := half_balance_state)); eauto.
  - destruct (decide (Exists (λ g, group_status source g = Overfull) gs)) as [(a & Ha & Ho)%Exists_exists|Hn];
      [|left; intros g Hg Hs; apply Hn, Exists_exists; eauto].
    destruct (decide (Exists (λ g, group_status source g = Underfull) gs)) as [(b & Hb & Hu)%Exists_exists|Hn];
      [|right; intros g Hg Hs; apply Hn, Exists_exists; eauto]. exfalso.
    destruct (rank_head shard_count half_balance_state 2 gs mean Hsm a Ha Ho) as (p & l & El).
    destruct (rank_last shard_count half_balance_state 2 gs mean Hsm b Hb Hu) as (q & l' & Er).
    assert ((p, Overfull) ∈ rank shard_count half_balance_state gs mean) as [Hp Hps]%rank_elem by (rewrite El; by left).
    assert ((q, Underfull) ∈ rank shard_count half_balance_state gs mean) as [Hq Hqs]%rank_elem.
    { apply list_elem_of_In, in_rev, list_elem_of_In. rewrite Er. by left. }
    cbn in Hp, Hps, Hq, Hqs.
    destruct (th_gap (state := half_balance_state) mean (shard_count p) (shard_count q)) as [Hg Hno]; [by apply Hsm..|done|done|].
    revert E. rewrite El. cbn [take_while]. unfold is_status at 1. cbn [snd]. rewrite bool_decide_eq_true_2 by done.
    cbn [omap list_omap fst]. rewrite <- El, Er. cbn [shard_target negb]. rewrite (bool_decide_eq_true_2 (Underfull = Underfull)) by done. cbn [negb].
    rewrite bool_decide_eq_false_2 by done. unfold preferred_remove_shard.
    unfold shard_count in Hg. destruct (gd_shards p); [cbn in Hg; lia|done].
Qed.

(** *** A balancing round after the other *)
Definition move_shard (a : ReallocateShard) (gs : gmap Z GroupDesc) : gmap Z GroupDesc :=
  match gs !! rh_source_group a, gs !! rh_target_group a with
  | Some src, Some tgt =>
      match shard src (rh_shard a) with
      | Some s => <[rh_target_group a := push_shard tgt s]> (<[rh_source_group a := drop_shard src (rh_shard a)]> gs)
      | None => gs
      end
  | _, _ => gs
  end.
Definition groups_only (gs : gmap Z GroupDesc) : SysAllocSource := mkSysAllocSource [] gs ∅ ∅.
Fixpoint rebalance (fuel : nat) (gs : gmap Z GroupDesc) : option (gmap Z GroupDesc) :=
  match fuel with
  | O => None
  | S fuel' =>
      match shard_balance (groups_only gs) with
      | None => Some gs
      | Some a => rebalance fuel' (move_shard a gs)
      end
  end.

Definition all_shards (gs : gmap Z GroupDesc) : list ShardDesc := map_to_list gs ≫= λ p, gd_shards p.2.
Definition squares (gs : gmap Z GroupDesc) : Z := map_fold (λ _ g acc, shard_count g * shard_count g + acc) 0 gs.
Record shards_placed (gs : gmap Z GroupDesc) : Prop := {
  sp_ids : ∀ id g, gs !! id = Some g → gd_id g = id;
  sp_nodup : NoDup (sd_id <$> all_shards gs);
  sp_small : small (Z.of_nat (length (all_shards gs))) }.

Lemma user_group_lookup gs g :
  (∀ id g, gs !! id = Some g → gd_id g = id) → g ∈ current_user_groups (groups_only gs) → gs !! gd_id g = Some g.
Proof.
  intros Hid. unfold current_user_groups. intros Hin%list_elem_of_In. apply filter_In in Hin as [Hin%list_elem_of_In _].
  apply list_elem_of_fmap in Hin as ([id g'] & -> & Hin). rewrite visit_perm in Hin. apply elem_of_map_to_list in Hin. cbn in *.
  by rewrite (Hid _ _ Hin).
Qed.
Lemma all_shards_insert id g gs : gs !! id = None → all_shards (<[id := g]> gs) ≡ₚ gd_shards g ++ all_shards gs.
Proof. intros Hn. unfold all_shards. by rewrite map_to_list_insert. Qed.
Lemma squares_insert id g gs : gs !! id = None → squares (<[id := g]> gs) = shard_count g * shard_count g + squares gs.
Proof. intros Hn. unfold squares. rewrite map_fold_insert_L; [done| |done]. intros; lia. Qed.
Lemma squares_nonneg gs : 0 ≤ squares gs.
Proof.
  induction gs as [|id g gs Hn IH] using map_ind; [done|].
  rewrite squares_insert by done. nia.
Qed.
(** Two groups of a map, taken apart. *)
Lemma two_groups (gs : gmap Z GroupDesc) i j a b :
  i ≠ j → gs !! i = Some a → gs !! j = Some b →
  ∃ rest, rest !! i = None ∧ rest !! j = None ∧ gs = <[j := b]> (<[i := a]> rest) ∧
    ∀ a' b', <[j := b']> (<[i := a']> gs) = <[j := b']> (<[i := a']> rest).
Proof.
  intros Hij Ha Hb. exists (delete j (delete i gs)). split_and!.
  - by rewrite lookup_delete_ne, lookup_delete_eq by done.
  - by rewrite lookup_delete_eq.
  - apply map_eq. intros k. destruct (decide (k = j)) as [->|]; [by rewrite lookup_insert_eq|]. rewrite lookup_insert_ne by done.
    destruct (decide (k = i)) as [->|]; [by rewrite lookup_insert_eq|]. by rewrite lookup_insert_ne, !lookup_delete_ne by done.
  - intros a' b'. apply map_eq. intros k. destruct (decide (k = j)) as [->|]; [by rewrite !lookup_insert_eq|].
    rewrite !(lookup_insert_ne _ j) by done. destruct (decide (k = i)) as [->|]; [by rewrite !lookup_insert_eq|].
    by rewrite !lookup_insert_ne, !lookup_delete_ne by done.
Qed.
Lemma drop_first g s rest : gd_shards g = s :: rest → NoDup (sd_id <$> gd_shards g) → gd_shards (drop_shard g (sd_id s)) = rest.
Proof.
  intros Hs Hn. cbn. rewrite Hs in *. cbn in *. rewrite Z.eqb_refl. cbn. apply NoDup_cons in Hn as [Hni _].
  clear Hs. induction rest as [|t rest IH]; [done|]. cbn in *. rewrite (proj2 (Z.eqb_neq _ _)) by set_solver. cbn.
  f_equal. apply IH. set_solver.
Qed.
Lemma move_shard_placed gs i j src tgt s rest :
  shards_placed gs → i ≠ j → gs !! i = Some src → gs !! j = Some tgt → gd_shards src = s :: rest →
  shard_count tgt + 2 ≤ shard_count src →
  shards_placed (move_shard (mkReallocateShard (sd_id s) i j) gs) ∧
  all_shards (move_shard (mkReallocateShard (sd_id s) i j) gs) ≡ₚ all_shards gs ∧
  squares (move_shard (mkReallocateShard (sd_id s) i j) gs) < squares gs.
Proof.
  intros [Hid Hnd Hsm] Hij Hi Hj Hs Hc. unfold move_shard. cbn [rh_source_group rh_target_group rh_shard]. rewrite Hi, Hj.
  assert (shard src (sd_id s) = Some s) as ->. { unfold shard. rewrite Hs. cbn. by rewrite Z.eqb_refl. }
  destruct (two_groups gs i j src tgt Hij Hi Hj) as (m & Hmi & Hmj & Hgs & ->).
  assert ((<[i := src]> m) !! j = None) as Hmj' by (by rewrite lookup_insert_ne).
  assert (all_shards gs ≡ₚ gd_shards tgt ++ gd_shards src ++ all_shards m) as Hall.
  { by rewrite Hgs, !all_shards_insert by done. }
  assert (gd_shards (drop_shard src (sd_id s)) = rest) as Hdrop.
  { apply drop_first; [done|]. rewrite Hall, !fmap_app in Hnd. apply NoDup_app in Hnd as (_ & _ & Hnd). by apply NoDup_app in Hnd as (? & _). }
  assert (all_shards (<[j := push_shard tgt s]> (<[i := drop_shard src (sd_id s)]> m)) ≡ₚ all_shards gs) as Hperm.
  { rewrite !all_shards_insert by (by rewrite ?lookup_insert_ne). rewrite Hall, Hdrop, Hs. cbn. by rewrite <- app_assoc. }
  split; [|split; [done|]].
  - split; [|by rewrite Hperm|by rewrite Hperm].
    intros id g. rewrite lookup_insert_Some. intros [[<- <-]|[? Hl]]; [by apply (Hid j) in Hj|].
    apply lookup_insert_Some in Hl as [[<- <-]|[? Hl]]; [by apply (Hid i) in Hi|]. apply Hid. rewrite Hgs. by rewrite !lookup_insert_ne.
  - rewrite Hgs. rewrite !squares_insert by (by rewrite ?lookup_insert_ne).
    revert Hc. unfold shard_count. rewrite Hdrop, Hs. cbn. rewrite length_app. cbn. nia.
Qed.

Lemma count_small gs g : shards_placed gs → g ∈ current_user_groups (groups_only gs) → small (shard_count g).
Proof.
  intros [Hid _ Hsm] Hg%user_group_lookup; [|done]. unfold shard_count, small in *. split; [lia|].
  assert (length (gd_shards g) ≤ length (all_shards gs))%nat; [|lia].
  rewrite <- (insert_delete_id gs _ g Hg), all_shards_insert, length_app by apply lookup_delete_eq. lia.
Qed.
Lemma rebalance_ends fuel gs :
  shards_placed gs → squares gs < Z.of_nat fuel →
  ∃ gs', rebalance fuel gs = Some gs' ∧ shards_placed gs' ∧ all_shards gs' ≡ₚ all_shards gs ∧ shard_balance (groups_only gs') = None.
Proof.
  revert gs. induction fuel as [|fuel IH]; intros gs Hp Hf; [pose proof (squares_nonneg gs); lia|]. cbn.
  pose proof (shard_balance_spec (groups_only gs) (λ g, count_small gs g Hp)) as Hspec.
  destruct (shard_balance (groups_only gs)) as [a|] eqn:E; [|by eauto].
  destruct Hspec as (src & tgt & s & rest & Hsrc & Htgt & Ho & Hu & Hs & -> & Hc).
  apply user_group_lookup in Hsrc, Htgt; [|apply Hp..].
  assert (gd_id src ≠ gd_id tgt) as Hne. { intros Heq. rewrite Heq in Hsrc. rewrite Hsrc in Htgt. simplify_eq. lia. }
  destruct (move_shard_placed gs _ _ src tgt s rest Hp Hne Hsrc Htgt Hs Hc) as (Hp' & Hall & Hlt).
  destruct (IH _ Hp') as (gs' & Hr & Hp'' & Hall' & Hend); [lia|]. exists gs'. split_and!; try done. by rewrite Hall'.
Qed.

(** C31: Moving shards as the shard-count policy says always comes to an end:
    each round narrows the gap of two groups, so that after at most as many
    rounds as the sum of the squared shard counts no action is left; no shard
    is lost or doubled on the way; and at the end no group is overfull or no
    group is underfull, in the floating-point arithmetic of the policy. *)
Theorem shard_balance_converges fuel gs :
  shards_placed gs → squares gs < Z.of_nat fuel →
  ∃ gs', rebalance fuel gs = Some gs' ∧ all_shards gs' ≡ₚ all_shards gs ∧
    ((∀ g, g ∈ current_user_groups (groups_only gs') → group_status (groups_only gs') g ≠ Overfull) ∨
     (∀ g, g ∈ current_user_groups (groups_only gs') → group_status (groups_only gs') g ≠ Underfull)).
Proof.
  intros Hp Hf. destruct (rebalance_ends fuel gs Hp Hf) as (gs' & Hr & Hp' & Hall & Hend). exists gs'. split_and!; [done..|].
  pose proof (shard_balance_spec (groups_only gs') (λ g, count_small gs' g Hp')) as Hs. by rewrite Hend in Hs.
Qed.
End ShardPolicy.

(** ** The copy of the metadata *)
Lemma push_replica_elem gid m r x n :
  x ∈ default [] (push_replica gid m r !! n) ↔ x ∈ default [] (m !! n) ∨ (x = (r, gid) ∧ rd_node_id r = n).
Proof.
  unfold push_replica. destruct (m !! rd_node_id r) as [l|] eqn:E; destruct (decide (rd_node_id r = n)) as [<-|Hn].
  - rewrite lookup_insert_eq, E. cbn. set_solver.
  - rewrite lookup_insert_ne by done. naive_solver.
  - rewrite lookup_insert_eq, E. cbn. set_solver.
  - rewrite lookup_insert_ne by done. naive_solver.
Qed.
Lemma index_group_elem g m x n :
  x ∈ default [] (index_group m g !! n) ↔
  x ∈ default [] (m !! n) ∨ ∃ r, r ∈ gd_replicas g ∧ x = (r, gd_id g) ∧ rd_node_id r = n.
Proof.
  unfold index_group. revert m. induction (gd_replicas g) as [|r l IH]; intros m; cbn; [set_solver|].
  rewrite IH, push_replica_elem. set_solver.
Qed.
Lemma node_replicas_spec gs s n r gid :
  (r, gid) ∈ node_replicas (set_groups gs s) n ↔
  ∃ g, g ∈ gs ∧ gd_id g = gid ∧ r ∈ gd_replicas g ∧ rd_node_id r = n.
Proof.
  unfold node_replicas, set_groups. cbn [as_node_replicas].
  assert (∀ m, (r, gid) ∈ default [] (fold_left index_group gs m !! n) ↔
    (r, gid) ∈ default [] (m !! n) ∨ ∃ g, g ∈ gs ∧ gd_id g = gid ∧ r ∈ gd_replicas g ∧ rd_node_id r = n) as Hm.
  { induction gs as [|g gs IH]; intros m; cbn; [set_solver|]. rewrite IH, index_group_elem. set_solver. }
  rewrite Hm, lookup_empty. cbn. set_solver.
Qed.
Lemma groups_lookup gs s g : NoDup (gd_id <$> gs) → g ∈ gs → as_groups (set_groups gs s) !! gd_id g = Some g.
Proof.
  unfold set_groups. cbn [as_groups]. intros Hn Hg.
  assert (∀ m : gmap Z GroupDesc, fold_left (λ m g, <[gd_id g := g]> m) gs m !! gd_id g = Some g) as Hm; [|done].
  assert (∀ l (m : gmap Z GroupDesc), gd_id g ∉ (gd_id <$> l) → fold_left (λ m g, <[gd_id g := g]> m) l m !! gd_id g = m !! gd_id g) as Hout.
  { induction l as [|x l IH]; intros m Hx; cbn; [done|]. rewrite fmap_cons in Hx. rewrite IH by set_solver.
    apply lookup_insert_ne. set_solver. }
  induction gs as [|x gs IH]; intros m; [by apply not_elem_of_nil in Hg|]. cbn. rewrite fmap_cons in Hn. apply NoDup_cons in Hn as [Hx Hn].
  apply elem_of_cons in Hg as [->|Hg]; [|by apply IH]. rewrite Hout by done. apply lookup_insert_eq.
Qed.

(** ** The replica policy *)
Section ReplicaPolicy.
  Context `{HashOrder} (stats : ClusterStats).
Lemma note_states_spec l (m : gmap Z (gset Z)) g ns :
  fold_left note_state l m !! g = Some ns →
  ∃ ns0, m !! g = Some ns0 ∧ ns0 ⊆ ns ∧ ∀ st, st ∈ l → rs_group_id st = g → rs_node_id st ∈ ns.
Proof.
  revert m. induction l as [|st l IH]; intros m; cbn; [intros Hm; exists ns; set_solver|].
  intros (ns1 & H1 & Hsub & Hst)%IH. unfold note_state in H1.
  destruct (m !! rs_group_id st) as [n0|] eqn:E.
  - destruct (decide (rs_group_id st = g)) as [<-|Hne].
    + rewrite lookup_insert_eq in H1. injection H1 as <-. exists n0. set_solver.
    + rewrite lookup_insert_ne in H1 by done. exists ns1. set_solver.
  - exists ns1. split_and!; [done..|]. intros st' [->|?]%elem_of_cons Hg; [|by auto]. congruence.
Qed.
Lemma capacities_elem ns l : capacities ns = Ok l → fst <$> l = ns.
Proof.
  revert l. induction ns as [|n ns IH]; intros l; cbn; [by intros [= <-]|].
  intros (c & _ & (l' & E & [= <-])%result_bind_ok)%result_bind_ok. cbn. f_equal. by apply IH.
Qed.
Lemma capacities_ok ns l : capacities ns = Ok l → ∀ p, p ∈ l → nd_capacity p.1 = Some p.2.
Proof.
  revert l. induction ns as [|n ns IH]; intros l; cbn; [intros [= <-]; by intros p ?%not_elem_of_nil|].
  intros (c & Hc & (l' & E & [= <-])%result_bind_ok)%result_bind_ok. intros p [->|Hp]%elem_of_cons; [|by eapply IH].
  unfold capacity in Hc. cbn. destruct (nd_capacity n); by simplify_res.
Qed.
Lemma replica_target_spec source mean src groups targets a :
  replica_target source stats mean src groups targets = Some a →
  ∃ t p, (t, Underfull) ∈ targets ∧ preferred_remove_replica source src t.1 groups = Some p ∧
    a = mkReallocateReplica p.2 (rd_node_id p.1) (rd_id p.1) t.1.
Proof.
  induction targets as [|[t st] l IH]; cbn; [done|]. case_bool_decide as Es; cbn; [|done]. subst st.
  case_bool_decide; [intros (t' & p & Ht & ?)%IH; exists t', p; split; [by right|done]|].
  destruct (preferred_remove_replica _ _ _ _) as [p|] eqn:E; cbn; [|done]. intros [= <-]. exists t, p. split; [left|done].
Qed.

(** C32: A replica migration that the root decides on is sound: it takes a
    replica that the group's descriptor names, from the node it names, away to
    a schedulable node that neither the descriptor nor any report places the
    group on; it leaves alone the root group and groups with fewer than three
    nodes; and the source node has at least five replicas more than the target
    (pending changes counted), so that the move cannot be undone by the next
    round. *)
Theorem replica_migration_sound gs s candidates a :
  NoDup (gd_id <$> gs) →
  (∀ n c, n ∈ candidates → nd_capacity n = Some c → small (node_replica_count stats (n, c))) →
  replica_balance (set_groups gs s) stats candidates = Ok (Some a) →
  ∃ g r src tgt,
    g ∈ gs ∧ gd_id g = rr_group a ∧ rr_group a ≠ ROOT_GROUP_ID ∧
    r ∈ gd_replicas g ∧ rd_id r = rr_source_replica a ∧ rd_node_id r = rr_source_node a ∧
    src.1 ∈ candidates ∧ nd_id src.1 = rr_source_node a ∧ tgt.1 ∈ candidates ∧ tgt.1 = rr_target_node a ∧
    (∀ r', r' ∈ gd_replicas g → rd_node_id r' ≠ nd_id (rr_target_node a)) ∧
    (∀ st, st ∈ replica_states (set_groups gs s) → rs_group_id st = rr_group a → rs_node_id st ≠ nd_id (rr_target_node a)) ∧
    (∃ members, group_nodes (set_groups gs s) !! rr_group a = Some members ∧ (REPLICA_PER_GROUP ≤ size members)%nat) ∧
    node_replica_count stats tgt + 5 ≤ node_replica_count stats src.
Proof.
  intros Hnd Hsm. unfold replica_balance. intros (ns & Hns & [= E])%result_bind_ok. apply head_omap in E as (p & Hp & Ha).
  pose proof (capacities_ok _ _ Hns) as Hcap. apply capacities_elem in Hns as <-.
  assert (∀ n, n ∈ ns → small (node_replica_count stats n)) as Hsm'.
  { intros [n c] Hn. apply Hsm; [by apply (list_elem_of_fmap_2 fst) in Hn|by apply (Hcap _ Hn)]. }
  apply (take_over_elem (node_replica_count stats) node_balance_state) in Hp as [Hin Ho].
  apply replica_target_spec in Ha as (t & [r gid] & Ht & Hr & ->).
  apply list_elem_of_In, in_rev, list_elem_of_In in Ht.
  apply (rank_elem (node_replica_count stats) node_balance_state) in Ht as [Htin Hu]. cbn in Htin, Hu.
  apply find_some in Hr as [Hr%list_elem_of_In Hcond]. cbn in Hcond. destruct (gid =? ROOT_GROUP_ID) eqn:Eroot; [done|]. to_prop.
  apply node_replicas_spec in Hr as (g & Hg & <- & Hrg & Hrn).
  destruct (group_nodes _ !! gd_id g) as [ex|] eqn:Eex; [|done]. case_bool_decide as Hsize; [done|]. apply negb_true_iff, bool_decide_eq_false in Hcond.
  pose proof Eex as Eex'. apply note_states_spec in Eex' as (ns0 & Hns0 & Hsub & Hst). rewrite lookup_fmap, groups_lookup in Hns0 by done. injection Hns0 as <-.
  exists g, r, p.1, t. cbn. split_and!; try done.
  - by apply list_elem_of_fmap_2.
  - by apply list_elem_of_fmap_2.
  - intros r' Hr' Heq. apply Hcond, Hsub. rewrite <- Heq. apply elem_of_list_to_set. by apply list_elem_of_fmap_2.
  - intros st Hin' Hgid Heq. apply Hcond. rewrite <- Heq. by apply Hst.
  - exists ex. split; [done|lia].
  - by eapply (th_gap (state := node_balance_state)); eauto.
Qed.

(** *** Placement *)
Lemma score_cmp_count a b :
  small (node_replica_count stats a) → small (node_replica_count stats b) →
  score_cmp (node_alloc_score stats b) (node_alloc_score stats a) = Gt ↔ node_replica_count stats b < node_replica_count stats a.
Proof.
  unfold small. intros Ha Hb. unfold score_cmp, node_alloc_score.
  destruct (f64_of_Z_exact (node_replica_count stats a)) as (p & -> & Hp); [lia|].
  destruct (f64_of_Z_exact (node_replica_count stats b)) as (q & -> & Hq); [lia|]. cbn.
  rewrite Zlt_Qlt, <- Hp, <- Hq. clear.
  pose proof (Qle_bool_iff (- p) (- q)) as E1. pose proof (Qle_bool_iff (- q) (- p)) as E2.
  destruct (Qle_bool (- p) (- q)) eqn:B1, (Qle_bool (- q) (- p)) eqn:B2; cbn; split; intros Hx; try done.
  - assert (- q <= - p)%Q by (by apply E2). lra.
  - apply Qnot_le_lt. intros Hle. assert (- q <= - p)%Q as ?%E2 by lra. done.
  - assert (- p <= - q)%Q as ?%E1 by lra. done.
  - assert (- p <= - q)%Q as ?%E1 by lra. done.
Qed.
Definition eligible (candidates : list NodeDesc) (existing : list Z) : list NodeDesc :=
  List.filter (λ n, negb (bool_decide (nd_id n ∈ existing))) candidates.

Lemma eligible_elem candidates existing n : n ∈ eligible candidates existing ↔ n ∈ candidates ∧ nd_id n ∉ existing.
Proof.
  unfold eligible. by rewrite (list_elem_of_In (List.filter _ _) n), filter_In, negb_true_iff, bool_decide_eq_false, <- list_elem_of_In.
Qed.
Lemma take_drop_perm {A} n (l l' : list A) : l ≡ₚ l' → take n l ++ drop n l ≡ₚ l'.
Proof. intros <-. by rewrite take_drop. Qed.

Lemma allocate_sorted candidates existing wanted chosen :
  (∀ n c, n ∈ candidates → nd_capacity n = Some c → small (node_replica_count stats (n, c))) →
  allocate_group_replica stats candidates existing wanted = Ok chosen →
  ∃ l, l ≡ₚ eligible candidates existing ∧ chosen = take wanted l ∧
    ∀ n n' c c', n ∈ take wanted l → n' ∈ drop wanted l → nd_capacity n = Some c → nd_capacity n' = Some c' →
      node_replica_count stats (n, c) ≤ node_replica_count stats (n', c').
Proof.
  intros Hsm. unfold allocate_group_replica. fold (eligible candidates existing).
  assert (∀ n, n ∈ eligible candidates existing → n ∈ candidates) as Hel by (by intros n [? _]%eligible_elem).
  destruct (eligible candidates existing) as [|n1 [|n2 ns]] eqn:Ee.
  1: { intros [= <-]. exists []. split_and!; [done|by destruct wanted|]. intros n n' c c' Hn. destruct wanted; by apply not_elem_of_nil in Hn. }
  1: { intros [= <-]. exists [n1]. split_and!; [done..|]. intros n n' c c' Hn Hn'. destruct wanted; cbn in *; [by apply not_elem_of_nil in Hn|].
       rewrite drop_nil in Hn'. by apply not_elem_of_nil in Hn'. }
  rewrite <- Ee in *. intros (l & Hl & [= <-])%result_bind_ok.
  set (sorted := sort_by _ l). pose proof (capacities_ok _ _ Hl) as Hcap. apply capacities_elem in Hl.
  assert (sorted ≡ₚ l) as Hperm by apply sort_by_perm.
  exists (fst <$> sorted). split_and!; [by rewrite Hperm, Hl|done|].
  assert (StronglySorted (λ x y, - node_replica_count stats y ≤ - node_replica_count stats x) sorted) as Hs.
  { apply (sort_by_key _ (λ n, - node_replica_count stats n)). intros x y Hx Hy. assert (∀ z, z ∈ l → small (node_replica_count stats z)) as Hz; [|rewrite score_cmp_count; [lia|by apply Hz..]].
    intros [n c] Hz. apply Hsm; [apply Hel; rewrite <- Hl; by apply (list_elem_of_fmap_2 fst) in Hz|by apply (Hcap _ Hz)]. }
  intros n n' c c' Hn Hn' Hc Hc'. rewrite <- fmap_take in Hn. rewrite <- fmap_drop in Hn'.
  apply list_elem_of_fmap in Hn as (x & -> & Hx), Hn' as (y & -> & Hy).
  assert (x ∈ sorted ∧ y ∈ sorted) as [Hx' Hy'].
  { rewrite <- (take_drop wanted sorted). rewrite !elem_of_app. auto. }
  rewrite Hperm in Hx', Hy'. apply Hcap in Hx', Hy'. rewrite Hc in Hx'. rewrite Hc' in Hy'. simplify_eq.
  rewrite <- (take_drop wanted sorted) in Hs. apply StronglySorted_app in Hs as [Hs _]. specialize (Hs _ _ Hx Hy). cbn in Hs.
  destruct x, y. cbn in *. lia.
Qed.

(** New replicas are placed on distinct schedulable nodes that the group
    does not use yet, as many as asked for or as there are, and on the least
    loaded ones: a node that is left out has at least as many replicas
    (pending changes counted) as each that is chosen. *)
Theorem replica_placement candidates existing wanted chosen :
  NoDup candidates →
  (∀ n c, n ∈ candidates → nd_capacity n = Some c → small (node_replica_count stats (n, c))) →
  allocate_group_replica stats candidates existing wanted = Ok chosen →
  ∃ left_out,
    chosen ++ left_out ≡ₚ eligible candidates existing ∧ NoDup chosen ∧
    length chosen = Nat.min wanted (length (eligible candidates existing)) ∧
    (∀ n, n ∈ chosen → n ∈ candidates ∧ nd_id n ∉ existing) ∧
    ∀ n n' c c', n ∈ chosen → n' ∈ left_out → nd_capacity n = Some c → nd_capacity n' = Some c' →
      node_replica_count stats (n, c) ≤ node_replica_count stats (n', c').
Proof.
  intros Hnd Hsm (l & Hp & -> & Hle)%allocate_sorted; [|done].
  assert (NoDup l) as Hnd'. { rewrite Hp. by apply NoDup_ListNoDup, List.NoDup_filter, NoDup_ListNoDup. }
  exists (drop wanted l). split_and!; [by rewrite take_drop| |by rewrite length_take, Hp| |done].
  - rewrite <- (take_drop wanted l) in Hnd'. by apply NoDup_app in Hnd' as (? & _).
  - intros n Hn. apply eligible_elem. rewrite <- Hp, <- (take_drop wanted l). by apply elem_of_app; left.
Qed.
End ReplicaPolicy.
