(* ===== verification/RootSchema.v ===== *)
(** * The catalog of the root

    [server/src/root/store.rs] and [schema.rs]: databases, tables, nodes,
    groups, replica states, jobs and identifiers, each a key of a system table
    of the root group. *)

From S2P Require Import Prelude Bytes F64 Api Errors Schema GroupClient RocksDb Keys Engine EvalTxn RootStats.
From stdpp Require Import pretty.
#[local] Open Scope Z_scope.

(** ** The tables ([schema/src/system/table.rs]) *)
Definition DATABASE_ID : Z := 1.
Definition TABLE_ID : Z := 2.
Definition META_ID : Z := 3.
Definition NODE_ID : Z := 4.
Definition GROUP_ID : Z := 5.
Definition REPLICA_STATE_ID : Z := 6.
Definition JOB_ID : Z := 7.
Definition JOB_HISTORY_ID : Z := 8.
Definition system_database : DatabaseDesc := mkDatabaseDesc 1 "__system__".
Definition FIRST_USER_DATABASE_ID : Z := db_id system_database + 1.
Definition INITIAL_JOB_ID : Z := 0.
Definition default_system_properties : list (string * string) :=
  [("replicas_per_group", "1"); ("replication", "majority"); ("table_type", "system")]%string.
Definition system_table (p : string * Z) : TableDesc := mkTableDesc p.2 (db_id system_database) p.1 default_system_properties.
Definition system_tables : list TableDesc :=
  system_table <$> [("database", DATABASE_ID); ("table", TABLE_ID); ("meta", META_ID); ("node", NODE_ID); ("group", GROUP_ID);
    ("replica_state", REPLICA_STATE_ID); ("job", JOB_ID); ("job_history", JOB_HISTORY_ID); ("txn", TXN_ID)]%string.

(** ** Background jobs ([schedule/task.rs]) *)
Inductive CreateTableJobStatus := CtCreating | CtRollbacking | CtWriteDesc | CtFinish | CtAbort.
Definition CreateTableJobStatus_i32 (s : CreateTableJobStatus) : Z :=
  match s with CtCreating => 0 | CtRollbacking => 1 | CtWriteDesc => 2 | CtFinish => 3 | CtAbort => 4 end.
Definition CreateTableJobStatus_from_i32 (z : Z) : option CreateTableJobStatus :=
  List.find (λ s, CreateTableJobStatus_i32 s =? z) [CtCreating; CtRollbacking; CtWriteDesc; CtFinish; CtAbort].
Inductive CreateOneGroupStatus := CgInit | CgCreating | CgRollbacking | CgFinish | CgAbort.
Definition CreateOneGroupStatus_i32 (s : CreateOneGroupStatus) : Z :=
  match s with CgInit => 0 | CgCreating => 1 | CgRollbacking => 2 | CgFinish => 3 | CgAbort => 4 end.
Definition CreateOneGroupStatus_from_i32 (z : Z) : option CreateOneGroupStatus :=
  List.find (λ s, CreateOneGroupStatus_i32 s =? z) [CgInit; CgCreating; CgRollbacking; CgFinish; CgAbort].
Record CreateTableJob := mkCreateTableJob {
  ct_database : Z; ct_table_name : string; ct_wait_create : list ShardDesc; ct_wait_cleanup : list ShardDesc;
  ct_status : Z; ct_remark : string; ct_desc : option TableDesc; ct_created_time : string }.
Record CreateOneGroupJob := mkCreateOneGroupJob {
  cg_request_replica_cnt : Z; cg_wait_create : list NodeDesc; cg_wait_cleanup : list ReplicaDesc;
  cg_group_desc : option GroupDesc; cg_status : Z; cg_create_retry : Z; cg_invoked_nodes : list Z;
  cg_created_time : string }.
Record PurgeTableJob := mkPurgeTableJob {
  pt_database_id : Z; pt_table_id : Z; pt_database_name : string; pt_table_name : string; pt_created_time : string }.
Record PurgeDatabaseJob := mkPurgeDatabaseJob { pd_database_id : Z; pd_database_name : string; pd_created_time : string }.
Inductive Job :=
  | JCreateTable (job : CreateTableJob)
  | JCreateOneGroup (job : CreateOneGroupJob)
  | JPurgeTable (job : PurgeTableJob)
  | JPurgeDatabase (job : PurgeDatabaseJob).
Record BackgroundJob := mkBackgroundJob { bj_id : Z; bj_job : option Job }.

(** ** Keys *)
Definition table_key (database_id : Z) (table_name : string) : bytes := u64_to_le_bytes database_id ++ str_bytes table_name.
Definition group_key (group_id : Z) : bytes := u64_to_le_bytes group_id.
Definition replica_key (group_id replica_id : Z) : bytes := u64_to_le_bytes group_id ++ u64_to_le_bytes replica_id.
Definition META_CLUSTER_ID_KEY : string := "cluster_id".
Definition META_TABLE_ID_KEY : string := "table_id".
Definition META_DATABASE_ID_KEY : string := "database_id".
Definition META_GROUP_ID_KEY : string := "group_id".
Definition META_NODE_ID_KEY : string := "node_id".
Definition META_REPLICA_ID_KEY : string := "replica_id".
Definition META_SHARD_ID_KEY : string := "shard_id".
Definition META_JOB_ID_KEY : string := "job_id".
Definition META_TXN_ID_KEY : string := "txn_id".
(** [u64::from_le_bytes(v.try_into()?)]. *)
Definition u64_from_le (v : bytes) : option Z := if (length v =? 8)%nat then Some (from_le_bytes v) else None.

(** ** [store.rs] *)
(** The replica of the root group: its epoch, and [retry::execute] on it. *)
Class RootReplica (W : Type) := {
  rr_epoch : W → Z;
  rr_execute : ExecCtx → GroupRequest → prog W Error GroupResponse;
  rr_timestamp_nanos : W → Z;
}.
Section Store.
  Context {W : Type} {RR : RootReplica W}.
  Abbreviation M := (prog W Error).

Definition submit_request (req : Request) : M GroupResponse := λ w,
  rr_execute ExecCtx_default (mkGroupRequest ROOT_GROUP_ID (rr_epoch w) (Some (Some req))) w.
Definition store_batch_write (batch : ShardWriteRequest) : M unit :=
  do* submit_request (RWrite batch) in prog_lift (Ok tt).
Definition plain_put (key value : bytes) : PutRequest := mkPutRequest 0 key value 0 [] false.
Definition store_put (shard_id : Z) (key value : bytes) : M unit :=
  do* submit_request (RWrite (mkShardWriteRequest shard_id [] [plain_put key value])) in prog_lift (Ok tt).
(** The answer of a request, of the kind that was asked for. *)
Definition expect_response {A} (what union : string) (f : Response → option A) (resp : GroupResponse) : Result A :=
  let? resp := ok_or (gp_response resp) (InvalidArgument what) in
  let? resp := ok_or resp (InvalidArgument union) in
  ok_or (f resp) (InvalidArgument what).
Definition store_get (shard_id : Z) (user_key : bytes) : M (option bytes) :=
  let* resp := submit_request (RGet (mkShardGetRequest shard_id TXN_MAX_VERSION user_key)) in
  let* value := prog_lift (expect_response "GetResponse" "GetResponseUnion"
    (λ r, match r with SGetResp v => Some v | _ => None end) resp) in
  prog_lift (Ok (value ≫= v_content)).
Definition store_delete (shard_id : Z) (key : bytes) : M unit :=
  do* submit_request (RWrite (mkShardWriteRequest shard_id [mkDeleteRequest key [] false] [])) in prog_lift (Ok tt).
Definition list_request (shard_id : Z) (prefix : bytes) : ShardScanRequest :=
  mkShardScanRequest shard_id TXN_MAX_VERSION 0 0 false false (Some prefix) None None false false false.
Definition store_list (shard_id : Z) (prefix : bytes) : M (list bytes) :=
  let* resp := submit_request (RScan (list_request shard_id prefix)) in
  let* scan := prog_lift (expect_response "PrefixListResponse" "PrefixListUnionResponse"
    (λ r, match r with SScanResp v => Some v | _ => None end) resp) in
  prog_lift (Ok (omap (λ v, last (vs_values v) ≫= v_content) (sr_data scan))).

(** ** [schema.rs]: the tables as maps *)
Definition schema_get (table_id : Z) (key : bytes) : M (option bytes) :=
  let* s := prog_lift (shard_id table_id) in store_get s key.
Definition schema_put (table_id : Z) (key value : bytes) : M unit :=
  let* s := prog_lift (shard_id table_id) in store_put s key value.
Definition schema_delete (table_id : Z) (key : bytes) : M unit :=
  let* s := prog_lift (shard_id table_id) in store_delete s key.
Definition list_prefix (table_id : Z) (prefix : bytes) : M (list bytes) :=
  let* s := prog_lift (shard_id table_id) in store_list s prefix.
Definition schema_list (table_id : Z) : M (list bytes) := list_prefix table_id [].
Definition get_meta (key : bytes) : M (option bytes) := schema_get META_ID key.
Definition put_meta (key value : bytes) : M unit := schema_put META_ID key value.

(** A value that must decode, and a list of them. *)
Definition decode_as {A} `{Codec A} (msg : string) (v : bytes) : Result A := ok_or (decode_msg v) (InvalidData msg).
Definition get_as {A} `{Codec A} (table_id : Z) (key : bytes) (msg : string) : M (option A) :=
  let* val := schema_get table_id key in
  match val with
  | None => prog_lift (Ok None)
  | Some v => let* a := prog_lift (decode_as msg v) in prog_lift (Ok (Some a))
  end.
Fixpoint decode_all {A} `{Codec A} (msg : string) (vs : list bytes) : Result (list A) :=
  match vs with
  | [] => Ok []
  | v :: vs' => let? a := decode_as msg v in let? l := decode_all msg vs' in Ok (a :: l)
  end.
Definition list_as {A} `{Codec A} (msg : string) (m : M (list bytes)) : M (list A) :=
  let* vs := m in prog_lift (decode_all msg vs).

(** [ID_GEN_LOCKS] makes a call atomic among those of its kind. *)
Definition next_id (id_type : string) : M Z :=
  let* id := get_meta (str_bytes id_type) in
  let* id := prog_lift (ok_or id (InvalidData (id_type +:+ " id"))) in
  let* id := prog_lift (ok_or (u64_from_le id) (InvalidData (id_type +:+ " id"))) in
  do* put_meta (str_bytes id_type) (u64_to_le_bytes (u64_add id 1)) in
  prog_lift (Ok id).

Section Catalog.
  Context `{Codec DatabaseDesc} `{Codec TableDesc} `{Codec NodeDesc} `{Codec GroupDesc} `{Codec ReplicaState} `{Codec BackgroundJob}.

Definition put_database (desc : DatabaseDesc) : M unit := schema_put DATABASE_ID (str_bytes (db_name desc)) (encode_to_vec desc).
Definition put_table (table : TableDesc) : M unit :=
  schema_put TABLE_ID (table_key (tb_db table) (tb_name table)) (encode_to_vec table).
Definition put_node (desc : NodeDesc) : M unit := schema_put NODE_ID (u64_to_le_bytes (nd_id desc)) (encode_to_vec desc).
Definition put_group (desc : GroupDesc) : M unit := schema_put GROUP_ID (u64_to_le_bytes (gd_id desc)) (encode_to_vec desc).
Definition put_replica_state (state : ReplicaState) : M unit :=
  schema_put REPLICA_STATE_ID (replica_key (rs_group_id state) (rs_replica_id state)) (encode_to_vec state).
Definition put_job (desc : BackgroundJob) : M unit := schema_put JOB_ID (u64_to_le_bytes (bj_id desc)) (encode_to_vec desc).
Definition put_job_history (desc : BackgroundJob) : M unit :=
  schema_put JOB_HISTORY_ID (u64_to_le_bytes (bj_id desc)) (encode_to_vec desc).

(** *** Databases and tables *)
Definition cluster_id : M (option bytes) := get_meta (str_bytes META_CLUSTER_ID_KEY).
Definition get_database (name : string) : M (option DatabaseDesc) :=
  get_as DATABASE_ID (str_bytes name) ("database desc: " +:+ name).
Definition create_database (desc : DatabaseDesc) : M DatabaseDesc :=
  let* found := get_database (db_name desc) in
  match found with
  | Some _ => prog_lift (Err (AlreadyExists ("database " +:+ db_name desc)))
  | None =>
      let* id := next_id META_DATABASE_ID_KEY in
      let desc := mkDatabaseDesc id (db_name desc) in
      do* put_database desc in prog_lift (Ok desc)
  end.
Definition delete_database (db : DatabaseDesc) : M Z :=
  do* schema_delete DATABASE_ID (str_bytes (db_name db)) in prog_lift (Ok (db_id db)).
Definition list_database : M (list DatabaseDesc) := list_as "database desc" (schema_list DATABASE_ID).

Definition get_table (database : Z) (table : string) : M (option TableDesc) :=
  get_as TABLE_ID (table_key database table) ("table desc: " +:+ pretty database +:+ ", " +:+ table).
Definition prepare_create_table (desc : TableDesc) : M TableDesc :=
  let* found := get_table (tb_db desc) (tb_name desc) in
  match found with
  | Some _ => prog_lift (Err (AlreadyExists ("table " +:+ tb_name desc)))
  | None =>
      let* id := next_id META_TABLE_ID_KEY in
      prog_lift (Ok (mkTableDesc id (tb_db desc) (tb_name desc) (tb_properties desc)))
  end.
Definition create_table (desc : TableDesc) : M TableDesc :=
  let* found := get_table (tb_db desc) (tb_name desc) in
  match found with
  | Some _ => prog_lift Panic
  | None => do* put_table desc in prog_lift (Ok desc)
  end.
Definition delete_table (table : TableDesc) : M unit := schema_delete TABLE_ID (table_key (tb_db table) (tb_name table)).
Definition list_table : M (list TableDesc) := list_as "table desc" (schema_list TABLE_ID).
Definition list_database_tables (database : Z) : M (list TableDesc) :=
  let* tables := list_table in prog_lift (Ok (List.filter (λ c, tb_db c =? database) tables)).

(** *** Nodes, groups and replica states *)
Definition add_node (desc : NodeDesc) : M NodeDesc :=
  let* id := next_id META_NODE_ID_KEY in
  let desc := mkNodeDesc id (nd_addr desc) (nd_capacity desc) (nd_status desc) in
  do* put_node desc in prog_lift (Ok desc).
Definition get_node (id : Z) : M (option NodeDesc) :=
  get_as NODE_ID (u64_to_le_bytes id) ("node desc: " +:+ pretty id).
Definition delete_node (id : Z) : M unit := schema_delete NODE_ID (u64_to_le_bytes id).
Definition update_node (desc : NodeDesc) : M unit := put_node desc.
Definition list_node : M (list NodeDesc) := list_as "node desc" (schema_list NODE_ID).
Definition list_group : M (list GroupDesc) := list_as "group desc" (schema_list GROUP_ID).
Definition get_group (id : Z) : M (option GroupDesc) :=
  get_as GROUP_ID (u64_to_le_bytes id) ("group desc: " +:+ pretty id).
Definition delete_group (id : Z) : M unit := schema_delete GROUP_ID (u64_to_le_bytes id).
Definition get_table_shards (table_id : Z) : M (list (Z * ShardDesc)) :=
  let* groups := list_group in
  prog_lift (Ok (groups ≫= λ g, pair (gd_id g) <$> List.filter (λ s, sd_table_id s =? table_id) (gd_shards g))).
Definition update_group_replica (group : option GroupDesc) (replica : option ReplicaState) : M unit :=
  do* (match replica with Some r => put_replica_state r | None => prog_lift (Ok tt) end) in
  match group with Some g => put_group g | None => prog_lift (Ok tt) end.
Definition remove_replica_state (group_id replica_id : Z) : M unit :=
  schema_delete REPLICA_STATE_ID (replica_key group_id replica_id).
Definition get_replica_state (group_id replica_id : Z) : M (option ReplicaState) :=
  get_as REPLICA_STATE_ID (replica_key group_id replica_id)
    ("replica_state: group: " +:+ pretty group_id +:+ ", replica: " +:+ pretty replica_id).
Definition list_replica_state : M (list ReplicaState) := list_as "replica state desc" (schema_list REPLICA_STATE_ID).
Definition group_replica_states (group_id : Z) : M (list ReplicaState) :=
  list_as "replica state desc" (list_prefix REPLICA_STATE_ID (u64_to_le_bytes group_id)).

(** [list_group_state]: the replica states by group. *)
Definition add_group_state (m : gmap Z GroupState) (s : ReplicaState) : gmap Z GroupState :=
  let leads := rs_role s =? RaftRole_i32 Leader in
  match m !! rs_group_id s with
  | Some g =>
      let leader_id :=
        if leads then Some (rs_replica_id s)
        else if bool_decide (gs_leader_id g = Some (rs_replica_id s)) then None else gs_leader_id g in
      <[rs_group_id s := mkGroupState (gs_group_id g) leader_id
         (List.filter (λ d, negb (rs_replica_id d =? rs_replica_id s)) (gs_replicas g) ++ [s])]> m
  | None =>
      <[rs_group_id s := mkGroupState (rs_group_id s) (if leads then Some (rs_replica_id s) else None) [s]]> m
  end.
Definition group_states (l : list ReplicaState) : gmap Z GroupState := fold_left add_group_state l ∅.
Context `{HashOrder}.
Definition list_group_state : M (list GroupState) :=
  let* states := list_replica_state in prog_lift (Ok (snd <$> visit (group_states states))).

(** [get_root_desc]: the nodes of the root group's replicas, each once. *)
Fixpoint root_nodes (replicas : list ReplicaDesc) (ns : gmap Z NodeDesc) : M (gmap Z NodeDesc) :=
  match replicas with
  | [] => prog_lift (Ok ns)
  | r :: replicas' =>
      match ns !! rd_node_id r with
      | Some _ => root_nodes replicas' ns
      | None =>
          let* n := get_node (rd_node_id r) in
          let* n := prog_lift (ok_or n (InvalidData ("node " +:+ pretty (rd_node_id r) +:+ " data not found"))) in
          root_nodes replicas' (<[nd_id n := n]> ns)
      end
  end.
Definition get_root_desc : M RootDesc :=
  let* g := get_group ROOT_GROUP_ID in
  let* g := prog_lift (ok_or g (GroupNotFound ROOT_GROUP_ID)) in
  let* ns := root_nodes (gd_replicas g) ∅ in
  prog_lift (Ok (mkRootDesc (gd_epoch g) (snd <$> visit ns))).

(** [list_all_events]: what a watcher that knows [cur_groups] has to learn. *)
Definition is_changed (cur_groups : gmap Z Z) (desc : GroupDesc) : bool :=
  match cur_groups !! gd_id desc with Some cur_epoch => cur_epoch <? gd_epoch desc | None => true end.
Definition list_all_events (cur_groups : gmap Z Z) : M (list UpdateEvent * list DeleteEvent) :=
  let* ns := list_node in
  let* dbs := list_database in
  let* tables := list_table in
  let* gs := list_group in
  let groups : gmap Z GroupDesc := fold_left (λ m g, <[gd_id g := g]> m) gs ∅ in
  let changed_groups := filter (λ p, is_changed cur_groups p.2 = true) groups in
  let deleted := List.filter (λ id, bool_decide (groups !! id = None)) (fst <$> visit cur_groups) in
  let* states := list_group_state in
  prog_lift (Ok (
    (UNode <$> ns) ++ (UDatabase <$> dbs) ++ (UTable <$> tables) ++ (UGroup <$> (snd <$> visit changed_groups)) ++
      (UGroupState <$> List.filter (λ s, bool_decide (is_Some (changed_groups !! gs_group_id s))) states),
    (DGroup <$> deleted) ++ (DGroupState <$> deleted))).

(** *** Jobs and transaction identifiers *)
Definition append_job (desc : BackgroundJob) : M BackgroundJob :=
  let* id := next_id META_JOB_ID_KEY in
  let desc := mkBackgroundJob id (bj_job desc) in
  do* put_job desc in prog_lift (Ok desc).
Definition remove_job (job : BackgroundJob) : M unit :=
  do* put_job_history job in schema_delete JOB_ID (u64_to_le_bytes (bj_id job)).
Definition update_job (desc : BackgroundJob) : M bool :=
  let* found := schema_get JOB_ID (u64_to_be_bytes (bj_id desc)) in
  match found with
  | None => prog_lift (Ok false)
  | Some _ => do* put_job desc in prog_lift (Ok true)
  end.
Definition list_job : M (list BackgroundJob) := list_as "background job" (schema_list JOB_ID).
Definition list_history_job : M (list BackgroundJob) := list_as "background job" (schema_list JOB_HISTORY_ID).
Definition get_job_history (id : Z) : M (option BackgroundJob) :=
  get_as JOB_HISTORY_ID (u64_to_le_bytes id) "background job".
Definition max_txn_id : M Z :=
  let* v := get_meta (str_bytes META_TXN_ID_KEY) in
  let* v := prog_lift (ok_or v (InvalidData "txn id")) in
  prog_lift (ok_or (u64_from_le v) (InvalidData "txn id")).
Definition set_txn_id (next_txn_id : Z) : M unit := put_meta (str_bytes META_TXN_ID_KEY) (u64_to_le_bytes next_txn_id).
Definition next_group_id : M Z := next_id META_GROUP_ID_KEY.
Definition next_replica_id : M Z := next_id META_REPLICA_ID_KEY.
Definition next_shard_id : M Z := next_id META_SHARD_ID_KEY.

(** *** Bootstrap *)
Definition meta_puts (cluster_id : bytes) (now : Z) : list PutRequest :=
  (λ p : string * bytes, plain_put (str_bytes p.1) p.2) <$>
  [(META_CLUSTER_ID_KEY, cluster_id);
   (META_DATABASE_ID_KEY, u64_to_le_bytes FIRST_USER_DATABASE_ID);
   (META_TABLE_ID_KEY, u64_to_le_bytes FIRST_USER_TABLE_ID);
   (META_GROUP_ID_KEY, u64_to_le_bytes (FIRST_GROUP_ID + 1));
   (META_NODE_ID_KEY, u64_to_le_bytes (FIRST_NODE_ID + 1));
   (META_REPLICA_ID_KEY, u64_to_le_bytes (INIT_USER_REPLICA_ID + 1));
   (META_SHARD_ID_KEY, u64_to_le_bytes FIRST_USER_SHARD_ID);
   (META_JOB_ID_KEY, u64_to_le_bytes INITIAL_JOB_ID);
   (META_TXN_ID_KEY, u64_to_le_bytes now)].
Definition init_meta_table (cluster_id : bytes) : M unit := λ w,
  (let* s := prog_lift (shard_id META_ID) in
   store_batch_write (mkShardWriteRequest s [] (meta_puts cluster_id (rr_timestamp_nanos w)))) w.
Definition first_leader (group_id replica_id : Z) : ReplicaState :=
  mkReplicaState replica_id group_id 0 replica_id (RaftRole_i32 Leader) FIRST_NODE_ID.
Definition try_bootstrap_root (addr : string) (cfg_cpu_nums : Z) (new_cluster_id : bytes) : M unit :=
  let* exist := cluster_id in
  match exist with
  | Some exist_cluster_id =>
      if negb (bytes_eqb exist_cluster_id new_cluster_id) then prog_lift (Err ClusterNotMatch) else prog_lift (Ok tt)
  | None =>
      do* put_database system_database in
      do* put_node (mkNodeDesc FIRST_NODE_ID addr (Some (mkNodeCapacity (f64_of_Z cfg_cpu_nums) 1 0)) (NodeStatus_i32 NActive)) in
      do* put_group root_group in
      do* put_replica_state (first_leader ROOT_GROUP_ID FIRST_REPLICA_ID) in
      do* put_group init_group in
      do* put_replica_state (first_leader FIRST_GROUP_ID INIT_USER_REPLICA_ID) in
      let* s := prog_lift (shard_id TABLE_ID) in
      do* store_batch_write (mkShardWriteRequest s []
        ((λ t, plain_put (table_key (tb_db t) (tb_name t)) (encode_to_vec t)) <$> system_tables)) in
      init_meta_table new_cluster_id
  end.
End Catalog.
End Store.

(** [ReplicaNodes::move_first]. *)
Definition move_first (id : Z) (ns : list NodeDesc) : list NodeDesc :=
  match list_find (λ n, nd_id n = id) ns with
  | Some (idx, n) =>
      match ns with
      | first :: _ => if (idx =? 0)%nat then ns else <[0%nat := n]> (<[idx := first]> ns)
      | [] => ns
      end
  | None => ns
  end.

(** [list_node_raw], on the engine of a replica that may not lead. *)
Section Raw.
  Context {DB : Type} `{RocksDb DB} `{Codec NodeDesc}.
Fixpoint decode_values (es : list MvccEntry) : Result (list NodeDesc) :=
  match es with
  | [] => Ok []
  | e :: es' =>
      let? v := entry_value e in
      match v with
      | None => decode_values es'
      | Some b => let? n := decode_as "node desc" b in let? l := decode_values es' in Ok (n :: l)
      end
  end.
Fixpoint raw_nodes (fuel : nat) (s : Snapshot) : Result (list NodeDesc) :=
  match fuel with
  | O => Panic
  | S fuel' =>
      match next_mvcc_iterator s with
      | (Ok None, _) => Ok []
      | (Ok (Some _), s) =>
          let '(es, s) := collect_entries s in
          let? es := es in
          let? ns := decode_values es in
          let? l := raw_nodes fuel' s in Ok (ns ++ l)
      | (Err e, _) => Err e
      | (Panic, _) => Panic
      end
  end.
Definition list_node_raw (engine : GroupEngine DB) : Result (list NodeDesc) :=
  let? s := shard_id NODE_ID in
  match ge_snapshot engine s (ModePrefix []) with
  | Ok snapshot => raw_nodes (S (items_left snapshot)) snapshot
  | Err (ShardNotFound _) => Ok []
  | Err e => Err e
  | Panic => Panic
  end.
End Raw.
