(* ===== verification/RootSchemaProps.v ===== *)
(** * The catalog is a map, and stays well formed *)

From S2P Require Import Prelude Bytes F64 Api Errors Schema GroupClient RocksDb Keys Engine EvalTxn RootStats RootSchema.
From stdpp Require Import pretty.
#[local] Open Scope Z_scope.

(** ** What the root group promises *)
(** The values of the keys of the system tables' shards. *)
#[global] Instance row_eq_dec : EqDecision (Z * bytes) := _.
#[global] Instance row_countable : Countable (Z * bytes) := _.
Abbreviation contents := (@gmap (Z * bytes) row_eq_dec row_countable bytes).
Definition put_all (s : Z) (puts : list PutRequest) (m : contents) : contents :=
  fold_left (λ m p, <[(s, put_key p) := put_value p]> m) puts m.
Definition delete_all (s : Z) (dels : list DeleteRequest) (m : contents) : contents :=
  fold_left (λ m d, delete (s, del_key d) m) dels m.
Definition is_plain (p : PutRequest) : Prop := p = plain_put (put_key p) (put_value p).
Definition with_prefix (s : Z) (prefix : bytes) (m : contents) : contents :=
  filter (λ p, p.1.1 = s ∧ starts_with p.1.2 prefix = true) m.

(** A read does not change anything and answers from the contents; a write
    without conditions takes effect if it is acknowledged, and may take effect
    if it is not.  Between two requests of a handler the contents stay as they
    are: the handlers of the root are run one at a time here, which the root
    does not enforce where they wait ([overlapping_reports_regress]). *)
Class RootReplicaOk {W : Type} (RR : RootReplica W) (kv : W → contents) := {
  ok_get : ∀ s k w r w',
    submit_request (RGet (mkShardGetRequest s TXN_MAX_VERSION k)) w = Some (r, w') →
    kv w' = kv w ∧ ∀ g, r = Ok g → ∃ v, gp_response g = Some (Some (SGetResp v)) ∧ v ≫= v_content = kv w !! (s, k);
  ok_list : ∀ s prefix w r w',
    submit_request (RScan (list_request s prefix)) w = Some (r, w') →
    kv w' = kv w ∧ ∀ g, r = Ok g → ∃ scan l, gp_response g = Some (Some (SScanResp scan)) ∧
      omap (λ v, last (vs_values v) ≫= v_content) (sr_data scan) = l.*2 ∧ l ≡ₚ map_to_list (with_prefix s prefix (kv w));
  ok_write : ∀ s dels puts w r w',
    Forall is_plain puts → Forall (λ d, d = mkDeleteRequest (del_key d) [] false) dels →
    submit_request (RWrite (mkShardWriteRequest s dels puts)) w = Some (r, w') →
    kv w' = put_all s puts (delete_all s dels (kv w)) ∨ (kv w' = kv w ∧ ∀ g, r ≠ Ok g);
}.

(** A program that, from contents [m], gives the results and contents of [Q]. *)
Definition runs {W A : Type} (kv : W → contents) (p : prog W Error A) (m : contents) (Q : Result A → contents → Prop) : Prop :=
  ∀ w r w', kv w = m → p w = Some (r, w') → Q r (kv w').

Section Store.
  Context {W : Type} {RR : RootReplica W} {kv : W → contents} {OK : RootReplicaOk RR kv}.
  Abbreviation M := (prog W Error).

Lemma runs_lift {A} (a : Result A) m Q : Q a m → runs kv (prog_lift a) m Q.
Proof. intros HQ w r w' Hm [= <- <-]. by rewrite Hm. Qed.
Lemma runs_bind {A B} (p : M A) (k : A → M B) m Q :
  runs kv p m (λ r m', match r with Ok a => runs kv (k a) m' Q | Err e => Q (Err e) m' | Panic => Q Panic m' end) →
  runs kv (prog_bind p k) m Q.
Proof.
  intros Hp w r w' Hm E. unfold prog_bind in E. destruct (p w) as [[[a|e|] w1]|] eqn:Ep; [| | |done].
  - specialize (Hp w _ w1 Hm Ep). cbn in Hp. by apply (Hp w1 r w' eq_refl).
  - specialize (Hp w _ w1 Hm Ep). cbn in Hp. by injection E as <- <-.
  - specialize (Hp w _ w1 Hm Ep). cbn in Hp. by injection E as <- <-.
Qed.
Lemma runs_weaken {A} (p : M A) m (Q Q' : Result A → contents → Prop) :
  runs kv p m Q → (∀ r m', Q r m' → Q' r m') → runs kv p m Q'.
Proof. intros Hp HQ w r w' Hm E. by eapply HQ, Hp. Qed.
(** A result that carries nothing: not [Ok]. *)
Definition failed {A} (r : Result A) : Prop := ∀ a, r ≠ Ok a.

Lemma store_get_runs s k m : runs kv (store_get s k) m (λ r m', m' = m ∧ (failed r ∨ r = Ok (m !! (s, k)))).
Proof.
  apply runs_bind. intros w r w' Hm E. apply ok_get in E as [Hkv Hr]. rewrite Hkv, Hm.
  destruct r as [g|e|]; [|split; [done|by left]..]. destruct (Hr g eq_refl) as (v & Hg & Hv). rewrite Hm in Hv.
  apply runs_bind, runs_lift. unfold expect_response. rewrite Hg. cbn. apply runs_lift. by rewrite Hv; auto.
Qed.
Lemma store_list_runs s prefix m :
  runs kv (store_list s prefix) m (λ r m', m' = m ∧ (failed r ∨ ∃ l, r = Ok l.*2 ∧ l ≡ₚ map_to_list (with_prefix s prefix m))).
Proof.
  apply runs_bind. intros w r w' Hm E. apply ok_list in E as [Hkv Hr]. rewrite Hkv, Hm.
  destruct r as [g|e|]; [|split; [done|by left]..]. destruct (Hr g eq_refl) as (scan & l & Hg & Hl & Hp). rewrite Hm in Hp.
  apply runs_bind, runs_lift. unfold expect_response. rewrite Hg. cbn. apply runs_lift. split; [done|right]. exists l. by rewrite Hl.
Qed.
Lemma store_write_runs s dels puts m :
  Forall is_plain puts → Forall (λ d, d = mkDeleteRequest (del_key d) [] false) dels →
  runs kv (store_batch_write (mkShardWriteRequest s dels puts)) m
    (λ r m', m' = put_all s puts (delete_all s dels m) ∨ (m' = m ∧ failed r)).
Proof.
  intros Hp Hd. apply runs_bind. intros w r w' Hm E. apply ok_write in E as [Hkv|[Hkv Hr]]; [| |done..]; rewrite Hkv, Hm.
  - destruct r as [g|e|]; [apply runs_lift|..]; by left.
  - destruct r as [g|e|]; [by destruct (Hr g)|..]; by right.
Qed.
Lemma store_put_runs s k v m :
  runs kv (store_put s k v) m (λ r m', m' = <[(s, k) := v]> m ∨ (m' = m ∧ failed r)).
Proof. apply (store_write_runs s [] [plain_put k v]); by repeat constructor. Qed.
Lemma store_delete_runs s k m :
  runs kv (store_delete s k) m (λ r m', m' = delete (s, k) m ∨ (m' = m ∧ failed r)).
Proof. apply (store_write_runs s [mkDeleteRequest k [] false] []); by repeat constructor. Qed.

(** The same for the tables. *)
Lemma shard_id_unity t : is_unity_table t = true → shard_id t = Ok t.
Proof. unfold shard_id. by intros ->. Qed.
Lemma schema_get_runs t k m : is_unity_table t = true →
  runs kv (schema_get t k) m (λ r m', m' = m ∧ (failed r ∨ r = Ok (m !! (t, k)))).
Proof. intros Ht. apply runs_bind, runs_lift. rewrite (shard_id_unity t Ht). apply store_get_runs. Qed.
Lemma schema_put_runs t k v m : is_unity_table t = true →
  runs kv (schema_put t k v) m (λ r m', m' = <[(t, k) := v]> m ∨ (m' = m ∧ failed r)).
Proof. intros Ht. apply runs_bind, runs_lift. rewrite (shard_id_unity t Ht). apply store_put_runs. Qed.
Lemma schema_delete_runs t k m : is_unity_table t = true →
  runs kv (schema_delete t k) m (λ r m', m' = delete (t, k) m ∨ (m' = m ∧ failed r)).
Proof. intros Ht. apply runs_bind, runs_lift. rewrite (shard_id_unity t Ht). apply store_delete_runs. Qed.
Lemma list_prefix_runs t prefix m : is_unity_table t = true →
  runs kv (list_prefix t prefix) m (λ r m', m' = m ∧ (failed r ∨ ∃ l, r = Ok l.*2 ∧ l ≡ₚ map_to_list (with_prefix t prefix m))).
Proof. intros Ht. apply runs_bind, runs_lift. rewrite (shard_id_unity t Ht). apply store_list_runs. Qed.
End Store.

(** ** A well-formed catalog *)
Definition counter (kind : string) (m : contents) : option Z := m !! (META_ID, str_bytes kind) ≫= u64_from_le.
Definition ctr (kind : string) (m : contents) : Z := default 0 (counter kind m).
(** The rows of a table decode to what their keys say and satisfy [P]. *)
Definition rows {A} `{Codec A} (t : Z) (key : A → bytes) (P : A → Prop) (m : contents) : Prop :=
  ∀ k v, m !! (t, k) = Some v → ∃ a, v = encode_to_vec a ∧ k = key a ∧ P a.
Definition stored {A} `{Codec A} (t : Z) (key : A → bytes) (m : contents) (a : A) : Prop := m !! (t, key a) = Some (encode_to_vec a).

Section Rows.
  Context {A : Type} `{Codec A} (t : Z) (key : A → bytes).
Lemma rows_mono (P Q : A → Prop) m : rows t key P m → (∀ a, P a → Q a) → rows t key Q m.
Proof. intros Hr HPQ k v Hk. destruct (Hr k v Hk) as (a & ? & ? & ?). eauto. Qed.
Lemma rows_put P m a : rows t key P m → P a → rows t key P (<[(t, key a) := encode_to_vec a]> m).
Proof. intros Hr Ha k v. rewrite lookup_insert_Some. intros [[[= <-] <-]|[_ Hk]]; eauto. Qed.
Lemma rows_other P m t' k' v' : t' ≠ t → rows t key P m → rows t key P (<[(t', k') := v']> m).
Proof. intros Hne Hr k v. rewrite lookup_insert_ne by congruence. apply Hr. Qed.
Lemma rows_delete P m t' k' : rows t key P m → rows t key P (delete (t', k') m).
Proof. intros Hr k v [_ Hk]%lookup_delete_Some. by apply Hr. Qed.
End Rows.

Section Catalog.
  Context {W : Type} {RR : RootReplica W} {kv : W → contents} {OK : RootReplicaOk RR kv}.
  Context `{Codec DatabaseDesc, !CodecOk DatabaseDesc} `{Codec TableDesc, !CodecOk TableDesc} `{Codec NodeDesc, !CodecOk NodeDesc}.
  Context `{Codec GroupDesc, !CodecOk GroupDesc} `{Codec ReplicaState, !CodecOk ReplicaState} `{Codec BackgroundJob, !CodecOk BackgroundJob}.
  Context `{HashOrder}.
  Abbreviation M := (prog W Error).

Definition database_key (d : DatabaseDesc) : bytes := str_bytes (db_name d).
Definition table_row_key (t : TableDesc) : bytes := table_key (tb_db t) (tb_name t).
Definition node_row_key (n : NodeDesc) : bytes := u64_to_le_bytes (nd_id n).
Definition group_row_key (g : GroupDesc) : bytes := u64_to_le_bytes (gd_id g).
Definition state_row_key (s : ReplicaState) : bytes := replica_key (rs_group_id s) (rs_replica_id s).
Definition job_row_key (j : BackgroundJob) : bytes := u64_to_le_bytes (bj_id j).
Abbreviation kinds := [META_DATABASE_ID_KEY; META_TABLE_ID_KEY; META_GROUP_ID_KEY; META_NODE_ID_KEY; META_REPLICA_ID_KEY; META_SHARD_ID_KEY; META_JOB_ID_KEY].

Record catalog_ok (m : contents) : Prop := {
  co_databases : rows DATABASE_ID database_key (λ d, 0 ≤ db_id d < ctr META_DATABASE_ID_KEY m) m;
  co_unique : ∀ d1 d2, stored DATABASE_ID database_key m d1 → stored DATABASE_ID database_key m d2 → db_id d1 = db_id d2 → d1 = d2;
  co_tables : rows TABLE_ID table_row_key (λ _, True) m;
  co_nodes : rows NODE_ID node_row_key (λ n, 0 ≤ nd_id n < ctr META_NODE_ID_KEY m) m;
  co_groups : rows GROUP_ID group_row_key (λ g, u64_ok (gd_id g)) m;
  co_states : rows REPLICA_STATE_ID state_row_key (λ _, True) m;
  co_jobs : rows JOB_ID job_row_key (λ j, 0 ≤ bj_id j < ctr META_JOB_ID_KEY m) m;
  co_history : rows JOB_HISTORY_ID job_row_key (λ _, True) m }.
(** Room for [n] more identifiers of every kind. *)
Definition roomy (n : Z) (m : contents) : Prop :=
  ∀ kind, kind ∈ kinds → ∃ c, counter kind m = Some c ∧ 0 ≤ c ∧ c + n ≤ u64_MAX.

Lemma u64_from_le_to z : u64_ok z → u64_from_le (u64_to_le_bytes z) = Some z.
Proof.
  intros Hz. unfold u64_from_le, u64_to_le_bytes. rewrite le_bytes_length, Nat.eqb_refl, from_le_bytes_le_bytes.
  f_equal. apply Z.mod_small. unfold u64_ok, u64_MAX in Hz. change (256 ^ Z.of_nat 8) with (2 ^ 64). lia.
Qed.
Lemma counter_put kind kind' c m : u64_ok c →
  counter kind (<[(META_ID, str_bytes kind') := u64_to_le_bytes c]> m) =
  if decide (str_bytes kind = str_bytes kind') then Some c else counter kind m.
Proof.
  intros Hc. unfold counter. case_decide as E; [by rewrite E, lookup_insert_eq; cbn; apply u64_from_le_to|].
  rewrite lookup_insert_ne by congruence. done.
Qed.
Lemma counter_other t k v kind m : t ≠ META_ID → counter kind (<[(t, k) := v]> m) = counter kind m.
Proof. intros. unfold counter. rewrite lookup_insert_ne by congruence. done. Qed.
Lemma counter_delete t k kind m : t ≠ META_ID → counter kind (delete (t, k) m) = counter kind m.
Proof. intros. unfold counter. rewrite lookup_delete_ne by congruence. done. Qed.

(** The identifiers a step may have handed out: counters only grow. *)
Definition bumped (kind : string) (m m' : contents) (id : Z) : Prop :=
  counter kind m = Some id ∧ m' = <[(META_ID, str_bytes kind) := u64_to_le_bytes (u64_add id 1)]> m.
Lemma next_id_runs kind m :
  runs kv (next_id kind) m (λ r m', (m' = m ∧ failed r) ∨ ∃ id, bumped kind m m' id ∧ (r = Ok id ∨ failed r)).
Proof.
  apply runs_bind. eapply runs_weaken; [by apply schema_get_runs|]. cbn. intros r m' [-> Hr].
  destruct r as [v|e|]; [|by left; split..]. destruct Hr as [Hr|[= ->]]; [by destruct (Hr v)|].
  apply runs_bind, runs_lift. destruct (m !! (META_ID, str_bytes kind)) as [v|] eqn:Ev; cbn; [|by left].
  apply runs_bind, runs_lift. destruct (u64_from_le v) as [id|] eqn:Eid; cbn; [|by left].
  assert (counter kind m = Some id) as Hc by (unfold counter; by rewrite Ev).
  apply runs_bind. eapply runs_weaken; [by apply schema_put_runs|]. cbn. intros r m' [->|[-> Hr]].
  - destruct r as [u|e|]; [apply runs_lift|..]; right; exists id; split; try done; [by left|by right..].
  - destruct r as [u|e|]; [by destruct (Hr u)|..]; by left.
Qed.

Lemma ctr_other t k v kind m : t ≠ META_ID → ctr kind (<[(t, k) := v]> m) = ctr kind m.
Proof. intros. unfold ctr. by rewrite counter_other. Qed.
Lemma ctr_delete t k kind m : t ≠ META_ID → ctr kind (delete (t, k) m) = ctr kind m.
Proof. intros. unfold ctr. by rewrite counter_delete. Qed.
Lemma stored_other {A} `{Codec A} t key t' k v m (a : A) : t' ≠ t → stored t key (<[(t', k) := v]> m) a ↔ stored t key m a.
Proof. intros. unfold stored. by rewrite lookup_insert_ne by congruence. Qed.
Lemma stored_delete {A} `{Codec A} t key t' k m (a : A) : stored t key (delete (t', k) m) a → stored t key m a.
Proof. unfold stored. by intros [_ ?]%lookup_delete_Some. Qed.

Lemma roomy_weaken n n' m : n' ≤ n → roomy n m → roomy n' m.
Proof. intros Hle Hr kind Hk. destruct (Hr kind Hk) as (c & ? & ? & ?). exists c. split_and!; [done..|lia]. Qed.
Ltac keep_rows Hok :=
  let c := fresh "C" in destruct Hok as [Cdb Cun Ctb Cnd Cgr Crs Cjb Chi];
  split; rewrite ?ctr_other, ?ctr_delete by done; try (by apply rows_other); try (by apply rows_delete); try done.
Lemma roomy_other n m t k v : t ≠ META_ID → roomy n m → roomy n (<[(t, k) := v]> m).
Proof. intros Ht Hr kind Hk. rewrite counter_other by done. by apply Hr. Qed.
Lemma roomy_delete n m t k : t ≠ META_ID → roomy n m → roomy n (delete (t, k) m).
Proof. intros Ht Hr kind Hk. rewrite counter_delete by done. by apply Hr. Qed.
(** A step that takes no identifier. *)
Record safe (m m' : contents) : Prop := {
  safe_ok : catalog_ok m → catalog_ok m'; safe_roomy : ∀ n, roomy n m → roomy n m'; safe_ctr : ∀ kind, kind ∈ kinds → ctr kind m ≤ ctr kind m' }.
#[local] Instance safe_preorder : PreOrder safe.
Proof.
  split; [by split|]. intros m1 m2 m3 [A1 A2 A3] [B1 B2 B3]. split; [by auto..|]. intros kind Hk. etrans; [by apply A3|by apply B3].
Qed.
Lemma safe_put m t k v : t ≠ META_ID → (catalog_ok m → catalog_ok (<[(t, k) := v]> m)) → safe m (<[(t, k) := v]> m).
Proof. intros Ht Hk. split; [done|intros n; by apply roomy_other|]. intros kind _. by rewrite ctr_other. Qed.
Lemma safe_delete m t k : t ≠ META_ID → safe m (delete (t, k) m).
Proof.
  intros Ht. split; [|intros n; by apply roomy_delete|intros kind _; by rewrite ctr_delete]. intros Hok.
  keep_rows Hok. intros d1 d2 ?%stored_delete ?%stored_delete. by apply Cun.
Qed.

Lemma put_table_ok m d : catalog_ok m → catalog_ok (<[(TABLE_ID, table_row_key d) := encode_to_vec d]> m).
Proof. intros Hok. keep_rows Hok; [|by apply rows_put]. intros d1 d2. rewrite !stored_other by done. apply Cun. Qed.
Lemma put_group_ok m g : u64_ok (gd_id g) → catalog_ok m → catalog_ok (<[(GROUP_ID, group_row_key g) := encode_to_vec g]> m).
Proof. intros Hg Hok. keep_rows Hok; [|by apply rows_put]. intros d1 d2. rewrite !stored_other by done. apply Cun. Qed.
Lemma put_state_ok m s : catalog_ok m → catalog_ok (<[(REPLICA_STATE_ID, state_row_key s) := encode_to_vec s]> m).
Proof. intros Hok. keep_rows Hok; [|by apply rows_put]. intros d1 d2. rewrite !stored_other by done. apply Cun. Qed.
Lemma put_history_ok m j : catalog_ok m → catalog_ok (<[(JOB_HISTORY_ID, job_row_key j) := encode_to_vec j]> m).
Proof. intros Hok. keep_rows Hok; [|by apply rows_put]. intros d1 d2. rewrite !stored_other by done. apply Cun. Qed.
Lemma put_node_ok m n : 0 ≤ nd_id n < ctr META_NODE_ID_KEY m → catalog_ok m → catalog_ok (<[(NODE_ID, node_row_key n) := encode_to_vec n]> m).
Proof. intros Hn Hok. keep_rows Hok; [|by apply rows_put]. intros d1 d2. rewrite !stored_other by done. apply Cun. Qed.
Lemma put_job_ok m j : 0 ≤ bj_id j < ctr META_JOB_ID_KEY m → catalog_ok m → catalog_ok (<[(JOB_ID, job_row_key j) := encode_to_vec j]> m).
Proof. intros Hj Hok. keep_rows Hok; [|by apply rows_put]. intros d1 d2. rewrite !stored_other by done. apply Cun. Qed.
Lemma put_database_ok m d :
  0 ≤ db_id d < ctr META_DATABASE_ID_KEY m → (∀ d', stored DATABASE_ID database_key m d' → db_id d' ≠ db_id d) →
  catalog_ok m → catalog_ok (<[(DATABASE_ID, database_key d) := encode_to_vec d]> m).
Proof.
  intros Hd Hfresh Hok. keep_rows Hok; [by apply rows_put|]. unfold stored.
  assert (∀ x, encode_to_vec d = encode_to_vec x → x = d) as Hinj.
  { intros x Hx. apply (f_equal (decode_msg (A := DatabaseDesc))) in Hx. rewrite !decode_encode_msg in Hx. congruence. }
  intros d1 d2. rewrite !lookup_insert_Some. intros [[_ E1]|[_ E1]] [[_ E2]|[_ E2]] Heq.
  - by rewrite (Hinj d1 E1), (Hinj d2 E2).
  - apply Hinj in E1 as ->. by destruct (Hfresh d2).
  - apply Hinj in E2 as ->. by destruct (Hfresh d1).
  - by apply Cun.
Qed.

Lemma bumped_ok kind m m' id :
  kind ∈ kinds → bumped kind m m' id → catalog_ok m → ∀ n, roomy (n + 1) m → 0 ≤ n →
  catalog_ok m' ∧ roomy n m' ∧ (∀ kind, kind ∈ kinds → ctr kind m ≤ ctr kind m') ∧ ctr kind m' = id + 1 ∧ 0 ≤ id ∧
  ∀ d, stored DATABASE_ID database_key m' d ↔ stored DATABASE_ID database_key m d.
Proof.
  intros Hin [Hc ->] Hok n Hr Hn. destruct (Hr kind Hin) as (c & Hc' & Hpos & Hmax). rewrite Hc in Hc'. injection Hc' as <-.
  assert (u64_add id 1 = id + 1) as ->. { unfold u64_add. apply u64_wrap_small. unfold u64_ok. lia. }
  assert (u64_ok (id + 1)) as Hu by (unfold u64_ok; lia).
  set (m' := <[(META_ID, str_bytes kind) := u64_to_le_bytes (id + 1)]> m).
  assert (∀ kind', kind' ∈ kinds → ctr kind' m ≤ ctr kind' m') as Hgrow.
  { intros kind' _. unfold ctr, m'. rewrite counter_put by done. case_decide as E; [|done].
    assert (counter kind' m = Some id) as ->. { unfold counter in *. by rewrite E. } cbn. lia. }
  split_and!; try done.
  - destruct Hok as [Cdb Cun Ctb Cnd Cgr Crs Cjb Chi]. unfold m'. split; try (by apply rows_other).
    + apply rows_other; [done|]. eapply rows_mono; [done|]. intros d ?. specialize (Hgrow META_DATABASE_ID_KEY ltac:(set_solver)). unfold m' in *. lia.
    + intros d1 d2. rewrite !stored_other by done. apply Cun.
    + apply rows_other; [done|]. eapply rows_mono; [done|]. intros d ?. specialize (Hgrow META_NODE_ID_KEY ltac:(set_solver)). unfold m' in *. lia.
    + apply rows_other; [done|]. eapply rows_mono; [done|]. intros d ?. specialize (Hgrow META_JOB_ID_KEY ltac:(set_solver)). unfold m' in *. lia.
  - intros kind' Hk'. unfold m'. rewrite counter_put by done. case_decide; [exists (id + 1); split_and!; [done|lia..]|].
    destruct (Hr kind' Hk') as (c & ? & ? & ?). exists c. split_and!; [done|lia..].
  - unfold ctr, m'. rewrite counter_put by done. by rewrite decide_True.
  - intros d. unfold m'. by apply stored_other.
Qed.

(** ** The operations *)
Lemma get_as_runs {A} `{Codec A} t key P k msg m : is_unity_table t = true → CodecOk A → rows t key P m →
  runs kv (get_as (A := A) t k msg) m (λ r m', m' = m ∧
    match r with Ok (Some a) => k = key a ∧ stored t key m a ∧ P a | Ok None => m !! (t, k) = None | _ => True end).
Proof.
  intros Ht HC Hr. apply runs_bind. eapply runs_weaken; [by apply schema_get_runs|]. cbn. intros r m' [-> Hg].
  destruct r as [v|e|]; [|done..]. destruct Hg as [Hg|[= ->]]; [by destruct (Hg v)|].
  destruct (m !! (t, k)) as [v|] eqn:E; [|by apply runs_lift]. destruct (Hr k v E) as (a & -> & -> & HP).
  apply runs_bind, runs_lift. unfold decode_as. rewrite decode_encode_msg. cbn. apply runs_lift. split; [done|]. by split.
Qed.

Lemma create_database_runs d m n : catalog_ok m → roomy (n + 1) m → 0 ≤ n →
  runs kv (create_database d) m (λ r m', catalog_ok m' ∧ roomy n m' ∧ (∀ kind, kind ∈ kinds → ctr kind m ≤ ctr kind m') ∧
    ∀ d', r = Ok d' → db_name d' = db_name d ∧ m !! (DATABASE_ID, database_key d) = None ∧
      (∀ x, stored DATABASE_ID database_key m x → db_id x ≠ db_id d') ∧ stored DATABASE_ID database_key m' d').
Proof.
  intros Hok Hr Hn. pose proof (co_databases m Hok) as Hdb.
  assert (roomy n m) as Hrn by (eapply roomy_weaken; [|done]; lia).
  apply runs_bind. eapply runs_weaken; [by eapply get_as_runs|]. cbn. intros r m' [-> Hg]. destruct r as [[x|]|e|]; [..|done|done].
  { apply runs_lift. split_and!; try done. }
  apply runs_bind. eapply runs_weaken; [apply next_id_runs|]. cbn. intros r m' [[-> Hf]|(id & Hb & Hid)].
  { destruct r as [u|e|]; [by destruct (Hf u)|done..]. }
  destruct (bumped_ok META_DATABASE_ID_KEY _ _ _ ltac:(set_solver) Hb Hok n Hr Hn) as (Hok' & Hr' & Hgrow & Hctr & Hpos & Hst).
  destruct r as [u|e|]; [|split_and!; done..]. destruct Hid as [[= ->]|Hid]; [|by destruct (Hid u)].
  assert (∀ x, stored DATABASE_ID database_key m x → db_id x ≠ id) as Hfresh.
  { intros x Hx. destruct (Hdb _ _ Hx) as (y & Ey & _ & Hy). apply (f_equal (decode_msg (A := DatabaseDesc))) in Ey.
    rewrite !decode_encode_msg in Ey. injection Ey as ->. unfold ctr in Hy. rewrite (proj1 Hb) in Hy. cbn in Hy. lia. }
  set (d' := mkDatabaseDesc id (db_name d)).
  apply runs_bind. eapply runs_weaken; [by apply schema_put_runs|]. cbn. intros r m2 [->|[-> Hf]].
  2:{ destruct r as [u|e|]; [by destruct (Hf u)|split_and!; done..]. }
  assert (catalog_ok (<[(DATABASE_ID, database_key d') := encode_to_vec d']> m')) as Hok2.
  { apply put_database_ok; [unfold d'; cbn; lia| |done]. intros x Hx%Hst. by apply Hfresh. }
  assert (roomy n (<[(DATABASE_ID, database_key d') := encode_to_vec d']> m')) as Hr2 by (by apply roomy_other).
  assert (∀ kind, kind ∈ kinds → ctr kind m ≤ ctr kind (<[(DATABASE_ID, database_key d') := encode_to_vec d']> m')) as Hgrow2.
  { intros kind Hk. rewrite ctr_other by done. by apply Hgrow. }
  destruct r as [u'|e|]; [apply runs_lift|..]; (split_and!; [done..|]); [|done|done].
  intros x [= <-]. split_and!; try done. unfold stored. by rewrite lookup_insert_eq.
Qed.

Lemma put_safe t k v m : is_unity_table t = true → t ≠ META_ID → (catalog_ok m → catalog_ok (<[(t, k) := v]> m)) →
  runs kv (schema_put t k v) m (λ _, safe m).
Proof.
  intros Ht Hm Hok. eapply runs_weaken; [by apply schema_put_runs|]. cbn. intros r m' [->|[-> _]]; [by apply safe_put|done].
Qed.
Lemma delete_safe t k m : is_unity_table t = true → t ≠ META_ID → runs kv (schema_delete t k) m (λ _, safe m).
Proof. intros Ht Hm. eapply runs_weaken; [by apply schema_delete_runs|]. cbn. intros r m' [->|[-> _]]; [by apply safe_delete|done]. Qed.
Lemma bind_safe {A B} (p : M A) (k : A → M B) m :
  runs kv p m (λ _, safe m) → (∀ a m', safe m m' → runs kv (k a) m' (λ _, safe m')) → runs kv (prog_bind p k) m (λ _, safe m).
Proof.
  intros Hp Hk. apply runs_bind. eapply runs_weaken; [done|]. cbn. intros r m' Hs. destruct r as [a|e|]; [|done..].
  eapply runs_weaken; [by apply Hk|]. cbn. intros _ m2 ?. by etrans.
Qed.
Lemma set_txn_id_safe z m : runs kv (set_txn_id z) m (λ _, safe m).
Proof.
  eapply runs_weaken; [by apply schema_put_runs|]. cbn. intros r m' [->|[-> _]]; [|done].
  set (m' := <[_ := _]> m). assert (∀ kind, kind ∈ kinds → counter kind m' = counter kind m) as Hc.
  { intros kind Hk. unfold counter, m'. rewrite lookup_insert_ne; [done|]. intros [= E].
    repeat (apply elem_of_cons in Hk as [->|Hk]; [by vm_compute in E|]). by apply not_elem_of_nil in Hk. }
  assert (∀ kind, kind ∈ kinds → ctr kind m' = ctr kind m) as Hct by (intros kind Hk; unfold ctr; by rewrite Hc).
  split; [|intros n Hr kind Hk; rewrite Hc by done; by apply Hr|intros kind Hk; by rewrite Hct].
  intros Hok. unfold m' in *. destruct Hok as [Cdb Cun Ctb Cnd Cgr Crs Cjb Chi].
  split; rewrite ?Hct by set_solver; try (by apply rows_other). intros d1 d2. rewrite !stored_other by done. apply Cun.
Qed.

(** A step that may take one identifier. *)
Definition takes_one (m m' : contents) : Prop := ∀ n, catalog_ok m → roomy (n + 1) m → 0 ≤ n →
  catalog_ok m' ∧ roomy n m' ∧ ∀ kind, kind ∈ kinds → ctr kind m ≤ ctr kind m'.
Lemma safe_takes m m' : safe m m' → takes_one m m'.
Proof.
  intros [S1 S2 S3] n Hok Hr Hn. split_and!; [by auto| |done]. apply S2. eapply roomy_weaken; [|done]. lia.
Qed.
Lemma next_id_takes kind m : kind ∈ kinds → runs kv (next_id kind) m (λ _, takes_one m).
Proof.
  intros Hk. eapply runs_weaken; [apply next_id_runs|]. cbn. intros r m' [[-> _]|(id & Hb & _)]; [by apply safe_takes|].
  intros n Hok Hr Hn. destruct (bumped_ok kind m m' id Hk Hb Hok n Hr Hn) as (? & ? & ? & _). done.
Qed.
(** Take an identifier, then store a row with it. *)
Lemma next_id_put {A} kind t (k : Z → bytes) (v : Z → bytes) (ret : Z → A) m :
  kind ∈ kinds → is_unity_table t = true → t ≠ META_ID →
  (∀ id m', 0 ≤ id < ctr kind m' → catalog_ok m' → catalog_ok (<[(t, k id) := v id]> m')) →
  runs kv (let* id := next_id kind in do* schema_put t (k id) (v id) in prog_lift (Ok (ret id))) m (λ _, takes_one m).
Proof.
  intros Hk Ht Hm Hok. apply runs_bind. eapply runs_weaken; [apply next_id_runs|]. cbn. intros r m' [[-> Hf]|(id & Hb & Hid)].
  { destruct r as [u|e|]; [by destruct (Hf u)|by apply safe_takes..]. }
  assert (takes_one m m') as Hto.
  { intros n Ho Hr Hn. destruct (bumped_ok kind m m' id Hk Hb Ho n Hr Hn) as (? & ? & ? & _). done. }
  destruct r as [u|e|]; [|done..]. destruct Hid as [[= ->]|Hid]; [|by destruct (Hid u)].
  assert (takes_one m (<[(t, k id) := v id]> m')) as Hto2.
  { intros n Ho Hr Hn. destruct (bumped_ok kind m m' id Hk Hb Ho n Hr Hn) as (Ho' & Hr' & Hg & Hc & Hpos & _).
    destruct (safe_put m' t (k id) (v id) Hm) as [S1 S2 S3]; [intros; apply Hok; [lia|done]|].
    split_and!; [by auto..|]. intros kind' Hk'. etrans; [by apply Hg|by apply S3]. }
  apply runs_bind. eapply runs_weaken; [by apply schema_put_runs|]. cbn. intros r m2 [->|[-> _]].
  - destruct r; [apply runs_lift|..]; done.
  - destruct r; [apply runs_lift|..]; done.
Qed.
Lemma create_database_takes d m : runs kv (create_database d) m (λ _, takes_one m).
Proof.
  intros w r w' Hm E n Hok Hr Hn. destruct (create_database_runs d m n Hok Hr Hn w r w' Hm E) as (? & ? & ? & _). done.
Qed.
Lemma get_safe {A} `{Codec A} t k msg m : is_unity_table t = true → runs kv (get_as (A := A) t k msg) m (λ _ m', m' = m).
Proof.
  intros Ht. apply runs_bind. eapply runs_weaken; [by apply schema_get_runs|]. cbn. intros r m' [-> _]. destruct r as [[v|]|e|]; try done; [|by apply runs_lift].
  apply runs_bind, runs_lift. destruct (decode_as msg v); [by apply runs_lift|done..].
Qed.

(** *** The operations of the root, one after the other *)
Inductive catalog_step : W → W → Prop :=
  | cs_create_database d w r w' : create_database d w = Some (r, w') → catalog_step w w'
  | cs_delete_database d w r w' : delete_database d w = Some (r, w') → catalog_step w w'
  | cs_prepare_create_table d w r w' : prepare_create_table d w = Some (r, w') → catalog_step w w'
  | cs_create_table d w r w' : create_table d w = Some (r, w') → catalog_step w w'
  | cs_delete_table d w r w' : delete_table d w = Some (r, w') → catalog_step w w'
  | cs_add_node d w r w' : add_node d w = Some (r, w') → catalog_step w w'
  | cs_update_node d w r w' : 0 ≤ nd_id d < ctr META_NODE_ID_KEY (kv w) → update_node d w = Some (r, w') → catalog_step w w'
  | cs_delete_node id w r w' : delete_node id w = Some (r, w') → catalog_step w w'
  | cs_update_group_replica g s w r w' : (∀ d, g = Some d → u64_ok (gd_id d)) →
      update_group_replica g s w = Some (r, w') → catalog_step w w'
  | cs_remove_replica_state g s w r w' : remove_replica_state g s w = Some (r, w') → catalog_step w w'
  | cs_delete_group id w r w' : delete_group id w = Some (r, w') → catalog_step w w'
  | cs_append_job j w r w' : append_job j w = Some (r, w') → catalog_step w w'
  | cs_update_job j w r w' : 0 ≤ bj_id j < ctr META_JOB_ID_KEY (kv w) → update_job j w = Some (r, w') → catalog_step w w'
  | cs_remove_job j w r w' : remove_job j w = Some (r, w') → catalog_step w w'
  | cs_next_id kind w r w' : kind ∈ kinds → next_id kind w = Some (r, w') → catalog_step w w'
  | cs_set_txn_id z w r w' : set_txn_id z w = Some (r, w') → catalog_step w w'.

Lemma runs_elim {A} (p : M A) (Q : Result A → contents → Prop) w r w' : runs kv p (kv w) Q → p w = Some (r, w') → Q r (kv w').
Proof. intros Hp E. by eapply Hp. Qed.
Lemma catalog_step_takes w w' : catalog_step w w' → takes_one (kv w) (kv w').
Proof.
  intros St. destruct St as [d w r w' E|d w r w' E|d w r w' E|d w r w' E|d w r w' E|d w r w' E|d w r w' Hp E|id w r w' E|
    g s w r w' Hp E|g s w r w' E|id w r w' E|j w r w' E|j w r w' Hp E|j w r w' E|kind w r w' Hk E|z w r w' E].
  - eapply (runs_elim _ (λ _, takes_one (kv w))), E. apply create_database_takes.
  - apply safe_takes. eapply (runs_elim _ (λ _, safe (kv w))), E. apply bind_safe; [by apply delete_safe|]. intros. by apply runs_lift.
  - eapply (runs_elim _ (λ _, takes_one (kv w))), E. apply runs_bind. eapply runs_weaken; [by apply get_safe|]. cbn.
    intros [[t|]|e|] m' ->; try by apply safe_takes. { apply runs_lift. by apply safe_takes. }
    apply runs_bind. eapply runs_weaken; [by apply next_id_takes; set_solver|]. cbn. intros [id|e|] m' Ht; [by apply runs_lift|done..].
  - apply safe_takes. eapply (runs_elim _ (λ _, safe (kv w))), E. apply runs_bind. eapply runs_weaken; [by apply get_safe|]. cbn.
    intros [[t|]|e|] m' ->; try done; [by apply runs_lift|]. apply bind_safe; [by apply put_safe; [..|apply put_table_ok]|].
    intros. by apply runs_lift.
  - apply safe_takes. eapply (runs_elim _ (λ _, safe (kv w))), E. by apply delete_safe.
  - eapply (runs_elim _ (λ _, takes_one (kv w))), E. eapply (next_id_put META_NODE_ID_KEY NODE_ID u64_to_le_bytes); [set_solver|done..|].
    intros id m' Hid. by apply (put_node_ok m' (mkNodeDesc id (nd_addr d) (nd_capacity d) (nd_status d))).
  - apply safe_takes. eapply (runs_elim _ (λ _, safe (kv w))), E. apply put_safe; [done..|]. by apply put_node_ok.
  - apply safe_takes. eapply (runs_elim _ (λ _, safe (kv w))), E. by apply delete_safe.
  - apply safe_takes. eapply (runs_elim _ (λ _, safe (kv w))), E. apply bind_safe.
    + destruct s as [s|]; [|by apply runs_lift]. apply put_safe; [done..|]. apply put_state_ok.
    + intros _ m' _. destruct g as [g|]; [|by apply runs_lift]. apply put_safe; [done..|]. apply put_group_ok. by apply Hp.
  - apply safe_takes. eapply (runs_elim _ (λ _, safe (kv w))), E. by apply delete_safe.
  - apply safe_takes. eapply (runs_elim _ (λ _, safe (kv w))), E. by apply delete_safe.
  - eapply (runs_elim _ (λ _, takes_one (kv w))), E. eapply (next_id_put META_JOB_ID_KEY JOB_ID u64_to_le_bytes); [set_solver|done..|].
    intros id m' Hid. by apply (put_job_ok m' (mkBackgroundJob id (bj_job j))).
  - apply safe_takes. eapply (runs_elim _ (λ _, safe (kv w))), E. apply runs_bind. eapply runs_weaken; [by apply schema_get_runs|]. cbn.
    intros [[v|]|e|] m' [-> _]; try done; [|by apply runs_lift]. apply bind_safe; [by apply put_safe; [..|apply put_job_ok]|].
    intros. by apply runs_lift.
  - apply safe_takes. eapply (runs_elim _ (λ _, safe (kv w))), E. apply bind_safe; [by apply put_safe; [..|apply put_history_ok]|].
    intros _ m' _. by apply delete_safe.
  - eapply (runs_elim _ (λ _, takes_one (kv w))), E. by apply next_id_takes.
  - apply safe_takes. eapply (runs_elim _ (λ _, safe (kv w))), E. apply set_txn_id_safe.
Qed.

Lemma steps_take n m w w' : catalog_ok (kv w) → roomy (Z.of_nat n + m) (kv w) → 0 ≤ m → nsteps catalog_step n w w' →
  catalog_ok (kv w') ∧ roomy m (kv w') ∧ ∀ kind, kind ∈ kinds → ctr kind (kv w) ≤ ctr kind (kv w').
Proof.
  intros Hok Hr Hm St. revert Hok Hr. induction St as [w|n w w1 w2 St _ IH]; intros Hok Hr; [done|].
  destruct (catalog_step_takes w w1 St (Z.of_nat n + m) Hok) as (Hok1 & Hr1 & Hg1); [eapply roomy_weaken; [|done]; lia|lia|].
  destruct (IH Hok1 Hr1) as (Hok2 & Hr2 & Hg2). split_and!; try done. intros kind Hk. etrans; [by apply Hg1|by apply Hg2].
Qed.
Lemma next_id_ok kind w i w' n : kind ∈ kinds → catalog_ok (kv w) → roomy (n + 1) (kv w) → 0 ≤ n →
  next_id kind w = Some (Ok i, w') →
  i = ctr kind (kv w) ∧ ctr kind (kv w') = i + 1 ∧ catalog_ok (kv w') ∧ roomy n (kv w').
Proof.
  intros Hk Hok Hr Hn E. apply (next_id_runs kind (kv w)) in E as [[_ Hf]|(id & Hb & [[= ->]|Hf])]; [by destruct (Hf i)| |by destruct (Hf i)|done].
  destruct (bumped_ok kind _ _ id Hk Hb Hok n Hr Hn) as (? & ? & _ & ? & _). split_and!; try done.
  unfold ctr. by rewrite (proj1 Hb).
Qed.


(** ** Listing a table *)
Lemma decode_all_rows {A} `{Codec A, !CodecOk A} msg (l : list A) :
  decode_all msg (encode_to_vec <$> l) = Ok l.
Proof. induction l as [|a l IH]; cbn; [done|]. unfold decode_as. rewrite decode_encode_msg. cbn. by rewrite IH. Qed.
Lemma starts_with_nil k : starts_with k [] = true.
Proof. apply starts_with_spec. by exists k. Qed.
Lemma rows_decoded {A} `{Codec A, !CodecOk A} t key P m (l : list ((Z * bytes) * bytes)) :
  rows (A := A) t key P m → l ≡ₚ map_to_list (with_prefix t [] m) →
  ∃ l' : list A, l.*2 = encode_to_vec <$> l' ∧ NoDup (key <$> l') ∧ ∀ a, a ∈ l' ↔ stored t key m a.
Proof.
  intros Hr Hp.
  assert (∀ p, p ∈ l ↔ p.1.1 = t ∧ m !! p.1 = Some p.2) as Hl.
  { intros [[t' k] v]. rewrite Hp, elem_of_map_to_list. unfold with_prefix. rewrite map_lookup_filter_Some. cbn.
    rewrite starts_with_nil. naive_solver. }
  assert (NoDup l.*1) as Hnd by (rewrite Hp; apply NoDup_fst_map_to_list). clear Hp.
  assert (∃ l' : list A, l = (λ a, ((t, key a), encode_to_vec a)) <$> l') as [l' ->].
  { clear Hnd. assert (∀ p, p ∈ l → p.1.1 = t ∧ m !! p.1 = Some p.2) as Hl' by (intros p; apply Hl). clear Hl.
    induction l as [|[[t' k] v] l IH]; [by exists []|]. destruct IH as [l' ->]; [intros p Hp; apply Hl'; by right|].
    destruct (Hl' (t', k, v)) as [Ht Hk]; [by left|]. cbn in Ht, Hk. subst t'. destruct (Hr k v Hk) as (a & -> & -> & _). by exists (a :: l'). }
  exists l'. split_and!.
  - by rewrite <- list_fmap_compose.
  - rewrite <- list_fmap_compose in Hnd. cbn in Hnd. apply (NoDup_fmap_1 (pair t)). by rewrite <- list_fmap_compose.
  - intros a. unfold stored. split.
    + intros Ha. destruct (Hl ((t, key a), encode_to_vec a)) as [Hx _]. destruct Hx as [_ Hx]; [|done].
      by apply (list_elem_of_fmap_2 (λ a, ((t, key a), encode_to_vec a))).
    + intros Ha. assert (((t, key a), encode_to_vec a) ∈ (λ a, ((t, key a), encode_to_vec a)) <$> l') as Hin by (by apply (Hl ((t, key a), encode_to_vec a))).
      apply list_elem_of_fmap in Hin as (b & Hb & Hb'). injection Hb as _ Hb. apply (f_equal (decode_msg (A := A))) in Hb.
      rewrite !decode_encode_msg in Hb. by injection Hb as ->.
Qed.
Lemma list_as_runs {A} `{Codec A, !CodecOk A} t key P msg m : is_unity_table t = true → rows (A := A) t key P m →
  runs kv (list_as (A := A) msg (schema_list t)) m (λ r m', m' = m ∧
    (failed r ∨ ∃ l, r = Ok l ∧ NoDup (key <$> l) ∧ ∀ a, a ∈ l ↔ stored t key m a)).
Proof.
  intros Ht Hr. apply runs_bind. eapply runs_weaken; [by apply list_prefix_runs|]. cbn. intros r m' [-> Hl].
  destruct r as [vs|e|]; [|split; [done|by left]..]. destruct Hl as [Hl|(l & [= ->] & Hp)]; [by destruct (Hl vs)|].
  destruct (rows_decoded t key P m l Hr Hp) as (l' & -> & Hnd & Hin). apply runs_lift. split; [done|right]. exists l'. split; [|done].
  apply decode_all_rows.
Qed.
End Catalog.
