(* ===== verification/RootWatch.v ===== *)
(** * A client that watches the root can route

    The events of [Schema::list_all_events], applied by the client's router. *)

From S2P Require Import Prelude Bytes F64 Api Errors Schema Router GroupClient RocksDb Keys Engine EvalTxn.
From S2P Require Import RootStats RootSchema RootSchemaProps.
#[local] Open Scope Z_scope.

Section Watch.
  Context {W : Type} {RR : RootReplica W} {kv : W → contents} {OK : RootReplicaOk RR kv}.
  Context `{Codec DatabaseDesc, !CodecOk DatabaseDesc} `{Codec TableDesc, !CodecOk TableDesc} `{Codec NodeDesc, !CodecOk NodeDesc}.
  Context `{Codec GroupDesc, !CodecOk GroupDesc} `{Codec ReplicaState, !CodecOk ReplicaState} `{Codec BackgroundJob, !CodecOk BackgroundJob}.
  Context `{HashOrder}.

Lemma descs_app l1 l2 : descs (l1 ++ l2) = descs l1 ++ descs l2.
Proof. apply omap_app. Qed.
Lemma descs_other {A} (f : A → UpdateEvent) l : (∀ a, desc_of (f a) = None) → descs (f <$> l) = [].
Proof. intros Hf. induction l as [|a l IH]; cbn; [done|]. by rewrite Hf. Qed.
Lemma descs_groups l : descs (UGroup <$> l) = l.
Proof. induction l as [|a l IH]; cbn; [done|]. by f_equal. Qed.

(** The first response of a watch carries every group of the catalog once. *)
Lemma first_watch_groups m : catalog_ok m →
  runs kv (list_all_events ∅) m (λ r m', m' = m ∧ ∀ updates deletes, r = Ok (updates, deletes) →
    deletes = [] ∧ NoDup (gd_id <$> descs updates) ∧ ∀ g, g ∈ descs updates ↔ stored GROUP_ID group_row_key m g).
Proof.
  intros Hok. pose proof Hok as [Cdb _ Ctb Cnd Cgr Crs _ _].
  apply runs_bind. eapply runs_weaken; [by eapply list_as_runs|]. cbn. intros [ns|e|] m' [-> _]; [|by split..].
  apply runs_bind. eapply runs_weaken; [by eapply list_as_runs|]. cbn. intros [dbs|e|] m' [-> _]; [|by split..].
  apply runs_bind. eapply runs_weaken; [by eapply list_as_runs|]. cbn. intros [tbs|e|] m' [-> _]; [|by split..].
  apply runs_bind. eapply runs_weaken; [by eapply list_as_runs|]. cbn. intros [gs|e|] m' [-> Hgs]; [|by split..].
  destruct Hgs as [Hgs|(l & [= ->] & Hnd & Hin)]; [by destruct (Hgs gs)|].
  apply runs_bind. apply runs_bind. eapply runs_weaken; [by eapply list_as_runs|]. cbn. intros [sts|e|] m' [-> _]; [|by split..].
  apply runs_lift. apply runs_lift. split; [done|]. intros updates deletes [= <- <-].
  assert (NoDup (gd_id <$> l)) as Hnd'. { apply (NoDup_fmap_1 u64_to_le_bytes). by rewrite <- list_fmap_compose. }
  fold (collect gd_id l). set (changed := filter _ (collect gd_id l)).
  assert (changed = collect gd_id l) as ->. { apply map_filter_id. intros k g _. unfold is_changed. by rewrite lookup_empty. }
  assert (visit (∅ : gmap Z Z) = []) as ->. { apply Permutation_nil_r. by rewrite visit_perm, map_to_list_empty. }
  split; [done|]. rewrite !descs_app, !(descs_other UNode), !(descs_other UDatabase), !(descs_other UTable), !(descs_other UGroupState) by done.
  rewrite descs_groups. cbn. rewrite app_nil_r.
  assert ((visit (collect gd_id l)).*2 ≡ₚ l) as Hp.
  { rewrite visit_perm, collect_list by done. rewrite <- list_fmap_compose. cbn. by rewrite list_fmap_id. }
  rewrite Hp. split; [done|]. intros g. by rewrite Hp.
Qed.

(** Every shard is in one group, and the shards of a table are disjoint. *)
Record placed_once (m : contents) : Prop := {
  po_nodup : ∀ g, stored GROUP_ID group_row_key m g → NoDup (shard_ids g);
  po_once : ∀ g1 g2 s1 s2, stored GROUP_ID group_row_key m g1 → stored GROUP_ID group_row_key m g2 →
    s1 ∈ gd_shards g1 → s2 ∈ gd_shards g2 → sd_id s1 = sd_id s2 → g1 = g2;
  po_disjoint : ∀ g1 g2 s1 s2 k, stored GROUP_ID group_row_key m g1 → stored GROUP_ID group_row_key m g2 →
    s1 ∈ gd_shards g1 → s2 ∈ gd_shards g2 → sd_table_id s1 = sd_table_id s2 →
    belong_to s1 k = true → belong_to s2 k = true → s1 = s2 }.

Lemma distinct_history l : NoDup (gd_id <$> l) → (∀ g, g ∈ l → NoDup (shard_ids g)) →
  (∀ g1 g2 s1 s2, g1 ∈ l → g2 ∈ l → s1 ∈ gd_shards g1 → s2 ∈ gd_shards g2 → sd_id s1 = sd_id s2 → g1 = g2) → history_ok l.
Proof.
  intros Hnd Hsh Honce. split; [by apply Forall_forall|].
  induction l as [|g l IH]; [constructor|]. rewrite fmap_cons in Hnd. apply NoDup_cons in Hnd as [Hg Hnd].
  constructor; [apply IH; [done|intros; apply Hsh; by right|intros g1 g2 s1 s2 Hg1 Hg2; apply Honce; by right]|].
  apply Forall_forall. intros g' Hg'. assert (gd_id g ≠ gd_id g') as Hne.
  { intros Heq. apply Hg. rewrite Heq. by apply list_elem_of_fmap_2. }
  split; [done|]. apply Forall_forall. intros s1 Hs1. apply Forall_forall. intros s2 Hs2 Heq. exfalso. apply Hne.
  f_equal. eapply (Honce g g' s1 s2); [by left|by right|done..].
Qed.
Lemma same_id l g g' : NoDup (gd_id <$> l) → g ∈ l → g' ∈ l → gd_id g = gd_id g' → g = g'.
Proof.
  intros Hnd Hg Hg' Heq. assert (collect gd_id l !! gd_id g = Some g) as E by (by apply collect_lookup).
  assert (collect gd_id l !! gd_id g = Some g') as E' by (by apply collect_lookup). congruence.
Qed.
Lemma last_of_distinct l g : NoDup (gd_id <$> l) → g ∈ l → last_of (gd_id g) l = Some g.
Proof.
  intros Hnd Hg. unfold last_of. destruct (last_filter_is_Some (λ d, gd_id d = gd_id g) l g Hg eq_refl) as [g' Hl].
  rewrite Hl. apply last_filter_elem in Hl as [Heq Hg']. f_equal. by apply (same_id l).
Qed.

(** C24: A client that connects and watches the root can route every key: once
    it has applied the first response of the watch, a key of a shard that the
    catalog places is found in that shard, at the group that the catalog says
    owns it, with that group's epoch; and what the router finds is what the
    catalog says. *)
Theorem watch_then_route w updates deletes w' :
  catalog_ok (kv w) → placed_once (kv w) → list_all_events ∅ w = Some (Ok (updates, deletes), w') →
  let router := foldl apply_update_event State_default updates in
  (∀ g s k, stored GROUP_ID group_row_key (kv w) g → s ∈ gd_shards g → belong_to s k = true →
    ∃ gs, find_shard router (sd_table_id s) k = Ok (gs, s) ∧ rg_id gs = gd_id g ∧ rg_epoch gs = gd_epoch g) ∧
  (∀ t k gs s, find_shard router t k = Ok (gs, s) →
    ∃ g, stored GROUP_ID group_row_key (kv w) g ∧ s ∈ gd_shards g ∧ sd_table_id s = t ∧ belong_to s k = true ∧
      rg_id gs = gd_id g ∧ rg_epoch gs = gd_epoch g).
Proof.
  intros Hok [Hsh Honce Hdis] E router. apply (first_watch_groups (kv w) Hok) in E as [_ Hu]; [|done].
  destruct (Hu updates deletes eq_refl) as (_ & Hnd & Hin). set (h := descs updates) in *.
  assert (history_ok h) as Hh.
  { apply distinct_history; [done|intros g Hg; by apply Hsh, Hin|]. intros g1 g2 s1 s2 Hg1%Hin Hg2%Hin. by apply Honce. }
  assert (∀ t k gs s, find_shard router t k = Ok (gs, s) →
    ∃ g, stored GROUP_ID group_row_key (kv w) g ∧ s ∈ gd_shards g ∧ sd_table_id s = t ∧ belong_to s k = true ∧
      rg_id gs = gd_id g ∧ rg_epoch gs = gd_epoch g) as Hsound.
  { intros t k gs s Hf. apply (find_shard_sound h) in Hf as (d & Hd & Hs & Ht & Hb & He & _); [|done|by apply router_inv_run].
    apply last_filter_elem in Hd as [Hid Hd%Hin]. exists d. by split_and!. }
  split; [|done]. intros g s k Hg Hs Hb. assert (g ∈ h) as Hgh by (by apply Hin).
  destruct (find_shard_complete h router Hh (router_inv_run updates Hh) g s k) as (gs & Hf & Hid).
  - by apply last_of_distinct.
  - unfold last_mention. destruct (last_filter_is_Some (λ d, sd_id s ∈ shard_ids d) h g Hgh) as [g' Hl]; [by apply list_elem_of_fmap_2|].
    rewrite Hl. apply last_filter_elem in Hl as [Hm Hg']. f_equal. apply list_elem_of_fmap in Hm as (s' & Heq & Hs').
    symmetry. eapply Honce; [by apply Hin|by apply Hin|done|done|done].
  - done.
  - done.
  - intros d' s' Hd' Hs' Ht' Hb'. apply last_filter_elem in Hd' as [_ Hd'%Hin]. symmetry. by eapply (Hdis g d').
  - exists gs. split; [done|]. split; [done|]. destruct (Hsound _ _ _ _ Hf) as (g' & Hg' & _ & _ & _ & Hid' & He').
    assert (g' = g) as ->; [|done]. apply (same_id h); [done|by apply Hin|done|congruence].
Qed.
End Watch.
