(* ===== verification/Jobs.v ===== *)
(** * The background jobs of the root ([server/src/root/bg_job.rs])

    Creating a table or a group and purging a table or a database take many
    steps; a job keeps where it is, survives a change of the root's leader and
    is resumed by the next one. *)

From S2P Require Import Prelude Bytes F64 Api Errors Schema GroupClient ShardClient RocksDb Keys Engine EvalTxn.
From S2P Require Import RootStats RootSchema Allocator.
#[local] Open Scope Z_scope.

(** [JobCore] without the wakers. *)
Record JobCore := mkJobCore { mem_jobs : list BackgroundJob; res_locks : gset bytes; jobs_enable : bool }.

(** What the jobs need of the root. *)
Class JobEnv (W : Type) := {
  je_core : W → JobCore;
  je_set_core : JobCore → W → W;
  (** [root_shared.schema()]: only the leader has one *)
  je_schema : W → Result unit;
  (** the calls of other nodes *)
  je_create_shard : Z → ShardDesc → W → option (CResult unit * W);
  je_create_replica : string → Z → GroupDesc → prog W Error unit;
  je_remove_replica : string → Z → GroupDesc → prog W Error unit;
  je_schedule_heartbeat : list Z → W → W;
  (** waiting until a job is gone from memory *)
  je_wait_removed : Z → W → option W;
  je_now : W → Z;
  je_sleep : Z → W → W;
  (** texts for humans *)
  je_instant : W → string;
  je_debug : Error → string;
}.

Section Jobs.
  Context {W : Type} {RR : RootReplica W} {AE : AllocEnv W} {JE : JobEnv W} `{HashOrder} (cfg : RootConfig).
  Context `{Codec DatabaseDesc} `{Codec TableDesc} `{Codec NodeDesc} `{Codec GroupDesc} `{Codec ReplicaState} `{Codec BackgroundJob}.
  Abbreviation M := (prog W Error).

Definition modify_core (f : JobCore → JobCore) : M unit := λ w, Some (Ok tt, je_set_core (f (je_core w)) w).
Definition set_mem_jobs (f : list BackgroundJob → list BackgroundJob) (c : JobCore) : JobCore :=
  mkJobCore (f (mem_jobs c)) (res_locks c) (jobs_enable c).
Definition set_res_locks (f : gset bytes → gset bytes) (c : JobCore) : JobCore :=
  mkJobCore (mem_jobs c) (f (res_locks c)) (jobs_enable c).
Definition set_enable (b : bool) (c : JobCore) : JobCore := mkJobCore (mem_jobs c) (res_locks c) b.
Definition schema : M unit := prog_reads je_schema.

(** ** [JobCore] *)
Definition check_root_leader : M unit :=
  prog_reads (λ w, if jobs_enable (je_core w) then Ok tt else Err (NotRootLeader (mkRootDesc 0 []) 0 None)).
Definition res_key (job : BackgroundJob) : Result (option bytes) :=
  let? j := expect (bj_job job) in
  Ok (match j with
      | JCreateTable job => Some (u64_to_le_bytes (ct_database job) ++ str_bytes (ct_table_name job))
      | JPurgeTable job => Some (u64_to_le_bytes (pt_database_id job) ++ str_bytes (pt_table_name job))
      | JCreateOneGroup _ | JPurgeDatabase _ => None
      end).
Definition try_lock_res (key : bytes) : M bool := λ w,
  Some (Ok (bool_decide (key ∉ res_locks (je_core w))), je_set_core (set_res_locks (λ s, {[key]} ∪ s) (je_core w)) w).
Definition unlock_res (key : bytes) : M unit := modify_core (set_res_locks (λ s, s ∖ {[key]})).
Fixpoint res_keys (jobs : list BackgroundJob) : Result (gset bytes) :=
  match jobs with
  | [] => Ok ∅
  | job :: jobs' =>
      let? k := res_key job in let? s := res_keys jobs' in
      Ok (match k with Some k => {[k]} ∪ s | None => s end)
  end.
Definition recovery : M unit :=
  do* schema in
  let* jobs := list_job in
  do* modify_core (set_mem_jobs (λ _, jobs)) in
  let* locks := prog_lift (res_keys jobs) in
  modify_core (set_res_locks (λ _, locks)).
Definition core_append (job : BackgroundJob) : M BackgroundJob :=
  do* schema in
  let* key := prog_lift (res_key job) in
  let* locked := match key with Some k => try_lock_res k | None => prog_lift (Ok true) end in
  if negb (locked : bool) then prog_lift (Err (AlreadyExists "job for target resource already exist"))
  else
    let* job := append_job job in
    do* modify_core (set_mem_jobs (λ l, l ++ [job])) in
    prog_lift (Ok job).
Definition core_finish (job : BackgroundJob) : M unit :=
  do* schema in
  do* remove_job job in
  do* modify_core (set_mem_jobs (List.filter (λ j, negb (bj_id j =? bj_id job)))) in
  let* key := prog_lift (res_key job) in
  match key with Some k => unlock_res k | None => prog_lift (Ok tt) end.
(** The first job with the identifier is replaced. *)
Fixpoint replace_job (job : BackgroundJob) (l : list BackgroundJob) : list BackgroundJob :=
  match l with
  | [] => []
  | j :: l' => if bj_id j =? bj_id job then job :: l' else j :: replace_job job l'
  end.
Definition core_update (job : BackgroundJob) : M unit :=
  do* schema in
  let* updated := update_job job in
  if (updated : bool) then modify_core (set_mem_jobs (replace_job job)) else prog_lift (Ok tt).
Definition get_history (id : Z) : M (option BackgroundJob) := do* schema in get_job_history id.
Definition wait_and_check_result (id : Z) : M unit := λ w,
  match je_wait_removed id w with
  | None => None
  | Some w =>
      (let* job := get_history id in
       match job with
       | None => do* check_root_leader in prog_lift Panic
       | Some job =>
           let* j := prog_lift (expect (bj_job job)) in
           match j with
           | JCreateTable job =>
               let* status := prog_lift (expect (CreateTableJobStatus_from_i32 (ct_status job))) in
               match status with
               | CtFinish => prog_lift (Ok tt)
               | CtAbort => prog_lift (Err (InvalidArgument ("create table fail " +:+ ct_remark job)))
               | _ => prog_lift Panic
               end
           | JCreateOneGroup job =>
               let* status := prog_lift (expect (CreateOneGroupStatus_from_i32 (cg_status job))) in
               match status with
               | CgFinish => prog_lift (Ok tt)
               | CgAbort => prog_lift (Err (InvalidArgument "create group fail"))
               | _ => prog_lift Panic
               end
           | _ => prog_lift Panic
           end
       end) w
  end.

Definition submit (job : BackgroundJob) (wait_result : bool) : M unit :=
  do* check_root_leader in
  let* job := core_append job in
  if wait_result then wait_and_check_result (bj_id job) else prog_lift (Ok tt).
Definition on_step_leader : M unit := do* recovery in modify_core (set_enable true).
Definition on_drop_leader : M unit := modify_core (λ c, set_res_locks (λ _, ∅) (set_enable false c)).

(** *** Submitting *)
Definition submit_purge_database_job (database_id : Z) (database_name : string) : M unit := λ w,
  submit (mkBackgroundJob 0 (Some (JPurgeDatabase (mkPurgeDatabaseJob database_id database_name (je_instant w))))) false w.
Definition submit_create_table_job (table : TableDesc) (wait_create : list ShardDesc) : M unit :=
  submit (mkBackgroundJob 0 (Some (JCreateTable (mkCreateTableJob (tb_db table) (tb_name table) wait_create []
    (CreateTableJobStatus_i32 CtCreating) "" (Some table) "")))) true.
Definition submit_purge_table_job (db : DatabaseDesc) (table : TableDesc) : M unit := λ w,
  submit (mkBackgroundJob 0 (Some (JPurgeTable (mkPurgeTableJob (db_id db) (tb_id table) (db_name db) (tb_name table)
    (je_instant w))))) false w.
Definition submit_create_group_job : M unit :=
  submit (mkBackgroundJob 0 (Some (JCreateOneGroup (mkCreateOneGroupJob (replicas_per_group cfg) [] [] None
    (CreateOneGroupStatus_i32 CgInit) 0 [] "")))) true.

(** ** Creating a table *)
Definition try_create_shard (rounds : nat) (group_id : Z) (desc : ShardDesc) : M unit := λ w,
  match retry_op je_now je_sleep rounds (je_create_shard group_id desc) (with_deadline_opt (Some (je_now w + 10000))) w with
  | None => None
  | Some (Ok u, w) => Some (Ok u, w)
  | Some (Err e, w) => Some (from_client_error "" e, w)
  | Some (Panic, w) => Some (Panic, w)
  end.
Definition ct_set (ct : CreateTableJob) (wait_create wait_cleanup : list ShardDesc) (status : CreateTableJobStatus) (remark : string) :
    CreateTableJob :=
  mkCreateTableJob (ct_database ct) (ct_table_name ct) wait_create wait_cleanup (CreateTableJobStatus_i32 status) remark
    (ct_desc ct) (ct_created_time ct).
Definition save_create_table (job_id : Z) (ct : CreateTableJob) : M unit :=
  core_update (mkBackgroundJob job_id (Some (JCreateTable ct))).
(** [todo] is what [pop] still takes, in that order; the job is in status
    [Creating]. *)
Fixpoint create_shards (rounds : nat) (job_id : Z) (todo : list ShardDesc) (ct : CreateTableJob) : M CreateTableJob :=
  match todo with
  | [] =>
      let ct := ct_set ct [] (ct_wait_cleanup ct) CtWriteDesc (ct_remark ct) in
      do* save_create_table job_id ct in prog_lift (Ok ct)
  | shard :: todo' =>
      let* groups := place_group_for_shard 1 in
      match head groups with
      | None => prog_lift (Err (ResourceExhausted "no enough groups"))
      | Some group => λ w,
          match try_create_shard rounds (gd_id group) shard w with
          | None => None
          | Some (Panic, w) => Some (Panic, w)
          | Some (Err err, w) =>
              let ct := ct_set ct (rev todo') (ct_wait_cleanup ct ++ [shard]) CtRollbacking (je_debug err) in
              (do* save_create_table job_id ct in prog_lift (Ok ct)) w
          | Some (Ok _, w) =>
              let ct := ct_set ct (rev todo') (ct_wait_cleanup ct ++ [shard]) CtCreating (ct_remark ct) in
              (do* save_create_table job_id ct in create_shards rounds job_id todo' ct) w
          end
      end
  end.
Definition handle_wait_create_shard (rounds : nat) (job_id : Z) (ct : CreateTableJob) : M CreateTableJob :=
  create_shards rounds job_id (rev (ct_wait_create ct)) ct.
Definition handle_write_desc (job_id : Z) (ct : CreateTableJob) : M CreateTableJob :=
  do* schema in
  let* desc := prog_lift (expect (ct_desc ct)) in
  do* create_table desc in
  let ct := ct_set ct (ct_wait_create ct) (ct_wait_cleanup ct) CtFinish (ct_remark ct) in
  do* save_create_table job_id ct in prog_lift (Ok ct).
Fixpoint cleanup_shards (job_id : Z) (todo : list ShardDesc) (ct : CreateTableJob) : M CreateTableJob :=
  match todo with
  | [] =>
      let ct := ct_set ct (ct_wait_create ct) [] CtAbort (ct_remark ct) in
      do* save_create_table job_id ct in prog_lift (Ok ct)
  | _ :: todo' =>
      let ct := ct_set ct (ct_wait_create ct) (rev todo') CtRollbacking (ct_remark ct) in
      do* save_create_table job_id ct in cleanup_shards job_id todo' ct
  end.
Definition handle_wait_cleanup_shard (job_id : Z) (ct : CreateTableJob) : M CreateTableJob :=
  cleanup_shards job_id (rev (ct_wait_cleanup ct)) ct.
Definition handle_finish_create_table (job : BackgroundJob) (ct : CreateTableJob) : M unit :=
  core_finish (mkBackgroundJob (bj_id job) (Some (JCreateTable ct))).
Fixpoint handle_create_table (fuel rounds : nat) (job : BackgroundJob) (ct : CreateTableJob) : M unit :=
  match fuel with
  | O => λ _, None
  | S fuel' =>
      let* status := prog_lift (expect (CreateTableJobStatus_from_i32 (ct_status ct))) in
      match status with
      | CtCreating => let* ct := handle_wait_create_shard rounds (bj_id job) ct in handle_create_table fuel' rounds job ct
      | CtRollbacking => let* ct := handle_wait_cleanup_shard (bj_id job) ct in handle_create_table fuel' rounds job ct
      | CtWriteDesc => let* ct := handle_write_desc (bj_id job) ct in handle_create_table fuel' rounds job ct
      | CtFinish | CtAbort => handle_finish_create_table job ct
      end
  end.

(** ** Creating a group *)
Definition cg_set_status (cg : CreateOneGroupJob) (s : CreateOneGroupStatus) : CreateOneGroupJob :=
  mkCreateOneGroupJob (cg_request_replica_cnt cg) (cg_wait_create cg) (cg_wait_cleanup cg) (cg_group_desc cg)
    (CreateOneGroupStatus_i32 s) (cg_create_retry cg) (cg_invoked_nodes cg) (cg_created_time cg).
Definition cg_set_waits (cg : CreateOneGroupJob) (wait_create : list NodeDesc) (wait_cleanup : list ReplicaDesc) : CreateOneGroupJob :=
  mkCreateOneGroupJob (cg_request_replica_cnt cg) wait_create wait_cleanup (cg_group_desc cg)
    (cg_status cg) (cg_create_retry cg) (cg_invoked_nodes cg) (cg_created_time cg).
Definition cg_bump_retry (cg : CreateOneGroupJob) : CreateOneGroupJob :=
  mkCreateOneGroupJob (cg_request_replica_cnt cg) (cg_wait_create cg) (cg_wait_cleanup cg) (cg_group_desc cg)
    (cg_status cg) (u64_add (cg_create_retry cg) 1) (cg_invoked_nodes cg) (cg_created_time cg).
Definition save_create_group (job_id : Z) (cg : CreateOneGroupJob) : M unit :=
  core_update (mkBackgroundJob job_id (Some (JCreateOneGroup cg))).
Definition check_is_already_meet_requirement (job_id : Z) (cg : CreateOneGroupJob) : M (bool * CreateOneGroupJob) :=
  match cg_group_desc cg with
  | None => prog_lift (Ok (false, cg))
  | Some g =>
      let* replicas := group_replica_states (gd_id g) in
      if Z.of_nat (length replicas) <? cg_request_replica_cnt cg then prog_lift (Ok (false, cg))
      else
        let cg := cg_set_status cg CgRollbacking in
        do* save_create_group job_id cg in prog_lift (Ok (true, cg))
  end.
Fixpoint new_replicas (ns : list NodeDesc) : M (list ReplicaDesc) :=
  match ns with
  | [] => prog_lift (Ok [])
  | n :: ns' =>
      let* id := next_replica_id in
      let* l := new_replicas ns' in
      prog_lift (Ok (mkReplicaDesc id (nd_id n) (ReplicaRole_i32 Voter) :: l))
  end.
Definition handle_init_create_group_replicas (job_id : Z) (cg : CreateOneGroupJob) : M CreateOneGroupJob :=
  do* schema in
  let* ' (met, cg) := check_is_already_meet_requirement job_id cg in
  if (met : bool) then prog_lift (Ok cg)
  else
    let* ns := alloc_group_replica [] (Z.to_nat (cg_request_replica_cnt cg)) in
    let* group_id := next_group_id in
    let* replicas := new_replicas ns in
    let cg := mkCreateOneGroupJob (cg_request_replica_cnt cg) ns (cg_wait_cleanup cg)
      (Some (mkGroupDesc group_id INITIAL_EPOCH [] replicas)) (CreateOneGroupStatus_i32 CgCreating)
      (cg_create_retry cg) (cg_invoked_nodes cg) (cg_created_time cg) in
    do* save_create_group job_id cg in prog_lift (Ok cg).
(** [todo] is what [pop] still takes of the local copy of [wait_create]. *)
Fixpoint create_replicas (job_id : Z) (group_desc : GroupDesc) (todo : list NodeDesc) (undo : list ReplicaDesc)
    (cg : CreateOneGroupJob) : M CreateOneGroupJob :=
  match todo with
  | [] =>
      let cg := cg_set_status cg CgFinish in
      do* save_create_group job_id cg in prog_lift (Ok cg)
  | n :: todo' =>
      let* replica := prog_lift (expect (List.find (λ r, rd_node_id r =? nd_id n) (gd_replicas group_desc))) in
      λ w,
      match je_create_replica (nd_addr n) (rd_id replica) group_desc w with
      | None => None
      | Some (Panic, w) => Some (Panic, w)
      | Some (Err _, w) =>
          let cg := if cg_create_retry cg <? 20 then cg_bump_retry cg else cg_set_status cg CgRollbacking in
          (do* save_create_group job_id cg in create_replicas job_id group_desc todo' undo cg) w
      | Some (Ok _, w) =>
          let undo := undo ++ [replica] in
          let cg := cg_set_waits cg (rev todo') undo in
          (do* save_create_group job_id cg in create_replicas job_id group_desc todo' undo cg) w
      end
  end.
Definition handle_wait_create_group_replicas (job_id : Z) (cg : CreateOneGroupJob) : M CreateOneGroupJob :=
  do* schema in
  let* ' (met, cg) := check_is_already_meet_requirement job_id cg in
  if (met : bool) then prog_lift (Ok cg)
  else
    let* group_desc := prog_lift (expect (cg_group_desc cg)) in
    create_replicas job_id group_desc (rev (cg_wait_create cg)) [] cg.
Definition try_remove_replica (group replica : Z) : M unit :=
  do* schema in
  let* rs := get_replica_state group replica in
  let* rs := prog_lift (ok_or rs (AbortScheduleTask "source replica already has be destroyed")) in
  let* node := get_node (rs_node_id rs) in
  let* node := prog_lift (ok_or node (AbortScheduleTask "source node not exist")) in
  do* je_remove_replica (nd_addr node) replica (mkGroupDesc group 0 [] []) in
  remove_replica_state group replica.
Fixpoint rollback_replicas (job_id : Z) (todo : list ReplicaDesc) (cg : CreateOneGroupJob) : M CreateOneGroupJob :=
  match todo with
  | [] =>
      let cg := cg_set_status cg CgAbort in
      do* save_create_group job_id cg in prog_lift (Ok cg)
  | r :: todo' =>
      let* group := prog_lift (expect (cg_group_desc cg)) in
      λ w,
      match try_remove_replica (gd_id group) (rd_id r) w with
      | None => None
      | Some (Panic, w) => Some (Panic, w)
      | Some (Err err, w) =>
          (do* save_create_group job_id (cg_set_waits cg (cg_wait_create cg) (rev todo')) in prog_lift (Err err)) w
      | Some (Ok _, w) => rollback_replicas job_id todo' cg w
      end
  end.
Definition handle_rollback_group_replicas (job_id : Z) (cg : CreateOneGroupJob) : M CreateOneGroupJob :=
  rollback_replicas job_id (rev (cg_wait_cleanup cg)) cg.
Definition handle_finish_create_group (job : BackgroundJob) (cg : CreateOneGroupJob) : M unit :=
  let* status := prog_lift (expect (CreateOneGroupStatus_from_i32 (cg_status cg))) in
  λ w,
  let w := match status with CgFinish => je_schedule_heartbeat (cg_invoked_nodes cg) w | _ => w end in
  core_finish (mkBackgroundJob (bj_id job) (Some (JCreateOneGroup cg))) w.
Fixpoint handle_create_one_group (fuel : nat) (job : BackgroundJob) (cg : CreateOneGroupJob) : M unit :=
  match fuel with
  | O => λ _, None
  | S fuel' =>
      let* status := prog_lift (expect (CreateOneGroupStatus_from_i32 (cg_status cg))) in
      match status with
      | CgInit => let* cg := handle_init_create_group_replicas (bj_id job) cg in handle_create_one_group fuel' job cg
      | CgCreating => let* cg := handle_wait_create_group_replicas (bj_id job) cg in handle_create_one_group fuel' job cg
      | CgRollbacking => let* cg := handle_rollback_group_replicas (bj_id job) cg in handle_create_one_group fuel' job cg
      | CgFinish | CgAbort => handle_finish_create_group job cg
      end
  end.

(** ** Purging *)
(** [try_remove_shard] does nothing yet. *)
Definition handle_purge_table (job : BackgroundJob) (pt : PurgeTableJob) : M unit :=
  do* schema in
  do* get_table_shards (pt_table_id pt) in
  core_finish job.
Fixpoint purge_tables (todo : list TableDesc) : M unit :=
  match todo with
  | [] => prog_lift (Ok tt)
  | co :: todo' => λ w,
      let job := mkBackgroundJob 0 (Some (JPurgeTable (mkPurgeTableJob (tb_db co) (tb_id co) "" (tb_name co) (je_instant w)))) in
      match submit job false w with
      | None => None
      | Some (Panic, w) => Some (Panic, w)
      | Some (Ok _, w) | Some (Err (AlreadyExists _), w) => (do* delete_table co in purge_tables todo') w
      | Some (Err err, w) => Some (Err err, w)
      end
  end.
Definition handle_purge_database (job : BackgroundJob) (pd : PurgeDatabaseJob) : M unit :=
  do* schema in
  let* tables := list_database_tables (pd_database_id pd) in
  do* purge_tables (rev tables) in
  core_finish job.

(** ** One round over the jobs in memory *)
Definition handle_job (fuel rounds : nat) (job : BackgroundJob) : M unit :=
  let* j := prog_lift (expect (bj_job job)) in
  match j with
  | JCreateTable ct => handle_create_table fuel rounds job ct
  | JCreateOneGroup cg => handle_create_one_group fuel job cg
  | JPurgeTable pt => handle_purge_table job pt
  | JPurgeDatabase pd => handle_purge_database job pd
  end.
Fixpoint handle_jobs (fuel rounds : nat) (jobs : list BackgroundJob) : M unit :=
  match jobs with
  | [] => prog_lift (Ok tt)
  | job :: jobs' => do* handle_job fuel rounds job in handle_jobs fuel rounds jobs'
  end.
Definition advance_jobs (fuel rounds : nat) : M unit := λ w, handle_jobs fuel rounds (mem_jobs (je_core w)) w.
End Jobs.
