(* ===== verification/JobsProps.v ===== *)
(** * What a table-creation job leaves behind *)

From S2P Require Import Prelude Bytes F64 Api Errors Schema GroupClient ShardClient RocksDb Keys Engine EvalTxn.
From S2P Require Import RootStats RootSchema RootSchemaProps Allocator Jobs.
#[local] Open Scope Z_scope.

(** [placed w] lists the shards that groups have acknowledged. *)
Class JobEnvOk {W : Type} {RR : RootReplica W} {AE : AllocEnv W} {JE : JobEnv W} (kv : W → contents)
    (placed : W → list (Z * ShardDesc)) := {
  jo_execute : ∀ c req w r w', rr_execute c req w = Some (r, w') → placed w' = placed w;
  jo_set_core : ∀ c w, kv (je_set_core c w) = kv w ∧ placed (je_set_core c w) = placed w;
  jo_refresh : ∀ w r w', ae_refresh_all w = Some (r, w') → kv w' = kv w ∧ placed w' = placed w;
  jo_sleep : ∀ t w, kv (je_sleep t w) = kv w ∧ placed (je_sleep t w) = placed w;
  jo_create_shard : ∀ g s w r w', je_create_shard g s w = Some (r, w') →
    kv w' = kv w ∧ placed w ⊆ placed w' ∧ (r = Ok tt → (g, s) ∈ placed w');
}.

Section Outcome.
  Context {W : Type} {RR : RootReplica W} {AE : AllocEnv W} {JE : JobEnv W} `{HashOrder}.
  Context {kv : W → contents} {placed : W → list (Z * ShardDesc)} {OK : RootReplicaOk RR kv} {JO : JobEnvOk kv placed}.
  Context `{Codec TableDesc, !CodecOk TableDesc} `{Codec BackgroundJob, !CodecOk BackgroundJob}.
  Abbreviation M := (prog W Error).

(** ** Programs on the catalog and the acknowledged shards *)
Abbreviation view := (contents * list (Z * ShardDesc))%type.
Definition view_of (w : W) : view := (kv w, placed w).
Definition does {A : Type} (p : M A) (v : view) (Q : Result A → view → Prop) : Prop :=
  ∀ w r w', view_of w = v → p w = Some (r, w') → Q r (view_of w').
Lemma does_lift {A} (a : Result A) v Q : Q a v → does (prog_lift a) v Q.
Proof. intros HQ w r w' Hv [= <- <-]. by rewrite Hv. Qed.
Lemma does_bind {A B} (p : M A) (k : A → M B) v Q :
  does p v (λ r v', match r with Ok a => does (k a) v' Q | Err e => Q (Err e) v' | Panic => Q Panic v' end) →
  does (prog_bind p k) v Q.
Proof.
  intros Hp w r w' Hv E. unfold prog_bind in E. destruct (p w) as [[[a|e|] w1]|] eqn:Ep; [| | |done];
    specialize (Hp w _ w1 Hv Ep); cbn in Hp; [by apply (Hp w1 r w' eq_refl)|by injection E as <- <-..].
Qed.
Lemma does_weaken {A} (p : M A) v (Q Q' : Result A → view → Prop) :
  does p v Q → (∀ r v', Q r v' → Q' r v') → does p v Q'.
Proof. intros Hp HQ w r w' Hv E. by eapply HQ, Hp. Qed.

(** The programs of the catalog leave the shards alone. *)
Definition calm {A : Type} (p : M A) : Prop := ∀ w r w', p w = Some (r, w') → placed w' = placed w.
Lemma calm_lift {A} (a : Result A) : calm (prog_lift a).
Proof. intros w r w' [= <- <-]. done. Qed.
Lemma calm_reads {A} (f : W → Result A) : calm (prog_reads f).
Proof. intros w r w' [= <- <-]. done. Qed.
Lemma calm_bind {A B} (p : M A) (k : A → M B) : calm p → (∀ a, calm (k a)) → calm (prog_bind p k).
Proof.
  intros Hp Hk w r w' E. unfold prog_bind in E. destruct (p w) as [[[a|e|] w1]|] eqn:Ep; [| | |done]; apply Hp in Ep.
  - apply Hk in E. congruence.
  - by injection E as <- <-.
  - by injection E as <- <-.
Qed.
Lemma calm_submit req : calm (submit_request req).
Proof. intros w r w' E. by apply (jo_execute (JobEnvOk := JO)) in E. Qed.
Lemma does_runs {A} (p : M A) m pl Q : calm p → runs kv p m (λ r m', Q r (m', pl)) → does p (m, pl) Q.
Proof.
  intros Hc Hr w r w' [= Hm Hp] E. unfold view_of. rewrite (Hc _ _ _ E), Hp. by apply (Hr w).
Qed.
Ltac calm_tac := repeat (first [apply calm_lift|apply calm_reads|apply calm_submit|apply calm_bind; [|intros]|progress case_match]).
Lemma calm_get t k : calm (schema_get t k). Proof. unfold schema_get, store_get. calm_tac. Qed.
Lemma calm_put t k v : calm (schema_put t k v). Proof. unfold schema_put, store_put. calm_tac. Qed.
Lemma calm_delete t k : calm (schema_delete t k). Proof. unfold schema_delete, store_delete. calm_tac. Qed.
Lemma does_get t k m pl : is_unity_table t = true →
  does (schema_get t k) (m, pl) (λ r v, v = (m, pl) ∧ (failed r ∨ r = Ok (m !! (t, k)))).
Proof.
  intros Ht. apply does_runs; [apply calm_get|]. eapply runs_weaken; [by apply schema_get_runs|]. cbn. intros r m' [-> ?]. done.
Qed.
Lemma does_put t k b m pl : is_unity_table t = true →
  does (schema_put t k b) (m, pl) (λ r v, v = (<[(t, k) := b]> m, pl) ∨ (v = (m, pl) ∧ failed r)).
Proof.
  intros Ht. apply does_runs; [apply calm_put|]. eapply runs_weaken; [by apply schema_put_runs|]. cbn.
  intros r m' [->|[-> ?]]; by auto.
Qed.
Lemma does_delete t k m pl : is_unity_table t = true →
  does (schema_delete t k) (m, pl) (λ r v, v = (delete (t, k) m, pl) ∨ (v = (m, pl) ∧ failed r)).
Proof.
  intros Ht. apply does_runs; [apply calm_delete|]. eapply runs_weaken; [by apply schema_delete_runs|]. cbn.
  intros r m' [->|[-> ?]]; by auto.
Qed.
Lemma does_modify f v : does (modify_core f) v (λ r v', v' = v ∧ r = Ok tt).
Proof.
  intros w r w' <- [= <- <-]. split; [|done]. unfold view_of. destruct (jo_set_core (f (je_core w)) w) as [-> ->]. done.
Qed.
Lemma does_schema v : does schema v (λ _ v', v' = v).
Proof. intros w r w' <- [= <- <-]. done. Qed.

(** ** The steps of the job *)
(** Everything but the job tables is as before. *)
Definition same_tables (m m' : contents) : Prop := ∀ t k, t ≠ JOB_ID → t ≠ JOB_HISTORY_ID → m' !! (t, k) = m !! (t, k).
#[local] Instance same_tables_preorder : PreOrder same_tables.
Proof. split; [done|]. intros m1 m2 m3 E1 E2 t k ??. by rewrite E2, E1. Qed.
Lemma same_put t k v m : t = JOB_ID ∨ t = JOB_HISTORY_ID → same_tables m (<[(t, k) := v]> m).
Proof. intros Ht t' k' ??. apply lookup_insert_ne. intros [= -> ->]. by destruct Ht. Qed.
Lemma save_does job_id ct m pl :
  does (save_create_table job_id ct) (m, pl) (λ _ v, same_tables m v.1 ∧ v.2 = pl).
Proof.
  apply does_bind. eapply does_weaken; [apply does_schema|]. cbn. intros [u|e|] v ->; [|done..].
  apply does_bind. apply does_bind. eapply does_weaken; [by apply does_get|]. cbn. intros [[b|]|e|] v [-> _]; [|by apply does_lift; cbn; apply does_lift|done..].
  apply does_bind. eapply does_weaken; [by apply does_put|]. cbn. intros r v Hv.
  assert (same_tables m v.1 ∧ v.2 = pl) as Hs. { destruct Hv as [->|[-> _]]; [|done]. cbn. split; [|done]. apply same_put. by left. }
  destruct r as [u'|e|]; [|done..]. apply does_lift. cbn. eapply does_weaken; [apply does_modify|]. cbn. by intros r' v' [-> _].
Qed.
Lemma retry_does rounds g s t v :
  does (λ w, match retry_op je_now je_sleep rounds (je_create_shard g s) t w with
             | None => None
             | Some (Ok u, w) => Some (Ok u, w)
             | Some (Err e, w) => Some (from_client_error "" e, w)
             | Some (Panic, w) => Some (Panic, w)
             end) v (λ r v', v'.1 = v.1 ∧ v.2 ⊆ v'.2 ∧ (r = Ok tt → (g, s) ∈ v'.2)).
Proof.
  intros w r w' <-. revert t w. induction rounds as [|n IH]; intros t w; [done|]. cbn [retry_op].
  destruct (je_create_shard g s w) as [[a w1]|] eqn:E; [|done]. apply jo_create_shard in E as (Hk & Hsub & Hok).
  destruct a as [[]|e|].
  - intros [= <- <-]. cbn. auto.
  - destruct (retry _ _ e) as [[i t']|e'|].
    + intros E. apply IH in E as (Hk' & Hsub' & Hok'). cbn in *. destruct (jo_sleep i w1) as [Hk2 Hp2].
      split_and!; [congruence|rewrite Hp2 in Hsub'; by etrans|done].
    + intros [= <- <-]. cbn. split_and!; [done..|]. destruct e'; cbn; try done; by repeat case_match.
    + intros [= <- <-]. cbn. by split_and!.
  - intros [= <- <-]. cbn. by split_and!.
Qed.
Lemma place_does n v : does (place_group_for_shard n) v (λ _ v', v' = v).
Proof.
  apply does_bind. intros w r w' <- E. apply jo_refresh in E as [E1 E2].
  assert (view_of w' = view_of w) as Hv by (unfold view_of; congruence).
  destruct r as [u|e|]; [|done..]. intros w1 r1 w1' Hw [= <- <-]. congruence.
Qed.
(** A job goes on with the identity it had. *)
Definition same_job (ct ct' : CreateTableJob) : Prop :=
  ct_desc ct' = ct_desc ct ∧ ct_database ct' = ct_database ct ∧ ct_table_name ct' = ct_table_name ct.
Definition acked (pl : list (Z * ShardDesc)) (s : ShardDesc) : Prop := ∃ g, (g, s) ∈ pl.
Definition after_create (ct : CreateTableJob) (todo : list ShardDesc) (m : contents) (pl : list (Z * ShardDesc))
    (r : Result CreateTableJob) (v : view) : Prop :=
  same_tables m v.1 ∧ pl ⊆ v.2 ∧ ∀ ct', r = Ok ct' → same_job ct ct' ∧
    (ct_status ct' = CreateTableJobStatus_i32 CtWriteDesc ∧ Forall (acked v.2) todo ∨
     ct_status ct' = CreateTableJobStatus_i32 CtRollbacking).
Lemma save_then {A} job_id ct m pl (k : M A) (Q : Result A → view → Prop) :
  (∀ r v, same_tables m v.1 → v.2 = pl → failed r → Q r v) →
  (∀ m', same_tables m m' → does k (m', pl) Q) →
  does (do* save_create_table job_id ct in k) (m, pl) Q.
Proof.
  intros Hf Hk. apply does_bind. eapply does_weaken; [apply save_does|]. cbn. intros r [m' pl'] [Hs Hp]. cbn in *. subst pl'.
  destruct r as [u|e|]; [by apply Hk|by apply Hf..].
Qed.
Lemma does_catch {A B} (p : M A) (k : A → M B) (ke : Error → M B) v (Q : Result B → view → Prop) :
  does p v (λ r v', match r with Ok a => does (k a) v' Q | Err e => does (ke e) v' Q | Panic => Q Panic v' end) →
  does (λ w, match p w with
             | None => None
             | Some (Panic, w) => Some (Panic, w)
             | Some (Err e, w) => ke e w
             | Some (Ok a, w) => k a w
             end) v Q.
Proof.
  intros Hp w r w' Hv E. destruct (p w) as [[[a|e|] w1]|] eqn:Ep; [| | |done]; specialize (Hp w _ w1 Hv Ep); cbn in Hp;
    [by apply (Hp w1 r w' eq_refl)..|by injection E as <- <-].
Qed.
Lemma try_create_does rounds g s v :
  does (try_create_shard rounds g s) v (λ r v', v'.1 = v.1 ∧ v.2 ⊆ v'.2 ∧ (r = Ok tt → (g, s) ∈ v'.2)).
Proof. intros w r w' Hv E. by eapply (retry_does rounds g s (with_deadline_opt (Some (je_now w + 10000)))). Qed.
Lemma create_failed ct todo m pl r v : same_tables m v.1 → pl ⊆ v.2 → failed r → after_create ct todo m pl r v.
Proof. intros Hs Hp Hf. split_and!; [done..|]. intros ct' ->. by destruct (Hf ct'). Qed.
Lemma create_shards_does rounds job_id todo : ∀ ct m pl,
  does (create_shards rounds job_id todo ct) (m, pl) (after_create ct todo m pl).
Proof.
  induction todo as [|s todo IH]; intros ct m pl; cbn [create_shards].
  - apply save_then.
    + intros r v Hs Hp Hf. apply create_failed; [done|by rewrite Hp|done].
    + intros m' Hs. apply does_lift. split_and!; [done..|]. intros ct' [= <-]. split; [done|]. by left.
  - apply does_bind. eapply does_weaken; [apply place_does|]. cbn. intros r v ->.
    destruct r as [gs|e|]; [|by split_and!..]. destruct (head gs) as [g|]; [|by apply does_lift; split_and!].
    apply does_catch. eapply does_weaken; [apply try_create_does|]. cbn. intros r [m1 pl1] (Hm & Hsub & Hin). cbn in *. subst m1.
    destruct r as [[]|e|]; [| |by split_and!].
    + apply save_then.
      { intros r2 v2 Hs Hp Hf. apply create_failed; [done|by rewrite Hp|done]. }
      intros m2 Hs. eapply does_weaken; [apply IH|]. intros r2 [m3 pl3] (Hs3 & Hp3 & Hr3). cbn in *.
      split_and!; [by etrans|by etrans|]. intros ct' ->. destruct (Hr3 ct' eq_refl) as [Hj [[Hst Hf]|Hst]]; split; try done; [left|by right].
      split; [done|]. constructor; [|done]. exists (gd_id g). by apply Hp3, Hin.
    + apply save_then.
      { intros r2 v2 Hs Hp Hf. apply create_failed; [done|by rewrite Hp|done]. }
      intros m2 Hs. apply does_lift. split_and!; [done..|]. intros ct' [= <-]. split; [done|]. by right.
Qed.
Lemma cleanup_does job_id todo : ∀ ct m pl,
  does (cleanup_shards job_id todo ct) (m, pl) (λ r v, same_tables m v.1 ∧ v.2 = pl ∧ ∀ ct', r = Ok ct' →
    same_job ct ct' ∧ ct_status ct' = CreateTableJobStatus_i32 CtAbort).
Proof.
  induction todo as [|s todo IH]; intros ct m pl; cbn [cleanup_shards]; apply save_then;
    [by intros r v Hs Hp Hf; split_and!; [done..|intros ct' ->; destruct (Hf ct')]| |
     by intros r v Hs Hp Hf; split_and!; [done..|intros ct' ->; destruct (Hf ct')]|]; intros m' Hs.
  - apply does_lift. split_and!; [done..|]. intros ct' [= <-]. done.
  - eapply does_weaken; [apply IH|]. intros r2 v (Hs3 & Hp3 & Hr3). split_and!; [by etrans|done|].
    intros ct' ->. by apply Hr3.
Qed.
Definition desc_key (t : TableDesc) : Z * bytes := (TABLE_ID, table_key (tb_db t) (tb_name t)).
Lemma create_table_does t m pl :
  does (create_table t) (m, pl) (λ r v, ∀ d, r = Ok d → m !! desc_key t = None ∧ v = (<[desc_key t := encode_to_vec t]> m, pl)).
Proof.
  unfold create_table, get_table, get_as, put_table, desc_key. set (k := table_key _ _).
  apply does_bind, does_bind. eapply does_weaken; [by apply does_get|]. cbn beta iota. intros r v [-> Hr].
  destruct r as [o|e|]; [|done..]. destruct Hr as [Hr|Hr]; [by destruct (Hr o)|]. injection Hr as ->.
  destruct (m !! (TABLE_ID, k)) as [b|] eqn:E.
  { apply does_bind, does_lift. destruct (decode_as _ b); [|done..]. apply does_lift. by apply does_lift. }
  apply does_lift. apply does_bind. eapply does_weaken; [by apply does_put|]. cbn beta iota. intros r v Hv.
  destruct r as [[]|e|]; [|done..]. apply does_lift. intros d _. split; [done|].
  destruct Hv as [->|[_ Hv]]; [done|by destruct (Hv tt)].
Qed.
Lemma write_desc_does job_id ct t m pl : ct_desc ct = Some t →
  does (handle_write_desc job_id ct) (m, pl) (λ r v, ∀ ct', r = Ok ct' → same_job ct ct' ∧
    ct_status ct' = CreateTableJobStatus_i32 CtFinish ∧ m !! desc_key t = None ∧
    same_tables (<[desc_key t := encode_to_vec t]> m) v.1 ∧ v.2 = pl).
Proof.
  intros Ht. apply does_bind. eapply does_weaken; [apply does_schema|]. cbn. intros r v ->. destruct r as [u|e|]; [|done..].
  apply does_bind, does_lift. rewrite Ht. cbn. apply does_bind. eapply does_weaken; [apply create_table_does|]. cbn. intros r v Hv.
  destruct r as [d|e|]; [|done..]. destruct (Hv d eq_refl) as [Hn ->]. apply save_then.
  - intros r2 v2 _ _ Hf ct' ->. by destruct (Hf ct').
  - intros m2 Hs. apply does_lift. by intros ct' [= <-].
Qed.
Lemma core_finish_does job m pl :
  does (core_finish job) (m, pl) (λ r v, r = Ok tt → same_tables m v.1 ∧ v.2 = pl ∧
    v.1 !! (JOB_HISTORY_ID, u64_to_le_bytes (bj_id job)) = Some (encode_to_vec job) ∧ v.1 !! (JOB_ID, u64_to_le_bytes (bj_id job)) = None).
Proof.
  apply does_bind. eapply does_weaken; [apply does_schema|]. cbn. intros r v ->. destruct r as [u|e|]; [|done..].
  apply does_bind. apply does_bind. eapply does_weaken; [by apply does_put|]. cbn. intros r v Hv.
  destruct r as [[]|e|]; [|done..]. destruct Hv as [->|[_ Hv]]; [|by destruct (Hv tt)].
  eapply does_weaken; [by apply does_delete|]. cbn. intros r v Hv.
  destruct r as [[]|e|]; [|done..]. destruct Hv as [->|[_ Hv]]; [|by destruct (Hv tt)].
  apply does_bind. eapply does_weaken; [apply does_modify|]. cbn. intros r v [-> ->].
  apply does_bind, does_lift. set (m' := delete _ _).
  assert (same_tables m m' ∧ m' !! (JOB_HISTORY_ID, u64_to_le_bytes (bj_id job)) = Some (encode_to_vec job) ∧
    m' !! (JOB_ID, u64_to_le_bytes (bj_id job)) = None) as (H1' & H2' & H3').
  { subst m'. split_and!.
    - intros t k Ht1 Ht2. rewrite lookup_delete_ne by congruence. apply lookup_insert_ne. congruence.
    - rewrite lookup_delete_ne by done. apply lookup_insert_eq.
    - apply lookup_delete_eq. }
  destruct (res_key job) as [[k|]|e|]; [| |done..].
  - eapply does_weaken; [apply does_modify|]. by intros r v [-> _] _.
  - by apply does_lift.
Qed.

(** ** The job as a whole *)
Definition outcome (job : BackgroundJob) (shards : list ShardDesc) (t : TableDesc) (m m' : contents) (pl' : list (Z * ShardDesc)) : Prop :=
  ∃ ct, m' !! (JOB_HISTORY_ID, u64_to_le_bytes (bj_id job)) = Some (encode_to_vec (mkBackgroundJob (bj_id job) (Some (JCreateTable ct)))) ∧
    m' !! (JOB_ID, u64_to_le_bytes (bj_id job)) = None ∧
    ((ct_status ct = CreateTableJobStatus_i32 CtFinish ∧ m !! desc_key t = None ∧ m' !! desc_key t = Some (encode_to_vec t) ∧
      Forall (acked pl') shards) ∨
     (ct_status ct = CreateTableJobStatus_i32 CtAbort ∧ ∀ k, m' !! (TABLE_ID, k) = m !! (TABLE_ID, k))).
Lemma handle_step fuel rounds job ct s m pl (Q : Result unit → view → Prop) : ct_status ct = CreateTableJobStatus_i32 s →
  does (match s with
        | CtCreating => let* ct := handle_wait_create_shard rounds (bj_id job) ct in handle_create_table fuel rounds job ct
        | CtRollbacking => let* ct := handle_wait_cleanup_shard (bj_id job) ct in handle_create_table fuel rounds job ct
        | CtWriteDesc => let* ct := handle_write_desc (bj_id job) ct in handle_create_table fuel rounds job ct
        | CtFinish | CtAbort => handle_finish_create_table job ct
        end) (m, pl) Q → does (handle_create_table (S fuel) rounds job ct) (m, pl) Q.
Proof. intros E Hd. cbn [handle_create_table]. apply does_bind, does_lift. rewrite E. by destruct s. Qed.
Lemma finish_outcome fuel rounds job ct s shards t m0 m pl :
  ct_status ct = CreateTableJobStatus_i32 s → s = CtFinish ∨ s = CtAbort →
  (s = CtFinish → m0 !! desc_key t = None ∧ m !! desc_key t = Some (encode_to_vec t) ∧ Forall (acked pl) shards) →
  (s = CtAbort → ∀ k, m !! (TABLE_ID, k) = m0 !! (TABLE_ID, k)) →
  does (handle_create_table fuel rounds job ct) (m, pl) (λ r v, r = Ok tt → outcome job shards t m0 v.1 v.2).
Proof.
  intros Es Hs Hf Ha. destruct fuel as [|fuel]; [by intros ????|]. eapply handle_step; [exact Es|].
  enough (does (handle_finish_create_table job ct) (m, pl) (λ r v, r = Ok tt → outcome job shards t m0 v.1 v.2)) by (by destruct Hs as [->| ->]).
  eapply does_weaken; [apply core_finish_does|]. cbn. intros r v Hv Hr. destruct (Hv Hr) as (Hst & -> & Hh & Hj). exists ct.
  split_and!; [done..|]. destruct Hs as [->| ->]; [left|right]; (split; [done|]).
  - destruct (Hf eq_refl) as (? & Hx & ?). split_and!; [done| |done]. rewrite <- Hx. by apply Hst.
  - intros k. rewrite <- (Ha eq_refl k). by apply Hst.
Qed.
Lemma creating_outcome fuel rounds job ct t m pl : ct_status ct = CreateTableJobStatus_i32 CtCreating → ct_desc ct = Some t →
  does (handle_create_table fuel rounds job ct) (m, pl) (λ r v, r = Ok tt → outcome job (rev (ct_wait_create ct)) t m v.1 v.2).
Proof.
  intros Es Ht. destruct fuel as [|fuel]; [by intros ????|]. eapply handle_step; [exact Es|]. cbn beta iota.
  apply does_bind. eapply does_weaken; [apply create_shards_does|]. intros r [m1 pl1] (Hs1 & _ & Hr1).
  destruct r as [ct1|e|]; [|done..]. destruct (Hr1 ct1 eq_refl) as [(Hd & _ & _) Hst]. clear Hr1. cbn [fst snd] in *.
  destruct fuel as [|fuel]; [by intros ????|]. destruct Hst as [[Hst Hall]|Hst]; (eapply handle_step; [exact Hst|]); cbn beta iota; apply does_bind.
  - eapply does_weaken; [apply write_desc_does; by rewrite Hd|]. intros r [m2 pl2] Hr2. destruct r as [ct2|e|]; [|done..].
    destruct (Hr2 ct2 eq_refl) as (_ & Hst2 & Hn & Hs2 & Hp). cbn [fst snd] in *. subst pl2.
    eapply finish_outcome; [exact Hst2|by left| |done]. intros _. split_and!; [|by etrans; [by apply Hs2|apply lookup_insert_eq]|done].
    by rewrite <- Hn; symmetry; apply Hs1.
  - eapply does_weaken; [apply cleanup_does|]. intros r [m2 pl2] (Hs2 & Hp & Hr2). destruct r as [ct2|e|]; [|done..].
    destruct (Hr2 ct2 eq_refl) as [_ Hst2]. cbn [fst snd] in *. subst pl2.
    eapply finish_outcome; [exact Hst2|by right|done|]. intros _ k. rewrite (Hs2 TABLE_ID); [|done..]. by apply Hs1.
Qed.

(** Three rounds reach the end: [Creating], [WriteDesc] or [Rollbacking], then
    the end. *)
Lemma bind_cong {A B} (p : M A) (k k' : A → M B) w :
  (∀ a w', p w = Some (Ok a, w') → k a w' = k' a w') → prog_bind p k w = prog_bind p k' w.
Proof. intros Hk. unfold prog_bind. destruct (p w) as [[[a|e|] w1]|]; [by apply Hk|done..]. Qed.
Lemma done_rounds n rounds job ct s w : ct_status ct = CreateTableJobStatus_i32 s → s = CtFinish ∨ s = CtAbort →
  handle_create_table (S n) rounds job ct w = handle_create_table 1 rounds job ct w.
Proof. intros E Hs. cbn [handle_create_table]. rewrite E. by destruct Hs as [->| ->]. Qed.
Lemma middle_rounds n rounds job ct t s w : ct_status ct = CreateTableJobStatus_i32 s → s = CtWriteDesc ∨ s = CtRollbacking →
  ct_desc ct = Some t → handle_create_table (S (S n)) rounds job ct w = handle_create_table 2 rounds job ct w.
Proof.
  intros E Hs Ht. cbn [handle_create_table]. rewrite E. destruct Hs as [->| ->]; apply bind_cong; intros a w1 [= <- <-]; apply bind_cong; intros ct2 w2 E2.
  - destruct (write_desc_does (bj_id job) ct t (kv w) (placed w) Ht w _ w2 eq_refl E2 ct2 eq_refl) as (_ & Hst & _).
    eapply done_rounds; [exact Hst|by left].
  - destruct (cleanup_does (bj_id job) (rev (ct_wait_cleanup ct)) ct (kv w) (placed w) w _ w2 eq_refl E2) as (_ & _ & Hr).
    destruct (Hr ct2 eq_refl) as [_ Hst]. eapply done_rounds; [exact Hst|by right].
Qed.
Lemma creating_rounds n rounds job ct t w : ct_status ct = CreateTableJobStatus_i32 CtCreating → ct_desc ct = Some t →
  handle_create_table (3 + n) rounds job ct w = handle_create_table 3 rounds job ct w.
Proof.
  intros E Ht. cbn [handle_create_table Nat.add]. rewrite E. apply bind_cong. intros a w1 [= <- <-]. apply bind_cong. intros ct1 w1 E1.
  destruct (create_shards_does rounds (bj_id job) _ ct (kv w) (placed w) w _ w1 eq_refl E1) as (_ & _ & Hr).
  destruct (Hr ct1 eq_refl) as [(Hd & _ & _) [[Hst _]|Hst]]; (eapply middle_rounds; [exact Hst|by auto|by rewrite Hd]).
Qed.

(** C25: A job that creates a table, run to its end without an error, leaves its
    last state in the history and no trace in the job table, and is one of two
    things: finished, with the table's row, which was free, stored and every
    shard of the table acknowledged by some group; or aborted, with every row
    of the table catalog as it was.  Three rounds of its state machine are
    enough: more give the same result. *)
Theorem create_table_outcome n rounds job ct t w r w' :
  ct_status ct = CreateTableJobStatus_i32 CtCreating → ct_desc ct = Some t →
  handle_create_table (3 + n) rounds job ct w = Some (r, w') →
  handle_create_table 3 rounds job ct w = Some (r, w') ∧
  (r = Ok tt → outcome job (ct_wait_create ct) t (kv w) (kv w') (placed w')).
Proof.
  intros Es Ht E. split; [by rewrite <- E; symmetry; eapply creating_rounds|]. intros Hr.
  destruct (creating_outcome (3 + n) rounds job ct t (kv w) (placed w) Es Ht w r w' eq_refl E Hr) as (ct' & Hh & Hj & Ho).
  exists ct'. split_and!; [done..|]. destruct Ho as [(? & ? & ? & Hf)|Ho]; [left|by right]. split_and!; [done..|].
  by apply Forall_rev in Hf; rewrite rev_involutive in Hf.
Qed.
End Outcome.
