(* ===== verification/RootSamples.v ===== *)
(** * Balancing small clusters *)

From S2P Require Import Prelude Bytes F64 Api RocksDb Errors Schema Keys Engine Samples EvalTxn Fsm Router.
From S2P Require Import GroupClient ShardClient RootStats Allocator AllocatorProps RootSchema RootSchemaProps RootWatch Jobs.
From S2P Require Import JobsProps.
#[local] Open Scope Z_scope.

#[global] Instance sample_order : HashOrder.
Proof. refine {| visit A m := map_to_list m |}. done. Defined.

Definition shard_at (id : Z) : ShardDesc := mkShardDesc id 100 (Some (mkRange [] [])).
(** Group 1 has four shards, group 2 one, group 3 none. *)
Definition three_groups : gmap Z GroupDesc :=
  <[1 := mkGroupDesc 1 1 (shard_at <$> [1; 2; 3; 4]) []]> (<[2 := mkGroupDesc 2 1 (shard_at <$> [5]) []]>
    (<[3 := mkGroupDesc 3 1 [] []]> ∅)).
Lemma three_groups_placed : shards_placed three_groups.
Proof.
  split.
  - intros id g Hg. unfold three_groups in Hg. rewrite !lookup_insert_Some in Hg. naive_solver.
  - apply (bool_decide_unpack _). by vm_compute.
  - by split.
Qed.
Lemma shard_balance_converges_witness :
  ∃ gs', rebalance 18 three_groups = Some gs' ∧ all_shards gs' ≡ₚ all_shards three_groups.
Proof.
  destruct (shard_balance_converges 18 three_groups three_groups_placed) as (gs' & Hr & Hall & _); [reflexivity|].
  exists gs'. split; [exact Hr|exact Hall].
Defined.
Lemma three_groups_balanced :
  (λ gs, (λ p, (p.1, shard_count p.2)) <$> map_to_list gs) <$> rebalance 18 three_groups = Some [(3, 1); (2, 2); (1, 2)].
Proof. vm_compute. reflexivity. Qed.

(** Node 1 has eight replicas, node 4 none; group 9 is on nodes 1, 2 and 3. *)
Definition node_with (id replicas leaders : Z) : NodeDesc :=
  mkNodeDesc id "" (Some (mkNodeCapacity (f64_of_Z 2) replicas leaders)) 0.
Definition group9 : GroupDesc := mkGroupDesc 9 1 [] [mkReplicaDesc 91 1 0; mkReplicaDesc 92 2 0; mkReplicaDesc 93 3 0].
Definition four_nodes : list NodeDesc := [node_with 1 8 3; node_with 2 3 1; node_with 3 3 0; node_with 4 0 0].
Lemma four_nodes_small n c :
  n ∈ four_nodes → nd_capacity n = Some c → small (node_replica_count ClusterStats_default (n, c)).
Proof. unfold four_nodes. intros Hn. repeat (apply elem_of_cons in Hn as [->|Hn]; [by intros [= <-]|]). by apply not_elem_of_nil in Hn. Qed.

Lemma replica_migration_sound_witness :
  replica_balance (set_groups [group9] SysAllocSource_default) ClusterStats_default four_nodes =
    Ok (Some (mkReallocateReplica 9 1 91 (node_with 4 0 0))) ∧
  ∀ r, r ∈ gd_replicas group9 → rd_node_id r ≠ 4.
Proof.
  assert (replica_balance (set_groups [group9] SysAllocSource_default) ClusterStats_default four_nodes =
    Ok (Some (mkReallocateReplica 9 1 91 (node_with 4 0 0)))) as E by (vm_compute; reflexivity).
  split; [exact E|].
  destruct (replica_migration_sound ClusterStats_default [group9] SysAllocSource_default four_nodes _ (NoDup_singleton _)
    four_nodes_small E) as (g & r & src & tgt & Hg & _ & _ & _ & _ & _ & _ & _ & _ & _ & Hne & _).
  apply list_elem_of_singleton in Hg. subst g. exact Hne.
Defined.
Lemma replica_placement_witness :
  ∃ left_out, [node_with 4 0 0; node_with 3 3 0] ++ left_out ≡ₚ eligible four_nodes [2] ∧
    length [node_with 4 0 0; node_with 3 3 0] = Nat.min 2 (length (eligible four_nodes [2])).
Proof.
  destruct (replica_placement ClusterStats_default four_nodes [2] 2 [node_with 4 0 0; node_with 3 3 0]) as (l & Hp & _ & Hl & _).
  - apply (NoDup_fmap_1 nd_id), (bool_decide_unpack _). by vm_compute.
  - exact four_nodes_small.
  - vm_compute. reflexivity.
  - exists l. split; [exact Hp|exact Hl].
Defined.

(** ** Where the policies miss *)
(** The first target without a movable replica ends the search: node 3 could
    take a replica of group 9, but node 4, ranked before it, is already used. *)
Definition group8 : GroupDesc := mkGroupDesc 8 1 [] [mkReplicaDesc 81 1 0; mkReplicaDesc 82 2 0; mkReplicaDesc 84 4 0].
Definition stuck_nodes : list NodeDesc := [node_with 1 16 3; node_with 2 8 1; node_with 3 1 0; node_with 4 0 0].
Lemma first_target_ends_search :
  replica_balance (set_groups [group8] SysAllocSource_default) ClusterStats_default stuck_nodes = Ok None ∧
  replica_balance (set_groups [group8] SysAllocSource_default) ClusterStats_default [node_with 1 16 3; node_with 2 8 1; node_with 3 1 0] =
    Ok (Some (mkReallocateReplica 8 1 81 (node_with 3 1 0))).
Proof. split; vm_compute; reflexivity. Qed.
(** Leadership is offered to a learner. *)
Definition group7 : GroupDesc := mkGroupDesc 7 1 [] [mkReplicaDesc 71 1 0; mkReplicaDesc 73 3 1].
Lemma leader_offered_to_learner :
  leader_balance (set_replica_states [mkReplicaState 71 7 1 0 2 1] (set_groups [group7] SysAllocSource_default)) four_nodes =
    Ok (LShed (mkTransferLeader 7 1 71 3 73)).
Proof. vm_compute. reflexivity. Qed.
(** More shards to split than asked for: the limit only ends the search of a table. *)
Definition big_shards : ClusterStats :=
  handle_group_stats (mkGroupStats 5 2 [mkShardStats 51 100 (2 ^ 30); mkShardStats 52 200 (2 ^ 30)]) ClusterStats_default.
Lemma more_than_the_limit : length (get_large_shards big_shards 1) = 2%nat.
Proof. vm_compute. reflexivity. Qed.

(** * A small root *)
(** ** Codecs *)
#[global] Instance DatabaseDesc_eq_dec : EqDecision DatabaseDesc.
Proof. solve_decision. Defined.
#[global] Instance DatabaseDesc_countable : Countable DatabaseDesc.
Proof. by refine (inj_countable' (λ d, (db_id d, db_name d)) (λ p, mkDatabaseDesc p.1 p.2) _); intros []. Defined.
#[global] Instance TableDesc_eq_dec : EqDecision TableDesc.
Proof. solve_decision. Defined.
#[global] Instance TableDesc_countable : Countable TableDesc.
Proof. by refine (inj_countable' (λ d, (tb_id d, tb_db d, tb_name d, tb_properties d)) (λ '(a, b, c, d), mkTableDesc a b c d) _); intros []. Defined.
#[global] Instance ReplicaState_eq_dec : EqDecision ReplicaState.
Proof. solve_decision. Defined.
#[global] Instance ReplicaState_countable : Countable ReplicaState.
Proof.
  by refine (inj_countable' (λ s, ((rs_replica_id s, rs_group_id s, rs_term s), (rs_voted_for s, rs_role s, rs_node_id s)))
    (λ '((a, b, c), (d, e, f)), mkReplicaState a b c d e f) _); intros [].
Defined.
#[global] Instance CreateTableJob_eq_dec : EqDecision CreateTableJob.
Proof. solve_decision. Defined.
#[global] Instance CreateTableJob_countable : Countable CreateTableJob.
Proof.
  by refine (inj_countable' (λ j, (((ct_database j, ct_table_name j), (ct_wait_create j, ct_wait_cleanup j)),
      ((ct_status j, ct_remark j), (ct_desc j, ct_created_time j))))
    (λ '(((a, b), (c, d)), ((e, f), (g, h))), mkCreateTableJob a b c d e f g h) _); intros [].
Defined.
#[global] Instance CreateOneGroupJob_eq_dec : EqDecision CreateOneGroupJob.
Proof. solve_decision. Defined.
#[global] Instance CreateOneGroupJob_countable : Countable CreateOneGroupJob.
Proof.
  by refine (inj_countable' (λ j, (((cg_request_replica_cnt j, cg_wait_create j), (cg_wait_cleanup j, cg_group_desc j)),
      ((cg_status j, cg_create_retry j), (cg_invoked_nodes j, cg_created_time j))))
    (λ '(((a, b), (c, d)), ((e, f), (g, h))), mkCreateOneGroupJob a b c d e f g h) _); intros [].
Defined.
#[global] Instance PurgeTableJob_eq_dec : EqDecision PurgeTableJob.
Proof. solve_decision. Defined.
#[global] Instance PurgeTableJob_countable : Countable PurgeTableJob.
Proof.
  by refine (inj_countable' (λ j, ((pt_database_id j, pt_table_id j), (pt_database_name j, pt_table_name j), pt_created_time j))
    (λ '((a, b), (c, d), e), mkPurgeTableJob a b c d e) _); intros [].
Defined.
#[global] Instance PurgeDatabaseJob_eq_dec : EqDecision PurgeDatabaseJob.
Proof. solve_decision. Defined.
#[global] Instance PurgeDatabaseJob_countable : Countable PurgeDatabaseJob.
Proof.
  by refine (inj_countable' (λ j, (pd_database_id j, pd_database_name j, pd_created_time j)) (λ '(a, b, c), mkPurgeDatabaseJob a b c) _);
    intros [].
Defined.
#[global] Instance Job_eq_dec : EqDecision Job.
Proof. solve_decision. Defined.
#[global] Instance Job_countable : Countable Job.
Proof.
  by refine (inj_countable'
    (λ j, match j with JCreateTable j => inl (inl j) | JCreateOneGroup j => inl (inr j) | JPurgeTable j => inr (inl j) | JPurgeDatabase j => inr (inr j) end)
    (λ j, match j with inl (inl j) => JCreateTable j | inl (inr j) => JCreateOneGroup j | inr (inl j) => JPurgeTable j | inr (inr j) => JPurgeDatabase j end) _);
    intros [].
Defined.
#[global] Instance BackgroundJob_eq_dec : EqDecision BackgroundJob.
Proof. solve_decision. Defined.
#[global] Instance BackgroundJob_countable : Countable BackgroundJob.
Proof. by refine (inj_countable' (λ j, (bj_id j, bj_job j)) (λ p, mkBackgroundJob p.1 p.2) _); intros []. Defined.
#[global] Instance DatabaseDesc_codec : Codec DatabaseDesc := countable_codec _.
#[global] Instance DatabaseDesc_codec_ok : CodecOk DatabaseDesc := countable_codec_ok _.
#[global] Instance TableDesc_codec : Codec TableDesc := countable_codec _.
#[global] Instance TableDesc_codec_ok : CodecOk TableDesc := countable_codec_ok _.
#[global] Instance NodeDesc_codec : Codec NodeDesc := countable_codec _.
#[global] Instance NodeDesc_codec_ok : CodecOk NodeDesc := countable_codec_ok _.
#[global] Instance ReplicaState_codec : Codec ReplicaState := countable_codec _.
#[global] Instance ReplicaState_codec_ok : CodecOk ReplicaState := countable_codec_ok _.
#[global] Instance BackgroundJob_codec : Codec BackgroundJob := countable_codec _.
#[global] Instance BackgroundJob_codec_ok : CodecOk BackgroundJob := countable_codec_ok _.

(** ** The world: the root group's contents, the jobs, the shards that groups
    hold, and the groups that refuse a shard or the calls that fail *)
Record world := mkWorld {
  wd_kv : contents; wd_core : JobCore; wd_placed : list (Z * ShardDesc); wd_source : SysAllocSource;
  wd_refuse : gset Z; wd_write_fails : gset Z; wd_time : Z }.
Definition set_kv (f : contents → contents) (w : world) : world :=
  mkWorld (f (wd_kv w)) (wd_core w) (wd_placed w) (wd_source w) (wd_refuse w) (wd_write_fails w) (wd_time w).
Definition tick (w : world) : world :=
  mkWorld (wd_kv w) (wd_core w) (wd_placed w) (wd_source w) (wd_refuse w) (wd_write_fails w) (wd_time w + 1).
Definition set_core (c : JobCore) (w : world) : world :=
  mkWorld (wd_kv w) c (wd_placed w) (wd_source w) (wd_refuse w) (wd_write_fails w) (wd_time w).
Definition answer (r : Response) : GroupResponse := mkGroupResponse (Some (Some r)) None.
Definition listing (s : Z) (prefix : bytes) (m : contents) : ShardScanResponse :=
  mkShardScanResponse ((λ p, mkValueSet p.1.2 [mkValue (Some p.2) 0]) <$> map_to_list (with_prefix s prefix m)) false.
(** The write of the tick [wd_write_fails] fails. *)
#[global] Instance world_replica : RootReplica world := {|
  rr_epoch _ := INITIAL_EPOCH;
  rr_timestamp_nanos := wd_time;
  rr_execute _ req w :=
    match gr_request req with
    | Some (Some (RGet g)) =>
        Some (Ok (answer (SGetResp ((λ v, mkValue (Some v) 0) <$> wd_kv w !! (sg_shard_id g, sg_user_key g)))), w)
    | Some (Some (RScan s)) => Some (Ok (answer (SScanResp (listing (ss_shard_id s) (default [] (ss_prefix s)) (wd_kv w)))), w)
    | Some (Some (RWrite b)) =>
        if decide (wd_time w ∈ wd_write_fails w) then Some (Err (DeadlineExceeded "write"), tick w)
        else Some (Ok (answer (SWriteResp (mkShardWriteResponse [] []))),
          tick (set_kv (λ m, put_all (sw_shard_id b) (sw_puts b) (delete_all (sw_shard_id b) (sw_deletes b) m)) w))
    | _ => Some (Err (InvalidArgument ""), w)
    end |}.
#[global] Instance world_replica_ok : RootReplicaOk world_replica wd_kv.
Proof.
  split.
  - intros s k w r w' [= <- <-]. split; [done|]. intros g [= <-]. eexists. split; [done|]. cbn. by destruct (wd_kv w !! (s, k)).
  - intros s prefix w r w' [= <- <-]. split; [done|]. intros g [= <-]. eexists _, (map_to_list (with_prefix s prefix (wd_kv w))).
    split_and!; [done| |done]. cbn. generalize (map_to_list (with_prefix s prefix (wd_kv w))) as l.
    induction l as [|p l IH]; cbn; [done|]. by f_equal.
  - intros s dels puts w r w' _ _. unfold submit_request. cbn. case_decide; intros [= <- <-]; [right; by split|by left].
Qed.
#[global] Instance world_alloc : AllocEnv world := {|
  ae_source := wd_source; ae_stats _ := ClusterStats_default; ae_now := wd_time; ae_liveness _ := Liveness_new 30;
  ae_refresh_all := prog_lift (Ok tt) |}.
(** The root learns of a new shard. *)
Definition learn_shard (g : Z) (s : ShardDesc) (src : SysAllocSource) : SysAllocSource :=
  mkSysAllocSource (as_nodes src) (alter (λ d, mkGroupDesc (gd_id d) (gd_epoch d + 1) (gd_shards d ++ [s]) (gd_replicas d)) g (as_groups src))
    (as_node_replicas src) (as_replicas src).
#[global] Instance world_jobs : JobEnv world := {|
  je_core := wd_core;
  je_set_core := set_core;
  je_schema _ := Ok tt;
  je_create_shard g s w :=
    if decide (g ∈ wd_refuse w) then Some (Err CInvalidArgument, w)
    else Some (Ok tt, mkWorld (wd_kv w) (wd_core w) (wd_placed w ++ [(g, s)]) (learn_shard g s (wd_source w)) (wd_refuse w)
      (wd_write_fails w) (wd_time w));
  je_create_replica addr _ _ w :=
    if String.eqb addr "down" then Some (Err (RpcError ""), w) else Some (Ok tt, w);
  je_remove_replica _ _ _ := prog_lift (Ok tt);
  je_schedule_heartbeat _ w := w;
  je_wait_removed _ w := Some w;
  je_now := wd_time;
  je_sleep _ := tick;
  je_instant _ := "now"%string;
  je_debug _ := "error"%string |}.
#[global] Instance world_jobs_ok : JobEnvOk wd_kv wd_placed.
Proof.
  split.
  - intros c req w r w'. cbn. repeat case_match; intros [= <- <-]; done.
  - done.
  - intros w r w' [= <- <-]. done.
  - done.
  - intros g s w r w'. cbn. case_decide; intros [= <- <-]; [done|]. cbn. split_and!; [done|set_solver|]. intros _. set_solver.
Qed.

(** ** The counters only *)
Definition no_jobs : JobCore := mkJobCore [] ∅ true.
Definition counters : contents := put_all META_ID (meta_puts [] 0) ∅.
Definition fresh_world : world :=
  mkWorld counters no_jobs [] (set_groups [mkGroupDesc 7 1 [] []] SysAllocSource_default) ∅ ∅ 0.
Lemma counters_meta t k : t ≠ META_ID → counters !! (t, k) = None.
Proof.
  intros Ht. unfold counters, put_all, meta_puts. rewrite fmap_cons. repeat (rewrite fmap_cons || rewrite fmap_nil).
  cbn [fold_left]. by repeat (rewrite lookup_insert_ne by congruence).
Qed.
Lemma counters_ok : catalog_ok counters.
Proof.
  split; try (intros k v Hk; by rewrite counters_meta in Hk).
  intros d1 d2 Hd1. unfold stored in Hd1. by rewrite counters_meta in Hd1.
Qed.
Lemma counters_roomy : roomy 100 counters.
Proof.
  intros kind Hk. repeat (apply elem_of_cons in Hk as [->|Hk]; [eexists; split; [vm_compute; reflexivity|split; [lia|vm_compute; discriminate]]|]).
  by apply not_elem_of_nil in Hk.
Qed.

(** A new database gets the first free identifier. *)
Definition app_db : DatabaseDesc := mkDatabaseDesc 0 "app".
Definition run {A} (p : prog world Error A) (w : world) : world := default w (snd <$> p w).
Lemma run_result {A} (p : prog world Error A) w r : fst <$> p w = Some r → p w = Some (r, run p w).
Proof. unfold run. destruct (p w) as [[a w']|]; cbn; congruence. Qed.

(** ** Two groups, as a watcher sees them *)
Definition shard_range (id : Z) (a b : bytes) : ShardDesc := mkShardDesc id 100 (Some (mkRange a b)).
Definition left_group : GroupDesc := mkGroupDesc 7 3 [shard_range 70 [] (str_bytes "m")] [].
Definition right_group : GroupDesc := mkGroupDesc 8 5 [shard_range 80 (str_bytes "m") []] [].
Definition watched_kv : contents :=
  <[(GROUP_ID, group_row_key left_group) := encode_to_vec left_group]>
    (<[(GROUP_ID, group_row_key right_group) := encode_to_vec right_group]> counters).
Definition watched : world := set_kv (λ _, watched_kv) fresh_world.
Lemma watched_stored g : stored GROUP_ID group_row_key watched_kv g → g = left_group ∨ g = right_group.
Proof.
  unfold stored, watched_kv. intros Hg. apply lookup_insert_Some in Hg as [[_ Hg]|[_ Hg]].
  { left. apply (f_equal (decode_msg (A := GroupDesc))) in Hg. rewrite !decode_encode_msg in Hg. congruence. }
  apply lookup_insert_Some in Hg as [[_ Hg]|[_ Hg]]; [|by rewrite counters_meta in Hg].
  right. apply (f_equal (decode_msg (A := GroupDesc))) in Hg. rewrite !decode_encode_msg in Hg. congruence.
Qed.
Lemma watched_ok : catalog_ok watched_kv.
Proof. apply put_group_ok; [done|]. apply put_group_ok; [done|]. exact counters_ok. Qed.
Lemma left_not_right k :
  belong_to (shard_range 70 [] (str_bytes "m")) k = true → belong_to (shard_range 80 (str_bytes "m") []) k = true → False.
Proof.
  unfold belong_to, shard_range, in_range. cbn [sd_range rp_start rp_end]. intros Hl Hr.
  apply andb_true_iff in Hl as [_ Hl]. apply andb_true_iff in Hr as [Hr _].
  apply orb_true_iff in Hl as [Hl|Hl]; [|by apply bool_decide_eq_true in Hl].
  apply bytes_leb_le, bytes_not_lt in Hr. by apply Hr, bytes_ltb_lt.
Qed.
Lemma watched_once : placed_once watched_kv.
Proof.
  split.
  - intros g [->| ->]%watched_stored; apply NoDup_singleton.
  - by intros g1 g2 s1 s2 [->| ->]%watched_stored [->| ->]%watched_stored Hs1%list_elem_of_singleton Hs2%list_elem_of_singleton; subst.
  - intros g1 g2 s1 s2 k [->| ->]%watched_stored [->| ->]%watched_stored Hs1%list_elem_of_singleton Hs2%list_elem_of_singleton;
      subst; [done| | |done]; intros _; [|intros Hb1 Hb2; revert Hb2 Hb1]; intros Hl Hr; exfalso; by apply (left_not_right k).
Qed.
Definition first_updates : list UpdateEvent :=
  match list_all_events ∅ watched with Some (Ok (updates, _), _) => updates | _ => [] end.
Lemma watch_then_route_witness :
  fst <$> list_all_events ∅ watched = Some (Ok (first_updates, [])) ∧
  ∃ gs, find_shard (foldl apply_update_event State_default first_updates) 100 (str_bytes "query") =
      Ok (gs, shard_range 80 (str_bytes "m") []) ∧ rg_id gs = 8 ∧ rg_epoch gs = 5.
Proof.
  assert (fst <$> list_all_events ∅ watched = Some (Ok (first_updates, []))) as E by computed.
  split; [exact E|]. apply run_result in E.
  assert (stored GROUP_ID group_row_key watched_kv right_group) as Hg by (unfold stored; computed).
  destruct (proj1 (watch_then_route watched first_updates [] _ watched_ok watched_once E) right_group
    (shard_range 80 (str_bytes "m") []) (str_bytes "query") Hg) as (gs & Hf & Hid & He).
  - by left.
  - computed.
  - exists gs. split; [exact Hf|]. split; [exact Hid|exact He].
Defined.

(** ** A table of two shards *)
Definition two_shards : list ShardDesc := [shard_range 11 [] (str_bytes "m"); shard_range 12 (str_bytes "m") []].
Definition orders : TableDesc := mkTableDesc 100 2 "orders" [].
Definition orders_job : CreateTableJob :=
  mkCreateTableJob 2 "orders" two_shards [] (CreateTableJobStatus_i32 CtCreating) "" (Some orders) "".
Definition user_groups : SysAllocSource := set_groups [mkGroupDesc 7 1 [] []; mkGroupDesc 8 1 [] []; mkGroupDesc 9 1 [] []] SysAllocSource_default.
Definition orders_world (write_fails : gset Z) (refuse : gset Z) : world :=
  let w := mkWorld counters no_jobs [] user_groups refuse ∅ 0 in
  (** job 0 is someone else's *)
  let w := run (next_id META_JOB_ID_KEY) w in
  let w := run (core_append (mkBackgroundJob 0 (Some (JCreateTable orders_job)))) w in
  mkWorld (wd_kv w) (wd_core w) (wd_placed w) (wd_source w) refuse write_fails (wd_time w).
Definition job1 : BackgroundJob := mkBackgroundJob 1 (Some (JCreateTable orders_job)).
Definition create_orders : prog world Error unit := handle_create_table 3 1 job1 orders_job.
Lemma create_table_outcome_witness :
  create_orders (orders_world ∅ ∅) = Some (Ok tt, run create_orders (orders_world ∅ ∅)) ∧
  outcome job1 two_shards orders (wd_kv (orders_world ∅ ∅)) (wd_kv (run create_orders (orders_world ∅ ∅)))
    (wd_placed (run create_orders (orders_world ∅ ∅))).
Proof.
  assert (create_orders (orders_world ∅ ∅) = Some (Ok tt, run create_orders (orders_world ∅ ∅))) as E
    by (apply run_result; computed).
  split; [exact E|]. exact (proj2 (create_table_outcome 0 1 job1 orders_job orders (orders_world ∅ ∅) _ _ eq_refl eq_refl E) eq_refl).
Defined.
Definition placements (w : world) : list (Z * Z) := (λ p, (p.1, sd_id p.2)) <$> wd_placed w.
Lemma orders_placed : placements (run create_orders (orders_world ∅ ∅)) = [(7, 12); (9, 11)].
Proof. computed. Qed.

(** ** Where the jobs lose track *)
(** The progress of job 1 is looked up under another key than it is stored
    under, so it is never saved: when the write of the table's row fails, the
    next round starts over and the shards are given to other groups as well. *)
Lemma job_progress_not_saved :
  let w := orders_world {[3]} ∅ in
  let w1 := run (advance_jobs 3 1) w in
  fst <$> update_job job1 w = Some (Ok false) ∧ wd_kv w !! (JOB_ID, u64_to_le_bytes 1) = Some (encode_to_vec job1) ∧
  mem_jobs (wd_core w1) = [job1] ∧ placements (run (advance_jobs 3 1) w1) = [(7, 12); (9, 11); (8, 12); (7, 11)].
Proof. split_and!; computed. Qed.
(** A replica that could not be created is given up at once, and the group
    counts as created. *)
Definition down_node : NodeDesc := mkNodeDesc 1 "down" None 0.
Definition down_group : GroupDesc := mkGroupDesc 5 0 [] [mkReplicaDesc 51 1 0].
Definition group_job (status : CreateOneGroupStatus) (retries : Z) : CreateOneGroupJob :=
  mkCreateOneGroupJob 1 [down_node] [] (Some down_group) (CreateOneGroupStatus_i32 status) retries [] "".
Lemma group_finishes_without_replicas :
  let job := mkBackgroundJob 1 (Some (JCreateOneGroup (group_job CgCreating 0))) in
  ∃ w', handle_create_one_group 5 job (group_job CgCreating 0) fresh_world = Some (Ok tt, w') ∧
    wd_kv w' !! (JOB_HISTORY_ID, u64_to_le_bytes 1) = Some (encode_to_vec (mkBackgroundJob 1 (Some (JCreateOneGroup (group_job CgFinish 1))))).
Proof.
  exists (run (handle_create_one_group 5 (mkBackgroundJob 1 (Some (JCreateOneGroup (group_job CgCreating 0)))) (group_job CgCreating 0)) fresh_world).
  split; [apply run_result|]; computed.
Qed.
(** A job that could not be written keeps its resource locked. *)
Lemma failed_append_keeps_lock :
  let w := mkWorld counters no_jobs [] user_groups ∅ {[1]} 0 in
  let w1 := run (core_append job1) w in
  mem_jobs (wd_core w1) = [] ∧ fst <$> core_append job1 w1 = Some (Err (AlreadyExists "job for target resource already exist")).
Proof. split; computed. Qed.
