(* ===== verification/Tso.v ===== *)
(** * Transaction identifiers ([server/src/root/mod.rs])

    [RootCore], [bump_txn_id] and [alloc_txn_id]: the leader of the root hands
    out identifiers below a bound that it has made durable first, and raises
    the bound in the background.  A request is a loop over two atomic
    variables; the calls of one leader, and of leaders that do not know yet
    that they were replaced, interleave. *)

From S2P Require Import Prelude Bytes F64 Api RocksDb Errors Schema Keys Engine EvalTxn GroupClient RootStats RootSchema.
From S2P Require Import RootSchemaProps.
#[local] Open Scope Z_scope.

(** The atomic variables of [RootCore]. *)
Record RootCore := mkRootCore { rc_next_txn_id : Z; rc_max_txn_id : Z }.
Definition store_next (v : Z) (c : RootCore) : RootCore := mkRootCore v (rc_max_txn_id c).
Definition store_max (v : Z) (c : RootCore) : RootCore := mkRootCore (rc_next_txn_id c) v.
Definition TXN_ID_WINDOW : Z := 5000000000.
(** The bound that [bump_txn_id] makes durable, and then stores. *)
Definition bump_target (now : Z) (c : RootCore) : Z := u64_add (Z.max (rc_max_txn_id c) now) TXN_ID_WINDOW.

(** Where a call of [alloc_txn_id] is in its loop. *)
Inductive AllocPc := LoadNext | LoadMax (next : Z) | Cas (next : Z).
Definition alloc_step (num_required : Z) (pc : AllocPc) (c : RootCore) : RootCore * (AllocPc + Result Z) :=
  match pc with
  | LoadNext => (c, inl (LoadMax (rc_next_txn_id c)))
  | LoadMax next =>
      if rc_max_txn_id c =? 0 then (c, inr (Err (NotLeader 0 0 None)))
      else if rc_max_txn_id c <? u64_add next num_required then (c, inl LoadNext)
      else (c, inl (Cas next))
  | Cas next =>
      if rc_next_txn_id c =? next then (store_next (u64_add next num_required) c, inr (Ok next))
      else (c, inl LoadNext)
  end.
(** A call that nobody disturbs. *)
Fixpoint alloc_loop (fuel : nat) (num_required : Z) (pc : AllocPc) (c : RootCore) : option (Result Z * RootCore) :=
  match fuel with
  | O => None
  | S fuel' =>
      match alloc_step num_required pc c with
      | (c, inl pc) => alloc_loop fuel' num_required pc c
      | (c, inr r) => Some (r, c)
      end
  end.
Definition alloc_txn_id (fuel : nat) (num_required : Z) (core : option RootCore) : option (Result Z * option RootCore) :=
  match core with
  | None => Some (Err (NotRootLeader (mkRootDesc 0 []) 0 None), None)
  | Some c => (λ p, (p.1, Some p.2)) <$> alloc_loop fuel num_required LoadNext c
  end.

Section Leader.
  Context {W : Type} {RR : RootReplica W}.
  Abbreviation M := (prog W Error).
Definition bump_txn_id (c : RootCore) : M RootCore := λ w,
  let next_txn_id := bump_target (rr_timestamp_nanos w) c in
  (do* set_txn_id next_txn_id in prog_lift (Ok (store_max next_txn_id c))) w.
(** What [step_leader] does to get its [RootCore]. *)
Definition step_leader_core : M RootCore :=
  let* m := max_txn_id in bump_txn_id (mkRootCore m m).

(** ** Leaders and calls, interleaved *)
(** The task that raises the bound: between rounds, with a bound written but
    not yet stored, the same after it was aborted, or ended. *)
Inductive Bumper := BIdle | BWrote (v : Z) | BLast (v : Z) | BStopped.
Record Tso := mkTso {
  ts_world : W;
  ts_cores : list (RootCore * Bumper);       (* one per leader, in the order of their terms *)
  ts_calls : list (nat * Z * AllocPc);       (* whose core, how many, where *)
  ts_given : list (nat * Z * Z) }.           (* whose core, first identifier, how many *)
Definition bumper_after (r : Result unit) (v : Z) : Bumper := match r with Ok _ => BWrote v | _ => BStopped end.
Definition bumper_stored (b : Bumper) : Bumper := match b with BWrote _ => BIdle | _ => BStopped end.
Definition bumper_aborted (b : Bumper) : Bumper := match b with BWrote v => BLast v | BLast v => BLast v | _ => BStopped end.
(** Calls ask for at most [limit] identifiers; whatever else happens to the
    catalog leaves the bound alone.
    A write of a leader takes effect only while no later one was elected: the
    root group refuses the proposals of older terms. *)
Inductive tso_step (kv : W → contents) (limit : Z) : Tso → Tso → Prop :=
  | tso_other w cores calls given w' : counter META_TXN_ID_KEY (kv w') = counter META_TXN_ID_KEY (kv w) →
      tso_step kv limit (mkTso w cores calls given) (mkTso w' cores calls given)
  | tso_elect w cores calls given m w' : max_txn_id w = Some (Ok m, w') →
      tso_step kv limit (mkTso w cores calls given) (mkTso w' (cores ++ [(mkRootCore m m, BIdle)]) calls given)
  | tso_bump w cores c calls given r w' : set_txn_id (bump_target (rr_timestamp_nanos w) c) w = Some (r, w') →
      tso_step kv limit (mkTso w (cores ++ [(c, BIdle)]) calls given)
        (mkTso w' (cores ++ [(c, bumper_after r (bump_target (rr_timestamp_nanos w) c))]) calls given)
  | tso_store w cores i c b v calls given : cores !! i = Some (c, b) → b = BWrote v ∨ b = BLast v →
      tso_step kv limit (mkTso w cores calls given) (mkTso w (<[i := (store_max v c, bumper_stored b)]> cores) calls given)
  | tso_step_down w cores i c b calls given : cores !! i = Some (c, b) →
      tso_step kv limit (mkTso w cores calls given) (mkTso w (<[i := (store_max 0 c, bumper_aborted b)]> cores) calls given)
  | tso_call w cores i num calls given : 0 ≤ num ≤ limit →
      tso_step kv limit (mkTso w cores calls given) (mkTso w cores (calls ++ [(i, num, LoadNext)]) given)
  | tso_run w cores j i num pc c b c' pc' calls given : calls !! j = Some (i, num, pc) → cores !! i = Some (c, b) →
      alloc_step num pc c = (c', inl pc') →
      tso_step kv limit (mkTso w cores calls given) (mkTso w (<[i := (c', b)]> cores) (<[j := (i, num, pc')]> calls) given)
  | tso_fail w cores j i num pc c b c' e calls given : calls !! j = Some (i, num, pc) → cores !! i = Some (c, b) →
      alloc_step num pc c = (c', inr (Err e)) →
      tso_step kv limit (mkTso w cores calls given) (mkTso w (<[i := (c', b)]> cores) (delete j calls) given)
  | tso_give w cores j i num pc c b c' base calls given : calls !! j = Some (i, num, pc) → cores !! i = Some (c, b) →
      alloc_step num pc c = (c', inr (Ok base)) →
      tso_step kv limit (mkTso w cores calls given) (mkTso w (<[i := (c', b)]> cores) (delete j calls) (given ++ [(i, base, num)])).
End Leader.
Arguments Tso : clear implicits.

(** * No transaction identifier is handed out twice *)
Section Unique.
  Context {W : Type} {RR : RootReplica W} {kv : W → contents} {OK : RootReplicaOk RR kv}.
  Context (limit : Z).

(** ** The bound in the catalog *)
Lemma max_txn_id_runs m :
  runs kv max_txn_id m (λ r m', m' = m ∧ ∀ z, r = Ok z → counter META_TXN_ID_KEY m = Some z).
Proof.
  apply runs_bind. eapply runs_weaken; [by apply schema_get_runs|]. cbn. intros r m' [-> Hr].
  destruct r as [v|e|]; [|done..]. destruct Hr as [Hr|[= ->]]; [by destruct (Hr v)|].
  apply runs_bind, runs_lift. unfold counter. destruct (m !! _) as [v|]; cbn; [|done].
  apply runs_lift. split; [done|]. intros z. destruct (u64_from_le v); cbn; congruence.
Qed.
Lemma set_txn_id_runs z m : u64_ok z →
  runs kv (set_txn_id z) m (λ r m', counter META_TXN_ID_KEY m' = Some z ∨
    (counter META_TXN_ID_KEY m' = counter META_TXN_ID_KEY m ∧ failed r)).
Proof.
  intros Hz. eapply runs_weaken; [by apply schema_put_runs|]. cbn beta. intros r m' [->|[-> Hr]]; [|by right].
  left. rewrite counter_put by done. by rewrite decide_True.
Qed.

(** ** The invariant *)
(** A leader serves identifiers from [lo] on, and never above [hi]. *)
Record core_ok (p : Z) (cb : RootCore * Bumper) (lo hi : Z) : Prop := {
  ck_next : 0 ≤ lo ≤ rc_next_txn_id cb.1 ∧ rc_next_txn_id cb.1 ≤ hi;
  ck_max : 0 ≤ rc_max_txn_id cb.1 ≤ hi;
  ck_hi : hi ≤ p;
  ck_idle : cb.2 = BIdle → rc_max_txn_id cb.1 = hi;
  ck_wrote : ∀ v, cb.2 = BWrote v → v = hi;
  ck_last : ∀ v, cb.2 = BLast v → 0 ≤ v ≤ hi }.
Definition call_ok (gs : list (Z * Z)) (call : nat * Z * AllocPc) : Prop :=
  let '(i, num, pc) := call in
  0 ≤ num ≤ limit ∧
    match pc with
    | LoadNext => True
    | LoadMax next => ∃ lo hi, gs !! i = Some (lo, hi) ∧ 0 ≤ next ≤ hi
    | Cas next => ∃ lo hi, gs !! i = Some (lo, hi) ∧ 0 ≤ next ∧ next + num ≤ hi
    end.
Definition given_ok (cores : list (RootCore * Bumper)) (gs : list (Z * Z)) (g : nat * Z * Z) : Prop :=
  let '(i, base, num) := g in
  0 ≤ num ∧ ∃ cb lo hi, cores !! i = Some cb ∧ gs !! i = Some (lo, hi) ∧ lo ≤ base ∧ base + num ≤ rc_next_txn_id cb.1.
(** What was given by one leader, in the order in which it was given. *)
Definition in_order (given : list (nat * Z * Z)) : Prop :=
  ∀ k1 k2 i b1 n1 b2 n2, (k1 < k2)%nat → given !! k1 = Some (i, b1, n1) → given !! k2 = Some (i, b2, n2) → b1 + n1 ≤ b2.
Record tso_inv (bound : Z) (s : Tso W) (gs : list (Z * Z)) : Prop := {
  ti_bound : ∃ p, counter META_TXN_ID_KEY (kv (ts_world s)) = Some p ∧ 0 ≤ p ≤ bound ∧
    ∀ i cb lo hi, ts_cores s !! i = Some cb → gs !! i = Some (lo, hi) → core_ok p cb lo hi;
  ti_length : length gs = length (ts_cores s);
  ti_terms : ∀ i j lo hi lo' hi', (i < j)%nat → gs !! i = Some (lo, hi) → gs !! j = Some (lo', hi') → hi ≤ lo';
  ti_calls : Forall (call_ok gs) (ts_calls s);
  ti_given : Forall (given_ok (ts_cores s) gs) (ts_given s);
  ti_order : in_order (ts_given s) }.

Lemma tso_inv_weaken b b' s gs : b ≤ b' → tso_inv b s gs → tso_inv b' s gs.
Proof. intros Hb [(p & Hp & Hr & Hc) ? ? ? ? ?]. split; try done. exists p. split_and!; [done|lia|lia|done]. Qed.
Lemma given_ok_cores cores cores' gs g :
  (∀ i cb, cores !! i = Some cb → ∃ cb', cores' !! i = Some cb' ∧ rc_next_txn_id cb.1 ≤ rc_next_txn_id cb'.1) →
  given_ok cores gs g → given_ok cores' gs g.
Proof.
  intros Hmon. destruct g as [[i base] num]. intros [Hn (cb & lo & hi & Hi & Hg & Hlo & Hb)]. split; [done|].
  destruct (Hmon i cb Hi) as (cb' & Hi' & Hle). exists cb', lo, hi. split_and!; [done..|lia].
Qed.
(** A step that touches one core, raising its next identifier at most. *)
Lemma tso_inv_core b s gs i cb cb' calls lo hi :
  tso_inv b s gs → ts_cores s !! i = Some cb → gs !! i = Some (lo, hi) →
  (∀ p, core_ok p cb lo hi → core_ok p cb' lo hi) → rc_next_txn_id cb.1 ≤ rc_next_txn_id cb'.1 →
  Forall (call_ok gs) calls → tso_inv b (mkTso (ts_world s) (<[i := cb']> (ts_cores s)) calls (ts_given s)) gs.
Proof.
  intros [(p & Hp & Hr & Hc) Hlen Ht _ Hgv Ho] Hi Hg Hcb Hle Hcalls. split; cbn; try done.
  - exists p. split_and!; [done|lia|lia|]. intros i' cb0 lo0 hi0 Hi' Hg'. destruct (decide (i' = i)) as [->|Hne].
    + rewrite list_lookup_insert_eq in Hi' by (by eapply lookup_lt_Some). simplify_eq. by eapply Hcb, Hc.
    + rewrite list_lookup_insert_ne in Hi' by done. by eapply Hc.
  - by rewrite length_insert.
  - eapply Forall_impl; [done|]. intros g. apply given_ok_cores. intros i' cb0 Hi'. destruct (decide (i' = i)) as [->|Hne].
    + exists cb'. rewrite list_lookup_insert_eq by (by eapply lookup_lt_Some). by simplify_eq.
    + exists cb0. by rewrite list_lookup_insert_ne.
Qed.
Lemma ghost_of b s gs i cb : tso_inv b s gs → ts_cores s !! i = Some cb → ∃ lo hi, gs !! i = Some (lo, hi).
Proof.
  intros [_ Hlen _ _ _ _] Hi. apply lookup_lt_Some in Hi. rewrite <- Hlen in Hi. apply lookup_lt_is_Some in Hi as [[lo hi] Hg]. eauto.
Qed.
Lemma ghost_snoc (gs : list (Z * Z)) n : length gs = S n → ∃ gs0 lo hi, gs = gs0 ++ [(lo, hi)] ∧ length gs0 = n.
Proof.
  intros Hl. destruct gs as [|[lo hi] gs0] using rev_ind; [done|]. rewrite length_app in Hl. cbn in Hl.
  exists gs0, lo, hi. split; [done|lia].
Qed.
Lemma core_below p p' cb lo hi : hi ≤ p' → core_ok p cb lo hi → core_ok p' cb lo hi.
Proof. intros Hp [? ? ? ? ? ?]. by split. Qed.
Lemma same_next (cores : list (RootCore * Bumper)) c b b' i cb : (cores ++ [(c, b)]) !! i = Some cb →
  ∃ cb', (cores ++ [(c, b')]) !! i = Some cb' ∧ rc_next_txn_id cb.1 ≤ rc_next_txn_id cb'.1.
Proof.
  intros Hi. apply lookup_snoc_Some in Hi as [[Hlt Hi]|[-> <-]].
  - exists cb. split; [by apply lookup_app_l_Some|done].
  - exists (c, b'). split; [by apply list_lookup_middle|done].
Qed.
(** The ghost bounds may grow, and leaders are added. *)
Lemma call_ok_ghost gs gs' call :
  (∀ i lo hi, gs !! i = Some (lo, hi) → ∃ hi', gs' !! i = Some (lo, hi') ∧ hi ≤ hi') → call_ok gs call → call_ok gs' call.
Proof.
  intros Hgs. destruct call as [[i num] [|next|next]]; intros [Hn Hpc]; (split; [done|]); [done| |];
    destruct Hpc as (lo & hi & Hg & Hb); destruct (Hgs i lo hi Hg) as (hi' & Hg' & Hle); exists lo, hi'; split; [done|lia|done|lia].
Qed.
Lemma given_ok_ghost cores cores' gs gs' g :
  (∀ i lo hi, gs !! i = Some (lo, hi) → ∃ hi', gs' !! i = Some (lo, hi') ∧ hi ≤ hi') →
  (∀ i cb, cores !! i = Some cb → ∃ cb', cores' !! i = Some cb' ∧ rc_next_txn_id cb.1 ≤ rc_next_txn_id cb'.1) →
  given_ok cores gs g → given_ok cores' gs' g.
Proof.
  intros Hgs Hcs. destruct g as [[i base] num]. intros [Hn (cb & lo & hi & Hi & Hg & Hlo & Hb)]. split; [done|].
  destruct (Hgs i lo hi Hg) as (hi' & Hg' & _), (Hcs i cb Hi) as (cb' & Hi' & Hle). exists cb', lo, hi'. split_and!; [done..|lia].
Qed.
Lemma elect_inv b w cores calls given m w' gs :
  tso_inv b (mkTso w cores calls given) gs → max_txn_id w = Some (Ok m, w') →
  tso_inv b (mkTso w' (cores ++ [(mkRootCore m m, BIdle)]) calls given) (gs ++ [(m, m)]).
Proof.
  intros [(p & Hp & Hr & Hc) Hlen Ht Hcl Hgv Ho] E. cbn in *.
  destruct (max_txn_id_runs (kv w) w _ w' eq_refl E) as [Hw Hm]. rewrite (Hm m eq_refl) in Hp. injection Hp as <-.
  assert (∀ i lo hi, gs !! i = Some (lo, hi) → ∃ hi', (gs ++ [(m, m)]) !! i = Some (lo, hi') ∧ hi ≤ hi') as Hgs.
  { intros i lo hi Hg. exists hi. split; [by apply lookup_app_l_Some|done]. }
  split; cbn.
  - exists m. rewrite Hw. split_and!; [by apply Hm|lia|lia|]. intros i cb lo hi Hi Hg.
    apply lookup_snoc_Some in Hi as [[Hlt Hi]|[-> <-]].
    + rewrite lookup_app_l in Hg by lia. by eapply Hc.
    + rewrite <- Hlen, list_lookup_middle in Hg by done. injection Hg as <- <-. split; cbn; try done; lia.
  - rewrite !length_app. cbn. lia.
  - intros i j lo hi lo' hi' Hij Hgi Hgj. apply lookup_snoc_Some in Hgj as [[Hlt Hgj]|[-> [= <- <-]]].
    + rewrite lookup_app_l in Hgi by lia. by apply (Ht i j lo hi lo' hi').
    + rewrite lookup_app_l in Hgi by done. rewrite Hlen in Hij. apply lookup_lt_is_Some in Hij as [cb Hi].
      by apply (Hc i cb lo hi Hi Hgi).
  - eapply Forall_impl; [done|]. intros call. by apply call_ok_ghost.
  - eapply Forall_impl; [done|]. intros g. apply given_ok_ghost; [done|]. intros i cb Hi. exists cb.
    split; [by apply lookup_app_l_Some|done].
  - done.
Qed.
Lemma bump_inv b B w cores c calls given r w' gs :
  0 ≤ rr_timestamp_nanos w ≤ B → B ≤ b → b + TXN_ID_WINDOW ≤ u64_MAX →
  tso_inv b (mkTso w (cores ++ [(c, BIdle)]) calls given) gs →
  set_txn_id (bump_target (rr_timestamp_nanos w) c) w = Some (r, w') →
  ∃ gs', tso_inv (b + TXN_ID_WINDOW)
    (mkTso w' (cores ++ [(c, bumper_after r (bump_target (rr_timestamp_nanos w) c))]) calls given) gs'.
Proof.
  intros Hnow HB Hroom [(p & Hp & Hr & Hc) Hlen Ht Hcl Hgv Ho] E. cbn in *. rewrite length_app in Hlen. cbn in Hlen.
  destruct (ghost_snoc gs (length cores)) as (gs0 & lo & hi & -> & Hlen0); [lia|].
  assert (core_ok p (c, BIdle) lo hi) as [Hnx Hmx Hhi Hid _ _].
  { eapply (Hc (length cores)); [by apply list_lookup_middle|by rewrite <- Hlen0; apply list_lookup_middle]. }
  cbn in *. specialize (Hid eq_refl). unfold TXN_ID_WINDOW in *.
  set (v := bump_target _ _) in *. assert (v = Z.max (rc_max_txn_id c) (rr_timestamp_nanos w) + 5000000000) as Hv.
  { unfold v, bump_target, u64_add, TXN_ID_WINDOW. apply u64_wrap_small. unfold u64_ok. lia. }
  assert (u64_ok v) as Hvo by (unfold u64_ok; lia).
  destruct (set_txn_id_runs v (kv w) Hvo w r w' eq_refl E) as [Hw|[Hw Hf]].
  2: { (* no effect *)
    exists (gs0 ++ [(lo, hi)]). assert (bumper_after r v = BStopped) as ->. { destruct r as [u|e|]; [by destruct (Hf u)|done..]. }
    split; cbn; try done; [|by rewrite !length_app; cbn; lia|].
    - exists p. rewrite Hw. split_and!; [done|lia|lia|]. intros i cb lo1 hi1 Hi Hg.
      apply lookup_snoc_Some in Hi as [[Hlt Hi]|[-> <-]]; [eapply Hc; [|done]; by apply lookup_app_l_Some|].
      rewrite <- Hlen0, list_lookup_middle in Hg by done. injection Hg as <- <-. by split; cbn.
    - eapply Forall_impl; [done|]. intros g. apply given_ok_cores. by apply same_next. }
  exists (gs0 ++ [(lo, v)]).
  assert (∀ i lo1 hi1, (gs0 ++ [(lo, hi)]) !! i = Some (lo1, hi1) →
    ∃ hi2, (gs0 ++ [(lo, v)]) !! i = Some (lo1, hi2) ∧ hi1 ≤ hi2) as Hgs.
  { intros i lo1 hi1 Hg. apply lookup_snoc_Some in Hg as [[Hlt Hg]|[-> [= <- <-]]].
    - exists hi1. split; [by apply lookup_app_l_Some|done].
    - exists v. split; [by apply list_lookup_middle|lia]. }
  split; cbn; try done; [|by rewrite !length_app; cbn; lia| | |].
  - exists v. split_and!; [done|lia|lia|]. intros i cb lo1 hi1 Hi Hg.
    apply lookup_snoc_Some in Hi as [[Hlt Hi]|[-> <-]].
    + rewrite lookup_app_l in Hg by lia.
      eapply (core_below p); [|eapply Hc; by apply lookup_app_l_Some].
      assert (hi1 ≤ lo); [|lia]. apply (Ht i (length gs0) lo1 hi1 lo hi); [lia|by apply lookup_app_l_Some|by apply list_lookup_middle].
    + rewrite <- Hlen0, list_lookup_middle in Hg by done. injection Hg as <- <-.
      destruct r as [u|e|]; split; cbn; try done; try lia; by intros ? [=].
  - intros i j lo1 hi1 lo2 hi2 Hij Hgi Hgj. apply lookup_snoc_Some in Hgj as [[Hlt Hgj]|[-> [= <- <-]]].
    + rewrite lookup_app_l in Hgi by lia. apply (Ht i j lo1 hi1 lo2 hi2); [done|by apply lookup_app_l_Some..].
    + rewrite lookup_app_l in Hgi by done.
      apply (Ht i (length gs0) lo1 hi1 lo hi); [done|by apply lookup_app_l_Some|by apply list_lookup_middle].
  - eapply Forall_impl; [done|]. intros call. by apply call_ok_ghost.
  - eapply Forall_impl; [done|]. intros g. apply given_ok_ghost; [done|]. by apply same_next.
Qed.
(** One step of a call: where it stops it knows a bound that was granted. *)
Lemma run_call b s gs j i num pc c bm c' pc' :
  tso_inv b s gs → b + limit ≤ u64_MAX → ts_calls s !! j = Some (i, num, pc) → ts_cores s !! i = Some (c, bm) →
  alloc_step num pc c = (c', inl pc') → c' = c ∧ call_ok gs (i, num, pc').
Proof.
  intros Hinv Hroom Hj Hi E. destruct (ghost_of _ _ _ _ _ Hinv Hi) as (lo & hi & Hg).
  destruct Hinv as [(p & Hp & Hr & Hc) _ _ Hcl _ _]. destruct (Hc _ _ _ _ Hi Hg) as [Hnx Hmx Hhi _ _ _]. cbn in *.
  assert (call_ok gs (i, num, pc)) as [Hn Hpc] by (by eapply Forall_lookup_1).
  destruct pc as [|next|next]; cbn in E.
  - injection E as <- <-. split; [done|]. split; [done|]. exists lo, hi. split; [done|lia].
  - destruct (Z.eqb_spec (rc_max_txn_id c) 0) as [|Hm]; [done|].
    destruct Hpc as (lo' & hi' & Hg' & Hb). rewrite Hg in Hg'. injection Hg' as <- <-.
    unfold u64_add in E. rewrite u64_wrap_small in E by (unfold u64_ok; lia).
    destruct (Z.ltb_spec (rc_max_txn_id c) (next + num)) as [Hlt|Hge]; injection E as <- <-; split; try done.
    split; [done|]. exists lo, hi. split; [done|lia].
  - destruct (Z.eqb_spec (rc_next_txn_id c) next) as [Heq|Hne]; [done|]. by injection E as <- <-.
Qed.
Lemma give_call b s gs j i num pc c bm c' base :
  tso_inv b s gs → b + limit ≤ u64_MAX → ts_calls s !! j = Some (i, num, pc) → ts_cores s !! i = Some (c, bm) →
  alloc_step num pc c = (c', inr (Ok base)) →
  base = rc_next_txn_id c ∧ c' = store_next (base + num) c ∧ 0 ≤ num ∧ ∃ lo hi, gs !! i = Some (lo, hi) ∧ base + num ≤ hi.
Proof.
  intros Hinv Hroom Hj Hi E. destruct (ghost_of _ _ _ _ _ Hinv Hi) as (lo & hi & Hg).
  destruct Hinv as [(p & Hp & Hr & Hc) _ _ Hcl _ _]. destruct (Hc _ _ _ _ Hi Hg) as [_ _ Hhi _ _ _]. cbn in *.
  assert (call_ok gs (i, num, pc)) as [Hn Hpc] by (by eapply Forall_lookup_1).
  destruct pc as [|next|next]; cbn in E; [done|by repeat case_match|].
  destruct (Z.eqb_spec (rc_next_txn_id c) next) as [Heq|Hne]; [|done]. injection E as <- <-.
  destruct Hpc as (lo' & hi' & Hg' & Hb & Hle). rewrite Hg in Hg'. injection Hg' as <- <-.
  unfold u64_add. rewrite u64_wrap_small by (unfold u64_ok; lia). split_and!; [done..|lia|]. by exists lo, hi.
Qed.
Lemma give_inv b s gs j i num pc c bm c' base :
  tso_inv b s gs → b + limit ≤ u64_MAX → ts_calls s !! j = Some (i, num, pc) → ts_cores s !! i = Some (c, bm) →
  alloc_step num pc c = (c', inr (Ok base)) →
  tso_inv b (mkTso (ts_world s) (<[i := (c', bm)]> (ts_cores s)) (delete j (ts_calls s)) (ts_given s ++ [(i, base, num)])) gs.
Proof.
  intros Hinv Hroom Hj Hi E. destruct (give_call _ _ _ _ _ _ _ _ _ _ _ Hinv Hroom Hj Hi E) as (-> & -> & Hnum & lo & hi & Hg & Hle).
  set (c' := store_next _ c) in *.
  assert (tso_inv b (mkTso (ts_world s) (<[i := (c', bm)]> (ts_cores s)) (delete j (ts_calls s)) (ts_given s)) gs) as Hinv'.
  { eapply tso_inv_core; [done..| |cbn; lia|by apply Forall_delete, Hinv].
    intros p [? ? ? ? ? ?]. split; cbn in *; try done; lia. }
  destruct Hinv' as [Hb Hlen Ht Hcl Hgv Ho]. split; cbn in *; try done.
  - apply Forall_app. split; [done|]. apply Forall_singleton. split; [done|]. exists (c', bm), lo, hi.
    rewrite list_lookup_insert_eq by (by eapply lookup_lt_Some). split_and!; [done..| |cbn; lia].
    destruct Hinv as [(p & _ & _ & Hc) _ _ _ _ _]. by destruct (Hc _ _ _ _ Hi Hg) as [[[_ ?] _] _ _ _ _ _].
  - intros k1 k2 i' b1 n1 b2 n2 Hk H1 H2. apply lookup_snoc_Some in H2 as [[Hlt H2]|[-> [= <- <- <-]]].
    + rewrite lookup_app_l in H1 by lia. by apply (Ho k1 k2 i' b1 n1 b2 n2).
    + rewrite lookup_app_l in H1 by done. destruct Hinv as [_ _ _ _ Hgv0 _].
      destruct (Forall_lookup_1 _ _ _ _ Hgv0 H1) as [_ (cb & lo' & hi' & Hi' & _ & _ & Hle')]. rewrite Hi in Hi'. by injection Hi' as <-.
Qed.
Lemma store_core_ok p c b v lo hi : b = BWrote v ∨ b = BLast v → core_ok p (c, b) lo hi → core_ok p (store_max v c, bumper_stored b) lo hi.
Proof.
  intros Hb [? ? ? ? Hw Hl]. cbn in *. destruct Hb as [->| ->]; [rewrite (Hw v eq_refl) in *|specialize (Hl v eq_refl)];
    split; cbn; try done; lia.
Qed.
Lemma down_core_ok p c b lo hi : core_ok p (c, b) lo hi → core_ok p (store_max 0 c, bumper_aborted b) lo hi.
Proof.
  intros [Hn Hm Hh _ Hw Hl]. cbn in *. assert (0 ≤ hi) as H0 by lia. split; cbn; [done|lia|done|by destruct b|by intros v; destruct b|].
  intros v Hb. destruct b as [|v'|v'|]; try done; injection Hb as <-; [rewrite (Hw v' eq_refl); lia|by apply Hl].
Qed.
Lemma tso_step_inv b B s gs s' : (∀ w, 0 ≤ rr_timestamp_nanos w ≤ B) → B ≤ b → b + TXN_ID_WINDOW + limit ≤ u64_MAX → 0 ≤ limit →
  tso_inv b s gs → tso_step kv limit s s' → ∃ gs', tso_inv (b + TXN_ID_WINDOW) s' gs'.
Proof.
  intros Hclock HB Hroom Hlim Hinv St. assert (b ≤ b + TXN_ID_WINDOW) as Hb by (unfold TXN_ID_WINDOW; lia).
  assert (b + limit ≤ u64_MAX) as Hroom' by (unfold TXN_ID_WINDOW in *; lia).
  destruct St as [w cores calls given w' Hw|w cores calls given m w' E|w cores c calls given r w' E|w cores i c bm v calls given Hi Hv|
    w cores i c bm calls given Hi|w cores i num calls given Hn|w cores j i num pc c bm c' pc' calls given Hj Hi E|
    w cores j i num pc c bm c' e calls given Hj Hi E|w cores j i num pc c bm c' base calls given Hj Hi E].
  - exists gs. eapply tso_inv_weaken; [done|]. destruct Hinv as [(p & Hp & Hr & Hc) ? ? ? ? ?]. split; try done. exists p. cbn. by rewrite Hw.
  - eexists. eapply tso_inv_weaken; [done|]. by eapply elect_inv.
  - eapply bump_inv; [by apply Hclock|done|lia|done|done].
  - destruct (ghost_of _ _ _ _ _ Hinv Hi) as (lo & hi & Hg). exists gs. eapply tso_inv_weaken; [done|].
    eapply (tso_inv_core _ (mkTso w cores calls given)); [done..| |done|by apply Hinv]. intros p. by apply store_core_ok.
  - destruct (ghost_of _ _ _ _ _ Hinv Hi) as (lo & hi & Hg). exists gs. eapply tso_inv_weaken; [done|].
    eapply (tso_inv_core _ (mkTso w cores calls given)); [done..| |done|by apply Hinv]. intros p. apply down_core_ok.
  - exists gs. eapply tso_inv_weaken; [done|]. destruct Hinv as [? ? ? Hcl ? ?]. split; try done. cbn in *.
    apply Forall_app. split; [done|]. by apply Forall_singleton.
  - destruct (ghost_of _ _ _ _ _ Hinv Hi) as (lo & hi & Hg). exists gs. eapply tso_inv_weaken; [done|].
    destruct (run_call _ _ _ _ _ _ _ _ _ _ _ Hinv Hroom' Hj Hi E) as [-> Hok].
    eapply (tso_inv_core _ (mkTso w cores calls given)); [done..|]. apply Forall_insert; [by apply Hinv|done].
  - destruct (ghost_of _ _ _ _ _ Hinv Hi) as (lo & hi & Hg). exists gs. eapply tso_inv_weaken; [done|].
    assert (c' = c) as ->. { destruct pc; cbn in E; repeat case_match; by simplify_eq. }
    eapply (tso_inv_core _ (mkTso w cores calls given)); [done..|]. apply Forall_delete. by apply Hinv.
  - exists gs. eapply tso_inv_weaken; [done|]. by eapply (give_inv _ (mkTso w cores calls given)).
Qed.
Lemma tso_run_inv B n b s gs s' : (∀ w, 0 ≤ rr_timestamp_nanos w ≤ B) → B ≤ b → 0 ≤ limit →
  b + Z.of_nat n * TXN_ID_WINDOW + limit ≤ u64_MAX → tso_inv b s gs → nsteps (tso_step kv limit) n s s' →
  ∃ b' gs', tso_inv b' s' gs'.
Proof.
  intros Hclock HB Hlim Hroom Hinv St. revert b gs HB Hroom Hinv. induction St as [s|n s s1 s2 St _ IH]; intros b gs HB Hroom Hinv; [by eauto|].
  unfold TXN_ID_WINDOW in *.
  destruct (tso_step_inv b B s gs s1 Hclock HB) as (gs1 & Hinv1); [unfold TXN_ID_WINDOW; lia|done..|].
  unfold TXN_ID_WINDOW in *. apply (IH (b + 5000000000) gs1); [lia|lia|done].
Qed.

(** C21: Transaction identifiers are unique: in every interleaving of the calls
    with each other, with the task that raises the bound (whose writes may fail
    or go unacknowledged) and with changes of the root's leader, where a leader
    that was replaced may go on serving the calls it has, and whatever the
    clocks say, two ranges that were handed out are disjoint; a leader hands
    them out in increasing order, and every leader above all earlier ones.
    The run may not be so long, nor a request so large, that 64 bits overflow:
    the root does not check the number requested, and one near the maximum
    turns the counter back ([huge_request_turns_back]). *)
Theorem txn_ids_unique B n w s' :
  (∀ w, 0 ≤ rr_timestamp_nanos w ≤ B) → 0 ≤ limit → B + Z.of_nat n * TXN_ID_WINDOW + limit ≤ u64_MAX →
  (∃ p, counter META_TXN_ID_KEY (kv w) = Some p ∧ 0 ≤ p ≤ B) →
  nsteps (tso_step kv limit) n (mkTso w [] [] []) s' →
  ∀ k1 k2 i1 b1 n1 i2 b2 n2, (k1 < k2)%nat → ts_given s' !! k1 = Some (i1, b1, n1) → ts_given s' !! k2 = Some (i2, b2, n2) →
    ((i1 ≤ i2)%nat → b1 + n1 ≤ b2) ∧ ((i2 < i1)%nat → b2 + n2 ≤ b1).
Proof.
  intros Hclock Hlim Hroom (p & Hp & Hr) St.
  assert (tso_inv B (mkTso w [] [] []) []) as Hinv.
  { split; cbn; try done. exists p. split_and!; [done|lia|lia|]. intros i cb lo hi Hi. by rewrite lookup_nil in Hi. }
  destruct (tso_run_inv B n B _ [] s' Hclock ltac:(lia) Hlim Hroom Hinv St) as (b' & gs & [(q & _ & _ & Hc) _ Ht _ Hgv Ho]).
  intros k1 k2 i1 b1 n1 i2 b2 n2 Hk H1 H2.
  destruct (Forall_lookup_1 _ _ _ _ Hgv H1) as [_ (cb1 & lo1 & hi1 & Hi1 & Hg1 & Hlo1 & Hb1)].
  destruct (Forall_lookup_1 _ _ _ _ Hgv H2) as [_ (cb2 & lo2 & hi2 & Hi2 & Hg2 & Hlo2 & Hb2)].
  destruct (Hc _ _ _ _ Hi1 Hg1) as [Hnx1 _ _ _ _ _], (Hc _ _ _ _ Hi2 Hg2) as [Hnx2 _ _ _ _ _]. split; intros Hi.
  - destruct (decide (i1 = i2)) as [->|Hne]; [by apply (Ho k1 k2 i2 b1 n1 b2 n2)|]. assert (hi1 ≤ lo2); [|lia]. apply (Ht i1 i2 lo1 hi1 lo2 hi2); [lia|done..].
  - assert (hi2 ≤ lo1); [|lia]. by apply (Ht i2 i1 lo2 hi2 lo1 hi1).
Qed.
End Unique.
