(* ===== verification/RootHub.v ===== *)
(** * Watchers and heartbeats of the root

    [server/src/root/watch.rs]: the hub that hands catalog changes to the
    watchers, and [HeartbeatQueue] of [root/mod.rs]: when which node gets its
    next heartbeat. *)

From S2P Require Import Prelude Bytes F64 Api Errors RootStats.
#[local] Open Scope Z_scope.

(** ** [watch.rs] *)
(** [WatcherInner], shared by the hub's handle and the client's. *)
Record WatcherInner := mkWatcherInner {
  wi_updates : list UpdateEvent; wi_deletes : list DeleteEvent; wi_err : option Error; wi_dropped : bool }.
Definition WatcherInner_default : WatcherInner := mkWatcherInner [] [] None false.
(** The watchers of the hub are those of [hub_watchers]; the others are only
    held by their clients. *)
Record WatchHub := mkWatchHub {
  hub_next_watcher_id : Z; hub_watchers : gset Z; hub_inners : gmap Z WatcherInner }.
Definition WatchHub_default : WatchHub := mkWatchHub 0 ∅ ∅.
Definition on_inner (id : Z) (f : WatcherInner → WatcherInner) (h : WatchHub) : WatchHub :=
  mkWatchHub (hub_next_watcher_id h) (hub_watchers h) (alter f id (hub_inners h)).
Definition on_watchers (f : gset Z → gset Z) (h : WatchHub) : WatchHub :=
  mkWatchHub (hub_next_watcher_id h) (f (hub_watchers h)) (hub_inners h).

Definition create_watcher (h : WatchHub) : Z * WatchHub :=
  let id := u64_add (hub_next_watcher_id h) 1 in
  (id, mkWatchHub id ({[id]} ∪ hub_watchers h) (<[id := WatcherInner_default]> (hub_inners h))).
Definition extend_events (updates : list UpdateEvent) (deletes : list DeleteEvent) (i : WatcherInner) : WatcherInner :=
  mkWatcherInner (wi_updates i ++ updates) (wi_deletes i ++ deletes) (wi_err i) (wi_dropped i).
Definition set_init_resp (id : Z) (updates : list UpdateEvent) (deletes : list DeleteEvent) : WatchHub → WatchHub :=
  on_inner id (extend_events updates deletes).
(** Dropping either handle marks what they share. *)
Definition set_dropped (i : WatcherInner) : WatcherInner := mkWatcherInner (wi_updates i) (wi_deletes i) (wi_err i) true.
Definition watcher_drop (id : Z) : WatchHub → WatchHub := on_inner id set_dropped.
Definition remove_watcher (id : Z) (h : WatchHub) : WatchHub :=
  if decide (id ∈ hub_watchers h) then watcher_drop id (on_watchers (λ s, s ∖ {[id]}) h) else h.
Definition watcher_notify (updates : list UpdateEvent) (deletes : list DeleteEvent) (err : option Error) (i : WatcherInner) : WatcherInner :=
  if wi_dropped i then i
  else
    let i := extend_events updates deletes i in
    match err, wi_err i with
    | Some _, None => mkWatcherInner (wi_updates i) (wi_deletes i) err (wi_dropped i)
    | _, _ => i
    end.
(** [WatchHub::notify]: the error is not passed on. *)
Definition hub_notify (updates : list UpdateEvent) (deletes : list DeleteEvent) (err : option Error) (h : WatchHub) : WatchHub :=
  mkWatchHub (hub_next_watcher_id h) (hub_watchers h)
    (map_imap (λ id i, Some (if decide (id ∈ hub_watchers h) then watcher_notify updates deletes None i else i)) (hub_inners h)).
Definition notify_updates (updates : list UpdateEvent) : WatchHub → WatchHub := hub_notify updates [] None.
Definition notify_deletes (deletes : list DeleteEvent) : WatchHub → WatchHub := hub_notify [] deletes None.
Definition notify_error (err : Error) : WatchHub → WatchHub := hub_notify [] [] (Some err).
Definition is_dropped (h : WatchHub) (id : Z) : bool := match hub_inners h !! id with Some i => wi_dropped i | None => true end.
Definition cleanup (h : WatchHub) : WatchHub := on_watchers (filter (λ id, is_dropped h id = false)) h.
(** [Stream::poll_next]. *)
Inductive Poll (A : Type) := Ready (a : A) | Pending.
Arguments Ready {A} a.
Arguments Pending {A}.
Record WatchResponse := mkWatchResponse { wr_updates : list UpdateEvent; wr_deletes : list DeleteEvent }.
Definition poll_next (id : Z) (h : WatchHub) : Poll (option (Error + WatchResponse)) * WatchHub :=
  match hub_inners h !! id with
  | None => (Ready None, h)
  | Some i =>
      if wi_dropped i then (Ready None, h)
      else
        match wi_err i with
        | Some err => (Ready (Some (inl err)), on_inner id (λ i, mkWatcherInner (wi_updates i) (wi_deletes i) None (wi_dropped i)) h)
        | None =>
            match wi_updates i, wi_deletes i with
            | [], [] => (Pending, h)
            | updates, deletes =>
                (Ready (Some (inr (mkWatchResponse updates deletes))),
                 on_inner id (λ i, mkWatcherInner [] [] (wi_err i) (wi_dropped i)) h)
            end
        end
  end.

(** ** [HeartbeatQueue] *)
Inductive QueueTask := QHeartbeat (node_id : Z) | QSentinel (sender : Z).
(** [tokio_util::time::DelayQueue]: [reset_at] panics on a key that is not in
    the queue; [poll_expired], repeated, takes what is due. *)
Class DelayQueue (DQ Key : Type) := {
  dq_insert_at : QueueTask → Z → DQ → Key * DQ;
  dq_reset_at : Key → Z → DQ → Result DQ;
  dq_poll_expired : Z → DQ → list QueueTask * DQ;
  dq_clear : DQ → DQ;
}.
Record HeartbeatQueue (DQ Key : Type) := mkHeartbeatQueue {
  hq_enable : bool; hq_delay : DQ; hq_node_scheduled : gmap Z (Key * Z) }.
Arguments mkHeartbeatQueue {DQ Key}.
Arguments hq_enable {DQ Key}.
Arguments hq_delay {DQ Key}.
Arguments hq_node_scheduled {DQ Key}.
Section Queue.
  Context {DQ Key : Type} {Q : DelayQueue DQ Key}.
  Abbreviation hq := (HeartbeatQueue DQ Key).
Definition schedule_one (when : Z) (node : Z) (q : hq) : Result hq :=
  match hq_node_scheduled q !! node with
  | Some (key, old_when) =>
      if when <? old_when then
        let? delay := dq_reset_at key when (hq_delay q) in
        Ok (mkHeartbeatQueue (hq_enable q) delay (<[node := (key, when)]> (hq_node_scheduled q)))
      else Ok q
  | None =>
      let '(key, delay) := dq_insert_at (QHeartbeat node) when (hq_delay q) in
      Ok (mkHeartbeatQueue (hq_enable q) delay (<[node := (key, when)]> (hq_node_scheduled q)))
  end.
Fixpoint schedule_all (when : Z) (nodes : list Z) (q : hq) : Result hq :=
  match nodes with
  | [] => Ok q
  | n :: nodes' => let? q := schedule_one when n q in schedule_all when nodes' q
  end.
Definition try_schedule (nodes : list Z) (when : Z) (q : hq) : Result hq :=
  if hq_enable q then schedule_all when nodes q else Ok q.
(** The sentinel that [wait_one_heartbeat_tick] puts in and then waits for. *)
Definition insert_sentinel (now sender : Z) (q : hq) : hq :=
  if hq_enable q then mkHeartbeatQueue (hq_enable q) (dq_insert_at (QSentinel sender) now (hq_delay q)).2 (hq_node_scheduled q)
  else q.
Definition heartbeats (tasks : list QueueTask) : list Z := omap (λ t, match t with QHeartbeat n => Some n | _ => None end) tasks.
Definition sentinels (tasks : list QueueTask) : list Z := omap (λ t, match t with QSentinel s => Some s | _ => None end) tasks.
(** The nodes to send a heartbeat to, and the waiters to wake. *)
Definition try_poll (now : Z) (q : hq) : list Z * list Z * hq :=
  if hq_enable q then
    let '(tasks, delay) := dq_poll_expired now (hq_delay q) in
    (heartbeats tasks, sentinels tasks,
     mkHeartbeatQueue (hq_enable q) delay (foldl (λ m n, delete n m) (hq_node_scheduled q) (heartbeats tasks)))
  else ([], [], q).
Definition queue_enable (enable : bool) (q : hq) : hq :=
  if eqb (hq_enable q) enable then q else mkHeartbeatQueue enable (dq_clear (hq_delay q)) ∅.
End Queue.

(** * What watchers see, and when heartbeats are due *)
(** ** The stream of a watcher *)
Inductive watch_op :=
  | OCreate
  | ONotify (updates : list UpdateEvent) (deletes : list DeleteEvent) (err : option Error)
  | ORemove (id : Z)
  | ODrop (id : Z)
  | OCleanup
  | OPoll (id : Z).
(** A poll also gives what it answers. *)
Definition hub_run (op : watch_op) (h : WatchHub) : option (Z * Poll (option (Error + WatchResponse))) * WatchHub :=
  match op with
  | OCreate => (None, (create_watcher h).2)
  | ONotify u d e => (None, hub_notify u d e h)
  | ORemove id => (None, remove_watcher id h)
  | ODrop id => (None, watcher_drop id h)
  | OCleanup => (None, cleanup h)
  | OPoll id => let '(r, h) := poll_next id h in (Some (id, r), h)
  end.
Fixpoint hub_runs (ops : list watch_op) (h : WatchHub) : list (Z * Poll (option (Error + WatchResponse))) * WatchHub :=
  match ops with
  | [] => ([], h)
  | op :: ops' => let '(r, h) := hub_run op h in let '(l, h) := hub_runs ops' h in (option_list r ++ l, h)
  end.
(** What watcher [id] was given, and what was to be given to everyone. *)
Definition seen (id : Z) (l : list (Z * Poll (option (Error + WatchResponse)))) : list WatchResponse :=
  omap (λ p, if p.1 =? id then match p.2 with Ready (Some (inr r)) => Some r | _ => None end else None) l.
Definition notified (ops : list watch_op) : list WatchResponse :=
  omap (λ op, match op with ONotify u d _ => Some (mkWatchResponse u d) | _ => None end) ops.
Definition updates_of (l : list WatchResponse) : list UpdateEvent := l ≫= wr_updates.
Definition deletes_of (l : list WatchResponse) : list DeleteEvent := l ≫= wr_deletes.
Definition keeps (id : Z) (op : watch_op) : Prop := op ≠ ORemove id ∧ op ≠ ODrop id.
(** The watcher is registered, undropped, and has this queued. *)
Record waiting (id : Z) (h : WatchHub) (u : list UpdateEvent) (d : list DeleteEvent) : Prop := {
  wt_in : id ∈ hub_watchers h;
  wt_id : id ≤ hub_next_watcher_id h;
  wt_inner : hub_inners h !! id = Some (mkWatcherInner u d None false) }.

Lemma waiting_create id h u d : waiting id h u d → hub_next_watcher_id h < u64_MAX → 0 ≤ id →
  waiting id (create_watcher h).2 u d ∧ hub_next_watcher_id (create_watcher h).2 = hub_next_watcher_id h + 1.
Proof.
  intros [Hin Hid Hi] Hroom H0. unfold create_watcher. cbn.
  assert (u64_add (hub_next_watcher_id h) 1 = hub_next_watcher_id h + 1) as ->.
  { unfold u64_add. apply u64_wrap_small. unfold u64_ok. lia. }
  split; [|done]. split; cbn; [set_solver|lia|]. by rewrite lookup_insert_ne by lia.
Qed.
Lemma waiting_notify id h u d us ds e : waiting id h u d → waiting id (hub_notify us ds e h) (u ++ us) (d ++ ds).
Proof.
  intros [Hin Hid Hi]. split; [done..|]. unfold hub_notify. cbn. rewrite map_lookup_imap, Hi. cbn. by rewrite decide_True.
Qed.
Lemma waiting_other id id' f h u d : id' ≠ id → waiting id h u d → waiting id (on_inner id' f h) u d.
Proof. intros Hne [Hin Hid Hi]. split; [done..|]. cbn. by rewrite lookup_alter_ne. Qed.
Lemma waiting_remove id id' h u d : id' ≠ id → waiting id h u d → waiting id (remove_watcher id' h) u d.
Proof.
  intros Hne Hw. unfold remove_watcher. case_decide; [|done]. apply waiting_other; [done|]. destruct Hw. split; try done. cbn. set_solver.
Qed.
Lemma waiting_cleanup id h u d : waiting id h u d → waiting id (cleanup h) u d.
Proof.
  intros [Hin Hid Hi]. split; try done. cbn. apply elem_of_filter. split; [|done]. unfold is_dropped. by rewrite Hi.
Qed.
Lemma waiting_poll id h u d : waiting id h u d →
  (u = [] ∧ d = [] ∧ poll_next id h = (Pending, h)) ∨
  (∃ h', poll_next id h = (Ready (Some (inr (mkWatchResponse u d))), h') ∧ waiting id h' [] [] ∧
    hub_next_watcher_id h' = hub_next_watcher_id h).
Proof.
  intros [Hin Hid Hi]. unfold poll_next. rewrite Hi. cbn.
  destruct u as [|u0 u], d as [|d0 d]; [by left|right..]; eexists; (split; [done|]); (split; [|done]);
    (split; [done..|]); cbn; by rewrite lookup_alter_eq, Hi.
Qed.
Lemma poll_other id id' h u d r h' : id' ≠ id → waiting id h u d → poll_next id' h = (r, h') →
  waiting id h' u d ∧ hub_next_watcher_id h' = hub_next_watcher_id h.
Proof.
  intros Hne Hw. unfold poll_next. destruct (hub_inners h !! id') as [i|]; [|intros [= _ <-]; by split].
  repeat case_match; intros [= _ <-]; (split; [|done]); try done; by apply waiting_other.
Qed.
Lemma hub_next_keeps op h : op ≠ OCreate → hub_next_watcher_id (hub_run op h).2 = hub_next_watcher_id h.
Proof.
  destruct op as [|? ? ?|id|id| |id]; intros Hne; try done; cbn.
  - unfold remove_watcher. by case_decide.
  - destruct (poll_next id h) as [r h'] eqn:E. unfold poll_next in E. repeat case_match; by simplify_eq.
Qed.

Lemma stream_runs id : 0 ≤ id → ∀ ops h u d, waiting id h u d → Forall (keeps id) ops →
  hub_next_watcher_id h + Z.of_nat (length ops) ≤ u64_MAX →
  ∃ u' d', waiting id (hub_runs ops h).2 u' d' ∧
    updates_of (seen id (hub_runs ops h).1) ++ u' = u ++ updates_of (notified ops) ∧
    deletes_of (seen id (hub_runs ops h).1) ++ d' = d ++ deletes_of (notified ops) ∧
    Forall (λ p, p.1 = id → p.2 ≠ Ready None) (hub_runs ops h).1.
Proof.
  intros H0 ops. induction ops as [|op ops IH]; intros h u d Hw Hk Hroom.
  { exists u, d. cbn. by rewrite !app_nil_r. }
  apply Forall_cons in Hk as [[Hk1 Hk2] Hk]. cbn [length] in Hroom. cbn [hub_runs].
  assert (op ≠ OCreate → hub_next_watcher_id (hub_run op h).2 = hub_next_watcher_id h) as Hnext by apply hub_next_keeps.
  assert (∀ h1 u1 d1, waiting id h1 u1 d1 → hub_next_watcher_id h1 ≤ hub_next_watcher_id h + 1 →
    ∃ u' d', waiting id (hub_runs ops h1).2 u' d' ∧
    updates_of (seen id (hub_runs ops h1).1) ++ u' = u1 ++ updates_of (notified ops) ∧
    deletes_of (seen id (hub_runs ops h1).1) ++ d' = d1 ++ deletes_of (notified ops) ∧
    Forall (λ p, p.1 = id → p.2 ≠ Ready None) (hub_runs ops h1).1) as IH'.
  { intros h1 u1 d1 Hw1 Hn1. apply IH; [done..|lia]. }
  clear IH. destruct op as [|us ds e|id'|id'| |id']; cbn in *.
  - destruct (waiting_create id h u d Hw ltac:(lia) H0) as [Hw' Hn].
    destruct (IH' _ u d Hw' ltac:(lia)) as (u' & d' & ?). destruct (hub_runs ops _) as [l h']. by exists u', d'.
  - destruct (IH' _ _ _ (waiting_notify id h u d us ds e Hw) ltac:(by cbn; lia)) as (u' & d' & Hw' & Hu & Hd & Hf).
    destruct (hub_runs ops _) as [l h']. exists u', d'. cbn in *. unfold updates_of, deletes_of in *. cbn. rewrite !app_assoc. by rewrite Hu, Hd.
  - assert (id' ≠ id) as Hne by (by intros ->). specialize (Hnext ltac:(done)).
    destruct (IH' _ u d (waiting_remove id id' h u d Hne Hw) ltac:(by rewrite Hnext; lia)) as (u' & d' & ?).
    destruct (hub_runs ops _) as [l h']. by exists u', d'.
  - assert (id' ≠ id) as Hne by (by intros ->).
    destruct (IH' _ u d (waiting_other id id' set_dropped h u d Hne Hw) ltac:(by cbn; lia)) as (u' & d' & ?).
    unfold watcher_drop. destruct (hub_runs ops _) as [l h']. by exists u', d'.
  - destruct (IH' _ u d (waiting_cleanup id h u d Hw) ltac:(by cbn; lia)) as (u' & d' & ?).
    destruct (hub_runs ops _) as [l h']. by exists u', d'.
  - destruct (decide (id' = id)) as [->|Hne].
    + destruct (waiting_poll id h u d Hw) as [(-> & -> & E)|(h1 & E & Hw1 & Hn1)]; rewrite E.
      * destruct (IH' h [] [] Hw ltac:(lia)) as (u' & d' & Hw' & Hu & Hd & Hf). destruct (hub_runs ops h) as [l h'].
        exists u', d'. cbn in *. rewrite Z.eqb_refl. split_and!; [done..|]. by constructor.
      * destruct (IH' h1 [] [] Hw1 ltac:(lia)) as (u' & d' & Hw' & Hu & Hd & Hf). destruct (hub_runs ops h1) as [l h'].
        exists u', d'. cbn in *. rewrite Z.eqb_refl. cbn. unfold updates_of, deletes_of in *. cbn. rewrite <- !app_assoc, Hu, Hd.
        split_and!; [done..|]. by constructor.
    + destruct (poll_next id' h) as [r h1] eqn:E. destruct (poll_other id id' h u d r h1 Hne Hw E) as [Hw1 Hn1].
      destruct (IH' h1 u d Hw1 ltac:(lia)) as (u' & d' & Hw' & Hu & Hd & Hf). destruct (hub_runs ops h1) as [l h'].
      exists u', d'. cbn in *. rewrite (proj2 (Z.eqb_neq id' id)) by done. split_and!; [done..|]. by constructor.
Qed.

(** ** The heartbeat queue *)
Class DelayQueueOk {DQ Key : Type} `{Countable Key} (Q : DelayQueue DQ Key) (entries : DQ → gmap Key (QueueTask * Z)) := {
  dqo_insert : ∀ t w q k q', dq_insert_at t w q = (k, q') → entries q !! k = None ∧ entries q' = <[k := (t, w)]> (entries q);
  dqo_reset : ∀ k w q t w0, entries q !! k = Some (t, w0) → ∃ q', dq_reset_at k w q = Ok q' ∧ entries q' = <[k := (t, w)]> (entries q);
  dqo_poll : ∀ now q ts q', dq_poll_expired now q = (ts, q') → entries q' ⊆ entries q ∧
    ts ≡ₚ (λ p, p.2.1) <$> map_to_list (entries q ∖ entries q') ∧
    ∀ k t w, entries q !! k = Some (t, w) → entries q' !! k = None → w ≤ now;
  dqo_clear : ∀ q, entries (dq_clear q) = ∅;
}.
Section Queue.
  Context {DQ Key : Type} `{Countable Key} {Q : DelayQueue DQ Key} {entries : DQ → gmap Key (QueueTask * Z)} {QO : DelayQueueOk Q entries}.
  Abbreviation hq := (HeartbeatQueue DQ Key).
(** The index and the queue say the same. *)
Definition queue_ok (q : hq) : Prop :=
  ∀ node key when, hq_node_scheduled q !! node = Some (key, when) ↔ entries (hq_delay q) !! key = Some (QHeartbeat node, when).
Inductive queue_step : hq → hq → Prop :=
  | qs_schedule nodes when q q' : try_schedule nodes when q = Ok q' → queue_step q q'
  | qs_sentinel now sender q : queue_step q (insert_sentinel now sender q)
  | qs_poll now q : queue_step q (try_poll now q).2
  | qs_enable b q : queue_step q (queue_enable b q).

Lemma schedule_one_ok when node q : queue_ok q → ∃ q', schedule_one when node q = Ok q' ∧ queue_ok q' ∧ hq_enable q' = hq_enable q ∧
  (∀ n, n ≠ node → hq_node_scheduled q' !! n = hq_node_scheduled q !! n) ∧
  ∃ key, hq_node_scheduled q' !! node =
    Some (key, match hq_node_scheduled q !! node with Some (_, old) => Z.min when old | None => when end).
Proof.
  intros Hq. unfold schedule_one. destruct (hq_node_scheduled q !! node) as [[key old]|] eqn:E.
  - destruct (Z.ltb_spec when old) as [Hlt|Hge]; [|exists q; replace (Z.min when old) with old by lia; by eauto 10].
    assert (Hk := E). apply Hq in Hk. destruct (dqo_reset key when _ _ _ Hk) as (d & -> & Hd). cbn.
    eexists. split; [done|]. cbn. split_and!; [|done|by intros; apply lookup_insert_ne|exists key; rewrite lookup_insert_eq; do 2 f_equal; lia].
    intros n k w. cbn. rewrite Hd. destruct (decide (n = node)) as [->|Hn].
    + rewrite lookup_insert_eq. split; [intros [= <- <-]; by rewrite lookup_insert_eq|].
      destruct (decide (k = key)) as [->|Hkk]; [by rewrite lookup_insert_eq; intros [= <-]|].
      rewrite lookup_insert_ne by done. intros Hk'. apply Hq in Hk'. congruence.
    + rewrite lookup_insert_ne by done. etrans; [apply Hq|]. destruct (decide (k = key)) as [->|Hkk]; [|by rewrite lookup_insert_ne].
      rewrite lookup_insert_eq, Hk. split; congruence.
  - destruct (dq_insert_at (QHeartbeat node) when (hq_delay q)) as [key d] eqn:Ei. apply dqo_insert in Ei as [Hnone Hd].
    eexists. split; [done|]. cbn. split_and!; [|done|by intros; apply lookup_insert_ne|by exists key; rewrite lookup_insert_eq].
    intros n k w. cbn. rewrite Hd. destruct (decide (n = node)) as [->|Hn].
    + rewrite lookup_insert_eq. split; [intros [= <- <-]; by rewrite lookup_insert_eq|].
      destruct (decide (k = key)) as [->|Hkk]; [by rewrite lookup_insert_eq; intros [= <-]|].
      rewrite lookup_insert_ne by done. intros Hk'. apply Hq in Hk'. congruence.
    + rewrite lookup_insert_ne by done. etrans; [apply Hq|]. destruct (decide (k = key)) as [->|Hkk]; [|by rewrite lookup_insert_ne].
      rewrite lookup_insert_eq, Hnone. split; congruence.
Qed.
(** When a node is due: not after [when], nor after what was planned. *)
Definition due_by (q q' : hq) (when : Z) (node : Z) : Prop :=
  ∃ key w, hq_node_scheduled q' !! node = Some (key, w) ∧ w ≤ when ∧ ∀ k0 w0, hq_node_scheduled q !! node = Some (k0, w0) → w ≤ w0.
Lemma schedule_all_ok when nodes : ∀ q, queue_ok q → ∃ q', schedule_all when nodes q = Ok q' ∧ queue_ok q' ∧ hq_enable q' = hq_enable q ∧
  (∀ n, n ∈ nodes → due_by q q' when n) ∧ (∀ n, n ∉ nodes → hq_node_scheduled q' !! n = hq_node_scheduled q !! n).
Proof.
  induction nodes as [|node nodes IH]; intros q Hq; cbn; [exists q; split_and!; try done; by intros n ?%elem_of_nil|].
  destruct (schedule_one_ok when node q Hq) as (q1 & -> & Hq1 & He1 & Ho1 & key & Hk1). cbn.
  destruct (IH q1 Hq1) as (q2 & -> & Hq2 & He2 & Hd2 & Ho2). exists q2. split_and!; [done|done|congruence| |].
  - assert (due_by q q1 when node) as Hnode.
    { exists key. eexists. split; [exact Hk1|]. destruct (hq_node_scheduled q !! node) as [[k0 w0]|]; split; try lia; intros ? ? [= <- <-]; lia. }
    intros n [->|Hn]%elem_of_cons.
    + destruct (decide (node ∈ nodes)) as [Hin|Hni].
      * destruct (Hd2 node Hin) as (k & w & Hs & Hw & Hold). exists k, w. split_and!; [done..|]. intros k0 w0 Hs0.
        destruct Hnode as (k1 & w1 & Hs1 & _ & Hold1). specialize (Hold _ _ Hs1). specialize (Hold1 _ _ Hs0). lia.
      * destruct Hnode as (k1 & w1 & Hs1 & ?). exists k1, w1. split; [by rewrite Ho2|done].
    + destruct (Hd2 n Hn) as (k & w & Hs & Hw & Hold). exists k, w. split_and!; [done..|]. intros k0 w0 Hs0.
      destruct (decide (n = node)) as [->|Hne].
      * destruct Hnode as (k1 & w1 & Hs1 & _ & Hold1). specialize (Hold _ _ Hs1). specialize (Hold1 _ _ Hs0). lia.
      * apply (Hold k0). by rewrite Ho1.
  - intros n Hn. apply not_elem_of_cons in Hn as [Hne Hn]. by rewrite Ho2, Ho1.
Qed.
Lemma heartbeats_elem ts n : n ∈ heartbeats ts ↔ QHeartbeat n ∈ ts.
Proof.
  unfold heartbeats. rewrite list_elem_of_omap. split.
  - intros (t & Ht & E). destruct t; naive_solver.
  - intros Ht. by exists (QHeartbeat n).
Qed.
Lemma delete_all_lookup {A} (ns : list Z) : ∀ (m : gmap Z A) n,
  foldl (λ m n, delete n m) m ns !! n = if decide (n ∈ ns) then None else m !! n.
Proof.
  induction ns as [|n0 ns IH]; intros m n; cbn; [done|]. rewrite IH. destruct (decide (n ∈ ns)) as [Hin|Hni].
  - rewrite decide_True; [done|by right].
  - destruct (decide (n = n0)) as [->|Hne]; [rewrite decide_True by left; apply lookup_delete_eq|].
    rewrite decide_False by (by intros [->|?]%elem_of_cons). by apply lookup_delete_ne.
Qed.
Lemma heartbeats_nodup q (l : list (Key * (QueueTask * Z))) : queue_ok q → NoDup l.*1 →
  (∀ k t w, (k, (t, w)) ∈ l → entries (hq_delay q) !! k = Some (t, w)) → NoDup (heartbeats ((λ p, p.2.1) <$> l)).
Proof.
  intros Hq. induction l as [|[k [t w]] l IH]; cbn; intros Hnd Hin; [constructor|].
  apply NoDup_cons in Hnd as [Hk Hnd]. assert (NoDup (heartbeats ((λ p, p.2.1) <$> l))) as IH'.
  { apply IH; [done|]. intros k' t' w' Hin'. apply Hin. by right. }
  destruct t as [n|s]; cbn; [|done]. apply NoDup_cons. split; [|done]. intros Hn%heartbeats_elem.
  apply list_elem_of_fmap in Hn as ([k' [t' w']] & Ht & Hin'). cbn in Ht. subst t'.
  assert (entries (hq_delay q) !! k' = Some (QHeartbeat n, w')) as Hk' by (apply Hin; by right).
  assert (entries (hq_delay q) !! k = Some (QHeartbeat n, w)) as Hk0 by (apply Hin; by left).
  apply Hq in Hk', Hk0. rewrite Hk' in Hk0. injection Hk0 as -> _. apply Hk. change k with (k, (QHeartbeat n, w')).1. by apply list_elem_of_fmap_2.
Qed.
Lemma try_poll_ok now q : queue_ok q →
  queue_ok (try_poll now q).2 ∧ NoDup (try_poll now q).1.1 ∧
  (∀ n, n ∈ (try_poll now q).1.1 → ∃ k w, hq_node_scheduled q !! n = Some (k, w) ∧ w ≤ now ∧ hq_node_scheduled (try_poll now q).2 !! n = None) ∧
  (∀ n, n ∉ (try_poll now q).1.1 → hq_node_scheduled (try_poll now q).2 !! n = hq_node_scheduled q !! n).
Proof.
  intros Hq. unfold try_poll. destruct (hq_enable q); [|by split_and!; try done; [constructor|intros n ?%elem_of_nil]].
  destruct (dq_poll_expired now (hq_delay q)) as [ts d] eqn:E. apply dqo_poll in E as (Hsub & Hts & Hdue). cbn.
  set (gone := entries (hq_delay q) ∖ entries d) in *.
  assert (∀ n, n ∈ heartbeats ts ↔ ∃ k w, gone !! k = Some (QHeartbeat n, w)) as Hhb.
  { intros n. rewrite heartbeats_elem, Hts, list_elem_of_fmap. split.
    - intros ([k [t w]] & Ht & Hin%elem_of_map_to_list). cbn in *. subst t. by exists k, w.
    - intros (k & w & Hk). exists (k, (QHeartbeat n, w)). split; [done|]. by apply elem_of_map_to_list. }
  split_and!.
  - intros n k w. cbn. rewrite delete_all_lookup. case_decide as Hn.
    + split; [done|]. intros Hk. apply Hhb in Hn as (k' & w' & Hk'). apply lookup_difference_Some in Hk' as [Hk' Hd'].
      assert (Hk0 := lookup_weaken _ _ _ _ Hk Hsub). apply Hq in Hk', Hk0. rewrite Hk' in Hk0. injection Hk0 as -> ->. congruence.
    + rewrite (Hq n k w). split; [|by intros Hk; eapply lookup_weaken].
      intros Hk. destruct (entries d !! k) as [x|] eqn:Ed; [by rewrite <- Hk; symmetry; eapply lookup_weaken|].
      destruct Hn. apply Hhb. exists k, w. by apply lookup_difference_Some.
  - unfold heartbeats. rewrite Hts. apply (heartbeats_nodup q); [done|apply NoDup_fst_map_to_list|].
    intros k t w Hin%elem_of_map_to_list. by apply lookup_difference_Some in Hin as [? _].
  - intros n Hn. rewrite delete_all_lookup, decide_True by done. apply Hhb in Hn as (k & w & Hk).
    apply lookup_difference_Some in Hk as [Hk Hd]. exists k, w. split_and!; [by apply Hq|by eapply Hdue|done].
  - intros n Hn. by rewrite delete_all_lookup, decide_False.
Qed.
Lemma queue_step_ok q q' : queue_ok q → queue_step q q' → queue_ok q'.
Proof.
  intros Hq St. destruct St as [nodes when q q' E|now sender q|now q|b q].
  - unfold try_schedule in E. destruct (hq_enable q); [|by injection E as <-].
    destruct (schedule_all_ok when nodes q Hq) as (q1 & E1 & ? & _). rewrite E1 in E. by injection E as <-.
  - unfold insert_sentinel. destruct (hq_enable q); [|done].
    destruct (dq_insert_at (QSentinel sender) now (hq_delay q)) as [k d] eqn:E. apply dqo_insert in E as [Hnone Hd].
    intros n k' w. cbn. rewrite Hd. etrans; [apply Hq|]. destruct (decide (k' = k)) as [->|Hne].
    + rewrite lookup_insert_eq, Hnone. split; congruence.
    + by rewrite lookup_insert_ne.
  - by apply try_poll_ok.
  - unfold queue_enable. destruct (eqb (hq_enable q) b); [done|]. intros n k w. cbn. rewrite dqo_clear, !lookup_empty. done.
Qed.

(** Heartbeats are scheduled soundly: however scheduling, polling, waiting
    and switching the queue interleave, its index and the delay queue agree, so
    that rescheduling never panics; a node that is scheduled is due by the
    time asked for, and no later than it was before, and no other node is
    touched; a poll takes every due node it takes once, and only due ones. *)
Theorem heartbeat_queue_sound q0 q : queue_ok q0 → rtc queue_step q0 q →
  queue_ok q ∧
  (∀ nodes when, hq_enable q = true → ∃ q', try_schedule nodes when q = Ok q' ∧
    (∀ n, n ∈ nodes → due_by q q' when n) ∧ (∀ n, n ∉ nodes → hq_node_scheduled q' !! n = hq_node_scheduled q !! n)) ∧
  (∀ now, NoDup (try_poll now q).1.1 ∧
    (∀ n, n ∈ (try_poll now q).1.1 → ∃ k w, hq_node_scheduled q !! n = Some (k, w) ∧ w ≤ now ∧ hq_node_scheduled (try_poll now q).2 !! n = None) ∧
    (∀ n, n ∉ (try_poll now q).1.1 → hq_node_scheduled (try_poll now q).2 !! n = hq_node_scheduled q !! n)).
Proof.
  intros Hq0 St. assert (queue_ok q) as Hq. { induction St as [|q1 q2 q3 St _ IH]; [done|]. by apply IH, (queue_step_ok q1). }
  split_and!; [done| |].
  - intros nodes when He. unfold try_schedule. rewrite He. destruct (schedule_all_ok when nodes q Hq) as (q' & -> & _ & _ & ? & ?). eauto.
  - intros now. by destruct (try_poll_ok now q Hq) as [_ ?].
Qed.
End Queue.
