(* ===== verification/RootService.v ===== *)
(** * The root service

    [server/src/root/mod.rs]: what the leader of the root offers to clients and
    nodes, with [heartbeat.rs] and the request wrapper of [service/root.rs];
    the reload of the allocator's view ([allocator/source.rs]). *)

From S2P Require Import Prelude Bytes F64 Api Errors Schema GroupClient ShardClient RocksDb Keys Engine EvalTxn.
From S2P Require Import RootStats RootSchema Allocator Jobs RootSchemaProps Tso RootHub.
#[local] Open Scope Z_scope.

(** ** The messages of a heartbeat ([node.proto]) *)
Inductive PiggybackRequest :=
  | PqSyncRoot (root : RootDesc) | PqCollectStats | PqCollectGroupDetail (groups : list Z) | PqCollectScheduleState.
Record NodeStats := mkNodeStats { ns_group_count : Z; ns_leader_count : Z }.
Record CollectStatsResponse := mkCollectStatsResponse { cs_node_stats : option NodeStats; cs_group_stats : list GroupStats }.
Record CollectGroupDetailResponse := mkCollectGroupDetailResponse {
  cd_replica_states : list ReplicaState; cd_group_descs : list GroupDesc }.
(** [piggyback_response::Info]. *)
Inductive PiggybackInfo :=
  | PiSyncRoot | PiCollectStats (r : CollectStatsResponse) | PiCollectGroupDetail (r : CollectGroupDetailResponse)
  | PiCollectScheduleState (states : list ScheduleState) | PiCollectMovingShardState.
(** [report_request::GroupUpdates]. *)
Record GroupUpdates := mkGroupUpdates {
  gu_group_id : Z; gu_group_desc : option GroupDesc; gu_replica_state : option ReplicaState; gu_schedule_state : option ScheduleState }.
Definition NodeStatus_from_i32 (z : Z) : option NodeStatus :=
  List.find (λ s, NodeStatus_i32 s =? z) [NActive; NCordoned; NDraining; NDrained; NDecommissioning; NDecommissioned].
Definition default_user_properties : list (string * string) :=
  [("replicas_per_group", "1"); ("replication", "majority"); ("table_type", "user")]%string.

(** ** Reconcile tasks ([schedule/task.rs]) *)
Record ReallocateReplicaTask := mkReallocateReplicaTask {
  rt_group : Z; rt_src_node : Z; rt_src_replica : Z; rt_dest_node : option NodeDesc; rt_dest_replica : option ReplicaDesc }.
Inductive Task :=
  | TReallocateReplica (t : ReallocateReplicaTask)
  | TMigrateShard (shard src_group dest_group : Z)
  | TTransferGroupLeader (group target_replica src_node dest_node : Z)
  | TShedLeader (node_id : Z)
  | TShedRoot (node_id : Z)
  | TSplitShard (shard_id group_id : Z).
Record ReconcileTask := mkReconcileTask { tk_created_at : Z; tk_fire_at : Z; tk_task : option Task }.

(** What the root keeps beside the catalog, and the calls of other nodes. *)
Class RootEnv (W DQ Key : Type) := {
  re_node_id : W → Z;
  re_hub : W → WatchHub;
  re_set_hub : WatchHub → W → W;
  re_queue : W → HeartbeatQueue DQ Key;
  re_set_queue : HeartbeatQueue DQ Key → W → W;
  re_set_stats : ClusterStats → W → W;
  re_set_liveness : Liveness → W → W;
  re_set_source : SysAllocSource → W → W;
  re_instant : W → Z;
  (** [get_node_client] *)
  re_node_client : string → W → Result unit;
  (** [root_heartbeat] of a node, with a missing [info] as [None] *)
  re_root_heartbeat : string → list PiggybackRequest → W → option (unit + list (option PiggybackInfo)) * W;
  re_tasks : W → list ReconcileTask;
  re_set_tasks : list ReconcileTask → W → W;
  re_timestamp_millis : W → Z;
}.

Section Service.
  Context {W : Type} {RR : RootReplica W} {AE : AllocEnv W} {JE : JobEnv W} `{HashOrder} (cfg : RootConfig).
  Context {DQ Key : Type} {Q : DelayQueue DQ Key} {RE : RootEnv W DQ Key}.
  Context `{Codec DatabaseDesc} `{Codec TableDesc} `{Codec NodeDesc} `{Codec GroupDesc} `{Codec ReplicaState} `{Codec BackgroundJob}.
  Abbreviation M := (prog W Error).

Definition modify (f : W → W) : M unit := λ w, Some (Ok tt, f w).
Definition hub_update (f : WatchHub → WatchHub) : M unit := modify (λ w, re_set_hub (f (re_hub w)) w).
Definition notify (updates : list UpdateEvent) : M unit := hub_update (notify_updates updates).
Definition notify_gone (deletes : list DeleteEvent) : M unit := hub_update (notify_deletes deletes).
Definition schedule_at (nodes : list Z) (when : Z) : M unit := λ w,
  match try_schedule nodes when (re_queue w) with
  | Ok q => Some (Ok tt, re_set_queue q w)
  | Err e => Some (Err e, w)
  | Panic => Some (Panic, w)
  end.
Definition schedule_now (nodes : list Z) : M unit := λ w, schedule_at nodes (re_instant w) w.
Definition stats_update (f : ClusterStats → ClusterStats) : M unit := modify (λ w, re_set_stats (f (ae_stats w)) w).

(** ** [SysAllocSource::refresh_all] *)
Definition source_update (f : SysAllocSource → SysAllocSource) : M unit := modify (λ w, re_set_source (f (ae_source w)) w).
Definition reload_nodes : M unit := do* schema in let* l := list_node in source_update (set_nodes l).
Definition reload_groups : M unit := do* schema in let* l := list_group in source_update (set_groups l).
Definition reload_replica_status : M unit := do* schema in let* l := list_replica_state in source_update (set_replica_states l).
Definition refresh_all : M unit := do* reload_nodes in do* reload_groups in reload_replica_status.

(** ** Setting up tasks ([schedule.rs]) *)
Definition setup_task (t : Task) : M unit := modify (λ w,
  re_set_tasks (re_tasks w ++ [mkReconcileTask (re_timestamp_millis w) 0 (Some t)]) w).
Definition sched_root_leader (node_id : Z) : M unit := setup_task (TShedRoot node_id).
Definition sched_leader (node_id : Z) : M unit := setup_task (TShedLeader node_id).

(** ** Nodes: cordon, drain *)
Definition set_node_status (n : NodeDesc) (s : NodeStatus) : NodeDesc :=
  mkNodeDesc (nd_id n) (nd_addr n) (nd_capacity n) (NodeStatus_i32 s).
Definition known_node (node_id : Z) : M (NodeDesc * NodeStatus) :=
  let* n := get_node node_id in
  let* n := prog_lift (ok_or n (InvalidArgument "node not found")) in
  let* s := prog_lift (expect (NodeStatus_from_i32 (nd_status n))) in
  prog_lift (Ok (n, s)).
Definition cordon_node (node_id : Z) : M unit :=
  do* schema in
  let* ' (n, s) := known_node node_id in
  match s with
  | NActive => update_node (set_node_status n NCordoned)
  | _ => prog_lift (Err (InvalidArgument "node already cordoned"))
  end.
Definition uncordon_node (node_id : Z) : M unit :=
  do* schema in
  let* ' (n, s) := known_node node_id in
  match s with
  | NCordoned | NDrained | NDecommissioned => update_node (set_node_status n NActive)
  | _ => prog_lift (Err (InvalidArgument "node status unsupport uncordon"))
  end.
Definition begin_drain (node_id : Z) : M unit := λ w,
  (do* schema in
   if re_node_id w =? node_id then
     do* sched_root_leader node_id in
     prog_lift (Err (InvalidArgument "node is root leader, try again later"))
   else
     let* ' (n, s) := known_node node_id in
     match s with
     | NCordoned =>
         do* update_node (set_node_status n NDraining) in
         sched_leader node_id
     | _ => prog_lift (Err (InvalidArgument "only in cordoned status node can be drain"))
     end) w.
Definition node_status (node_id : Z) : M NodeStatus :=
  do* schema in let* ' (_, s) := known_node node_id in prog_lift (Ok s).

(** ** Databases and tables *)
Definition root_create_database (name : string) : M DatabaseDesc :=
  do* schema in
  let* desc := create_database (mkDatabaseDesc 0 name) in
  do* notify [UDatabase desc] in prog_lift (Ok desc).
Definition root_get_database (name : string) : M (option DatabaseDesc) := do* schema in get_database name.
Definition root_delete_database (name : string) : M unit :=
  let* db := root_get_database name in
  match db with
  | None => prog_lift (Err (DatabaseNotFound name))
  | Some db =>
      if db_id db =? db_id system_database then prog_lift (Err (InvalidArgument "not support delete system database"))
      else
        do* submit_purge_database_job (db_id db) (db_name db) in
        do* schema in
        let* id := delete_database db in
        notify_gone [DDatabase id]
  end.
Definition do_create_table (table : TableDesc) : M unit :=
  let* id := next_shard_id in
  submit_create_table_job table [mkShardDesc id (tb_id table) (Some (mkRange SHARD_MIN SHARD_MAX))].
Definition root_create_table (name database : string) : M TableDesc :=
  do* schema in
  let* db := get_database database in
  let* db := prog_lift (ok_or db (DatabaseNotFound database)) in
  let* table := prepare_create_table (mkTableDesc 0 (db_id db) name default_user_properties) in
  do* do_create_table table in
  do* notify [UTable table] in prog_lift (Ok table).
Definition root_delete_table (name : string) (database : DatabaseDesc) : M unit :=
  do* schema in
  let* db := root_get_database (db_name database) in
  let* db := prog_lift (ok_or db (DatabaseNotFound (db_name database))) in
  let* table := get_table (db_id db) name in
  match table with
  | None => prog_lift (Ok tt)
  | Some table =>
      if tb_id table <? FIRST_USER_TABLE_ID then prog_lift (Err (InvalidArgument "unsupported delete system table"))
      else
        do* submit_purge_table_job db table in
        do* delete_table table in
        notify_gone [DTable (tb_id table)]
  end.
Definition root_list_database : M (list DatabaseDesc) := do* schema in list_database.
Definition root_list_table (database : DatabaseDesc) : M (list TableDesc) :=
  do* schema in
  let* db := get_database (db_name database) in
  let* db := prog_lift (ok_or db (DatabaseNotFound (db_name database))) in
  let* tables := list_table in
  prog_lift (Ok (List.filter (λ c, tb_db c =? db_id db) tables)).
Definition root_get_table (name : string) (database : DatabaseDesc) : M (option TableDesc) :=
  let* db := root_get_database (db_name database) in
  let* db := prog_lift (ok_or db (DatabaseNotFound (db_name database))) in
  do* schema in get_table (db_id db) name.

(** ** Watching and joining *)
(** The lock of the hub is held until the first response is set; a watcher
    whose listing fails is dropped. *)
Definition watch (cur_groups : gmap Z Z) : M Z := λ w,
  match schema w with
  | None => None
  | Some (Ok _, w) =>
      let '(id, hub) := create_watcher (re_hub w) in
      let w := re_set_hub hub w in
      match list_all_events cur_groups w with
      | None => None
      | Some (Ok (updates, deletes), w) => Some (Ok id, re_set_hub (set_init_resp id updates deletes (re_hub w)) w)
      | Some (Err e, w) => Some (Err e, re_set_hub (watcher_drop id (re_hub w)) w)
      | Some (Panic, w) => Some (Panic, w)
      end
  | Some (Err e, w) => Some (Err e, w)
  | Some (Panic, w) => Some (Panic, w)
  end.
Definition join (addr : string) (capacity : NodeCapacity) : M (bytes * NodeDesc * RootDesc) :=
  do* schema in
  let* node := add_node (mkNodeDesc 0 addr (Some capacity) 0) in
  do* notify [UNode node] in
  let* c := cluster_id in
  let* c := prog_lift (expect c) in
  let* root := get_root_desc in
  let root := mkRootDesc (rt_epoch root) (move_first (nd_id node) (rt_root_nodes root)) in
  do* schedule_now [nd_id node] in
  prog_lift (Ok (c, node, root)).

(** ** Reports *)
(** What of an update is news. *)
Definition newer_desc (u : GroupUpdates) : M (option GroupDesc) :=
  match gu_group_desc u with
  | None => prog_lift (Ok None)
  | Some update_group =>
      let* pre := get_group (gu_group_id u) in
      prog_lift (Ok (match pre with
                     | Some pre_group => if gd_epoch update_group <=? gd_epoch pre_group then None else Some update_group
                     | None => Some update_group
                     end))
  end.
Definition outdated (pre new : ReplicaState) : bool :=
  (rs_term new <? rs_term pre) || ((rs_term pre =? rs_term new) && (rs_role pre =? rs_role new)).
Definition newer_state (u : GroupUpdates) : M (option ReplicaState) :=
  match gu_replica_state u with
  | None => prog_lift (Ok None)
  | Some s =>
      let* pre := get_replica_state (gu_group_id u) (rs_replica_id s) in
      prog_lift (Ok (match pre with Some pre_rs => if outdated pre_rs s then None else Some s | None => Some s end))
  end.
Definition on_root_group (desc : GroupDesc) : M unit :=
  if gd_id desc =? ROOT_GROUP_ID then λ w, schedule_now [re_node_id w] w else prog_lift (Ok tt).
(** The events of an update, and the group whose state changed. *)
Definition report_one (u : GroupUpdates) : M (list UpdateEvent * list Z) :=
  let* group_desc := newer_desc u in
  let* replica_state := newer_state u in
  do* update_group_replica group_desc replica_state in
  do* (match gu_schedule_state u with
       | Some s => stats_update (handle_schedule_update [s] None)
       | None => prog_lift (Ok tt)
       end) in
  do* (match group_desc with Some desc => on_root_group desc | None => prog_lift (Ok tt) end) in
  prog_lift (Ok (UGroup <$> option_list group_desc, rs_group_id <$> option_list replica_state)).
Fixpoint report_all (updates : list GroupUpdates) : M (list UpdateEvent * list Z) :=
  match updates with
  | [] => prog_lift (Ok ([], []))
  | u :: updates' =>
      let* ' (events, changed) := report_one u in
      let* ' (events', changed') := report_all updates' in
      prog_lift (Ok (events ++ events', changed ++ changed'))
  end.
Definition changed_states (changed : list Z) : M (list UpdateEvent) :=
  let* states := list_group_state in
  prog_lift (Ok (UGroupState <$> List.filter (λ s, bool_decide (gs_group_id s ∈ changed)) states)).
Definition report (updates : list GroupUpdates) : M unit :=
  do* schema in
  let* ' (events, changed) := report_all updates in
  let* states := changed_states changed in
  notify (events ++ states).

(** ** Allocation *)
Definition alloc_replica (group_id epoch requested_cnt : Z) : M (list ReplicaDesc) :=
  do* schema in
  let* g := get_group group_id in
  let* g := prog_lift (ok_or g (GroupNotFound group_id)) in
  if negb (gd_epoch g =? epoch) then prog_lift (Err (InvalidArgument "epoch not match"))
  else
    let* states := group_replica_states group_id in
    let existing : gset Z := list_to_set (rd_node_id <$> gd_replicas g) ∪ list_to_set (rs_node_id <$> states) in
    let* ns := alloc_group_replica (elements existing) (Z.to_nat requested_cnt) in
    if negb (Z.of_nat (length ns) =? requested_cnt) then prog_lift (Err (ResourceExhausted "no enough nodes"))
    else new_replicas ns.

(** ** Heartbeats ([heartbeat.rs]) *)
Definition handle_collect_stats (resp : CollectStatsResponse) (node : NodeDesc) : M unit :=
  do* (match cs_node_stats resp with
       | None => prog_lift (Ok tt)
       | Some ns =>
           let* cap := prog_lift (expect (nd_capacity node)) in
           if negb (ns_group_count ns =? nc_replica_count cap) || negb (ns_leader_count ns =? nc_leader_count cap)
           then update_node (mkNodeDesc (nd_id node) (nd_addr node)
             (Some (mkNodeCapacity (nc_cpu_nums cap) (ns_group_count ns) (ns_leader_count ns))) (nd_status node))
           else prog_lift (Ok tt)
       end) in
  stats_update (λ c, foldl (λ c gs, handle_group_stats gs c) c (cs_group_stats resp)).
(** [groups] was listed before the responses are handled. *)
Fixpoint detail_groups (groups : list GroupDesc) (descs : list GroupDesc) : M (list UpdateEvent) :=
  match descs with
  | [] => prog_lift (Ok [])
  | desc :: descs' =>
      let known := List.find (λ g, gd_id g =? gd_id desc) groups in
      if match known with Some ex => gd_epoch desc <=? gd_epoch ex | None => false end
      then detail_groups groups descs'
      else
        do* update_group_replica (Some desc) None in
        do* on_root_group desc in
        let* l := detail_groups groups descs' in
        prog_lift (Ok (UGroup desc :: l))
  end.
Fixpoint detail_states (states : list ReplicaState) : M (list Z) :=
  match states with
  | [] => prog_lift (Ok [])
  | s :: states' =>
      let* pre := get_replica_state (rs_group_id s) (rs_replica_id s) in
      if match pre with Some pre => outdated pre s | None => false end then detail_states states'
      else
        do* update_group_replica None (Some s) in
        let* l := detail_states states' in
        prog_lift (Ok (rs_group_id s :: l))
  end.
Definition handle_group_detail (resp : CollectGroupDetailResponse) (groups : list GroupDesc) : M unit :=
  let* events := detail_groups groups (cd_group_descs resp) in
  let* changed := detail_states (cd_replica_states resp) in
  let* states := changed_states changed in
  match events ++ states with [] => prog_lift (Ok tt) | l => notify l end.
Definition handle_schedule_state (states : list ScheduleState) : M unit := stats_update (handle_schedule_update states None).
Definition handle_piggyback (groups : list GroupDesc) (node : NodeDesc) (info : option PiggybackInfo) : M unit :=
  let* info := prog_lift (expect info) in
  match info with
  | PiSyncRoot | PiCollectMovingShardState => prog_lift (Ok tt)
  | PiCollectStats r => handle_collect_stats r node
  | PiCollectGroupDetail r => handle_group_detail r groups
  | PiCollectScheduleState r => handle_schedule_state r
  end.
Fixpoint handle_piggybacks (groups : list GroupDesc) (node : NodeDesc) (l : list (option PiggybackInfo)) : M unit :=
  match l with
  | [] => prog_lift (Ok tt)
  | i :: l' => do* handle_piggyback groups node i in handle_piggybacks groups node l'
  end.
Fixpoint heartbeat_rpcs (piggybacks : list PiggybackRequest) (ns : list NodeDesc) : M (list (NodeDesc * (unit + list (option PiggybackInfo)))) :=
  match ns with
  | [] => prog_lift (Ok [])
  | n :: ns' => λ w,
      match re_root_heartbeat (nd_addr n) piggybacks w with
      | (None, _) => None
      | (Some r, w) => (let* l := heartbeat_rpcs piggybacks ns' in prog_lift (Ok ((n, r) :: l))) w
      end
  end.
Fixpoint handle_resps (groups : list GroupDesc) (resps : list (NodeDesc * (unit + list (option PiggybackInfo)))) : M unit :=
  match resps with
  | [] => prog_lift (Ok tt)
  | (n, r) :: resps' =>
      do* (match r with
           | inr infos =>
               do* modify (λ w, re_set_liveness (renew (ae_now w) (ae_liveness w) (nd_id n)) w) in
               handle_piggybacks groups n infos
           | inl _ => modify (λ w, re_set_liveness (init_node_if_first_seen (ae_now w) (ae_liveness w) (nd_id n)) w)
           end) in
      handle_resps groups resps'
  end.
(** In nanoseconds. *)
Definition heartbeat_interval : Z := u64_wrap (liveness_threshold_sec cfg - heartbeat_timeout_sec cfg) * 1000000000.
Fixpoint node_clients (ns : list NodeDesc) : M unit :=
  match ns with
  | [] => prog_lift (Ok tt)
  | n :: ns' => do* prog_reads (re_node_client (nd_addr n)) in node_clients ns'
  end.
Definition send_heartbeat (tasks : list Z) : M unit :=
  let* all_nodes := list_node in
  let targets := List.filter (λ n, bool_decide (nd_id n ∈ tasks)) all_nodes in
  let* root := get_root_desc in
  λ w,
  let root := mkRootDesc (rt_epoch root) (move_first (re_node_id w) (rt_root_nodes root)) in
  (do* node_clients targets in
   let* resps := heartbeat_rpcs [PqSyncRoot root; PqCollectGroupDetail []; PqCollectStats; PqCollectScheduleState] targets in
   let* last_heartbeat := prog_reads (λ w, Ok (re_instant w)) in
   let* groups := list_group in
   do* handle_resps groups resps in
   schedule_at (nd_id <$> targets) (last_heartbeat + heartbeat_interval)) w.
(** One round of [run_heartbeat]. *)
Definition heartbeat_round : M unit := λ w,
  match schema w with
  | Some (Ok _, w) =>
      let '(ns, _, q) := try_poll (re_instant w) (re_queue w) in
      let w := re_set_queue q w in
      match ns with
      | [] => Some (Ok tt, w)
      | _ =>
          match send_heartbeat ns w with
          | Some (Err _, w) => Some (Ok tt, w)
          | r => r
          end
      end
  | Some (Err _, w) => Some (Ok tt, w)
  | r => r
  end.

(** ** The wrapper of the service ([service/root.rs]) *)
Definition service_wrap {A} (roots : RootDesc) (r : Result A) : Result A :=
  match r with
  | Err (NotRootLeader _ _ _) | Err (GroupNotFound _) => Err (NotRootLeader roots 0 None)
  | Err (NotLeader _ term leader) => Err (NotRootLeader roots term leader)
  | Err (Forward _) | Err (EpochNotMatch _) | Err (ServiceIsBusy _) | Err (GroupNotReady _) => Panic
  | _ => r
  end.
End Service.
