(* ===== verification/RootServiceProps.v ===== *)
(** * What watchers of the root see, and what reports do to the catalog *)

From S2P Require Import Prelude Bytes F64 Api Errors Schema GroupClient ShardClient RocksDb Keys Engine EvalTxn.
From S2P Require Import RootStats RootSchema Allocator Jobs RootSchemaProps Tso RootHub RootService.
#[local] Open Scope Z_scope.

(** What the root keeps beside the catalog is beside the catalog. *)
Class RootEnvOk {W DQ Key : Type} {RR : RootReplica W} {RE : RootEnv W DQ Key} (kv : W → contents) := {
  reo_hub : ∀ h w, kv (re_set_hub h w) = kv w;
  reo_queue : ∀ q w, kv (re_set_queue q w) = kv w;
  reo_stats : ∀ c w, kv (re_set_stats c w) = kv w;
  reo_hub_get : ∀ h w, re_hub (re_set_hub h w) = h;
  reo_execute : ∀ c req w r w', rr_execute c req w = Some (r, w') → re_hub w' = re_hub w;
}.
(** Rows are replaced by later ones only. *)
Definition grows {A} `{Codec A} (t : Z) (key : A → bytes) (rank : A → Z) (m m' : contents) : Prop :=
  ∀ a, stored t key m a → ∃ a', stored t key m' a' ∧ key a' = key a ∧ rank a ≤ rank a'.
Section Grows.
  Context {A : Type} `{Codec A, !CodecOk A} (t : Z) (key : A → bytes) (rank : A → Z).
#[global] Instance grows_preorder : PreOrder (grows t key rank).
Proof.
  split; [intros m a Ha; by exists a|]. intros m1 m2 m3 H12 H23 a Ha. destruct (H12 a Ha) as (a' & Ha' & Hk & Hle).
  destruct (H23 a' Ha') as (a'' & Ha'' & Hk' & Hle'). exists a''. split_and!; [done|congruence|lia].
Qed.
Lemma grows_put m a : (∀ a0, stored t key m a0 → key a0 = key a → rank a0 ≤ rank a) →
  grows t key rank m (<[(t, key a) := encode_to_vec a]> m).
Proof.
  intros Hle a0 Ha0. destruct (decide (key a0 = key a)) as [Hk|Hk].
  - exists a. split_and!; [apply lookup_insert_eq|done|by apply Hle].
  - exists a0. split_and!; [|done..]. unfold stored. rewrite lookup_insert_ne by congruence. done.
Qed.
Lemma grows_other m t' k v : t' ≠ t → grows t key rank m (<[(t', k) := v]> m).
Proof. intros Hne a Ha. exists a. split_and!; [|done..]. unfold stored. by rewrite lookup_insert_ne by congruence. Qed.
End Grows.

Section Report.
  Context {W : Type} {RR : RootReplica W} {AE : AllocEnv W} {JE : JobEnv W} `{HashOrder}.
  Context {DQ Key : Type} {Q : DelayQueue DQ Key} {RE : RootEnv W DQ Key}.
  Context {kv : W → contents} {OK : RootReplicaOk RR kv} {REO : RootEnvOk kv}.
  Context `{Codec DatabaseDesc, !CodecOk DatabaseDesc} `{Codec TableDesc, !CodecOk TableDesc} `{Codec NodeDesc, !CodecOk NodeDesc}.
  Context `{Codec GroupDesc, !CodecOk GroupDesc} `{Codec ReplicaState, !CodecOk ReplicaState} `{Codec BackgroundJob, !CodecOk BackgroundJob}.
  Abbreviation M := (prog W Error).

(** ** Programs beside the catalog *)
Lemma runs_modify f m : (∀ w, kv (f w) = kv w) → runs kv (modify f) m (λ _ m', m' = m).
Proof. intros Hf w r w' <- [= <- <-]. apply Hf. Qed.
Lemma runs_hub f m : runs kv (hub_update f) m (λ _ m', m' = m).
Proof. apply runs_modify. intros w. apply reo_hub. Qed.
Lemma runs_stats f m : runs kv (stats_update f) m (λ _ m', m' = m).
Proof. apply runs_modify. intros w. apply reo_stats. Qed.
Lemma runs_schedule ns when m : runs kv (schedule_at ns when) m (λ _ m', m' = m).
Proof. intros w r w' <-. unfold schedule_at. destruct (try_schedule _ _ _); intros [= <- <-]; [apply reo_queue|done..]. Qed.
Lemma runs_root_group g m : runs kv (on_root_group g) m (λ _ m', m' = m).
Proof.
  unfold on_root_group. destruct (gd_id g =? ROOT_GROUP_ID); [|by apply runs_lift].
  intros w r w' Hm E. by apply (runs_schedule [re_node_id w] (re_instant w) m w r w').
Qed.
(** A step that keeps [R], then more of them. *)
Lemma runs_then {A B} (R : contents → contents → Prop) `{!PreOrder R} (p : M A) (k : A → M B) m :
  runs kv p m (λ r m', R m m' ∧ match r with Ok a => runs kv (k a) m' (λ _, R m') | _ => True end) →
  runs kv (prog_bind p k) m (λ _, R m).
Proof.
  intros Hp. apply runs_bind. eapply runs_weaken; [done|]. cbn. intros r m' [Hr Hk]. destruct r as [a|e|]; [|done..].
  eapply runs_weaken; [done|]. cbn. intros _ m2 ?. by etrans.
Qed.

(** ** Reports *)
Record fresher (m m' : contents) : Prop := {
  fr_ok : catalog_ok m → catalog_ok m';
  fr_groups : catalog_ok m → grows GROUP_ID group_row_key gd_epoch m m';
  fr_states : catalog_ok m → grows REPLICA_STATE_ID state_row_key rs_term m m' }.
#[local] Instance fresher_preorder : PreOrder fresher.
Proof.
  split; [done|]. intros m1 m2 m3 [A1 A2 A3] [B1 B2 B3]. split; intros Hok; [by auto|..]; (etrans; [by auto|]); by auto.
Qed.
(** The parts of an update are of the group it names; the root does not check
    this, and compares with the named group what it stores under the other. *)
Definition update_ok (u : GroupUpdates) : Prop :=
  (∀ d, gu_group_desc u = Some d → gd_id d = gu_group_id u ∧ u64_ok (gd_id d)) ∧
  (∀ s, gu_replica_state u = Some s → rs_group_id s = gu_group_id u).
(** The descriptor that is written is newer than the one that is stored. *)
Definition newest_desc (m : contents) (d : option GroupDesc) : Prop :=
  ∀ g, d = Some g → u64_ok (gd_id g) ∧ ∀ g0, stored GROUP_ID group_row_key m g0 → group_row_key g0 = group_row_key g → gd_epoch g0 < gd_epoch g.
Definition newest_state (m : contents) (s : option ReplicaState) : Prop :=
  ∀ x, s = Some x → ∀ x0, stored REPLICA_STATE_ID state_row_key m x0 → state_row_key x0 = state_row_key x → rs_term x0 ≤ rs_term x.
Lemma stored_same {A} `{Codec A, !CodecOk A} t (key : A → bytes) m a a' :
  stored t key m a → stored t key m a' → key a = key a' → a = a'.
Proof.
  unfold stored. intros Ha Ha' Hk. rewrite Hk, Ha' in Ha. injection Ha as Ha. apply (f_equal (decode_msg (A := A))) in Ha.
  rewrite !decode_encode_msg in Ha. congruence.
Qed.
Lemma newer_desc_runs u m : catalog_ok m → update_ok u →
  runs kv (newer_desc u) m (λ r m', m' = m ∧ ∀ d, r = Ok d → newest_desc m d).
Proof.
  intros Hok [Hu _]. unfold newer_desc. destruct (gu_group_desc u) as [d|] eqn:Ed; [|by apply runs_lift; split; [|intros ? [= <-] ?]].
  destruct (Hu d eq_refl) as [Hid Hu64]. apply runs_bind. eapply runs_weaken; [eapply get_as_runs; [done..|apply Hok]|]. cbn beta iota.
  intros r m' [-> Hg]. destruct r as [pre|e|]; [|done..]. apply runs_lift. split; [done|]. intros o [= <-].
  destruct pre as [pre|].
  - destruct Hg as (Hk & Hst & _). destruct (Z.leb_spec (gd_epoch d) (gd_epoch pre)) as [Hle|Hlt]; [done|].
    intros g [= <-]. split; [done|]. intros g0 Hg0 Hk0. assert (g0 = pre) as ->; [|done].
    eapply stored_same; [done|done|]. rewrite Hk0. unfold group_row_key. by rewrite Hid, Hk.
  - intros g [= <-]. split; [done|]. intros g0 Hg0 Hk0. exfalso. unfold stored in Hg0. rewrite Hk0 in Hg0. unfold group_row_key in Hg0.
    rewrite Hid in Hg0. congruence.
Qed.
Lemma newer_state_runs u m : catalog_ok m → update_ok u →
  runs kv (newer_state u) m (λ r m', m' = m ∧ ∀ s, r = Ok s → newest_state m s).
Proof.
  intros Hok [_ Hu]. unfold newer_state. destruct (gu_replica_state u) as [s|] eqn:Es; [|by apply runs_lift; split; [|intros ? [= <-] ?]].
  specialize (Hu s eq_refl). apply runs_bind. eapply runs_weaken; [eapply get_as_runs; [done..|apply Hok]|]. cbn beta iota.
  intros r m' [-> Hg]. destruct r as [pre|e|]; [|done..]. apply runs_lift. split; [done|]. intros o [= <-].
  assert (state_row_key s = replica_key (gu_group_id u) (rs_replica_id s)) as Hks by (unfold state_row_key; by rewrite Hu).
  destruct pre as [pre|].
  - destruct Hg as (Hk & Hst & _). destruct (outdated pre s) eqn:Eo; [done|]. intros x [= <-] x0 Hx0 Hk0.
    assert (x0 = pre) as ->; [eapply stored_same; [done..|congruence]|]. apply orb_false_iff in Eo as [Eo _]. lia.
  - intros x [= <-] x0 Hx0 Hk0. exfalso. unfold stored in Hx0. rewrite Hk0, Hks in Hx0. congruence.
Qed.
Lemma put_group_runs d m : catalog_ok m → newest_desc m d →
  runs kv (match d with Some g => put_group g | None => prog_lift (Ok tt) end) m (λ _, fresher m).
Proof.
  intros Hok Hd. destruct d as [g|]; [|by apply runs_lift].
  eapply runs_weaken; [by apply schema_put_runs|]. cbn beta. intros r m2 [->|[-> _]]; [|done]. destruct (Hd g eq_refl) as [Hu Hlt].
  change (u64_to_le_bytes (gd_id g)) with (group_row_key g).
  split; intros _; [by apply put_group_ok|apply grows_put; intros g0 Hg0 Hk; specialize (Hlt g0 Hg0 Hk); lia|by apply grows_other].
Qed.
Lemma update_group_replica_runs d s m : catalog_ok m → newest_desc m d → newest_state m s →
  runs kv (update_group_replica d s) m (λ _, fresher m).
Proof.
  intros Hok Hd Hs. apply (runs_then fresher). destruct s as [s|]; [|by apply runs_lift; split; [|apply put_group_runs]].
  eapply runs_weaken; [by apply schema_put_runs|]. cbn beta. intros r m' Hm'.
  assert (fresher m m' ∧ catalog_ok m' ∧ newest_desc m' d) as (Hf & Hok' & Hd').
  { destruct Hm' as [->|[-> _]]; [|done]. change (replica_key (rs_group_id s) (rs_replica_id s)) with (state_row_key s). split_and!.
    - split; intros _; [by apply put_state_ok|by apply grows_other|]. apply grows_put. by apply Hs.
    - by apply put_state_ok.
    - intros g Hg. destruct (Hd g Hg) as [Hu Hlt]. split; [done|]. intros g0 Hg0. apply Hlt. revert Hg0. unfold stored. by rewrite lookup_insert_ne. }
  split; [done|]. destruct r as [u|e|]; [|done..]. by apply put_group_runs.
Qed.
(** What a step does, for a catalog that is well formed when it starts. *)
Lemma runs_fresher_then {A B} (p : M A) (k : A → M B) m : catalog_ok m →
  runs kv p m (λ _, fresher m) → (∀ a m', catalog_ok m' → runs kv (k a) m' (λ _, fresher m')) →
  runs kv (prog_bind p k) m (λ _, fresher m).
Proof.
  intros Hok Hp Hk. apply (runs_then fresher). eapply runs_weaken; [done|]. cbn. intros r m' Hf. split; [done|].
  destruct r as [a|e|]; [|done..]. apply Hk. by apply Hf.
Qed.
Lemma runs_still {A} (p : M A) m : runs kv p m (λ _ m', m' = m) → runs kv p m (λ _, fresher m).
Proof. intros Hp. eapply runs_weaken; [done|]. by intros r m' ->. Qed.
Lemma report_one_runs u m : catalog_ok m → update_ok u → runs kv (report_one u) m (λ _, fresher m).
Proof.
  intros Hok Hu. apply (runs_then fresher). eapply runs_weaken; [by apply newer_desc_runs|]. cbn beta. intros r m1 [-> Hd].
  split; [done|]. destruct r as [d|e|]; [|done..]. specialize (Hd d eq_refl).
  apply (runs_then fresher). eapply runs_weaken; [by apply newer_state_runs|]. cbn beta. intros r m1 [-> Hs].
  split; [done|]. destruct r as [s|e|]; [|done..]. specialize (Hs s eq_refl).
  apply runs_fresher_then; [done|by apply update_group_replica_runs|]. intros _ m1 Hok1.
  apply runs_fresher_then; [done|destruct (gu_schedule_state u); [apply runs_still, runs_stats|by apply runs_lift]|]. intros _ m2 Hok2.
  apply runs_fresher_then; [done|destruct d; [apply runs_still, runs_root_group|by apply runs_lift]|]. intros _ m3 Hok3.
  by apply runs_lift.
Qed.
Lemma report_all_runs updates : Forall update_ok updates → ∀ m, catalog_ok m → runs kv (report_all updates) m (λ _, fresher m).
Proof.
  intros Hf. induction Hf as [|u updates Hu _ IH]; intros m Hok; cbn; [by apply runs_lift|].
  apply runs_fresher_then; [done|by apply report_one_runs|]. intros [ev ch] m1 Hok1.
  apply runs_fresher_then; [done|by apply IH|]. intros [ev' ch'] m2 _. by apply runs_lift.
Qed.
Lemma changed_states_runs changed m : catalog_ok m → runs kv (changed_states changed) m (λ _, fresher m).
Proof.
  intros Hok. apply runs_fresher_then; [done| |intros l m1 _; by apply runs_lift]. apply runs_still.
  apply runs_bind. eapply runs_weaken; [eapply list_as_runs; [done|apply Hok]|]. cbn. intros r m1 [-> _].
  destruct r as [l|e|]; [by apply runs_lift|done..].
Qed.

(** C23: A report that the root handles while no other request changes its
    catalog never sets the catalog back: with whatever updates of groups, old
    ones and repeated ones included, each of whose descriptors and states is of
    the group the update names, and whether or not the report succeeds,
    afterwards the catalog is well formed, every group it had is still there
    with an epoch that is not smaller, and every replica's state with a term
    that is not smaller.  Two reports at once can set an epoch back, since each
    waits between comparing and storing ([overlapping_reports_regress]). *)
Theorem report_never_regresses updates w r w' :
  catalog_ok (kv w) → Forall update_ok updates → report updates w = Some (r, w') →
  catalog_ok (kv w') ∧
  (∀ g, stored GROUP_ID group_row_key (kv w) g → ∃ g', stored GROUP_ID group_row_key (kv w') g' ∧
    group_row_key g' = group_row_key g ∧ gd_epoch g ≤ gd_epoch g') ∧
  (∀ s, stored REPLICA_STATE_ID state_row_key (kv w) s → ∃ s', stored REPLICA_STATE_ID state_row_key (kv w') s' ∧
    state_row_key s' = state_row_key s ∧ rs_term s ≤ rs_term s').
Proof.
  intros Hok Hu E. enough (runs kv (report updates) (kv w) (λ _, fresher (kv w))) as Hr.
  { destruct (Hr w r w' eq_refl E) as [F1 F2 F3]. split_and!; [by apply F1|by apply F2|by apply F3]. }
  unfold report.
  apply runs_fresher_then; [done|apply runs_still; by intros w0 r0 w0' <- [= <- <-]|]. intros _ m1 Hok1.
  apply runs_fresher_then; [done|by apply report_all_runs|]. intros [ev ch] m2 Hok2.
  apply runs_fresher_then; [done|by apply changed_states_runs|]. intros st m3 Hok3. apply runs_still, runs_hub.
Qed.

(** ** Watching *)
(** Reading the catalog announces nothing. *)
Definition hub_still {A} (p : M A) : Prop := ∀ w r w', p w = Some (r, w') → re_hub w' = re_hub w.
Lemma hub_still_lift {A} (a : Result A) : hub_still (prog_lift a).
Proof. by intros w r w' [= <- <-]. Qed.
Lemma hub_still_bind {A B} (p : M A) (k : A → M B) : hub_still p → (∀ a, hub_still (k a)) → hub_still (prog_bind p k).
Proof.
  intros Hp Hk w r w' E. unfold prog_bind in E. destruct (p w) as [[[a|e|] w1]|] eqn:Ep; [| | |done]; apply Hp in Ep;
    [apply Hk in E; congruence|by injection E as <- <-..].
Qed.
Lemma hub_still_submit req : hub_still (submit_request req).
Proof. intros w r w' E. by apply reo_execute in E. Qed.
Lemma hub_still_list {A} `{Codec A} msg t : hub_still (list_as (A := A) msg (schema_list t)).
Proof.
  repeat (apply hub_still_bind; [|intros]); try apply hub_still_lift; apply hub_still_submit.
Qed.
Lemma hub_still_events cur_groups : hub_still (list_all_events cur_groups).
Proof.
  unfold list_all_events. repeat (apply hub_still_bind; [|intros]); try apply hub_still_lift; try apply hub_still_list.
  all: apply hub_still_submit.
Qed.
(** C22: A watcher misses nothing: the updates (and deletions) that it is given,
    response after response, followed by those that wait for its next poll, are
    the listing of the catalog it started from and then every change that was
    announced since, once each and in order, however its polls interleave with
    the announcements and with other watchers that come and go; and its stream
    does not end by itself. *)
Theorem watch_stream cur_groups w id w' ops :
  watch cur_groups w = Some (Ok id, w') → 0 ≤ hub_next_watcher_id (re_hub w) →
  hub_next_watcher_id (re_hub w) + 1 + Z.of_nat (length ops) ≤ u64_MAX → Forall (keeps id) ops →
  ∃ updates deletes w1 waiting_updates waiting_deletes,
    list_all_events cur_groups (re_set_hub (create_watcher (re_hub w)).2 w) = Some (Ok (updates, deletes), w1) ∧
    let '(answers, h) := hub_runs ops (re_hub w') in
    hub_inners h !! id = Some (mkWatcherInner waiting_updates waiting_deletes None false) ∧
    updates_of (seen id answers) ++ waiting_updates = updates ++ updates_of (notified ops) ∧
    deletes_of (seen id answers) ++ waiting_deletes = deletes ++ deletes_of (notified ops) ∧
    Forall (λ p, p.1 = id → p.2 ≠ Ready None) answers.
Proof.
  intros E Hpos Hroom Hk. unfold watch in E. destruct (schema w) as [[[u|e|] w0]|] eqn:Es; [|done..].
  assert (w0 = w) as -> by (unfold schema, prog_reads in Es; congruence). clear Es u.
  unfold create_watcher in *. set (i := u64_add _ 1) in *. set (h0 := mkWatchHub _ _ _) in *. cbn [snd].
  assert (i = hub_next_watcher_id (re_hub w) + 1) as Hi. { unfold i, u64_add. apply u64_wrap_small. unfold u64_ok. lia. }
  destruct (list_all_events cur_groups (re_set_hub h0 w)) as [[[[updates deletes]|e|] w1]|] eqn:El; [|done..].
  injection E as <- <-. exists updates, deletes, w1.
  assert (re_hub w1 = h0) as Hh by (rewrite (hub_still_events _ _ _ _ El); apply reo_hub_get).
  rewrite reo_hub_get, Hh.
  assert (waiting i (set_init_resp i updates deletes h0) updates deletes) as Hw.
  { split; cbn; [set_solver|done|]. rewrite lookup_alter_eq, lookup_insert_eq. done. }
  destruct (stream_runs i ltac:(lia) ops _ _ _ Hw Hk) as (u' & d' & Hw' & Hu & Hd & Hf); [cbn; lia|].
  exists u', d'. destruct (hub_runs ops _) as [l h]. cbn in *. split_and!; [done|apply Hw'|done..].
Qed.
End Report.
