(* ===== verification/RootSchedule.v ===== *)
(** * The reconcile scheduler of the root

    [server/src/root/schedule.rs], and the leader's life in
    [root/mod.rs] ([step_leader]). *)

From S2P Require Import Prelude Bytes F64 Api Errors Schema Router GroupClient ShardClient RocksDb Keys Engine EvalTxn.
From S2P Require Import RootStats RootSchema Allocator Jobs RootSchemaProps Tso RootHub RootService.
#[local] Open Scope Z_scope.

(** The requests to groups, through [GroupClient], and the client's router. *)
Class SchedEnv (W : Type) := {
  se_move_replicas : Z → list ReplicaDesc → list ReplicaDesc → prog W Error ScheduleState;
  se_transfer_leader : Z → Z → prog W Error unit;
  se_accept_shard : Z → Z → Z → ShardDesc → prog W Error unit;
  se_split_shard : Z → Z → Z → prog W Error unit;
  se_find_group : Z → W → Result RouterGroupState;
  (** [RootShared::core] *)
  se_core : W → option RootCore;
  se_set_core : option RootCore → W → W;
  (** [String::contains] on the text of an error *)
  se_split_keys_empty : string → bool;
}.
Record SchedResult := mkSchedResult { sr_ack : bool; sr_immediately_next : bool; sr_delay : option Z }.
Definition SchedResult_ack : SchedResult := mkSchedResult true false None.
Definition SchedResult_next : SchedResult := mkSchedResult true true None.
Definition SchedResult_delay (millis : Z) : SchedResult := mkSchedResult true true (Some millis).
(** [ReplicaRoleAction]. *)
Inductive ReplicaRoleAction := ARReplica (a : ReallocateReplica) | ARLeader (a : LeaderAction).

Section Schedule.
  Context {W : Type} {RR : RootReplica W} {AE : AllocEnv W} {JE : JobEnv W} {SE : SchedEnv W} `{HashOrder} (cfg : RootConfig).
  Context {DQ Key : Type} {Q : DelayQueue DQ Key} {RE : RootEnv W DQ Key}.
  Context `{Codec DatabaseDesc} `{Codec TableDesc} `{Codec NodeDesc} `{Codec GroupDesc} `{Codec ReplicaState} `{Codec BackgroundJob}.
  Abbreviation M := (prog W Error).
(** A [match] on the result of a call. *)
Definition catch {A B} (p : M A) (k : A → M B) (ke : Error → M B) : M B := λ w,
  match p w with
  | None => None
  | Some (Panic, w) => Some (Panic, w)
  | Some (Err e, w) => ke e w
  | Some (Ok a, w) => k a w
  end.
Definition sched_transfer_leader_task (t : TransferLeader) : M unit :=
  setup_task (TTransferGroupLeader (tl_group t) (tl_target_replica t) (tl_src_node t) (tl_target_node t)).
Definition sched_migrate_replica_task (a : ReallocateReplica) : M unit :=
  setup_task (TReallocateReplica (mkReallocateReplicaTask (rr_group a) (rr_source_node a) (rr_source_replica a) (Some (rr_target_node a)) None)).
Definition sched_migrate_shard_task (a : ReallocateShard) : M unit :=
  setup_task (TMigrateShard (rh_shard a) (rh_source_group a) (rh_target_group a)).
Definition sched_split_shard_task (group_id shard_id : Z) : M unit :=
  do* setup_task (TSplitShard shard_id group_id) in stats_update (handle_split_shard shard_id).

(** ** What to do *)
Definition comput_replica_role_action : M (list ReplicaRoleAction) :=
  let* rs := compute_replica_action cfg in
  let* ls := compute_leader_action cfg in
  prog_lift (Ok ((ARReplica <$> rs) ++ (ARLeader <$> ls))).
Definition need_reconcile : M bool :=
  let* g := compute_group_action cfg in
  match g with
  | GAdd _ => prog_lift (Ok true)
  | _ =>
      let* actions := comput_replica_role_action in
      match actions with
      | _ :: _ => prog_lift (Ok true)
      | [] => let* sh := compute_shard_action cfg in prog_lift (Ok (match sh with [] => false | _ => true end))
      end
  end.
Fixpoint repeat_m (n : nat) (p : M unit) : M unit := match n with O => prog_lift (Ok tt) | S n' => do* p in repeat_m n' p end.
Fixpoint for_each {A} (f : A → M unit) (l : list A) : M unit :=
  match l with [] => prog_lift (Ok tt) | a :: l' => do* f a in for_each f l' end.
Definition sched_role_action (a : ReplicaRoleAction) : M unit :=
  match a with
  | ARReplica a => sched_migrate_replica_task a
  | ARLeader (LShed t) => sched_transfer_leader_task t
  | ARLeader LNoop => prog_lift (Ok tt)
  end.
Definition generate_schedule_task : M bool :=
  let* g := compute_group_action cfg in
  match g with
  | GAdd cnt => do* repeat_m (Z.to_nat cnt) (submit_create_group_job cfg) in prog_lift (Ok true)
  | _ =>
      let* ractions := comput_replica_role_action in
      let* sactions := compute_shard_action cfg in
      do* for_each sched_role_action ractions in
      do* for_each sched_migrate_shard_task sactions in
      let* large := prog_reads (λ w, Ok (get_large_shards (ae_stats w) 5)) in
      do* for_each (λ p, sched_split_shard_task p.1 p.2) large in
      prog_reads (λ w, Ok (match re_tasks w with [] => false | _ => true end))
  end.

(** ** Doing it *)
Definition get_group_leader (group_id : Z) : M (option GroupDesc) := do* schema in get_group group_id.
Definition try_shed_leader_before_remove (group_id remove_replica : Z) : M unit :=
  do* schema in
  let* rs := get_replica_state group_id remove_replica in
  let* rs := prog_lift (ok_or rs (AbortScheduleTask "shed leader replica has be destroyed")) in
  if negb (rs_role rs =? RaftRole_i32 Leader) then prog_lift (Ok tt)
  else
    let* group := get_group_leader group_id in
    let* group := prog_lift (ok_or group (AbortScheduleTask "shed leader group has be destroyed")) in
    match List.find (λ e, negb (rd_id e =? remove_replica)) (gd_replicas group) with
    | Some target => se_transfer_leader group_id (rd_id target)
    | None => prog_lift (Ok tt)
    end.
Definition done_with (r : SchedResult) : M SchedResult := prog_lift (Ok r).
Definition move_the_replica (t : ReallocateReplicaTask) : M SchedResult :=
  let* group_desc := get_group (rt_group t) in
  match group_desc with
  | None => done_with SchedResult_ack
  | Some g =>
      match List.find (λ r, rd_id r =? rt_src_replica t) (gd_replicas g) with
      | None => done_with SchedResult_ack
      | Some src_replica =>
          let* dest := prog_lift (expect (rt_dest_node t)) in
          let* next_replica := next_replica_id in
          catch (se_move_replicas (rt_group t) [mkReplicaDesc next_replica (nd_id dest) (ReplicaRole_i32 Voter)] [src_replica])
            (λ s, do* stats_update (handle_schedule_update [s] None) in done_with SchedResult_ack)
            (λ e, match e with AlreadyExists _ | EpochNotMatch _ => done_with SchedResult_ack | _ => prog_lift (Err e) end)
      end
  end.
Definition handle_reallocate_replica (t : ReallocateReplicaTask) : M SchedResult :=
  do* schema in
  catch (try_shed_leader_before_remove (rt_group t) (rt_src_replica t))
    (λ _, move_the_replica t)
    (λ e, match e with
          | AbortScheduleTask _ => done_with SchedResult_next
          | EpochNotMatch _ => done_with SchedResult_ack
          | _ => prog_lift (Err e)
          end).
Definition find_leader_node (group : Z) : M (option Z) :=
  let* g := prog_reads (se_find_group group) in
  prog_lift (Ok (match rg_leader_state g with
                 | None => None
                 | Some (leader_repl, _) => rd_node_id <$> head (List.filter (λ r, rd_id r =? leader_repl) (snd <$> visit (rg_replicas g)))
                 end)).
Definition try_migrate_shard (src_group target_group shard_id : Z) : M unit :=
  let* src := get_group_leader src_group in
  let* src := prog_lift (ok_or src (AbortScheduleTask "migrate source group has be destroyed")) in
  let* desc := prog_lift (ok_or (shard src shard_id) (AbortScheduleTask "migrate shard has be moved out")) in
  do* se_accept_shard target_group (gd_id src) (gd_epoch src) desc in
  let* a := find_leader_node target_group in
  let* b := find_leader_node (gd_id src) in
  schedule_now (option_list a ++ option_list b).
Definition handle_migrate_shard (shard_id src_group dest_group : Z) : M SchedResult :=
  catch (try_migrate_shard src_group dest_group shard_id)
    (λ _, done_with SchedResult_ack)
    (λ e, match e with AbortScheduleTask _ => done_with SchedResult_ack | _ => prog_lift (Err e) end).
Definition handle_transfer_leader (group target_replica src_node dest_node : Z) : M SchedResult :=
  catch (se_transfer_leader group target_replica)
    (λ _, do* schedule_now [dest_node; src_node] in done_with SchedResult_next)
    (λ e, match e with EpochNotMatch _ => done_with SchedResult_ack | _ => prog_lift (Err e) end).

(** The last replica, apart from those that [skip] names, on an active node. *)
Fixpoint pick_target (skip : ReplicaDesc → bool) (replicas : list ReplicaDesc) (found : option ReplicaDesc) : M (option ReplicaDesc) :=
  match replicas with
  | [] => prog_lift (Ok found)
  | r :: replicas' =>
      if skip r then pick_target skip replicas' found
      else
        let* n := get_node (rd_node_id r) in
        match n with
        | Some n => pick_target skip replicas' (if nd_status n =? NodeStatus_i32 NActive then Some r else found)
        | None => pick_target skip replicas' found
        end
  end.
Definition shed_one (replica : ReplicaState) : M unit :=
  let* g := get_group (rs_group_id replica) in
  match g with
  | None => prog_lift (Ok tt)
  | Some g =>
      let* target := pick_target (λ r, rd_id r =? rs_replica_id replica) (gd_replicas g) None in
      match target with
      | Some r => se_transfer_leader (rs_group_id replica) (rd_id r)
      | None => prog_lift (Ok tt)
      end
  end.
Definition is_draining (n : NodeDesc) : bool := nd_status n =? NodeStatus_i32 NDraining.
Fixpoint handle_shed_leader (fuel : nat) (node : Z) : M SchedResult :=
  match fuel with
  | O => λ _, None
  | S fuel' =>
      do* schema in
      let* desc := get_node node in
      if match desc with Some d => negb (is_draining d) | None => false end then done_with SchedResult_next
      else
        let* states := list_replica_state in
        match List.filter (λ r, (rs_node_id r =? node) && (rs_role r =? RaftRole_i32 Leader)) states with
        | [] =>
            let* desc := get_node node in
            do* (match desc with
                 | Some d => if is_draining d then update_node (set_node_status d NDrained) else prog_lift (Ok tt)
                 | None => prog_lift (Ok tt)
                 end) in
            done_with SchedResult_next
        | leaders => do* for_each shed_one leaders in handle_shed_leader fuel' node
        end
  end.
Definition handle_shed_root (node : Z) : M SchedResult :=
  do* schema in
  let* g := get_group ROOT_GROUP_ID in
  let* g := prog_lift (expect g) in
  let* target := pick_target (λ r, rd_node_id r =? node) (gd_replicas g) None in
  do* (match target with Some r => se_transfer_leader (gd_id g) (rd_id r) | None => prog_lift (Ok tt) end) in
  done_with SchedResult_ack.
Definition handle_split_shard_inner (shard_id group_id : Z) : M SchedResult :=
  do* schema in
  let* g := get_group group_id in
  match g with
  | None => done_with SchedResult_next
  | Some _ =>
      let* new_shard_id := next_shard_id in
      catch (se_split_shard group_id shard_id new_shard_id)
        (λ _, done_with SchedResult_next)
        (λ e, match e with
              | EpochNotMatch _ => done_with SchedResult_next
              | InvalidArgument msg => if se_split_keys_empty msg then done_with (SchedResult_delay 30000) else prog_lift (Err e)
              | _ => prog_lift (Err e)
              end)
  end.
Definition handle_split_task (shard_id group_id : Z) : M SchedResult :=
  let* r := handle_split_shard_inner shard_id group_id in
  do* (if sr_ack r then stats_update (finish_split_shard shard_id) else prog_lift (Ok tt)) in
  prog_lift (Ok r).
Definition handle_task (fuel : nat) (t : Task) : M SchedResult :=
  match t with
  | TReallocateReplica t => handle_reallocate_replica t
  | TMigrateShard shard_id src dest => handle_migrate_shard shard_id src dest
  | TTransferGroupLeader g r src dest => handle_transfer_leader g r src dest
  | TShedLeader node => handle_shed_leader fuel node
  | TShedRoot node => handle_shed_root node
  | TSplitShard shard_id group_id => handle_split_task shard_id group_id
  end.

(** ** Advancing *)
(** The tasks that stay, and whether to go on without waiting. *)
Fixpoint advance (fuel : nat) (start_at : Z) (tasks : list ReconcileTask) (nowait : bool) : M (list ReconcileTask * bool) :=
  match tasks with
  | [] => prog_lift (Ok ([], nowait))
  | t :: tasks' =>
      let keep (t : ReconcileTask) :=
        let* ' (l, b) := advance fuel start_at tasks' nowait in prog_lift (Ok (t :: l, b)) in
      if start_at <? tk_fire_at t then keep t
      else
        let* k := prog_lift (expect (tk_task t)) in
        catch (handle_task fuel k)
          (λ r,
             if sr_ack r then advance fuel start_at tasks' (if sr_immediately_next r then nowait else false)
             else match sr_delay r with
                  | Some delay => keep (mkReconcileTask (tk_created_at t) (u64_add start_at delay) (tk_task t))
                  | None => keep t
                  end)
          (λ _, keep t)
  end.
Definition advance_tasks (fuel : nat) : M bool := λ w,
  (let tasks := re_tasks w in
   let* ' (tasks', nowait) := advance fuel (re_timestamp_millis w) tasks (match tasks with [] => false | _ => true end) in
   do* modify (re_set_tasks tasks') in
   prog_lift (Ok nowait)) w.
(** [while self.advance_tasks().await {}]. *)
Fixpoint advance_loop (rounds fuel : nat) : M unit :=
  match rounds with
  | O => λ _, None
  | S rounds' => let* more := advance_tasks fuel in if (more : bool) then advance_loop rounds' fuel else prog_lift (Ok tt)
  end.
Definition poll_and_schedule (rounds fuel : nat) : M unit :=
  catch generate_schedule_task
    (λ cr, if (cr : bool) then advance_loop rounds fuel else prog_lift (Ok tt))
    (λ _, prog_lift (Ok tt)).

(** ** The life of a leader ([step_leader]) *)
Definition set_enabled (b : bool) : M unit := modify (λ w, re_set_queue (queue_enable b (re_queue w)) w).
(** Up to the first round of scheduling; [bootstrapped] is what the flag is. *)
Definition step_leader_begin (local_addr : string) (cfg_cpu_nums : Z) (cluster_id : bytes) (bootstrapped : bool) : M unit :=
  do* (if bootstrapped then prog_lift (Ok tt)
       else catch (try_bootstrap_root local_addr cfg_cpu_nums cluster_id) (λ _, prog_lift (Ok tt)) (λ _, prog_lift Panic)) in
  let* core := step_leader_core in
  do* modify (se_set_core (Some core)) in
  do* stats_update stats_reset in
  do* set_enabled true in
  do* on_step_leader in
  let* ns := list_node in
  schedule_now (nd_id <$> ns).
(** After the last one. *)
Definition step_leader_end : M unit :=
  do* modify (λ w, se_set_core (store_max 0 <$> se_core w) w) in
  do* set_enabled false in
  do* on_drop_leader in
  do* stats_update stats_reset in
  do* modify (λ w, re_set_liveness (liveness_reset (ae_liveness w)) w) in
  modify (se_set_core None).
(** [rounds] of scheduling, until leadership is lost. *)
Definition step_leader (rounds fuel turns : nat) (local_addr : string) (cfg_cpu_nums : Z) (cluster_id : bytes) (bootstrapped : bool) : M unit :=
  do* step_leader_begin local_addr cfg_cpu_nums cluster_id bootstrapped in
  do* repeat_m turns (poll_and_schedule rounds fuel) in
  step_leader_end.
End Schedule.
