(* ===== verification/ServiceSamples.v ===== *)
(** * Transaction identifiers across a change of leader *)

From S2P Require Import Prelude Bytes F64 Api RocksDb Errors Schema Keys Engine EvalTxn Router GroupClient ShardClient.
From S2P Require Import RootStats Allocator RootSamples RootSchema RootSchemaProps Jobs Tso RootHub.
From S2P Require Import RootService RootServiceProps RootSchedule.
#[local] Open Scope Z_scope.

(** A root group that never fails, and a clock that stands still. *)
#[global] Instance plain_replica : RootReplica contents := {|
  rr_epoch _ := INITIAL_EPOCH;
  rr_timestamp_nanos _ := 7;
  rr_execute _ req m :=
    match gr_request req with
    | Some (Some (RGet g)) => Some (Ok (answer (SGetResp ((λ v, mkValue (Some v) 0) <$> m !! (sg_shard_id g, sg_user_key g)))), m)
    | Some (Some (RScan s)) => Some (Ok (answer (SScanResp (listing (ss_shard_id s) (default [] (ss_prefix s)) m))), m)
    | Some (Some (RWrite b)) =>
        Some (Ok (answer (SWriteResp (mkShardWriteResponse [] []))), put_all (sw_shard_id b) (sw_puts b) (delete_all (sw_shard_id b) (sw_deletes b) m))
    | _ => Some (Err (InvalidArgument ""), m)
    end |}.
#[global] Instance plain_replica_ok : RootReplicaOk plain_replica id.
Proof.
  split.
  - intros s k w r w' [= <- <-]. split; [done|]. intros g [= <-]. eexists. split; [done|]. cbn. by destruct (w !! (s, k)).
  - intros s prefix w r w' [= <- <-]. split; [done|]. intros g [= <-]. eexists _, (map_to_list (with_prefix s prefix w)).
    split_and!; [done| |done]. cbn. generalize (map_to_list (with_prefix s prefix w)) as l.
    induction l as [|p l IH]; cbn; [done|]. by f_equal.
  - intros s dels puts w r w' _ _ [= <- <-]. by left.
Qed.
Definition after {A} (p : prog contents Error A) (m : contents) : contents := default m (snd <$> p m).
Lemma after_result {A} (p : prog contents Error A) m r : fst <$> p m = Some r → p m = Some (r, after p m).
Proof. unfold after. destruct (p m) as [[a m']|]; cbn; congruence. Qed.

(** The first leader hands out three identifiers; after the second one has
    handed out two, the first answers another call. *)
Definition w0 : contents := counters.
Definition v0 : Z := 5000000007.
Definition v1 : Z := 10000000007.
Definition w1 : contents := after (max_txn_id (W := contents)) w0.
Definition w2 : contents := after (set_txn_id (W := contents) v0) w1.
Definition w3 : contents := after (max_txn_id (W := contents)) w2.
Definition w4 : contents := after (set_txn_id (W := contents) v1) w3.
Definition second_term : Tso contents :=
  mkTso w4 [(mkRootCore 4 v0, BIdle); (mkRootCore (v0 + 2) v1, BIdle)] [] [(0%nat, 0, 3); (1%nat, v0, 2); (0%nat, 3, 1)].
Lemma nsteps_cons {A} (R : relation A) n x y z : R x y → nsteps R n y z → nsteps R (S n) x z.
Proof. apply nsteps_l. Qed.
Lemma two_terms : nsteps (tso_step id 10) 18 (mkTso w0 [] [] []) second_term.
Proof.
  eapply nsteps_cons; [eapply (tso_elect id 10 w0 [] [] [] 0 w1); apply after_result; computed|].
  eapply nsteps_cons; [eapply (tso_bump id 10 w1 [] _ [] [] (Ok tt) w2); apply after_result; computed|]. cbn [app bumper_after].
  eapply nsteps_cons; [eapply (tso_store id 10 w2 _ 0 _ _ v0); [reflexivity|by left]|]. cbn [list_insert bumper_stored store_max rc_next_txn_id].
  eapply nsteps_cons; [eapply (tso_call id 10 w2 _ 0 3); lia|]. cbn [app].
  eapply nsteps_cons; [eapply (tso_run id 10 w2 _ 0 0); reflexivity|]. cbn [list_insert].
  eapply nsteps_cons; [eapply (tso_run id 10 w2 _ 0 0); reflexivity|]. cbn [list_insert].
  eapply nsteps_cons; [eapply (tso_give id 10 w2 _ 0 0); reflexivity|]. cbn [list_insert delete list_delete app].
  eapply nsteps_cons; [eapply (tso_elect id 10 w2 _ [] _ v0 w3); apply after_result; computed|]. cbn [app].
  eapply nsteps_cons; [eapply (tso_bump id 10 w3 [_] _ [] _ (Ok tt) w4); apply after_result; computed|]. cbn [app bumper_after].
  eapply nsteps_cons; [eapply (tso_store id 10 w4 _ 1 _ _ v1); [reflexivity|by left]|]. cbn [list_insert bumper_stored store_max rc_next_txn_id].
  eapply nsteps_cons; [eapply (tso_call id 10 w4 _ 1 2); lia|]. cbn [app].
  eapply nsteps_cons; [eapply (tso_run id 10 w4 _ 0 1); reflexivity|]. cbn [list_insert].
  eapply nsteps_cons; [eapply (tso_run id 10 w4 _ 0 1); reflexivity|]. cbn [list_insert].
  eapply nsteps_cons; [eapply (tso_give id 10 w4 _ 0 1); reflexivity|]. cbn [list_insert delete list_delete app].
  eapply nsteps_cons; [eapply (tso_call id 10 w4 _ 0 1); lia|]. cbn [app].
  eapply nsteps_cons; [eapply (tso_run id 10 w4 _ 0 0); reflexivity|]. cbn [list_insert].
  eapply nsteps_cons; [eapply (tso_run id 10 w4 _ 0 0); reflexivity|]. cbn [list_insert].
  eapply nsteps_cons; [eapply (tso_give id 10 w4 _ 0 0); reflexivity|]. apply nsteps_O.
Qed.
Lemma txn_ids_unique_witness :
  nsteps (tso_step id 10) 18 (mkTso w0 [] [] []) second_term ∧ 3 + 1 ≤ v0.
Proof.
  split; [exact two_terms|].
  apply (txn_ids_unique (W := contents) (kv := id) 10 7 18 w0 second_term) with (k1 := 1%nat) (k2 := 2%nat) (i1 := 1%nat) (n1 := 2) (i2 := 0%nat).
  - intros w. cbn. lia.
  - lia.
  - vm_compute. discriminate.
  - exists 0. split; [computed|lia].
  - exact two_terms.
  - lia.
  - reflexivity.
  - reflexivity.
  - lia.
Defined.

(** A request for so many identifiers that 64 bits overflow is granted, and
    turns the counter back: the identifiers are handed out again. *)
Lemma huge_request_turns_back :
  alloc_txn_id 9 (2 ^ 64 - 1) (Some (mkRootCore 100 1000)) = Some (Ok 100, Some (mkRootCore 99 1000)) ∧
  alloc_txn_id 9 2 (Some (mkRootCore 99 1000)) = Some (Ok 99, Some (mkRootCore 101 1000)).
Proof. split; reflexivity. Qed.

(** * A small root with its watchers, heartbeats and tasks *)
(** ** A delay queue *)
Abbreviation delays := (gmap nat (QueueTask * Z)).
Definition is_due (now : Z) (p : nat * (QueueTask * Z)) : Prop := p.2.2 ≤ now.
#[global] Instance is_due_dec now p : Decision (is_due now p).
Proof. unfold is_due. apply _. Defined.
Definition due (now : Z) (q : delays) : delays := filter (is_due now) q.
Definition undue (now : Z) (q : delays) : delays := filter (λ p, ¬ is_due now p) q.
#[global] Instance delays_queue : DelayQueue delays nat := {|
  dq_insert_at t w q := let k := fresh (dom q) in (k, <[k := (t, w)]> q);
  dq_reset_at k w q := match q !! k with Some (t, _) => Ok (<[k := (t, w)]> q) | None => Panic end;
  dq_poll_expired now q := ((λ p, p.2.1) <$> map_to_list (due now q), undue now q);
  dq_clear _ := ∅ |}.
#[global] Instance delays_queue_ok : DelayQueueOk delays_queue id.
Proof.
  split.
  - intros t w q k q' [= <- <-]. split; [|done]. apply not_elem_of_dom. apply is_fresh.
  - intros k w q t w0 Hk. unfold id in *. cbn. rewrite Hk. by eexists.
  - intros now q ts q' [= <- <-]. unfold id. split_and!; [apply map_filter_subseteq| |].
    + replace (q ∖ undue now q) with (due now q); [done|]. apply map_eq. intros k.
      apply option_eq. intros [t w]. unfold due, undue. rewrite lookup_difference_Some, map_lookup_filter_Some, map_lookup_filter_None.
      unfold is_due. cbn. split.
      * intros [Hk Hw]. split; [done|]. right. intros x Hx. rewrite Hk in Hx. injection Hx as <-. cbn. lia.
      * intros [Hk [Hn|Hn]]; [congruence|]. specialize (Hn _ Hk). cbn in Hn. split; [done|lia].
    + intros k t w Hk Hn. apply map_lookup_filter_None in Hn as [Hn|Hn]; [congruence|]. specialize (Hn _ Hk).
      unfold is_due in Hn. cbn in Hn. lia.
  - done.
Qed.
Abbreviation beats := (HeartbeatQueue delays nat).
Definition no_beats : beats := mkHeartbeatQueue true ∅ ∅.
Definition at10 : beats := mkHeartbeatQueue true {[0%nat := (QHeartbeat 1, 10); 1%nat := (QHeartbeat 2, 10)]} {[1 := (0%nat, 10); 2 := (1%nat, 10)]}.
Definition at5 : beats := mkHeartbeatQueue true {[0%nat := (QHeartbeat 1, 5); 1%nat := (QHeartbeat 2, 10)]} {[1 := (0%nat, 5); 2 := (1%nat, 10)]}.
Lemma heartbeat_queue_sound_witness :
  rtc queue_step no_beats at5 ∧ (try_poll 7 at5).1.1 = [1] ∧ hq_node_scheduled (try_poll 7 at5).2 !! 2 = Some (1%nat, 10).
Proof.
  assert (rtc queue_step no_beats at5) as St.
  { eapply rtc_l; [apply (qs_schedule [1; 2] 10 _ at10); computed|]. eapply rtc_l; [apply (qs_schedule [1] 5 _ at5); computed|]. apply rtc_refl. }
  assert (queue_ok (entries := id) no_beats) as Hq by (intros n k w; cbn; unfold id; rewrite !lookup_empty; done).
  split; [exact St|]. split; [computed|].
  etrans; [apply (heartbeat_queue_sound (entries := id) no_beats at5 Hq St)|computed].
  intros Hin. assert ((try_poll 7 at5).1.1 = [1]) as E by computed. rewrite E in Hin.
  apply list_elem_of_singleton in Hin. discriminate Hin.
Defined.

(** ** The root *)
Record rworld := mkRWorld {
  rw_base : world; rw_hub : WatchHub; rw_queue : beats; rw_stats : ClusterStats; rw_liveness : Liveness;
  rw_tasks : list ReconcileTask; rw_core : option RootCore; rw_unreadable : gset Z; rw_split : Result unit }.
Definition on_base (f : world → world) (w : rworld) : rworld :=
  mkRWorld (f (rw_base w)) (rw_hub w) (rw_queue w) (rw_stats w) (rw_liveness w) (rw_tasks w) (rw_core w) (rw_unreadable w) (rw_split w).
Definition rw_kv (w : rworld) : contents := wd_kv (rw_base w).
Definition over {A} (p : prog world Error A) : prog rworld Error A := λ w,
  match p (rw_base w) with Some (r, b) => Some (r, on_base (λ _, b) w) | None => None end.
(** The tables of [rw_unreadable] are asked for after the lease is lost. *)
Definition unreadable (req : GroupRequest) (w : rworld) : bool :=
  match gr_request req with Some (Some (RScan s)) => bool_decide (ss_shard_id s ∈ rw_unreadable w) | _ => false end.
#[global] Instance rworld_replica : RootReplica rworld := {|
  rr_epoch w := rr_epoch (rw_base w);
  rr_timestamp_nanos w := rr_timestamp_nanos (rw_base w);
  rr_execute c req w := if unreadable req w then Some (Err (NotLeader ROOT_GROUP_ID 2 None), w) else over (rr_execute c req) w |}.
#[global] Instance rworld_alloc : AllocEnv rworld := {|
  ae_source w := wd_source (rw_base w); ae_stats := rw_stats; ae_now w := wd_time (rw_base w); ae_liveness := rw_liveness;
  ae_refresh_all := prog_lift (Ok tt) |}.
#[global] Instance rworld_jobs : JobEnv rworld := {|
  je_core w := je_core (rw_base w);
  je_set_core c := on_base (je_set_core c);
  je_schema w := je_schema (rw_base w);
  je_create_shard g s w := match je_create_shard g s (rw_base w) with Some (r, b) => Some (r, on_base (λ _, b) w) | None => None end;
  je_create_replica addr r g := over (je_create_replica addr r g);
  je_remove_replica addr r g := over (je_remove_replica addr r g);
  je_schedule_heartbeat _ w := w;
  je_wait_removed _ w := Some w;
  je_now w := wd_time (rw_base w);
  je_sleep d := on_base (je_sleep d);
  je_instant _ := "now"%string;
  je_debug _ := "error"%string |}.
#[global] Instance rworld_env : RootEnv rworld delays nat := {|
  re_node_id _ := 0;
  re_hub := rw_hub;
  re_set_hub h w := mkRWorld (rw_base w) h (rw_queue w) (rw_stats w) (rw_liveness w) (rw_tasks w) (rw_core w) (rw_unreadable w) (rw_split w);
  re_queue := rw_queue;
  re_set_queue q w := mkRWorld (rw_base w) (rw_hub w) q (rw_stats w) (rw_liveness w) (rw_tasks w) (rw_core w) (rw_unreadable w) (rw_split w);
  re_set_stats c w := mkRWorld (rw_base w) (rw_hub w) (rw_queue w) c (rw_liveness w) (rw_tasks w) (rw_core w) (rw_unreadable w) (rw_split w);
  re_set_liveness l w := mkRWorld (rw_base w) (rw_hub w) (rw_queue w) (rw_stats w) l (rw_tasks w) (rw_core w) (rw_unreadable w) (rw_split w);
  re_set_source s := on_base (λ w, mkWorld (wd_kv w) (wd_core w) (wd_placed w) s (wd_refuse w) (wd_write_fails w) (wd_time w));
  re_instant w := wd_time (rw_base w);
  re_node_client addr _ := if String.eqb addr "down" then Err (RpcError "connect") else Ok tt;
  re_root_heartbeat _ _ w := (Some (inr []), w);
  re_tasks := rw_tasks;
  re_set_tasks l w := mkRWorld (rw_base w) (rw_hub w) (rw_queue w) (rw_stats w) (rw_liveness w) l (rw_core w) (rw_unreadable w) (rw_split w);
  re_timestamp_millis w := wd_time (rw_base w) |}.
#[global] Instance rworld_sched : SchedEnv rworld := {|
  se_move_replicas _ _ _ := prog_lift (Err (RpcError "connect"));
  se_transfer_leader _ _ := prog_lift (Err (RpcError "connect"));
  se_accept_shard _ _ _ _ := prog_lift (Err (RpcError "connect"));
  se_split_shard _ _ _ w := Some (rw_split w, w);
  se_find_group g _ := Err (GroupNotFound g);
  se_core := rw_core;
  se_set_core c w := mkRWorld (rw_base w) (rw_hub w) (rw_queue w) (rw_stats w) (rw_liveness w) (rw_tasks w) c (rw_unreadable w) (rw_split w);
  se_split_keys_empty := String.eqb "split keys is empty" |}.
Lemma over_submit req w r w' : submit_request req w = Some (r, w') →
  (rw_kv w' = rw_kv w ∧ (∀ g, r ≠ Ok g)) ∨ submit_request req (rw_base w) = Some (r, rw_base w').
Proof.
  unfold submit_request. cbn [rr_execute rworld_replica]. set (g := mkGroupRequest _ _ _).
  destruct (unreadable g w); [intros [= <- <-]; by left|].
  unfold over. intros E. right. cbn [rr_epoch rworld_replica] in *. destruct (rr_execute _ g _) as [[r1 b]|] eqn:Eg; [|done].
  by injection E as <- <-.
Qed.
#[global] Instance rworld_replica_ok : RootReplicaOk rworld_replica rw_kv.
Proof.
  split.
  - intros s k w r w' [[Hk Hr]|E]%over_submit; [split; [done|naive_solver]|]. by apply (ok_get (RR := world_replica)) in E.
  - intros s p w r w' [[Hk Hr]|E]%over_submit; [split; [done|naive_solver]|]. by apply (ok_list (RR := world_replica)) in E.
  - intros s dels puts w r w' Hp Hd [[Hk Hr]|E]%over_submit; [by right|]. by apply (ok_write (RR := world_replica)) in E.
Qed.
#[global] Instance rworld_env_ok : RootEnvOk rw_kv.
Proof.
  split; try done. intros c req w r w' E. cbn [rr_execute rworld_replica] in E. destruct (unreadable req w); [congruence|].
  unfold over in E. destruct (rr_execute c req (rw_base w)) as [[r1 b]|]; [|done]. by injection E as <- <-.
Qed.
Definition around (w : world) : rworld :=
  mkRWorld w WatchHub_default no_beats ClusterStats_default (Liveness_new 30) [] None ∅ (Ok tt).
Definition rrun {A} (p : prog rworld Error A) (w : rworld) : rworld := default w (snd <$> p w).
Lemma rrun_result {A} (p : prog rworld Error A) w r : fst <$> p w = Some r → p w = Some (r, rrun p w).
Proof. unfold rrun. destruct (p w) as [[a w']|]; cbn; congruence. Qed.

(** ** A report, out of order *)
Definition left_at (epoch : Z) : GroupDesc := mkGroupDesc 7 epoch [shard_range 70 [] (str_bytes "m")] [].
Definition leader_of_left (term : Z) : ReplicaState := mkReplicaState 71 7 term 0 (RaftRole_i32 Leader) 1.
Definition late_reports : list GroupUpdates :=
  [mkGroupUpdates 7 (Some (left_at 9)) (Some (leader_of_left 4)) None; mkGroupUpdates 7 (Some (left_at 6)) (Some (leader_of_left 3)) None].
Definition group_row (w : rworld) (g : GroupDesc) : option bytes := rw_kv w !! (GROUP_ID, group_row_key g).
Lemma report_never_regresses_witness :
  report late_reports (around watched) = Some (Ok tt, rrun (report late_reports) (around watched)) ∧
  group_row (rrun (report late_reports) (around watched)) left_group = Some (encode_to_vec (left_at 9)) ∧
  catalog_ok (rw_kv (rrun (report late_reports) (around watched))).
Proof.
  assert (report late_reports (around watched) = Some (Ok tt, rrun (report late_reports) (around watched))) as E
    by (apply rrun_result; computed).
  split; [exact E|]. split; [computed|].
  apply (report_never_regresses late_reports (around watched) (Ok tt) (rrun (report late_reports) (around watched))).
  - exact watched_ok.
  - apply Forall_cons_2; [|apply Forall_cons_2; [|apply Forall_nil_2]].
    + split; intros x [= <-]; [split; [reflexivity|vm_compute; split; discriminate]|reflexivity].
    + split; intros x [= <-]; [split; [reflexivity|vm_compute; split; discriminate]|reflexivity].
  - exact E.
Defined.

(** Two reports at once: the first has compared its descriptor of epoch 6
    with the stored one and waits; the second stores epoch 9; the first goes on
    and stores its own.  The catalog is back at epoch 6. *)
Definition old_report : GroupUpdates := mkGroupUpdates 7 (Some (left_at 6)) None None.
Definition between_reports : rworld := rrun (report [mkGroupUpdates 7 (Some (left_at 9)) None None]) (around watched).
Lemma overlapping_reports_regress :
  fst <$> newer_desc old_report (around watched) = Some (Ok (Some (left_at 6))) ∧
  group_row between_reports left_group = Some (encode_to_vec (left_at 9)) ∧
  group_row (rrun (update_group_replica (Some (left_at 6)) None) between_reports) left_group = Some (encode_to_vec (left_at 6)).
Proof. split_and!; computed. Qed.

(** ** A watcher *)
Definition watcher_life : list watch_op :=
  [OPoll 1; ONotify [UGroup (left_at 9)] [] None; OCreate; ODrop 2; ONotify [] [DGroup 8] None; OCleanup; OPoll 1; ONotify [UGroup (left_at 10)] [] None].
Lemma watch_stream_witness :
  watch ∅ (around watched) = Some (Ok 1, rrun (watch ∅) (around watched)) ∧
  ∃ u d w1 wu wd, list_all_events ∅ (re_set_hub (create_watcher WatchHub_default).2 (around watched)) = Some (Ok (u, d), w1) ∧
    hub_inners (hub_runs watcher_life (rw_hub (rrun (watch ∅) (around watched)))).2 !! 1 = Some (mkWatcherInner wu wd None false) ∧
    updates_of (seen 1 (hub_runs watcher_life (rw_hub (rrun (watch ∅) (around watched)))).1) ++ wu = u ++ [UGroup (left_at 9); UGroup (left_at 10)].
Proof.
  assert (watch ∅ (around watched) = Some (Ok 1, rrun (watch ∅) (around watched))) as E by (apply rrun_result; computed).
  split; [exact E|].
  destruct (watch_stream ∅ (around watched) 1 _ watcher_life E) as (u & d & w1 & wu & wd & Hl & Hr).
  - cbn. lia.
  - vm_compute. discriminate.
  - repeat (apply Forall_cons_2; [by split|]). apply Forall_nil_2.
  - exists u, d, w1, wu, wd. split; [exact Hl|]. cbn [re_hub rworld_env] in Hr.
    destruct (hub_runs watcher_life (rw_hub (rrun (watch ∅) (around watched)))) as [l h]. cbn [fst snd]. destruct Hr as (Hi & Hu & _).
    split; [exact Hi|exact Hu].
Defined.

(** ** Where the root loses track *)
Definition node_at (id : Z) (addr : string) (status : NodeStatus) : NodeDesc :=
  mkNodeDesc id addr (Some (mkNodeCapacity (f64_of_Z 4) 0 0)) (NodeStatus_i32 status).
Definition node_key (n : NodeDesc) : bytes := u64_to_le_bytes (nd_id n).
Definition with_nodes (l : list NodeDesc) (w : world) : world :=
  set_kv (λ m, foldl (λ m n, <[(NODE_ID, node_key n) := encode_to_vec n]> m) m l) w.
(** Heartbeats compare with the groups listed before the responses are
    handled: of two new epochs in one round the one that is handled last stays,
    not the larger one. *)
Definition detail (g : GroupDesc) : option PiggybackInfo := Some (PiCollectGroupDetail (mkCollectGroupDetailResponse [] [g])).
Lemma heartbeat_sets_group_back :
  let resps := [(node_at 1 "a" NActive, inr [detail (left_at 6)]); (node_at 2 "b" NActive, inr [detail (left_at 5)])] in
  group_row (rrun (handle_resps [left_group; right_group] resps) (around watched)) left_group = Some (encode_to_vec (left_at 5)).
Proof. cbv zeta. computed. Qed.
(** The node that a heartbeat writes back was read before the call: a node that
    was cordoned meanwhile is active again. *)
Lemma heartbeat_undoes_cordon :
  let n := node_at 1 "a" NActive in
  let w := rrun (cordon_node 1) (around (with_nodes [n] fresh_world)) in
  let stats := mkCollectStatsResponse (Some (mkNodeStats 2 1)) [] in
  fst <$> node_status 1 w = Some (Ok NCordoned) ∧ fst <$> node_status 1 (rrun (handle_collect_stats stats n) w) = Some (Ok NActive).
Proof. cbv zeta. split; computed. Qed.
(** A round of heartbeats that fails, here because the client of one node could
    not be made, forgets all the nodes that were due. *)
Definition root_row : GroupDesc := mkGroupDesc ROOT_GROUP_ID 1 [] [].
Definition beating : rworld :=
  let w := around (set_kv <[(GROUP_ID, group_row_key root_row) := encode_to_vec root_row]>
    (with_nodes [node_at 1 "a" NActive; node_at 2 "down" NActive] fresh_world)) in
  rrun (schedule_now [1; 2]) w.
Definition sample_cfg : RootConfig := mkRootConfig 3 true true true true true true 30 4.
Lemma failed_heartbeats_forgotten :
  size (hq_node_scheduled (rw_queue beating)) = 2%nat ∧
  fst <$> send_heartbeat sample_cfg [1; 2] beating = Some (Err (RpcError "connect")) ∧
  fst <$> heartbeat_round sample_cfg beating = Some (Ok tt) ∧
  size (hq_node_scheduled (rw_queue (rrun (heartbeat_round sample_cfg) beating))) = 0%nat.
Proof. split_and!; computed. Qed.
(** A task whose handler fails is tried again at once, for ever. *)
Lemma failing_task_spins t rounds fuel w : rw_tasks w = [mkReconcileTask t 0 (Some (TTransferGroupLeader 7 71 1 2))] →
  0 ≤ wd_time (rw_base w) → advance_loop rounds fuel w = None.
Proof.
  intros Ht H0. induction rounds as [|rounds IH]; [done|]. cbn [advance_loop].
  assert (advance_tasks fuel w = Some (Ok true, w)) as E.
  { unfold advance_tasks. cbn [re_tasks rworld_env]. rewrite Ht. destruct w as [b ? ? ? ? tasks ? ? ?]. cbn in *. subst tasks.
    unfold prog_bind. cbn. rewrite (proj2 (Z.ltb_ge _ _)) by done. done. }
  unfold prog_bind. by rewrite E.
Qed.
(** A split that should be tried again later is dropped. *)
Definition splitting : rworld :=
  rrun (setup_task (TSplitShard 70 7))
    (mkRWorld watched WatchHub_default no_beats ClusterStats_default (Liveness_new 30) [] None ∅ (Err (InvalidArgument "split keys is empty"))).
Lemma delayed_split_dropped :
  fst <$> handle_split_task 70 7 splitting = Some (Ok (SchedResult_delay 30000)) ∧ length (rw_tasks splitting) = 1%nat ∧
  rw_tasks (rrun (advance_tasks 1) splitting) = [].
Proof. split_and!; computed. Qed.
(** A leader that loses its lease before it has read the jobs leaves, but keeps its state. *)
Definition jobless : rworld :=
  mkRWorld fresh_world WatchHub_default (queue_enable false no_beats) ClusterStats_default (Liveness_new 30) [] None {[JOB_ID]} (Ok tt).
Lemma failed_leader_keeps_core :
  fst <$> step_leader sample_cfg 1 1 1 "a" 4 [] true jobless = Some (Err (NotLeader ROOT_GROUP_ID 2 None)) ∧
  let w := rrun (step_leader sample_cfg 1 1 1 "a" 4 [] true) jobless in
  (match rw_core w with Some _ => true | None => false end) = true ∧ hq_enable (rw_queue w) = true.
Proof. cbv zeta. split_and!; computed. Qed.
