(* ===== verification/GroupSched.v ===== *)
(** * The scheduler of a group

    [server/src/schedule]: the tasks by which the leader of a group keeps it
    replicated, the locks they take, the actions they delegate, and the
    scheduler that polls them.  Instants and intervals are in milliseconds. *)

From S2P Require Import Prelude Bytes F64 Api RocksDb Errors RootStats EvalTxn.
#[local] Open Scope Z_scope.

(** ** [event_source.rs] *)
(** [es_waker]: whether the source still holds the waker it was bound to. *)
Record CommonEventSource := mkCommonEventSource { es_waker : bool; es_active_tasks : gset Z; es_subscribe_tasks : gset Z }.
Definition CommonEventSource_default : CommonEventSource := mkCommonEventSource false ∅ ∅.
Definition source_watch (task_id : Z) (s : CommonEventSource) : CommonEventSource :=
  mkCommonEventSource (es_waker s) (es_active_tasks s) ({[task_id]} ∪ es_subscribe_tasks s).
Definition source_bind (s : CommonEventSource) : CommonEventSource := mkCommonEventSource true (es_active_tasks s) (es_subscribe_tasks s).
(** And whether the scheduler is woken. *)
Definition source_fire (s : CommonEventSource) : bool * CommonEventSource :=
  (es_waker s, mkCommonEventSource false (es_active_tasks s ∪ es_subscribe_tasks s) ∅).
Definition source_take (s : CommonEventSource) : gset Z * CommonEventSource :=
  (es_active_tasks s, mkCommonEventSource (es_waker s) ∅ (es_subscribe_tasks s)).

(** ** [provider/group.rs] *)
Record PeerState := mkPeerState { ps_matched : Z; ps_next_idx : Z; ps_committed_index : Z; ps_might_lost : bool }.
(** [mv_sender]: the channel on which the caller waits. *)
Record MoveReplicas := mkMoveReplicas {
  mv_epoch : Z; mv_incoming_replicas : list ReplicaDesc; mv_outgoing_replicas : list ReplicaDesc; mv_sender : Z }.
(** The four providers; of the raft state only the peers are read.
    [pv_waked] is the [WakerState] they share with the scheduler, [pv_answers]
    what was sent on the channels of callers. *)
Record GroupProviders := mkGroupProviders {
  pv_desc_core : CommonEventSource; pv_desc : GroupDesc;
  pv_states_core : CommonEventSource; pv_replica_states : list ReplicaState;
  pv_raft_core : CommonEventSource; pv_peers : gmap Z PeerState; pv_lost_peers : gmap Z Z;
  pv_move_core : CommonEventSource; pv_duty : option MoveReplicas;
  pv_waked : bool; pv_answers : list (Z * Result unit) }.
Definition GroupProviders_new (desc : GroupDesc) : GroupProviders :=
  mkGroupProviders CommonEventSource_default desc CommonEventSource_default [] CommonEventSource_default ∅ ∅ CommonEventSource_default None false [].
Definition on_desc_core (f : CommonEventSource → CommonEventSource) (p : GroupProviders) : GroupProviders :=
  mkGroupProviders (f (pv_desc_core p)) (pv_desc p) (pv_states_core p) (pv_replica_states p) (pv_raft_core p) (pv_peers p) (pv_lost_peers p)
    (pv_move_core p) (pv_duty p) (pv_waked p) (pv_answers p).
Definition on_move_core (f : CommonEventSource → CommonEventSource) (p : GroupProviders) : GroupProviders :=
  mkGroupProviders (pv_desc_core p) (pv_desc p) (pv_states_core p) (pv_replica_states p) (pv_raft_core p) (pv_peers p) (pv_lost_peers p)
    (f (pv_move_core p)) (pv_duty p) (pv_waked p) (pv_answers p).
(** [GroupDescProvider::update]. *)
Definition desc_update (d : GroupDesc) (p : GroupProviders) : GroupProviders :=
  if gd_epoch (pv_desc p) <? gd_epoch d then
    let '(wake, core) := source_fire (pv_desc_core p) in
    mkGroupProviders core d (pv_states_core p) (pv_replica_states p) (pv_raft_core p) (pv_peers p) (pv_lost_peers p)
      (pv_move_core p) (pv_duty p) (pv_waked p || wake) (pv_answers p)
  else p.
Definition by_replica_id (a b : ReplicaState) : Prop := rs_replica_id a ≤ rs_replica_id b.
#[global] Instance by_replica_id_dec a b : Decision (by_replica_id a b).
Proof. unfold by_replica_id. apply _. Defined.
#[global] Instance ReplicaState_eq_decision : EqDecision ReplicaState.
Proof. solve_decision. Defined.
(** [ReplicaStatesProvider::update]. *)
Definition states_update (states : list ReplicaState) (p : GroupProviders) : GroupProviders :=
  let states := merge_sort by_replica_id states in
  if decide (pv_replica_states p = states) then p
  else
    let '(wake, core) := source_fire (pv_states_core p) in
    mkGroupProviders (pv_desc_core p) (pv_desc p) core states (pv_raft_core p) (pv_peers p) (pv_lost_peers p)
      (pv_move_core p) (pv_duty p) (pv_waked p || wake) (pv_answers p).
(** [RaftStateProvider::update]: since when a peer seems lost. *)
Definition lost_since (now : Z) (peers : gmap Z PeerState) (lost : gmap Z Z) : gmap Z Z :=
  map_imap (λ id s, if ps_might_lost s then Some (default now (lost !! id)) else None) peers.
Definition raft_update (now : Z) (peers : gmap Z PeerState) (p : GroupProviders) : GroupProviders :=
  let '(wake, core) := source_fire (pv_raft_core p) in
  mkGroupProviders (pv_desc_core p) (pv_desc p) (pv_states_core p) (pv_replica_states p) core peers (lost_since now peers (pv_lost_peers p))
    (pv_move_core p) (pv_duty p) (pv_waked p || wake) (pv_answers p).
Definition lost_peers (p : GroupProviders) : gset Z := dom (pv_lost_peers p).
Definition matched_indexes (p : GroupProviders) : gmap Z Z := ps_matched <$> pv_peers p.
Definition send_answer (sender : Z) (r : Result unit) (p : GroupProviders) : GroupProviders :=
  mkGroupProviders (pv_desc_core p) (pv_desc p) (pv_states_core p) (pv_replica_states p) (pv_raft_core p) (pv_peers p) (pv_lost_peers p)
    (pv_move_core p) (pv_duty p) (pv_waked p) (pv_answers p ++ [(sender, r)]).
Definition set_duty (d : option MoveReplicas) (p : GroupProviders) : GroupProviders :=
  mkGroupProviders (pv_desc_core p) (pv_desc p) (pv_states_core p) (pv_replica_states p) (pv_raft_core p) (pv_peers p) (pv_lost_peers p)
    (pv_move_core p) d (pv_waked p) (pv_answers p).
(** [MoveReplicasProvider::assign] with the channel it makes. *)
Definition assign (m : MoveReplicas) (p : GroupProviders) : GroupProviders :=
  match pv_duty p with
  | Some _ => send_answer (mv_sender m) (Err (AlreadyExists "MoveReplicas task")) p
  | None =>
      let '(wake, core) := source_fire (pv_move_core p) in
      mkGroupProviders (pv_desc_core p) (pv_desc p) (pv_states_core p) (pv_replica_states p) (pv_raft_core p) (pv_peers p) (pv_lost_peers p)
        core (Some m) (pv_waked p || wake) (pv_answers p)
  end.

(** ** [tasks/group/mod.rs]: the locks *)
Record GroupLockTable := mkGroupLockTable {
  lt_group_id : Z; lt_config_change : option Z; lt_locked_replicas : gmap Z Z;
  lt_states_updated : bool; lt_states : gmap Z ScheduleState }.
Definition GroupLockTable_new (group_id : Z) : GroupLockTable := mkGroupLockTable group_id None ∅ false ∅.
Definition is_replica_locked (replica_id : Z) (t : GroupLockTable) : bool := bool_decide (is_Some (lt_locked_replicas t !! replica_id)).
Definition lock_all (task_id : Z) (replicas : list Z) (m : gmap Z Z) : gmap Z Z := foldl (λ m r, <[r := task_id]> m) m replicas.
(** The replicas that [GroupLocks] holds. *)
Definition table_lock (task_id epoch : Z) (replicas : list Z) (incoming outgoing : list ReplicaDesc) (t : GroupLockTable) :
    option (list Z * GroupLockTable) :=
  if existsb (λ r, is_replica_locked r t) replicas then None
  else Some (replicas, mkGroupLockTable (lt_group_id t) (lt_config_change t) (lock_all task_id replicas (lt_locked_replicas t)) true
    (<[task_id := mkScheduleState 0 epoch incoming outgoing]> (lt_states t))).
Definition table_config_change (task_id epoch : Z) (replicas : list Z) (incoming outgoing : list ReplicaDesc) (t : GroupLockTable) :
    option (list Z * GroupLockTable) :=
  match lt_config_change t with
  | Some _ => None
  | None =>
      match table_lock task_id epoch replicas incoming outgoing t with
      | Some (locks, t) => Some (locks, mkGroupLockTable (lt_group_id t) (Some task_id) (lt_locked_replicas t) (lt_states_updated t) (lt_states t))
      | None => None
      end
  end.
Definition has_config_change (t : GroupLockTable) : bool := match lt_config_change t with Some _ => true | None => false end.
Definition unlock_all (replicas : list Z) (m : gmap Z Z) : gmap Z Z := foldl (λ m r, delete r m) m replicas.
Definition table_release (task_id : Z) (locked : list Z) (t : GroupLockTable) : GroupLockTable :=
  mkGroupLockTable (lt_group_id t)
    (if bool_decide (lt_config_change t = Some task_id) then None else lt_config_change t)
    (unlock_all locked (lt_locked_replicas t))
    (match lt_states t !! task_id with Some _ => true | None => lt_states_updated t end)
    (delete task_id (lt_states t)).
Definition accumulate (a s : ScheduleState) : ScheduleState :=
  mkScheduleState (sch_group_id a) (if sch_epoch a <? sch_epoch s then sch_epoch s else sch_epoch a)
    (sch_incoming_replicas a ++ sch_incoming_replicas s) (sch_outgoing_replicas a ++ sch_outgoing_replicas s).
Definition take_updated_states `{HashOrder} (t : GroupLockTable) : option ScheduleState * GroupLockTable :=
  if lt_states_updated t then
    (Some (foldl accumulate (mkScheduleState (lt_group_id t) 0 [] []) (snd <$> visit (lt_states t))),
     mkGroupLockTable (lt_group_id t) (lt_config_change t) (lt_locked_replicas t) false (lt_states t))
  else (None, t).

(** ** Actions and tasks *)
Inductive Action :=
  | CreateReplicas (replicas : list ReplicaDesc) (interval_ms retry_count : Z)
  | RemoveReplica (group : GroupDesc) (replica : ReplicaDesc) (retry_count : Z)
  | ClearReplicaState (target_id : Z)
  | AddLearners (learners : list ReplicaDesc)
  | RemoveLearners (learners : list ReplicaDesc)
  | ReplaceVoters (incoming_voters demoting_voters : list ReplicaDesc).
Definition CreateReplicas_new (replicas : list ReplicaDesc) : Action := CreateReplicas replicas 50 0.
Inductive ActionState := APending (interval : option Z) | AAborted | ADone.
Inductive ActionStage := Next (index : nat) | Doing (index : nat).
Record ActionTask := mkActionTask { at_task_id : Z; at_stage : ActionStage; at_actions : list Action }.
Definition ActionTask_new (task_id : Z) (actions : list Action) : ActionTask := mkActionTask task_id (Next 0) actions.
Inductive TaskState := Pending (interval : option Z) | Advanced | Terminated.
(** The implementations of [Task]. *)
Inductive GroupTask :=
  | WatchReplicaStates | WatchRaftState | WatchGroupDescriptor
  | PromoteGroup | DurableGroup
  | RemoveOrphanReplica (orphan_replicas : gmap Z Z)
  | ReplicaMigration
  | ActionTaskWithLocks (locks : list Z) (inner : ActionTask).
Definition PROMOTE_GROUP_TASK_ID : Z := 1.
Definition CURE_GROUP_TASK_ID : Z := 2.
Definition REMOVE_ORPHAN_REPLICA_TASK_ID : Z := 3.
Definition REPLICA_MIGRATION_TASK_ID : Z := 4.
Definition WATCH_REPLICA_STATES_TASK_ID : Z := 5.
Definition WATCH_RAFT_STATE_TASK_ID : Z := 6.
Definition WATCH_GROUP_DESCRIPTOR_TASK_ID : Z := 7.
Definition GENERATED_TASK_ID : Z := 10.
Definition task_id (t : GroupTask) : Z :=
  match t with
  | WatchReplicaStates => WATCH_REPLICA_STATES_TASK_ID
  | WatchRaftState => WATCH_RAFT_STATE_TASK_ID
  | WatchGroupDescriptor => WATCH_GROUP_DESCRIPTOR_TASK_ID
  | PromoteGroup => PROMOTE_GROUP_TASK_ID
  | DurableGroup => CURE_GROUP_TASK_ID
  | RemoveOrphanReplica _ => REMOVE_ORPHAN_REPLICA_TASK_ID
  | ReplicaMigration => REPLICA_MIGRATION_TASK_ID
  | ActionTaskWithLocks _ a => at_task_id a
  end.
(** The testing knobs of [ReplicaConfig]. *)
Record Knobs := mkKnobs {
  disable_scheduler_durable_task : bool;
  disable_scheduler_orphan_replica_detecting_intervals : bool;
  disable_scheduler_remove_orphan_replica_task : bool }.

(** A call of another node fails before it is sent, or with a status. *)
Inductive CallError := NoClient (e : ClientError) | CallStatus (s : Status).
(** The replica, the root, the other nodes, the router and the clock. *)
Class GroupSchedEnv (W : Type) := {
  gs_descriptor : W → GroupDesc;
  gs_execute : ExecCtx → Request → prog W Error Response;
  gs_raft_group_state : W → option (gmap Z PeerState) * W;
  gs_alloc_replica : Z → Z → Z → Z → Z → prog W ClientError (list ReplicaDesc);
  gs_create_replica : Z → Z → GroupDesc → prog W CallError unit;
  gs_remove_replica : Z → Z → GroupDesc → prog W CallError unit;
  gs_list_replica_state : Z → prog W Error (list ReplicaState);
  gs_clear_replica_state : Z → Z → prog W Error unit;
  gs_total_nodes : W → Z;
  gs_now : W → Z;
}.
(** [ScheduleContext], with the world. *)
Record Ctx (W : Type) := mkCtx {
  cx_world : W; cx_group_id : Z; cx_replica_id : Z; cx_current_term : Z;
  cx_next_task_id : Z; cx_pending_tasks : list GroupTask; cx_locks : GroupLockTable; cx_pv : GroupProviders }.
Arguments mkCtx {W}.
Arguments cx_world {W}.
Arguments cx_group_id {W}.
Arguments cx_replica_id {W}.
Arguments cx_current_term {W}.
Arguments cx_next_task_id {W}.
Arguments cx_pending_tasks {W}.
Arguments cx_locks {W}.
Arguments cx_pv {W}.

Section Tasks.
  Context {W : Type} {GE : GroupSchedEnv W} `{HashOrder} `{Codec V1Error} (knobs : Knobs).
  Abbreviation M := (prog (Ctx W) Error).
Definition set_cx_world (w : W) (c : Ctx W) : Ctx W :=
  mkCtx w (cx_group_id c) (cx_replica_id c) (cx_current_term c) (cx_next_task_id c) (cx_pending_tasks c) (cx_locks c) (cx_pv c).
Definition set_cx_locks (t : GroupLockTable) (c : Ctx W) : Ctx W :=
  mkCtx (cx_world c) (cx_group_id c) (cx_replica_id c) (cx_current_term c) (cx_next_task_id c) (cx_pending_tasks c) t (cx_pv c).
Definition on_pv (f : GroupProviders → GroupProviders) : M unit := λ c,
  Some (Ok tt, mkCtx (cx_world c) (cx_group_id c) (cx_replica_id c) (cx_current_term c) (cx_next_task_id c) (cx_pending_tasks c) (cx_locks c) (f (cx_pv c))).
Definition ask {A} (f : Ctx W → A) : M A := λ c, Some (Ok (f c), c).
(** A call whose error the caller looks at. *)
Definition call_env {E A} (p : prog W E A) : M (E + A) := λ c,
  match p (cx_world c) with
  | None => None
  | Some (Ok a, w) => Some (Ok (inr a), set_cx_world w c)
  | Some (Err e, w) => Some (Ok (inl e), set_cx_world w c)
  | Some (Panic, w) => Some (Panic, set_cx_world w c)
  end.
Definition ret {A} (a : A) : M A := prog_lift (Ok a).
Definition sched_now : M Z := ask (λ c, gs_now (cx_world c)).
Definition replica_epoch : M Z := ask (λ c, gd_epoch (gs_descriptor (cx_world c))).
(** [ScheduleContext::delegate] and [next_task_id]. *)
Definition delegate (t : GroupTask) : M unit := λ c,
  Some (Ok tt, mkCtx (cx_world c) (cx_group_id c) (cx_replica_id c) (cx_current_term c) (cx_next_task_id c) (cx_pending_tasks c ++ [t]) (cx_locks c) (cx_pv c)).
Definition next_task_id : M Z := λ c,
  Some (Ok (cx_next_task_id c), mkCtx (cx_world c) (cx_group_id c) (cx_replica_id c) (cx_current_term c) (u64_add (cx_next_task_id c) 1)
    (cx_pending_tasks c) (cx_locks c) (cx_pv c)).
Definition try_config_change (task_id epoch : Z) (replicas : list Z) (incoming outgoing : list ReplicaDesc) : M (option (list Z)) := λ c,
  match table_config_change task_id epoch replicas incoming outgoing (cx_locks c) with
  | Some (locks, t) => Some (Ok (Some locks), set_cx_locks t c)
  | None => Some (Ok None, c)
  end.
Definition try_lock (task_id epoch : Z) (replicas : list Z) (incoming outgoing : list ReplicaDesc) : M (option (list Z)) := λ c,
  match table_lock task_id epoch replicas incoming outgoing (cx_locks c) with
  | Some (locks, t) => Some (Ok (Some locks), set_cx_locks t c)
  | None => Some (Ok None, c)
  end.
(** [config_change(..).expect("Check conflicts in before steps")] at the
    epoch of the replica. *)
Definition must_config_change (task_id : Z) (replicas : list Z) (incoming outgoing : list ReplicaDesc) : M (list Z) :=
  let* epoch := replica_epoch in
  let* locks := try_config_change task_id epoch replicas incoming outgoing in
  prog_lift (expect locks).
Definition watch_desc (id : Z) : M unit := on_pv (on_desc_core (source_watch id)).

(** ** [actions/act_config_change.rs] *)
Definition replica_as (t : Z) (r : ReplicaDesc) : ChangeReplica := mkChangeReplica t (rd_id r) (rd_node_id r).
Definition replica_as_incoming_voter : ReplicaDesc → ChangeReplica := replica_as 0.
Definition replica_as_outgoing_voter : ReplicaDesc → ChangeReplica := replica_as 1.
Definition replica_as_learner : ReplicaDesc → ChangeReplica := replica_as 2.
Definition try_execute_change (changes : list ChangeReplica) : M ActionState :=
  let* epoch := replica_epoch in
  let* r := call_env (gs_execute (ExecCtx_with_epoch epoch) (RChangeReplicas (mkChangeReplicasRequest (Some changes)))) in
  ret (match r with
       | inr _ => ADone
       | inl (ServiceIsBusy AclGuard) | inl (ServiceIsBusy PendingConfigChange) => APending (Some 100)
       | inl _ => AAborted
       end).
Definition change_and_watch (id : Z) (changes : list ChangeReplica) : M ActionState :=
  let* s := try_execute_change changes in
  do* (match s with ADone => watch_desc id | _ => ret tt end) in
  ret s.
Definition replica_ids (l : list ReplicaDesc) : gset Z := list_to_set (rd_id <$> l).
Definition wait_descriptor (id : Z) (done : list ReplicaDesc → bool) : M ActionState :=
  let* replicas := ask (λ c, gd_replicas (pv_desc (cx_pv c))) in
  if done replicas then ret ADone
  else do* watch_desc id in ret (APending None).
(** All of them have the role. *)
Definition all_have (role : ReplicaRole) (wanted replicas : list ReplicaDesc) : bool :=
  bool_decide (replica_ids wanted ⊆ replica_ids (filter (λ r, rd_role r = ReplicaRole_i32 role) replicas)).
Definition none_left (gone replicas : list ReplicaDesc) : bool := negb (existsb (λ r, bool_decide (rd_id r ∈ replica_ids gone)) replicas).

(** ** [actions/act_replica.rs] *)
(** [Err(Rpc(status)) if retryable_rpc_err(&status)]. *)
Definition retryable_call (e : CallError) : bool :=
  match e with
  | NoClient _ => false
  | CallStatus s => match from_status s with Ok CRpc => retryable_rpc_err s | _ => false end
  end.
(** The replicas in the order in which they are popped. *)
Fixpoint create_from (group_id : Z) (todo : list ReplicaDesc) (interval retries : Z) : M (ActionState * Action) :=
  match todo with
  | [] => ret (ADone, CreateReplicas [] interval retries)
  | r :: todo' =>
      let* a := call_env (gs_create_replica (rd_node_id r) (rd_id r) (mkGroupDesc group_id 0 [] [])) in
      match a with
      | inr _ => create_from group_id todo' 50 0
      | inl e =>
          if retryable_call e && (retries <? 30) then
            let interval := Z.min (interval * 2) 1000 in
            ret (APending (Some interval), CreateReplicas (rev todo) interval (retries + 1))
          else ret (AAborted, CreateReplicas (rev todo) interval retries)
      end
  end.
Definition action_setup (id : Z) (a : Action) : M (ActionState * Action) :=
  let keep (p : M ActionState) := let* s := p in ret (s, a) in
  match a with
  | CreateReplicas replicas interval retries =>
      let* group_id := ask cx_group_id in create_from group_id (rev replicas) interval retries
  | RemoveReplica group replica retries =>
      let* r := call_env (gs_remove_replica (rd_node_id replica) (rd_id replica) group) in
      ret (match r with
           | inr _ => (ADone, a)
           | inl e =>
               if retryable_call e && (retries <? 3) then (APending (Some 30000), RemoveReplica group replica (retries + 1))
               else (AAborted, a)
           end)
  | ClearReplicaState target =>
      let* group_id := ask cx_group_id in
      let* r := call_env (gs_clear_replica_state group_id target) in
      ret (match r with inr _ => ADone | inl _ => AAborted end, a)
  | AddLearners learners => keep (change_and_watch id (replica_as_learner <$> learners))
  | RemoveLearners learners => keep (change_and_watch id (replica_as_outgoing_voter <$> learners))
  | ReplaceVoters incoming demoting =>
      keep (change_and_watch id ((replica_as_incoming_voter <$> incoming) ++ (replica_as_outgoing_voter <$> demoting)))
  end.
Definition action_poll (id : Z) (a : Action) : M ActionState :=
  match a with
  | AddLearners learners => wait_descriptor id (all_have Learner learners)
  | RemoveLearners learners => wait_descriptor id (none_left learners)
  | ReplaceVoters incoming _ => wait_descriptor id (all_have Voter incoming)
  | _ => ret ADone
  end.

(** ** [tasks/action.rs] *)
Definition set_stage (s : ActionStage) (t : ActionTask) : ActionTask := mkActionTask (at_task_id t) s (at_actions t).
Definition set_action (i : nat) (a : Action) (t : ActionTask) : ActionTask :=
  mkActionTask (at_task_id t) (at_stage t) (<[i := a]> (at_actions t)).
Definition action_task_poll (t : ActionTask) : M (TaskState * ActionTask) :=
  match at_stage t with
  | Next i =>
      match at_actions t !! i with
      | None => ret (Terminated, t)
      | Some a =>
          let* ' (s, a) := action_setup (at_task_id t) a in
          let t := set_action i a t in
          ret (match s with
               | APending d => (Pending d, t)
               | AAborted => (Terminated, t)
               | ADone => (Advanced, set_stage (Doing i) t)
               end)
      end
  | Doing i =>
      let* a := prog_lift (expect (at_actions t !! i)) in
      let* s := action_poll (at_task_id t) a in
      ret (match s with
           | APending d => (Pending d, t)
           | AAborted => (Terminated, t)
           | ADone => (Advanced, set_stage (Next (S i)) t)
           end)
  end.

(** ** [tasks/group/durable.rs] *)
Record ReplicaStats := mkReplicaStats {
  st_peers : list Z; online_voters : gmap Z ReplicaDesc; offline_voters : gmap Z ReplicaDesc;
  online_learners : gmap Z ReplicaDesc; offline_learners : gmap Z ReplicaDesc }.
Definition ReplicaStats_default : ReplicaStats := mkReplicaStats [] ∅ ∅ ∅ ∅.
Definition note_replica (lost : bool) (r : ReplicaDesc) (role : ReplicaRole) (s : ReplicaStats) : ReplicaStats :=
  let peers := st_peers s ++ [rd_id r] in
  match role, lost with
  | Voter, false => mkReplicaStats peers (<[rd_id r := r]> (online_voters s)) (offline_voters s) (online_learners s) (offline_learners s)
  | Voter, true => mkReplicaStats peers (online_voters s) (<[rd_id r := r]> (offline_voters s)) (online_learners s) (offline_learners s)
  | _, false => mkReplicaStats peers (online_voters s) (offline_voters s) (<[rd_id r := r]> (online_learners s)) (offline_learners s)
  | _, true => mkReplicaStats peers (online_voters s) (offline_voters s) (online_learners s) (<[rd_id r := r]> (offline_learners s))
  end.
(** [None]: a replica is locked, or changes its role. *)
Fixpoint classify (locked : GroupLockTable) (lost : gset Z) (replicas : list ReplicaDesc) (s : ReplicaStats) : Result (option ReplicaStats) :=
  match replicas with
  | [] => Ok (Some s)
  | r :: replicas' =>
      if is_replica_locked (rd_id r) locked then Ok None
      else
        let? role := expect (ReplicaRole_from_i32 (rd_role r)) in
        match role with
        | IncomingVoter | DemotingVoter => Ok None
        | _ => classify locked lost replicas' (note_replica (bool_decide (rd_id r ∈ lost)) r role s)
        end
  end.
Definition values (m : gmap Z ReplicaDesc) : list ReplicaDesc := snd <$> visit m.
Definition take_some (n : nat) (m : gmap Z ReplicaDesc) : gmap Z ReplicaDesc := list_to_map (take n (visit m)).
Definition replace_voters (peers : list Z) (learners voters : gmap Z ReplicaDesc) : M unit :=
  let* id := next_task_id in
  let* locks := must_config_change id peers [] [] in
  delegate (ActionTaskWithLocks locks (ActionTask_new id
    [ReplaceVoters (values learners) (values voters); RemoveLearners (values voters)])).
(** The action task gets another identifier than the locks. *)
Definition cure_group (peers : list Z) (incoming : list ReplicaDesc) (outgoing : gmap Z ReplicaDesc) : M unit :=
  let* id := next_task_id in
  let* locks := must_config_change id (peers ++ (rd_id <$> incoming)) incoming [] in
  let* id := next_task_id in
  delegate (ActionTaskWithLocks locks (ActionTask_new id
    [CreateReplicas_new incoming; AddLearners incoming; ReplaceVoters incoming (values outgoing); RemoveLearners (values outgoing)])).
Definition remove_learners (peers : list Z) (learners : gmap Z ReplicaDesc) : M unit :=
  let* id := next_task_id in
  let* locks := must_config_change id peers [] [] in
  delegate (ActionTaskWithLocks locks (ActionTask_new id [RemoveLearners (values learners)])).
Definition alloc_addition_replicas (num_required : Z) : M (option (list ReplicaDesc)) :=
  let* epoch := replica_epoch in
  let* c := ask id in
  let* r := call_env (gs_alloc_replica (cx_group_id c) epoch (cx_current_term c) (cx_replica_id c) num_required) in
  ret (match r with inr l => Some l | inl _ => None end).
Definition by_index (a b : Z * Z) : Prop := a.2 ≤ b.2.
#[global] Instance by_index_dec a b : Decision (by_index a b).
Proof. unfold by_index. apply _. Defined.
Definition debug_assert (b : bool) : M unit := prog_lift (if b then Ok tt else Panic).
(** The online voters that lag most, never the leader. *)
Definition laggards (n : nat) (me : Z) (online : gmap Z ReplicaDesc) (matched : gmap Z Z) : list Z :=
  take n (fst <$> merge_sort by_index (visit (delete me (filter (λ p, is_Some (online !! p.1)) matched)))).
Fixpoint dismiss_these (online : gmap Z ReplicaDesc) (ids : list Z) (outgoing : gmap Z ReplicaDesc) : Result (gmap Z ReplicaDesc) :=
  match ids with
  | [] => Ok outgoing
  | id :: ids' => let? r := expect (online !! id) in dismiss_these online ids' (<[id := r]> outgoing)
  end.
Definition select_dismiss_voters (online : gmap Z ReplicaDesc) (num_required : nat) (outgoing : gmap Z ReplicaDesc) : M (gmap Z ReplicaDesc) :=
  do* debug_assert (num_required <? size online)%nat in
  let* c := ask id in
  let ids := laggards num_required (cx_replica_id c) online (matched_indexes (cx_pv c)) in
  prog_lift (dismiss_these online ids outgoing).
Definition pend (ms : Z) : M TaskState := ret (Pending (Some ms)).
Definition handle_replica_stats (s : ReplicaStats) : M TaskState :=
  let num_required := 3%nat in
  do* watch_desc CURE_GROUP_TASK_ID in
  if negb (bool_decide (offline_learners s = ∅)) then
    do* remove_learners (st_peers s) (offline_learners s) in pend 30000
  else
    let total := (size (online_voters s) + size (offline_voters s))%nat in
    if (num_required <? total)%nat then
      let exceeds := (total - num_required)%nat in
      let outgoing := take_some exceeds (offline_voters s) in
      let* outgoing :=
        if (size outgoing <? exceeds)%nat then select_dismiss_voters (online_voters s) (exceeds - size outgoing) outgoing else ret outgoing in
      do* replace_voters (st_peers s) ∅ outgoing in pend 30000
    else if (size (online_voters s) <? num_required)%nat then
      let acquires := (num_required - size (online_voters s))%nat in
      if negb (bool_decide (online_learners s = ∅)) then
        let learners := take_some acquires (online_learners s) in
        let outgoing := take_some (size learners) (offline_voters s) in
        do* replace_voters (st_peers s) learners outgoing in pend 30000
      else
        let* incoming := alloc_addition_replicas (Z.of_nat acquires) in
        match incoming with
        | Some incoming => do* cure_group (st_peers s) incoming (offline_voters s) in pend 30000
        | None => pend 3000
        end
    else if negb (bool_decide (online_learners s = ∅)) then
      do* debug_assert (bool_decide (offline_voters s = ∅)) in
      do* debug_assert (bool_decide (offline_learners s = ∅)) in
      do* debug_assert (size (online_voters s) =? num_required)%nat in
      do* remove_learners (st_peers s) (offline_learners s) in pend 30000
    else pend 1000.
Definition durable_poll : M TaskState :=
  if disable_scheduler_durable_task knobs then ret (Pending None)
  else
    let* c := ask id in
    let replicas := gd_replicas (pv_desc (cx_pv c)) in
    if (length replicas <=? 1)%nat || has_config_change (cx_locks c) then pend 1000
    else
      let* s := prog_lift (classify (cx_locks c) (lost_peers (cx_pv c)) replicas ReplicaStats_default) in
      match s with
      | None => pend 1000
      | Some s => handle_replica_stats s
      end.

(** ** [tasks/group/promote.rs] *)
Definition promote_setup (num_acquire former_replica_id : Z) : M bool :=
  let* replicas := alloc_addition_replicas num_acquire in
  match replicas with
  | None => ret false
  | Some replicas =>
      let* id := next_task_id in
      let* locks := must_config_change id (former_replica_id :: (rd_id <$> replicas)) replicas [] in
      do* delegate (ActionTaskWithLocks locks (ActionTask_new id
        [CreateReplicas_new replicas; AddLearners replicas; ReplaceVoters replicas []])) in
      ret true
  end.
Definition promote_poll : M TaskState :=
  let* c := ask id in
  if has_config_change (cx_locks c) then pend 1000
  else
    match gd_replicas (pv_desc (cx_pv c)) with
    | [] => pend 1000
    | [former] =>
        if is_replica_locked (rd_id former) (cx_locks c) then pend 1000
        else
          do* (if 3 <=? gs_total_nodes (cx_world c) then let* _ := promote_setup 2 (rd_id former) in ret tt else ret tt) in
          pend 10000
    | _ => ret Terminated
    end.

(** ** [tasks/group/orphan_replica.rs] *)
Definition apply_states (now : Z) (states : list ReplicaState) (desc : GroupDesc) (orphans : gmap Z Z) : gmap Z Z :=
  let replica_set := replica_ids (gd_replicas desc) in
  foldl (λ m r, if decide (rs_replica_id r ∈ replica_set) then m
                else <[rs_replica_id r := default now (m !! rs_replica_id r)]> m)
    (filter (λ p, p.1 ∉ replica_set) orphans) states.
Definition get_dismiss_replicas (now : Z) (orphans : gmap Z Z) : gset Z :=
  if disable_scheduler_orphan_replica_detecting_intervals knobs then dom orphans
  else dom (filter (λ p, p.2 + 60000 < now) orphans).
Definition dismiss_orphan_replica (replica : ReplicaDesc) (group : GroupDesc) (orphans : gmap Z Z) : M (gmap Z Z) :=
  let* id := next_task_id in
  let* locks := try_lock id (gd_epoch group) [rd_id replica] [] [replica] in
  match locks with
  | None => ret orphans
  | Some locks =>
      do* delegate (ActionTaskWithLocks locks (ActionTask_new id [RemoveReplica group replica 0; ClearReplicaState (rd_id replica)])) in
      ret (delete (rd_id replica) orphans)
  end.
Fixpoint dismiss_all (dismiss : gset Z) (desc : GroupDesc) (states : list ReplicaState) (orphans : gmap Z Z) : M (gmap Z Z) :=
  match states with
  | [] => ret orphans
  | s :: states' =>
      let* c := ask id in
      if negb (bool_decide (rs_replica_id s ∈ dismiss)) || is_replica_locked (rs_replica_id s) (cx_locks c)
      then dismiss_all dismiss desc states' orphans
      else
        let* orphans := dismiss_orphan_replica (mkReplicaDesc (rs_replica_id s) (rs_node_id s) 0) desc orphans in
        dismiss_all dismiss desc states' orphans
  end.
Definition orphan_interval (long : Z) : Z := if disable_scheduler_orphan_replica_detecting_intervals knobs then 1 else long.
Definition orphan_poll (orphans : gmap Z Z) : M (TaskState * gmap Z Z) :=
  if disable_scheduler_remove_orphan_replica_task knobs then ret (Pending None, orphans)
  else
    let* c := ask id in
    let desc := pv_desc (cx_pv c) in
    let states := pv_replica_states (cx_pv c) in
    match gd_replicas desc with
    | [] => do* watch_desc REMOVE_ORPHAN_REPLICA_TASK_ID in ret (Pending None, orphans)
    | _ =>
        let* t := sched_now in
        let orphans := apply_states t states desc orphans in
        let* t := sched_now in
        let* orphans := dismiss_all (get_dismiss_replicas t orphans) desc states orphans in
        ret (Pending (Some (orphan_interval 60000)), orphans)
    end.

(** ** [tasks/group/migration.rs] and the watchers *)
Definition start_migration (m : MoveReplicas) : M unit :=
  let* c := ask id in
  let peers := (rd_id <$> gd_replicas (pv_desc (cx_pv c))) ++ (rd_id <$> mv_incoming_replicas m) in
  let* id := next_task_id in
  let* locks := try_config_change id (mv_epoch m) peers (mv_incoming_replicas m) [] in
  match locks with
  | Some locks =>
      do* delegate (ActionTaskWithLocks locks (ActionTask_new id
        [CreateReplicas_new (mv_incoming_replicas m); AddLearners (mv_incoming_replicas m);
         ReplaceVoters (mv_incoming_replicas m) (mv_outgoing_replicas m); RemoveLearners (mv_outgoing_replicas m)])) in
      on_pv (send_answer (mv_sender m) (Ok tt))
  | None => on_pv (send_answer (mv_sender m) (Err (AlreadyExists "config change")))
  end.
Definition migration_poll : M TaskState :=
  let* duty := ask (λ c, pv_duty (cx_pv c)) in
  do* on_pv (set_duty None) in
  do* (match duty with Some m => start_migration m | None => ret tt end) in
  do* on_pv (on_move_core (source_watch REPLICA_MIGRATION_TASK_ID)) in
  ret (Pending None).
Definition watch_states_poll : M TaskState :=
  let* group_id := ask cx_group_id in
  let* r := call_env (gs_list_replica_state group_id) in
  do* (match r with inr states => on_pv (states_update states) | inl _ => ret tt end) in
  pend (orphan_interval 31000).
Definition watch_raft_poll : M TaskState := λ c,
  let '(s, w) := gs_raft_group_state (cx_world c) in
  (do* (match s with Some peers => let* t := sched_now in on_pv (raft_update t peers) | None => ret tt end) in
   pend 1000) (set_cx_world w c).
Definition watch_desc_poll : M TaskState :=
  let* d := ask (λ c, gs_descriptor (cx_world c)) in
  do* on_pv (desc_update d) in
  pend 1000.
(** [Task::poll]. *)
Definition task_poll (t : GroupTask) : M (TaskState * GroupTask) :=
  let same (p : M TaskState) := let* s := p in ret (s, t) in
  match t with
  | WatchReplicaStates => same watch_states_poll
  | WatchRaftState => same watch_raft_poll
  | WatchGroupDescriptor => same watch_desc_poll
  | PromoteGroup => same promote_poll
  | DurableGroup => same durable_poll
  | RemoveOrphanReplica orphans => let* ' (s, orphans) := orphan_poll orphans in ret (s, RemoveOrphanReplica orphans)
  | ReplicaMigration => same migration_poll
  | ActionTaskWithLocks locks inner =>
      let* ' (s, inner) := action_task_poll inner in
      match s with
      | Terminated => λ c, Some (Ok (s, ActionTaskWithLocks [] inner), set_cx_locks (table_release (at_task_id inner) locks (cx_locks c)) c)
      | _ => ret (s, ActionTaskWithLocks locks inner)
      end
  end.
End Tasks.

(** ** [scheduler.rs]: timers *)
Record Deadline := mkDeadline { dl_deadline : Z; dl_timer_id : Z; dl_task_id : Z }.
(** [timer_heap] in the order in which it is popped. *)
Record TaskTimer := mkTaskTimer { tt_next_timer_id : Z; tt_timer_heap : list Deadline; tt_timer_indexes : gmap Z Z }.
Definition TaskTimer_default : TaskTimer := mkTaskTimer 0 [] ∅.
(** [Ord::cmp], reversed for the heap: [a] is popped before [b]. *)
Definition deadline_before (a b : Deadline) : bool :=
  (dl_deadline a <? dl_deadline b) || ((dl_deadline a =? dl_deadline b) && (dl_timer_id a <? dl_timer_id b)).
Fixpoint heap_push (d : Deadline) (heap : list Deadline) : list Deadline :=
  match heap with
  | [] => [d]
  | e :: heap' => if deadline_before d e then d :: heap else e :: heap_push d heap'
  end.
Definition timer_add (task_id deadline : Z) (t : TaskTimer) : TaskTimer :=
  let timer_id := tt_next_timer_id t in
  mkTaskTimer (u64_add timer_id 1) (heap_push (mkDeadline deadline timer_id task_id) (tt_timer_heap t))
    (<[task_id := timer_id]> (tt_timer_indexes t)).
Fixpoint take_fired (now : Z) (heap : list Deadline) (indexes : gmap Z Z) (result : gset Z) : list Deadline * gmap Z Z * gset Z :=
  match heap with
  | [] => ([], indexes, result)
  | d :: heap' =>
      if now <? dl_deadline d then (heap, indexes, result)
      else if bool_decide (indexes !! dl_task_id d = Some (dl_timer_id d))
           then take_fired now heap' (delete (dl_task_id d) indexes) ({[dl_task_id d]} ∪ result)
           else take_fired now heap' indexes result
  end.
Definition take_fired_tasks (now : Z) (t : TaskTimer) : gset Z * TaskTimer :=
  let '(heap, indexes, result) := take_fired now (tt_timer_heap t) (tt_timer_indexes t) ∅ in
  (result, mkTaskTimer (tt_next_timer_id t) heap indexes).

(** ** [scheduler.rs]: polling *)
(** [_start_at] is never read, and [advanced_at] only for [execution_time],
    which no task reads. *)
Record Scheduler (W : Type) := mkScheduler {
  sd_ctx : Ctx W;                       (* between rounds without pending tasks *)
  sd_incoming_tasks : list Z; sd_jobs : gmap Z GroupTask; sd_timer : TaskTimer;
  sd_observed : list ScheduleState }.   (* given to the [ScheduleStateObserver] *)
Arguments mkScheduler {W}.
Arguments sd_ctx {W}.
Arguments sd_incoming_tasks {W}.
Arguments sd_jobs {W}.
Arguments sd_timer {W}.
Arguments sd_observed {W}.
Section Scheduler.
  Context {W : Type} {GE : GroupSchedEnv W} `{HashOrder} `{Codec V1Error} (knobs : Knobs).
  Abbreviation sched := (Scheduler W).
Definition set_sd_ctx (c : Ctx W) (s : sched) : sched := mkScheduler c (sd_incoming_tasks s) (sd_jobs s) (sd_timer s) (sd_observed s).
Definition set_cx_pv (p : GroupProviders) (c : Ctx W) : Ctx W :=
  mkCtx (cx_world c) (cx_group_id c) (cx_replica_id c) (cx_current_term c) (cx_next_task_id c) (cx_pending_tasks c) (cx_locks c) p.
Definition bind_all (p : GroupProviders) : GroupProviders :=
  mkGroupProviders (source_bind (pv_desc_core p)) (pv_desc p) (source_bind (pv_states_core p)) (pv_replica_states p)
    (source_bind (pv_raft_core p)) (pv_peers p) (pv_lost_peers p) (source_bind (pv_move_core p)) (pv_duty p) false (pv_answers p).
Definition Scheduler_new (w : W) (group_id replica_id term : Z) (p : GroupProviders) : sched :=
  mkScheduler (mkCtx w group_id replica_id term GENERATED_TASK_ID [] (GroupLockTable_new group_id) (bind_all p)) [] ∅ TaskTimer_default [].
Fixpoint install_tasks (tasks : list GroupTask) (s : sched) : sched :=
  match tasks with
  | [] => s
  | t :: tasks' =>
      install_tasks tasks' (mkScheduler (sd_ctx s) (sd_incoming_tasks s ++ [task_id t]) (<[task_id t := t]> (sd_jobs s)) (sd_timer s) (sd_observed s))
  end.
Definition group_tasks : list GroupTask :=
  [WatchReplicaStates; WatchRaftState; WatchGroupDescriptor; PromoteGroup; DurableGroup; RemoveOrphanReplica ∅; ReplicaMigration].
(** The event sources, each asked for its active tasks. *)
Definition take_active (p : GroupProviders) : gset Z * GroupProviders :=
  let '(a1, c1) := source_take (pv_desc_core p) in
  let '(a2, c2) := source_take (pv_states_core p) in
  let '(a3, c3) := source_take (pv_raft_core p) in
  let '(a4, c4) := source_take (pv_move_core p) in
  (a1 ∪ a2 ∪ a3 ∪ a4,
   mkGroupProviders c1 (pv_desc p) c2 (pv_replica_states p) c3 (pv_peers p) (pv_lost_peers p) c4 (pv_duty p) (pv_waked p) (pv_answers p)).
Definition collect_active_tasks (s : sched) : gset Z * sched :=
  let '(fired, timer) := take_fired_tasks (gs_now (cx_world (sd_ctx s))) (sd_timer s) in
  let '(active, p) := take_active (cx_pv (sd_ctx s)) in
  (fired ∪ active ∪ list_to_set (sd_incoming_tasks s),
   mkScheduler (set_cx_pv p (sd_ctx s)) [] (sd_jobs s) timer (sd_observed s)).
(** One round of the loop of [advance_task]; whether it goes on. *)
Definition poll_once (id : Z) (t : GroupTask) : prog sched Error (bool * GroupTask) := λ s,
  match task_poll knobs t (sd_ctx s) with
  | None => None
  | Some (Panic, c) => Some (Panic, set_sd_ctx c s)
  | Some (Err e, c) => Some (Err e, set_sd_ctx c s)
  | Some (Ok (state, t), c) =>
      let s := set_sd_ctx c s in
      match state with
      | Pending d =>
          let timer := match d with Some d => timer_add id (gs_now (cx_world c) + d) (sd_timer s) | None => sd_timer s end in
          Some (Ok (false, t), mkScheduler c (sd_incoming_tasks s) (<[id := t]> (sd_jobs s)) timer (sd_observed s))
      | Advanced => Some (Ok (true, t), mkScheduler c (sd_incoming_tasks s) (<[id := t]> (sd_jobs s)) (sd_timer s) (sd_observed s))
      | Terminated => Some (Ok (false, t), mkScheduler c (sd_incoming_tasks s) (delete id (sd_jobs s)) (sd_timer s) (sd_observed s))
      end
  end.
Fixpoint poll_loop (fuel : nat) (id : Z) (t : GroupTask) : prog sched Error unit :=
  match fuel with
  | O => λ _, None
  | S fuel' =>
      let* ' (again, t) := poll_once id t in
      if (again : bool) then poll_loop fuel' id t else prog_lift (Ok tt)
  end.
Definition observe (s : sched) : sched :=
  let '(st, t) := take_updated_states (cx_locks (sd_ctx s)) in
  match st with
  | Some st => mkScheduler (set_cx_locks t (sd_ctx s)) (sd_incoming_tasks s) (sd_jobs s) (sd_timer s) (sd_observed s ++ [st])
  | None => s
  end.
Definition advance_task (fuel : nat) (id : Z) : prog sched Error unit := λ s,
  match sd_jobs s !! id with
  | None => Some (Ok tt, s)
  | Some t => (do* poll_loop fuel id t in λ s, Some (Ok tt, observe s)) s
  end.
Fixpoint advance_each (fuel : nat) (ids : list Z) : prog sched Error unit :=
  match ids with
  | [] => prog_lift (Ok tt)
  | id :: ids' => do* advance_task fuel id in advance_each fuel ids'
  end.
Definition take_pending (s : sched) : list GroupTask * sched :=
  let c := sd_ctx s in
  (cx_pending_tasks c,
   set_sd_ctx (mkCtx (cx_world c) (cx_group_id c) (cx_replica_id c) (cx_current_term c) (cx_next_task_id c) [] (cx_locks c) (cx_pv c)) s).
(** [wait_new_events] once something woke it: waiting takes the flag of the
    waker down. *)
Definition lower_flag (p : GroupProviders) : GroupProviders :=
  mkGroupProviders (pv_desc_core p) (pv_desc p) (pv_states_core p) (pv_replica_states p) (pv_raft_core p) (pv_peers p) (pv_lost_peers p)
    (pv_move_core p) (pv_duty p) false (pv_answers p).
Definition wait_new_events (s : sched) : sched :=
  match sd_incoming_tasks s with [] => set_sd_ctx (set_cx_pv (lower_flag (cx_pv (sd_ctx s))) (sd_ctx s)) s | _ => s end.
Definition scheduler_advance (fuel : nat) : prog sched Error unit := λ s,
  let '(active, s) := collect_active_tasks (wait_new_events s) in
  (do* advance_each fuel (fst <$> visit (gset_to_gmap tt active)) in
   λ s, let '(tasks, s) := take_pending s in Some (Ok tt, install_tasks tasks s)) s.
(** Whether [wait_new_events] returns: tasks came in, or the waker was used, or
    a deadline is over. *)
Definition has_events (s : sched) : bool :=
  match sd_incoming_tasks s with
  | _ :: _ => true
  | [] =>
      pv_waked (cx_pv (sd_ctx s)) ||
      match tt_timer_heap (sd_timer s) with d :: _ => dl_deadline d <=? gs_now (cx_world (sd_ctx s)) | [] => false end
  end.
Definition start_scheduler (w : W) (group_id replica_id term : Z) (p : GroupProviders) : sched :=
  let s := install_tasks group_tasks (Scheduler_new w group_id replica_id term p) in
  mkScheduler (sd_ctx s) (sd_incoming_tasks s) (sd_jobs s) (sd_timer s) (sd_observed s ++ [ScheduleState_default]).
End Scheduler.
