(* ===== verification/GroupSchedProps.v ===== *)
(** * The scheduler of a group: locks, config changes, timers *)

From S2P Require Import Prelude Bytes F64 Api RocksDb Errors RootStats EvalTxn GroupSched.
#[local] Open Scope Z_scope.

(** ** Live tasks *)
Definition locks_of (t : GroupTask) : list Z := match t with ActionTaskWithLocks l _ => l | _ => [] end.
Definition is_change (a : Action) : bool :=
  match a with AddLearners _ | RemoveLearners _ | ReplaceVoters _ _ => true | _ => false end.
(** Whether it changes the configuration of the group. *)
Definition changes (t : GroupTask) : bool :=
  match t with ActionTaskWithLocks _ a => existsb is_change (at_actions a) | _ => false end.
(** The action that is done is one of the actions. *)
Definition stage_ok (t : GroupTask) : Prop :=
  match t with
  | ActionTaskWithLocks _ a => match at_stage a with Doing i => (i < length (at_actions a))%nat | Next _ => True end
  | _ => True
  end.
Definition with_tasks (tasks : list GroupTask) (m : gmap Z GroupTask) : gmap Z GroupTask :=
  foldl (λ m t, <[task_id t := t]> m) m tasks.
Record table_ok (live : gmap Z GroupTask) (next : Z) (lt : GroupLockTable) : Prop := {
  to_id : ∀ i t, live !! i = Some t → task_id t = i;
  to_stage : ∀ i t, live !! i = Some t → stage_ok t;
  to_fresh : ∀ i t, live !! i = Some t → i < next;
  to_locked : ∀ r, is_Some (lt_locked_replicas lt !! r) ↔ ∃ i t, live !! i = Some t ∧ r ∈ locks_of t;
  to_disjoint : ∀ i j ti tj r, live !! i = Some ti → live !! j = Some tj → r ∈ locks_of ti → r ∈ locks_of tj → i = j;
  to_single : ∀ i j ti tj, live !! i = Some ti → live !! j = Some tj → changes ti = true → changes tj = true → i = j;
  to_change : ∀ i t, live !! i = Some t → changes t = true → is_Some (lt_config_change lt);
  to_owner : ∀ o, lt_config_change lt = Some o → o < next ∧ ∀ t, live !! o = Some t → changes t = true }.

(** ** The lock table *)
Lemma lock_all_lookup id rs : ∀ m r, is_Some (lock_all id rs m !! r) ↔ (r ∈ rs ∨ is_Some (m !! r)).
Proof.
  induction rs as [|r0 rs IH]; intros m r; cbn; [set_solver|]. unfold lock_all in IH. rewrite IH, lookup_insert_is_Some, elem_of_cons.
  destruct (decide (r0 = r)); naive_solver.
Qed.
Lemma unlock_all_lookup rs : ∀ m r, is_Some (unlock_all rs m !! r) ↔ (¬ r ∈ rs) ∧ is_Some (m !! r).
Proof.
  induction rs as [|r0 rs IH]; intros m r; cbn; [set_solver|]. unfold unlock_all in IH. rewrite IH, lookup_delete_is_Some, not_elem_of_cons.
  naive_solver.
Qed.
Lemma table_lock_spec id epoch rs inc out t locks t' : table_lock id epoch rs inc out t = Some (locks, t') →
  locks = rs ∧ lt_config_change t' = lt_config_change t ∧ (∀ r, r ∈ rs → lt_locked_replicas t !! r = None) ∧
  ∀ r, is_Some (lt_locked_replicas t' !! r) ↔ (r ∈ rs ∨ is_Some (lt_locked_replicas t !! r)).
Proof.
  unfold table_lock. destruct (existsb _ rs) eqn:E; [done|]. intros [= <- <-]. cbn. split_and!; [done..| |apply lock_all_lookup].
  intros r Hr. apply eq_None_not_Some. intros Hs. apply not_true_iff_false in E. apply E, existsb_exists. exists r.
  split; [by apply list_elem_of_In|]. by apply bool_decide_eq_true.
Qed.
Lemma table_lock_free id epoch rs inc out t : (∀ r, r ∈ rs → lt_locked_replicas t !! r = None) →
  is_Some (table_lock id epoch rs inc out t).
Proof.
  intros Hf. unfold table_lock. destruct (existsb _ rs) eqn:E; [|done]. apply existsb_exists in E as (r & Hr & Hl).
  apply list_elem_of_In, Hf in Hr. apply bool_decide_eq_true in Hl. rewrite Hr in Hl. by destruct Hl.
Qed.
(** A new task with its locks. *)
Lemma table_ok_lock live next lt id epoch rs inc out locks lt' inner : table_ok live next lt → next ≤ id →
  at_task_id inner = id → at_stage inner = Next 0 → existsb is_change (at_actions inner) = false → table_lock id epoch rs inc out lt = Some (locks, lt') →
  table_ok (<[id := ActionTaskWithLocks locks inner]> live) (id + 1) lt'.
Proof.
  intros [Hid Hst Hfr Hlk Hdj Hsg Hch How] Hn Hin Hnx Hnc (-> & Hcc & Hfree & Hl)%table_lock_spec.
  assert (live !! id = None) as Hnone. { apply eq_None_not_Some. intros [t Ht]. apply Hfr in Ht. lia. }
  split.
  - intros i t [[<- <-]|[Hne Ht]]%lookup_insert_Some; [done|by apply Hid].
  - intros i t [[<- <-]|[Hne Ht]]%lookup_insert_Some; [cbn; by rewrite Hnx|by apply (Hst i)].
  - intros i t [[<- <-]|[Hne Ht]]%lookup_insert_Some; [lia|]. apply Hfr in Ht. lia.
  - intros r. rewrite Hl, Hlk. split.
    + intros [Hr|(i & t & Ht & Hr)]; [exists id; eexists; split; [by apply lookup_insert_eq|done]|].
      exists i, t. split; [|done]. rewrite lookup_insert_ne; [done|]. congruence.
    + intros (i & t & [[<- <-]|[Hne Ht]]%lookup_insert_Some & Hr); [by left|right; eauto].
  - assert (∀ i t r, live !! i = Some t → r ∈ locks_of t → r ∈ rs → False) as Hx.
    { intros i t r Ht Hr Hrs. apply Hfree in Hrs. assert (is_Some (lt_locked_replicas lt !! r)) as [? ?] by (apply Hlk; eauto). congruence. }
    intros i j ti tj r [[<- <-]|[Hne Ht]]%lookup_insert_Some [[<- <-]|[Hne' Ht']]%lookup_insert_Some Hr Hr'; cbn in *; naive_solver.
  - intros i j ti tj [[<- <-]|[Hne Ht]]%lookup_insert_Some [[<- <-]|[Hne' Ht']]%lookup_insert_Some Hc Hc'; cbn in *; try congruence; eauto.
  - rewrite Hcc. intros i t [[<- <-]|[Hne Ht]]%lookup_insert_Some Hc; cbn in *; [congruence|eauto].
  - rewrite Hcc. intros o Ho. destruct (How o Ho) as [Hlt Ho']. split; [lia|]. intros t [[<- <-]|[Hne Ht]]%lookup_insert_Some; [lia|auto].
Qed.
(** A config change, whose task may get a later identifier than the lock. *)
Lemma table_ok_config_change live next lt lid id epoch rs inc out locks lt' inner : table_ok live next lt → next ≤ lid ≤ id →
  at_task_id inner = id → at_stage inner = Next 0 → existsb is_change (at_actions inner) = true → table_config_change lid epoch rs inc out lt = Some (locks, lt') →
  table_ok (<[id := ActionTaskWithLocks locks inner]> live) (id + 1) lt'.
Proof.
  intros [Hid Hst Hfr Hlk Hdj Hsg Hch How] Hn Hin Hnx Hnc E. unfold table_config_change in E. destruct (lt_config_change lt) eqn:Ecc; [done|].
  destruct (table_lock lid epoch rs inc out lt) as [[l t1]|] eqn:El; [|done]. injection E as <- <-.
  apply table_lock_spec in El as (-> & Hcc & Hfree & Hl).
  assert (∀ i t, live !! i = Some t → changes t = false) as Hnch.
  { intros i t Ht. destruct (changes t) eqn:Ec; [|done]. destruct (Hch i t Ht Ec). congruence. }
  assert (live !! id = None) as Hnone. { apply eq_None_not_Some. intros [t Ht]. apply Hfr in Ht. lia. }
  split; cbn.
  - intros i t [[<- <-]|[Hne Ht]]%lookup_insert_Some; [done|by apply Hid].
  - intros i t [[<- <-]|[Hne Ht]]%lookup_insert_Some; [cbn; by rewrite Hnx|by apply (Hst i)].
  - intros i t [[<- <-]|[Hne Ht]]%lookup_insert_Some; [lia|]. apply Hfr in Ht. lia.
  - intros r. rewrite Hl, Hlk. split.
    + intros [Hr|(i & t & Ht & Hr)]; [exists id; eexists; split; [by apply lookup_insert_eq|done]|].
      exists i, t. split; [|done]. rewrite lookup_insert_ne; [done|]. congruence.
    + intros (i & t & [[<- <-]|[Hne Ht]]%lookup_insert_Some & Hr); [by left|right; eauto].
  - assert (∀ i t r, live !! i = Some t → r ∈ locks_of t → r ∈ rs → False) as Hx.
    { intros i t r Ht Hr Hrs. apply Hfree in Hrs. assert (is_Some (lt_locked_replicas lt !! r)) as [? ?] by (apply Hlk; eauto). congruence. }
    intros i j ti tj r [[<- <-]|[Hne Ht]]%lookup_insert_Some [[<- <-]|[Hne' Ht']]%lookup_insert_Some Hr Hr'; cbn in *; naive_solver.
  - intros i j ti tj [[<- <-]|[Hne Ht]]%lookup_insert_Some [[<- <-]|[Hne' Ht']]%lookup_insert_Some Hc Hc'; cbn in *; try done;
      [by rewrite (Hnch _ _ Ht') in Hc'|by rewrite (Hnch _ _ Ht) in Hc|by rewrite (Hnch _ _ Ht) in Hc].
  - intros i t [[<- <-]|[Hne Ht]]%lookup_insert_Some Hc; [by eexists|by eexists].
  - intros o [= <-]. split; [lia|]. intros t [[<- <-]|[Hne Ht]]%lookup_insert_Some; [done|]. apply Hfr in Ht. lia.
Qed.
(** The end of a task. *)
Lemma table_ok_release live next lt id locks inner : table_ok live next lt →
  live !! id = Some (ActionTaskWithLocks locks inner) → table_ok (delete id live) next (table_release id locks lt).
Proof.
  intros [Hid Hst Hfr Hlk Hdj Hsg Hch How] Ht. split; cbn.
  - intros i t [_ H1]%lookup_delete_Some. by apply Hid.
  - intros i t [_ H1]%lookup_delete_Some. by apply (Hst i).
  - intros i t [_ H1]%lookup_delete_Some. by apply (Hfr i t).
  - intros r. rewrite unlock_all_lookup, Hlk. split.
    + intros [Hr (i & t & Hi & Hrt)]. exists i, t. split; [|done]. apply lookup_delete_Some. split; [|done]. intros ->.
      rewrite Ht in Hi. injection Hi as <-. done.
    + intros (i & t & [Hne Hi]%lookup_delete_Some & Hr). split; [|eauto]. intros Hr'. apply Hne. by eapply (Hdj id i).
  - intros i j ti tj r [_ Hi]%lookup_delete_Some [_ Hj]%lookup_delete_Some. by apply Hdj.
  - intros i j ti tj [_ Hi]%lookup_delete_Some [_ Hj]%lookup_delete_Some. by apply Hsg.
  - intros i t [Hne Hi]%lookup_delete_Some Hc. case_bool_decide as Ecc; [|by eapply Hch].
    destruct (How id Ecc) as [_ Ho]. specialize (Ho _ Ht). by destruct (Hne (Hsg _ _ _ _ Ht Hi Ho Hc)).
  - intros o Ho. case_bool_decide; [done|]. destruct (How o Ho) as [Hlt Ho']. split; [done|]. intros t [_ Hi]%lookup_delete_Some. auto.
Qed.
(** A task that only made progress. *)
Lemma table_ok_progress live next lt id t t' : table_ok live next lt → live !! id = Some t →
  task_id t' = task_id t → locks_of t' = locks_of t → changes t' = changes t → stage_ok t' → table_ok (<[id := t']> live) next lt.
Proof.
  intros [Hid Hst Hfr Hlk Hdj Hsg Hch How] Ht Ei El Ec Es.
  assert (∀ i u, <[id := t']> live !! i = Some u → ∃ v, live !! i = Some v ∧ task_id u = task_id v ∧ locks_of u = locks_of v ∧ changes u = changes v) as Hl.
  { intros i u [[<- <-]|[Hne Hi]]%lookup_insert_Some; [exists t; done|exists u; done]. }
  split.
  - intros i u (v & Hv & -> & _)%Hl. by apply Hid.
  - intros i u [[<- <-]|[Hne Hi]]%lookup_insert_Some; [done|by apply (Hst i)].
  - intros i u (v & Hv & _)%Hl. by apply (Hfr i v).
  - intros r. rewrite Hlk. split.
    + intros (i & u & Hi & Hr). destruct (decide (i = id)) as [->|Hne].
      * rewrite Ht in Hi. injection Hi as <-. exists id, t'. by rewrite lookup_insert_eq, El.
      * exists i, u. by rewrite lookup_insert_ne.
    + intros (i & u & (v & Hv & _ & Ev & _)%Hl & Hr). rewrite Ev in Hr. eauto.
  - intros i j u1 u2 r (v1 & H1 & _ & -> & _)%Hl (v2 & H2 & _ & -> & _)%Hl. by apply Hdj.
  - intros i j u1 u2 (v1 & H1 & _ & _ & ->)%Hl (v2 & H2 & _ & _ & ->)%Hl. by apply Hsg.
  - intros i u (v & Hv & _ & _ & ->)%Hl. intros Hc. by apply (Hch i v).
  - intros o Ho. destruct (How o Ho) as [Hlt Ho']. split; [done|]. intros u (v & Hv & _ & _ & ->)%Hl. auto.
Qed.
Lemma table_ok_locks live next lt lt' : table_ok live next lt → lt_locked_replicas lt' = lt_locked_replicas lt →
  lt_config_change lt' = lt_config_change lt → table_ok live next lt'.
Proof. intros [Hid Hst Hfr Hlk Hdj Hsg Hch How] El Ec. split; rewrite ?El, ?Ec; eauto. Qed.
Lemma table_ok_next live next next' lt : table_ok live next lt → next ≤ next' → table_ok live next' lt.
Proof.
  intros [Hid Hst Hfr Hlk Hdj Hsg Hch How] Hn. split; eauto.
  - intros i t Ht. apply Hfr in Ht. lia.
  - intros o Ho. destruct (How o Ho) as [Hlt ?]. split; [lia|done].
Qed.

Section Tame.
  Context {W : Type} {GE : GroupSchedEnv W} `{HashOrder} `{Codec V1Error} (knobs : Knobs).
  Abbreviation M := (prog (Ctx W) Error).
(** The tasks that are live while one is polled. *)
Definition live (jobs : gmap Z GroupTask) (c : Ctx W) : gmap Z GroupTask := with_tasks (cx_pending_tasks c) jobs.
Record ctx_ok (jobs : gmap Z GroupTask) (c : Ctx W) : Prop := {
  co_table : table_ok (live jobs c) (cx_next_task_id c) (cx_locks c);
  co_pending : ∀ t, t ∈ cx_pending_tasks c → jobs !! task_id t = None }.
Lemma with_tasks_is_Some l : ∀ (m : gmap Z GroupTask) i, is_Some (m !! i) → is_Some (with_tasks l m !! i).
Proof.
  induction l as [|t l IH]; intros m i Hi; cbn; [done|]. apply IH. apply lookup_insert_is_Some'. by right.
Qed.
Lemma fresh_job jobs c i : ctx_ok jobs c → cx_next_task_id c ≤ i → jobs !! i = None.
Proof.
  intros Hc Hi. apply eq_None_not_Some. intros Hs. apply (with_tasks_is_Some (cx_pending_tasks c)) in Hs as [t Ht].
  apply (to_fresh _ _ _ (co_table _ _ Hc)) in Ht. lia.
Qed.
Lemma pending_add jobs (c : Ctx W) l t : ctx_ok jobs c → l = cx_pending_tasks c ++ [t] → cx_next_task_id c ≤ task_id t →
  ∀ u, u ∈ l → jobs !! task_id u = None.
Proof.
  intros Hc -> Ht u [Hu|Hu]%elem_of_app; [|apply list_elem_of_singleton in Hu as ->]; [by apply (co_pending _ _ Hc)|by eapply fresh_job].
Qed.
(** A program that keeps the locks and the live tasks in step, and takes at
    most [n] task identifiers. *)
Record tamed (n : Z) (jobs : gmap Z GroupTask) (c c' : Ctx W) : Prop := {
  tm_ok : ctx_ok jobs c';
  tm_low : cx_next_task_id c ≤ cx_next_task_id c';
  tm_high : cx_next_task_id c' ≤ cx_next_task_id c + n;
  tm_old : ∀ i, i < cx_next_task_id c → live jobs c' !! i = live jobs c !! i }.
Definition tame {A} (n : Z) (p : M A) : Prop := ∀ jobs c r c',
  ctx_ok jobs c → 0 ≤ cx_next_task_id c → cx_next_task_id c + n ≤ u64_MAX → p c = Some (r, c') → tamed n jobs c c'.
Lemma tamed_refl jobs c : ctx_ok jobs c → tamed 0 jobs c c.
Proof. intros Hc. split; [done|lia|lia|done]. Qed.
Lemma tamed_weaken n m jobs c c' : n ≤ m → tamed n jobs c c' → tamed m jobs c c'.
Proof. intros Hnm [Ho Hl Hh Hi]. split; [done|lia|lia|done]. Qed.
Lemma tamed_trans n m jobs c1 c2 c3 : tamed n jobs c1 c2 → tamed m jobs c2 c3 → tamed (n + m) jobs c1 c3.
Proof.
  intros [Ho Hl Hh Hi] [Ho' Hl' Hh' Hi']. split; [done|lia|lia|]. intros i Hlt. rewrite Hi' by lia. by apply Hi.
Qed.
(** Locks, tasks and identifiers are as before. *)
Lemma tamed_same jobs c c' : ctx_ok jobs c → cx_next_task_id c' = cx_next_task_id c → cx_pending_tasks c' = cx_pending_tasks c →
  cx_locks c' = cx_locks c → tamed 0 jobs c c'.
Proof.
  intros [Ht Hp] En Ep El. split; [split|lia|lia|]; unfold live in *; rewrite ?En, ?Ep, ?El; done.
Qed.
Lemma tame_weaken {A} n m (p : M A) : tame n p → n ≤ m → tame m p.
Proof. intros Hp Hnm jobs c r c' Hc Hpos Hr E. eapply tamed_weaken; [done|]. eapply Hp; [done..|lia|done]. Qed.
Lemma tame_bind {A B} n m (p : M A) (k : A → M B) : 0 ≤ n → 0 ≤ m → tame n p → (∀ a, tame m (k a)) → tame (n + m) (prog_bind p k).
Proof.
  intros Hn Hm Hp Hk jobs c r c' Hc Hpos Hr E. unfold prog_bind in E.
  destruct (p c) as [[[a|e|] c1]|] eqn:Ep; [| | |done]; assert (Hp1 := Ep); apply (Hp jobs) in Hp1; try done; try lia.
  - eapply tamed_trans; [done|]. destruct Hp1. eapply Hk; [done..|lia|lia|done].
  - injection E as <- <-. eapply tamed_weaken; [|done]. lia.
  - injection E as <- <-. eapply tamed_weaken; [|done]. lia.
Qed.
Lemma tame_then {A B} n (p : M A) (k : A → M B) : 0 ≤ n → tame 0 p → (∀ a, tame n (k a)) → tame n (prog_bind p k).
Proof. intros Hn Hp Hk. by apply (tame_bind 0 n). Qed.
Lemma tame_last {A B} n (p : M A) (k : A → M B) : 0 ≤ n → tame n p → (∀ a, tame 0 (k a)) → tame n (prog_bind p k).
Proof. intros Hn Hp Hk. rewrite <- (Z.add_0_r n). by apply tame_bind. Qed.
Lemma tame_lift {A} (a : Result A) : tame 0 (prog_lift a).
Proof. intros jobs c r c' Hc _ _ [= <- <-]. by apply tamed_refl. Qed.
Lemma tame_ret {A} (a : A) : tame 0 (ret a).
Proof. apply tame_lift. Qed.
Lemma tame_ask {A} (f : Ctx W → A) : tame 0 (ask f).
Proof. intros jobs c r c' Hc _ _ [= <- <-]. by apply tamed_refl. Qed.
Lemma tame_pv f : tame 0 (on_pv f).
Proof. intros jobs c r c' Hc _ _ [= <- <-]. by apply tamed_same. Qed.
Lemma tame_call {E A} (p : prog W E A) : tame 0 (call_env p).
Proof.
  intros jobs c r c' Hc _ _. unfold call_env. destruct (p (cx_world c)) as [[[a|e|] w]|]; [intros [= <- <-]..|done]; by apply tamed_same.
Qed.
Lemma tame_pend ms : tame 0 (pend ms).
Proof. apply tame_ret. Qed.
Lemma next_small (c : Ctx W) : 0 ≤ cx_next_task_id c → cx_next_task_id c + 1 ≤ u64_MAX → u64_add (cx_next_task_id c) 1 = cx_next_task_id c + 1.
Proof. intros Hpos Hr. apply u64_wrap_small. unfold u64_ok. lia. Qed.
(** A delegated config change. *)
Lemma tame_change rs inc out acts : existsb is_change acts = true →
  tame 1 (let* id := next_task_id in let* locks := must_config_change id rs inc out in
          delegate (ActionTaskWithLocks locks (ActionTask_new id acts))).
Proof.
  intros Ha jobs c r c' Hc Hpos Hroom. unfold next_task_id, must_config_change, replica_epoch, try_config_change, ask, prog_bind, prog_lift. cbn.
  rewrite next_small by done. set (n := cx_next_task_id c) in *.
  destruct (table_config_change n _ rs inc out (cx_locks c)) as [[locks t]|] eqn:El; cbn; intros [= <- <-].
  - split; [split|..]; cbn; [|by eapply pending_add; [exact Hc|reflexivity|cbn; lia]|lia|lia|].
    + rewrite foldl_app. cbn. eapply (table_ok_config_change _ n _ n n); [apply Hc|lia|reflexivity|reflexivity|done|exact El].
    + intros i Hi. rewrite foldl_app. apply lookup_insert_ne. cbn. lia.
  - split; [split|..]; cbn; [|apply Hc|lia|lia|done]. eapply table_ok_next; [apply Hc|unfold n; lia].
Qed.
(** One whose task has the next identifier. *)
Lemma tame_change_next rs inc out acts : existsb is_change acts = true →
  tame 2 (let* id := next_task_id in let* locks := must_config_change id rs inc out in let* id := next_task_id in
          delegate (ActionTaskWithLocks locks (ActionTask_new id acts))).
Proof.
  intros Ha jobs c r c' Hc Hpos Hroom. unfold next_task_id, must_config_change, replica_epoch, try_config_change, ask, prog_bind, prog_lift. cbn.
  rewrite next_small by lia. set (n := cx_next_task_id c) in *.
  destruct (table_config_change n _ rs inc out (cx_locks c)) as [[locks t]|] eqn:El; cbn; intros [= <- <-].
  - assert (u64_add (n + 1) 1 = n + 2) as ->. { unfold u64_add. rewrite u64_wrap_small by (unfold u64_ok; lia). lia. }
    split; [split|..]; cbn; [|by eapply pending_add; [exact Hc|reflexivity|cbn; lia]|lia|lia|].
    + rewrite foldl_app. cbn [task_id at_task_id ActionTask_new].
      replace (n + 2) with (n + 1 + 1) by lia. eapply (table_ok_config_change _ n _ n (n + 1)); [apply Hc|lia|reflexivity|reflexivity|done|exact El].
    + intros i Hi. rewrite foldl_app. apply lookup_insert_ne. cbn. lia.
  - split; [split|..]; cbn; [|apply Hc|lia|lia|done]. eapply table_ok_next; [apply Hc|unfold n; lia].
Qed.
Lemma tame_migration m : tame 1 (start_migration m).
Proof.
  intros jobs c r c' Hc Hpos Hroom. unfold start_migration, next_task_id, try_config_change, ask, prog_bind. cbn.
  rewrite next_small by done. set (n := cx_next_task_id c) in *.
  destruct (table_config_change n _ _ _ _ (cx_locks c)) as [[locks t]|] eqn:El; cbn; intros [= <- <-].
  - split; [split|..]; cbn; [|by eapply pending_add; [exact Hc|reflexivity|cbn; lia]|lia|lia|].
    + rewrite foldl_app. cbn. eapply (table_ok_config_change _ n _ n n); [apply Hc|lia|reflexivity|reflexivity|done|exact El].
    + intros i Hi. rewrite foldl_app. apply lookup_insert_ne. cbn. lia.
  - split; [split|..]; cbn; [|apply Hc|lia|lia|done]. eapply table_ok_next; [apply Hc|unfold n; lia].
Qed.
Lemma tame_dismiss replica group orphans : tame 1 (dismiss_orphan_replica replica group orphans).
Proof.
  intros jobs c r c' Hc Hpos Hroom. unfold dismiss_orphan_replica, next_task_id, try_lock, prog_bind. cbn.
  rewrite next_small by done. set (n := cx_next_task_id c) in *.
  destruct (table_lock n _ _ _ _ (cx_locks c)) as [[locks t]|] eqn:El; cbn; intros [= <- <-].
  - split; [split|..]; cbn; [|by eapply pending_add; [exact Hc|reflexivity|cbn; lia]|lia|lia|].
    + rewrite foldl_app. cbn. eapply (table_ok_lock _ n _ n); [apply Hc|lia|reflexivity|reflexivity|done|exact El].
    + intros i Hi. rewrite foldl_app. apply lookup_insert_ne. cbn. lia.
  - split; [split|..]; cbn; [|apply Hc|lia|lia|done]. eapply table_ok_next; [apply Hc|unfold n; lia].
Qed.
Lemma tame_dismiss_all dismiss desc states : ∀ orphans, tame (Z.of_nat (length states)) (dismiss_all dismiss desc states orphans).
Proof.
  induction states as [|s states IH]; intros orphans; cbn [dismiss_all length]; [apply tame_ret|].
  apply tame_then; [lia|apply tame_ask|]. intros c. destruct (_ || _).
  - eapply tame_weaken; [apply IH|lia].
  - replace (Z.of_nat (S (length states))) with (1 + Z.of_nat (length states)) by lia. apply tame_bind; [lia..|apply tame_dismiss|]. intros o. apply IH.
Qed.
Lemma tame_alloc n : tame 0 (alloc_addition_replicas n).
Proof.
  apply tame_then; [lia|apply tame_ask|intros e]. apply tame_then; [lia|apply tame_ask|intros c].
  apply tame_then; [lia|apply tame_call|intros r]. apply tame_ret.
Qed.
Lemma tame_promote_setup n former : tame 1 (promote_setup n former).
Proof.
  apply tame_then; [lia|apply tame_alloc|]. intros [rs|]; [|eapply tame_weaken; [apply tame_ret|lia]].
  intros jobs c r c' Hc Hpos Hroom E.
  eapply (tame_last 1 (let* id := next_task_id in let* locks := must_config_change id (former :: (rd_id <$> rs)) rs [] in
    delegate (ActionTaskWithLocks locks (ActionTask_new id [CreateReplicas_new rs; AddLearners rs; ReplaceVoters rs []]))) (λ _, ret true));
    [lia|by apply tame_change|intros _; apply tame_ret|done..|].
  rewrite <- E. unfold prog_bind. destruct (next_task_id c) as [[[id|e|] c1]|]; try done.
  destruct (must_config_change _ _ _ _ c1) as [[[l|e|] c2]|]; done.
Qed.
Lemma tame_promote : tame 1 promote_poll.
Proof.
  apply tame_then; [lia|apply tame_ask|intros c]. destruct (has_config_change _); [eapply tame_weaken; [apply tame_pend|lia]|].
  destruct (gd_replicas _) as [|former [|? ?]]; try (eapply tame_weaken; [apply tame_ret|lia]).
  destruct (is_replica_locked _ _); [eapply tame_weaken; [apply tame_pend|lia]|].
  apply tame_last; [lia| |intros _; apply tame_pend]. destruct (3 <=? _); [|eapply tame_weaken; [apply tame_ret|lia]].
  apply tame_last; [lia|apply tame_promote_setup|intros _; apply tame_ret].
Qed.
Lemma tame_select online n outgoing : tame 0 (select_dismiss_voters online n outgoing).
Proof.
  apply tame_then; [lia|apply tame_lift|intros _]. apply tame_then; [lia|apply tame_ask|intros c]. apply tame_lift.
Qed.
Lemma tame_handle_stats s : tame 2 (handle_replica_stats s).
Proof.
  assert (∀ p : M unit, tame 1 p → tame 2 (do* p in pend 30000)) as H1.
  { intros p Hp. apply (tame_weaken 1); [|lia]. apply tame_last; [lia|done|intros _; apply tame_pend]. }
  apply tame_then; [lia|apply tame_pv|intros _]. destruct (negb _); [by apply H1, tame_change|].
  cbv zeta. destruct (3 <? size (online_voters s) + size (offline_voters s))%nat.
  - apply tame_then; [lia| |intros o; by apply H1, tame_change]. destruct (_ <? _)%nat; [apply tame_select|apply tame_ret].
  - destruct (size (online_voters s) <? 3)%nat.
    + destruct (negb _); [by apply H1, tame_change|]. apply tame_then; [lia|apply tame_alloc|]. intros [incoming|].
      * apply tame_last; [lia|by apply tame_change_next|intros _; apply tame_pend].
      * eapply tame_weaken; [apply tame_pend|lia].
    + destruct (negb _); [|eapply tame_weaken; [apply tame_pend|lia]].
      repeat (apply tame_then; [lia|apply tame_lift|intros _]). by apply H1, tame_change.
Qed.
Lemma tame_durable : tame 2 (durable_poll knobs).
Proof.
  unfold durable_poll. destruct (disable_scheduler_durable_task knobs); [eapply tame_weaken; [apply tame_ret|lia]|].
  apply tame_then; [lia|apply tame_ask|intros c]. destruct (_ || _); [eapply tame_weaken; [apply tame_pend|lia]|].
  apply tame_then; [lia|apply tame_lift|]. intros [s|]; [apply tame_handle_stats|eapply tame_weaken; [apply tame_pend|lia]].
Qed.
Lemma tame_watch_states : tame 0 (watch_states_poll knobs).
Proof.
  apply tame_then; [lia|apply tame_ask|intros g]. apply tame_then; [lia|apply tame_call|intros r].
  apply tame_then; [lia|destruct r; [apply tame_ret|apply tame_pv]|intros _; apply tame_pend].
Qed.
Lemma tame_watch_raft : tame 0 watch_raft_poll.
Proof.
  intros jobs c r c' Hc Hpos Hroom E. unfold watch_raft_poll in E. destruct (gs_raft_group_state (cx_world c)) as [s w].
  assert (tamed 0 jobs c (set_cx_world w c)) as Ht by (by apply tamed_same).
  apply (tamed_trans 0 0 jobs c (set_cx_world w c)); [done|]. revert E. apply tame_then; [lia| |intros _; apply tame_pend|apply Ht|done..].
  destruct s; [|apply tame_ret]. apply tame_then; [lia|apply tame_ask|intros t; apply tame_pv].
Qed.
Lemma tame_watch_desc : tame 0 watch_desc_poll.
Proof. apply tame_then; [lia|apply tame_ask|intros d]. apply tame_then; [lia|apply tame_pv|intros _; apply tame_pend]. Qed.
Lemma tame_migration_poll : tame 1 migration_poll.
Proof.
  apply tame_then; [lia|apply tame_ask|intros d]. apply tame_then; [lia|apply tame_pv|intros _].
  apply tame_last; [lia|destruct d; [apply tame_migration|eapply tame_weaken; [apply tame_ret|lia]]|intros _].
  apply tame_then; [lia|apply tame_pv|intros _; apply tame_ret].
Qed.

(** ** Action tasks *)
Lemma tame_watch_desc_of id : tame 0 (watch_desc id).
Proof. apply tame_pv. Qed.
Lemma tame_change_and_watch id l : tame 0 (change_and_watch id l).
Proof.
  apply tame_then; [lia| |intros s; apply tame_then; [lia|destruct s; try apply tame_ret; apply tame_pv|intros _; apply tame_ret]].
  apply tame_then; [lia|apply tame_ask|intros e]. apply tame_then; [lia|apply tame_call|intros r; apply tame_ret].
Qed.
Lemma tame_create_from g todo : ∀ i n, tame 0 (create_from g todo i n).
Proof.
  induction todo as [|r todo IH]; intros i n; cbn [create_from]; [apply tame_ret|].
  apply tame_then; [lia|apply tame_call|]. intros [e|u]; [|apply IH]. destruct (_ && _); apply tame_ret.
Qed.
Lemma tame_setup id a : tame 0 (action_setup id a).
Proof.
  destruct a; cbn [action_setup].
  - apply tame_then; [lia|apply tame_ask|intros g; apply tame_create_from].
  - apply tame_then; [lia|apply tame_call|intros r; apply tame_ret].
  - apply tame_then; [lia|apply tame_ask|intros g]. apply tame_then; [lia|apply tame_call|intros r; apply tame_ret].
  - apply tame_then; [lia|apply tame_change_and_watch|intros s; apply tame_ret].
  - apply tame_then; [lia|apply tame_change_and_watch|intros s; apply tame_ret].
  - apply tame_then; [lia|apply tame_change_and_watch|intros s; apply tame_ret].
Qed.
Lemma tame_action_poll id a : tame 0 (action_poll id a).
Proof.
  assert (∀ done, tame 0 (wait_descriptor id done)) as Hw.
  { intros d. apply tame_then; [lia|apply tame_ask|intros l]. destruct (d l); [apply tame_ret|].
    apply tame_then; [lia|apply tame_pv|intros _; apply tame_ret]. }
  destruct a; try apply tame_ret; apply Hw.
Qed.
Lemma tame_action_task t : tame 0 (action_task_poll t).
Proof.
  unfold action_task_poll. destruct (at_stage t) as [i|i].
  - destruct (at_actions t !! i) as [a|]; [|apply tame_ret]. apply tame_then; [lia|apply tame_setup|intros [s a']; apply tame_ret].
  - apply tame_then; [lia|apply tame_lift|intros a]. apply tame_then; [lia|apply tame_action_poll|intros s; apply tame_ret].
Qed.
(** What a program returns. *)
Definition gives {A} (p : M A) (Q : A → Prop) : Prop := ∀ c a c', p c = Some (Ok a, c') → Q a.
Lemma gives_ret {A} (a : A) (Q : A → Prop) : Q a → gives (ret a) Q.
Proof. by intros HQ c a' c' [= <- _]. Qed.
Lemma gives_bind {A B} (p : M A) (k : A → M B) P Q : gives p P → (∀ a, P a → gives (k a) Q) → gives (prog_bind p k) Q.
Proof.
  intros Hp Hk c b c' E. unfold prog_bind in E. destruct (p c) as [[[a|e|] c1]|] eqn:Ep; try done. eapply Hk; [by eapply Hp|done].
Qed.
Lemma gives_any {A} (p : M A) : gives p (λ _, True).
Proof. done. Qed.
Lemma create_from_gives g todo : ∀ i n, gives (create_from g todo i n) (λ r, is_change r.2 = false).
Proof.
  induction todo as [|r todo IH]; intros i n; cbn [create_from]; [by apply gives_ret|].
  eapply gives_bind; [apply gives_any|]. intros [e|u] _; [|apply IH]. by destruct (_ && _); apply gives_ret.
Qed.
Lemma setup_gives id a : gives (action_setup id a) (λ r, is_change r.2 = is_change a).
Proof.
  destruct a as [rs i n|g r n|tgt|l|l|l1 l2]; cbn [action_setup].
  - eapply gives_bind; [apply gives_any|]. intros g _. apply create_from_gives.
  - eapply gives_bind; [apply gives_any|]. intros [e|u] _; apply gives_ret; [|done]. by destruct (_ && _).
  - eapply gives_bind; [apply gives_any|]. intros g _. eapply gives_bind; [apply gives_any|]. intros [e|u] _; by apply gives_ret.
  - eapply gives_bind; [apply gives_any|]. intros s _. by apply gives_ret.
  - eapply gives_bind; [apply gives_any|]. intros s _. by apply gives_ret.
  - eapply gives_bind; [apply gives_any|]. intros s _. by apply gives_ret.
Qed.
Lemma existsb_insert i a a' acts : acts !! i = Some a → is_change a' = is_change a → existsb is_change (<[i := a']> acts) = existsb is_change acts.
Proof.
  revert i. induction acts as [|b acts IH]; intros i Hi Ha; [done|]. destruct i as [|i]; cbn in *.
  - injection Hi as ->. by rewrite Ha.
  - f_equal. by apply IH.
Qed.
Definition same_task (t : ActionTask) (r : TaskState * ActionTask) : Prop :=
  at_task_id r.2 = at_task_id t ∧ existsb is_change (at_actions r.2) = existsb is_change (at_actions t) ∧ ∀ l, stage_ok (ActionTaskWithLocks l r.2).
Lemma action_task_gives t : gives (action_task_poll t) (same_task t).
Proof.
  unfold action_task_poll, same_task. destruct (at_stage t) as [i|i] eqn:Es.
  - destruct (at_actions t !! i) as [a|] eqn:Ea; [|apply gives_ret; cbn; by rewrite Es]. eapply gives_bind; [apply setup_gives|]. intros [s a'] Ha.
    apply gives_ret. destruct s; cbn; rewrite ?Es; (split_and!; [done|by apply (existsb_insert i a)|]); intros _; try done.
    rewrite length_insert. by apply lookup_lt_Some in Ea.
  - apply (gives_bind _ _ (λ a, at_actions t !! i = Some a)).
    { intros c a c'. unfold prog_lift, expect. destruct (at_actions t !! i); [|done]. by intros [= -> _]. }
    intros a Ha%lookup_lt_Some. eapply gives_bind; [apply gives_any|]. intros s _. apply gives_ret.
    destruct s; cbn; rewrite ?Es; by split_and!.
Qed.

(** ** Polls *)
Lemma with_tasks_insert l id t : ∀ m, (∀ u, u ∈ l → task_id u ≠ id) → with_tasks l (<[id := t]> m) = <[id := t]> (with_tasks l m).
Proof.
  induction l as [|u l IH]; intros m Hl; cbn; [done|]. unfold with_tasks in IH. rewrite insert_insert_ne, IH; [done| |].
  - intros v Hv. apply Hl. by right.
  - apply Hl. by left.
Qed.
Lemma with_tasks_delete l id : ∀ m, (∀ u, u ∈ l → task_id u ≠ id) → with_tasks l (delete id m) = delete id (with_tasks l m).
Proof.
  induction l as [|u l IH]; intros m Hl; cbn; [done|]. unfold with_tasks in IH. rewrite <- delete_insert_ne, IH; [done| |].
  - intros v Hv. apply Hl. by right.
  - intros E. apply (Hl u); [by left|done].
Qed.
(** The most identifiers that a poll takes. *)
Definition poll_cost (c : Ctx W) : Z := 2 + Z.of_nat (length (pv_replica_states (cx_pv c))).
Definition jobs_after (id : Z) (r : TaskState * GroupTask) (jobs : gmap Z GroupTask) : gmap Z GroupTask :=
  match r.1 with Terminated => delete id jobs | _ => <[id := r.2]> jobs end.
Lemma pending_ne jobs c id t : ctx_ok jobs c → jobs !! id = Some t → ∀ u, u ∈ cx_pending_tasks c → task_id u ≠ id.
Proof. intros Hc Hj u Hu <-. apply (co_pending _ _ Hc) in Hu. congruence. Qed.
Lemma job_live jobs c id t : ctx_ok jobs c → jobs !! id = Some t → live jobs c !! id = Some t.
Proof.
  intros Hc Hj. unfold live. rewrite <- (insert_id jobs id t Hj). rewrite with_tasks_insert; [apply lookup_insert_eq|]. by eapply pending_ne.
Qed.
Lemma job_progress jobs c id t t' : ctx_ok jobs c → jobs !! id = Some t →
  task_id t' = task_id t → locks_of t' = locks_of t → changes t' = changes t → stage_ok t' → ctx_ok (<[id := t']> jobs) c.
Proof.
  intros Hc Hj Ei El Ec Es. split.
  - unfold live. rewrite with_tasks_insert by (by eapply pending_ne). eapply table_ok_progress; [apply Hc| |done..]. by apply job_live.
  - intros u Hu. rewrite lookup_insert_ne; [by apply (co_pending _ _ Hc)|]. intros E. by eapply pending_ne.
Qed.
Lemma job_done jobs c id t : ctx_ok jobs c → jobs !! id = Some t → locks_of t = [] → changes t = false → ctx_ok (delete id jobs) c.
Proof.
  intros Hc Hj El Ec. assert (Hl := job_live jobs c id t Hc Hj). split.
  - unfold live. rewrite with_tasks_delete by (by eapply pending_ne). destruct (co_table _ _ Hc) as [Hid Hst Hfr Hlk Hdj Hsg Hch How]. split.
    + intros i u [_ Hu]%lookup_delete_Some. by apply Hid.
    + intros i u [_ Hu]%lookup_delete_Some. by apply (Hst i).
    + intros i u [_ Hu]%lookup_delete_Some. by apply (Hfr i u).
    + intros r. rewrite Hlk. split; intros (i & u & Hu & Hr); exists i, u; (split; [|done]).
      * apply lookup_delete_Some. split; [|done]. intros ->. rewrite Hl in Hu. injection Hu as <-. rewrite El in Hr. by apply elem_of_nil in Hr.
      * by apply lookup_delete_Some in Hu as [_ Hu].
    + intros i j u1 u2 r [_ Hu]%lookup_delete_Some [_ Hv]%lookup_delete_Some. by apply Hdj.
    + intros i j u1 u2 [_ Hu]%lookup_delete_Some [_ Hv]%lookup_delete_Some. by apply Hsg.
    + intros i u [_ Hu]%lookup_delete_Some Hcu. by apply (Hch i u).
    + intros o Ho. destruct (How o Ho) as [Hlt Ho']. split; [done|]. intros u [_ Hu]%lookup_delete_Some. auto.
  - intros u Hu. rewrite lookup_delete_ne; [by apply (co_pending _ _ Hc)|]. intros E. by eapply pending_ne.
Qed.
(** A task of the group, which only delegates. *)
Lemma same_poll n jobs c id t (p : M TaskState) r c' : tame n p → ctx_ok jobs c → 0 ≤ cx_next_task_id c → cx_next_task_id c + n ≤ u64_MAX →
  jobs !! id = Some t → task_id t = id → locks_of t = [] → changes t = false →
  (let* s := p in ret (s, t)) c = Some (r, c') →
  cx_next_task_id c ≤ cx_next_task_id c' ≤ cx_next_task_id c + n ∧ ∀ a, r = Ok a → ctx_ok (jobs_after id a jobs) c'.
Proof.
  intros Hp Hc Hpos Hroom Hj Hid Hl Hch E. unfold prog_bind in E. destruct (p c) as [[[s|e|] c1]|] eqn:Ep; [| | |done];
    apply (Hp jobs) in Ep as [Hok Hlo Hhi _]; try done; injection E as <- <-; (split; [lia|]); intros a [= <-].
  unfold jobs_after. cbn. destruct s; [by rewrite insert_id|by rewrite insert_id|by eapply job_done].
Qed.
Lemma orphan_poll_tamed jobs c orphans r c' : ctx_ok jobs c → 0 ≤ cx_next_task_id c → cx_next_task_id c + poll_cost c ≤ u64_MAX →
  orphan_poll knobs orphans c = Some (r, c') → tamed (poll_cost c) jobs c c'.
Proof.
  intros Hc Hpos Hroom E. unfold poll_cost in *. unfold orphan_poll in E.
  destruct (disable_scheduler_remove_orphan_replica_task knobs).
  { eapply tamed_weaken; [|by eapply tame_ret; [exact Hc|lia|lia|exact E]]. lia. }
  unfold prog_bind at 1 in E. cbn in E. destruct (gd_replicas _) as [|r0 rs].
  { eapply tamed_weaken; [|by eapply (tame_then 0 (watch_desc REMOVE_ORPHAN_REPLICA_TASK_ID) _ ltac:(lia) (tame_pv _) (λ _, tame_ret _)); [exact Hc|lia|lia|exact E]]. lia. }
  unfold prog_bind at 1 in E. cbn in E. unfold prog_bind at 1 in E. cbn in E.
  eapply tamed_weaken; [|eapply (tame_last (Z.of_nat (length (pv_replica_states (cx_pv c)))));
    [lia|apply tame_dismiss_all|intros o; apply tame_ret|exact Hc|lia|lia|exact E]]. lia.
Qed.
Lemma action_poll_ok jobs c id locks inner r c' : ctx_ok jobs c → 0 ≤ cx_next_task_id c ≤ u64_MAX →
  jobs !! id = Some (ActionTaskWithLocks locks inner) → task_poll knobs (ActionTaskWithLocks locks inner) c = Some (r, c') →
  cx_next_task_id c' = cx_next_task_id c ∧ ∀ a, r = Ok a → ctx_ok (jobs_after id a jobs) c'.
Proof.
  intros Hc Hpos Hj E. assert (Hl := job_live jobs c id _ Hc Hj). assert (Hid := to_id _ _ _ (co_table _ _ Hc) _ _ Hl). cbn in Hid.
  cbn [task_poll] in E. unfold prog_bind in E. destruct (action_task_poll inner c) as [[[[s inner']|e|] c1]|] eqn:Ep; [| | |done];
    assert (Ht := Ep); apply (tame_action_task inner jobs) in Ht as [Hok Hlo Hhi Hold]; try done; try lia;
    [|injection E as <- <-; split; [lia|done]..].
  apply action_task_gives in Ep as (Hi & Hch & Hstg). cbn in Hi, Hch. destruct s as [d| |].
  - injection E as <- <-. split; [lia|]. intros a [= <-]. unfold jobs_after. cbn. eapply job_progress; [done|exact Hj|done..].
  - injection E as <- <-. split; [lia|]. intros a [= <-]. unfold jobs_after. cbn. eapply job_progress; [done|exact Hj|done..].
  - injection E as <- <-. split; [cbn; lia|]. intros a [= <-]. unfold jobs_after. cbn.
    assert (Hl1 := job_live jobs c1 id _ Hok Hj). split.
    + unfold live. rewrite with_tasks_delete; [|by apply (pending_ne jobs c1 id _ Hok Hj)]. cbn. rewrite Hi, Hid.
      eapply table_ok_release; [apply Hok|exact Hl1].
    + intros u Hu. rewrite lookup_delete_ne; [by apply (co_pending _ _ Hok)|]. intros E. by eapply (pending_ne jobs c1 id).
Qed.
Lemma task_poll_ok jobs c id t r c' : ctx_ok jobs c → 0 ≤ cx_next_task_id c → cx_next_task_id c + poll_cost c ≤ u64_MAX →
  jobs !! id = Some t → task_poll knobs t c = Some (r, c') →
  cx_next_task_id c ≤ cx_next_task_id c' ≤ cx_next_task_id c + poll_cost c ∧ ∀ a, r = Ok a → ctx_ok (jobs_after id a jobs) c'.
Proof.
  intros Hc Hpos Hroom Hj E. assert (2 ≤ poll_cost c) by (unfold poll_cost; lia).
  assert (Hl := job_live jobs c id _ Hc Hj). assert (Hid := to_id _ _ _ (co_table _ _ Hc) _ _ Hl).
  assert (∀ n p, tame n p → n ≤ 2 → locks_of t = [] → changes t = false → (let* s := p in ret (s, t)) c = Some (r, c') →
    cx_next_task_id c ≤ cx_next_task_id c' ≤ cx_next_task_id c + poll_cost c ∧ ∀ a, r = Ok a → ctx_ok (jobs_after id a jobs) c') as Hsame.
  { intros n p Hp Hn Hlk Hch E'. destruct (same_poll n jobs c id t p r c' Hp Hc Hpos ltac:(lia) Hj Hid Hlk Hch E') as [? ?]. split; [lia|done]. }
  destruct t as [| | | | |orphans| |locks inner].
  - by eapply Hsame; [apply tame_watch_states|lia|..].
  - by eapply Hsame; [apply tame_watch_raft|lia|..].
  - by eapply Hsame; [apply tame_watch_desc|lia|..].
  - by eapply Hsame; [apply tame_promote|lia|..].
  - by eapply Hsame; [apply tame_durable|lia|..].
  - cbn [task_poll] in E. unfold prog_bind in E. destruct (orphan_poll knobs orphans c) as [[[[s o]|e|] c1]|] eqn:Ep; [| | |done];
      apply (orphan_poll_tamed jobs) in Ep as [Hok Hlo Hhi _]; try done; injection E as <- <-; (split; [lia|]); intros a [= <-].
    unfold jobs_after. cbn. destruct s; [by eapply job_progress|by eapply job_progress|by eapply job_done].
  - by eapply Hsame; [apply tame_migration_poll|lia|..].
  - eapply action_poll_ok in E as [-> ?]; try done; [split; [lia|done]|lia].
Qed.
End Tame.

(** ** No panics *)
(** The calls of others do not panic here. *)
Class GroupSchedEnvOk {W : Type} (GE : GroupSchedEnv W) := {
  go_execute : ∀ e r w w', gs_execute e r w ≠ Some (Panic, w');
  go_alloc : ∀ g e t l n w w', gs_alloc_replica g e t l n w ≠ Some (Panic, w');
  go_create : ∀ n r g w w', gs_create_replica n r g w ≠ Some (Panic, w');
  go_remove : ∀ n r g w w', gs_remove_replica n r g w ≠ Some (Panic, w');
  go_list : ∀ g w w', gs_list_replica_state g w ≠ Some (Panic, w');
  go_clear : ∀ g r w w', gs_clear_replica_state g r w ≠ Some (Panic, w');
}.
Section Wp.
  Context {W : Type} {GE : GroupSchedEnv W} {GO : GroupSchedEnvOk GE} `{HashOrder} `{Codec V1Error} (knobs : Knobs).
  Abbreviation M := (prog (Ctx W) Error).
Definition wp {A} (p : M A) (c : Ctx W) (Q : A → Ctx W → Prop) : Prop :=
  ∀ r c', p c = Some (r, c') → match r with Ok a => Q a c' | Err _ => True | Panic => False end.
Lemma wp_ret {A} (a : A) c (Q : A → Ctx W → Prop) : Q a c → wp (ret a) c Q.
Proof. by intros HQ r c' [= <- <-]. Qed.
Lemma wp_lift {A} (a : A) c (Q : A → Ctx W → Prop) : Q a c → wp (prog_lift (Ok a)) c Q.
Proof. by intros HQ r c' [= <- <-]. Qed.
Lemma wp_bind {A B} (p : M A) (k : A → M B) c Q : wp p c (λ a c1, wp (k a) c1 Q) → wp (prog_bind p k) c Q.
Proof.
  intros Hp r c' E. unfold prog_bind in E. destruct (p c) as [[[a|e|] c1]|] eqn:Ep; [| | |done]; apply Hp in Ep.
  - by apply Ep.
  - by injection E as <- <-.
  - done.
Qed.
Lemma wp_ask {A} (f : Ctx W → A) c (Q : A → Ctx W → Prop) : Q (f c) c → wp (ask f) c Q.
Proof. by intros HQ r c' [= <- <-]. Qed.
Lemma wp_weaken {A} (p : M A) c (P Q : A → Ctx W → Prop) : wp p c P → (∀ a c', P a c' → Q a c') → wp p c Q.
Proof. intros Hp HPQ r c' E. apply Hp in E. destruct r; [by apply HPQ|done..]. Qed.
Lemma wp_call {E A} (p : prog W E A) c (Q : E + A → Ctx W → Prop) : (∀ w w', p w ≠ Some (Panic, w')) →
  (∀ r w', (∀ a, r = inr a → p (cx_world c) = Some (Ok a, w')) → Q r (set_cx_world w' c)) → wp (call_env p) c Q.
Proof.
  intros Hp HQ r c' Er. unfold call_env in Er. destruct (p (cx_world c)) as [[[a|e|] w]|] eqn:Ep; [| | |done].
  - injection Er as <- <-. apply HQ. by intros ? [= <-].
  - injection Er as <- <-. by apply HQ.
  - by destruct (Hp (cx_world c) w).
Qed.
(** What a poll may start from. *)
Definition free (c : Ctx W) (rs : list Z) : Prop := ∀ r, r ∈ rs → lt_locked_replicas (cx_locks c) !! r = None.
(** The world differs, and what the providers hold. *)
Definition alike (c c' : Ctx W) : Prop :=
  cx_locks c' = cx_locks c ∧ cx_pending_tasks c' = cx_pending_tasks c ∧ cx_replica_id c' = cx_replica_id c.
Definition delegated (c c' : Ctx W) (locks : list Z) (acts : list Action) : Prop :=
  ∃ inner, cx_pending_tasks c' = cx_pending_tasks c ++ [ActionTaskWithLocks locks inner] ∧ at_actions inner = acts ∧ at_stage inner = Next 0.
Lemma wp_must_change id rs inc out c Q : lt_config_change (cx_locks c) = None → free c rs →
  (∀ c', cx_pending_tasks c' = cx_pending_tasks c → Q rs c') → wp (must_config_change id rs inc out) c Q.
Proof.
  intros Hcc Hf HQ. apply wp_bind, wp_ask, wp_bind. intros r c' E. unfold try_config_change, table_config_change in E. rewrite Hcc in E.
  destruct (table_lock_free id (gd_epoch (gs_descriptor (cx_world c))) rs inc out (cx_locks c) Hf) as [[l t] El]. rewrite El in E.
  injection E as <- <-. apply table_lock_spec in El as (-> & _). apply wp_lift. by apply HQ.
Qed.
Lemma wp_delegate t c (Q : unit → Ctx W → Prop) : (∀ c', cx_pending_tasks c' = cx_pending_tasks c ++ [t] → Q tt c') → wp (delegate t) c Q.
Proof. intros HQ r c' [= <- <-]. by apply HQ. Qed.
Lemma wp_next c (Q : Z → Ctx W → Prop) : (∀ i c', alike c c' → cx_pv c' = cx_pv c → cx_world c' = cx_world c → Q i c') → wp next_task_id c Q.
Proof. intros HQ r c' [= <- <-]. by apply HQ. Qed.
(** A delegated change, with the locks it asked for. *)
Lemma wp_change rs inc out acts c (Q : unit → Ctx W → Prop) : lt_config_change (cx_locks c) = None → free c rs →
  (∀ c', delegated c c' rs acts → Q tt c') →
  wp (let* id := next_task_id in let* locks := must_config_change id rs inc out in
      delegate (ActionTaskWithLocks locks (ActionTask_new id acts))) c Q.
Proof.
  intros Hcc Hf HQ. apply wp_bind, wp_next. intros id c1 (El & Ep & _) _ _. apply wp_bind, wp_must_change.
  - by rewrite El.
  - unfold free. by rewrite El.
  - intros c2 Ep2. apply wp_delegate. intros c3 Ep3. apply HQ. eexists. split; [by rewrite Ep3, Ep2, Ep|done].
Qed.
Lemma wp_change_next rs inc out acts c (Q : unit → Ctx W → Prop) : lt_config_change (cx_locks c) = None → free c rs →
  (∀ c', delegated c c' rs acts → Q tt c') →
  wp (let* id := next_task_id in let* locks := must_config_change id rs inc out in let* id := next_task_id in
      delegate (ActionTaskWithLocks locks (ActionTask_new id acts))) c Q.
Proof.
  intros Hcc Hf HQ. apply wp_bind, wp_next. intros id c1 (El & Ep & _) _ _. apply wp_bind, wp_must_change.
  - by rewrite El.
  - unfold free. by rewrite El.
  - intros c2 Ep2. apply wp_bind, wp_next. intros id' c3 (_ & Ep3 & _) _ _. apply wp_delegate. intros c4 Ep4. apply HQ.
    eexists. split; [by rewrite Ep4, Ep3, Ep2, Ep|done].
Qed.
(** The replicas that the root would give now. *)
Definition allocates (c : Ctx W) (n : Z) (rs : list ReplicaDesc) : Prop :=
  ∃ g e t l w', gs_alloc_replica g e t l n (cx_world c) = Some (Ok rs, w').
Lemma wp_alloc n c (Q : option (list ReplicaDesc) → Ctx W → Prop) :
  (∀ o w', (∀ rs, o = Some rs → allocates c n rs) → Q o (set_cx_world w' c)) → wp (alloc_addition_replicas n) c Q.
Proof.
  intros HQ. apply wp_bind, wp_ask, wp_bind, wp_ask, wp_bind, wp_call; [intros ? ?; apply go_alloc|].
  intros r w' Hr. apply wp_ret, HQ. intros rs Ers. destruct r as [e|l]; [done|]. injection Ers as <-. specialize (Hr _ eq_refl).
  by do 5 eexists.
Qed.

(** ** What the durable task sees *)
Lemma visit_nodup (m : gmap Z ReplicaDesc) : NoDup (visit m).*1.
Proof. rewrite (visit_perm m). apply NoDup_fst_map_to_list. Qed.
Lemma visit_elem {A} (m : gmap Z A) i x : (i, x) ∈ visit m ↔ m !! i = Some x.
Proof. rewrite (visit_perm m). apply elem_of_map_to_list. Qed.
Lemma visit_length {A} (m : gmap Z A) : length (visit m) = size m.
Proof. rewrite (visit_perm m). apply length_map_to_list. Qed.
Lemma values_elem (m : gmap Z ReplicaDesc) r : r ∈ values m ↔ ∃ i, m !! i = Some r.
Proof.
  unfold values. rewrite list_elem_of_fmap. split.
  - intros ([i x] & -> & Hx). exists i. by apply visit_elem.
  - intros [i Hi]. exists (i, r). by rewrite visit_elem.
Qed.
Lemma values_length (m : gmap Z ReplicaDesc) : length (values m) = size m.
Proof. unfold values. by rewrite length_fmap, visit_length. Qed.
Lemma nodup_take {A} n (l : list A) : NoDup l → NoDup (take n l).
Proof. intros Hl. rewrite <- (take_drop n l) in Hl. by apply NoDup_app in Hl as (? & _). Qed.
Lemma take_elem {A} n (l : list A) x : x ∈ take n l → x ∈ l.
Proof. intros Hx. rewrite <- (take_drop n l). apply elem_of_app. by left. Qed.
Lemma take_some_sub n m : take_some n m ⊆ m.
Proof.
  apply map_subseteq_spec. intros i x Hx. unfold take_some in Hx. apply elem_of_list_to_map_2 in Hx.
  apply visit_elem. by apply take_elem in Hx.
Qed.
Lemma take_some_size n m : size (take_some n m) = (n `min` size m)%nat.
Proof.
  unfold take_some. assert (NoDup (take n (visit m)).*1) as Hn. { rewrite fmap_take. apply nodup_take, visit_nodup. }
  rewrite <- (length_map_to_list (list_to_map (take n (visit m)))), map_to_list_to_map by done. by rewrite length_take, visit_length.
Qed.
Definition has_role (role : ReplicaRole) (r : ReplicaDesc) : Prop := ReplicaRole_from_i32 (rd_role r) = Some role.
#[local] Instance ReplicaRole_eq_dec : EqDecision ReplicaRole.
Proof. solve_decision. Defined.
#[local] Instance has_role_dec role r : Decision (has_role role r).
Proof. unfold has_role. apply _. Defined.
(** The replicas of [l] with the role, that are lost or not. *)
Definition class_map (l : list ReplicaDesc) (lost : gset Z) (role : ReplicaRole) (b : bool) (m : gmap Z ReplicaDesc) : Prop :=
  ∀ i r, m !! i = Some r ↔ r ∈ l ∧ rd_id r = i ∧ has_role role r ∧ bool_decide (i ∈ lost) = b.
Record stats_of (l : list ReplicaDesc) (lost : gset Z) (s : ReplicaStats) : Prop := {
  so_peers : st_peers s = rd_id <$> l;
  so_on : class_map l lost Voter false (online_voters s);
  so_off : class_map l lost Voter true (offline_voters s);
  so_on_l : class_map l lost Learner false (online_learners s);
  so_off_l : class_map l lost Learner true (offline_learners s) }.
Lemma class_map_insert l lost role b m r : class_map l lost role b m → rd_id r ∉ rd_id <$> l → has_role role r →
  bool_decide (rd_id r ∈ lost) = b → class_map (l ++ [r]) lost role b (<[rd_id r := r]> m).
Proof.
  intros Hm Hn Hr Hb i x. rewrite lookup_insert_Some, elem_of_app, list_elem_of_singleton, (Hm i x). split.
  - intros [[<- <-]|(Hne & Hx & Hi & Hro & Hl)]; [by auto|]. by auto.
  - intros ([Hx| ->] & Hi & Hro & Hl); [|by left]. right. split; [|done]. intros E. apply Hn. rewrite E, <- Hi. by apply list_elem_of_fmap_2.
Qed.
Lemma class_map_skip l lost role b m r : class_map l lost role b m → (¬ has_role role r ∨ bool_decide (rd_id r ∈ lost) ≠ b) →
  class_map (l ++ [r]) lost role b m.
Proof.
  intros Hm Hr i x. rewrite (Hm i x), elem_of_app, list_elem_of_singleton. split; [naive_solver|]. intros ([Hx| ->] & Hi & Hro & Hl); [done|].
  subst i. by destruct Hr.
Qed.
Lemma note_ok l lost s r role : stats_of l lost s → rd_id r ∉ rd_id <$> l → has_role role r → role = Voter ∨ role = Learner →
  stats_of (l ++ [r]) lost (note_replica (bool_decide (rd_id r ∈ lost)) r role s).
Proof.
  intros [Hp H1 H2 H3 H4] Hn Hr Hro.
  assert (∀ ro, ro ≠ role → ¬ has_role ro r) as Hx by (unfold has_role in *; congruence).
  destruct Hro as [-> | ->]; destruct (bool_decide (rd_id r ∈ lost)) eqn:Eb; split; cbn; rewrite ?Hp, ?fmap_app; try done;
    try (by apply class_map_insert); apply class_map_skip; try done; try (by left; apply Hx); right; by rewrite Eb.
Qed.
Lemma classify_ok lt lost l : ∀ l0 s s', stats_of l0 lost s → NoDup (rd_id <$> (l0 ++ l)) → classify lt lost l s = Ok (Some s') →
  stats_of (l0 ++ l) lost s' ∧ ∀ r, r ∈ l → lt_locked_replicas lt !! rd_id r = None.
Proof.
  induction l as [|r l IH]; intros l0 s s' Hs Hnd E; cbn in E.
  { injection E as <-. rewrite app_nil_r. split; [done|]. by intros r ?%elem_of_nil. }
  destruct (is_replica_locked (rd_id r) lt) eqn:El; [done|]. destruct (ReplicaRole_from_i32 (rd_role r)) as [role|] eqn:Er; [|done]. cbn in E.
  assert (rd_id r ∉ rd_id <$> l0) as Hn.
  { rewrite fmap_app in Hnd. apply NoDup_app in Hnd as (_ & Hd & _). intros Hin. apply (Hd _ Hin). rewrite fmap_cons. by left. }
  rewrite (cons_middle r l0 l), app_assoc in Hnd |- *.
  assert (lt_locked_replicas lt !! rd_id r = None) as Hfree. { apply bool_decide_eq_false in El. by apply eq_None_not_Some. }
  destruct role; try done; apply (IH (l0 ++ [r])) in E as [Hs' Hl]; try done; try (apply note_ok; [done..|naive_solver]);
    (split; [done|]); intros x [->|Hx]%elem_of_cons; auto.
Qed.
Lemma stats_of_nil lost : stats_of [] lost ReplicaStats_default.
Proof. split; [done|..]; intros i r; cbn; rewrite lookup_empty; (split; [done|]); by intros (?%elem_of_nil & _). Qed.
Lemma classify_total lt lost l : Forall (λ r, is_Some (ReplicaRole_from_i32 (rd_role r))) l → ∀ s, ∃ o, classify lt lost l s = Ok o.
Proof.
  induction 1 as [|r l [role Hr] _ IH]; intros s; cbn; [by eexists|]. destruct (is_replica_locked _ _); [by eexists|]. rewrite Hr. cbn.
  destruct role; try apply IH; by eexists.
Qed.
Lemma values_nodup m : (∀ i r, m !! i = Some r → rd_id r = i) → NoDup (values m).
Proof.
  intros Hm. apply (NoDup_fmap_1 rd_id). unfold values. rewrite <- list_fmap_compose.
  replace ((rd_id ∘ snd) <$> visit m) with ((visit m).*1); [apply visit_nodup|].
  apply list_fmap_ext. intros k [i x] Hk. cbn. symmetry. apply Hm, visit_elem. by apply list_elem_of_lookup_2 in Hk.
Qed.
Lemma class_map_id l lost role b m i r : class_map l lost role b m → m !! i = Some r → rd_id r = i.
Proof. intros Hm Hi. apply Hm in Hi. naive_solver. Qed.
Definition in_class (lost : gset Z) (role : ReplicaRole) (b : bool) (r : ReplicaDesc) : Prop :=
  has_role role r ∧ bool_decide (rd_id r ∈ lost) = b.
Lemma class_map_size l lost role b m : class_map l lost role b m → NoDup (rd_id <$> l) →
  size m = length (filter (in_class lost role b) l).
Proof.
  intros Hm Hnd. rewrite <- values_length. apply Permutation_length, NoDup_Permutation.
  - apply values_nodup. intros i r. by apply (class_map_id l lost role b).
  - apply NoDup_filter. by apply NoDup_fmap_1 in Hnd.
  - intros r. rewrite values_elem, list_elem_of_filter. unfold in_class. split.
    + intros [i Hi]. apply Hm in Hi. naive_solver.
    + intros [[Hr Hb] Hl]. exists (rd_id r). by apply Hm.
Qed.
Definition voters (l : list ReplicaDesc) : list ReplicaDesc := filter (has_role Voter) l.
Lemma voters_split lost l : length (voters l) = (length (filter (in_class lost Voter false) l) + length (filter (in_class lost Voter true) l))%nat.
Proof.
  unfold voters. induction l as [|r l IH]; [done|]. rewrite !filter_cons.
  destruct (decide (has_role Voter r)), (decide (in_class lost Voter false r)), (decide (in_class lost Voter true r)); cbn; try lia;
    exfalso; unfold in_class in *; destruct (bool_decide (rd_id r ∈ lost)); naive_solver.
Qed.
Lemma stats_total l lost s : stats_of l lost s → NoDup (rd_id <$> l) → (size (online_voters s) + size (offline_voters s))%nat = length (voters l).
Proof. intros [_ H1 H2 _ _] Hnd. rewrite (class_map_size l lost Voter false), (class_map_size l lost Voter true) by done. by rewrite (voters_split lost). Qed.
Lemma take_some_all n m : (size m ≤ n)%nat → take_some n m = m.
Proof. intros Hn. apply map_subseteq_size_eq; [apply take_some_sub|rewrite take_some_size; lia]. Qed.

(** What [laggards] picks, and what is then dismissed. *)
Lemma laggards_ok n me online matched i : i ∈ laggards n me online matched → is_Some (online !! i) ∧ i ≠ me.
Proof.
  unfold laggards. intros Hi. apply take_elem in Hi as Hi'.
  apply list_elem_of_fmap in Hi' as ([j x] & -> & Hx). rewrite merge_sort_Permutation in Hx. apply visit_elem in Hx.
  apply lookup_delete_Some in Hx as [Hne Hx]. apply map_lookup_filter_Some in Hx as [_ Hx]. by split.
Qed.
Lemma laggards_length n me online matched : (length (laggards n me online matched) ≤ n)%nat.
Proof. unfold laggards. rewrite length_take. lia. Qed.
Lemma dismiss_these_ok online ids : ∀ outgoing, (∀ i, i ∈ ids → is_Some (online !! i)) → ∃ m, dismiss_these online ids outgoing = Ok m ∧
  (size m ≤ size outgoing + length ids)%nat ∧ (∀ i r, m !! i = Some r → (i ∈ ids ∧ online !! i = Some r) ∨ outgoing !! i = Some r) ∧
  ∀ i, is_Some (outgoing !! i) → is_Some (m !! i).
Proof.
  induction ids as [|i ids IH]; intros outgoing Hids; cbn.
  { exists outgoing. split_and!; [done|lia|by right|done]. }
  destruct (Hids i) as [r Hr]; [by left|]. rewrite Hr. cbn.
  destruct (IH (<[i := r]> outgoing)) as (m & -> & Hsz & Hm & Hk); [intros j Hj; apply Hids; by right|]. exists m. split_and!; [done| | |].
  - assert (size (<[i := r]> outgoing) ≤ S (size outgoing))%nat. { rewrite map_size_insert. destruct (outgoing !! i); unfold id; lia. } lia.
  - intros j x Hj. apply Hm in Hj as [[Hj Hx]|Hj]; [left; split; [by right|done]|]. apply lookup_insert_Some in Hj as [[<- <-]|[_ Hj]]; [|by right].
    left. split; [by left|done].
  - intros j Hj. apply Hk. apply lookup_insert_is_Some'. by right.
Qed.
Lemma wp_select online n outgoing c Q : (n < size online)%nat →
  (∀ m, (size m ≤ size outgoing + n)%nat →
    (∀ i r, m !! i = Some r → (i ≠ cx_replica_id c ∧ online !! i = Some r) ∨ outgoing !! i = Some r) →
    (∀ i, is_Some (outgoing !! i) → is_Some (m !! i)) → Q m c) → wp (select_dismiss_voters online n outgoing) c Q.
Proof.
  intros Hn HQ. unfold select_dismiss_voters. apply wp_bind. unfold debug_assert. rewrite (proj2 (Nat.ltb_lt _ _) Hn). apply wp_lift, wp_bind, wp_ask.
  set (ids := laggards _ _ _ _).
  destruct (dismiss_these_ok online ids outgoing) as (m & -> & Hsz & Hm & Hk); [intros i Hi; by apply laggards_ok in Hi as [? _]|].
  apply wp_lift, HQ; [|intros i r Hi|done].
  - assert (length ids ≤ n)%nat by apply laggards_length. lia.
  - apply Hm in Hi as [[Hi Hx]|Hi]; [left|by right]. by apply laggards_ok in Hi as [_ ?].
Qed.

(** ** What the durable task starts *)
Record sound_change (d : list ReplicaDesc) (lost : gset Z) (me : Z) (given : list ReplicaDesc → Prop) (acts : list Action) : Prop := {
  (** only voters of the group are removed, each once *)
  sc_out : ∀ inc out, ReplaceVoters inc out ∈ acts → NoDup out ∧ ∀ r, r ∈ out → r ∈ voters d;
  (** no fewer voters than before, or at least three *)
  sc_enough : ∀ inc out, ReplaceVoters inc out ∈ acts → (length out ≤ length inc)%nat ∨ (3 + length out ≤ length (voters d))%nat;
  (** a live voter goes only when there are more than three, after all the lost
      ones, and never the leader *)
  sc_live : ∀ inc out r, ReplaceVoters inc out ∈ acts → r ∈ out → rd_id r ∉ lost →
    (3 < length (voters d))%nat ∧ rd_id r ≠ me ∧ ∀ x, x ∈ voters d → rd_id x ∈ lost → x ∈ out;
  (** new voters are live learners of the group, or come from the root *)
  sc_in : ∀ inc out, ReplaceVoters inc out ∈ acts →
    (∀ r, r ∈ inc → r ∈ d ∧ has_role Learner r ∧ rd_id r ∉ lost) ∨ given inc;
  (** learners that are removed are lost, or were voters that were replaced *)
  sc_learners : ∀ l, RemoveLearners l ∈ acts →
    (∀ r, r ∈ l → r ∈ d ∧ has_role Learner r ∧ rd_id r ∈ lost) ∨ ∃ inc, ReplaceVoters inc l ∈ acts }.
Lemma class_voter l lost b m i r : class_map l lost Voter b m → m !! i = Some r → r ∈ voters l.
Proof. intros Hm Hi. apply Hm in Hi as (Hl & _ & Hr & _). by apply list_elem_of_filter. Qed.
(** A task that removes learners only. *)
Lemma sound_remove d lost me given s : stats_of d lost s → sound_change d lost me given [RemoveLearners (values (offline_learners s))].
Proof.
  intros Hs. split; try by intros * Hx%list_elem_of_singleton.
  intros l Hl%list_elem_of_singleton. injection Hl as ->. left. intros r [i Hi]%values_elem. apply (so_off_l _ _ _ Hs) in Hi as (? & <- & ? & Hb).
  by apply bool_decide_eq_true in Hb.
Qed.
(** A task that replaces voters, whatever else it does first. *)
Lemma sound_replace d lost me given pre inc out :
  Forall (λ a, match a with ReplaceVoters _ _ | RemoveLearners _ => False | _ => True end) pre →
  (∀ i r, out !! i = Some r → rd_id r = i ∧ r ∈ voters d) →
  (size out ≤ length inc)%nat ∨ (3 + size out ≤ length (voters d))%nat →
  (∀ i r, out !! i = Some r → i ∉ lost → (3 < length (voters d))%nat ∧ i ≠ me ∧ ∀ x, x ∈ voters d → rd_id x ∈ lost → out !! rd_id x = Some x) →
  (∀ r, r ∈ inc → r ∈ d ∧ has_role Learner r ∧ rd_id r ∉ lost) ∨ given inc →
  sound_change d lost me given (pre ++ [ReplaceVoters inc (values out); RemoveLearners (values out)]).
Proof.
  intros Hpre Hout Hlen Hlive Hin.
  assert (∀ inc' out', ReplaceVoters inc' out' ∈ pre ++ [ReplaceVoters inc (values out); RemoveLearners (values out)] →
    inc' = inc ∧ out' = values out) as Hacts.
  { intros inc' out' [Hx|[Hx|[Hx|Hx%elem_of_nil]%elem_of_cons]%elem_of_cons]%elem_of_app; [|by injection Hx as -> ->|done..].
    rewrite Forall_forall in Hpre. by destruct (Hpre _ Hx). }
  split.
  - intros inc' out' [-> ->]%Hacts. split; [apply values_nodup; intros i r Hi; by apply Hout in Hi as [? _]|].
    intros r [i Hi]%values_elem. by apply Hout in Hi as [_ ?].
  - intros inc' out' [-> ->]%Hacts. by rewrite values_length.
  - intros inc' out' r [-> ->]%Hacts [i Hi]%values_elem Hl. destruct (Hout i r Hi) as [<- _]. destruct (Hlive _ r Hi Hl) as (? & ? & Hx).
    split_and!; [done..|]. intros x Hv Hxl. apply values_elem. eauto.
  - by intros inc' out' [-> ->]%Hacts.
  - intros l [Hx|[Hx|[Hx|Hx%elem_of_nil]%elem_of_cons]%elem_of_cons]%elem_of_app; [|done| |done].
    + rewrite Forall_forall in Hpre. by destruct (Hpre _ Hx).
    + injection Hx as ->. right. exists inc. apply elem_of_app. right. by left.
Qed.
Definition durable_result (d : list ReplicaDesc) (lost : gset Z) (c c' : Ctx W) : Prop :=
  cx_pending_tasks c' = cx_pending_tasks c ∨
  ∃ locks acts, delegated c c' locks acts ∧ sound_change d lost (cx_replica_id c) (λ rs, ∃ n, allocates c n rs) acts.
Lemma wp_change_pend (p : M unit) c c0 d lost ms : wp p c (λ _ c', durable_result d lost c0 c') →
  wp (do* p in pend ms) c (λ _ c', durable_result d lost c0 c').
Proof. intros Hp. apply wp_bind. eapply wp_weaken; [done|]. intros u c' Hc. by apply wp_ret. Qed.
Lemma wp_pv f c (Q : unit → Ctx W → Prop) : (∀ p, Q tt (set_cx_pv p c)) → wp (on_pv f) c Q.
Proof. intros HQ r c' [= <- <-]. apply HQ. Qed.
Section Stats.
  Context (c : Ctx W) (d : list ReplicaDesc) (lost : gset Z) (s : ReplicaStats).
  Context (Hs : stats_of d lost s) (Hnd : NoDup (rd_id <$> d)) (Hcc : lt_config_change (cx_locks c) = None) (Hfree : free c (rd_id <$> d)).
  Context (Halloc : ∀ n rs, allocates c n rs → Z.of_nat (length rs) = n ∧ free c (rd_id <$> rs)).
Lemma wp_remove_sound p : wp (remove_learners (st_peers s) (offline_learners s)) (set_cx_pv p c) (λ _ c', durable_result d lost c c').
Proof.
  apply wp_change; [done|by rewrite (so_peers _ _ _ Hs)|]. intros c' Hd. right. do 2 eexists. split; [exact Hd|]. by apply sound_remove.
Qed.
Lemma wp_replace_sound c1 inc out : cx_locks c1 = cx_locks c → cx_pending_tasks c1 = cx_pending_tasks c →
  (∀ i r, out !! i = Some r → rd_id r = i ∧ r ∈ voters d) →
  (size out ≤ size inc)%nat ∨ (3 + size out ≤ length (voters d))%nat →
  (∀ i r, out !! i = Some r → i ∉ lost →
    (3 < length (voters d))%nat ∧ i ≠ cx_replica_id c ∧ ∀ x, x ∈ voters d → rd_id x ∈ lost → out !! rd_id x = Some x) →
  (∀ i r, inc !! i = Some r → r ∈ d ∧ has_role Learner r ∧ rd_id r ∉ lost) →
  wp (replace_voters (st_peers s) inc out) c1 (λ _ c', durable_result d lost c c').
Proof.
  intros El Ep Hout Hlen Hlive Hin. apply wp_change; [by rewrite El|unfold free; rewrite El; by rewrite (so_peers _ _ _ Hs)|]. intros c' Hd. right.
  exists (st_peers s). eexists. split; [unfold delegated in *; rewrite <- Ep; exact Hd|]. apply (sound_replace _ _ _ _ []); [done..|by rewrite values_length|done|].
  left. intros r [i Hi]%values_elem. by eapply Hin.
Qed.
Lemma wp_cure_sound c1 n inc : cx_locks c1 = cx_locks c → cx_pending_tasks c1 = cx_pending_tasks c → allocates c n inc →
  (size (offline_voters s) ≤ Z.to_nat n)%nat →
  wp (cure_group (st_peers s) inc (offline_voters s)) c1 (λ _ c', durable_result d lost c c').
Proof.
  intros El Ep Ha Hn. destruct (Halloc n inc Ha) as [Hlen Hinc]. apply wp_change_next; [by rewrite El| |].
  - unfold free. rewrite El. rewrite (so_peers _ _ _ Hs). intros r [Hr|Hr]%elem_of_app; [by apply Hfree|by apply Hinc].
  - intros c' Hd. right. do 2 eexists. split; [unfold delegated in *; rewrite <- Ep; exact Hd|].
    apply (sound_replace _ _ _ _ [CreateReplicas_new inc; AddLearners inc]).
    + by repeat constructor.
    + intros i r Hi. split; [by eapply class_map_id, Hi; apply Hs|by eapply class_voter, Hi; apply Hs].
    + left. lia.
    + intros i r Hi Hl. apply (so_off _ _ _ Hs) in Hi as (_ & _ & _ & Hb). by apply bool_decide_eq_true in Hb.
    + right. by exists n.
Qed.
Lemma wp_handle_stats : wp (handle_replica_stats s) c (λ _ c', durable_result d lost c c').
Proof.
  assert (Ht := stats_total d lost s Hs Hnd). destruct Hs as [Hp Hon Hoff Honl Hoffl].
  unfold handle_replica_stats. apply wp_bind, wp_pv. intros p.
  destruct (negb (bool_decide (offline_learners s = ∅))) eqn:Eol; [by apply wp_change_pend, wp_remove_sound|].
  cbv zeta. destruct (Nat.ltb_spec 3 (size (online_voters s) + size (offline_voters s))) as [Hgt|Hle].
  { set (ex := (size (online_voters s) + size (offline_voters s) - 3)%nat). apply wp_bind. rewrite take_some_size.
    destruct (Nat.ltb_spec (ex `min` size (offline_voters s)) ex) as [Hlt|Hge].
    - rewrite take_some_all by lia. apply wp_select; [lia|]. intros m Hsz Hm Hk. apply wp_change_pend, wp_replace_sound; [done..| | | |].
      + intros i r [[_ Hi]|Hi]%Hm; (split; [by eapply class_map_id, Hi|by eapply class_voter, Hi]).
      + right. lia.
      + intros i r [[Hne Hi]|Hi]%Hm Hl; [|apply Hoff in Hi as (_ & _ & _ & Hb); by apply bool_decide_eq_true in Hb].
        split_and!; [lia|done|]. intros x [Hr Hx]%list_elem_of_filter Hxl.
        assert (offline_voters s !! rd_id x = Some x) as Hxo by (apply Hoff; split_and!; try done; by apply bool_decide_eq_true).
        destruct (Hk (rd_id x)) as [y Hy]; [by eexists|]. rewrite Hy. f_equal. apply Hm in Hy as [[_ Hy]|Hy]; [|congruence].
        apply Hon in Hy as (_ & Ey & _ & Hb). apply bool_decide_eq_false in Hb. done.
      + intros i r Hi. by rewrite lookup_empty in Hi.
    - apply wp_ret, wp_change_pend, wp_replace_sound; [done..| | | |].
      + intros i r Hi. assert (Ho := lookup_weaken _ _ _ _ Hi (take_some_sub _ _)). split; [by eapply class_map_id, Ho|by eapply class_voter, Ho].
      + right. rewrite take_some_size. lia.
      + intros i r Hi Hl. assert (Ho := lookup_weaken _ _ _ _ Hi (take_some_sub _ _)). apply Hoff in Ho as (_ & _ & _ & Hb).
        by apply bool_decide_eq_true in Hb.
      + intros i r Hi. by rewrite lookup_empty in Hi. }
  destruct (Nat.ltb_spec (size (online_voters s)) 3) as [Hfew|Hmany].
  - destruct (negb (bool_decide (online_learners s = ∅))) eqn:El.
    + apply wp_change_pend, wp_replace_sound; [done..| | | |].
      * intros i r Hi. assert (Ho := lookup_weaken _ _ _ _ Hi (take_some_sub _ _)). split; [by eapply class_map_id, Ho|by eapply class_voter, Ho].
      * left. rewrite !take_some_size. lia.
      * intros i r Hi Hl. assert (Ho := lookup_weaken _ _ _ _ Hi (take_some_sub _ _)). apply Hoff in Ho as (_ & _ & _ & Hb).
        by apply bool_decide_eq_true in Hb.
      * intros i r Hi. assert (Ho := lookup_weaken _ _ _ _ Hi (take_some_sub _ _)). apply Honl in Ho as (? & <- & ? & Hb).
        by apply bool_decide_eq_false in Hb.
    + apply wp_bind, wp_alloc. intros [inc|] w' Ha; [|by apply wp_ret; left].
      apply wp_change_pend. eapply (wp_cure_sound _ (Z.of_nat (3 - size (online_voters s)))); [done..|by apply Ha|lia].
  - destruct (negb (bool_decide (online_learners s = ∅))) eqn:El; [|by apply wp_ret; left].
    assert (offline_voters s = ∅) as Hoe by (apply map_size_empty_iff; lia).
    assert (offline_learners s = ∅) as Hole by (apply negb_false_iff in Eol; by apply bool_decide_eq_true in Eol).
    unfold debug_assert. rewrite Hoe, Hole, !bool_decide_true by done. replace (size (online_voters s) =? 3)%nat with true by (symmetry; apply Nat.eqb_eq; lia).
    do 3 (apply wp_bind, wp_lift). rewrite <- Hole. by apply wp_change_pend, wp_remove_sound.
Qed.
End Stats.
(** A descriptor as the group has it, and a root that gives what it is asked
    for, with identifiers that nobody has. *)
Record poll_ready (c : Ctx W) : Prop := {
  pr_ids : NoDup (rd_id <$> gd_replicas (pv_desc (cx_pv c)));
  pr_roles : Forall (λ r, is_Some (ReplicaRole_from_i32 (rd_role r))) (gd_replicas (pv_desc (cx_pv c)));
  pr_alloc : ∀ n rs, allocates c n rs → Z.of_nat (length rs) = n ∧ free c (rd_id <$> rs) }.
Lemma wp_durable c : poll_ready c →
  wp (durable_poll knobs) c (λ _ c', durable_result (gd_replicas (pv_desc (cx_pv c))) (lost_peers (cx_pv c)) c c').
Proof.
  intros [Hnd Hro Hal]. unfold durable_poll. destruct (disable_scheduler_durable_task knobs); [by apply wp_ret; left|].
  apply wp_bind, wp_ask. cbv zeta. change (id c) with c. destruct (_ || _) eqn:Eb; [by apply wp_ret; left|]. apply orb_false_iff in Eb as [_ Hcc].
  apply wp_bind. destruct (classify_total (cx_locks c) (lost_peers (cx_pv c)) _ Hro ReplicaStats_default) as [o Ho]. rewrite Ho. apply wp_lift.
  destruct o as [s|]; [|by apply wp_ret; left].
  apply (classify_ok _ _ _ []) in Ho as [Hs Hfree]; [|apply stats_of_nil|done]. eapply wp_handle_stats; [exact Hs|exact Hnd| | |exact Hal].
  - unfold has_config_change in Hcc. by destruct (lt_config_change (cx_locks c)).
  - intros i Hi. apply list_elem_of_fmap in Hi as (x & -> & Hx). by apply Hfree.
Qed.
Abbreviation safe p c := (wp p c (λ _ _, True)).
Lemma nopanic_then {A B} (p : M A) (k : A → M B) c : safe p c → (∀ a c', safe (k a) c') → safe (prog_bind p k) c.
Proof. intros Hp Hk. apply wp_bind. eapply wp_weaken; [done|]. intros a c' _. apply Hk. Qed.
Lemma nopanic_ret {A} (a : A) c : safe (ret a) c.
Proof. by apply wp_ret. Qed.
Lemma nopanic_ask {A} (f : Ctx W → A) c : safe (ask f) c.
Proof. by apply wp_ask. Qed.
Lemma nopanic_pv f c : safe (on_pv f) c.
Proof. by apply wp_pv. Qed.
Lemma nopanic_call {E A} (p : prog W E A) c : (∀ w w', p w ≠ Some (Panic, w')) → safe (call_env p) c.
Proof. intros Hp. by apply wp_call. Qed.
Lemma nopanic_try_change id e rs inc out c : safe (try_config_change id e rs inc out) c.
Proof. intros r c'. unfold try_config_change. by destruct (table_config_change _ _ _ _ _ _) as [[l t]|]; intros [= <- <-]. Qed.
Lemma nopanic_try_lock id e rs inc out c : safe (try_lock id e rs inc out) c.
Proof. intros r c'. unfold try_lock. by destruct (table_lock _ _ _ _ _ _) as [[l t]|]; intros [= <- <-]. Qed.
Lemma nopanic_next c : safe next_task_id c.
Proof. by apply wp_next. Qed.
Lemma nopanic_delegate t c : safe (delegate t) c.
Proof. by apply wp_delegate. Qed.
(** Takes a program apart into the above. *)
Ltac safely :=
  repeat first
    [ apply nopanic_ret | apply nopanic_ask | apply nopanic_pv | apply nopanic_next | apply nopanic_delegate | apply nopanic_try_change | apply nopanic_try_lock
    | apply nopanic_call; intros; first [apply go_execute | apply go_alloc | apply go_create | apply go_remove | apply go_list | apply go_clear]
    | apply nopanic_then; [|intros ? ?]
    | match goal with |- wp (match ?x with _ => _ end) _ _ => destruct x end
    | match goal with |- wp (if ?x then _ else _) _ _ => destruct x end ].
Lemma nopanic_promote c : poll_ready c → safe promote_poll c.
Proof.
  intros [_ _ Hal]. apply wp_bind, wp_ask. change (id c) with c. destruct (has_config_change (cx_locks c)) eqn:Ecc; [apply nopanic_ret|].
  destruct (gd_replicas _) as [|former [|? ?]]; [apply nopanic_ret| |apply nopanic_ret].
  destruct (is_replica_locked _ _) eqn:El; [apply nopanic_ret|]. apply wp_bind. destruct (3 <=? _); [|by apply wp_ret, nopanic_ret].
  apply wp_bind, wp_bind, wp_alloc. intros [rs|] w' Ha; [|by do 2 apply wp_ret; apply nopanic_ret]. destruct (Hal _ _ (Ha _ eq_refl)) as [_ Hf].
  apply wp_bind, wp_next. intros i c1 (El1 & _) _ _. apply wp_bind, wp_must_change.
  - rewrite El1. unfold has_config_change in Ecc. cbn. by destruct (lt_config_change (cx_locks c)).
  - unfold free. rewrite El1. intros r [->|Hr]%elem_of_cons; [|by apply Hf]. apply bool_decide_eq_false in El. by apply eq_None_not_Some.
  - intros c2 _. apply wp_bind, wp_delegate. intros c3 _. by do 3 apply wp_ret.
Qed.
Lemma nopanic_dismiss_all dismiss desc states : ∀ orphans c, safe (dismiss_all dismiss desc states orphans) c.
Proof.
  induction states as [|s states IH]; intros orphans c; cbn [dismiss_all]; [apply nopanic_ret|]. apply nopanic_then; [apply nopanic_ask|intros c0 c1].
  destruct (_ || _); [apply IH|]. apply nopanic_then; [|intros o c2; apply IH]. unfold dismiss_orphan_replica. safely.
Qed.
Lemma nopanic_create_from g todo : ∀ i n c, safe (create_from g todo i n) c.
Proof.
  induction todo as [|r todo IH]; intros i n c; cbn [create_from]; [apply nopanic_ret|]. apply nopanic_then; [safely|]. intros [e|u] c'; [|apply IH].
  destruct (_ && _); apply nopanic_ret.
Qed.
Lemma nopanic_setup id a c : safe (action_setup id a) c.
Proof.
  destruct a; cbn [action_setup]; unfold change_and_watch, try_execute_change, replica_epoch, watch_desc; [|safely..].
  apply nopanic_then; [apply nopanic_ask|intros g c']. apply nopanic_create_from.
Qed.
Lemma nopanic_action_poll id a c : safe (action_poll id a) c.
Proof. destruct a; cbn [action_poll]; unfold wait_descriptor, watch_desc; safely. Qed.
Lemma nopanic_action_task t l c : stage_ok (ActionTaskWithLocks l t) → safe (action_task_poll t) c.
Proof.
  cbn. unfold action_task_poll. destruct (at_stage t) as [i|i]; intros Hst.
  - destruct (at_actions t !! i); [|apply nopanic_ret]. apply nopanic_then; [apply nopanic_setup|intros [s a'] c'; apply nopanic_ret].
  - apply lookup_lt_is_Some_2 in Hst as [a ->]. apply wp_bind. apply wp_lift. apply nopanic_then; [apply nopanic_action_poll|intros s c'; apply nopanic_ret].
Qed.
Lemma task_poll_safe jobs c id t : ctx_ok jobs c → poll_ready c → jobs !! id = Some t → safe (task_poll knobs t) c.
Proof.
  intros Hc Hr Hj. assert (Hst := to_stage _ _ _ (co_table _ _ Hc) _ _ (job_live _ _ _ _ Hc Hj)).
  destruct t as [| | | | |orphans| |locks inner]; cbn [task_poll].
  - unfold watch_states_poll, pend. safely.
  - apply nopanic_then; [|intros; apply nopanic_ret]. intros r c'. unfold watch_raft_poll. destruct (gs_raft_group_state (cx_world c)) as [s w].
    revert r c'. fold (wp (do* match s with Some peers => let* t := sched_now in on_pv (raft_update t peers) | None => ret tt end in pend 1000)
      (set_cx_world w c) (λ _ _, True)). unfold sched_now, pend. safely.
  - unfold watch_desc_poll, pend. safely.
  - apply nopanic_then; [by apply nopanic_promote|intros; apply nopanic_ret].
  - apply nopanic_then; [|intros; apply nopanic_ret]. eapply wp_weaken; [by apply wp_durable|done].
  - apply nopanic_then; [|intros [s o] c'; apply nopanic_ret]. unfold orphan_poll. destruct (disable_scheduler_remove_orphan_replica_task knobs); [apply nopanic_ret|].
    apply nopanic_then; [apply nopanic_ask|intros c0 c1]. destruct (gd_replicas _); [unfold watch_desc; safely|].
    apply nopanic_then; [apply nopanic_ask|intros t c2]. apply nopanic_then; [apply nopanic_ask|intros t' c3]. apply nopanic_then; [apply nopanic_dismiss_all|intros o c4; apply nopanic_ret].
  - unfold migration_poll, start_migration. safely.
  - apply nopanic_then; [by apply (nopanic_action_task inner locks)|]. intros [s inner'] c'. destruct s; [apply nopanic_ret..|]. by intros r c'' [= <- <-].
Qed.
End Wp.
(** ** The scheduler *)
Section Scheduler.
  Context {W : Type} {GE : GroupSchedEnv W} `{HashOrder} `{Codec V1Error} (knobs : Knobs).
  Abbreviation sched := (Scheduler W).
(** What happens to a scheduler: the polls of its tasks, one after another, and
    between them what the round does, requests to move replicas, and whatever
    the rest of the world does.  A poll starts with identifiers left. *)
Definition has_room (s : sched) : Prop := cx_next_task_id (sd_ctx s) + poll_cost (sd_ctx s) ≤ u64_MAX.
Inductive sched_step : sched → sched → Prop :=
  | ss_poll id t r s s' : sd_jobs s !! id = Some t → has_room s → poll_once knobs id t s = Some (Ok r, s') → sched_step s s'
  | ss_observe s : sched_step s (observe s)
  | ss_collect s : sched_step s (collect_active_tasks s).2
  | ss_wait s : sched_step s (wait_new_events s)
  | ss_install s : sched_step s (install_tasks (take_pending s).1 (take_pending s).2)
  | ss_assign m s : sched_step s (set_sd_ctx (set_cx_pv (assign m (cx_pv (sd_ctx s))) (sd_ctx s)) s)
  | ss_world w s : sched_step s (set_sd_ctx (set_cx_world w (sd_ctx s)) s).
Definition sched_ok (s : sched) : Prop := ctx_ok (sd_jobs s) (sd_ctx s).
Lemma sched_ok_same s s' : sched_ok s → sd_jobs s' = sd_jobs s → cx_next_task_id (sd_ctx s') = cx_next_task_id (sd_ctx s) →
  cx_pending_tasks (sd_ctx s') = cx_pending_tasks (sd_ctx s) →
  lt_locked_replicas (cx_locks (sd_ctx s')) = lt_locked_replicas (cx_locks (sd_ctx s)) →
  lt_config_change (cx_locks (sd_ctx s')) = lt_config_change (cx_locks (sd_ctx s)) → sched_ok s'.
Proof.
  intros [Ht Hp] Ej En Ep El Ec. split; unfold live in *; rewrite ?Ej, ?En, ?Ep; [|done]. by eapply table_ok_locks.
Qed.
Lemma install_tasks_jobs tasks : ∀ s : sched, sd_jobs (install_tasks tasks s) = with_tasks tasks (sd_jobs s) ∧ sd_ctx (install_tasks tasks s) = sd_ctx s.
Proof. induction tasks as [|t tasks IH]; intros s; cbn; [done|]. destruct (IH (mkScheduler (sd_ctx s) (sd_incoming_tasks s ++ [task_id t])
  (<[task_id t := t]> (sd_jobs s)) (sd_timer s) (sd_observed s))) as [-> ->]. done. Qed.
Lemma step_ok s s' : sched_step s s' → sched_ok s → 0 ≤ cx_next_task_id (sd_ctx s) → sched_ok s' ∧ 0 ≤ cx_next_task_id (sd_ctx s').
Proof.
  intros St Hs Hpos. destruct St as [id t r s s' Hj Hroom E|s|s|s|s|m s|w s].
  - unfold poll_once in E. destruct (task_poll knobs t (sd_ctx s)) as [[[[st t']|e|] c]|] eqn:Ep; [|done..].
    apply (task_poll_ok knobs (sd_jobs s) _ id) in Ep as [Hb Hok]; try done.
    specialize (Hok _ eq_refl). unfold jobs_after in Hok. cbn in Hok. destruct st; injection E as <- <-; cbn; (split; [done|lia]).
  - split; [|unfold observe, take_updated_states; destruct (lt_states_updated _); cbn; lia].
    unfold observe, take_updated_states. destruct (lt_states_updated _); [by eapply sched_ok_same|done].
  - unfold collect_active_tasks, take_fired_tasks. destruct (take_fired _ _ _ _) as [[h i] res]. cbn. split; [by eapply sched_ok_same|lia].
  - unfold wait_new_events. destruct (sd_incoming_tasks s); cbn; (split; [by eapply sched_ok_same|lia]).
  - destruct (install_tasks_jobs (take_pending s).1 (take_pending s).2) as [Ej Ec]. split; [|rewrite Ec; cbn; lia].
    unfold sched_ok. rewrite Ej, Ec. split; cbn; [exact (co_table _ _ Hs)|]. by intros u ?%elem_of_nil.
  - split; [|cbn; lia]. by eapply sched_ok_same.
  - split; [|cbn; lia]. by eapply sched_ok_same.
Qed.
Lemma with_tasks_lookup l : ∀ m i t, with_tasks l m !! i = Some t → (t ∈ l ∧ task_id t = i) ∨ m !! i = Some t.
Proof.
  induction l as [|u l IH]; intros m i t Ht; cbn in *; [by right|]. apply IH in Ht as [[Ht Hi]|Ht]; [left; split; [by right|done]|].
  apply lookup_insert_Some in Ht as [[<- <-]|[_ Ht]]; [left; split; [by left|done]|by right].
Qed.
Lemma start_ok (w : W) group replica term p : sched_ok (start_scheduler w group replica term p).
Proof.
  assert (∀ i t, with_tasks group_tasks ∅ !! i = Some t → task_id t = i ∧ locks_of t = [] ∧ changes t = false ∧ stage_ok t ∧ i < 10) as Hb.
  { intros i t [[Ht <-]|Ht]%with_tasks_lookup; [|by rewrite lookup_empty in Ht]. unfold group_tasks in Ht.
    repeat (apply elem_of_cons in Ht as [->|Ht]; [by split_and!|]). by apply elem_of_nil in Ht. }
  split; [|by intros t ?%elem_of_nil]. change (live _ _) with (with_tasks group_tasks ∅). split.
  - intros i t Ht. by apply Hb.
  - intros i t Ht. by apply (Hb i).
  - intros i t Ht. by apply (Hb i t).
  - intros r. split; [intros [? Hr]; cbn in Hr; by rewrite lookup_empty in Hr|]. intros (i & t & (_ & Hl & _)%Hb & Hr). rewrite Hl in Hr. by apply elem_of_nil in Hr.
  - intros i j ti tj r (_ & Hl & _)%Hb _ Hr. rewrite Hl in Hr. by apply elem_of_nil in Hr.
  - intros i j ti tj (_ & _ & Hc & _)%Hb _ Hr. congruence.
  - intros i t (_ & _ & Hc & _)%Hb Hr. congruence.
  - done.
Qed.
Lemma reachable_ok w group replica term p s : rtc sched_step (start_scheduler w group replica term p) s → sched_ok s ∧ 0 ≤ cx_next_task_id (sd_ctx s).
Proof.
  intros St. assert (sched_ok (start_scheduler w group replica term p) ∧ 0 ≤ cx_next_task_id (sd_ctx (start_scheduler w group replica term p))) as Hst.
  { split; [apply start_ok|done]. }
  revert Hst. induction St as [|s1 s2 s3 St _ IH]; [done|]. intros [H1 H2]. apply IH. by apply (step_ok s1).
Qed.

(** [advance] takes such steps. *)
Lemma poll_loop_steps fuel : ∀ id t s s' s0, rtc sched_step s0 s → (∀ s1, rtc sched_step s0 s1 → has_room s1) → sd_jobs s !! id = Some t →
  poll_loop knobs fuel id t s = Some (Ok tt, s') → rtc sched_step s0 s'.
Proof.
  induction fuel as [|fuel IH]; intros id t s s' s0 St Hroom Hj E; [done|]. cbn [poll_loop] in E. unfold prog_bind in E.
  destruct (poll_once knobs id t s) as [[[[again t']|e|] s1]|] eqn:Ep; [|done..].
  assert (rtc sched_step s0 s1) as St1 by (eapply rtc_r; [exact St|by eapply ss_poll; [exact Hj|by apply Hroom|exact Ep]]).
  destruct again; [|by injection E as <-]. eapply IH; [exact St1|done| |exact E].
  unfold poll_once in Ep. destruct (task_poll knobs t (sd_ctx s)) as [[[[[d| |] t1]|e|] c]|]; try done; injection Ep as <- <-. apply lookup_insert_eq.
Qed.
Lemma advance_each_steps fuel ids : ∀ s s' s0, rtc sched_step s0 s → (∀ s1, rtc sched_step s0 s1 → has_room s1) →
  advance_each knobs fuel ids s = Some (Ok tt, s') → rtc sched_step s0 s'.
Proof.
  induction ids as [|id ids IH]; intros s s' s0 St Hroom E; cbn [advance_each] in E; [by injection E as <-|]. unfold prog_bind in E.
  destruct (advance_task knobs fuel id s) as [[[[]|e|] s1]|] eqn:Ea; [|done..]. eapply IH; [|exact Hroom|exact E].
  unfold advance_task in Ea. destruct (sd_jobs s !! id) as [t|] eqn:Ej; [|by injection Ea as <-]. unfold prog_bind in Ea.
  destruct (poll_loop knobs fuel id t s) as [[[[]|e|] s2]|] eqn:El; [|done..]. injection Ea as <-.
  eapply rtc_r; [by eapply poll_loop_steps|apply ss_observe].
Qed.
Theorem advance_steps fuel s s' : (∀ s1, rtc sched_step s s1 → has_room s1) → scheduler_advance knobs fuel s = Some (Ok tt, s') → rtc sched_step s s'.
Proof.
  intros Hroom E. unfold scheduler_advance in E. destruct (collect_active_tasks (wait_new_events s)) as [active s1] eqn:Ec. unfold prog_bind in E.
  destruct (advance_each knobs fuel _ s1) as [[[[]|e|] s2]|] eqn:Ea; [|done..].
  destruct (take_pending s2) as [tasks s3] eqn:Et. injection E as <-.
  assert (rtc sched_step s s1) as St1.
  { eapply rtc_l; [apply ss_wait|]. eapply rtc_l; [apply ss_collect|]. rewrite Ec. apply rtc_refl. }
  eapply rtc_r; [by eapply advance_each_steps|]. assert (Hi := ss_install s2). by rewrite Et in Hi.
Qed.

Context {GO : GroupSchedEnvOk GE}.
(** C26: However the polls of the scheduler's tasks, requests to move replicas
    and the rest of the world interleave, a replica is locked exactly while one
    live task holds it, no two tasks hold the same replica, at most one live
    task changes the configuration of the group and the table says so; and no
    poll panics, as long as the descriptor is well formed and the root hands
    out as many fresh replicas as it is asked for. *)
Theorem group_locks_exclusive w group replica term p s : rtc sched_step (start_scheduler w group replica term p) s →
  let tasks := with_tasks (cx_pending_tasks (sd_ctx s)) (sd_jobs s) in
  let locks := cx_locks (sd_ctx s) in
  (∀ r, is_Some (lt_locked_replicas locks !! r) ↔ ∃ i t, tasks !! i = Some t ∧ r ∈ locks_of t) ∧
  (∀ i j ti tj r, tasks !! i = Some ti → tasks !! j = Some tj → r ∈ locks_of ti → r ∈ locks_of tj → i = j) ∧
  (∀ i j ti tj, tasks !! i = Some ti → tasks !! j = Some tj → changes ti = true → changes tj = true → i = j) ∧
  (∀ i t, tasks !! i = Some t → changes t = true → has_config_change locks = true) ∧
  (∀ i t s', sd_jobs s !! i = Some t → poll_ready (sd_ctx s) → poll_once knobs i t s ≠ Some (Panic, s')).
Proof.
  intros [Hs _]%reachable_ok tasks locks. destruct (co_table _ _ Hs) as [Hid Hst Hfr Hlk Hdj Hsg Hch How]. split_and!; [done..| |].
  - intros i t Ht Hc. destruct (Hch i t Ht Hc) as [o Ho]. unfold has_config_change, locks. by rewrite Ho.
  - intros i t s' Hj Hr E. assert (Hsafe := task_poll_safe knobs (sd_jobs s) (sd_ctx s) i t Hs Hr Hj). unfold poll_once in E.
    destruct (task_poll knobs t (sd_ctx s)) as [[[[st t']|e|] c]|] eqn:Ep; [by destruct st|done| |done]. by apply Hsafe in Ep.
Qed.
(** C27: What keeps a group durable is safe: a change that the durable task
    starts removes only voters of the group, and so many that at least three
    stay or as many come as go; a voter that is not lost goes only when there
    are more than three, after all the lost ones, and it is never the leader;
    new voters are live learners or come from the root; and the task neither
    panics nor starts two changes at once. *)
Theorem durable_change_sound (c : Ctx W) r c' : poll_ready c → durable_poll knobs c = Some (r, c') →
  r ≠ Panic ∧ ∀ st, r = Ok st →
    cx_pending_tasks c' = cx_pending_tasks c ∨
    ∃ locks acts, delegated c c' locks acts ∧
      sound_change (gd_replicas (pv_desc (cx_pv c))) (lost_peers (cx_pv c)) (cx_replica_id c) (λ rs, ∃ n, allocates c n rs) acts.
Proof. intros Hr E. apply (wp_durable knobs c Hr) in E. destruct r; (split; [done|]); [by intros ? [= ->]|done..]. Qed.
End Scheduler.

(** ** Timers *)
(** A task has at most one deadline, the last that was set. *)
Inductive timer_op := TAdd (task_id deadline : Z) | TFire (now : Z).
Fixpoint timer_run (ops : list timer_op) (t : TaskTimer) : list (gset Z) :=
  match ops with
  | [] => []
  | TAdd i d :: ops' => timer_run ops' (timer_add i d t)
  | TFire now :: ops' => let '(fired, t) := take_fired_tasks now t in fired :: timer_run ops' t
  end.
Fixpoint deadlines_run (ops : list timer_op) (m : gmap Z Z) : list (gset Z) :=
  match ops with
  | [] => []
  | TAdd i d :: ops' => deadlines_run ops' (<[i := d]> m)
  | TFire now :: ops' => dom (filter (λ p, p.2 ≤ now) m) :: deadlines_run ops' (filter (λ p, now < p.2) m)
  end.
Definition earlier (a b : Deadline) : Prop := dl_deadline a ≤ dl_deadline b.
Record timer_rel (heap : list Deadline) (indexes : gmap Z Z) (m : gmap Z Z) : Prop := {
  tr_sorted : StronglySorted earlier heap;
  tr_nodup : NoDup (dl_timer_id <$> heap);
  tr_index : ∀ i tid, indexes !! i = Some tid → is_Some (m !! i);
  tr_heap : ∀ i d, m !! i = Some d → ∃ tid, indexes !! i = Some tid ∧ mkDeadline d tid i ∈ heap }.
Lemma heap_push_perm d heap : heap_push d heap ≡ₚ d :: heap.
Proof.
  induction heap as [|e heap IH]; cbn; [done|]. destruct (deadline_before d e); [done|]. rewrite IH. apply Permutation_swap.
Qed.
Lemma heap_push_sorted d heap : StronglySorted earlier heap → StronglySorted earlier (heap_push d heap).
Proof.
  induction 1 as [|e heap Hs IH Hall]; cbn; [by repeat constructor|]. destruct (deadline_before d e) eqn:E.
  - constructor; [by constructor|]. assert (earlier d e) by (unfold deadline_before, earlier in *; lia). constructor; [done|].
    eapply Forall_impl; [exact Hall|]. unfold earlier in *. intros x. lia.
  - constructor; [done|]. rewrite (heap_push_perm d heap). constructor; [|done]. unfold deadline_before, earlier in *. lia.
Qed.
Lemma timer_rel_add heap indexes m next i d : timer_rel heap indexes m → Forall (λ e, dl_timer_id e < next) heap →
  timer_rel (heap_push (mkDeadline d next i) heap) (<[i := next]> indexes) (<[i := d]> m).
Proof.
  intros [Hs Hnd Hi Hh] Hf. split.
  - by apply heap_push_sorted.
  - rewrite heap_push_perm. rewrite fmap_cons. apply NoDup_cons. split; [|done]. intros (e & He & Hin)%list_elem_of_fmap.
    rewrite Forall_forall in Hf. specialize (Hf e Hin). cbn in He. lia.
  - intros j tid [[<- _]|[Hne Hj]]%lookup_insert_Some; [rewrite lookup_insert_eq; by eexists|]. rewrite lookup_insert_ne by done. by eapply Hi.
  - intros j x [[<- <-]|[Hne Hj]]%lookup_insert_Some.
    + exists next. rewrite lookup_insert_eq, heap_push_perm. split; [done|by left].
    + destruct (Hh j x Hj) as (tid & Ht & Hin). exists tid. rewrite lookup_insert_ne, heap_push_perm by done. split; [done|by right].
Qed.
Lemma same_timer heap a b : NoDup (dl_timer_id <$> heap) → a ∈ heap → b ∈ heap → dl_timer_id a = dl_timer_id b → a = b.
Proof.
  intros Hnd [i Hi]%list_elem_of_lookup [j Hj]%list_elem_of_lookup E.
  assert (i = j) as ->; [|congruence]. apply (NoDup_lookup (dl_timer_id <$> heap) i j (dl_timer_id a)); [done|..]; rewrite list_lookup_fmap.
  - by rewrite Hi.
  - rewrite Hj. cbn. congruence.
Qed.
Lemma take_fired_ok now heap : ∀ indexes m res heap' indexes' res', timer_rel heap indexes m →
  take_fired now heap indexes res = (heap', indexes', res') →
  timer_rel heap' indexes' (filter (λ p, now < p.2) m) ∧ res' = res ∪ dom (filter (λ p, p.2 ≤ now) m) ∧ ∃ l, heap = l ++ heap'.
Proof.
  induction heap as [|e heap IH]; intros indexes m res heap' indexes' res' [Hs Hnd Hi Hh] E; cbn in E.
  { injection E as <- <- <-. assert (m = ∅) as ->.
    { apply map_empty. intros i. apply eq_None_not_Some. intros [d Hd]. destruct (Hh i d Hd) as (? & _ & Hin). by apply elem_of_nil in Hin. }
    rewrite !map_filter_empty. split_and!; [|set_solver|by exists []]. split; [done..|]. intros i d Hd. by rewrite lookup_empty in Hd. }
  apply StronglySorted_inv in Hs as [Hs Hall]. rewrite fmap_cons in Hnd. assert (Hnd' := Hnd). apply NoDup_cons in Hnd as [Hne Hnd].
  destruct (Z.ltb_spec now (dl_deadline e)) as [Hlt|Hle].
  { injection E as <- <- <-. assert (∀ i d, m !! i = Some d → now < d) as Hall'.
    { intros i d Hd. destruct (Hh i d Hd) as (tid & _ & [He|Hin]%elem_of_cons); [by rewrite <- He in Hlt|].
      rewrite Forall_forall in Hall. specialize (Hall _ Hin). unfold earlier in Hall. cbn in Hall. lia. }
    rewrite (map_filter_id (λ p, now < p.2)) by done.
    assert (filter (λ p, p.2 ≤ now) m = ∅) as ->.
    { apply map_empty. intros i. apply map_lookup_filter_None. right. intros d Hd. apply Hall' in Hd. cbn. lia. }
    split_and!; [by split; [constructor|rewrite fmap_cons|..]|set_solver|by exists []]. }
  case_bool_decide as Ei.
  - destruct (Hi _ _ Ei) as [d Hd]. destruct (Hh _ _ Hd) as (tid & Ht & Hin). rewrite Ei in Ht. injection Ht as <-.
    assert (e = mkDeadline d (dl_timer_id e) (dl_task_id e)) as He.
    { eapply (same_timer (e :: heap)); [by rewrite fmap_cons|by left|done|done]. }
    assert (dl_deadline e = d) as Hed by (by rewrite He). clear Hin.
    apply (IH _ (delete (dl_task_id e) m)) in E as (Hr & -> & l & ->).
    + assert (filter (λ p, now < p.2) (delete (dl_task_id e) m) = filter (λ p, now < p.2) m) as <-; [|split_and!; [done| |by exists (e :: l)]].
      * apply map_eq. intros i. apply option_eq. intros x. rewrite !map_lookup_filter_Some, lookup_delete_Some. cbn. split; [naive_solver|].
        intros [Hx Hlt]. split_and!; [|done..]. intros <-. rewrite Hd in Hx. injection Hx as <-. lia.
      * apply set_eq. intros i. rewrite !elem_of_union, elem_of_singleton, !elem_of_dom. unfold is_Some.
        setoid_rewrite map_lookup_filter_Some. setoid_rewrite lookup_delete_Some. cbn. split.
        -- intros [[->|Hres]|(x & (Hn & Hx) & Hxn)]; [|by left|right; eauto]. right. exists d. split; [done|lia].
        -- intros [Hres|(x & Hx & Hxn)]; [by auto|]. destruct (decide (i = dl_task_id e)) as [->|Hn]; [by auto|]. right. exists x. split_and!; [congruence|done..].
    + split; [done..| |].
      * intros i tid [Hn Hti]%lookup_delete_Some. rewrite lookup_delete_ne by done. by eapply Hi.
      * intros i x [Hn Hx]%lookup_delete_Some. destruct (Hh i x Hx) as (tid & Hti & [Hee|Hin]%elem_of_cons); [by rewrite <- Hee in Hn|].
        exists tid. by rewrite lookup_delete_ne.
  - apply (IH _ m) in E as (Hr & -> & l & ->); [split_and!; [done..|by exists (e :: l)]|]. split; [done..|].
    intros i x Hx. destruct (Hh i x Hx) as (tid & Hti & [Hee|Hin]%elem_of_cons); [|by exists tid]. rewrite <- Hee in Ei. cbn in Ei. congruence.
Qed.
Lemma timers_agree ops : ∀ t m, timer_rel (tt_timer_heap t) (tt_timer_indexes t) m →
  Forall (λ e, dl_timer_id e < tt_next_timer_id t) (tt_timer_heap t) → 0 ≤ tt_next_timer_id t →
  tt_next_timer_id t + Z.of_nat (length ops) ≤ u64_MAX → timer_run ops t = deadlines_run ops m.
Proof.
  induction ops as [|[i d|now] ops IH]; intros t m Hr Hf Hpos Hroom; [done| |]; cbn [length] in Hroom.
  - cbn [timer_run deadlines_run]. assert (u64_add (tt_next_timer_id t) 1 = tt_next_timer_id t + 1) as En.
    { unfold u64_add. rewrite u64_wrap_small; [done|]. unfold u64_ok. lia. }
    apply IH; unfold timer_add; cbn; rewrite ?En; [by apply timer_rel_add| |lia|lia].
    rewrite heap_push_perm. constructor; [cbn; lia|]. eapply Forall_impl; [exact Hf|]. intros e. cbn. lia.
  - cbn [timer_run deadlines_run]. unfold take_fired_tasks. destruct (take_fired now (tt_timer_heap t) (tt_timer_indexes t) ∅) as [[h x] res] eqn:E.
    apply (take_fired_ok now _ _ m) in E as (Hr' & -> & l & Hl); [|done]. f_equal; [set_solver|]. apply IH; cbn; [done| |done|lia].
    rewrite Hl in Hf. by apply Forall_app in Hf as [_ ?].
Qed.
(** C28: The timer is a map from tasks to their last deadline: whatever deadlines
    are set, also several for a task, asking which tasks are due gives exactly
    those whose last deadline is over, each once. *)
Theorem timer_refines ops : Z.of_nat (length ops) ≤ u64_MAX → timer_run ops TaskTimer_default = deadlines_run ops ∅.
Proof.
  intros Hl. apply timers_agree; [|done..]. split; cbn; [constructor|constructor|done|].
  intros i d Hd. by rewrite lookup_empty in Hd.
Qed.
