(* ===== verification/GroupSchedSamples.v ===== *)
(** * A group of three that loses a replica *)

From S2P Require Import Prelude Bytes F64 Api RocksDb Errors RootStats EvalTxn Samples RootSamples GroupSched GroupSchedProps.
#[local] Open Scope Z_scope.

(** ** The world: what the group is, whom it lost, and whether nodes answer *)
Record gworld := mkGworld { gw_desc : GroupDesc; gw_peers : gmap Z PeerState; gw_create : result CallError unit; gw_time : Z }.
Definition fresh_replicas (n : Z) : list ReplicaDesc := (λ i, mkReplicaDesc (100 + Z.of_nat i) (Z.of_nat i) 0) <$> seq 0 (Z.to_nat n).
#[global] Instance gworld_env : GroupSchedEnv gworld := {|
  gs_descriptor := gw_desc;
  gs_execute _ _ := prog_lift (Ok SChangeReplicasResp);
  gs_raft_group_state w := (Some (gw_peers w), w);
  gs_alloc_replica _ _ _ _ n := prog_lift (if n <? 0 then Err CInvalidArgument else Ok (fresh_replicas n));
  gs_create_replica _ _ _ w := Some (match gw_create w with Ok _ => Ok tt | Err e => Err e | Panic => Ok tt end, w);
  gs_remove_replica _ _ _ := prog_lift (Ok tt);
  gs_list_replica_state _ := prog_lift (Ok []);
  gs_clear_replica_state _ _ := prog_lift (Ok tt);
  gs_total_nodes _ := 4;
  gs_now := gw_time |}.
#[global] Instance gworld_env_ok : GroupSchedEnvOk gworld_env.
Proof.
  split; try done; cbn.
  - intros g e t l n w w' E. by destruct (n <? 0).
  - intros n r g w w' E. by destruct (gw_create w).
Qed.
Definition no_knobs : Knobs := mkKnobs false false false.
Definition voter (id : Z) : ReplicaDesc := mkReplicaDesc id id 0.
Definition learner (id : Z) : ReplicaDesc := mkReplicaDesc id id 1.
Definition three : GroupDesc := mkGroupDesc 1 7 [] [voter 11; voter 12; voter 13].
Definition peer (matched : Z) (lost : bool) : PeerState := mkPeerState matched (matched + 1) matched lost.
Definition lost_13 : gmap Z PeerState := {[11 := peer 9 false; 12 := peer 9 false; 13 := peer 2 true]}.
Definition sick (create : result CallError unit) : gworld := mkGworld three lost_13 create 1000.
Abbreviation gsched := (Scheduler gworld).
Definition srun {A} (p : prog gsched Error A) (s : gsched) : gsched := default s (snd <$> p s).
Lemma srun_result {A} (p : prog gsched Error A) s r : fst <$> p s = Some r → p s = Some (r, srun p s).
Proof. unfold srun. destruct (p s) as [[a s']|]; cbn; congruence. Qed.
Definition started (create : result CallError unit) : gsched := start_scheduler (sick create) 1 11 5 (GroupProviders_new three).
(** The loss is noticed, the durable task starts to cure the group. *)
Definition noticed (create : result CallError unit) : gsched := srun (poll_once no_knobs 6 WatchRaftState) (started create).
Definition curing (create : result CallError unit) : gsched := srun (poll_once no_knobs 2 DurableGroup) (noticed create).
Definition cure_task : ActionTask :=
  ActionTask_new 11 [CreateReplicas_new [mkReplicaDesc 100 0 0]; AddLearners [mkReplicaDesc 100 0 0];
    ReplaceVoters [mkReplicaDesc 100 0 0] [voter 13]; RemoveLearners [voter 13]].
Lemma poll_step id t s : sd_jobs s !! id = Some t → has_room s → fst <$> poll_once no_knobs id t s = Some (Ok (false, t)) →
  sched_step no_knobs s (srun (poll_once no_knobs id t) s).
Proof. intros Hj Hr E. eapply ss_poll; [done..|]. by apply srun_result. Qed.
Lemma curing_reached : rtc (sched_step no_knobs) (started (Ok tt)) (curing (Ok tt)).
Proof.
  apply (rtc_l _ _ (noticed (Ok tt))); [unfold noticed; apply poll_step; [computed|vm_compute; discriminate|computed]|].
  apply (rtc_l _ _ (curing (Ok tt))); [unfold curing; apply poll_step; [computed|vm_compute; discriminate|computed]|]. apply rtc_refl.
Qed.
Lemma group_locks_exclusive_witness :
  rtc (sched_step no_knobs) (started (Ok tt)) (curing (Ok tt)) ∧
  with_tasks (cx_pending_tasks (sd_ctx (curing (Ok tt)))) (sd_jobs (curing (Ok tt))) !! 11 = Some (ActionTaskWithLocks [11; 12; 13; 100] cure_task) ∧
  has_config_change (cx_locks (sd_ctx (curing (Ok tt)))) = true.
Proof.
  split; [exact (curing_reached)|]. assert (with_tasks (cx_pending_tasks (sd_ctx (curing (Ok tt)))) (sd_jobs (curing (Ok tt))) !! 11 =
    Some (ActionTaskWithLocks [11; 12; 13; 100] cure_task)) as Ht by computed.
  split; [exact Ht|].
  destruct (group_locks_exclusive no_knobs (sick (Ok tt)) 1 11 5 (GroupProviders_new three) (curing (Ok tt)) (curing_reached)) as (_ & _ & _ & Hc & _).
  apply (Hc _ _ Ht). computed.
Defined.
Lemma fresh_length n : 0 ≤ n → Z.of_nat (length (fresh_replicas n)) = n.
Proof. intros Hn. unfold fresh_replicas. rewrite length_fmap, length_seq. lia. Qed.
Lemma sick_ready : poll_ready (sd_ctx (noticed (Ok tt))).
Proof.
  split.
  - change (NoDup [11; 12; 13]). repeat (apply NoDup_cons; split; [by rewrite ?elem_of_cons, ?elem_of_nil; lia|]). apply NoDup_nil. exact I.
  - change (Forall (λ r, is_Some (ReplicaRole_from_i32 (rd_role r))) [voter 11; voter 12; voter 13]). by repeat constructor.
  - intros n rs (g & e & t & l & w' & E). cbn in E. destruct (Z.ltb_spec n 0); [done|]. injection E as <- _. split; [by apply fresh_length|].
    intros r _. change (lt_locked_replicas (cx_locks (sd_ctx (noticed (Ok tt))))) with (∅ : gmap Z Z). apply lookup_empty.
Qed.
Definition durable_ctx : Ctx gworld := default (sd_ctx (noticed (Ok tt))) (snd <$> durable_poll no_knobs (sd_ctx (noticed (Ok tt)))).
Lemma durable_change_sound_witness :
  fst <$> durable_poll no_knobs (sd_ctx (noticed (Ok tt))) = Some (Ok (Pending (Some 30000))) ∧
  cx_pending_tasks durable_ctx = [ActionTaskWithLocks [11; 12; 13; 100] cure_task] ∧ voter 13 ∈ voters (gd_replicas three).
Proof.
  assert (fst <$> durable_poll no_knobs (sd_ctx (noticed (Ok tt))) = Some (Ok (Pending (Some 30000)))) as E by computed.
  split; [exact E|]. assert (cx_pending_tasks durable_ctx = [ActionTaskWithLocks [11; 12; 13; 100] cure_task]) as Ep by computed. split; [exact Ep|].
  assert (durable_poll no_knobs (sd_ctx (noticed (Ok tt))) = Some (Ok (Pending (Some 30000)), durable_ctx)) as E'.
  { unfold durable_ctx. destruct (durable_poll no_knobs (sd_ctx (noticed (Ok tt)))) as [[r c]|]; cbn in *; congruence. }
  destruct (durable_change_sound no_knobs _ _ _ sick_ready E') as [_ Hd]. destruct (Hd _ eq_refl) as [Hn|(locks & acts & Hdl & Hs)].
  { rewrite Ep in Hn. discriminate Hn. }
  destruct Hdl as (inner & Hp & Ha & _). rewrite Ep in Hp. injection Hp as _ <-. subst acts.
  apply (proj2 (sc_out _ _ _ _ _ Hs [mkReplicaDesc 100 0 0] [voter 13] ltac:(right; right; left))). left.
Defined.
Lemma timer_refines_witness :
  timer_run [TAdd 1 10; TAdd 2 30; TAdd 1 50; TFire 40; TFire 60] TaskTimer_default = [{[2]}; {[1]}].
Proof.
  etrans; [apply (timer_refines [TAdd 1 10; TAdd 2 30; TAdd 1 50; TFire 40; TFire 60]); vm_compute; discriminate|]. computed.
Defined.

(** ** Where the scheduler gets stuck *)
(** The task that cures a group has another identifier than its lock: when it
    ends the replicas are unlocked, but the change never ends for the table. *)
Definition refused : CallError := CallStatus (mkStatus CodeUnavailable "" [] [CauseIo ConnectionRefused]).
Definition cured : gsched :=
  let s := curing (Err refused) in
  let s := install_tasks (take_pending s).1 (take_pending s).2 in
  srun (advance_task no_knobs 9 11) s.
Lemma cure_never_releases :
  sd_jobs cured !! 11 = None ∧ size (lt_locked_replicas (cx_locks (sd_ctx cured))) = 0%nat ∧
  lt_config_change (cx_locks (sd_ctx cured)) = Some 10 ∧ size (lt_states (cx_locks (sd_ctx cured))) = 1%nat ∧
  fst <$> poll_once no_knobs 2 DurableGroup cured = Some (Ok (false, DurableGroup)) ∧
  cx_pending_tasks (sd_ctx (srun (poll_once no_knobs 2 DurableGroup) cured)) = [].
Proof. split_and!; computed. Qed.
(** A refused connection is not retried: the error the client makes of it is
    [Connect], not [Rpc]. *)
Lemma unavailable_not_retried s : st_code s = CodeUnavailable → retryable_rpc_err s = true → retryable_call (CallStatus s) = false.
Proof. intros Hc Hr. unfold retryable_call, from_status, from_code. rewrite Hc. unfold from_source. by rewrite Hr. Qed.
(** Learners beyond the three voters are to be deleted, but the list of the
    offline ones is passed, which is empty. *)
Definition spare : GroupDesc := mkGroupDesc 1 7 [] [voter 11; voter 12; voter 13; learner 14].
Definition spare_sched : gsched :=
  start_scheduler (mkGworld spare {[11 := peer 9 false]} (Ok tt) 1000) 1 11 5 (GroupProviders_new spare).
Lemma redundant_learner_stays :
  cx_pending_tasks (sd_ctx (srun (poll_once no_knobs 2 DurableGroup) spare_sched)) =
    [ActionTaskWithLocks [11; 12; 13; 14] (ActionTask_new 10 [RemoveLearners []])].
Proof. computed. Qed.
(** A source gives its waker away with the first event: the second one makes
    its tasks active, but wakes nobody. *)
Definition epoch (e : Z) : GroupDesc := mkGroupDesc 1 e [] [voter 11; voter 12; voter 13].
Lemma second_event_unnoticed :
  let p := on_desc_core (source_watch 2) (bind_all (GroupProviders_new three)) in
  let p := desc_update (epoch 8) p in
  let q := on_desc_core (source_watch 2) (lower_flag (take_active p).2) in
  pv_waked p = true ∧ pv_waked (desc_update (epoch 9) q) = false ∧ (take_active (desc_update (epoch 9) q)).1 = {[2]}.
Proof. cbv zeta. split_and!; computed. Qed.
