(* ===== verification/Hosting.v ===== *)
(** * Hosting replicas ([node/mod.rs], [node/route_table.rs], [engine/state.rs],
    [node/job/destory_replica.rs], [bootstrap.rs])

    How a node creates, serves, removes and destroys the replicas of its
    groups, what it keeps on disk about them, and how it finds them again when
    the process starts.  [StateEngine] keeps the identity of the node, the root
    descriptor and a record per replica in region 0 of the log engine; the
    regions of the replicas and the column families of their group engines are
    next to it.

    Every operation threads a [Node]; each write that reaches the disk is
    appended to [nd_journal], so that the disks a crash of the process can leave
    behind are the entries of the journal.  [RawNode] of the vendored raft crate
    is a parameter; a snapshot that was received and not yet applied, the
    snapshot files and the tasks of a replica (its raft worker, move-shard
    controller and scheduler) are left out. *)

From S2P Require Import Prelude Bytes Api RocksDb Schema Keys Engine EvalWrite Fsm Lease LogEngine RaftStorage Errors Node.
#[local] Open Scope Z_scope.

#[global] Instance RootDesc_eq_dec : EqDecision RootDesc.
Proof. solve_decision. Defined.

(** ** Messages ([metadata.proto], [node.proto]) *)
Definition ReplicaLocalState_i32 (s : ReplicaLocalState) : Z :=
  match s with Initial => 0 | Pending => 1 | Normal => 2 | Terminated => 3 | Tombstone => 4 end.
Definition ReplicaLocalState_from_i32 (z : Z) : option ReplicaLocalState :=
  if z =? 0 then Some Initial else if z =? 1 then Some Pending else if z =? 2 then Some Normal
  else if z =? 3 then Some Terminated else if z =? 4 then Some Tombstone else None.
Record ReplicaMeta := mkReplicaMeta { rm_group_id : Z; rm_replica_id : Z; rm_state : Z }.
Record NodeIdent := mkNodeIdent { ni_cluster_id : bytes; ni_node_id : Z }.
Record JoinNodeResponse := mkJoinNodeResponse {
  jn_cluster_id : bytes; jn_node_id : Z; jn_root : option RootDesc }.

Record NodeStats := mkNodeStats { ns_group_count : Z; ns_leader_count : Z; ns_orphan_replica_count : Z }.
Record ReplicaStats := mkReplicaStats { rst_replica_id : Z; rst_group_id : Z }.
Record CollectStatsResponse := mkCollectStatsResponse {
  cs_node_stats : option NodeStats; cs_group_stats : list GroupStats; cs_replica_stats : list ReplicaStats }.
Record CollectGroupDetailResponse := mkCollectGroupDetailResponse {
  cg_replica_states : list ReplicaState; cg_group_descs : list GroupDesc }.
Inductive MovingState := MsNone | MsPrepare | MsMoving | MsMoved.
Record CollectMovingShardStateResponse := mkCollectMovingShardStateResponse {
  cm_state : MovingState; cm_desc : option MoveShardDesc }.

Inductive PiggybackRequest :=
  | PqSyncRoot (root : option RootDesc)
  | PqCollectStats
  | PqCollectGroupDetail (groups : list Z)
  | PqCollectMovingShardState (group : Z)
  | PqCollectScheduleState.
Inductive PiggybackResponse :=
  | PrSyncRoot
  | PrCollectStats (r : CollectStatsResponse)
  | PrCollectGroupDetail (r : CollectGroupDetailResponse)
  | PrCollectMovingShardState (r : CollectMovingShardStateResponse)
  | PrCollectScheduleState (r : list ScheduleState).
Record HeartbeatResponse := mkHeartbeatResponse {
  hb_timestamp : Z; hb_root_epoch : Z; hb_piggybacks : list PiggybackResponse }.

(** ** The state engine *)
Definition STATE_REPLICA_ID : Z := 0.
Definition IDENT_KEY : bytes := [Z_byte 1].
Definition ROOT_DESCRIPTOR_KEY : bytes := [Z_byte 2].
Definition REPLICA_STATE_PREFIX : bytes := [Z_byte 3].
Definition REPLICA_STATE_END : bytes := [Z_byte 4].
Definition replica_state_key (replica_id : Z) : bytes := REPLICA_STATE_PREFIX ++ u64_to_le_bytes replica_id.

(** [MemTable::scan] forwards, and [Engine::scan_messages] with a callback that
    never stops; a value that does not decode is passed over. *)
Definition mt_scan (mt : MemTable) (start end_ : bytes) : list (bytes * bytes) :=
  merge_sort pair_le (List.filter (λ p, bytes_leb start p.1 && bytes_ltb p.1 end_) (map_to_list (mt_kvs mt))).
Definition engine_scan_messages (A : Type) `{Codec A} (engine : LogEngine) (region : Z) (start end_ : bytes) : list A :=
  match engine !! region with
  | Some mt => omap (λ p, decode_msg p.2) (mt_scan mt start end_)
  | None => []
  end.

Section StateEngine.
  Context `{Codec ReplicaMeta} `{Codec NodeIdent} `{Codec RootDesc}.

Definition read_ident (raw : LogEngine) : Result (option NodeIdent) :=
  engine_result (engine_get_message NodeIdent raw STATE_REPLICA_ID IDENT_KEY).
Definition save_ident (ident : NodeIdent) (raw : LogEngine) : Result LogEngine :=
  engine_result (engine_write raw (batch_put_message [] STATE_REPLICA_ID IDENT_KEY ident)).
Definition save_root_desc (root_desc : RootDesc) (raw : LogEngine) : Result LogEngine :=
  engine_result (engine_write raw (batch_put_message [] STATE_REPLICA_ID ROOT_DESCRIPTOR_KEY root_desc)).
Definition load_root_desc (raw : LogEngine) : Result (option RootDesc) :=
  engine_result (engine_get_message RootDesc raw STATE_REPLICA_ID ROOT_DESCRIPTOR_KEY).
Definition save_replica_state (group_id replica_id : Z) (state : ReplicaLocalState) (raw : LogEngine) : Result LogEngine :=
  let replica_meta := mkReplicaMeta group_id replica_id (ReplicaLocalState_i32 state) in
  engine_result (engine_write raw (batch_put_message [] STATE_REPLICA_ID (replica_state_key replica_id) replica_meta)).

Fixpoint replica_states_loop (metas : list ReplicaMeta) : Result (list (Z * Z * ReplicaLocalState)) :=
  match metas with
  | [] => Ok []
  | m :: metas' =>
      let? local_state := expect (ReplicaLocalState_from_i32 (rm_state m)) in
      let? l := replica_states_loop metas' in
      Ok ((rm_group_id m, rm_replica_id m, local_state) :: l)
  end.
Definition replica_states (raw : LogEngine) : Result (list (Z * Z * ReplicaLocalState)) :=
  replica_states_loop (engine_scan_messages ReplicaMeta raw STATE_REPLICA_ID REPLICA_STATE_PREFIX REPLICA_STATE_END).
End StateEngine.

(** ** The node

    A served [Replica]: what the others share of it, its lease state and the
    channel of its raft group.  Channels are numbered as they are made, since the
    two route tables and the replica hold the same one. *)
Record HostedReplica := mkHostedReplica { hr_info : ReplicaInfo; hr_lease : LeaseState; hr_raft : nat }.
Record ReplicaRouteTableCore := mkReplicaRouteTableCore {
  rt_replicas : gmap Z HostedReplica; rt_root_wakers : list nat }.
(** The [info] that the context shares with the replica is never read. *)
Record ReplicaContext := mkReplicaContext { rc_group_id : Z; rc_replica_id : Z; rc_node_id : Z }.
Record NodeState := mkNodeState {
  ns_ident : option NodeIdent; ns_serving_replicas : gmap Z ReplicaContext; ns_serving_groups : gset Z;
  ns_root : RootDesc;
  (** what was sent to the reporting task; [None] before [bootstrap] ends *)
  ns_channel : option (list Broadcast) }.
Definition NodeState_default : NodeState := mkNodeState None ∅ ∅ RootDesc_default None.
Definition is_bootstrapped (s : NodeState) : bool := match ns_ident s with Some _ => true | None => false end.

Record Disk (DB : Type) := mkDisk { dk_log : LogEngine; dk_cfs : gmap (Z * Z) DB }.
Arguments mkDisk {DB} _ _.
Arguments dk_log {DB} _.
Arguments dk_cfs {DB} _.

Record Node (DB : Type) := mkNode {
  nd_disk : Disk DB;
  nd_journal : list (Disk DB);
  nd_route : ReplicaRouteTableCore;
  nd_raft_route : gmap Z nat;
  nd_state : NodeState;
  (** the destroy jobs that have not run *)
  nd_tasks : list (Z * Z);
  (** the replicas whose snapshots were recycled *)
  nd_recycled : list Z;
  nd_next : nat;
  nd_closed : gset nat;
  nd_woken : list nat }.
Arguments mkNode {DB} _ _ _ _ _ _ _ _ _ _.
Arguments nd_disk {DB} _.
Arguments nd_journal {DB} _.
Arguments nd_route {DB} _.
Arguments nd_raft_route {DB} _.
Arguments nd_state {DB} _.
Arguments nd_tasks {DB} _.
Arguments nd_recycled {DB} _.
Arguments nd_next {DB} _.
Arguments nd_closed {DB} _.
Arguments nd_woken {DB} _.

(** [Node::new]: the engines as they are on disk, the rest empty. *)
Definition Node_new {DB} (disk : Disk DB) : Node DB :=
  mkNode disk [] (mkReplicaRouteTableCore ∅ []) ∅ NodeState_default [] [] 0 ∅ [].

(** ** [RawNode::with_default_logger] of the raft crate

    For an id, the applied index and the storage it was opened on: the leader,
    vote and term of the new node, or an error. *)
Class RawNode := { raw_node : Z → Z → Storage → Result (Z * Z * Z) }.

Section Node.
  Context {DB : Type} `{RocksDb DB}.
  Context `{Codec EntryId} `{Codec GroupDesc} `{Codec MoveShardState}.
  Context `{Codec ReplicaMeta} `{Codec NodeIdent} `{Codec RootDesc}.
  Context `{Codec Entry} `{Codec HardState} `{Codec RaftLocalState}.
  Context `{Codec ChangeReplicas} `{Codec ConfChangeV2} `{Codec EvalResult}.
  Context `{RawNode}.
  (** [GroupEngine::get_approximate_size]: what RocksDB estimates for a shard. *)
  Variable approximate_size : HostedReplica → Z → Result Z.

#[local] Abbreviation M := (prog (Node DB) Error).

Definition update_state (f : NodeState → NodeState) : M unit := λ n,
  Some (Ok tt, mkNode (nd_disk n) (nd_journal n) (nd_route n) (nd_raft_route n) (f (nd_state n)) (nd_tasks n)
    (nd_recycled n) (nd_next n) (nd_closed n) (nd_woken n)).
Definition persist (d : Disk DB) : M unit := λ n,
  Some (Ok tt, mkNode d (nd_journal n ++ [d]) (nd_route n) (nd_raft_route n) (nd_state n) (nd_tasks n)
    (nd_recycled n) (nd_next n) (nd_closed n) (nd_woken n)).
Definition persist_log (write : LogEngine → Result LogEngine) : M unit :=
  let* d := prog_reads (λ n, let? log := write (dk_log (nd_disk n)) in Ok (mkDisk log (dk_cfs (nd_disk n)))) in
  persist d.
Definition persist_cfs (f : gmap (Z * Z) DB → gmap (Z * Z) DB) : M unit :=
  let* d := prog_reads (λ n, Ok (mkDisk (dk_log (nd_disk n)) (f (dk_cfs (nd_disk n))))) in
  persist d.
Definition add_destroy_task (group_id replica_id : Z) : M unit := λ n,
  Some (Ok tt, mkNode (nd_disk n) (nd_journal n) (nd_route n) (nd_raft_route n) (nd_state n)
    (nd_tasks n ++ [(group_id, replica_id)]) (nd_recycled n) (nd_next n) (nd_closed n) (nd_woken n)).
Definition recycle_snapshots (replica_id : Z) : M unit := λ n,
  Some (Ok tt, mkNode (nd_disk n) (nd_journal n) (nd_route n) (nd_raft_route n) (nd_state n) (nd_tasks n)
    (nd_recycled n ++ [replica_id]) (nd_next n) (nd_closed n) (nd_woken n)).
Definition new_channel : M nat := λ n,
  Some (Ok (nd_next n), mkNode (nd_disk n) (nd_journal n) (nd_route n) (nd_raft_route n) (nd_state n) (nd_tasks n)
    (nd_recycled n) (S (nd_next n)) (nd_closed n) (nd_woken n)).

(** *** The route tables *)
Definition route_find (group_id : Z) (n : Node DB) : option HostedReplica := rt_replicas (nd_route n) !! group_id.
Definition current_root_replica (waker : option nat) : M (option HostedReplica) := λ n,
  match rt_replicas (nd_route n) !! ROOT_GROUP_ID with
  | Some replica => Some (Ok (Some replica), n)
  | None =>
      let wakers := rt_root_wakers (nd_route n) ++ match waker with Some w => [w] | None => [] end in
      Some (Ok None, mkNode (nd_disk n) (nd_journal n) (mkReplicaRouteTableCore (rt_replicas (nd_route n)) wakers)
        (nd_raft_route n) (nd_state n) (nd_tasks n) (nd_recycled n) (nd_next n) (nd_closed n) (nd_woken n))
  end.
Definition route_update (replica : HostedReplica) : M unit := λ n,
  let group_id := ri_group_id (hr_info replica) in
  let replicas := <[group_id := replica]> (rt_replicas (nd_route n)) in
  let root := group_id =? ROOT_GROUP_ID in
  Some (Ok tt, mkNode (nd_disk n) (nd_journal n)
    (mkReplicaRouteTableCore replicas (if root then [] else rt_root_wakers (nd_route n)))
    (nd_raft_route n) (nd_state n) (nd_tasks n) (nd_recycled n) (nd_next n) (nd_closed n)
    (nd_woken n ++ if root then rt_root_wakers (nd_route n) else [])).
(** What others do to the replica behind the [Arc]. *)
Definition route_modify (group_id : Z) (f : HostedReplica → HostedReplica) : M unit := λ n,
  Some (Ok tt, mkNode (nd_disk n) (nd_journal n)
    (mkReplicaRouteTableCore (alter f group_id (rt_replicas (nd_route n))) (rt_root_wakers (nd_route n)))
    (nd_raft_route n) (nd_state n) (nd_tasks n) (nd_recycled n) (nd_next n) (nd_closed n) (nd_woken n)).
Definition route_remove (group_id : Z) : M unit := λ n,
  Some (Ok tt, mkNode (nd_disk n) (nd_journal n)
    (mkReplicaRouteTableCore (delete group_id (rt_replicas (nd_route n))) (rt_root_wakers (nd_route n)))
    (nd_raft_route n) (nd_state n) (nd_tasks n) (nd_recycled n) (nd_next n) (nd_closed n) (nd_woken n)).
Definition raft_route_find (replica_id : Z) (n : Node DB) : option nat := nd_raft_route n !! replica_id.
Definition raft_route_update (replica_id : Z) (sender : nat) : M unit := λ n,
  Some (Ok tt, mkNode (nd_disk n) (nd_journal n) (nd_route n) (<[replica_id := sender]> (nd_raft_route n)) (nd_state n)
    (nd_tasks n) (nd_recycled n) (nd_next n) (nd_closed n) (nd_woken n)).
Definition raft_route_delete (replica_id : Z) : M unit := λ n,
  Some (Ok tt, mkNode (nd_disk n) (nd_journal n) (nd_route n) (delete replica_id (nd_raft_route n)) (nd_state n)
    (nd_tasks n) (nd_recycled n) (nd_next n) (nd_closed n) (nd_woken n)).
(** [RaftGroup::terminate]: the channel is closed for every holder. *)
Definition raft_terminate (sender : nat) : M unit := λ n,
  Some (Ok tt, mkNode (nd_disk n) (nd_journal n) (nd_route n) (nd_raft_route n) (nd_state n) (nd_tasks n)
    (nd_recycled n) (nd_next n) ({[sender]} ∪ nd_closed n) (nd_woken n)).

(** *** Serving a replica *)
(** [GroupEngine::create] makes the column family first and writes the metadata
    then; both reach the disk. *)
Definition create_group_engine (group_id replica_id : Z) : M (GroupEngine DB) :=
  do* persist_cfs (λ cfs, <[(group_id, replica_id) := db_empty]> cfs) in
  let* engine := prog_lift (ge_create group_id) in
  do* persist_cfs (λ cfs, <[(group_id, replica_id) := ge_db engine]> cfs) in
  prog_lift (Ok engine).
Definition open_group_engine (group_id replica_id : Z) (replica_state : ReplicaLocalState) : M (GroupEngine DB) :=
  let* cf := prog_reads (λ n, Ok (dk_cfs (nd_disk n) !! (group_id, replica_id))) in
  match cf, replica_state with
  | Some db, _ => prog_lift (ge_open db)
  | None, Initial => create_group_engine group_id replica_id
  | None, _ => prog_lift Panic
  end.

(** [RaftNode::new]: the leader, vote and term of the raft node over the log and
    the group engine, with the default configuration. *)
Definition raft_node_new (replica_id : Z) (engine : GroupEngine DB) (log : LogEngine) : Result (Z * Z * Z) :=
  let? applied :=
    match flushed_apply_state (ge_db engine) with Ok s => Ok (ei_index s) | _ => Panic end in
  let conf_state := conf_state_from_group_descriptor (ge_descriptor engine) in
  let? storage := storage_open false replica_id applied conf_state log in
  raw_node replica_id applied storage.
Definition start_raft_group (info : ReplicaInfo) (lease_state : LeaseState) (channel : list Broadcast)
    (group_engine : GroupEngine DB) : M (nat * LeaseState * list Broadcast) :=
  let* ' (leader_id, vote, term) :=
    prog_reads (λ n, raft_node_new (ri_replica_id info) group_engine (dk_log (nd_disk n))) in
  let o := on_state_updated leader_id vote term Follower (mkLeaseStateObserver info lease_state channel) in
  let* sender := new_channel in
  prog_lift (Ok (sender, lo_lease_state o, lo_state_channel o)).

Definition as_normal_state (r : HostedReplica) : HostedReplica :=
  let i := hr_info r in
  mkHostedReplica (mkReplicaInfo (ri_replica_id i) (ri_group_id i) (ri_node_id i) Normal) (hr_lease r) (hr_raft r).

(** The channel of broadcasts is passed on with what was sent to it. *)
Definition serve_replica (group_id : Z) (desc : ReplicaDesc) (local_state : ReplicaLocalState)
    (channel : list Broadcast) : M (ReplicaContext * list Broadcast) :=
  let* group_engine := open_group_engine group_id (rd_id desc) local_state in
  let info := ReplicaInfo_new desc group_id local_state in
  let lease_state := LeaseState_new (ge_descriptor group_engine) (ge_move_shard_state group_engine) in
  let* ' (raft_node, lease_state, channel) := start_raft_group info lease_state channel group_engine in
  let replica_id := ri_replica_id info in
  do* route_update (mkHostedReplica info lease_state raft_node) in
  do* raft_route_update replica_id raft_node in
  do* (match local_state with
       | Initial =>
           do* route_modify group_id as_normal_state in
           persist_log (save_replica_state group_id replica_id Normal)
       | _ => prog_lift (Ok tt)
       end) in
  prog_lift (Ok (mkReplicaContext group_id replica_id (rd_node_id desc), channel)).

Definition insert_serving (replica_id group_id : Z) (context : ReplicaContext) (s : NodeState) : NodeState :=
  mkNodeState (ns_ident s) (<[replica_id := context]> (ns_serving_replicas s)) ({[group_id]} ∪ ns_serving_groups s)
    (ns_root s) (ns_channel s).
Definition set_channel (channel : list Broadcast) (s : NodeState) : NodeState :=
  mkNodeState (ns_ident s) (ns_serving_replicas s) (ns_serving_groups s) (ns_root s) (Some channel).
Definition set_ident (ident : NodeIdent) (s : NodeState) : NodeState :=
  mkNodeState (Some ident) (ns_serving_replicas s) (ns_serving_groups s) (ns_root s) (ns_channel s).
Definition set_root (root : RootDesc) (s : NodeState) : NodeState :=
  mkNodeState (ns_ident s) (ns_serving_replicas s) (ns_serving_groups s) root (ns_channel s).

(** *** [bootstrap] *)
Definition replica_desc (replica_id node_id : Z) : ReplicaDesc := mkReplicaDesc replica_id node_id 0.
Fixpoint bootstrap_loop (node_id : Z) (states : list (Z * Z * ReplicaLocalState)) (channel : list Broadcast) :
    M (list Broadcast) :=
  match states with
  | [] => prog_lift (Ok channel)
  | (group_id, replica_id, state) :: states' =>
      do* (match state with Terminated => add_destroy_task group_id replica_id | _ => prog_lift (Ok tt) end) in
      match state with
      | Tombstone | Terminated =>
          do* recycle_snapshots replica_id in
          bootstrap_loop node_id states' channel
      | _ =>
          let* ' (context, channel) := serve_replica group_id (replica_desc replica_id node_id) state channel in
          do* update_state (insert_serving replica_id group_id context) in
          bootstrap_loop node_id states' channel
      end
  end.
Definition bootstrap (node_ident : NodeIdent) : M unit :=
  do* update_state (set_ident node_ident) in
  let* states := prog_reads (λ n, replica_states (dk_log (nd_disk n))) in
  let* channel := bootstrap_loop (ni_node_id node_ident) states [] in
  update_state (set_channel channel).

(** *** [create_replica] *)
Definition check_replica_existence (group_id replica_id : Z) : M bool :=
  let* s := prog_reads (λ n, Ok (nd_state n)) in
  match ns_serving_replicas s !! replica_id with
  | Some _ => prog_lift (Ok true)
  | None =>
      if decide (group_id ∈ ns_serving_groups s) then prog_lift (Err (AlreadyExists "group"))
      else prog_lift (Ok false)
  end.
(** [Replica::create]; [add_shard] is the evaluation of a shard's creation. *)
Definition Replica_create (replica_id : Z) (target_desc : GroupDesc) (raft_engine : LogEngine) : Result LogEngine :=
  write_initial_state false raft_engine replica_id (gd_replicas target_desc) (map add_shard (gd_shards target_desc)).
Definition create_replica (replica_id : Z) (group : GroupDesc) : M unit :=
  let group_id := gd_id group in
  let* existed := check_replica_existence group_id replica_id in
  if (existed : bool) then prog_lift (Ok tt)
  else
    do* persist_log (Replica_create replica_id group) in
    do* persist_log (save_replica_state group_id replica_id Initial) in
    let* s := prog_reads (λ n, Ok (nd_state n)) in
    if is_bootstrapped s then
      let* ident := prog_lift (expect (ns_ident s)) in
      let* channel := prog_lift (expect (ns_channel s)) in
      let* ' (context, channel) :=
        serve_replica group_id (replica_desc replica_id (ni_node_id ident)) Initial channel in
      do* update_state (set_channel channel) in
      update_state (insert_serving replica_id group_id context)
    else prog_lift (Ok tt).

(** *** [remove_replica] *)
Definition terminate_replica (r : HostedReplica) : HostedReplica :=
  mkHostedReplica (terminate_info (hr_info r)) (terminate_lease (hr_lease r)) (hr_raft r).
(** [Replica::shutdown]. *)
Definition shutdown (group_id : Z) (replica : HostedReplica) : M unit :=
  do* raft_terminate (hr_raft replica) in
  route_modify group_id terminate_replica.
Definition remove_serving (replica_id : Z) (s : NodeState) : NodeState :=
  mkNodeState (ns_ident s) (delete replica_id (ns_serving_replicas s)) (ns_serving_groups s) (ns_root s) (ns_channel s).
Definition remove_group (group_id : Z) (s : NodeState) : NodeState :=
  mkNodeState (ns_ident s) (ns_serving_replicas s) (ns_serving_groups s ∖ {[group_id]}) (ns_root s) (ns_channel s).
Definition remove_replica (replica_id : Z) (actual_desc : GroupDesc) : M unit :=
  let group_id := gd_id actual_desc in
  let* found := prog_reads (λ n, Ok (route_find group_id n)) in
  match found with
  | None => prog_lift (Ok tt)
  | Some replica =>
      do* shutdown group_id replica in
      do* route_remove group_id in
      do* raft_route_delete replica_id in
      do* update_state (remove_group group_id) in
      let* ctx := prog_reads (λ n, Ok (ns_serving_replicas (nd_state n) !! replica_id)) in
      do* update_state (remove_serving replica_id) in
      do* prog_lift (expect ctx) in
      do* persist_log (save_replica_state group_id replica_id Terminated) in
      do* recycle_snapshots replica_id in
      add_destroy_task group_id replica_id
  end.

(** *** The destroy job; a column family that is not there is passed over. *)
Definition destory_replica (group_id replica_id : Z) : M unit :=
  let* cf := prog_reads (λ n, Ok (dk_cfs (nd_disk n) !! (group_id, replica_id))) in
  do* (match cf with
       | Some _ => persist_cfs (delete (group_id, replica_id))
       | None => prog_lift (Ok tt)
       end) in
  do* persist_log (λ log, destory log replica_id) in
  persist_log (save_replica_state group_id replica_id Tombstone).
(** The [i]th of the waiting jobs runs. *)
Definition run_destroy_task (i : nat) : M unit :=
  let* task := prog_reads (λ n, Ok (nd_tasks n !! i)) in
  match task with
  | None => prog_lift (Ok tt)
  | Some (group_id, replica_id) =>
      do* (λ n, Some (Ok tt, mkNode (nd_disk n) (nd_journal n) (nd_route n) (nd_raft_route n) (nd_state n)
             (delete i (nd_tasks n)) (nd_recycled n) (nd_next n) (nd_closed n) (nd_woken n))) in
      destory_replica group_id replica_id
  end.

(** *** The root descriptor *)
Definition get_root : M RootDesc := prog_reads (λ n, Ok (ns_root (nd_state n))).
Definition reload_root_from_engine : M unit :=
  let* root_desc := prog_reads (λ n, load_root_desc (dk_log (nd_disk n))) in
  let* root_desc := prog_lift (ok_or root_desc (InvalidData "root not found")) in
  update_state (set_root root_desc).
Definition update_root (root_desc : RootDesc) : M unit :=
  let* local_root_desc := get_root in
  if bool_decide (local_root_desc = root_desc) then prog_lift (Ok tt)
  else
    do* persist_log (save_root_desc root_desc) in
    reload_root_from_engine.

(** *** What the node reports

    The order of the hash set of groups is left open by [elements]. *)
Definition serving_group_id_list (n : Node DB) : list Z := elements (ns_serving_groups (nd_state n)).
Definition is_leader (r : HostedReplica) : bool := is_raft_leader (hr_lease r).

Definition shard_stats_of (r : HostedReplica) (shard : ShardDesc) : option ShardStats :=
  match approximate_size r (sd_id shard) with
  | Ok size => Some (mkShardStats (sd_id shard) (sd_table_id shard) size)
  | _ => None
  end.
Definition collect_group_stats (r : HostedReplica) : GroupStats :=
  let shards := gd_shards (ls_descriptor (hr_lease r)) in
  mkGroupStats (ri_group_id (hr_info r)) (Z.of_nat (length shards)) (omap (shard_stats_of r) shards).

(** The round of [collect_stats] for one group. *)
Definition count_replica (r : HostedReplica) (acc : NodeStats * list GroupStats * list ReplicaStats) :
    NodeStats * list GroupStats * list ReplicaStats :=
  let '(ns, group_stats, replica_stats) := acc in
  let info := hr_info r in
  if is_terminated info then acc
  else
    let replicas := gd_replicas (ls_descriptor (hr_lease r)) in
    let orphan := if decide (replicas = []) then 1 else 0 in
    let member := if existsb (λ d, rd_id d =? ri_replica_id info) replicas then 1 else 0 in
    let leader := is_leader r in
    (mkNodeStats (ns_group_count ns + member) (ns_leader_count ns + if leader then 1 else 0)
       (ns_orphan_replica_count ns + orphan),
     group_stats ++ (if leader then [collect_group_stats r] else []),
     replica_stats ++ [mkReplicaStats (ri_replica_id info) (ri_group_id info)]).
Definition collect_stats (n : Node DB) : CollectStatsResponse :=
  let '(ns, group_stats, replica_stats) :=
    foldl (λ acc group_id, match route_find group_id n with Some r => count_replica r acc | None => acc end)
      (mkNodeStats 0 0 0, [], []) (serving_group_id_list n) in
  mkCollectStatsResponse (Some ns) group_stats replica_stats.

Definition live_replica (n : Node DB) (group_id : Z) : option HostedReplica :=
  match route_find group_id n with
  | Some r => if is_terminated (hr_info r) then None else Some r
  | None => None
  end.
Definition collect_group_detail (groups : list Z) (n : Node DB) : CollectGroupDetailResponse :=
  let group_id_list := match groups with [] => serving_group_id_list n | _ => groups end in
  let live := omap (live_replica n) group_id_list in
  mkCollectGroupDetailResponse (map (λ r, ls_replica_state (hr_lease r)) live)
    (map (λ r, ls_descriptor (hr_lease r)) (List.filter is_leader live)).
Definition collect_moving_shard_state (group : Z) (n : Node DB) : CollectMovingShardStateResponse :=
  match live_replica n group with
  | Some r =>
      match ls_move_shard_state (hr_lease r) with
      | Some ms =>
          let state :=
            match MoveShardStep_from_i32 (mss_step ms) with
            | Some Prepare => MsPrepare
            | Some Moved => MsMoved
            | Some Moving => MsMoving
            | _ => MsNone
            end in
          let state := match mss_move_shard ms with None => MsNone | Some _ => state end in
          mkCollectMovingShardStateResponse state (mss_move_shard ms)
      | None => mkCollectMovingShardStateResponse MsNone None
      end
  | None => mkCollectMovingShardStateResponse MsNone None
  end.
Definition collect_schedule_state (n : Node DB) : list ScheduleState :=
  map (λ r, ls_schedule_state (hr_lease r))
    (List.filter is_leader (omap (live_replica n) (serving_group_id_list n))).

(** ** The node service: administration

    [Status::invalid_argument] of a missing field is the status of
    [InvalidArgument]. *)
Definition admin_create_replica (replica_id : Z) (group : option GroupDesc) : M unit :=
  let* group_desc := prog_lift (ok_or group (InvalidArgument "the field `group` is empty")) in
  create_replica replica_id group_desc.
Definition admin_remove_replica (replica_id : Z) (group : option GroupDesc) : M unit :=
  let* group_desc := prog_lift (ok_or group (InvalidArgument "the field `group` is empty")) in
  remove_replica replica_id group_desc.
Definition answer_piggyback (info : PiggybackRequest) : M PiggybackResponse :=
  match info with
  | PqSyncRoot root =>
      do* (match root with Some root => update_root root | None => prog_lift (Ok tt) end) in
      prog_lift (Ok PrSyncRoot)
  | PqCollectStats => prog_reads (λ n, Ok (PrCollectStats (collect_stats n)))
  | PqCollectGroupDetail groups => prog_reads (λ n, Ok (PrCollectGroupDetail (collect_group_detail groups n)))
  | PqCollectMovingShardState group =>
      prog_reads (λ n, Ok (PrCollectMovingShardState (collect_moving_shard_state group n)))
  | PqCollectScheduleState => prog_reads (λ n, Ok (PrCollectScheduleState (collect_schedule_state n)))
  end.
Fixpoint answer_piggybacks (piggybacks : list (option PiggybackRequest)) : M (list PiggybackResponse) :=
  match piggybacks with
  | [] => prog_lift (Ok [])
  | None :: l => answer_piggybacks l
  | Some info :: l =>
      let* resp := answer_piggyback info in
      let* resps := answer_piggybacks l in
      prog_lift (Ok (resp :: resps))
  end.
Definition root_heartbeat (timestamp : Z) (piggybacks : list (option PiggybackRequest)) : M HeartbeatResponse :=
  let* resps := answer_piggybacks piggybacks in
  let* root := get_root in
  prog_lift (Ok (mkHeartbeatResponse timestamp (rt_epoch root) resps)).

(** ** Starting the process ([bootstrap.rs]) *)
Definition save_node_ident (cluster_id : bytes) (node_id : Z) : M NodeIdent :=
  let node_ident := mkNodeIdent cluster_id node_id in
  do* persist_log (save_ident node_ident) in
  prog_lift (Ok node_ident).
Definition write_initial_cluster_data (addr : string) : M unit :=
  do* create_replica FIRST_REPLICA_ID root_group in
  do* create_replica INIT_USER_REPLICA_ID init_group in
  let root_node := mkNodeDesc FIRST_NODE_ID addr None 0 in
  update_root (mkRootDesc INITIAL_EPOCH [root_node]).
Definition bootstrap_cluster (addr : string) : M NodeIdent :=
  do* write_initial_cluster_data addr in
  save_node_ident [] FIRST_NODE_ID.

(** The answers that the root gives, one after the other; a run that has used
    them all still waits. *)
Fixpoint join_loop (answers : list (option JoinNodeResponse)) : M NodeIdent :=
  match answers with
  | [] => λ _, None
  | None :: answers' => join_loop answers'
  | Some res :: _ =>
      let* saved := (λ n, match save_node_ident (jn_cluster_id res) (jn_node_id res) n with
                          | None => None
                          | Some (Panic, n') => Some (Panic, n')
                          | Some (r, n') => Some (Ok r, n')
                          end) in
      do* update_root (default RootDesc_default (jn_root res)) in
      prog_lift saved
  end.
Definition try_join_cluster (local_addr : string) (join_list : list string)
    (answers : list (option JoinNodeResponse)) : M NodeIdent :=
  let join_list := List.filter (λ addr, negb (String.eqb addr local_addr)) join_list in
  match join_list with
  | [] => prog_lift (Err (InvalidArgument "the filtered join list is empty"))
  | _ => join_loop answers
  end.
Record Config := mkConfig { cf_addr : string; cf_init : bool; cf_join_list : list string }.
Definition bootstrap_or_join_cluster (config : Config) (answers : list (option JoinNodeResponse)) : M NodeIdent :=
  let* ident := prog_reads (λ n, read_ident (dk_log (nd_disk n))) in
  match ident with
  | Some node_ident =>
      do* reload_root_from_engine in
      prog_lift (Ok node_ident)
  | None =>
      if cf_init config then bootstrap_cluster (cf_addr config)
      else try_join_cluster (cf_addr config) (cf_join_list config) answers
  end.
(** The part of [run_in_async] before the root and the services start. *)
Definition run_node (config : Config) (answers : list (option JoinNodeResponse)) : M NodeIdent :=
  let* ident := bootstrap_or_join_cluster config answers in
  do* bootstrap ident in
  prog_lift (Ok ident).
End Node.
