(* ===== verification/HostingProps.v ===== *)
(** * Hosting replicas: the tables of the node agree with its disk

    [stored] reads the record of a replica; [disk_ok] says what the disk of a
    node looks like at every moment a crash can happen, [tables_ok] that the
    route tables and the serving sets of the node describe the same replicas,
    and [hosting_ok] that these are the replicas the disk records as live. *)

From S2P Require Import Prelude Bytes Api RocksDb Schema Keys Engine EngineFacts EngineWrites EvalWrite Fsm Lease LogEngine.
From S2P Require Import RaftStorage RaftStorageProps Errors Node Hosting.
#[local] Open Scope Z_scope.

(** A raft node starts on an empty configuration when its id is not zero and
    the recorded commit index is within the log. *)
Class RawNodeOk `{RawNode} : Prop := {
  raw_node_starts id st :
    id ≠ 0 → st_replica_id st = id → st_initial_conf_state st = Some (mkConfState [] [] [] [] false) →
    st_first_index st - 1 ≤ hs_commit (st_hard_state st) ≤ st_last_index st →
    ∃ out, raw_node id 0 st = Ok out }.

Definition live (s : ReplicaLocalState) : Prop := s ≠ Terminated ∧ s ≠ Tombstone.
#[global] Instance ReplicaLocalState_eq_dec : EqDecision ReplicaLocalState.
Proof. solve_decision. Defined.
#[global] Instance live_dec s : Decision (live s).
Proof. unfold live. apply _. Defined.

Lemma local_state_roundtrip s : ReplicaLocalState_from_i32 (ReplicaLocalState_i32 s) = Some s.
Proof. by destruct s. Qed.

Lemma replica_state_key_inj r r' :
  u64_ok r → u64_ok r' → replica_state_key r = replica_state_key r' → r = r'.
Proof.
  intros H1 H2 He. unfold replica_state_key in He. apply app_inv_head in He. rewrite <- (from_le_u64 r), <- (from_le_u64 r') by done. by rewrite He.
Qed.
Lemma replica_state_key_range r :
  bytes_leb REPLICA_STATE_PREFIX (replica_state_key r) = true ∧ bytes_ltb (replica_state_key r) REPLICA_STATE_END = true.
Proof. split; unfold replica_state_key; by destruct (u64_to_le_bytes r). Qed.
Lemma replica_state_key_ne r : replica_state_key r ≠ IDENT_KEY ∧ replica_state_key r ≠ ROOT_DESCRIPTOR_KEY.
Proof. by split. Qed.

(** ** The state engine *)
Section State.
  Context {CM : Codec ReplicaMeta} {CMok : CodecOk ReplicaMeta}.

Definition state_kvs (log : LogEngine) : gmap bytes bytes := mt_kvs (get_or_insert log STATE_REPLICA_ID).
Definition stored (log : LogEngine) (r : Z) : option (Z * ReplicaLocalState) :=
  state_kvs log !! replica_state_key r ≫= λ v, decode_msg v ≫= λ m : ReplicaMeta,
  ReplicaLocalState_from_i32 (rm_state m) ≫= λ s, Some (rm_group_id m, s).
Definition meta_of (g r : Z) (s : ReplicaLocalState) : ReplicaMeta := mkReplicaMeta g r (ReplicaLocalState_i32 s).
(** What lies among the records is a record under its own key. *)
Definition state_ok (log : LogEngine) : Prop :=
  ∀ k v, state_kvs log !! k = Some v →
    bytes_leb REPLICA_STATE_PREFIX k && bytes_ltb k REPLICA_STATE_END = true →
    ∃ g r s, u64_ok r ∧ k = replica_state_key r ∧ v = encode_to_vec (meta_of g r s).

Lemma stored_at log g r s :
  state_kvs log !! replica_state_key r = Some (encode_to_vec (meta_of g r s)) → stored log r = Some (g, s).
Proof.
  intros H. unfold stored. rewrite H. cbn [mbind option_bind]. rewrite decode_encode_msg.
  cbn [mbind option_bind meta_of rm_state]. by rewrite local_state_roundtrip.
Qed.
Lemma stored_inv log g r s :
  state_ok log → u64_ok r → stored log r = Some (g, s) →
  state_kvs log !! replica_state_key r = Some (encode_to_vec (meta_of g r s)).
Proof.
  intros Hok Hr Hs. unfold stored in Hs.
  destruct (state_kvs log !! replica_state_key r) as [v|] eqn:Hv; [|done]. pose proof Hv as Hv'.
  apply Hok in Hv as (g' & r' & s' & Hr' & Hk & ->).
  { destruct (replica_state_key_range r) as [-> ->]. done. }
  apply replica_state_key_inj in Hk as <-; [|done|done].
  cbn [mbind option_bind] in Hs. rewrite decode_encode_msg in Hs. cbn [mbind option_bind meta_of rm_state] in Hs.
  rewrite local_state_roundtrip in Hs. cbn in Hs. by simplify_eq.
Qed.

(** *** Writing to the state region *)
Definition state_put (log : LogEngine) (k v : bytes) : LogEngine :=
  <[STATE_REPLICA_ID := mt_put (get_or_insert log STATE_REPLICA_ID) k v]> log.
Lemma state_put_kvs log k v : state_kvs (state_put log k v) = <[k := v]> (state_kvs log).
Proof. unfold state_kvs, state_put, get_or_insert. by rewrite lookup_insert_eq. Qed.
Lemma state_put_other log k v r : r ≠ STATE_REPLICA_ID → state_put log k v !! r = log !! r.
Proof. intros H. unfold state_put. by rewrite lookup_insert_ne. Qed.
Lemma save_replica_state_put g r s log :
  save_replica_state g r s log = Ok (state_put log (replica_state_key r) (encode_to_vec (meta_of g r s))).
Proof. done. Qed.

Lemma stored_put log g r s r' :
  u64_ok r → u64_ok r' →
  stored (state_put log (replica_state_key r) (encode_to_vec (meta_of g r s))) r' =
    if decide (r' = r) then Some (g, s) else stored log r'.
Proof.
  intros Hr Hr'. destruct (decide (r' = r)) as [->|Hne].
  - apply stored_at. by rewrite state_put_kvs, lookup_insert_eq.
  - unfold stored. rewrite state_put_kvs, lookup_insert_ne; [done|].
    intros Hk. apply replica_state_key_inj in Hk; congruence.
Qed.
Lemma stored_put_eq log g r s :
  u64_ok r → stored (state_put log (replica_state_key r) (encode_to_vec (meta_of g r s))) r = Some (g, s).
Proof. intros Hr. by rewrite stored_put, decide_True. Qed.
Lemma stored_put_ne log g r s r' :
  u64_ok r → u64_ok r' → r' ≠ r →
  stored (state_put log (replica_state_key r) (encode_to_vec (meta_of g r s))) r' = stored log r'.
Proof. intros Hr Hr' Hne. by rewrite stored_put, decide_False. Qed.
Lemma state_ok_put log g r s :
  u64_ok r → state_ok log → state_ok (state_put log (replica_state_key r) (encode_to_vec (meta_of g r s))).
Proof.
  intros Hr Hok k v. rewrite state_put_kvs, lookup_insert_Some.
  intros [[<- <-]|[_ Hk]] Hin; [by exists g, r, s|by apply Hok].
Qed.
Lemma state_region_eq log log' :
  log' !! STATE_REPLICA_ID = log !! STATE_REPLICA_ID → state_kvs log' = state_kvs log.
Proof. unfold state_kvs, get_or_insert. by intros ->. Qed.
Lemma stored_region log log' r : state_kvs log' = state_kvs log → stored log' r = stored log r.
Proof. unfold stored. by intros ->. Qed.
Lemma state_ok_region log log' : state_kvs log' = state_kvs log → state_ok log → state_ok log'.
Proof. unfold state_ok. by intros ->. Qed.

(** *** Listing the records *)
Lemma mt_scan_elem mt start end_ k v :
  (k, v) ∈ mt_scan mt start end_ ↔ mt_kvs mt !! k = Some v ∧ bytes_leb start k && bytes_ltb k end_ = true.
Proof.
  unfold mt_scan. by rewrite merge_sort_Permutation, list_elem_of_In, filter_In, <- list_elem_of_In, elem_of_map_to_list.
Qed.
Lemma mt_scan_nodup mt start end_ : NoDup (mt_scan mt start end_).*1.
Proof.
  unfold mt_scan. rewrite merge_sort_Permutation.
  pose proof (NoDup_fst_map_to_list (mt_kvs mt)) as Hn. induction (map_to_list (mt_kvs mt)) as [|p l IH]; [constructor|].
  cbn in Hn. apply NoDup_cons in Hn as [Hp Hn]. cbn. destruct (_ && _); [|by apply IH].
  cbn. apply NoDup_cons. split; [|by apply IH]. intros (q & Hq & Hin)%list_elem_of_fmap. apply Hp.
  apply list_elem_of_fmap. exists q. split; [done|]. apply list_elem_of_In, filter_In in Hin as [Hin _]. by apply list_elem_of_In.
Qed.

Definition record_of (t : Z * Z * ReplicaLocalState) : bytes * bytes :=
  (replica_state_key t.1.2, encode_to_vec (meta_of t.1.1 t.1.2 t.2)).
Lemma scanned_records (l : list (bytes * bytes)) :
  (∀ k v, (k, v) ∈ l → ∃ g r s, u64_ok r ∧ k = replica_state_key r ∧ v = encode_to_vec (meta_of g r s)) →
  ∃ ts, l = map record_of ts ∧ Forall (λ t, u64_ok t.1.2) ts ∧
    replica_states_loop (omap (λ p, decode_msg p.2) l) = Ok ts.
Proof.
  induction l as [|[k v] l IH]; intros Hl; [by exists []|].
  destruct IH as (ts & -> & Hu & He); [intros; apply Hl; by right|].
  destruct (Hl k v) as (g & r & s & Hr & -> & ->); [by left|].
  exists ((g, r, s) :: ts). split; [done|]. split; [by constructor|].
  cbn. rewrite decode_encode_msg. cbn [replica_states_loop meta_of rm_state]. rewrite local_state_roundtrip.
  cbn [expect result_bind]. by rewrite He.
Qed.
Lemma record_keys (l : list (Z * Z * ReplicaLocalState)) :
  (map record_of l).*1 = map replica_state_key (l.*1.*2).
Proof. induction l as [|[[g r] s] l IH]; [done|]. cbn. by f_equal. Qed.

(** The listing has every record once. *)
Lemma replica_states_ok log :
  state_ok log → ∃ ts, replica_states log = Ok ts ∧ NoDup (ts.*1.*2) ∧
    (∀ g r s, (g, r, s) ∈ ts ↔ u64_ok r ∧ stored log r = Some (g, s)).
Proof.
  intros Hok. unfold replica_states, engine_scan_messages.
  set (mt := get_or_insert log STATE_REPLICA_ID).
  destruct (scanned_records (mt_scan mt REPLICA_STATE_PREFIX REPLICA_STATE_END)) as (ts & Hts & Hu & He).
  { intros k v Hkv. apply mt_scan_elem in Hkv as [Hkv Hin]. by apply Hok. }
  exists ts. split; [|split].
  - rewrite <- He. subst mt. unfold get_or_insert. by destruct (log !! STATE_REPLICA_ID).
  - pose proof (mt_scan_nodup mt REPLICA_STATE_PREFIX REPLICA_STATE_END) as Hn. rewrite Hts, record_keys in Hn.
    by apply NoDup_fmap_1 in Hn.
  - intros g r s. split.
    + intros Hin. assert (Hr : u64_ok r) by (rewrite Forall_forall in Hu; apply (Hu _ Hin)).
      split; [done|]. apply stored_at.
      assert (Hm : record_of (g, r, s) ∈ mt_scan mt REPLICA_STATE_PREFIX REPLICA_STATE_END).
      { rewrite Hts. by apply list_elem_of_fmap_2. }
      by apply mt_scan_elem in Hm as [? _].
    + intros [Hr Hs]. apply stored_inv in Hs; [|done|done].
      assert (Hm : (replica_state_key r, encode_to_vec (meta_of g r s)) ∈ map record_of ts).
      { rewrite <- Hts. apply mt_scan_elem. split; [done|]. destruct (replica_state_key_range r) as [-> ->]. done. }
      apply list_elem_of_fmap in Hm as ([[g' r'] s'] & Heq & Hin).
      pose proof (f_equal fst Heq) as Hk. pose proof (f_equal snd Heq) as Hv. cbn [record_of fst snd] in Hk, Hv.
      rewrite Forall_forall in Hu. apply replica_state_key_inj in Hk as <-; [|done|apply (Hu _ Hin)].
      apply (f_equal decode_msg) in Hv. rewrite !decode_encode_msg in Hv. injection Hv as -> Hz.
      apply (f_equal ReplicaLocalState_from_i32) in Hz. rewrite !local_state_roundtrip in Hz. by injection Hz as ->.
Qed.
End State.

(** ** The log engine, region by region *)
Definition item_region (i : LogItem) : Z :=
  match i with
  | ItemEntries r _ | ItemClean r | ItemCompact r _ | ItemPut r _ _ | ItemDelete r _ => r
  end.
Lemma engine_write_other log batch log' r :
  engine_write log batch = Ok log' → Forall (λ i, item_region i ≠ r) batch → log' !! r = log !! r.
Proof.
  revert log. induction batch as [|i batch IH]; intros log Hw Hf; [by injection Hw as <-|].
  apply Forall_cons in Hf as [Hi Hf]. cbn [engine_write] in Hw.
  apply result_bind_ok in Hw as (log1 & Ha & Hw). rewrite (IH _ Hw Hf).
  destruct i; cbn [apply_item item_region] in *;
    try (apply result_bind_ok in Ha as (mt & _ & Ha)); injection Ha as <-;
    first [by rewrite lookup_insert_ne|by rewrite lookup_delete_ne].
Qed.
Lemma storage_open_region `{Codec Entry} `{Codec HardState} `{Codec RaftLocalState} f id a c log log' :
  log' !! id = log !! id → storage_open f id a c log' = storage_open f id a c log.
Proof.
  intros He. unfold storage_open, engine_get_message, engine_first_index, engine_last_index, engine_fetch_entries_to.
  by rewrite He.
Qed.

Section Host.
  Context {DB : Type} {RD : RocksDb DB} {RDok : RocksDbOk DB}.
  Context {CI : Codec EntryId} {CIok : CodecOk EntryId} {CG : Codec GroupDesc} {CGok : CodecOk GroupDesc}.
  Context {CS : Codec MoveShardState} {CSok : CodecOk MoveShardState}.
  Context {CM : Codec ReplicaMeta} {CMok : CodecOk ReplicaMeta}.
  Context {CE : Codec Entry} {CH : Codec HardState} {CHok : CodecOk HardState}.
  Context {CL : Codec RaftLocalState} {CLok : CodecOk RaftLocalState}.
  Context {CC : Codec ChangeReplicas} {CV : Codec ConfChangeV2} {CR : Codec EvalResult}.
  Context {RN : RawNode} {RNok : RawNodeOk}.

Lemma raft_node_new_region r (ge : GroupEngine DB) log log' :
  log' !! r = log !! r → raft_node_new r ge log' = raft_node_new r ge log.
Proof. intros He. unfold raft_node_new. destruct (flushed_apply_state _); [|done|done]. cbn. by rewrite (storage_open_region _ _ _ _ _ _ He). Qed.

Lemma created_engine g : ∃ ge : GroupEngine DB, ge_create g = Ok ge ∧ ge_open (ge_db ge) = Ok ge ∧
  flushed_apply_state (ge_db ge) = Ok (mkEntryId 0 0) ∧ ge_descriptor ge = mkGroupDesc g INITIAL_EPOCH [] [].
Proof.
  assert (Hc : ∃ ge : GroupEngine DB, ge_create g = Ok ge ∧ ge_descriptor ge = mkGroupDesc g INITIAL_EPOCH [] []) by (by eexists).
  destruct Hc as (ge & Hc & Hd). exists ge. split; [done|].
  split; [by apply ge_create_synced in Hc as [? _]|]. split; [|done].
  apply group_commit_db in Hc. unfold flushed_apply_state. rewrite Hc, states_apply_state. cbn [ws_apply_state expect result_bind].
  by rewrite decode_encode_msg.
Qed.

(** *** A replica that was just created starts *)
Lemma initial_opens log r reps evs log' conf :
  write_initial_state false log r reps evs = Ok log' →
  ∃ st, storage_open false r 0 conf log' = Ok st ∧ st_replica_id st = r ∧ st_initial_conf_state st = Some conf ∧
    st_first_index st - 1 ≤ hs_commit (st_hard_state st) ≤ st_last_index st.
Proof.
  intros Hw. destruct (initial_state_repr log r reps evs) as (log1 & lg & Hw' & Hreg & Ht & _ & Hcons & _ & Hcm).
  rewrite Hw' in Hw. injection Hw as ->. destruct Hreg as (mt & Hmt & He & Hf & Hh & Hl).
  unfold storage_open, engine_get_message, engine_first_index, engine_last_index, engine_fetch_entries_to, mt_last_index, mt_span.
  rewrite Hmt. cbn [mbind option_bind]. rewrite Hh, Hl, !decode_encode_msg, He, Ht.
  cbn [engine_result result_map_err result_bind expect rl_last_truncated ei_index].
  unfold lg_first in Hf. rewrite Ht in Hf. cbn in Hf.
  destruct (lg_entries lg) as [|e l] eqn:El.
  - rewrite decide_False by (cbn; lia). cbn. eexists. split; [done|]. cbn in *. rewrite Hcm. split_and!; (done || lia).
  - rewrite decide_True by (cbn; lia). rewrite (Hf ltac:(done)).
    cbn [fmap option_fmap option_map fst snd from_option]. unfold Datatypes.id.
    set (n := Z.of_nat (length (e :: l))) in *. assert (0 < n) by (subst n; cbn [length]; lia).
    zbool. cbn [negb Z.eqb result_bind]. zbool. cbn [andb negb]. zbool. cbn [negb].
    unfold mt_fetch_entries_to. rewrite He, (Hf ltac:(done)). zbool. fold n. zbool.
    cbn [engine_result result_map_err result_bind]. eexists. split; [done|].
    cbn [st_replica_id st_initial_conf_state st_first_index st_hard_state st_last_index]. rewrite Hcm. split_and!; (done || lia).
Qed.
Lemma created_starts log r reps evs log' g (ge : GroupEngine DB) :
  r ≠ 0 → write_initial_state false log r reps evs = Ok log' → ge_create g = Ok ge →
  ∃ out, raft_node_new r ge log' = Ok out.
Proof.
  intros Hr Hw Hc. destruct (created_engine g) as (ge' & Hc' & _ & Hfl & Hd). rewrite Hc in Hc'. injection Hc' as <-.
  unfold raft_node_new. rewrite Hfl, Hd. cbn [ei_index result_bind].
  destruct (initial_opens log r reps evs log' (conf_state_from_group_descriptor (mkGroupDesc g INITIAL_EPOCH [] [])) Hw)
    as (st & -> & Hid & Hcf & Hcm).
  cbn [result_bind]. by apply raw_node_starts.
Qed.
Lemma initial_other log r reps evs log' r' :
  write_initial_state false log r reps evs = Ok log' → r' ≠ r → log' !! r' = log !! r'.
Proof.
  intros Hw Hne. unfold write_initial_state in Hw. apply result_bind_ok in Hw as (confs & _ & Hw).
  set (b := batch_put_message _ _ _ _) in Hw. unfold engine_result in Hw.
  destruct (engine_write log b) as [l| |] eqn:Ew; [|done|done]. injection Hw as ->.
  apply (engine_write_other _ _ _ _ Ew). subst b. unfold batch_put_message, batch_add_entries.
  destruct (confs ++ _); cbn; by repeat constructor.
Qed.
Lemma initial_total log r reps evs : ∃ log', write_initial_state false log r reps evs = Ok log'.
Proof. destruct (initial_state_repr log r reps evs) as (l & _ & Hl & _). by exists l. Qed.

(** ** What the disk looks like

    A live record belongs to a replica that starts from what is on disk, or
    whose column family is still to be made; a group has one live record; a
    column family belongs to a recorded replica. *)
Definition startable (log : LogEngine) (db : DB) (r : Z) : Prop :=
  ∃ ge out, ge_open db = Ok ge ∧ raft_node_new r ge log = Ok out.
Definition fresh_start (log : LogEngine) (g r : Z) : Prop :=
  ∃ (ge : GroupEngine DB) out, ge_create g = Ok ge ∧ raft_node_new r ge log = Ok out.
Definition ready (d : Disk DB) (g r : Z) (s : ReplicaLocalState) : Prop :=
  match dk_cfs d !! (g, r) with
  | Some db => startable (dk_log d) db r ∨ (db = db_empty ∧ s = Initial ∧ fresh_start (dk_log d) g r)
  | None => s = Initial ∧ fresh_start (dk_log d) g r
  end.
Record disk_ok (d : Disk DB) : Prop := {
  dk_records : state_ok (dk_log d);
  dk_ready g r s : u64_ok r → stored (dk_log d) r = Some (g, s) → r ≠ 0 ∧ (live s → ready d g r s);
  dk_single g r r' s s' : u64_ok r → u64_ok r' → stored (dk_log d) r = Some (g, s) →
    stored (dk_log d) r' = Some (g, s') → live s → live s' → r = r';
  dk_named g r : u64_ok r → is_Some (dk_cfs d !! (g, r)) → ∃ s, stored (dk_log d) r = Some (g, s) }.
(** No column family was made without its metadata (see [half_made_column_family]). *)
Definition whole (d : Disk DB) : Prop := ∀ g r, dk_cfs d !! (g, r) ≠ Some db_empty.

Lemma empty_not_open : ge_open (db_empty : DB) = Panic.
Proof. unfold ge_open, internal_descriptor. by rewrite db_get_empty. Qed.
Lemma startable_not_empty log (db : DB) r : startable log db r → db ≠ db_empty.
Proof. intros (ge & _ & Ho & _) ->. by rewrite empty_not_open in Ho. Qed.
Lemma startable_region log log' (db : DB) r : log' !! r = log !! r → startable log db r → startable log' db r.
Proof. intros He (ge & out & Ho & Hr). exists ge, out. by rewrite (raft_node_new_region _ _ _ _ He). Qed.
Lemma fresh_region log log' g r : log' !! r = log !! r → fresh_start log g r → fresh_start log' g r.
Proof. intros He (ge & out & Ho & Hr). exists ge, out. by rewrite (raft_node_new_region _ _ _ _ He). Qed.
Lemma ready_frame d d' g r s :
  dk_log d' !! r = dk_log d !! r → dk_cfs d' !! (g, r) = dk_cfs d !! (g, r) → ready d g r s → ready d' g r s.
Proof.
  intros Hl Hc. unfold ready. rewrite Hc. destruct (dk_cfs d !! (g, r)).
  - intros [?|(?&?&?)]; [left; by eapply startable_region|right; split_and!; [done|done|by eapply fresh_region]].
  - intros [??]. split; [done|by eapply fresh_region].
Qed.

(** A change that touches one replica. *)
Lemma disk_frame d d' r :
  disk_ok d → state_ok (dk_log d') →
  (∀ r', u64_ok r' → r' ≠ r → stored (dk_log d') r' = stored (dk_log d) r' ∧
    (r' ≠ 0 → dk_log d' !! r' = dk_log d !! r') ∧ ∀ g, dk_cfs d' !! (g, r') = dk_cfs d !! (g, r')) →
  (∀ g s, stored (dk_log d') r = Some (g, s) → r ≠ 0 ∧ (live s → ready d' g r s ∧
    ∀ r' s', u64_ok r' → r' ≠ r → stored (dk_log d) r' = Some (g, s') → ¬ live s')) →
  (∀ g, is_Some (dk_cfs d' !! (g, r)) → ∃ s, stored (dk_log d') r = Some (g, s)) →
  disk_ok d'.
Proof.
  intros Hd Hs Hother Hr Hcf. split; [done| | |].
  - intros g r' s Hu Hst. destruct (decide (r' = r)) as [->|Hne]; [destruct (Hr g s Hst) as [? Hx]; split; [done|]; intros; by apply Hx|].
    destruct (Hother r' Hu Hne) as (He & Hlog & Hc). rewrite He in Hst.
    destruct (dk_ready d Hd g r' s Hu Hst) as [H0 Hrd]. split; [done|]. intros Hl.
    eapply ready_frame; [by apply Hlog|apply Hc|by apply Hrd].
  - intros g r1 r2 s1 s2 Hu1 Hu2 H1 H2 Hl1 Hl2.
    destruct (decide (r1 = r)) as [->|Hn1], (decide (r2 = r)) as [->|Hn2]; [done| | |].
    + destruct (Hother r2 Hu2 Hn2) as (He & _). rewrite He in H2. destruct (Hr g s1 H1) as (_ & Hx).
      by destruct (Hx Hl1) as [_ Hy]; destruct (Hy r2 s2).
    + destruct (Hother r1 Hu1 Hn1) as (He & _). rewrite He in H1. destruct (Hr g s2 H2) as (_ & Hx).
      by destruct (Hx Hl2) as [_ Hy]; destruct (Hy r1 s1).
    + destruct (Hother r1 Hu1 Hn1) as (He1 & _). destruct (Hother r2 Hu2 Hn2) as (He2 & _). rewrite He1 in H1. rewrite He2 in H2.
      by eapply (dk_single d Hd).
  - intros g r' Hu Hc. destruct (decide (r' = r)) as [->|Hne]; [by apply Hcf|].
    destruct (Hother r' Hu Hne) as (-> & _ & Hc'). rewrite Hc' in Hc. by apply (dk_named d Hd).
Qed.

(** The identity and the root descriptor are on disk; the live records are
    those of [S]. *)
Context {CN : Codec NodeIdent} {CNok : CodecOk NodeIdent} {CT : Codec RootDesc} {CTok : CodecOk RootDesc}.
Definition boot_ok (ident : NodeIdent) (log : LogEngine) : Prop :=
  state_kvs log !! IDENT_KEY = Some (encode_to_vec ident) ∧
  ∃ root : RootDesc, state_kvs log !! ROOT_DESCRIPTOR_KEY = Some (encode_to_vec root).
Definition agrees (S : gmap Z Z) (log : LogEngine) : Prop :=
  ∀ r g, S !! r = Some g ↔ u64_ok r ∧ ∃ s, stored log r = Some (g, s) ∧ live s.
Definition good (ident : NodeIdent) (S : gmap Z Z) (d : Disk DB) : Prop :=
  disk_ok d ∧ boot_ok ident (dk_log d) ∧ agrees S (dk_log d).

Lemma boot_ok_put ident log g r s :
  boot_ok ident log → boot_ok ident (state_put log (replica_state_key r) (encode_to_vec (meta_of g r s))).
Proof.
  intros [H1 [root H2]]. unfold boot_ok. rewrite state_put_kvs. destruct (replica_state_key_ne r) as [Hn1 Hn2].
  rewrite !lookup_insert_ne by done. split; [done|by exists root].
Qed.
Lemma boot_ok_region ident log log' : state_kvs log' = state_kvs log → boot_ok ident log → boot_ok ident log'.
Proof. unfold boot_ok. by intros ->. Qed.
Lemma agrees_same S log log' :
  (∀ r, u64_ok r → stored log' r = stored log r) → agrees S log → agrees S log'.
Proof.
  intros He Ha r g. rewrite (Ha r g). split; intros [Hu (s & Hs & Hl)]; (split; [done|]); exists s; [by rewrite He|by rewrite <- He].
Qed.
Lemma agrees_put S log g r s :
  u64_ok r → agrees S log → agrees (if decide (live s) then <[r := g]> S else delete r S)
    (state_put log (replica_state_key r) (encode_to_vec (meta_of g r s))).
Proof.
  intros Hu Ha r' g'. destruct (decide (r' = r)) as [->|Hne].
  - rewrite stored_put_eq by done. destruct (decide (live s)).
    + rewrite lookup_insert_eq. split; [intros [= ->]; eauto|by intros [_ (s' & [= -> ->] & _)]].
    + rewrite lookup_delete_eq. split; [done|by intros [_ (s' & [= -> ->] & ?)]].
  - assert (HS : (if decide (live s) then <[r := g]> S else delete r S) !! r' = S !! r').
    { destruct (decide (live s)); [by rewrite lookup_insert_ne|by rewrite lookup_delete_ne]. }
    rewrite HS, (Ha r' g'). split; intros [Hu' (s' & Hs & Hl)]; (split; [done|]); exists s'; (split; [|done]).
    + by rewrite stored_put_ne.
    + by rewrite stored_put_ne in Hs by done.
Qed.

(** *** The changes the operations make, one write at a time *)
Section Changes.
  Context (d : Disk DB) (Hd : disk_ok d) (r : Z) (Hu : u64_ok r).
#[local] Abbreviation log := (dk_log d).
#[local] Abbreviation put g s := (state_put log (replica_state_key r) (encode_to_vec (meta_of g r s))).

(** Writing a record keeps the rest. *)
Lemma put_disk_ok g s :
  r ≠ 0 → (live s → ready (mkDisk (put g s) (dk_cfs d)) g r s ∧
    ∀ r' s', u64_ok r' → r' ≠ r → stored log r' = Some (g, s') → ¬ live s') →
  (∀ g', is_Some (dk_cfs d !! (g', r)) → g' = g) →
  disk_ok (mkDisk (put g s) (dk_cfs d)).
Proof.
  intros Hz Hl Hc. apply (disk_frame d _ r Hd); cbn [dk_log dk_cfs].
  - apply state_ok_put; [done|apply (dk_records d Hd)].
  - intros r' Hu' Hne. rewrite stored_put_ne by done. split_and!; [done| |done].
    intros H0. by rewrite state_put_other.
  - intros g' s'. rewrite stored_put_eq by done. by intros [= <- <-].
  - intros g' Hg'. rewrite (Hc g' Hg'). exists s. by rewrite stored_put_eq.
Qed.
(** A region is written that no live replica needs. *)
Lemma region_disk_ok log' :
  r ≠ 0 → (∀ r', r' ≠ r → log' !! r' = log !! r') → (∀ g s, stored log r = Some (g, s) → ¬ live s) →
  disk_ok (mkDisk log' (dk_cfs d)).
Proof.
  intros H0 Hl Hn. assert (Hk : state_kvs log' = state_kvs log) by (apply state_region_eq, Hl; by unfold STATE_REPLICA_ID).
  apply (disk_frame d _ r Hd); cbn [dk_log dk_cfs].
  - eapply state_ok_region; [done|apply (dk_records d Hd)].
  - intros r' Hu' Hne. split_and!; [by apply stored_region|intros _; by apply Hl|done].
  - intros g s. rewrite (stored_region _ _ _ Hk). intros Hs. split; [done|]. intros Hlv. by destruct (Hn g s).
  - intros g Hg. rewrite (stored_region _ _ _ Hk). by apply (dk_named d Hd).
Qed.
(** The column family of the replica is written, made or dropped. *)
Lemma cf_disk_ok cfs' g :
  (∀ g' r', (g', r') ≠ (g, r) → cfs' !! (g', r') = dk_cfs d !! (g', r')) →
  (∃ s, stored log r = Some (g, s)) →
  (∀ s, stored log r = Some (g, s) → live s → ready (mkDisk log cfs') g r s) →
  disk_ok (mkDisk log cfs').
Proof.
  intros Hc [s0 Hs0] Hrd. apply (disk_frame d _ r Hd); cbn [dk_log dk_cfs].
  - apply (dk_records d Hd).
  - intros r' Hu' Hne. split_and!; [done|done|]. intros g'. apply Hc. congruence.
  - intros g' s Hs. assert (g' = g) as -> by congruence. destruct (dk_ready d Hd g r s Hu Hs) as [H0 _].
    split; [done|]. intros Hl. split; [by apply Hrd|]. intros r' s' Hu' Hne Hs' Hl'. apply Hne. by eapply (dk_single d Hd).
  - intros g' [db Hg']. destruct (decide (g' = g)) as [->|Hne]; [by exists s0|].
    rewrite Hc in Hg' by congruence. apply (dk_named d Hd); [done|by exists db].
Qed.
End Changes.

(** ** Serving a replica *)
Definition settled (s : ReplicaLocalState) : ReplicaLocalState := match s with Initial => Normal | _ => s end.
Lemma settled_live s : live s → live (settled s) ∧ settled s ≠ Initial.
Proof. by destruct s. Qed.

(** What serving changes in the node, the disk apart. *)
Record served (g r node : Z) (s : ReplicaLocalState) (n n' : Node DB) : Prop := {
  sv_route : ∃ lease, rt_replicas (nd_route n') =
    <[g := mkHostedReplica (mkReplicaInfo r g node (settled s)) lease (nd_next n)]> (rt_replicas (nd_route n));
  sv_raft : nd_raft_route n' = <[r := nd_next n]> (nd_raft_route n);
  sv_state : nd_state n' = nd_state n;
  sv_tasks : nd_tasks n' = nd_tasks n;
  sv_next : nd_next n' = Datatypes.S (nd_next n);
  sv_closed : nd_closed n' = nd_closed n }.

Lemma persist_log_ok write (n : Node DB) log' :
  write (dk_log (nd_disk n)) = Ok log' → persist_log write n = persist (mkDisk log' (dk_cfs (nd_disk n))) n.
Proof. intros Hw. unfold persist_log, prog_bind, prog_reads. by rewrite Hw. Qed.
Lemma persist_cfs_ok f (n : Node DB) :
  persist_cfs f n = persist (mkDisk (dk_log (nd_disk n)) (f (dk_cfs (nd_disk n)))) n.
Proof. done. Qed.

(** The steps after the group engine is open. *)
Lemma serve_opened g r node s ch (n n1 : Node DB) ge out :
  open_group_engine g r s n = Some (Ok ge, n1) → raft_node_new r ge (dk_log (nd_disk n1)) = Ok out →
  ∃ ch' n' js, serve_replica g (replica_desc r node) s ch n = Some (Ok (mkReplicaContext g r node, ch'), n') ∧
    served g r node s n1 n' ∧ nd_journal n' = nd_journal n1 ++ js ∧
    match s with
    | Initial => let d := mkDisk (state_put (dk_log (nd_disk n1)) (replica_state_key r) (encode_to_vec (meta_of g r Normal)))
          (dk_cfs (nd_disk n1)) in nd_disk n' = d ∧ js = [d]
    | _ => nd_disk n' = nd_disk n1 ∧ js = []
    end.
Proof.
  intros Ho Hr. destruct out as [[leader vote] term].
  unfold serve_replica. unfold prog_bind at 1. cbn [replica_desc rd_id]. rewrite Ho.
  unfold start_raft_group, prog_bind at 1 2, prog_reads at 1. cbn [ReplicaInfo_new ri_replica_id rd_id replica_desc].
  rewrite Hr.
  assert (Hsv : ∀ n' : Node DB, (∃ lease, rt_replicas (nd_route n') =
    <[g := mkHostedReplica (mkReplicaInfo r g node (settled s)) lease (nd_next n1)]> (rt_replicas (nd_route n1))) →
    nd_raft_route n' = <[r := nd_next n1]> (nd_raft_route n1) → nd_state n' = nd_state n1 → nd_tasks n' = nd_tasks n1 →
    nd_next n' = Datatypes.S (nd_next n1) → nd_closed n' = nd_closed n1 → served g r node s n1 n') by done.
  destruct s; [eexists _, _, [_]|eexists _, _, []..].
  all: split; [reflexivity|]; split; [apply Hsv; try done; eexists; cbn; try reflexivity|].
  all: try (split; [cbn; by rewrite app_nil_r|done]).
  - by rewrite alter_insert_eq.
  - by split; [cbn|split; cbn].
Qed.

Section Serve.
  Context (ident : NodeIdent) (S : gmap Z Z).

Lemma good_cfs d cfs' : good ident S d → disk_ok (mkDisk (dk_log d) cfs') → good ident S (mkDisk (dk_log d) cfs').
Proof. intros (_ & Hb & Ha) Hd. by split. Qed.
(** The record of a served replica goes from one live state to another. *)
Lemma good_settle d g r s :
  good ident S d → S !! r = Some g → live s →
  (∃ db, dk_cfs d !! (g, r) = Some db ∧ startable (dk_log d) db r) →
  good ident S (mkDisk (state_put (dk_log d) (replica_state_key r) (encode_to_vec (meta_of g r s))) (dk_cfs d)).
Proof.
  intros (Hd & Hb & Ha) Hr Hl (db & Hdb & Hst). destruct (proj1 (Ha r g) Hr) as [Hu (s0 & Hs0 & Hl0)].
  destruct (dk_ready d Hd g r s0 Hu Hs0) as [Hz _].
  split; [|split; [by apply boot_ok_put|]].
  - apply put_disk_ok; [done|done|done| |].
    + intros _. split.
      * unfold ready. cbn [dk_cfs dk_log]. rewrite Hdb. left. eapply startable_region; [|done]. by apply state_put_other.
      * intros r' s' Hu' Hne Hs' Hl'. apply Hne. by eapply (dk_single d Hd).
    + intros g' Hg'. destruct (dk_named d Hd g' r Hu Hg') as [s' Hs']. congruence.
  - pose proof (agrees_put S (dk_log d) g r s Hu Ha) as Hp. rewrite decide_True in Hp by done. by rewrite insert_id in Hp.
Qed.

Lemma open_ok_cases g r s (n : Node DB) :
  good ident S (nd_disk n) → S !! r = Some g → stored (dk_log (nd_disk n)) r = Some (g, s) → live s →
  dk_cfs (nd_disk n) !! (g, r) ≠ Some db_empty →
  ∃ ge out n1 js db, open_group_engine g r s n = Some (Ok ge, n1) ∧ raft_node_new r ge (dk_log (nd_disk n1)) = Ok out ∧
    nd_disk n1 = mkDisk (dk_log (nd_disk n)) (<[(g, r) := db]> (dk_cfs (nd_disk n))) ∧
    startable (dk_log (nd_disk n)) db r ∧ nd_journal n1 = nd_journal n ++ js ∧
    Forall (good ident S) js ∧ good ident S (nd_disk n1) ∧ nd_route n1 = nd_route n ∧ nd_raft_route n1 = nd_raft_route n ∧
    nd_state n1 = nd_state n ∧ nd_tasks n1 = nd_tasks n ∧ nd_next n1 = nd_next n ∧ nd_closed n1 = nd_closed n.
Proof.
  intros Hg Hr Hs Hl Hne. pose proof Hg as (Hd & _ & Ha). destruct (proj1 (Ha r g) Hr) as [Hu _].
  destruct (dk_ready _ Hd g r s Hu Hs) as [Hz Hrd]. specialize (Hrd Hl). unfold ready in Hrd. unfold open_group_engine, prog_bind at 1, prog_reads at 1.
  destruct (dk_cfs (nd_disk n) !! (g, r)) as [db|] eqn:Ec.
  - destruct Hrd as [Hst|(-> & _)]; [|done]. destruct Hst as (ge & out & Ho & Hout).
    exists ge, out, n, [], db. cbn [result_bind]. unfold prog_lift. rewrite Ho, app_nil_r, insert_id by done.
    split_and!; try done; [by destruct (nd_disk n)|by exists ge, out].
  - destruct Hrd as [-> (ge & out & Hc & Hout)]. destruct (created_engine g) as (ge' & Hc' & Ho & _). rewrite Hc in Hc'. injection Hc' as <-.
    assert (Hst : startable (dk_log (nd_disk n)) (ge_db ge) r) by (by exists ge, out).
    set (d1 := mkDisk (dk_log (nd_disk n)) (<[(g, r) := db_empty]> (dk_cfs (nd_disk n)))).
    set (d2 := mkDisk (dk_log (nd_disk n)) (<[(g, r) := ge_db ge]> (dk_cfs (nd_disk n)))).
    assert (G1 : good ident S d1).
    { apply good_cfs; [done|]. apply (cf_disk_ok _ Hd r Hu _ g); [intros; by rewrite lookup_insert_ne|by exists Initial|].
      intros s' Hs' _. unfold ready. cbn [dk_cfs dk_log]. rewrite lookup_insert_eq. right.
      split_and!; [done|congruence|by exists ge, out]. }
    assert (G2 : good ident S d2).
    { apply good_cfs; [done|]. apply (cf_disk_ok _ Hd r Hu _ g); [intros; by rewrite lookup_insert_ne|by exists Initial|].
      intros s' Hs' _. unfold ready. cbn [dk_cfs dk_log]. rewrite lookup_insert_eq. by left. }
    eexists ge, out, _, [d1; d2], (ge_db ge). unfold create_group_engine. rewrite Hc. cbn.
    rewrite insert_insert_eq. split; [reflexivity|]. cbn. fold d1 d2. rewrite <- app_assoc. split_and!; try done. by apply Forall_cons_2, Forall_cons_2.
Qed.

Lemma serve_ok g r node s ch (n : Node DB) :
  good ident S (nd_disk n) → S !! r = Some g → stored (dk_log (nd_disk n)) r = Some (g, s) → live s →
  dk_cfs (nd_disk n) !! (g, r) ≠ Some db_empty →
  ∃ ch' n' js, serve_replica g (replica_desc r node) s ch n = Some (Ok (mkReplicaContext g r node, ch'), n') ∧
    served g r node s n n' ∧ nd_journal n' = nd_journal n ++ js ∧ Forall (good ident S) js ∧ good ident S (nd_disk n') ∧
    (∀ r', u64_ok r' → stored (dk_log (nd_disk n')) r' =
      if decide (r' = r) then Some (g, settled s) else stored (dk_log (nd_disk n)) r') ∧
    (∀ k, k ≠ (g, r) → dk_cfs (nd_disk n') !! k = dk_cfs (nd_disk n) !! k) ∧ dk_cfs (nd_disk n') !! (g, r) ≠ Some db_empty.
Proof.
  intros Hg Hr Hs Hl Hne. pose proof Hg as (_ & _ & Ha). destruct (proj1 (Ha r g) Hr) as [Hu _].
  destruct (open_ok_cases g r s n Hg Hr Hs Hl Hne)
    as (ge & out & n1 & js & db & Ho & Hout & Hdk & Hst & Hj & Hjs & Hg1 & E1 & E2 & E3 & E4 & E5 & E6).
  destruct (serve_opened g r node s ch n n1 ge out Ho Hout) as (ch' & n' & js' & Hsv & Hsrv & Hj' & Hcase).
  destruct Hsrv as [[lease Q1] Q2 Q3 Q4 Q5 Q6]. rewrite E1, E5 in Q1. rewrite E2, E5 in Q2. rewrite E3 in Q3.
  rewrite E4 in Q4. rewrite E5 in Q5. rewrite E6 in Q6.
  exists ch', n', (js ++ js'). split; [done|]. split; [split; eauto|]. split; [by rewrite Hj', Hj, app_assoc|].
  assert (Hcf : ∀ k, k ≠ (g, r) → dk_cfs (nd_disk n1) !! k = dk_cfs (nd_disk n) !! k).
  { intros k Hk. rewrite Hdk. cbn. by rewrite lookup_insert_ne. }
  assert (Hcr : dk_cfs (nd_disk n1) !! (g, r) = Some db) by (rewrite Hdk; cbn; by rewrite lookup_insert_eq).
  assert (Hlog : dk_log (nd_disk n1) = dk_log (nd_disk n)) by (by rewrite Hdk).
  pose proof (startable_not_empty _ _ _ Hst) as Hdb.
  assert (Hsame : s ≠ Initial → nd_disk n' = nd_disk n1 ∧ js' = []) by (by destruct s).
  destruct (decide (s = Initial)) as [->|Hni].
  - destruct Hcase as [Hd' ->]. rewrite Hd', Forall_app. cbn [dk_log dk_cfs settled].
    assert (Hgn : good ident S (mkDisk (state_put (dk_log (nd_disk n1)) (replica_state_key r) (encode_to_vec (meta_of g r Normal)))
      (dk_cfs (nd_disk n1)))).
    { apply good_settle; [done|done|done|]. exists db. by rewrite Hlog. }
    split_and!; try done; [by constructor| |congruence].
    intros r' Hu'. by rewrite stored_put, Hlog.
  - destruct (Hsame Hni) as [-> ->]. rewrite app_nil_r, Hlog. split_and!; try done; [|congruence].
    intros r' Hu'. destruct (decide (r' = r)) as [->|]; [|done]. rewrite Hs. by destruct s.
Qed.
End Serve.

(** ** The tables of the node *)
Record tables_ok (node : Z) (S : gmap Z Z) (n : Node DB) : Prop := {
  tb_serving r : ns_serving_replicas (nd_state n) !! r = (λ g, mkReplicaContext g r node) <$> S !! r;
  tb_groups g : g ∈ ns_serving_groups (nd_state n) ↔ ∃ r, S !! r = Some g;
  tb_single r r' g : S !! r = Some g → S !! r' = Some g → r = r';
  tb_route g rp : rt_replicas (nd_route n) !! g = Some rp → ∃ r s, hr_info rp = mkReplicaInfo r g node s ∧ live s ∧
    S !! r = Some g ∧ nd_raft_route n !! r = Some (hr_raft rp);
  tb_routed r g : S !! r = Some g → is_Some (rt_replicas (nd_route n) !! g);
  tb_raft r : is_Some (nd_raft_route n !! r) → is_Some (S !! r);
  tb_open r c : nd_raft_route n !! r = Some c → (c < nd_next n)%nat ∧ c ∉ nd_closed n;
  tb_own r r' c : nd_raft_route n !! r = Some c → nd_raft_route n !! r' = Some c → r = r';
  tb_closed c : c ∈ nd_closed n → (c < nd_next n)%nat }.

Lemma tables_empty node disk : tables_ok node ∅ (Node_new disk).
Proof.
  split; cbn; intros *; rewrite ?lookup_empty, ?elem_of_empty; try done.
  split; [done|intros [r Hr]; by rewrite lookup_empty in Hr].
Qed.
Lemma tables_insert node S g r s (n n1 n' : Node DB) :
  tables_ok node S n → S !! r = None → (∀ r', S !! r' ≠ Some g) → live s → served g r node s n n1 →
  nd_route n' = nd_route n1 → nd_raft_route n' = nd_raft_route n1 → nd_next n' = nd_next n1 → nd_closed n' = nd_closed n1 →
  ns_serving_replicas (nd_state n') = <[r := mkReplicaContext g r node]> (ns_serving_replicas (nd_state n)) →
  ns_serving_groups (nd_state n') = {[g]} ∪ ns_serving_groups (nd_state n) →
  tables_ok node (<[r := g]> S) n'.
Proof.
  intros T Hr Hg Hl [[lease Q1] Q2 Q3 Q4 Q5 Q6] E1 E2 E3 E4 E5 E6.
  assert (Hraft : nd_raft_route n !! r = None).
  { destruct (nd_raft_route n !! r) eqn:E; [|done]. destruct (tb_raft _ _ _ T r) as [? ?]; [by eexists|congruence]. }
  split; rewrite ?E1, ?E2, ?E3, ?E4, ?E5, ?E6, ?Q1, ?Q2, ?Q5, ?Q6.
  - intros r'. destruct (decide (r' = r)) as [->|]; [by rewrite !lookup_insert_eq|].
    rewrite !lookup_insert_ne by done. apply T.
  - intros g'. rewrite elem_of_union, elem_of_singleton, (tb_groups _ _ _ T g'). split.
    + intros [->|[r' Hr']]; [exists r; by rewrite lookup_insert_eq|].
      exists r'. rewrite lookup_insert_ne; [done|congruence].
    + intros [r' [[<- <-]|[_ Hr']]%lookup_insert_Some]; [by left|right; eauto].
  - intros r1 r2 g' [[<- <-]|[_ H1]]%lookup_insert_Some [[<- Hx]|[_ H2]]%lookup_insert_Some; subst.
    + done. + by destruct (Hg r2). + by destruct (Hg r1). + by eapply (tb_single _ _ _ T).
  - intros g' rp [[<- <-]|[Hne Hrp]]%lookup_insert_Some.
    + exists r, (settled s). rewrite !lookup_insert_eq. split_and!; try done. by apply settled_live.
    + destruct (tb_route _ _ _ T g' rp Hrp) as (r' & s' & Hi & Hl' & HS & Hc). exists r', s'.
      assert (r' ≠ r) by congruence. by rewrite !lookup_insert_ne.
  - intros r' g' [[<- <-]|[Hne HS]]%lookup_insert_Some; [rewrite lookup_insert_eq; by eexists|].
    rewrite lookup_insert_ne; [by eapply (tb_routed _ _ _ T)|]. intros ->. by destruct (Hg r').
  - intros r' [c [[<- _]|[Hne Hc]]%lookup_insert_Some]; [rewrite lookup_insert_eq; by eexists|].
    rewrite lookup_insert_ne by done. apply (tb_raft _ _ _ T). by eexists.
  - intros r' c [[<- <-]|[Hne Hc]]%lookup_insert_Some.
    + split; [lia|]. intros Hin%(tb_closed _ _ _ T). lia.
    + destruct (tb_open _ _ _ T r' c Hc). split; [lia|done].
  - intros r1 r2 c [[<- <-]|[Hne1 H1]]%lookup_insert_Some [[<- Hx]|[Hne2 H2]]%lookup_insert_Some; subst.
    + done. + apply (tb_open _ _ _ T) in H2. lia. + apply (tb_open _ _ _ T) in H1. lia. + by eapply (tb_own _ _ _ T).
  - intros c Hin%(tb_closed _ _ _ T). lia.
Qed.

Lemma tables_same node S (n n' : Node DB) :
  tables_ok node S n → rt_replicas (nd_route n') = rt_replicas (nd_route n) → nd_raft_route n' = nd_raft_route n →
  nd_next n' = nd_next n → nd_closed n' = nd_closed n →
  ns_serving_replicas (nd_state n') = ns_serving_replicas (nd_state n) →
  ns_serving_groups (nd_state n') = ns_serving_groups (nd_state n) → tables_ok node S n'.
Proof. intros [] E1 E2 E3 E4 E5 E6. split; by rewrite ?E1, ?E2, ?E3, ?E4, ?E5, ?E6. Qed.

Lemma tables_remove node S g r rp (n n' : Node DB) :
  tables_ok node S n → rt_replicas (nd_route n) !! g = Some rp → ri_replica_id (hr_info rp) = r →
  rt_replicas (nd_route n') = delete g (rt_replicas (nd_route n)) → nd_raft_route n' = delete r (nd_raft_route n) →
  nd_next n' = nd_next n → nd_closed n' = {[hr_raft rp]} ∪ nd_closed n →
  ns_serving_replicas (nd_state n') = delete r (ns_serving_replicas (nd_state n)) →
  ns_serving_groups (nd_state n') = ns_serving_groups (nd_state n) ∖ {[g]} →
  tables_ok node (delete r S) n'.
Proof.
  intros T Hrp Hid E1 E2 E3 E4 E5 E6.
  destruct (tb_route _ _ _ T g rp Hrp) as (r0 & s0 & Hi & _ & HS & Hc). rewrite Hi in Hid. cbn in Hid. subst r0.
  split; rewrite ?E1, ?E2, ?E3, ?E4, ?E5, ?E6.
  - intros r'. destruct (decide (r' = r)) as [->|]; [by rewrite !lookup_delete_eq|].
    rewrite !lookup_delete_ne by done. apply T.
  - intros g'. rewrite elem_of_difference, elem_of_singleton, (tb_groups _ _ _ T g'). split.
    + intros [[r' Hr'] Hne]. exists r'. rewrite lookup_delete_ne; [done|congruence].
    + intros [r' [Hne Hr']%lookup_delete_Some]. split; [by exists r'|]. intros ->.
      apply Hne. by eapply (tb_single _ _ _ T).
  - intros r1 r2 g' [_ H1]%lookup_delete_Some [_ H2]%lookup_delete_Some. by eapply (tb_single _ _ _ T).
  - intros g' rp' [Hne Hrp']%lookup_delete_Some.
    destruct (tb_route _ _ _ T g' rp' Hrp') as (r' & s' & Hi' & Hl' & HS' & Hc'). exists r', s'.
    assert (r' ≠ r) by congruence. by rewrite !lookup_delete_ne.
  - intros r' g' [Hne HS']%lookup_delete_Some. rewrite lookup_delete_ne; [by eapply (tb_routed _ _ _ T)|].
    intros ->. apply Hne. by eapply (tb_single _ _ _ T).
  - intros r' [c [Hne Hc']%lookup_delete_Some]. rewrite lookup_delete_ne by done. apply (tb_raft _ _ _ T). by eexists.
  - intros r' c [Hne Hc']%lookup_delete_Some. destruct (tb_open _ _ _ T r' c Hc') as [? ?]. split; [done|].
    rewrite not_elem_of_union, not_elem_of_singleton. split; [|done]. intros ->. apply Hne. by eapply (tb_own _ _ _ T).
  - intros r1 r2 c [_ H1]%lookup_delete_Some [_ H2]%lookup_delete_Some. by eapply (tb_own _ _ _ T).
  - intros c [->%elem_of_singleton|Hin]%elem_of_union; [by apply (tb_open _ _ _ T) in Hc as [? _]|by apply (tb_closed _ _ _ T)].
Qed.

(** The node serves exactly [S], which is what its disk records as live. *)
Definition removed (log : LogEngine) (t : Z * Z) : Prop :=
  u64_ok t.2 ∧ ∃ s, stored log t.2 = Some (t.1, s) ∧ ¬ live s.
Record hosting (ident : NodeIdent) (S : gmap Z Z) (n : Node DB) : Prop := {
  ho_ident : ns_ident (nd_state n) = Some ident;
  ho_channel : is_Some (ns_channel (nd_state n));
  ho_tables : tables_ok (ni_node_id ident) S n;
  ho_good : good ident S (nd_disk n);
  ho_settled g r : u64_ok r → stored (dk_log (nd_disk n)) r ≠ Some (g, Initial);
  ho_tasks : Forall (removed (dk_log (nd_disk n))) (nd_tasks n) }.

(** ** Recovery *)
Section Recovery.
  Context (ident : NodeIdent) (S : gmap Z Z).
#[local] Abbreviation node := (ni_node_id ident).

(** What the loop of [bootstrap] leaves behind for the records [ts]. *)
Record recovered (ts : list (Z * Z * ReplicaLocalState)) (S0 : gmap Z Z) (n n' : Node DB) : Prop := {
  re_good : good ident S (nd_disk n');
  re_journal : ∃ js, nd_journal n' = nd_journal n ++ js ∧ Forall (good ident S) js;
  re_tables : ∃ S1, tables_ok node S1 n' ∧
    ∀ r g, S1 !! r = Some g ↔ S0 !! r = Some g ∨ ∃ s, (g, r, s) ∈ ts ∧ live s;
  re_stored r : u64_ok r → stored (dk_log (nd_disk n')) r =
    if decide (r ∈ ts.*1.*2) then prod_map id settled <$> stored (dk_log (nd_disk n)) r else stored (dk_log (nd_disk n)) r;
  re_ident : ns_ident (nd_state n') = ns_ident (nd_state n);
  re_tasks : ∃ l, nd_tasks n' = nd_tasks n ++ l ∧ Forall (λ t, (t.1, t.2, Terminated) ∈ ts) l }.

Lemma recovered_nil S0 (n : Node DB) : good ident S (nd_disk n) → tables_ok node S0 n → recovered [] S0 n n.
Proof.
  intros Hg Ht. split; [done| | |done|done|].
  - exists []. split; [by rewrite app_nil_r|constructor].
  - exists S0. split; [done|]. intros r g. split; [by left|]. intros [?|(s & Hs & _)]; [done|by apply not_elem_of_nil in Hs].
  - exists []. split; [by rewrite app_nil_r|constructor].
Qed.

(** Records that were removed only leave work for the destroy job. *)
Lemma recovered_removed ts S0 g r s l (n n1 n' : Node DB) :
  stored (dk_log (nd_disk n)) r = Some (g, s) → ¬ live s → r ∉ ts.*1.*2 → u64_ok r →
  nd_disk n1 = nd_disk n → nd_journal n1 = nd_journal n → nd_state n1 = nd_state n → nd_tasks n1 = nd_tasks n ++ l →
  Forall (λ t, t = (g, r) ∧ s = Terminated) l → recovered ts S0 n1 n' → recovered ((g, r, s) :: ts) S0 n n'.
Proof.
  intros Hs Hnl Hni Hu E1 E2 E3 E4 Hl [G J (S1 & T & HS1) St Id (l' & Hl' & Hf)].
  split; [done|by rewrite <- E2| | |by rewrite Id, E3|].
  - exists S1. split; [done|]. intros r' g'. rewrite (HS1 r' g'). split.
    + intros [?|(s' & ? & ?)]; [by left|right; exists s'; split; [by right|done]].
    + intros [?|(s' & [Hx|?]%elem_of_cons & ?)]; [by left| |right; by exists s']. by simplify_eq.
  - intros r' Hu'. rewrite (St r' Hu'), E1. cbn [fmap list_fmap fst snd]. destruct (decide (r' = r)) as [->|Hne].
    + rewrite decide_False by done. rewrite decide_True by (by left). rewrite Hs. cbn. destruct s; (done || by destruct Hnl).
    + destruct (decide (r' ∈ ts.*1.*2)) as [Hin|Hin]; [by rewrite decide_True by (by right)|].
      rewrite decide_False; [done|]. by intros [?|?]%elem_of_cons.
  - exists (l ++ l'). rewrite Hl', E4, app_assoc. split; [done|]. apply Forall_app. split.
    + eapply Forall_impl; [exact Hl|]. intros t [-> ->]. by left.
    + eapply Forall_impl; [exact Hf|]. intros t ?. by right.
Qed.

(** A live record is served and settled. *)
Lemma recovered_served ts S0 g r s (n n1 n2 n' : Node DB) js :
  good ident S (nd_disk n) → tables_ok node S0 n → (∀ r' g', S0 !! r' = Some g' → S !! r' = Some g' ∧ r' ≠ r) →
  u64_ok r → stored (dk_log (nd_disk n)) r = Some (g, s) → live s → r ∉ ts.*1.*2 →
  served g r node s n n1 → nd_journal n1 = nd_journal n ++ js → Forall (good ident S) js →
  (∀ r', u64_ok r' → stored (dk_log (nd_disk n1)) r' =
    if decide (r' = r) then Some (g, settled s) else stored (dk_log (nd_disk n)) r') →
  update_state (insert_serving r g (mkReplicaContext g r node)) n1 = Some (Ok tt, n2) →
  tables_ok node (<[r := g]> S0) n2 ∧ (recovered ts (<[r := g]> S0) n2 n' → recovered ((g, r, s) :: ts) S0 n n').
Proof.
  intros Hg HT HS0 Hu Hst Hl Hni Hsv Hj Hjs Hst1 [= <-]. pose proof Hsv as [_ _ Q3 Q4 _ _].
  pose proof Hg as (Hd & _ & Ha).
  assert (HSr : S !! r = Some g) by (apply Ha; eauto).
  assert (Hfresh : S0 !! r = None) by (destruct (S0 !! r) eqn:E; [by apply HS0 in E as [_ ?]|done]).
  split.
  { eapply tables_insert; try done; [|by rewrite Q3..].
    intros r' Hr'. destruct (HS0 r' g Hr') as [HSr' Hne]. apply Hne.
    apply Ha in HSr' as (Hu' & s' & Hs' & Hl'). by eapply (dk_single _ Hd). }
  intros [G (js' & J & Jf) (S1 & T & HS1) St Id (l' & Hl' & Hf)]. cbn in *.
  split; [done| | | |by rewrite Id, Q3|].
  - exists (js ++ js'). rewrite J, Hj, app_assoc. split; [done|by apply Forall_app].
  - exists S1. split; [done|]. intros r' g'. rewrite (HS1 r' g'), lookup_insert_Some. split.
    + intros [[[<- <-]|[_ ?]]|(s' & ? & ?)]; [right; exists s; split; [by left|done]|by left|right; exists s'; split; [by right|done]].
    + intros [Hx|(s' & [Hx|?]%elem_of_cons & ?)]; [|simplify_eq; by left; left|right; by exists s'].
      left. right. split; [|done]. intros ->. by destruct (HS0 r' g' Hx).
  - intros r' Hu'. rewrite (St r' Hu'), (Hst1 r' Hu'). cbn [fmap list_fmap fst snd]. destruct (decide (r' = r)) as [->|Hne].
    + rewrite decide_False by done. rewrite decide_True by (by left). by rewrite Hst.
    + destruct (decide (r' ∈ ts.*1.*2)) as [Hin|Hin]; [by rewrite decide_True by (by right)|].
      rewrite decide_False; [done|]. by intros [?|?]%elem_of_cons.
  - exists l'. rewrite Hl', Q4. split; [done|]. eapply Forall_impl; [exact Hf|]. intros t ?. by right.
Qed.

Definition listed (ts : list (Z * Z * ReplicaLocalState)) (S0 : gmap Z Z) (d : Disk DB) : Prop :=
  NoDup (ts.*1.*2) ∧ (∀ g r s, (g, r, s) ∈ ts → u64_ok r ∧ stored (dk_log d) r = Some (g, s) ∧ dk_cfs d !! (g, r) ≠ Some db_empty) ∧
  (∀ r g, S0 !! r = Some g → S !! r = Some g ∧ r ∉ ts.*1.*2).
Lemma listed_cons g r s ts S0 d :
  listed ((g, r, s) :: ts) S0 d → u64_ok r ∧ stored (dk_log d) r = Some (g, s) ∧ dk_cfs d !! (g, r) ≠ Some db_empty ∧
    (r ∉ ts.*1.*2) ∧ listed ts S0 d ∧ (∀ r' g', S0 !! r' = Some g' → S !! r' = Some g' ∧ r' ≠ r).
Proof.
  intros (Hn & Hin & HS). cbn in Hn. apply NoDup_cons in Hn as [Hni Hn].
  destruct (Hin g r s) as (Hu & Hs & Hc); [by left|]. split_and!; try done.
  - split_and!; [done|intros; by apply Hin; right|]. intros r' g' Hr'. destruct (HS r' g' Hr') as [? Hx]. split; [done|].
    intros ?. apply Hx. by right.
  - intros r' g' Hr'. destruct (HS r' g' Hr') as [? Hx]. split; [done|]. intros ->. apply Hx. by left.
Qed.

Lemma bootstrap_loop_ok ts : ∀ ch S0 (n : Node DB),
  good ident S (nd_disk n) → tables_ok node S0 n → listed ts S0 (nd_disk n) →
  ∃ ch' n', bootstrap_loop node ts ch n = Some (Ok ch', n') ∧ recovered ts S0 n n'.
Proof.
  induction ts as [|[[g r] s] ts IH]; intros ch S0 n Hg HT HL; [exists ch, n; split; [done|by apply recovered_nil]|].
  apply listed_cons in HL as (Hu & Hs & Hc & Hni & HL & HS0). pose proof Hg as (_ & _ & Ha).
  destruct (decide (live s)) as [Hl|Hnl].
  - destruct (serve_ok ident S g r node s ch n Hg) as (ch1 & n1 & js & He & Hsv & Hj & Hjs & Hg1 & Hst & Hcf & _); try done.
    { apply Ha. eauto. }
    set (n2 := mkNode (nd_disk n1) (nd_journal n1) (nd_route n1) (nd_raft_route n1)
      (insert_serving r g (mkReplicaContext g r node) (nd_state n1)) (nd_tasks n1) (nd_recycled n1) (nd_next n1) (nd_closed n1) (nd_woken n1)).
    destruct (recovered_served ts S0 g r s n n1 n2 n2 js) as [HT2 _]; try done.
    destruct (IH ch1 (<[r := g]> S0) n2) as (ch' & n' & Hrun & Hrec); [done|done| |].
    { destruct HL as (Hn & Hin & HS). split_and!; [done| |].
      - intros g' r' s' Hin'. destruct (Hin g' r' s' Hin') as (Hu' & Hs' & Hc').
        assert (r' ≠ r) by (intros ->; apply Hni; apply list_elem_of_fmap; exists (g', r); split; [done|];
          apply list_elem_of_fmap; by exists (g', r, s')).
        subst n2. cbn [nd_disk]. rewrite Hst, decide_False, Hcf by (done || congruence). done.
      - intros r' g' [[<- <-]|[_ ?]]%lookup_insert_Some; [split; [apply Ha; eauto|done]|by apply HS]. }
    exists ch', n'. split.
    + cbn [bootstrap_loop]. destruct s; try (by destruct Hl); cbn [prog_bind prog_lift];
        unfold prog_bind; rewrite He; cbn; exact Hrun.
    + by eapply (recovered_served ts S0 g r s n n1 n2 n' js).
  - set (l := match s with Terminated => [(g, r)] | _ => [] end).
    set (n1 := mkNode (nd_disk n) (nd_journal n) (nd_route n) (nd_raft_route n) (nd_state n) (nd_tasks n ++ l)
      (nd_recycled n ++ [r]) (nd_next n) (nd_closed n) (nd_woken n)).
    destruct (IH ch S0 n1) as (ch' & n' & Hrun & Hrec); [done|by eapply tables_same|done|].
    exists ch', n'. split.
    + cbn [bootstrap_loop]. destruct s; try (by destruct Hnl); [exact Hrun|].
      subst n1 l. rewrite app_nil_r in Hrun. exact Hrun.
    + eapply (recovered_removed ts S0 g r s l n n1); try done. subst l. by destruct s; repeat constructor.
Qed.

(** [bootstrap] on a disk without half-made column families serves its live
    records, and what it writes changes none of them. *)
Lemma bootstrap_ok (n : Node DB) :
  good ident S (nd_disk n) → whole (nd_disk n) → tables_ok node ∅ n → nd_tasks n = [] →
  ∃ n', bootstrap ident n = Some (Ok tt, n') ∧ hosting ident S n' ∧
    ∃ js, nd_journal n' = nd_journal n ++ js ∧ Forall (good ident S) js.
Proof.
  intros Hg Hw HT Htk. pose proof Hg as (Hd & _ & Ha).
  destruct (replica_states_ok (dk_log (nd_disk n)) (dk_records _ Hd)) as (ts & Hts & Hnd & Hin).
  set (n1 := mkNode (nd_disk n) (nd_journal n) (nd_route n) (nd_raft_route n) (set_ident ident (nd_state n)) (nd_tasks n)
    (nd_recycled n) (nd_next n) (nd_closed n) (nd_woken n)).
  destruct (bootstrap_loop_ok ts [] ∅ n1) as (ch & n2 & Hrun & [G (js & J & Jf) (S1 & T & HS1) St Id (l & Hl & Hf)]).
  { done. } { by eapply tables_same. }
  { split_and!; [done| |by intros r g; rewrite lookup_empty].
    intros g r s Hx. apply Hin in Hx as [? ?]. split_and!; [done|done|apply Hw]. }
  assert (S1 = S) as ->.
  { apply map_eq. intros r. apply option_eq. intros g. rewrite (HS1 r g), lookup_empty, (Ha r g). split.
    - intros [?|(s & Hx & ?)]; [done|]. apply Hin in Hx as [? ?]. eauto.
    - intros [? (s & ? & ?)]. right. exists s. split; [by apply Hin|done]. }
  eexists. split; [|split].
  - unfold bootstrap, prog_bind, update_state at 1, prog_reads. cbn [nd_disk]. rewrite Hts. fold n1. rewrite Hrun. reflexivity.
  - assert (Hst : ∀ r, u64_ok r → stored (dk_log (nd_disk n2)) r = prod_map id settled <$> stored (dk_log (nd_disk n)) r).
    { intros r Hu. rewrite (St r Hu). case_decide as Hd1; [done|]. cbn [nd_disk].
      destruct (stored (dk_log (nd_disk n)) r) as [[g s]|] eqn:Es; subst n1; cbn [nd_disk]; rewrite Es; [|done].
      exfalso. apply Hd1. apply list_elem_of_fmap. exists (g, r). split; [done|]. apply list_elem_of_fmap. exists (g, r, s).
      split; [done|by apply Hin]. }
    split; cbn; [by rewrite Id|by eexists|by eapply tables_same|done| |].
    + intros g r Hu. rewrite (Hst r Hu). destruct (stored _ r) as [[g' s]|]; [|done]. cbn. by destruct s.
    + rewrite Hl. cbn. rewrite Htk. cbn. eapply Forall_impl; [exact Hf|]. intros [g r] [Hu Hs]%Hin. cbn in *.
      split; [done|]. exists Terminated. cbn. rewrite (Hst r Hu), Hs. by split; [|intros []].
  - exists js. by split.
Qed.
End Recovery.

Section Operations.
  Context (cfg : Config) (ident : NodeIdent).
#[local] Abbreviation node := (ni_node_id ident).

(** The process starts again on a disk. *)
Lemma recover_ok S (d : Disk DB) :
  good ident S d → whole d →
  ∃ n', run_node cfg [] (Node_new d) = Some (Ok ident, n') ∧ hosting ident S n' ∧ Forall (good ident S) (nd_journal n').
Proof.
  intros Hg Hw. pose proof Hg as (_ & [Hi [root Hr]] & _).
  set (n1 := mkNode d [] (mkReplicaRouteTableCore ∅ []) ∅ (set_root root NodeState_default) [] [] 0 ∅ []).
  destruct (bootstrap_ok ident S n1) as (n' & Hb & Hh & js & Hj & Hjs); try done.
  { eapply tables_same; [apply (tables_empty node d)|done..]. }
  assert (Hkv : ∀ k, dk_log d !! STATE_REPLICA_ID ≫= (λ mt, mt_kvs mt !! k) = state_kvs (dk_log d) !! k).
  { intros k. unfold state_kvs, get_or_insert. by destruct (dk_log d !! STATE_REPLICA_ID). }
  assert (E1 : read_ident (dk_log d) = Ok (Some ident)).
  { unfold read_ident, engine_get_message. by rewrite Hkv, Hi, decode_encode_msg. }
  assert (E2 : load_root_desc (dk_log d) = Ok (Some root)).
  { unfold load_root_desc, engine_get_message. by rewrite Hkv, Hr, decode_encode_msg. }
  exists n'. split; [|split; [done|by rewrite Hj]].
  unfold run_node, bootstrap_or_join_cluster, reload_root_from_engine, prog_bind, prog_reads. cbn [Node_new nd_disk].
  rewrite E1. cbn [nd_disk Node_new]. rewrite E2. cbn -[bootstrap]. fold n1. by rewrite Hb.
Qed.

(** *** The operations between two starts *)
Inductive Op :=
  | OpCreate (replica_id : Z) (group : GroupDesc)
  | OpRemove (replica_id : Z) (actual_desc : GroupDesc)
  | OpDestroy (i : nat)
  | OpRoot (root_desc : RootDesc)
  (** raft writes the log of a served replica and applies to its engine *)
  | OpProgress (group_id replica_id : Z) (mt : MemTable) (db : DB).
Definition run_op (op : Op) : prog (Node DB) Error unit :=
  match op with
  | OpCreate r group => create_replica r group
  | OpRemove r desc => remove_replica r desc
  | OpDestroy i => run_destroy_task i
  | OpRoot root => update_root root
  | OpProgress g r mt db => λ n,
      persist (mkDisk (<[r := mt]> (dk_log (nd_disk n))) (<[(g, r) := db]> (dk_cfs (nd_disk n)))) n
  end.
(** What the callers of the node ensure: the id of a replica is used once on a
    node, a removal names the replica that the node serves, and raft leaves a
    replica that starts again. *)
Definition admissible (n : Node DB) (S : gmap Z Z) (op : Op) : Prop :=
  match op with
  | OpCreate r group => u64_ok r ∧ r ≠ 0 ∧ (S !! r = None → stored (dk_log (nd_disk n)) r = None)
  | OpRemove r desc => ∀ r', S !! r' = Some (gd_id desc) → r' = r
  | OpDestroy _ | OpRoot _ => True
  | OpProgress g r mt db => S !! r = Some g ∧ startable (<[r := mt]> (dk_log (nd_disk n))) db r
  end.
(** The abstract node: which replica serves which group. *)
Definition has_group (S : gmap Z Z) (g : Z) : bool := existsb (λ p, p.2 =? g) (map_to_list S).
Definition effect (op : Op) (S : gmap Z Z) : Result unit * gmap Z Z :=
  match op with
  | OpCreate r group =>
      match S !! r with
      | Some _ => (Ok tt, S)
      | None => if has_group S (gd_id group) then (Err (AlreadyExists "group"), S) else (Ok tt, <[r := gd_id group]> S)
      end
  | OpRemove r desc => (Ok tt, if bool_decide (S !! r = Some (gd_id desc)) then delete r S else S)
  | _ => (Ok tt, S)
  end.
Lemma has_group_spec S g : has_group S g = true ↔ ∃ r, S !! r = Some g.
Proof.
  unfold has_group. rewrite existsb_exists. split.
  - intros ([r g'] & Hin & Heq). cbn in Heq. to_prop. subst. exists r. by apply elem_of_map_to_list, list_elem_of_In.
  - intros [r Hr]. exists (r, g). cbn. split; [by apply list_elem_of_In, elem_of_map_to_list|lia].
Qed.

(** An operation answers and changes what is served as [effect] says, and every
    disk it leaves on its way is that of the node before or after. *)
Definition op_spec (op : Op) (S : gmap Z Z) (n : Node DB) : Prop :=
  ∃ n', run_op op n = Some ((effect op S).1, n') ∧ hosting ident (effect op S).2 n' ∧
    ∃ js, nd_journal n' = nd_journal n ++ js ∧ Forall (λ d, good ident S d ∨ good ident (effect op S).2 d) js.

Lemma op_unchanged op S n : hosting ident S n → effect op S = (Ok tt, S) → run_op op n = Some (Ok tt, n) → op_spec op S n.
Proof.
  intros Hh He Hr. exists n. rewrite He. split; [done|]. split; [done|]. exists []. split; [by rewrite app_nil_r|constructor].
Qed.

(** **** Removal *)
Lemma good_remove S d g r s :
  good ident S d → u64_ok r → (∃ s0, stored (dk_log d) r = Some (g, s0)) → ¬ live s →
  good ident (delete r S) (mkDisk (state_put (dk_log d) (replica_state_key r) (encode_to_vec (meta_of g r s))) (dk_cfs d)).
Proof.
  intros (Hd & Hb & Ha) Hu [s0 Hs0] Hn. split; [|split; [by apply boot_ok_put|]].
  - destruct (dk_ready d Hd g r s0 Hu Hs0) as [Hz _]. apply put_disk_ok; [done|done|done|done|].
    intros g' Hg'. destruct (dk_named d Hd g' r Hu Hg') as [s' Hs']. congruence.
  - pose proof (agrees_put S (dk_log d) g r s Hu Ha) as Hp. by rewrite decide_False in Hp by done.
Qed.
Lemma removed_put log t g r s :
  u64_ok r → ¬ live s → (∃ s0, stored log r = Some (g, s0)) → removed log t →
  removed (state_put log (replica_state_key r) (encode_to_vec (meta_of g r s))) t.
Proof.
  intros Hu Hn [s0 Hs0] (Hu' & s' & Hs' & Hn'). split; [done|]. destruct (decide (t.2 = r)) as [He|Hne].
  - rewrite He in *. exists s. rewrite stored_put_eq by done. split; [congruence|done].
  - exists s'. by rewrite stored_put_ne.
Qed.

Lemma remove_replica_ok S n r desc : hosting ident S n → admissible n S (OpRemove r desc) → op_spec (OpRemove r desc) S n.
Proof.
  intros Hh Hadm. cbn in Hadm. set (g := gd_id desc) in *. pose proof Hh as [Hid Hch HT Hg Hset Htk].
  destruct (rt_replicas (nd_route n) !! g) as [rp|] eqn:Erp.
  - destruct (tb_route _ _ _ HT g rp Erp) as (r0 & s0 & Hi & Hl0 & HS & Hc). assert (r0 = r) as -> by (by apply Hadm).
    pose proof Hg as (Hd & Hb & Ha). destruct (proj1 (Ha r g) HS) as [Hu (s1 & Hs1 & Hl1)].
    assert (Hserv : ns_serving_replicas (nd_state n) !! r = Some (mkReplicaContext g r node)) by (rewrite (tb_serving _ _ _ HT), HS; done).
    pose proof (good_remove S (nd_disk n) g r Terminated Hg Hu ltac:(eauto) ltac:(by intros [])) as Hg'.
    set (d' := mkDisk _ _) in Hg'.
    exists (mkNode d' (nd_journal n ++ [d'])
      (mkReplicaRouteTableCore (delete g (alter terminate_replica g (rt_replicas (nd_route n)))) (rt_root_wakers (nd_route n)))
      (delete r (nd_raft_route n)) (remove_serving r (remove_group g (nd_state n))) (nd_tasks n ++ [(g, r)])
      (nd_recycled n ++ [r]) (nd_next n) ({[hr_raft rp]} ∪ nd_closed n) (nd_woken n)).
    cbn [effect fst snd]. fold g. rewrite bool_decide_eq_true_2 by done. split; [|split].
    + cbn [run_op]. unfold remove_replica, prog_bind at 1, prog_reads at 1, route_find. fold g. rewrite Erp. cbn. rewrite Hserv. reflexivity.
    + split; cbn [nd_disk nd_state nd_tasks remove_serving remove_group ns_ident ns_channel]; [done|done| |done| |]; subst d'; cbn [dk_log].
      * eapply (tables_remove node S g r rp n); cbn; try done; [by rewrite Hi|by rewrite delete_alter_eq].
      * intros g' r' Hu'. destruct (decide (r' = r)) as [->|]; [by rewrite stored_put_eq|by rewrite stored_put_ne; [apply Hset|..]].
      * apply Forall_app. split; [|apply Forall_singleton; split; [done|]; exists Terminated; cbn [fst snd]; rewrite stored_put_eq by done; by split; [|intros []]].
        eapply Forall_impl; [exact Htk|]. intros t. apply removed_put; [done|by intros []|eauto].
    + exists [d']. split; [done|]. apply Forall_singleton. by right.
  - apply op_unchanged; [done| |].
    + cbn. fold g. rewrite bool_decide_eq_false_2; [done|]. intros HS. destruct (tb_routed _ _ _ HT r g HS). congruence.
    + cbn [run_op]. unfold remove_replica, prog_bind at 1, prog_reads, route_find. fold g. by rewrite Erp.
Qed.

(** **** The destroy job *)
Lemma agrees_not_live S log r : u64_ok r → agrees S log → (∀ g s, stored log r = Some (g, s) → ¬ live s) → S !! r = None.
Proof.
  intros Hu Ha Hn. destruct (S !! r) as [g|] eqn:E; [|done]. apply Ha in E as (_ & s & Hs & Hl). by destruct (Hn g s).
Qed.
(** A region other than that of the records is written. *)
Lemma good_region S d r log' :
  good ident S d → u64_ok r → r ≠ 0 → (∀ r', r' ≠ r → log' !! r' = dk_log d !! r') →
  (∀ g s, stored (dk_log d) r = Some (g, s) → ¬ live s) → good ident S (mkDisk log' (dk_cfs d)).
Proof.
  intros (Hd & Hb & Ha) Hu Hz Hl Hn.
  assert (Hk : state_kvs log' = state_kvs (dk_log d)) by (apply state_region_eq, Hl; by unfold STATE_REPLICA_ID).
  split; [by eapply region_disk_ok|]. split; [by eapply boot_ok_region|].
  eapply agrees_same; [|done]. intros r' _. by apply stored_region.
Qed.

Lemma destroy_ok S n i : hosting ident S n → op_spec (OpDestroy i) S n.
Proof.
  intros Hh. pose proof Hh as [Hid Hch HT Hg Hset Htk].
  destruct (nd_tasks n !! i) as [[g r]|] eqn:Ei.
  2: { apply op_unchanged; [done|done|]. cbn [run_op]. unfold run_destroy_task, prog_bind, prog_reads. by rewrite Ei. }
  pose proof (Forall_lookup_1 _ _ _ _ Htk Ei) as (Hu & s & Hs & Hn). cbn [fst snd] in *.
  pose proof Hg as (Hd & Hb & Ha). destruct (dk_ready _ Hd g r s Hu Hs) as [Hz _].
  assert (Hdead : ∀ g' s', stored (dk_log (nd_disk n)) r = Some (g', s') → ¬ live s') by (intros g' s' ?; by simplify_eq).
  pose proof (agrees_not_live _ _ _ Hu Ha Hdead) as HSr.
  set (d1 := mkDisk (dk_log (nd_disk n)) (delete (g, r) (dk_cfs (nd_disk n)))).
  set (d2 := mkDisk (delete r (dk_log (nd_disk n))) (dk_cfs d1)).
  set (d3 := mkDisk (state_put (dk_log d2) (replica_state_key r) (encode_to_vec (meta_of g r Tombstone))) (dk_cfs d1)).
  assert (Hk : state_kvs (dk_log d2) = state_kvs (dk_log (nd_disk n))) by (apply state_region_eq; cbn; by rewrite lookup_delete_ne).
  assert (G1 : good ident S d1).
  { apply good_cfs; [done|]. apply (cf_disk_ok _ Hd r Hu _ g); [intros; by rewrite lookup_delete_ne|by exists s|].
    intros s' Hs' Hl'. by destruct (Hdead g s'). }
  assert (G2 : good ident S d2) by (apply (good_region S d1 r); try done; intros; by rewrite lookup_delete_ne).
  assert (Hs2 : stored (dk_log d2) r = Some (g, s)) by (by rewrite (stored_region _ _ _ Hk)).
  assert (G3 : good ident S d3).
  { rewrite <- (delete_id S r) by done. apply (good_remove S d2); [done|done|eauto|by intros []]. }
  assert (Hrun : ∃ js, run_op (OpDestroy i) n = Some (Ok tt, mkNode d3 (nd_journal n ++ js) (nd_route n) (nd_raft_route n) (nd_state n)
    (delete i (nd_tasks n)) (nd_recycled n) (nd_next n) (nd_closed n) (nd_woken n)) ∧ Forall (good ident S) js).
  { cbn [run_op]. unfold run_destroy_task, prog_bind at 1, prog_reads at 1. rewrite Ei.
    unfold prog_bind at 1, destory_replica, prog_bind at 1, prog_reads at 1. cbn [nd_disk].
    destruct (dk_cfs (nd_disk n) !! (g, r)) eqn:Ec.
    - exists [d1; d2; d3]. split; [|by apply Forall_cons_2, Forall_cons_2, Forall_cons_2].
      by replace (nd_journal n ++ [d1; d2; d3]) with (((nd_journal n ++ [d1]) ++ [d2]) ++ [d3]) by (by rewrite <- !app_assoc).
    - exists [d2; d3]. split; [|by apply Forall_cons_2, Forall_cons_2]. 
      replace (nd_journal n ++ [d2; d3]) with ((nd_journal n ++ [d2]) ++ [d3]) by (by rewrite <- !app_assoc).
      subst d3 d2 d1. cbn [dk_cfs dk_log]. rewrite (delete_id (dk_cfs (nd_disk n))) by done. done. }
  destruct Hrun as (js & Hrun & Hjs). eexists. split; [exact Hrun|]. split.
  - split; cbn [nd_disk nd_state nd_tasks]; [done|done|by eapply tables_same|done| |].
    + intros g' r' Hu'. subst d3. cbn [dk_log]. destruct (decide (r' = r)) as [->|]; [by rewrite stored_put_eq|].
      rewrite stored_put_ne by done. rewrite (stored_region _ _ _ Hk). by apply Hset.
    + apply Forall_delete. eapply Forall_impl; [exact Htk|]. intros t (Ht & s' & Hs' & Hn'). apply removed_put; [done|by intros []|eauto|].
      split; [done|]. exists s'. by rewrite (stored_region _ _ _ Hk).
  - exists js. split; [done|]. eapply Forall_impl; [exact Hjs|]. by left.
Qed.

(** **** The root descriptor *)
(** A key outside the records is written. *)
Lemma other_put d k v :
  disk_ok d → bytes_leb REPLICA_STATE_PREFIX k && bytes_ltb k REPLICA_STATE_END = false →
  disk_ok (mkDisk (state_put (dk_log d) k v) (dk_cfs d)) ∧ ∀ r, stored (state_put (dk_log d) k v) r = stored (dk_log d) r.
Proof.
  intros Hd Hout. set (log' := state_put _ _ _).
  assert (Hst : ∀ r, stored log' r = stored (dk_log d) r).
  { intros r. unfold stored, log'. rewrite state_put_kvs, lookup_insert_ne; [done|]. intros ->.
    by destruct (replica_state_key_range r) as [E1 E2]; rewrite E1, E2 in Hout. }
  split; [|done]. apply (disk_frame d _ 0 Hd); cbn [dk_log dk_cfs].
  - intros k' v'. unfold log'. rewrite state_put_kvs, lookup_insert_Some.
    intros [[<- <-]|[_ Hk]] Hin; [by rewrite Hout in Hin|by apply (dk_records d Hd)].
  - intros r' Hu' Hne. split_and!; [apply Hst| |done]. intros Hz. by apply state_put_other.
  - intros g s. rewrite Hst. intros Hs. by apply (dk_ready d Hd) in Hs as [? _].
  - intros g Hg. rewrite Hst. by apply (dk_named d Hd).
Qed.
Lemma good_root S d (root : RootDesc) :
  good ident S d → good ident S (mkDisk (state_put (dk_log d) ROOT_DESCRIPTOR_KEY (encode_to_vec root)) (dk_cfs d)).
Proof.
  intros (Hd & [Hi _] & Ha). destruct (other_put d ROOT_DESCRIPTOR_KEY (encode_to_vec root) Hd eq_refl) as [Hd' Hst].
  split; [done|]. split; [|eapply agrees_same; [|done]; intros r _; apply Hst].
  unfold boot_ok. cbn [dk_log]. rewrite state_put_kvs. rewrite lookup_insert_eq, lookup_insert_ne by done. eauto.
Qed.
Lemma hosting_disk S n d root js :
  hosting ident S n → good ident S d → (∀ r, u64_ok r → stored (dk_log d) r = stored (dk_log (nd_disk n)) r) →
  hosting ident S (mkNode d js (nd_route n) (nd_raft_route n) (set_root root (nd_state n)) (nd_tasks n) (nd_recycled n)
    (nd_next n) (nd_closed n) (nd_woken n)).
Proof.
  intros [Hid Hch HT Hg Hset Htk] Hgd Hst. split; cbn [nd_disk nd_state nd_tasks set_root ns_ident ns_channel]; try done.
  - by eapply tables_same.
  - intros g r Hu. rewrite (Hst r Hu). by apply Hset.
  - eapply Forall_impl; [exact Htk|]. intros t (Hu & Hs). split; [done|]. by rewrite (Hst _ Hu).
Qed.
Lemma root_ok S n root : hosting ident S n → op_spec (OpRoot root) S n.
Proof.
  intros Hh. destruct (decide (ns_root (nd_state n) = root)) as [He|Hne].
  { apply op_unchanged; [done|done|]. cbn [run_op]. unfold update_root, get_root, prog_bind at 1, prog_reads at 1.
    by rewrite bool_decide_eq_true_2. }
  pose proof (good_root S (nd_disk n) root (ho_good _ _ _ Hh)) as Hg. set (d := mkDisk _ _) in Hg.
  exists (mkNode d (nd_journal n ++ [d]) (nd_route n) (nd_raft_route n) (set_root root (nd_state n)) (nd_tasks n) (nd_recycled n)
    (nd_next n) (nd_closed n) (nd_woken n)). split; [|split].
  - cbn [run_op effect fst]. unfold update_root, get_root, prog_bind at 1, prog_reads at 1. rewrite bool_decide_eq_false_2 by done.
    unfold prog_bind at 1. rewrite (persist_log_ok _ n (dk_log d)) by done. unfold persist.
    unfold reload_root_from_engine, prog_bind at 1, prog_reads at 1. cbn [nd_disk].
    assert (load_root_desc (dk_log d) = Ok (Some root)) as E.
    { unfold load_root_desc, engine_get_message, d, state_put. cbn [dk_log]. rewrite lookup_insert_eq. cbn [mbind option_bind mt_put mt_kvs].
      by rewrite lookup_insert_eq, decode_encode_msg. }
    cbn [dk_log dk_cfs]. change (dk_log (mkDisk _ _)) with (dk_log d). rewrite E. done.
  - apply hosting_disk; [done|done|]. intros r Hu. unfold stored, d. cbn [dk_log].
    rewrite state_put_kvs, lookup_insert_ne; [done|]. apply not_eq_sym. apply replica_state_key_ne.
  - exists [d]. split; [done|]. apply Forall_singleton. by left.
Qed.

(** **** Raft on a served replica *)
Lemma progress_ok S n g r mt db :
  hosting ident S n → admissible n S (OpProgress g r mt db) → op_spec (OpProgress g r mt db) S n.
Proof.
  intros Hh [HS Hst]. pose proof (ho_good _ _ _ Hh) as (Hd & Hb & Ha). destruct (proj1 (Ha r g) HS) as [Hu (s & Hs & Hl)].
  destruct (dk_ready _ Hd g r s Hu Hs) as [Hz _].
  set (log' := <[r := mt]> (dk_log (nd_disk n))) in *. set (d := mkDisk log' (<[(g, r) := db]> (dk_cfs (nd_disk n)))).
  assert (Hk : state_kvs log' = state_kvs (dk_log (nd_disk n))) by (apply state_region_eq; unfold log'; by rewrite lookup_insert_ne).
  assert (Hg : good ident S d).
  { split; [|split; [by eapply boot_ok_region|eapply agrees_same; [|done]; intros; by apply stored_region]].
    apply (disk_frame (nd_disk n) _ r Hd); unfold d; cbn [dk_log dk_cfs].
    - eapply state_ok_region; [done|apply (dk_records _ Hd)].
    - intros r' Hu' Hne. split_and!; [by apply stored_region|intros _; unfold log'; by rewrite lookup_insert_ne|].
      intros g'. rewrite lookup_insert_ne; [done|congruence].
    - intros g' s'. rewrite (stored_region _ _ _ Hk). intros Hs'. simplify_eq. split; [done|]. intros _. split.
      + unfold ready. cbn [dk_cfs dk_log]. rewrite lookup_insert_eq. by left.
      + intros r' s' Hu' Hne Hs'' Hl'. apply Hne. by eapply (dk_single _ Hd).
    - intros g' [db' Hg']. rewrite (stored_region _ _ _ Hk). destruct (decide (g' = g)) as [->|]; [eauto|].
      rewrite lookup_insert_ne in Hg' by congruence. apply (dk_named _ Hd); [done|by eexists]. }
  eexists. split; [reflexivity|]. split.
  - pose proof (hosting_disk S n d (ns_root (nd_state n)) (nd_journal n ++ [d]) Hh Hg) as Hx.
    cbn [effect snd]. replace (nd_state n) with (set_root (ns_root (nd_state n)) (nd_state n)) by (by destruct (nd_state n)).
    apply Hx. intros. by apply stored_region.
  - exists [d]. split; [done|]. apply Forall_singleton. by left.
Qed.

(** **** Creation *)

(** The raft metadata, then the record: nothing else of the disk changes, and
    the replica is ready to start. *)
Lemma create_disk_ok S d r group :
  disk_ok d → agrees S (dk_log d) → u64_ok r → r ≠ 0 → stored (dk_log d) r = None → (∀ r', S !! r' ≠ Some (gd_id group)) →
  ∃ log1, let d1 := mkDisk log1 (dk_cfs d) in
    let d2 := mkDisk (state_put log1 (replica_state_key r) (encode_to_vec (meta_of (gd_id group) r Initial))) (dk_cfs d) in
    Replica_create r group (dk_log d) = Ok log1 ∧ disk_ok d1 ∧ state_kvs log1 = state_kvs (dk_log d) ∧
    disk_ok d2 ∧ agrees (<[r := gd_id group]> S) (dk_log d2) ∧ ∀ g, dk_cfs d !! (g, r) = None.
Proof.
  intros Hd Ha Hu Hz Hnew Hfree. unfold Replica_create. set (g := gd_id group) in *.
  destruct (initial_total (dk_log d) r (gd_replicas group) (map add_shard (gd_shards group))) as [log1 Hw].
  assert (Hother : ∀ r', r' ≠ r → log1 !! r' = dk_log d !! r') by (intros r'; by apply (initial_other _ _ _ _ _ _ Hw)).
  assert (Hk : state_kvs log1 = state_kvs (dk_log d)) by (apply state_region_eq, Hother; by unfold STATE_REPLICA_ID).
  assert (Hd1 : disk_ok (mkDisk log1 (dk_cfs d))) by (apply (region_disk_ok d Hd r Hu log1 Hz Hother); intros; congruence).
  assert (Ha1 : agrees S log1) by (eapply agrees_same; [|done]; intros r' _; by apply stored_region).
  assert (Hnocf : ∀ g', dk_cfs d !! (g', r) = None).
  { intros g'. destruct (dk_cfs d !! (g', r)) eqn:E; [|done].
    destruct (dk_named _ Hd g' r Hu) as [s Hs]; [by eexists|congruence]. }
  exists log1. cbn [dk_log]. split_and!; try done.
  - apply (put_disk_ok (mkDisk log1 (dk_cfs d)) Hd1 r Hu); [done| |].
    + intros _. split.
      * unfold ready. cbn [dk_cfs dk_log]. rewrite Hnocf. split; [done|].
        destruct (created_engine g) as (ge & Hc & _). destruct (created_starts _ _ _ _ _ g ge Hz Hw Hc) as [out Hout].
        eapply fresh_region; [by apply state_put_other|]. by exists ge, out.
      * intros r' s' Hu' Hne Hs' Hl'. apply (Hfree r'). apply Ha1. eauto.
    + intros g' [db Hg']. cbn [dk_cfs] in Hg'. by rewrite Hnocf in Hg'.
  - pose proof (agrees_put S log1 g r Initial Hu Ha1) as Hp. by rewrite decide_True in Hp by done.
Qed.

Section Create.
  Context (S : gmap Z Z) (n : Node DB) (r : Z) (group : GroupDesc) (Hh : hosting ident S n).
  Context (Hu : u64_ok r) (Hz : r ≠ 0) (Hnone : S !! r = None) (Hnew : stored (dk_log (nd_disk n)) r = None).
  Context (Hfree : ∀ r', S !! r' ≠ Some (gd_id group)).
#[local] Abbreviation g := (gd_id group).

Lemma create_disks : ∃ log1, Replica_create r group (dk_log (nd_disk n)) = Ok log1 ∧
  good ident S (mkDisk log1 (dk_cfs (nd_disk n))) ∧ (∀ r', stored log1 r' = stored (dk_log (nd_disk n)) r') ∧
  good ident (<[r := g]> S) (mkDisk (state_put log1 (replica_state_key r) (encode_to_vec (meta_of g r Initial))) (dk_cfs (nd_disk n))) ∧
  dk_cfs (nd_disk n) !! (g, r) = None.
Proof.
  pose proof (ho_good _ _ _ Hh) as (Hd & Hb & Ha).
  destruct (create_disk_ok S (nd_disk n) r group) as (log1 & Hcr & Hd1 & Hk & Hd2 & Ha2 & Hcf); try done.
  assert (Hst : ∀ r', stored log1 r' = stored (dk_log (nd_disk n)) r') by (intros r'; by apply stored_region).
  pose proof (boot_ok_region _ _ _ Hk Hb) as Hb1. exists log1. split; [done|]. split.
  { split; [done|]. split; [done|]. eapply agrees_same; [|done]. intros r' _. apply Hst. }
  split; [done|]. split; [|done]. split; [done|]. split; [by apply boot_ok_put|done].
Qed.

Lemma create_fresh : effect (OpCreate r group) S = (Ok tt, <[r := g]> S) → op_spec (OpCreate r group) S n.
Proof.
  intros Heff. destruct create_disks as (log1 & Hcr & Hg1 & Hst1 & Hg2 & Hnocf).
  pose proof Hh as [Hid [ch Hch] HT Hg Hset Htk].
  set (d1 := mkDisk log1 (dk_cfs (nd_disk n))) in *. set (d2 := mkDisk (state_put _ _ _) _) in Hg2.
  set (n2 := mkNode d2 (nd_journal n ++ [d1] ++ [d2]) (nd_route n) (nd_raft_route n) (nd_state n) (nd_tasks n) (nd_recycled n)
    (nd_next n) (nd_closed n) (nd_woken n)).
  destruct (serve_ok ident (<[r := g]> S) g r node Initial ch n2) as (ch' & n3 & js & He & Hsv & Hj & Hjs & Hg3 & Hst3 & _ & _).
  { done. } { by rewrite lookup_insert_eq. } { cbn. by apply stored_put_eq. } { done. } { cbn [nd_disk n2 d2 dk_cfs]. by rewrite Hnocf. }
  set (st := insert_serving r g (mkReplicaContext g r node) (set_channel ch' (nd_state n3))).
  exists (mkNode (nd_disk n3) (nd_journal n3) (nd_route n3) (nd_raft_route n3) st (nd_tasks n3) (nd_recycled n3)
    (nd_next n3) (nd_closed n3) (nd_woken n3)).
  rewrite Heff. cbn [fst snd]. pose proof Hsv as [_ _ Q3 Q4 _ _]. split; [|split].
  - cbn [run_op]. unfold create_replica, check_replica_existence, prog_bind at 1, prog_bind at 1, prog_reads at 1.
    rewrite (tb_serving _ _ _ HT r), Hnone. cbn [fmap option_fmap option_map].
    rewrite decide_False by (rewrite (tb_groups _ _ _ HT); intros [r' Hr']; by destruct (Hfree r')).
    unfold prog_lift at 1, prog_bind at 1. rewrite (persist_log_ok _ n log1 Hcr). unfold persist at 1. fold d1.
    unfold prog_bind at 1. rewrite (persist_log_ok _ _ _ (save_replica_state_put g r Initial _)). unfold persist at 1. cbn [nd_disk dk_log dk_cfs d1].
    fold d1 d2. cbn [nd_journal]. rewrite <- app_assoc. fold n2.
    unfold prog_bind at 1, prog_reads at 1. cbn [nd_state n2]. unfold is_bootstrapped. rewrite Hid, Hch.
    unfold prog_bind, prog_lift at 1 2. cbn [expect]. cbn [nd_disk nd_journal nd_route nd_raft_route nd_tasks nd_recycled nd_next nd_closed nd_woken].
    fold n2. rewrite He. done.
  - assert (Hst : ∀ r', u64_ok r' → r' ≠ r → stored (dk_log (nd_disk n3)) r' = stored (dk_log (nd_disk n)) r').
    { intros r' Hu' Hne. rewrite Hst3, decide_False by done. cbn [nd_disk n2 d2 dk_log]. by rewrite stored_put_ne. }
    split; cbn [nd_disk nd_state nd_tasks st insert_serving set_channel ns_ident ns_channel].
    + by rewrite Q3.
    + by eexists.
    + eapply (tables_insert node S g r Initial n2 n3); try done; [by eapply tables_same|by cbn; rewrite Q3..].
    + done.
    + intros g' r' Hu'. destruct (decide (r' = r)) as [->|Hne]; [by rewrite Hst3, decide_True|]. rewrite Hst by done. by apply Hset.
    + rewrite Q4. eapply Forall_impl; [exact Htk|]. intros t (Ht & s & Hs & Hn). split; [done|]. exists s.
      rewrite Hst; [done|done|congruence].
  - exists ([d1; d2] ++ js). cbn [nd_journal]. rewrite Hj. cbn [nd_journal n2]. split; [by rewrite <- app_assoc|].
    apply Forall_app. split; [apply Forall_cons_2; [by left|apply Forall_singleton; by right]|].
    eapply Forall_impl; [exact Hjs|]. by right.
Qed.
End Create.

Lemma create_ok S n r group : hosting ident S n → admissible n S (OpCreate r group) → op_spec (OpCreate r group) S n.
Proof.
  intros Hh (Hu & Hz & Hnew). pose proof (ho_tables _ _ _ Hh) as HT.
  destruct (S !! r) as [g'|] eqn:Er.
  - apply op_unchanged; [done|cbn; by rewrite Er|]. cbn [run_op].
    unfold create_replica, check_replica_existence, prog_bind at 1, prog_bind at 1, prog_reads at 1.
    by rewrite (tb_serving _ _ _ HT r), Er.
  - destruct (has_group S (gd_id group)) eqn:Eg.
    + exists n. cbn [effect]. rewrite Er, Eg. cbn [fst snd]. split; [|split; [done|]].
      * cbn [run_op]. unfold create_replica, check_replica_existence, prog_bind at 1, prog_bind at 1, prog_reads at 1.
        rewrite (tb_serving _ _ _ HT r), Er. cbn [fmap option_fmap option_map].
        rewrite decide_True by (apply (tb_groups _ _ _ HT), has_group_spec; done). done.
      * exists []. split; [by rewrite app_nil_r|constructor].
    + apply create_fresh; try done; [by apply Hnew| |].
      * intros r' Hr'. assert (has_group S (gd_id group) = true) by (apply has_group_spec; eauto). congruence.
      * cbn. by rewrite Er, Eg.
Qed.

Lemma op_ok S n op : hosting ident S n → admissible n S op → op_spec op S n.
Proof.
  destruct op; intros Hh Ha; [by apply create_ok|by apply remove_replica_ok|by apply destroy_ok|by apply root_ok|by apply progress_ok].
Qed.

(** *** The first start of a cluster *)
Lemma create_early S r group (n : Node DB) :
  nd_state n = NodeState_default ∨ (∃ root, nd_state n = set_root root NodeState_default) →
  disk_ok (nd_disk n) → agrees S (dk_log (nd_disk n)) → u64_ok r → r ≠ 0 → stored (dk_log (nd_disk n)) r = None →
  (∀ r', S !! r' ≠ Some (gd_id group)) →
  ∃ d js, create_replica r group n = Some (Ok tt, mkNode d js (nd_route n) (nd_raft_route n) (nd_state n) (nd_tasks n)
      (nd_recycled n) (nd_next n) (nd_closed n) (nd_woken n)) ∧
    disk_ok d ∧ agrees (<[r := gd_id group]> S) (dk_log d) ∧ dk_cfs d = dk_cfs (nd_disk n) ∧
    (∀ r', u64_ok r' → r' ≠ r → stored (dk_log d) r' = stored (dk_log (nd_disk n)) r').
Proof.
  intros Hst Hd Ha Hu Hz Hnew Hfree.
  destruct (create_disk_ok S (nd_disk n) r group) as (log1 & Hcr & Hd1 & Hk & Hd2 & Ha2 & _); try done.
  set (d1 := mkDisk log1 (dk_cfs (nd_disk n))) in *. set (d2 := mkDisk (state_put _ _ _) _) in Hd2, Ha2.
  exists d2, ((nd_journal n ++ [d1]) ++ [d2]). split; [|split_and!; try done].
  - unfold create_replica, check_replica_existence, prog_bind at 1, prog_bind at 1, prog_reads at 1.
    assert (E : ns_serving_replicas (nd_state n) !! r = None ∧ ns_serving_groups (nd_state n) = ∅ ∧ is_bootstrapped (nd_state n) = false).
    { destruct Hst as [->|[root ->]]; by cbn. }
    destruct E as (-> & -> & Eb). rewrite decide_False by set_solver. unfold prog_lift at 1, prog_bind at 1.
    rewrite (persist_log_ok _ n log1 Hcr). unfold persist at 1. fold d1. unfold prog_bind at 1.
    rewrite (persist_log_ok _ _ _ (save_replica_state_put (gd_id group) r Initial _)). unfold persist at 1.
    unfold prog_bind at 1, prog_reads at 1. cbn [nd_state]. by rewrite Eb.
  - intros r' Hu' Hne. cbn [dk_log d2]. rewrite stored_put_ne by done. by apply stored_region.
Qed.
End Operations.

Definition first_ident : NodeIdent := mkNodeIdent [] FIRST_NODE_ID.
Definition first_served : gmap Z Z := <[INIT_USER_REPLICA_ID := FIRST_GROUP_ID]> (<[FIRST_REPLICA_ID := ROOT_GROUP_ID]> ∅).
(** A node started with [--init] on an empty disk serves the root group and the
    first group of users. *)
Lemma first_start_ok cfg : cf_init cfg = true →
  ∃ n, run_node cfg [] (Node_new (mkDisk ∅ ∅ : Disk DB)) = Some (Ok first_ident, n) ∧
    hosting first_ident first_served n.
Proof.
  intros Hinit. set (d0 := mkDisk ∅ ∅ : Disk DB).
  assert (Hkv : state_kvs (dk_log d0) = ∅) by done.
  assert (Hs0 : ∀ r, stored (dk_log d0) r = None) by (intros r; unfold stored; by rewrite Hkv, lookup_empty).
  assert (Hd0 : disk_ok d0).
  { split.
    - intros k v. by rewrite Hkv, lookup_empty.
    - intros g r s _. by rewrite Hs0.
    - intros g r r' s s' _ _. by rewrite Hs0.
    - intros g r _. cbn. rewrite lookup_empty. by intros [? ?]. }
  assert (Ha0 : agrees ∅ (dk_log d0)).
  { intros r g. rewrite lookup_empty. split; [done|]. intros [_ (s & Hs & _)]. by rewrite Hs0 in Hs. }
  destruct (create_early ∅ FIRST_REPLICA_ID root_group (Node_new d0)) as (d1 & js1 & Hc1 & Hd1 & Ha1 & Hf1 & Hs1).
  { by left. } { done. } { done. } { done. } { done. } { apply Hs0. } { intros r'. by rewrite lookup_empty. }
  set (n1 := mkNode d1 _ _ _ _ _ _ _ _ _) in Hc1.
  destruct (create_early (<[FIRST_REPLICA_ID := gd_id root_group]> ∅) INIT_USER_REPLICA_ID init_group n1) as (d2 & js2 & Hc2 & Hd2 & Ha2 & Hf2 & Hs2); [by left|done|exact Ha1|done|done| | |].
  { cbn. rewrite Hs1 by done. apply Hs0. }
  { intros r'. rewrite lookup_insert_Some. by intros [[_ ?]|[_ Hx]]; [|rewrite lookup_empty in Hx]. }
  set (root := mkRootDesc INITIAL_EPOCH [mkNodeDesc FIRST_NODE_ID (cf_addr cfg) None 0]).
  destruct (other_put d2 ROOT_DESCRIPTOR_KEY (encode_to_vec root) Hd2 eq_refl) as [Hd3 Hs3]. set (d3 := mkDisk (state_put _ _ _) _) in Hd3.
  destruct (other_put d3 IDENT_KEY (encode_to_vec first_ident) Hd3 eq_refl) as [Hd4 Hs4]. set (d4 := mkDisk (state_put _ _ _) _) in Hd4.
  set (js := ((js2 ++ [d3]) ++ [d4])).
  assert (Hg : good first_ident first_served d4).
  { split; [done|]. split.
    - split; [by cbn [dk_log d4]; rewrite state_put_kvs, lookup_insert_eq|]. exists root. cbn [dk_log d4 d3].
      rewrite state_put_kvs, lookup_insert_ne by done. by rewrite state_put_kvs, lookup_insert_eq.
    - eapply agrees_same; [|exact Ha2]. intros r _. etransitivity; [apply (Hs4 r)|apply (Hs3 r)]. }
  set (n4 := mkNode d4 js (mkReplicaRouteTableCore ∅ []) ∅ (set_root root NodeState_default) [] [] 0 ∅ []).
  destruct (bootstrap_ok first_ident _ n4 Hg) as (n' & Hb & Hh & _).
  { intros g r. cbn [n4 nd_disk dk_cfs d4 d3]. rewrite Hf2. cbn. rewrite Hf1. cbn. by rewrite lookup_empty. }
  { eapply tables_same; [apply (tables_empty _ d0)|done..]. } { done. }
  exists n'. split; [|done].
  unfold run_node, bootstrap_or_join_cluster, prog_bind at 1, prog_bind at 1, prog_reads at 1.
  assert (read_ident (dk_log (nd_disk (Node_new d0))) = Ok None) as -> by done. rewrite Hinit.
  unfold bootstrap_cluster, write_initial_cluster_data, prog_bind at 1, prog_bind at 1, prog_bind at 1. rewrite Hc1.
  unfold prog_bind at 1. rewrite Hc2. fold root.
  set (n2 := mkNode d2 _ _ _ _ _ _ _ _ _).
  assert (Hroot : update_root root n2 = Some (Ok tt, mkNode d3 (js2 ++ [d3]) (mkReplicaRouteTableCore ∅ []) ∅
    (set_root root NodeState_default) [] [] 0 ∅ [])).
  { unfold update_root, get_root, prog_bind at 1, prog_reads at 1. rewrite bool_decide_eq_false_2 by done.
    unfold prog_bind at 1. rewrite (persist_log_ok _ n2 (dk_log d3)) by done. unfold persist.
    unfold reload_root_from_engine, prog_bind at 1, prog_reads at 1. cbn [nd_disk].
    assert (load_root_desc (dk_log d3) = Ok (Some root)) as E.
    { unfold load_root_desc, engine_get_message, d3, state_put. cbn [dk_log]. rewrite lookup_insert_eq. cbn [mbind option_bind mt_put mt_kvs].
      by rewrite lookup_insert_eq, decode_encode_msg. }
    cbn [dk_log dk_cfs]. rewrite E. done. }
  rewrite Hroot. unfold save_node_ident, prog_bind at 1. rewrite (persist_log_ok _ _ (dk_log d4)) by done.
  unfold persist, prog_lift at 1. cbn [nd_disk nd_journal nd_route nd_raft_route nd_state nd_tasks nd_recycled nd_next nd_closed nd_woken dk_cfs].
  fold first_ident. unfold prog_bind. change (mkDisk (dk_log d4) (dk_cfs d3)) with d4. fold js. fold n4. rewrite Hb. done.
Qed.

(** ** The node refines a map from replicas to groups *)
Fixpoint run_ops (ops : list Op) (n : Node DB) : option (list (Result unit) * Node DB) :=
  match ops with
  | [] => Some ([], n)
  | op :: ops' =>
      match run_op op n with
      | Some (res, n1) =>
          match run_ops ops' n1 with Some (l, n') => Some (res :: l, n') | None => None end
      | None => None
      end
  end.
Fixpoint spec_ops (ops : list Op) (S : gmap Z Z) : list (Result unit) * gmap Z Z :=
  match ops with
  | [] => ([], S)
  | op :: ops' => let '(l, S') := spec_ops ops' (effect op S).2 in ((effect op S).1 :: l, S')
  end.
Fixpoint admissible_run (ops : list Op) (S : gmap Z Z) (n : Node DB) : Prop :=
  match ops with
  | [] => True
  | op :: ops' => admissible n S op ∧ ∀ res n', run_op op n = Some (res, n') → admissible_run ops' (effect op S).2 n'
  end.

Lemma hosting_routes ident S (n : Node DB) g r :
  hosting ident S n →
  S !! r = Some g ↔ ∃ rp, route_find g n = Some rp ∧ ri_replica_id (hr_info rp) = r ∧ is_terminated (hr_info rp) = false ∧
    raft_route_find r n = Some (hr_raft rp).
Proof.
  intros Hh. pose proof (ho_tables _ _ _ Hh) as HT. unfold route_find, raft_route_find. split.
  - intros HS. destruct (tb_routed _ _ _ HT r g HS) as [rp Hrp]. exists rp.
    destruct (tb_route _ _ _ HT g rp Hrp) as (r' & s & Hi & Hl & HS' & Hc). assert (r' = r) as -> by (by eapply (tb_single _ _ _ HT)).
    rewrite Hi. split_and!; try done. cbn. by destruct s, Hl.
  - intros (rp & Hrp & Hid & _ & _). destruct (tb_route _ _ _ HT g rp Hrp) as (r' & s & Hi & _ & HS & _).
    rewrite Hi in Hid. cbn in Hid. by subst.
Qed.


(** ** Crashes

    The disks the process can leave behind when it dies during an operation, or
    during the recoveries that follow. *)
Inductive crash_disk (cfg : Config) (op : Op) (n : Node DB) : Disk DB → Prop :=
  | crash_before : crash_disk cfg op n (nd_disk n)
  | crash_during res n' js d :
      run_op op n = Some (res, n') → nd_journal n' = nd_journal n ++ js → d ∈ js → crash_disk cfg op n d
  | crash_again d res n' d' :
      crash_disk cfg op n d → whole d → run_node cfg [] (Node_new d) = Some (res, n') → d' ∈ nd_journal n' →
      crash_disk cfg op n d'.

End Host.
