(* ===== verification/HostingSamples.v ===== *)
(** * Hosting replicas: a concrete node

    The first node of a cluster, the hypotheses of the theorems on it, and the
    runs that show where they are needed. *)

From S2P Require Import Prelude Bytes Api RocksDb Schema Engine EngineWrites Samples EvalWrite Fsm Lease LogEngine.
From S2P Require Import RaftStorage RaftStorageProps RaftSamples Errors Node Hosting HostingProps.
#[local] Open Scope Z_scope.

(** ** Codecs and the raft crate *)
#[global] Instance ReplicaMeta_eq_dec : EqDecision ReplicaMeta.
Proof. solve_decision. Defined.
#[global] Instance ReplicaMeta_countable : Countable ReplicaMeta.
Proof. by refine (inj_countable' (λ m, (rm_group_id m, rm_replica_id m, rm_state m)) (λ '(a, b, c), mkReplicaMeta a b c) _); intros []. Defined.
#[global] Instance NodeIdent_eq_dec : EqDecision NodeIdent.
Proof. solve_decision. Defined.
#[global] Instance NodeIdent_countable : Countable NodeIdent.
Proof. by refine (inj_countable' (λ m, (ni_cluster_id m, ni_node_id m)) (λ '(a, b), mkNodeIdent a b) _); intros []. Defined.
#[global] Instance HostRootDesc_countable : Countable RootDesc.
Proof. by refine (inj_countable' (λ m, (rt_epoch m, rt_root_nodes m)) (λ '(a, b), mkRootDesc a b) _); intros []. Defined.
#[global] Instance ReplicaMeta_codec : Codec ReplicaMeta := countable_codec _.
#[global] Instance ReplicaMeta_codec_ok : CodecOk ReplicaMeta := countable_codec_ok _.
#[global] Instance NodeIdent_codec : Codec NodeIdent := countable_codec _.
#[global] Instance NodeIdent_codec_ok : CodecOk NodeIdent := countable_codec_ok _.
#[global] Instance RootDesc_codec : Codec RootDesc := countable_codec _.
#[global] Instance RootDesc_codec_ok : CodecOk RootDesc := countable_codec_ok _.
#[local] Instance host_cc_codec : Codec ConfChangeV2 := {| encode_to_vec _ := []; decode_msg _ := None |}.
#[local] Instance host_changes_codec : Codec ChangeReplicas := {| encode_to_vec _ := []; decode_msg _ := Some [] |}.
#[local] Instance host_eval_codec : Codec EvalResult := {| encode_to_vec _ := []; decode_msg _ := None |}.

(** A new raft node: no leader, the recorded vote and term; it refuses id 0 and
    a commit index outside the log. *)
#[global] Instance sample_raw_node : RawNode := {
  raw_node id applied st :=
    let hs := st_hard_state st in
    if id =? 0 then Panic
    else if (hs_commit hs <? st_first_index st - 1) || (st_last_index st <? hs_commit hs) then Panic
    else Ok (0, hs_vote hs, hs_term hs) }.
#[global] Instance sample_raw_node_ok : RawNodeOk.
Proof. split. intros id st Hid _ _ Hc. cbn. zbool. cbn. by eexists. Qed.

(** ** The node *)
#[local] Abbreviation DB := (gmap bytes bytes).
Definition init_config : Config := mkConfig "a" true [].
Definition join_config : Config := mkConfig "b" false ["a"].
Definition after {A} (m : prog (Node DB) Error A) (n : Node DB) : Node DB :=
  match m n with Some (_, n') => n' | None => n end.
Definition outcome {A} (m : prog (Node DB) Error A) (n : Node DB) : option (Result unit) :=
  match m n with
  | Some (Ok _, _) => Some (Ok tt)
  | Some (Err e, _) => Some (Err e)
  | Some (Panic, _) => Some Panic
  | None => None
  end.
Definition empty_disk : Disk DB := mkDisk ∅ ∅.
Definition first_node : Node DB := after (run_node init_config []) (Node_new empty_disk).
Definition group5 : GroupDesc := mkGroupDesc 5 1 [] [mkReplicaDesc 7 0 0].

Lemma first_node_hosts : hosting first_ident first_served first_node.
Proof.
  destruct (first_start_ok (DB := DB) init_config eq_refl) as (n & Hrun & Hh).
  unfold first_node, after. change (Node_new empty_disk) with (Node_new (mkDisk ∅ ∅ : Disk DB)). by rewrite Hrun.
Qed.
Lemma first_served_group r g : first_served !! r = Some g → g = 0 ∨ g = 1.
Proof.
  unfold first_served. rewrite !lookup_insert_Some, lookup_empty.
  intros [[_ <-]|[_ [[_ <-]|[_ ?]]]]; [by right|by left|done].
Qed.
Lemma new_replica_record : stored (dk_log (nd_disk first_node)) 7 = None.
Proof. computed. Qed.

(** Replica 7 of group 5 is created, created again, refused a sibling, removed
    and destroyed. *)
Definition sample_ops : list (Op (DB := DB)) :=
  [OpCreate 7 group5; OpCreate 7 group5; OpRoot (mkRootDesc 2 []); OpRemove 7 group5; OpDestroy 0].
Definition with_seven : gmap Z Z := <[7 := 5]> first_served.
Lemma effect_create : effect (DB := DB) (OpCreate 7 group5) first_served = (Ok tt, with_seven).
Proof. reflexivity. Qed.
Lemma effect_again : effect (DB := DB) (OpCreate 7 group5) with_seven = (Ok tt, with_seven).
Proof. reflexivity. Qed.
Lemma sample_admissible : admissible_run sample_ops first_served first_node.
Proof.
  split; [split_and!; [by vm_compute|done|intros _; apply new_replica_record]|]. intros _ n1 _. rewrite effect_create. cbn [snd].
  split; [split_and!; [by vm_compute|done|by unfold with_seven; rewrite lookup_insert_eq]|]. intros _ n2 _. rewrite effect_again. cbn [snd].
  split; [done|]. intros _ n3 _. cbn [effect snd]. split; [|done]. cbn. unfold with_seven. intros r'. rewrite lookup_insert_Some.
  intros [[<- _]|[_ Hr]]; [done|]. by apply first_served_group in Hr as [?|?].
Qed.

(** The process dies after the record of replica 7 was written. *)
Definition nth_disk (n : Node DB) (i : nat) : Disk DB := default empty_disk (nd_journal n !! i).
Definition created : Node DB := after (create_replica 7 group5) first_node.
Definition recorded_disk : Disk DB := nth_disk created (length (nd_journal first_node) + 1).
Lemma recorded_crash : crash_disk init_config (OpCreate 7 group5) first_node recorded_disk.
Proof.
  destruct (op_ok first_ident first_served first_node (OpCreate 7 group5) first_node_hosts) as (n' & Hr & _ & js & Hj & _).
  { split_and!; [by vm_compute|done|intros _; apply new_replica_record]. }
  apply (crash_during _ _ _ _ _ js _ Hr Hj). unfold recorded_disk, created, after, nth_disk. cbn [run_op] in Hr. rewrite Hr, Hj.
  rewrite lookup_app_r by lia. replace (length (nd_journal first_node) + 1 - length (nd_journal first_node))%nat with 1%nat by lia.
  assert (Hlen : length (nd_journal n') = (length (nd_journal first_node) + 5)%nat).
  { assert (n' = created) as ->; [unfold created, after; by rewrite Hr|]. computed. }
  rewrite Hj, length_app in Hlen. destruct js as [|a [|b js]]; cbn in *; [lia|lia|]. by right; left.
Qed.
Lemma recorded_whole : whole recorded_disk.
Proof.
  assert (Hn : map_Forall (λ _ db, db ≠ (∅ : DB)) (dk_cfs recorded_disk)).
  { apply map_Forall_to_list. assert (Forall (λ p : Z * Z * DB, bool_decide (p.2 = ∅) = false) (map_to_list (dk_cfs recorded_disk))) as Hf.
    { assert (forallb (λ p : Z * Z * DB, negb (bool_decide (p.2 = ∅))) (map_to_list (dk_cfs recorded_disk)) = true) as Hb by computed.
      apply Forall_forall. intros p Hp. rewrite forallb_forall in Hb. apply list_elem_of_In, Hb in Hp. by destruct (bool_decide _). }
    eapply Forall_impl; [exact Hf|]. intros [k db]. cbn. by intros ?%bool_decide_eq_false. }
  intros g r He. by apply (Hn (g, r) _ He).
Qed.

(** ** Where the hypotheses are needed *)
Definition served_ids (n : Node DB) : list Z := (map_to_list (ns_serving_replicas (nd_state n))).*1.
Definition routed (n : Node DB) (g : Z) : option Z := ri_replica_id ∘ hr_info <$> route_find g n.
Definition record_of_replica (n : Node DB) (r : Z) : option (Z * ReplicaLocalState) := stored (dk_log (nd_disk n)) r.

(** [GroupEngine::create] makes the column family before it writes the metadata:
    a process that dies in between finds a column family it cannot open and
    panics at every start. *)
Definition half_disk : Disk DB := nth_disk created (length (nd_journal first_node) + 2).
Lemma half_made_column_family :
  dk_cfs half_disk !! (5, 7) = Some ∅ ∧ outcome (run_node init_config []) (Node_new half_disk) = Some Panic.
Proof. split; computed. Qed.

(** [remove_replica] looks for the group only: a late removal of replica 6, which
    the node does not serve, shuts down and unroutes its successor 7 and then
    panics.  The record of 7 stays, and creating 7 again changes nothing. *)
Definition late_removal : Node DB := after (remove_replica 6 group5) created.
Lemma late_removal_kills_successor :
  routed created 5 = Some 7 ∧ outcome (remove_replica 6 group5) created = Some Panic ∧ routed late_removal 5 = None ∧
  record_of_replica late_removal 7 = Some (5, Normal) ∧
  outcome (create_replica 7 group5) late_removal = Some (Ok tt) ∧ routed (after (create_replica 7 group5) late_removal) 5 = None.
Proof. split_and!; computed. Qed.

(** The records of removed replicas are never looked at by [create_replica]: a
    request that comes once more after the removal makes the replica again, and
    the destroy job of the first life then deletes the log and the data under the
    one that is served. *)
Definition recreated : Node DB := after (create_replica 7 group5) (after (remove_replica 7 group5) created).
Definition undermined : Node DB := after (run_destroy_task 0) recreated.
Lemma removed_replica_recreated :
  outcome (create_replica 7 group5) (after (remove_replica 7 group5) created) = Some (Ok tt) ∧
  routed undermined 5 = Some 7 ∧ dk_cfs (nd_disk undermined) !! (5, 7) = None ∧
  bool_decide (is_Some (dk_log (nd_disk recreated) !! 7)) = true ∧ dk_log (nd_disk undermined) !! 7 = None ∧
  record_of_replica undermined 7 = Some (5, Tombstone).
Proof. split_and!; computed. Qed.

(** A node that joins saves its identity before the root descriptor: when it dies
    in between, every later start fails because there is no root descriptor. *)
Definition joined : Node DB :=
  after (try_join_cluster "b" ["a"] [Some (mkJoinNodeResponse [] 3 (Some (mkRootDesc 1 [])))]) (Node_new empty_disk).
Lemma joining_node_stuck :
  outcome (run_node join_config []) (Node_new (nth_disk joined 0)) = Some (Err (InvalidData "root not found")).
Proof. computed. Qed.

(** The records are in region 0 of the log engine: a request to create replica 0
    clears it, with the identity of the node and the records of its replicas. *)
Lemma replica_zero_clears_records :
  record_of_replica first_node 1 = Some (ROOT_GROUP_ID, Normal) ∧
  (let n := after (create_replica 0 group5) first_node in
   record_of_replica n 1 = None ∧ read_ident (dk_log (nd_disk n)) = Ok None).
Proof. split; [computed|split; computed]. Qed.
